(* ===== verification/_CoqProject ===== *)
-Q . S2P
Prelude.v
Tnum.v
EbpfMaps.v
EbpfVm.v
EbpfVerifier.v
EbpfCfg.v
EbpfSound.v
EbpfSafe.v
EbpfSys.v
Ash.v
Buddy.v
Seccomp.v
SeccompSound.v
Objects.v
Pipe.v
UserAccess.v
FdTable.v
MqQueue.v
MqSys.v
Vma.v
VmaSound.v
VmaRemap.v
Landlock.v
Sched.v
SchedSound.v
SchedRun.v
Sha256.v
Sha256Sound.v
Kaslr.v
KaslrSound.v
Reno.v
Creds.v
CredsSound.v
Futex.v
Shm.v
ShmSound.v
Lsm.v
Entry.v
Signals.v
SignalsSound.v
Dispatch.v
DispatchSound.v
SkyDisk.v
SkyFs.v
SkyFsSound.v
SkyMount.v
SkyAlloc.v
SkyFiles.v
SkyDirs.v
BlockCache.v
BlockSched.v
Partition.v
IrqMutex.v
Vfs.v
Tmpfs.v
FsPath.v
FsSound.v
