(* ===== verification/Prelude.v ===== *)
(** * Verification of the Vahi kernel

    A model of parts of the Vahi kernel (Rust, [src/kernel] and [src/crates])
    with the theorems that make them correct. Pure functions of the source are
    functions here; code that changes shared state takes and returns it; code
    that can fail or panic returns an option or a sum. Machine integers are
    [Z] values with their wrap-around written out, for the release profile
    (no overflow checks) of x86_64 (little-endian).

    ** The parts and where they are modelled

    - Programs in the kernel. A user hands bytecode to the [bpf] system call
      or registers it as a handler for network and system call events
      (application-specific handlers). A verifier admits it, an interpreter
      runs it, and it works on shared maps.
      - [Tnum]: [kernel/src/ebpf/tnum.rs], the abstract domain.
      - [EbpfMaps]: [ebpf/maps.rs]; the [Map] trait is a class, with the hash,
        array, perf event and ring buffer maps as instances, and the registry.
      - [EbpfVm]: [ebpf/vm.rs] and [ebpf/helpers.rs], one loop iteration at a
        time ([step]); [exec_raw] repeats it.
      - [EbpfVerifier]: [ebpf/verifier.rs], both passes; [EbpfCfg] and
        [EbpfSound] hold the proofs about them and [EbpfSafe] what they mean
        for the interpreter.
      - [EbpfSys]: [ebpf/mod.rs], the system call.
      - [Ash]: [kernel/src/ash], admission, manager, runtime, hooks, calls.
    - Physical memory. [Buddy]: [crates/memory/src/buddy.rs], free lists
      threaded through the free frames, and [frame_info.rs], reference counts
      and the deferred queue that feeds frames back to the allocator.
    - System call filtering. [Seccomp]: [crates/syscalls/src/seccomp.rs], the
      classic BPF interpreter, and [kernel/src/syscalls/seccomp.rs], the call
      that installs a filter and the hook before every system call.
      [SeccompSound] has a semantics of classic BPF of its own and the proof
      that the interpreter computes its verdict.
    - Kernel objects. [Objects]: [crates/objects/src/security.rs] and
      [kernel/src/objects]: access checks, capabilities, the handle table that
      applies the check when it binds an object, and the named objects.
    - Pipes. [Pipe]: [crates/vfs/src/pipe.rs].
    - User memory. [UserAccess]: [kernel/src/syscalls/user_access.rs], the
      copies between kernel and user memory; memory is a finite map.
    - Descriptors. [FdTable]: the table of [kernel/src/task/process.rs] and
      the calls of [syscalls/fs_open.rs] and [compat.rs] on it.
    - Message queues. [MqQueue]: [kernel/src/ipc/mqueue/queue.rs], the queue;
      [MqSys]: [mod.rs] and [object.rs] there, names, descriptions, charges and
      the system calls, which use [UserAccess] and [FdTable].
    - Address spaces. [Vma]: the regions of [task/process.rs] and the memory
      calls of [syscalls/fs_io.rs]; proofs in [VmaSound] and [VmaRemap].
    - Landlock. [Landlock]: [crates/syscalls/src/landlock.rs], the rule sets,
      and [kernel/src/syscalls/landlock.rs], the calls and the hook.
    - Scheduler. [Sched]: [kernel/src/task/scheduler], the queues of each
      processor, picking, stealing, balancing, blocking, waking, the tick and
      the effect of a switch on the queues. Locks that are only tried are
      parameters, and the heap is one with the promise of the standard
      library's ([HeapPop]). [SchedSound] and [SchedRun] hold the proofs.
    - System calls, from the instruction to the handler and back. [Entry]: the
      assembly of the entry stub ([syscalls/mod.rs]), of the context switch and
      of a child's first return ([task/thread.rs]) as instructions of a small
      machine, and the contexts written for children. [Dispatch]:
      [syscalls/dispatch.rs] and [numbers.rs], the table and the path of a
      request through hook, filter, handler and delivery, and
      [kernel/src/emulation.rs] for Linux programs; the handlers are requests
      that the theorems of [DispatchSound] answer in every way.
    - Signals. [Signals]: [crates/syscalls/src/signal.rs],
      [syscalls/process_signal.rs], the delivery in [dispatch.rs] and signal
      file descriptors; [SignalsSound] holds the proofs, and joins them to
      [Entry].
    - Security policy. [Lsm]: [kernel/src/security.rs].
    - Credentials. [Creds] and [CredsSound]: the calls on user and group ids,
      limits, sessions and process groups, with the locks they hold.
    - Futexes. [Futex]: [syscalls/futex.rs], with the interleaving of the
      steps between two locks.
    - Shared memory. [Shm] and [ShmSound]: System V segments.
    - Hashing. [Sha256] and [Sha256Sound]: [crates/crypto], SHA-256, HMAC and
      PBKDF2, beside the standards; the tables of constants are those of the
      code, and equal those of the standard.
    - Relocation of the kernel. [Kaslr] and [KaslrSound]: the walk over the
      relocations, the new page tables and their activation. What the
      [x86_64] crate's [set_frame] stores is a parameter.
    - Congestion control. [Reno]: the windows and timers of TCP sending.
    - SkyFS, the file system on the disk. [SkyDisk]: devices, blocks and the
      journal, with an effect that keeps the device when an operation fails;
      [SkyFs]: [crates/vfs/src/skyfs] and the page cache. [SkyFsSound],
      [SkyMount], [SkyAlloc], [SkyFiles] and [SkyDirs] hold the proofs about
      blocks and inodes, mounting, allocation, files and directories.
    - Block devices. [crates/drivers/src/block]: [BlockCache], the cache of
      sectors; [BlockSched], the queues of requests; [Partition], the tables of
      partitions and the devices that they are.
    - Locks. [IrqMutex]: [crates/hal/src/sync/mod.rs], each access to memory a
      step of a processor, with interrupts.
    - Paths. [Vfs]: [crates/vfs/src/defs.rs], mounts and the resolution of
      paths; the trait of nodes is a class. [Tmpfs]: [ramfs.rs], the file
      system in memory, an instance of it. [FsPath]: the calls on paths of
      [syscalls/fs_stat.rs] and [fs_open.rs] and the permission checks of
      [helpers.rs], for every instance; they use [UserAccess], [FdTable],
      [Objects], [Landlock] and [Lsm]. [FsSound]: the calls over the file
      system in memory.
    - [Prelude] (this file): integers, bytes, slices, error codes and the
      tactics and hints the others share.

    ** What the theorems show

    - Verifier: [verify] decides exactly a declarative predicate of structural
      safety; run after it, [tnum_verify] never panics, and when it accepts,
      its map is a post-fixpoint of the transfer functions. For straight-line
      programs (no jumps, only operations on which verifier and interpreter
      agree) the map that the pass computes covers the registers of every
      reachable state, divisors are never zero, and accesses stay below the
      top of the stack. Programs whose loads and stores all go through [r10]
      stay inside the stack, jumps included; without jumps they return within
      one iteration per instruction and one more, or panic at the division of
      the least integer by -1. Operations of the domain that are not sound,
      an accepted program that faults and an accepted loop are theorems too,
      with the program exhibited.
    - Maps: the hash table refines a bounded finite map; the ring buffer is a
      byte stream over any sequence of updates and reads; a read between the
      reservation and the copy of a record loses it.
    - Handlers: the manager's tables stay consistent and hold verified
      programs only; events reach exactly the matching handlers.
    - Allocator: allocation and freeing are total and exact, keep the lists
      coalesced, and never hand a page out twice; the query agrees with them.
    - Filtering: the verdict is that of the semantics of classic BPF, and a
      kill where a program leaves it; where the code panics is stated; a mode
      once set stays.
    - Objects: the handle table refines a map with least-free allocation; the
      namespace is a map from normalised paths; the list of an object has
      deny-overrides semantics.
    - Pipes: a bounded FIFO stream; a reader is served when data arrives.
    - User memory: a copy out reads back and touches nothing else.
    - Descriptors: each call changes one slot; pipe installs both ends or
      leaves the same descriptors open.
    - Message queues: delivery by priority, then age; users are charged for
      exactly the live queues they created in every run, in which the attempts
      of waiting calls, closing and several IPC namespaces interleave; opening,
      unlinking and timed sending as specified.
    - Address spaces: the calls keep the regions ordered and disjoint; mmap is
      first fit for every length; munmap is exact; mremap moves everything or
      nothing. Where arguments that wrap around are excluded the theorems say
      so, and lemmas show what they do.
    - Landlock: the longest matching prefix decides, and a process can only
      lose access.
    - Scheduler: no operation loses or duplicates a thread as long as every
      thread may run everywhere; a pick is one of least pass, real-time or
      not. A thread pinned to another processor can be lost by stealing.
    - Entry: a call gives the user its registers back, as long as its handler
      leaves the frame and the per-CPU stack pointer alone. A thread that
      blocks while another makes a call resumes on the other's stack. A forked
      child starts where its parent called, but five registers hold kernel
      values.
    - Dispatch: the table is exactly the registrations of the source; the
      filter is asked once about each request that the hook lets through, with
      what the process issued, and no handler runs without its permission; ten
      Linux numbers and every unknown one reach another call.
    - Signals: exactly what delivery takes, blocks and saves; who may send; the
      invariant of masks, handlers and descriptors. Delivery and entry stub
      together never enter a handler.
    - Policy: a printed policy loads as it was, the last matching rule decides,
      and no rule can name a single process.
    - Credentials: an unprivileged process cannot gain rights by any sequence
      of the calls; each releases its locks, apart from two that panic.
    - Futexes: under any interleaving the word of a priority-inheritance futex
      goes from free to an owner and back by that owner only. A waiter that is
      woken returns as the owner without being it; that is an example.
    - Shared memory: the table keeps its invariant, and attaching and control
      obey mode and owner; a failed attachment leaves nothing behind.
    - Hashing: the code computes the functions of the standards.
    - Relocation: it is applied to all words or none, and both mappings of the
      image are there when the kernel jumps; where the activation panics is
      stated.
    - Congestion control: windows, timeout and estimates stay in bounds, and
      growth is that of slow start and congestion avoidance.
    - SkyFS: a formatted device mounts; allocation takes the least free block;
      what is written is read back, by the same node and, within the bounds of
      an inode, by one opened later, but for pages that the cache still has of
      the inode, and no other file is touched; a directory is a list of entries;
      recovery of the journal replays nothing.
    - Block devices: the cache gives the results of the device; requests are
      neither lost nor repeated while fewer than 2^32 sectors wait, but their
      buffers can be; scanning for
      partitions stays in its buffers, and disjoint partitions are independent.
    - Locks: exclusion under every interleaving, and when interrupts are on.
    - Paths: after any mounts resolution refines a name space of mount points;
      operations in memory keep trees and change one entry; the calls on paths
      but five change only what mode bits, owner and capabilities, stated apart
      from the checks of the code, give the caller; an opened
      node gets the lowest descriptor free in both tables, whatever its mode;
      what [mkdir] makes is found by its path and belongs to the caller. Calls
      that are not checked, that panic or that miss their file are examples.

    ** Bounds and fuel

    Recursion follows the source's own measure wherever there is one: orders
    of the allocator ([MAX_ORDER]), passes of a pipe reader (4097), the
    verifier's own budgets. The filter interpreter has one iteration of fuel
    per instruction and one more, which is proved enough because jumps only go
    forward. The walks along free lists take a fuel that the theorems require
    to be at least the length of the list. The search for a free region takes
    one pass more than there are regions, which is proved enough for lengths
    within the address range; a timed send is given one attempt for each check
    of the clock up to its deadline. Messages to hash have less than 2^61
    bytes, as the standard asks; segment sizes are those of a TCP option;
    shared memory is used fewer than 2^32 - 1 times, so that the numbers of
    segments do not repeat. [sys_pause] runs over the list of the states it
    wakes up in. The interpreter of eBPF programs
    has no bound in the source either: theorems about it speak of every number
    of steps, or give the number that suffices.

    A path follows forty links at most, as the source says, so resolution has 41
    as its fuel; a search has one more than there are nodes, which is proved
    enough. The extent tree of SkyFS is followed 64 levels, more than a device
    has room for; its bitmap has fewer than 2^40 blocks and devices at most 2^57
    sectors, so that numbers of blocks and sectors do not wrap around. The
    tables of a process have fewer than 2^63 - 1 slots.

    ** What is not modelled

    Hardware (page table walks, interrupt controllers, devices), native code
    produced by the JIT, which nothing runs, floating point statistics, serial
    logging, and locks beyond the interleavings stated. Of the scheduler:
    start-up, replacing the current thread in exec, interval timers, and what
    cleaning up an exited thread does to its process. Of process creation only
    the register contexts are modelled; of the network stack only congestion
    control and the sending path; of the Linux layer all but the detection of
    Linux programs, which needs an ELF library. Setting up the CPU for system
    calls, entropy, the jump into the relocated kernel, the file systems other
    than SkyFS and the one in memory, what is mounted at start-up, reading and
    writing through descriptors of files, the slab allocator and swap, timers
    and event descriptors, tracing, control groups and namespaces, and the
    graphics code are not modelled. *)

From Stdlib Require Export ZArith Lia Bool List.
From stdpp Require Export base tactics list numbers option gmap sorting relations.

#[export] Set Default Goal Selector "!".
#[global] Open Scope Z_scope.

(** ** Machine integers

    A [w]-bit integer is a [Z] in its range; every operation that can leave
    the range writes its wrap-around out.  The kernel's release profile has
    overflow checks off, so plain [+] on [usize] and [u64] wraps as well. *)

Abbreviation M8 := 256.
Abbreviation M16 := 65536.
Abbreviation M32 := 4294967296.
Abbreviation M63 := 9223372036854775808.
Abbreviation M64 := 18446744073709551616.

Definition u8 (x : Z) : Z := x mod M8.
Definition u16 (x : Z) : Z := x mod M16.
Definition u32 (x : Z) : Z := x mod M32.
Definition u64 (x : Z) : Z := x mod M64.

(** Reinterpreting the low 32 or 64 bits as a two's-complement integer. *)
Definition i32 (x : Z) : Z :=
  let u := x mod M32 in if u <? 2147483648 then u else u - M32.
Definition i64 (x : Z) : Z :=
  let u := x mod M64 in if u <? M63 then u else u - M64.

Definition is_u8 (x : Z) : Prop := 0 <= x < M8.
Definition is_u16 (x : Z) : Prop := 0 <= x < M16.
Definition is_u32 (x : Z) : Prop := 0 <= x < M32.
Definition is_u64 (x : Z) : Prop := 0 <= x < M64.
Definition is_i16 (x : Z) : Prop := -32768 <= x < 32768.
Definition is_i32 (x : Z) : Prop := -2147483648 <= x < 2147483648.
Definition is_i64 (x : Z) : Prop := - M63 <= x < M63.

#[export] Instance is_u8_dec x : Decision (is_u8 x).
Proof. unfold is_u8; apply _. Defined.
#[export] Instance is_u32_dec x : Decision (is_u32 x).
Proof. unfold is_u32; apply _. Defined.
#[export] Instance is_u64_dec x : Decision (is_u64 x).
Proof. unfold is_u64; apply _. Defined.

(** Bitwise complement of a [u64] ([!x] in Rust). *)
Definition not64 (x : Z) : Z := Z.lnot x mod M64.

(** [x << n] and [x >> n] on [u64] for a shift amount already below 64. *)
Definition shl64 (x n : Z) : Z := Z.shiftl x n mod M64.
Definition shr64 (x n : Z) : Z := Z.shiftr x n.

(** [wrapping_shl] and [wrapping_shr]: the amount is taken modulo 64. *)
Definition wrapping_shl64 (x n : Z) : Z := shl64 x (n mod 64).
Definition wrapping_shr64 (x n : Z) : Z := shr64 x (n mod 64).

(** [usize::next_power_of_two]. *)
Definition next_power_of_two (x : Z) : Z := if x <=? 1 then 1 else 2 ^ Z.log2_up x.

Create HintDb word.
Create Rewrite HintDb bits.

Ltac unfold_words :=
  unfold is_u8, is_u16, is_u32, is_u64, is_i16, is_i32, is_i64,
    u8, u16, u32, u64 in *.

Lemma u64_range x : is_u64 (u64 x).
Proof. unfold is_u64, u64. apply Z.mod_pos_bound. lia. Qed.

Lemma u32_range x : is_u32 (u32 x).
Proof. unfold is_u32, u32. apply Z.mod_pos_bound. lia. Qed.

Lemma u8_range x : is_u8 (u8 x).
Proof. unfold is_u8, u8. apply Z.mod_pos_bound. lia. Qed.

Lemma u64_small x : is_u64 x -> u64 x = x.
Proof. intros H. unfold u64. by apply Z.mod_small. Qed.

Lemma u64_i64 x : u64 (i64 x) = u64 x.
Proof.
  unfold u64, i64. case_match; [by rewrite Z.mod_mod by lia|].
  replace (x mod M64 - M64) with (x mod M64 + (-1) * M64) by lia.
  rewrite Z.mod_add by lia. by rewrite Z.mod_mod by lia.
Qed.

Lemma i64_range x : is_i64 (i64 x).
Proof.
  unfold is_i64, i64. pose proof (Z.mod_pos_bound x M64 ltac:(lia)).
  case_match; lia.
Qed.

Lemma i64_u64 x : i64 (u64 x) = i64 x.
Proof. unfold i64, u64. by rewrite Z.mod_mod by lia. Qed.

Lemma not64_range x : is_u64 (not64 x).
Proof. unfold is_u64, not64. apply Z.mod_pos_bound. lia. Qed.

Lemma shl64_range x n : is_u64 (shl64 x n).
Proof. unfold is_u64, shl64. apply Z.mod_pos_bound. lia. Qed.

(** ** Bits of a [u64] *)

Lemma u64_bits_high x i : is_u64 x -> 64 <= i -> Z.testbit x i = false.
Proof.
  intros H Hi. rewrite <- (Z.mod_small x (2 ^ 64)) by exact H.
  by apply Z.mod_pow2_bits_high.
Qed.

Lemma is_u64_intro x :
  0 <= x -> (forall i, 64 <= i -> Z.testbit x i = false) -> is_u64 x.
Proof.
  intros Hx Hbits. split; [done|].
  replace x with (x mod 2 ^ 64).
  { apply (Z.mod_pos_bound x (2 ^ 64)). lia. }
  apply Z.bits_inj'. intros i Hi.
  destruct (Z.lt_ge_cases i 64).
  - by rewrite Z.mod_pow2_bits_low.
  - rewrite Z.mod_pow2_bits_high by lia. by rewrite Hbits.
Qed.

Lemma u64_ext x y :
  is_u64 x -> is_u64 y ->
  (forall i, 0 <= i < 64 -> Z.testbit x i = Z.testbit y i) -> x = y.
Proof.
  intros Hx Hy Heq. apply Z.bits_inj'. intros i Hi.
  destruct (Z.lt_ge_cases i 64); [by apply Heq|].
  by rewrite !u64_bits_high.
Qed.

Lemma u64_land x y : is_u64 x -> is_u64 y -> is_u64 (Z.land x y).
Proof.
  intros Hx Hy. apply is_u64_intro; [apply Z.land_nonneg; left; apply Hx|].
  intros i Hi. by rewrite Z.land_spec, u64_bits_high.
Qed.

Lemma u64_lor x y : is_u64 x -> is_u64 y -> is_u64 (Z.lor x y).
Proof.
  intros Hx Hy. apply is_u64_intro.
  { apply Z.lor_nonneg. split; [apply Hx | apply Hy]. }
  intros i Hi. rewrite Z.lor_spec. by rewrite !u64_bits_high.
Qed.

Lemma u64_lxor x y : is_u64 x -> is_u64 y -> is_u64 (Z.lxor x y).
Proof.
  intros Hx Hy. apply is_u64_intro.
  { apply Z.lxor_nonneg. destruct Hx, Hy. tauto. }
  intros i Hi. rewrite Z.lxor_spec. by rewrite !u64_bits_high.
Qed.

Lemma u64_shr64 x n : is_u64 x -> 0 <= n -> is_u64 (shr64 x n).
Proof.
  intros Hx Hn. apply is_u64_intro.
  { apply Z.shiftr_nonneg, Hx. }
  intros i Hi. unfold shr64. rewrite Z.shiftr_spec by lia.
  apply u64_bits_high; [done | lia].
Qed.

Lemma u64_spec x i :
  0 <= i -> Z.testbit (u64 x) i = (i <? 64) && Z.testbit x i.
Proof.
  intros Hi. change (u64 x) with (x mod 2 ^ 64). destruct (Z.ltb_spec i 64).
  - by rewrite Z.mod_pow2_bits_low.
  - by rewrite Z.mod_pow2_bits_high by lia.
Qed.

Lemma not64_spec x i :
  0 <= i -> Z.testbit (not64 x) i = (i <? 64) && negb (Z.testbit x i).
Proof.
  intros Hi. change (not64 x) with (u64 (Z.lnot x)).
  rewrite u64_spec by done. by rewrite Z.lnot_spec.
Qed.

Lemma shl64_spec x n i :
  0 <= n -> 0 <= i ->
  Z.testbit (shl64 x n) i = (i <? 64) && Z.testbit x (i - n).
Proof.
  intros Hn Hi. change (shl64 x n) with (u64 (Z.shiftl x n)).
  rewrite u64_spec by done. by rewrite Z.shiftl_spec.
Qed.

Lemma shr64_spec x n i :
  0 <= i -> Z.testbit (shr64 x n) i = Z.testbit x (i + n).
Proof. apply Z.shiftr_spec. Qed.

Lemma u64_max_spec i : 0 <= i -> Z.testbit (M64 - 1) i = (i <? 64).
Proof.
  intros Hi. change (M64 - 1) with (Z.ones 64). destruct (Z.ltb_spec i 64).
  - apply Z.ones_spec_low. lia.
  - apply Z.ones_spec_high. lia.
Qed.

#[export] Hint Resolve u64_range u32_range u8_range not64_range shl64_range
  u64_land u64_lor u64_lxor u64_shr64 : word.

#[export] Hint Rewrite Z.land_spec Z.lor_spec Z.lxor_spec Z.testbit_0_l : bits.
#[export] Hint Rewrite u64_spec not64_spec shl64_spec shr64_spec u64_max_spec
  using lia : bits.

(** [bits_simp] pushes [Z.testbit] through the word operations and discharges
    the in-range tests. *)
Ltac bits_simp :=
  autorewrite with bits in *;
  repeat match goal with
    | H : context [?i <? 64] |- _ => rewrite (proj2 (Z.ltb_lt i 64)) in H by lia
    | |- context [?i <? 64] => rewrite (proj2 (Z.ltb_lt i 64)) by lia
    end; simpl andb in *.

(** [bool_cases] closes a goal by running over the boolean atoms in it. *)
Ltac bool_cases :=
  repeat match goal with
    | |- context [Z.testbit ?x ?i] => destruct (Z.testbit x i) in *
    | H : context [Z.testbit ?x ?i] |- _ => destruct (Z.testbit x i) in *
    end; simpl in *; try congruence; try tauto.

(** A bitwise-smaller word is numerically smaller. *)
Lemma bits_subset_le x y :
  0 <= x -> 0 <= y ->
  (forall i, 0 <= i -> Z.testbit x i = true -> Z.testbit y i = true) -> x <= y.
Proof.
  intros Hx Hy Hsub. apply Z.ldiff_le; [done|].
  apply Z.bits_inj'. intros i Hi. rewrite Z.ldiff_spec, Z.testbit_0_l.
  specialize (Hsub i Hi). destruct (Z.testbit x i), (Z.testbit y i); naive_solver.
Qed.

(** ** Bit [i] of a sum: the two bits and the carry into position [i] *)

Definition carry_in (x y i : Z) : bool := 2 ^ i <=? x mod 2 ^ i + y mod 2 ^ i.

Lemma add_spec x y i :
  0 <= i ->
  Z.testbit (x + y) i =
    xorb (xorb (Z.testbit x i) (Z.testbit y i)) (carry_in x y i).
Proof.
  intros Hi. rewrite !Z.testbit_odd, !Z.shiftr_div_pow2 by done.
  assert (Hp : 0 < 2 ^ i) by (apply Z.pow_pos_nonneg; lia).
  pose proof (Z.mod_pos_bound x _ Hp). pose proof (Z.mod_pos_bound y _ Hp).
  assert (Hq : (x + y) / 2 ^ i =
    x / 2 ^ i + y / 2 ^ i + (x mod 2 ^ i + y mod 2 ^ i) / 2 ^ i).
  { rewrite (Z.div_mod x (2 ^ i)) at 1 by lia.
    rewrite (Z.div_mod y (2 ^ i)) at 1 by lia.
    replace (2 ^ i * (x / 2 ^ i) + x mod 2 ^ i + (2 ^ i * (y / 2 ^ i) + y mod 2 ^ i))
      with (x mod 2 ^ i + y mod 2 ^ i + (x / 2 ^ i + y / 2 ^ i) * 2 ^ i) by ring.
    rewrite Z.div_add by lia. ring. }
  rewrite Hq, !Z.odd_add. unfold carry_in. f_equal.
  destruct (Z.leb_spec (2 ^ i) (x mod 2 ^ i + y mod 2 ^ i)).
  - replace ((x mod 2 ^ i + y mod 2 ^ i) / 2 ^ i) with 1; [done|].
    apply Z.div_unique with (x mod 2 ^ i + y mod 2 ^ i - 2 ^ i); lia.
  - by rewrite Z.div_small by lia.
Qed.

Lemma carry_in_mono x y x' y' i :
  x mod 2 ^ i <= x' mod 2 ^ i -> y mod 2 ^ i <= y' mod 2 ^ i ->
  carry_in x y i = true -> carry_in x' y' i = true.
Proof. unfold carry_in. intros ?? H%Z.leb_le. apply Z.leb_le. lia. Qed.

Lemma mod_pow2_mono x y n :
  0 <= n ->
  (forall i, 0 <= i < n -> Z.testbit x i = true -> Z.testbit y i = true) ->
  x mod 2 ^ n <= y mod 2 ^ n.
Proof.
  intros Hn Hsub. assert (0 < 2 ^ n) by (apply Z.pow_pos_nonneg; lia).
  apply bits_subset_le; [by apply Z.mod_pos_bound ..|].
  intros i Hi. destruct (Z.lt_ge_cases i n).
  - rewrite !Z.mod_pow2_bits_low by lia. apply Hsub. lia.
  - by rewrite Z.mod_pow2_bits_high by lia.
Qed.

(** ** Prefixes of the bits *)

(** [(1 << n) - 1] selects the low [n] bits. *)
Lemma low_mask n : 0 <= n < 64 -> u64 (wrapping_shl64 1 n - 1) = Z.ones n.
Proof.
  intros Hn. unfold wrapping_shl64, shl64, u64. rewrite (Z.mod_small n) by lia.
  rewrite Z.shiftl_1_l, Z.ones_equiv.
  pose proof (Z.pow_lt_mono_r 2 n 64 ltac:(lia) ltac:(lia) ltac:(lia)) as Hp.
  change (2 ^ 64) with M64 in Hp.
  assert (0 < 2 ^ n) by (apply Z.pow_pos_nonneg; lia).
  rewrite (Z.mod_small (2 ^ n)) by lia. rewrite Z.mod_small by lia. lia.
Qed.

Lemma div_pow2_eq_bits x y n i :
  0 <= n <= i -> x / 2 ^ n = y / 2 ^ n -> Z.testbit x i = Z.testbit y i.
Proof.
  intros Hi Heq. rewrite <- !Z.shiftr_div_pow2 in Heq by lia.
  apply (f_equal (fun z => Z.testbit z (i - n))) in Heq.
  rewrite !Z.shiftr_spec in Heq by lia. by replace (i - n + n) with i in Heq by lia.
Qed.

(** Two numbers agree above the highest bit where they differ. *)
Lemma div_pow2_eq_of_lxor x y :
  0 <= x -> 0 <= y -> 0 < Z.lxor x y ->
  x / 2 ^ (Z.log2 (Z.lxor x y) + 1) = y / 2 ^ (Z.log2 (Z.lxor x y) + 1).
Proof.
  intros Hx Hy Hd. pose proof (Z.log2_nonneg (Z.lxor x y)).
  rewrite <- !Z.shiftr_div_pow2 by lia. apply Z.bits_inj'. intros i Hi.
  rewrite !Z.shiftr_spec by done.
  assert (Hdi : Z.testbit (Z.lxor x y) (i + (Z.log2 (Z.lxor x y) + 1)) = false)
    by (apply Z.bits_above_log2; lia).
  rewrite Z.lxor_spec in Hdi. by apply xorb_eq.
Qed.

(** ** Byte buffers

    A byte slice is a [list Z] of values below 256.  [slice off n l] is
    [&l[off..off + n]] and [splice off d l] is the buffer after
    [l[off..off + d.len()].copy_from_slice(d)]; both are used only where the
    source has checked the range. *)

Abbreviation bytes := (Forall is_u8).

Definition slice {A} (off n : nat) (l : list A) : list A := take n (drop off l).

Definition splice {A} (off : nat) (d l : list A) : list A :=
  take off l ++ d ++ drop (off + length d) l.

Section splice.
Context {A : Type}.
Implicit Types l d : list A.

Lemma length_slice off n l : (off + n <= length l)%nat -> length (slice off n l) = n.
Proof. intros. unfold slice. rewrite length_take, length_drop. lia. Qed.

Lemma length_splice off d l :
  (off + length d <= length l)%nat -> length (splice off d l) = length l.
Proof.
  intros. unfold splice. rewrite !length_app, length_take, length_drop. lia.
Qed.

Lemma lookup_slice off n l i :
  slice off n l !! i = if decide (i < n)%nat then l !! (off + i)%nat else None.
Proof.
  unfold slice. case_decide.
  - by rewrite lookup_take_lt, lookup_drop.
  - by rewrite lookup_take_ge by lia.
Qed.

Lemma lookup_splice off d l i :
  (off + length d <= length l)%nat ->
  splice off d l !! i =
    if decide (off <= i < off + length d)%nat then d !! (i - off)%nat else l !! i.
Proof.
  intros Hle. unfold splice. assert (Hlt : length (take off l) = off).
  { rewrite length_take. lia. }
  case_decide as Hin.
  - rewrite lookup_app_r, Hlt, lookup_app_l by lia. done.
  - destruct (decide (i < off)%nat).
    + rewrite lookup_app_l by lia. by rewrite lookup_take_lt.
    + rewrite lookup_app_r, Hlt, lookup_app_r by lia.
      rewrite lookup_drop. f_equal. lia.
Qed.

(** Reading back what was written. *)
Lemma slice_splice_eq off d l :
  (off + length d <= length l)%nat -> slice off (length d) (splice off d l) = d.
Proof.
  intros Hle. apply list_eq. intros i. rewrite lookup_slice. case_decide.
  - rewrite lookup_splice, decide_True by lia. f_equal. lia.
  - symmetry. apply lookup_ge_None. lia.
Qed.

(** Bytes outside the written range are untouched. *)
Lemma slice_splice_ne off d l off' n :
  (off + length d <= length l)%nat ->
  (off' + n <= off \/ off + length d <= off')%nat ->
  slice off' n (splice off d l) = slice off' n l.
Proof.
  intros Hle Hdisj. apply list_eq. intros i. rewrite !lookup_slice.
  case_decide; [|done]. rewrite lookup_splice, decide_False by lia. done.
Qed.

Lemma Forall_slice (P : A -> Prop) off n l : Forall P l -> Forall P (slice off n l).
Proof. intros. unfold slice. by apply Forall_take, Forall_drop. Qed.

Lemma Forall_splice (P : A -> Prop) off d l :
  Forall P d -> Forall P l -> Forall P (splice off d l).
Proof.
  intros. unfold splice. rewrite !Forall_app.
  split_and!; [by apply Forall_take | done | by apply Forall_drop].
Qed.
End splice.

#[export] Hint Resolve Forall_slice Forall_splice : word.

(** Little-endian encoding ([to_ne_bytes] and [from_ne_bytes] on x86_64). *)
Fixpoint le_bytes (n : nat) (x : Z) : list Z :=
  match n with
  | O => []
  | S n => x mod M8 :: le_bytes n (x / M8)
  end.

Fixpoint le_value (l : list Z) : Z :=
  match l with
  | [] => 0
  | b :: l => b + M8 * le_value l
  end.

Lemma length_le_bytes n x : length (le_bytes n x) = n.
Proof. revert x. induction n; intros; simpl; auto. Qed.

Lemma le_bytes_u8 n x : bytes (le_bytes n x).
Proof.
  revert x. induction n; intros; simpl; constructor; auto. by apply u8_range.
Qed.

Lemma le_value_le_bytes n x : le_value (le_bytes n x) = x mod M8 ^ Z.of_nat n.
Proof.
  revert x. induction n as [|n IH]; intros x; simpl le_bytes; simpl le_value.
  { by rewrite Z.mod_1_r. }
  rewrite IH, Nat2Z.inj_succ, Z.pow_succ_r by lia.
  rewrite Z.rem_mul_r; [ring | lia | apply Z.pow_pos_nonneg; lia].
Qed.

Lemma le_value_range l : bytes l -> 0 <= le_value l < M8 ^ Z.of_nat (length l).
Proof.
  induction 1 as [|b l Hb Hl IH]; [simpl; lia|].
  cbn [le_value length]. rewrite Nat2Z.inj_succ, Z.pow_succ_r by lia.
  unfold is_u8 in Hb. lia.
Qed.

Lemma le_bytes_le_value l : bytes l -> le_bytes (length l) (le_value l) = l.
Proof.
  induction 1 as [|b l Hb Hl IH]; [done|]. cbn [le_value length le_bytes].
  unfold is_u8 in Hb. f_equal.
  - replace (b + M8 * le_value l) with (b + le_value l * M8) by ring.
    rewrite Z.mod_add by lia. by apply Z.mod_small.
  - replace (b + M8 * le_value l) with (b + le_value l * M8) by ring.
    rewrite Z.div_add, Z.div_small by lia. done.
Qed.

#[export] Hint Resolve le_bytes_u8 : word.

(** Wrapping at 64 bits does not disturb a residue modulo a power of two. *)
Lemma u64_mod_pow2 x k : 0 <= k <= 64 -> u64 x mod 2 ^ k = x mod 2 ^ k.
Proof.
  intros Hk. unfold u64. change M64 with (2 ^ 64).
  replace (2 ^ 64) with (2 ^ k * 2 ^ (64 - k)) by (rewrite <- Z.pow_add_r by lia; f_equal; lia).
  assert (0 < 2 ^ k) by (apply Z.pow_pos_nonneg; lia).
  assert (0 < 2 ^ (64 - k)) by (apply Z.pow_pos_nonneg; lia).
  rewrite Z.rem_mul_r by lia.
  rewrite Z.mul_comm, Z.mod_add by lia. by apply Z.mod_mod; lia.
Qed.

(** ** Error codes

    [Errno] of [crates/types/src/errno.rs]; system calls return them as
    [Errno::X as u64]. *)

Module Errno.

Definition EPERM : Z := -1.
Definition ENOENT : Z := -2.
Definition ENFILE : Z := -23.
Definition EMFILE : Z := -24.
Definition ESRCH : Z := -3.
Definition EINTR : Z := -4.
Definition EIO : Z := -5.
Definition ENXIO : Z := -6.
Definition E2BIG : Z := -7.
Definition ENOEXEC : Z := -8.
Definition EBADF : Z := -9.
Definition ECHILD : Z := -10.
Definition EAGAIN : Z := -11.
Definition ENOMEM : Z := -12.
Definition EACCES : Z := -13.
Definition EFAULT : Z := -14.
Definition ENOTBLK : Z := -15.
Definition EBUSY : Z := -16.
Definition EEXIST : Z := -17.
Definition EXDEV : Z := -18.
Definition ENODEV : Z := -19.
Definition ENOTTY : Z := -25.
Definition ETXTBSY : Z := -26.
Definition EFBIG : Z := -27.
Definition ENOSPC : Z := -28.
Definition ESPIPE : Z := -29.
Definition EROFS : Z := -30.
Definition EMLINK : Z := -31.
Definition EPIPE : Z := -32.
Definition EDOM : Z := -33.
Definition ERANGE : Z := -34.
Definition EINVAL : Z := -22.
Definition ENOSYS : Z := -38.
Definition ELOOP : Z := -40.
Definition ENOTDIR : Z := -20.
Definition EISDIR : Z := -21.
Definition EAFNOSUPPORT : Z := -97.
Definition EADDRINUSE : Z := -98.
Definition EOPNOTSUPP : Z := -95.
Definition ECONNREFUSED : Z := -111.
Definition ECONNRESET : Z := -104.
Definition EALREADY : Z := -114.
Definition EDESTADDRREQ : Z := -89.
Definition ENOPROTOOPT : Z := -92.
Definition ENOTSOCK : Z := -88.
Definition ENOTCONN : Z := -107.
Definition EIDRM : Z := -43.
Definition ECANCELED : Z := -125.
Definition EOWNERDEAD : Z := -130.
Definition ENOTRECOVERABLE : Z := -131.
Definition EMSGSIZE : Z := -90.
Definition ENAMETOOLONG : Z := -36.
Definition EOVERFLOW : Z := -75.
Definition ETIMEDOUT : Z := -110.

(** [e as u64]. *)
Definition ret (e : Z) : Z := u64 e.

(** [-(e as i64) as u64]: the codes are negative already, so this one is
    positive. *)
Definition neg_ret (e : Z) : Z := u64 (- i64 (ret e)).

End Errno.
