(* ===== verification/Tnum.v ===== *)
(** * eBPF tristate numbers

    Model of [kernel/src/ebpf/tnum.rs].  A tristate number abstracts a set of
    [u64] values: bit [i] is unknown when it is set in [mask] and otherwise
    equal to bit [i] of [value].  Every operation of the source is translated;
    the theorems relate each one to the machine operation it abstracts. *)

From S2P Require Import Prelude.

Record Tnum := mkTnum { value : Z; mask : Z }.

#[export] Instance Tnum_eq_dec : EqDecision Tnum.
Proof. solve_decision. Defined.

Module Tnum.

(** ** The operations of [impl Tnum] *)

Definition exact (v : Z) : Tnum := mkTnum v 0.

Definition any : Tnum := mkTnum 0 (M64 - 1).

Definition from_const (v bit_count : Z) : Tnum :=
  if 64 <=? bit_count then exact v
  else let m := shl64 (M64 - 1) bit_count in mkTnum (Z.land v (not64 m)) m.

(** [u64::leading_zeros]. *)
Definition leading_zeros (x : Z) : Z := if x <=? 0 then 64 else 63 - Z.log2 x.

(** The shift [1u64 << (64 - lz)] has amount 64 when [lz = 0]; without
    overflow checks the amount is masked to six bits. *)
Definition from_range (lo hi : Z) : Tnum :=
  if lo =? hi then exact lo
  else if hi <? lo then any
  else
    let diff := Z.lxor lo hi in
    let m := u64 (wrapping_shl64 1 (64 - leading_zeros diff) - 1) in
    mkTnum (Z.land lo (not64 m)) m.

Definition for_aligned_access (offset size : Z) : Tnum :=
  let end_ := u64 (offset + size - 1) in
  mkTnum (Z.land offset (not64 (u64 (size - 1)))) (Z.land end_ (u64 (size - 1))).

Definition add (a b : Tnum) : Tnum :=
  let sm := u64 (mask a + mask b) in
  let sv := u64 (value a + value b) in
  let sigma := u64 (sm + sv) in
  let chi := Z.lxor sigma sv in
  let mu := Z.lor (Z.lor (mask a) (mask b)) chi in
  mkTnum (Z.land sv (not64 mu)) mu.

Definition sub (a b : Tnum) : Tnum :=
  let sv := u64 (value a - value b) in
  let sn := u64 (value a + not64 (value b)) in
  let mu := Z.lor (Z.lor (mask a) (mask b)) (Z.lxor sv sn) in
  mkTnum (Z.land sv (not64 mu)) mu.

Definition mul (a b : Tnum) : Tnum :=
  if (mask a =? 0) && (mask b =? 0) then exact (u64 (value a * value b)) else any.

Definition and (a b : Tnum) : Tnum :=
  mkTnum (Z.land (value a) (value b))
    (Z.lor (Z.lor (Z.land (mask a) (not64 (value b)))
                  (Z.land (mask b) (not64 (value a))))
           (Z.land (mask a) (mask b))).

Definition or (a b : Tnum) : Tnum :=
  mkTnum (Z.land (Z.lor (value a) (value b)) (not64 (Z.lor (mask a) (mask b))))
    (Z.lor (mask a) (mask b)).

Definition xor (a b : Tnum) : Tnum :=
  mkTnum (Z.land (Z.lxor (value a) (value b)) (not64 (Z.lor (mask a) (mask b))))
    (Z.lor (mask a) (mask b)).

Definition shl (a b : Tnum) : Tnum :=
  if negb (mask b =? 0) then any
  else if 64 <=? value b then any
  else mkTnum (shl64 (value a) (value b)) (shl64 (mask a) (value b)).

Definition lshr (a b : Tnum) : Tnum :=
  if negb (mask b =? 0) then any
  else if 64 <=? value b then any
  else mkTnum (shr64 (value a) (value b)) (shr64 (mask a) (value b)).

(** [i64 >> u64]: arithmetic shift, amount masked to six bits. *)
Definition ashr (a b : Tnum) : Tnum :=
  if negb (mask b =? 0) then any
  else mkTnum (u64 (Z.shiftr (i64 (value a)) (value b mod 64))) (M64 - 1).

Definition neg (a : Tnum) : Tnum := mkTnum (u64 (not64 (value a) + 1)) (mask a).

Definition min (a : Tnum) : Z := value a.
Definition max (a : Tnum) : Z := Z.lor (value a) (mask a).
Definition could_be_zero (a : Tnum) : bool := Z.land (value a) (not64 (mask a)) =? 0.
Definition could_be_nonzero (a : Tnum) : bool :=
  negb (value a =? 0) || negb (mask a =? 0).
Definition is_exact (a : Tnum) : bool := mask a =? 0.
Definition is_subrange (a : Tnum) (lo hi : Z) : bool := (lo <=? min a) && (max a <=? hi).
Definition is_valid (a : Tnum) : bool := Z.land (value a) (mask a) =? 0.

Definition merge (a b : Tnum) : Tnum :=
  mkTnum (Z.land (value a) (value b))
    (Z.lor (Z.lor (mask a) (mask b)) (Z.lxor (value a) (value b))).

Definition intersect (a b : Tnum) : Tnum :=
  let nv := Z.lor (value a) (value b) in
  let nm := Z.land (mask a) (mask b) in
  mkTnum (Z.land nv (not64 nm)) nm.

End Tnum.

(** ** Meaning of a tristate number *)

(** The fields are words. *)
Definition tnum_u64 (t : Tnum) : Prop := is_u64 (value t) /\ is_u64 (mask t).

(** The fields are words and no unknown bit is also claimed to be set. *)
Definition tnum_wf (t : Tnum) : Prop :=
  tnum_u64 t /\ forall i, 0 <= i < 64 ->
    Z.testbit (mask t) i = true -> Z.testbit (value t) i = false.

(** [x] is one of the values [t] stands for: it agrees on every known bit. *)
Definition tnum_in (x : Z) (t : Tnum) : Prop :=
  is_u64 x /\ forall i, 0 <= i < 64 ->
    Z.testbit (mask t) i = false -> Z.testbit x i = Z.testbit (value t) i.

(** The executable form of membership. *)
Definition tnum_inb (x : Z) (t : Tnum) : bool :=
  (0 <=? x) && (x <? M64) && (Z.land (Z.lxor x (value t)) (not64 (mask t)) =? 0).

(** Every value of [a] is a value of [b]. *)
Definition tnum_le (a b : Tnum) : Prop := forall x, tnum_in x a -> tnum_in x b.

#[export] Instance tnum_le_preorder : PreOrder tnum_le.
Proof. split; [by intros a x | intros a b c Hab Hbc x Hx; auto]. Qed.

(** ** Range of the results *)

Ltac tnum_range :=
  repeat match goal with H : tnum_u64 _ |- _ => destruct H end;
  repeat match goal with H : tnum_wf _ |- _ => destruct H as [[??] ?] end;
  unfold tnum_u64; simpl; auto 10 with word.

Lemma tnum_any_u64 : tnum_u64 Tnum.any.
Proof. unfold tnum_u64, is_u64; simpl; lia. Qed.

Lemma tnum_wf_u64 t : tnum_wf t -> tnum_u64 t.
Proof. by intros []. Qed.

Lemma tnum_exact_wf v : is_u64 v -> tnum_wf (Tnum.exact v).
Proof.
  intros Hv. repeat split; simpl; try apply Hv; try lia.
  intros i Hi. by rewrite Z.testbit_0_l.
Qed.

Lemma tnum_any_wf : tnum_wf Tnum.any.
Proof. split; [apply tnum_any_u64|]. intros i Hi _. simpl. apply Z.testbit_0_l. Qed.

#[export] Hint Resolve tnum_any_u64 tnum_any_wf tnum_exact_wf tnum_wf_u64 : word.

Lemma tnum_wf_intro v m : is_u64 v -> is_u64 m -> tnum_wf (mkTnum (Z.land v (not64 m)) m).
Proof.
  intros Hv Hm. split; [tnum_range|]. simpl. intros i Hi Hmi.
  bits_simp. by rewrite Hmi, andb_false_r.
Qed.

(** ** Membership *)

Lemma tnum_inb_spec x t : tnum_u64 t -> tnum_inb x t = true <-> tnum_in x t.
Proof.
  intros [Hv Hm]. unfold tnum_inb, tnum_in.
  rewrite !andb_true_iff, Z.leb_le, Z.ltb_lt, Z.eqb_eq. split.
  - intros [Hx Heq]. split; [exact Hx|]. intros i Hi Hmi.
    apply (f_equal (fun z => Z.testbit z i)) in Heq. bits_simp.
    rewrite Hmi in Heq. bool_cases.
  - intros [Hx Hbits]. split; [exact Hx|].
    apply u64_ext; [auto 7 with word | split; lia |].
    intros i Hi. specialize (Hbits i Hi). bits_simp. bool_cases. by rewrite Hbits in *.
Qed.

Lemma tnum_in_any x : is_u64 x -> tnum_in x Tnum.any.
Proof.
  intros Hx. split; [done|]. intros i Hi. simpl.
  rewrite u64_max_spec by lia. intros Hlt%Z.ltb_ge. lia.
Qed.

Lemma tnum_in_exact x v : is_u64 v -> tnum_in x (Tnum.exact v) <-> x = v.
Proof.
  intros Hv. split.
  - intros [Hx Hbits]. apply u64_ext; [done..|]. intros i Hi.
    apply Hbits; [done | apply Z.testbit_0_l].
  - intros ->. by split.
Qed.

Lemma tnum_in_u64 x t : tnum_in x t -> is_u64 x.
Proof. by intros []. Qed.

#[export] Hint Resolve tnum_in_any tnum_in_u64 : word.

(** Every value lies between [min] and [max]. *)
Lemma tnum_in_max x t : tnum_u64 t -> tnum_in x t -> x <= Tnum.max t.
Proof.
  intros [Hv Hm] [Hx Hbits]. unfold Tnum.max.
  apply bits_subset_le; [apply Hx | apply Z.lor_nonneg; split; [apply Hv|apply Hm] |].
  intros i Hi Hxi. rewrite Z.lor_spec.
  destruct (Z.lt_ge_cases i 64); [|by rewrite u64_bits_high in Hxi].
  destruct (Z.testbit (mask t) i) eqn:E; [by rewrite orb_true_r|].
  by rewrite <- Hbits, Hxi.
Qed.

Lemma tnum_in_min x t : tnum_wf t -> tnum_in x t -> Tnum.min t <= x.
Proof.
  intros [[Hv Hm] Hwf] [Hx Hbits]. unfold Tnum.min.
  apply bits_subset_le; [apply Hv | apply Hx |].
  intros i Hi Hvi.
  destruct (Z.lt_ge_cases i 64); [|by rewrite u64_bits_high in Hvi].
  destruct (Z.testbit (mask t) i) eqn:E; [by rewrite Hwf in Hvi|].
  by rewrite Hbits.
Qed.

(** ** Soundness of the abstract operations *)

(** In a well-formed tristate number value and mask do not overlap. *)
Lemma tnum_wf_disjoint t : tnum_wf t -> Z.land (value t) (mask t) = 0.
Proof.
  intros [[??] Ht]. apply u64_ext; [auto with word | split; lia|].
  intros i Hi. specialize (Ht i Hi). bits_simp.
  destruct (Z.testbit (mask t) i); [by rewrite Ht | apply andb_false_r].
Qed.

Lemma tnum_add_mask t : tnum_wf t -> value t + mask t = Tnum.max t.
Proof.
  intros Ht. pose proof (tnum_wf_disjoint t Ht).
  by rewrite Z.add_nocarry_lxor, Z.lxor_lor.
Qed.

(** Below every bit position a value lies between [value] and [max]. *)
Lemma tnum_in_mod t x i :
  tnum_wf t -> tnum_in x t -> 0 <= i < 64 ->
  value t mod 2 ^ i <= x mod 2 ^ i <= Tnum.max t mod 2 ^ i.
Proof.
  intros [[??] Ht] [? Hx] Hi. unfold Tnum.max.
  split; apply mod_pow2_mono; try lia; intros j Hj;
    specialize (Ht j ltac:(lia)); specialize (Hx j ltac:(lia)); bits_simp;
    destruct (Z.testbit (mask t) j); rewrite ?Ht, ?Hx by done;
    rewrite ?orb_true_r, ?orb_false_r; done.
Qed.

(** So the carry into a position is squeezed between the carries of the
    smallest and of the largest operands. *)
Lemma tnum_carry_bounds a b x y i :
  tnum_wf a -> tnum_wf b -> tnum_in x a -> tnum_in y b -> 0 <= i < 64 ->
  (carry_in (value a) (value b) i = true -> carry_in x y i = true) /\
  (carry_in x y i = true -> carry_in (Tnum.max a) (Tnum.max b) i = true).
Proof.
  intros Ha Hb Hx Hy Hi.
  pose proof (tnum_in_mod a x i Ha Hx Hi). pose proof (tnum_in_mod b y i Hb Hy Hi).
  split; apply carry_in_mono; lia.
Qed.

Lemma tnum_add_in a b x y :
  tnum_wf a -> tnum_wf b -> tnum_in x a -> tnum_in y b ->
  tnum_in (u64 (x + y)) (Tnum.add a b).
Proof.
  intros Ha Hb Hx Hy. split; [auto with word|]. unfold Tnum.add; simpl.
  replace (u64 (u64 (mask a + mask b) + u64 (value a + value b)))
    with (u64 (Tnum.max a + Tnum.max b)).
  2: { rewrite <- !tnum_add_mask by done. unfold u64.
       rewrite <- Zplus_mod. f_equal. lia. }
  intros i Hi Hmu. pose proof (tnum_carry_bounds a b x y i Ha Hb Hx Hy Hi) as [Hlo Hhi].
  destruct Ha as [[??] Ha], Hb as [[??] Hb], Hx as [? Hx], Hy as [? Hy].
  bits_simp. apply orb_false_elim in Hmu as [Hm Hchi].
  rewrite Hm, Hchi. pose proof Hm as [Hma Hmb]%orb_false_elim.
  rewrite !add_spec in * by lia. rewrite Hx, Hy by done.
  unfold Tnum.max in Hchi at 1 2. rewrite !Z.lor_spec, Hma, Hmb, !orb_false_r in Hchi.
  simpl. rewrite andb_true_r. clear - Hlo Hhi Hchi.
  destruct (carry_in x y i), (carry_in (value a) (value b) i),
    (carry_in (Tnum.max a) (Tnum.max b) i), (Z.testbit (value a) i),
    (Z.testbit (value b) i); simpl in *; naive_solver.
Qed.

(** [tnum_bitwise] proves membership of a bitwise operation position by
    position from the membership of its operands. *)
Ltac tnum_bitwise :=
  repeat match goal with H : tnum_wf _ |- _ => destruct H as [[??] ?] end;
  repeat match goal with H : tnum_in _ _ |- _ => destruct H as [? ?] end;
  split; [solve [auto 10 with word]|]; simpl;
  let i := fresh "i" in let Hi := fresh "Hi" in
  intros i Hi;
  repeat match goal with
    | H : forall j, 0 <= j < 64 -> _ |- _ => specialize (H i Hi)
    end;
  bits_simp;
  repeat match goal with
    | |- context [Z.testbit (mask ?t) i] => destruct (Z.testbit (mask t) i) in *
    end; simpl; intros; try discriminate;
  repeat match goal with H : false = false -> _ |- _ => specialize (H eq_refl) end;
  repeat match goal with H : Z.testbit _ i = Z.testbit _ i |- _ => rewrite H; clear H end;
  rewrite ?andb_true_r, ?orb_false_r; try done.

Lemma tnum_or_in a b x y :
  tnum_wf a -> tnum_wf b -> tnum_in x a -> tnum_in y b ->
  tnum_in (Z.lor x y) (Tnum.or a b).
Proof. intros. tnum_bitwise. Qed.

Lemma tnum_xor_in a b x y :
  tnum_wf a -> tnum_wf b -> tnum_in x a -> tnum_in y b ->
  tnum_in (Z.lxor x y) (Tnum.xor a b).
Proof. intros. tnum_bitwise. Qed.

Lemma tnum_intersect_in a b x :
  tnum_wf a -> tnum_wf b -> tnum_in x a -> tnum_in x b ->
  tnum_in x (Tnum.intersect a b).
Proof.
  intros [[??] Ha] [[??] Hb] [? Hx] [_ Hy]. split; [done|]. simpl.
  intros i Hi Hm. specialize (Ha i Hi). specialize (Hb i Hi).
  specialize (Hx i Hi). specialize (Hy i Hi). bits_simp.
  rewrite Hm. simpl. rewrite andb_true_r.
  destruct (Z.testbit (mask a) i), (Z.testbit (mask b) i); simpl in *; try discriminate.
  - by rewrite Ha, Hy.
  - by rewrite Hb, Hx, orb_false_r.
  - rewrite <- Hx, <- Hy by done. by destruct (Z.testbit x i).
Qed.

(** [merge] is an upper bound of its two arguments. *)
Lemma tnum_merge_l a b : tnum_le a (Tnum.merge a b).
Proof.
  intros x [? Hx]. split; [done|]. simpl. intros i Hi Hm. specialize (Hx i Hi).
  bits_simp. bool_cases; rewrite Hx by done; done.
Qed.

Lemma tnum_merge_r a b : tnum_le b (Tnum.merge a b).
Proof.
  intros x [? Hx]. split; [done|]. simpl. intros i Hi Hm. specialize (Hx i Hi).
  bits_simp. bool_cases; rewrite Hx by done; done.
Qed.

Lemma tnum_mul_in a b x y :
  tnum_wf a -> tnum_wf b -> tnum_in x a -> tnum_in y b ->
  tnum_in (u64 (x * y)) (Tnum.mul a b).
Proof.
  intros [[??] _] [[??] _] Hx Hy. unfold Tnum.mul.
  destruct (Z.eqb_spec (mask a) 0) as [Ha|], (Z.eqb_spec (mask b) 0) as [Hb|];
    simpl; auto with word.
  destruct a as [va ma], b as [vb mb]; simpl in *; subst.
  apply tnum_in_exact in Hx, Hy; [|done..]. subst.
  apply tnum_in_exact; auto with word.
Qed.

(** The operand of a shift with no unknown bits is known. *)
Lemma tnum_in_mask0 t x : tnum_wf t -> tnum_in x t -> mask t = 0 -> x = value t.
Proof.
  intros [[??] _] Hx Hm. destruct t as [v m]; simpl in *; subst.
  by apply tnum_in_exact in Hx.
Qed.

Lemma tnum_shl_in a b x y :
  tnum_wf a -> tnum_wf b -> tnum_in x a -> tnum_in y b ->
  tnum_in (wrapping_shl64 x y) (Tnum.shl a b).
Proof.
  intros Ha Hb Hx Hy. unfold Tnum.shl, wrapping_shl64.
  destruct (Z.eqb_spec (mask b) 0) as [Hm|]; simpl; [|auto with word].
  rewrite (tnum_in_mask0 b y Hb Hy Hm).
  destruct (Z.leb_spec 64 (value b)); [auto with word|].
  destruct Hb as [[[? ?] ?] ?]. rewrite Z.mod_small by lia.
  destruct Hx as [? Hx]. split; [auto with word|]. simpl. intros i Hi. bits_simp.
  destruct (Z.lt_ge_cases (i - value b) 0); [by rewrite !Z.testbit_neg_r|].
  apply Hx. lia.
Qed.

Lemma tnum_lshr_in a b x y :
  tnum_wf a -> tnum_wf b -> tnum_in x a -> tnum_in y b ->
  tnum_in (wrapping_shr64 x y) (Tnum.lshr a b).
Proof.
  intros Ha Hb Hx Hy. unfold Tnum.lshr, wrapping_shr64.
  assert (Hu : is_u64 (shr64 x (y mod 64))).
  { apply u64_shr64; [apply Hx|]. apply Z.mod_pos_bound. lia. }
  destruct (Z.eqb_spec (mask b) 0) as [Hm|]; simpl; [|auto with word].
  rewrite (tnum_in_mask0 b y Hb Hy Hm) in *.
  destruct (Z.leb_spec 64 (value b)); [auto with word|].
  destruct Hb as [[[? ?] ?] ?]. rewrite Z.mod_small in * by lia.
  destruct Hx as [Hxr Hx], Ha as [[??] _]. split; [done|]. simpl. intros i Hi. bits_simp.
  destruct (Z.lt_ge_cases (i + value b) 64); [apply Hx; lia|].
  intros _. by rewrite !u64_bits_high.
Qed.

(** Both shift directions of the abstract arithmetic shift lose every bit. *)
Lemma tnum_ashr_in a b x : is_u64 x -> tnum_in x (Tnum.ashr a b).
Proof.
  intros Hx. unfold Tnum.ashr. case_match; [auto with word|].
  split; [done|]. simpl. intros i Hi. rewrite u64_max_spec by lia.
  intros Hlt%Z.ltb_ge. lia.
Qed.

(** A tristate number that excludes zero has no zero value. *)
Lemma tnum_nonzero_in t x :
  tnum_u64 t -> Tnum.could_be_zero t = false -> tnum_in x t -> x <> 0.
Proof.
  intros [Hv Hm] Hnz%Z.eqb_neq [_ Hx] ->. apply Hnz.
  apply u64_ext; [auto with word | split; lia |]. intros i Hi.
  specialize (Hx i Hi). bits_simp.
  destruct (Z.testbit (mask t) i); [by rewrite andb_false_r|].
  by rewrite <- Hx.
Qed.

(** ** The operations keep tristate numbers well formed *)

Lemma tnum_add_wf a b : tnum_wf a -> tnum_wf b -> tnum_wf (Tnum.add a b).
Proof. intros. apply tnum_wf_intro; tnum_range. Qed.

Lemma tnum_or_wf a b : tnum_wf a -> tnum_wf b -> tnum_wf (Tnum.or a b).
Proof. intros. apply tnum_wf_intro; tnum_range. Qed.

Lemma tnum_xor_wf a b : tnum_wf a -> tnum_wf b -> tnum_wf (Tnum.xor a b).
Proof. intros. apply tnum_wf_intro; tnum_range. Qed.

Lemma tnum_intersect_wf a b : tnum_wf a -> tnum_wf b -> tnum_wf (Tnum.intersect a b).
Proof. intros. apply tnum_wf_intro; tnum_range. Qed.

Lemma tnum_mul_wf a b : tnum_wf (Tnum.mul a b).
Proof. unfold Tnum.mul. case_match; auto with word. Qed.

Lemma tnum_shl_wf a b : tnum_wf a -> tnum_u64 b -> tnum_wf (Tnum.shl a b).
Proof.
  intros [[??] Ha] [[??] ?]. unfold Tnum.shl. case_match; [auto with word|].
  destruct (Z.leb_spec 64 (value b)); [auto with word|].
  split; [tnum_range|]. simpl. intros i Hi. bits_simp.
  destruct (Z.lt_ge_cases (i - value b) 0); [by rewrite !Z.testbit_neg_r|].
  apply Ha. lia.
Qed.

Lemma tnum_lshr_wf a b : tnum_wf a -> tnum_u64 b -> tnum_wf (Tnum.lshr a b).
Proof.
  intros [[??] Ha] [[??] ?]. unfold Tnum.lshr. case_match; [auto with word|].
  destruct (Z.leb_spec 64 (value b)); [auto with word|].
  split; [tnum_range|]. simpl. intros i Hi. bits_simp.
  destruct (Z.lt_ge_cases (i + value b) 64); [apply Ha; lia|].
  intros _. by rewrite u64_bits_high.
Qed.

Lemma tnum_merge_wf a b : tnum_wf a -> tnum_wf b -> tnum_wf (Tnum.merge a b).
Proof.
  intros [[??] Ha] [[??] Hb]. split; [tnum_range|]. simpl. intros i Hi.
  specialize (Ha i Hi). specialize (Hb i Hi). bits_simp. bool_cases.
Qed.

#[export] Hint Resolve tnum_add_wf tnum_or_wf tnum_xor_wf tnum_intersect_wf
  tnum_mul_wf tnum_shl_wf tnum_lshr_wf tnum_merge_wf : word.

(** ** Ranges *)

(** [from_range lo hi] contains every value of the interval, provided the two
    bounds agree on the top bit. *)
Lemma tnum_from_range_in lo hi x :
  is_u64 lo -> is_u64 hi -> Z.lxor lo hi < M63 -> lo <= x <= hi ->
  tnum_in x (Tnum.from_range lo hi).
Proof.
  intros Hlo Hhi Htop Hx. assert (Hxr : is_u64 x) by (unfold is_u64 in *; lia).
  unfold Tnum.from_range.
  destruct (Z.eqb_spec lo hi) as [->|Hne]; [apply tnum_in_exact; [done|lia]|].
  destruct (Z.ltb_spec hi lo) as [|Hlt]; [auto with word|].
  assert (Hd : 0 < Z.lxor lo hi).
  { pose proof (u64_lxor lo hi Hlo Hhi) as [??].
    assert (Z.lxor lo hi <> 0) by (rewrite Z.lxor_eq_0_iff; lia). lia. }
  set (n := Z.log2 (Z.lxor lo hi) + 1).
  assert (Hn : 0 < n < 64).
  { unfold n. pose proof (Z.log2_nonneg (Z.lxor lo hi)).
    pose proof (proj1 (Z.log2_lt_pow2 _ 63 Hd) Htop). lia. }
  assert (Hdx : x / 2 ^ n = lo / 2 ^ n).
  { assert (0 < 2 ^ n) by (apply Z.pow_pos_nonneg; lia).
    pose proof (div_pow2_eq_of_lxor lo hi (proj1 Hlo) (proj1 Hhi) Hd) as Hdiv.
    fold n in Hdiv.
    pose proof (Z.div_le_mono lo x (2 ^ n)). pose proof (Z.div_le_mono x hi (2 ^ n)). lia. }
  unfold Tnum.leading_zeros. cbv zeta. rewrite (proj2 (Z.leb_gt _ 0)) by lia.
  replace (64 - (63 - Z.log2 (Z.lxor lo hi))) with n by (unfold n; lia).
  rewrite low_mask by lia. split; [done|]. simpl. intros i Hi Hm.
  destruct (Z.lt_ge_cases i n).
  { by rewrite Z.ones_spec_low in Hm by lia. }
  bits_simp. rewrite Hm, andb_true_r. by apply (div_pow2_eq_bits x lo n i); [lia..|].
Qed.

(** ** Results *)

Lemma tnum_is_valid_wf t : tnum_u64 t -> Tnum.is_valid t = true -> tnum_wf t.
Proof.
  intros Ht Hv%Z.eqb_eq. split; [done|]. intros i Hi Hm.
  apply (f_equal (fun z => Z.testbit z i)) in Hv.
  rewrite Z.land_spec, Z.testbit_0_l, Hm, andb_true_r in Hv. done.
Qed.

(** Decides well-formedness and membership of concrete tristate numbers. *)
Ltac tnum_decide :=
  first [ apply tnum_is_valid_wf | apply tnum_inb_spec | idtac ];
  [ split; split; simpl; lia | reflexivity ].

(** The sound abstract operations: [add], [mul], [or], [xor], and the two
    shifts of well-formed tristate numbers contain every result of the
    machine operation on members ([shl] and [lshr] mask the amount to six
    bits as the interpreter does). *)
Theorem tnum_ops_sound a b x y :
  tnum_wf a -> tnum_wf b -> tnum_in x a -> tnum_in y b ->
  tnum_in (u64 (x + y)) (Tnum.add a b) /\
  tnum_in (u64 (x * y)) (Tnum.mul a b) /\
  tnum_in (Z.lor x y) (Tnum.or a b) /\
  tnum_in (Z.lxor x y) (Tnum.xor a b) /\
  tnum_in (wrapping_shl64 x y) (Tnum.shl a b) /\
  tnum_in (wrapping_shr64 x y) (Tnum.lshr a b).
Proof.
  intros. split_and!; auto using tnum_add_in, tnum_mul_in, tnum_or_in, tnum_xor_in,
    tnum_shl_in, tnum_lshr_in.
Qed.

Lemma tnum_ops_sound_witness :
  tnum_in 0x105 (Tnum.add (mkTnum 0xf0 0xf) (mkTnum 0x6 1)).
Proof.
  apply (tnum_ops_sound (mkTnum 0xf0 0xf) (mkTnum 0x6 1) 0xff 0x6); tnum_decide.
Defined.

(** The lattice operations: [merge] is an upper bound of its arguments, and
    [intersect] loses no value both arguments have; both keep tristate
    numbers well formed. *)
Theorem tnum_lattice a b :
  tnum_wf a -> tnum_wf b ->
  tnum_le a (Tnum.merge a b) /\ tnum_le b (Tnum.merge a b) /\
  (forall x, tnum_in x a -> tnum_in x b -> tnum_in x (Tnum.intersect a b)) /\
  tnum_wf (Tnum.merge a b) /\ tnum_wf (Tnum.intersect a b).
Proof.
  intros. split_and!; auto using tnum_merge_l, tnum_merge_r, tnum_merge_wf,
    tnum_intersect_wf, tnum_intersect_in.
Qed.

Lemma tnum_lattice_witness :
  tnum_le (Tnum.exact 5) (Tnum.merge (Tnum.exact 5) (mkTnum 4 3)) /\
  Tnum.merge (Tnum.exact 5) (mkTnum 4 3) = mkTnum 4 3.
Proof.
  split; [|reflexivity].
  apply (tnum_lattice (Tnum.exact 5) (mkTnum 4 3)); tnum_decide.
Defined.

(** [sub], [and] and [neg] are not sound: a well-formed operand has a
    member whose difference, conjunction or negation the abstract result
    does not contain. *)
Theorem tnum_sub_and_neg_unsound :
  (exists a b x y, tnum_wf a /\ tnum_wf b /\ tnum_in x a /\ tnum_in y b /\
     ~ tnum_in (u64 (x - y)) (Tnum.sub a b)) /\
  (exists a b x y, tnum_wf a /\ tnum_wf b /\ tnum_in x a /\ tnum_in y b /\
     ~ tnum_in (Z.land x y) (Tnum.and a b)) /\
  (exists a x, tnum_wf a /\ tnum_in x a /\ ~ tnum_in (u64 (- x)) (Tnum.neg a)).
Proof.
  assert (Hn : forall x t, tnum_u64 t -> tnum_inb x t = false -> ~ tnum_in x t).
  { intros x t Ht Hf Hin. apply tnum_inb_spec in Hin; [congruence | done]. }
  split_and!.
  - exists (mkTnum 2 1), (Tnum.exact 1), 3, 1. split_and!; [tnum_decide..|].
    apply Hn; [split; split; by vm_compute | reflexivity].
  - exists Tnum.any, (Tnum.exact 0xff), 5, 0xff. split_and!; [tnum_decide..|].
    apply Hn; [split; split; by vm_compute | reflexivity].
  - exists (mkTnum 0 1), 1. split_and!; [tnum_decide..|].
    apply Hn; [split; split; by vm_compute | reflexivity].
Qed.

(** [from_range lo hi] contains the whole interval when the bounds agree on
    bit 63; when they do not, the shift amount is 64 and the result can be
    the single value [lo]. *)
Theorem tnum_from_range_spec :
  (forall lo hi x, is_u64 lo -> is_u64 hi -> Z.lxor lo hi < M63 -> lo <= x <= hi ->
     tnum_in x (Tnum.from_range lo hi)) /\
  Tnum.from_range 0 M63 = Tnum.exact 0.
Proof. split; [apply tnum_from_range_in | reflexivity]. Qed.

Lemma tnum_from_range_spec_witness : tnum_in 6 (Tnum.from_range 5 9).
Proof.
  apply (proj1 tnum_from_range_spec); [split; lia | split; lia | reflexivity | lia].
Defined.
