(* ===== verification/EbpfMaps.v ===== *)
(** * eBPF maps

    Model of [kernel/src/ebpf/maps.rs]: the four map implementations behind
    the [Map] trait and the global registry that names them.  The trait is a
    type class whose methods pass the interior-mutable state explicitly; what
    a map promises its clients is the class [MapLaws]. *)

From S2P Require Import Prelude.

(** ** The trait *)

Class Map (T : Type) := {
  m_lookup : T -> list Z -> option (list Z) * T;
  m_update : T -> list Z -> list Z -> bool * T;
  m_delete : T -> list Z -> bool * T;
  m_key_size : T -> Z;
  m_value_size : T -> Z;
  m_max_entries : T -> Z;
  m_clear : T -> T;
}.

(** What every implementation promises: an invariant kept by all methods,
    sizes fixed at creation, and byte values in, byte values out. *)
Class MapLaws (T : Type) `{Map T} := {
  m_inv : T -> Prop;
  m_lookup_inv m k : m_inv m -> m_inv (m_lookup m k).2;
  m_update_inv m k v : m_inv m -> bytes k -> bytes v -> m_inv (m_update m k v).2;
  m_delete_inv m k : m_inv m -> m_inv (m_delete m k).2;
  m_clear_inv m : m_inv m -> m_inv (m_clear m);
  m_lookup_bytes m k v : m_inv m -> (m_lookup m k).1 = Some v -> bytes v;
  m_lookup_sizes m k : m_key_size (m_lookup m k).2 = m_key_size m /\
    m_value_size (m_lookup m k).2 = m_value_size m;
  m_sizes_nonneg m : m_inv m -> 0 <= m_key_size m /\ 0 <= m_value_size m;
}.

(** ** [HashTable] *)

Record HashTable := mkHashTable {
  ht_key_size : Z;
  ht_value_size : Z;
  ht_max_entries : Z;
  ht_entries : list (list Z * list Z);
}.

Module HashTable.

Definition new (key_size value_size max_entries : Z) : HashTable :=
  mkHashTable key_size value_size max_entries [].

Definition set_entries (h : HashTable) (es : list (list Z * list Z)) : HashTable :=
  mkHashTable (ht_key_size h) (ht_value_size h) (ht_max_entries h) es.

(** First entry with the key. *)
Fixpoint find (key : list Z) (es : list (list Z * list Z)) : option (list Z) :=
  match es with
  | [] => None
  | (k, v) :: es => if decide (k = key) then Some v else find key es
  end.

(** [v[..n].copy_from_slice(&value[..n])] with [n] the shorter length. *)
Definition overlay (v value : list Z) : list Z :=
  let n := Nat.min (length v) (length value) in take n value ++ drop n v.

(** The [iter_mut] loop: overwrite the first matching entry in place. *)
Fixpoint overwrite (key value : list Z) (es : list (list Z * list Z))
    : option (list (list Z * list Z)) :=
  match es with
  | [] => None
  | (k, v) :: es =>
      if decide (k = key) then Some ((k, overlay v value) :: es)
      else cons (k, v) <$> overwrite key value es
  end.

Definition lookup (h : HashTable) (key : list Z) : option (list Z) * HashTable :=
  (find key (ht_entries h), h).

Definition update (h : HashTable) (key value : list Z) : bool * HashTable :=
  match overwrite key value (ht_entries h) with
  | Some es => (true, set_entries h es)
  | None =>
      if Z.of_nat (length (ht_entries h)) <? ht_max_entries h
      then (true, set_entries h (ht_entries h ++ [(key, value)]))
      else (false, h)
  end.

Definition delete (h : HashTable) (key : list Z) : bool * HashTable :=
  let before := length (ht_entries h) in
  let es := List.filter (fun e => negb (bool_decide (e.1 = key))) (ht_entries h) in
  (bool_decide (length es < before)%nat, set_entries h es).

Definition clear (h : HashTable) : HashTable := set_entries h [].

End HashTable.

#[export] Instance HashTable_Map : Map HashTable := {
  m_lookup := HashTable.lookup;
  m_update := HashTable.update;
  m_delete := HashTable.delete;
  m_key_size := ht_key_size;
  m_value_size := ht_value_size;
  m_max_entries := ht_max_entries;
  m_clear := HashTable.clear;
}.

(** ** [ArrayMap] *)

Record ArrayMap := mkArrayMap {
  am_value_size : Z;
  am_max_entries : Z;
  am_entries : list (option (list Z));
}.

Module ArrayMap.

Definition new (value_size max_entries : Z) : ArrayMap :=
  mkArrayMap value_size max_entries (replicate (Z.to_nat max_entries) None).

Definition set_entries (a : ArrayMap) (es : list (option (list Z))) : ArrayMap :=
  mkArrayMap (am_value_size a) (am_max_entries a) es.

(** The first four key bytes as a [u32]; a shorter key means slot 0. *)
Definition index (key : list Z) : nat :=
  if (4 <=? length key)%nat then Z.to_nat (le_value (take 4 key)) else O.

Definition lookup (a : ArrayMap) (key : list Z) : option (list Z) * ArrayMap :=
  (if (index key <? length (am_entries a))%nat
   then default None (am_entries a !! index key) else None, a).

Definition update (a : ArrayMap) (key value : list Z) : bool * ArrayMap :=
  if (index key <? length (am_entries a))%nat
  then (true, set_entries a (<[index key := Some value]> (am_entries a)))
  else (false, a).

Definition delete (a : ArrayMap) (key : list Z) : bool * ArrayMap :=
  if (index key <? length (am_entries a))%nat
  then (true, set_entries a (<[index key := None]> (am_entries a)))
  else (false, a).

Definition key_size (a : ArrayMap) : Z := 4.

Definition clear (a : ArrayMap) : ArrayMap :=
  set_entries a ((fun _ => None) <$> am_entries a).

End ArrayMap.

#[export] Instance ArrayMap_Map : Map ArrayMap := {
  m_lookup := ArrayMap.lookup;
  m_update := ArrayMap.update;
  m_delete := ArrayMap.delete;
  m_key_size := ArrayMap.key_size;
  m_value_size := am_value_size;
  m_max_entries := am_max_entries;
  m_clear := ArrayMap.clear;
}.

(** ** [PerfEventArray] *)

Record PerfEventArray := mkPerfEventArray { pe_max_entries : Z }.

#[export] Instance PerfEventArray_Map : Map PerfEventArray := {
  m_lookup p key := (None, p);
  m_update p key value := (false, p);
  m_delete p key := (false, p);
  m_key_size _ := 4;
  m_value_size _ := 4;
  m_max_entries := pe_max_entries;
  m_clear p := p;
}.

(** ** [RingBuf] *)

Record RingBuf := mkRingBuf {
  rb_buf : list Z;
  rb_capacity : Z;
  rb_producer : Z;
  rb_consumer : Z;
  rb_lost_bytes : Z;
}.

Module RingBuf.

Definition new (capacity : Z) : RingBuf :=
  let capacity := Z.max (next_power_of_two capacity) 256 in
  mkRingBuf (replicate (Z.to_nat capacity) 0) capacity 0 0 0.

(** Space for [len] bytes: the write offset, with the producer advanced, or
    the loss counter bumped when the ring is full. *)
Definition reserve (r : RingBuf) (len : Z) : option Z * RingBuf :=
  let used := u64 (rb_producer r - rb_consumer r) in
  let free := u64 (rb_capacity r - used) in
  if free <? len then
    (None, mkRingBuf (rb_buf r) (rb_capacity r) (rb_producer r) (rb_consumer r)
             (u64 (rb_lost_bytes r + len)))
  else
    (Some (rb_producer r mod rb_capacity r),
     mkRingBuf (rb_buf r) (rb_capacity r) (u64 (rb_producer r + len))
       (rb_consumer r) (rb_lost_bytes r)).

(** Copy in two parts when the record crosses the end of the buffer. *)
Definition copy_in (r : RingBuf) (offset : Z) (value : list Z) : RingBuf :=
  let off := Z.to_nat offset in
  let first := Nat.min (length value) (Z.to_nat (rb_capacity r - offset)) in
  let buf1 := splice off (take first value) (rb_buf r) in
  let buf2 := if (first <? length value)%nat
              then splice 0 (drop first value) buf1 else buf1 in
  mkRingBuf buf2 (rb_capacity r) (rb_producer r) (rb_consumer r) (rb_lost_bytes r).

(** Read up to [n] bytes: the destination prefix that was filled. *)
Definition consume (r : RingBuf) (n : nat) : list Z * RingBuf :=
  let available := u64 (rb_producer r - rb_consumer r) in
  let to_read := Z.to_nat (Z.min (Z.of_nat n) available) in
  if (to_read =? 0)%nat then ([], r)
  else
    let offset := rb_consumer r mod rb_capacity r in
    let first := Nat.min to_read (Z.to_nat (rb_capacity r - offset)) in
    let data := slice (Z.to_nat offset) first (rb_buf r) ++
                (if (first <? to_read)%nat then take (to_read - first) (rb_buf r) else []) in
    (data, mkRingBuf (rb_buf r) (rb_capacity r) (rb_producer r)
             (u64 (rb_consumer r + Z.of_nat to_read)) (rb_lost_bytes r)).

Definition lost (r : RingBuf) : Z := rb_lost_bytes r.

Definition lookup (r : RingBuf) (key : list Z) : option (list Z) * RingBuf :=
  let '(out, r') := consume r 256 in
  (match out with [] => None | _ => Some out end, r').

Definition update (r : RingBuf) (key value : list Z) : bool * RingBuf :=
  match reserve r (Z.of_nat (length value)) with
  | (Some offset, r') => (true, copy_in r' offset value)
  | (None, r') => (false, r')
  end.

Definition delete (r : RingBuf) (key : list Z) : bool * RingBuf :=
  (true, mkRingBuf (rb_buf r) (rb_capacity r) (rb_producer r) (rb_producer r)
           (rb_lost_bytes r)).

Definition key_size (r : RingBuf) : Z := 4.
Definition value_size (r : RingBuf) : Z := 64.
Definition max_entries (r : RingBuf) : Z := rb_capacity r / 64.

Definition clear (r : RingBuf) : RingBuf :=
  mkRingBuf (rb_buf r) (rb_capacity r) 0 0 0.

End RingBuf.

#[export] Instance RingBuf_Map : Map RingBuf := {
  m_lookup := RingBuf.lookup;
  m_update := RingBuf.update;
  m_delete := RingBuf.delete;
  m_key_size := RingBuf.key_size;
  m_value_size := RingBuf.value_size;
  m_max_entries := RingBuf.max_entries;
  m_clear := RingBuf.clear;
}.

(** ** The registry

    A map is shared by every holder of its [Arc]: the store [heap] is indexed
    by the allocation, the registry lists the allocations under their ids. *)

Inductive MapObj :=
  | MapHash (h : HashTable)
  | MapArray (a : ArrayMap)
  | MapPerf (p : PerfEventArray)
  | MapRing (r : RingBuf).

(** Method calls through [dyn Map]. *)
#[export] Instance MapObj_Map : Map MapObj := {
  m_lookup m k := match m with
    | MapHash h => prod_map id MapHash (m_lookup h k)
    | MapArray a => prod_map id MapArray (m_lookup a k)
    | MapPerf p => prod_map id MapPerf (m_lookup p k)
    | MapRing r => prod_map id MapRing (m_lookup r k)
    end;
  m_update m k v := match m with
    | MapHash h => prod_map id MapHash (m_update h k v)
    | MapArray a => prod_map id MapArray (m_update a k v)
    | MapPerf p => prod_map id MapPerf (m_update p k v)
    | MapRing r => prod_map id MapRing (m_update r k v)
    end;
  m_delete m k := match m with
    | MapHash h => prod_map id MapHash (m_delete h k)
    | MapArray a => prod_map id MapArray (m_delete a k)
    | MapPerf p => prod_map id MapPerf (m_delete p k)
    | MapRing r => prod_map id MapRing (m_delete r k)
    end;
  m_key_size m := match m with
    | MapHash h => m_key_size h | MapArray a => m_key_size a
    | MapPerf p => m_key_size p | MapRing r => m_key_size r
    end;
  m_value_size m := match m with
    | MapHash h => m_value_size h | MapArray a => m_value_size a
    | MapPerf p => m_value_size p | MapRing r => m_value_size r
    end;
  m_max_entries m := match m with
    | MapHash h => m_max_entries h | MapArray a => m_max_entries a
    | MapPerf p => m_max_entries p | MapRing r => m_max_entries r
    end;
  m_clear m := match m with
    | MapHash h => MapHash (m_clear h) | MapArray a => MapArray (m_clear a)
    | MapPerf p => MapPerf (m_clear p) | MapRing r => MapRing (m_clear r)
    end;
}.

Record MapStore := mkMapStore {
  ms_heap : list MapObj;
  MAP_REGISTRY : list (Z * nat);
}.

(** [Arc::new]. *)
Definition arc_new (s : MapStore) (m : MapObj) : nat * MapStore :=
  (length (ms_heap s), mkMapStore (ms_heap s ++ [m]) (MAP_REGISTRY s)).

Definition register_map (s : MapStore) (map : nat) : Z * MapStore :=
  let id := Z.of_nat (length (MAP_REGISTRY s)) + 1 in
  (id, mkMapStore (ms_heap s) (MAP_REGISTRY s ++ [(id, map)])).

Fixpoint registry_find (id : Z) (reg : list (Z * nat)) : option nat :=
  match reg with
  | [] => None
  | (map_id, map) :: reg => if map_id =? id then Some map else registry_find id reg
  end.

Definition get_map (s : MapStore) (id : Z) : option nat := registry_find id (MAP_REGISTRY s).

(** ** Invariants *)

Definition ht_inv (h : HashTable) : Prop :=
  NoDup (ht_entries h).*1 /\
  Z.of_nat (length (ht_entries h)) <= ht_max_entries h /\
  0 <= ht_key_size h /\ 0 <= ht_value_size h /\
  Forall (fun e => bytes e.1 /\ bytes e.2) (ht_entries h).

Definition am_inv (a : ArrayMap) : Prop :=
  Z.of_nat (length (am_entries a)) = am_max_entries a /\
  0 <= am_value_size a /\
  Forall (fun e => match e with Some v => bytes v | None => True end) (am_entries a).

Definition rb_used (r : RingBuf) : Z := u64 (rb_producer r - rb_consumer r).

Definition rb_inv (r : RingBuf) : Prop :=
  (exists k, 8 <= k < 64 /\ rb_capacity r = 2 ^ k) /\
  Z.of_nat (length (rb_buf r)) = rb_capacity r /\
  is_u64 (rb_producer r) /\ is_u64 (rb_consumer r) /\
  rb_used r <= rb_capacity r /\ bytes (rb_buf r).

(** The registry numbers its entries from 1 and points into the heap. *)
Definition ms_inv (s : MapStore) : Prop :=
  forall i id map, MAP_REGISTRY s !! i = Some (id, map) ->
    id = Z.of_nat i + 1 /\ (map < length (ms_heap s))%nat.

(** ** Abstract views: a finite map and a byte stream *)

Definition ht_abs (h : HashTable) : gmap (list Z) (list Z) := list_to_map (ht_entries h).

Definition rb_byte (r : RingBuf) (i : nat) : option Z :=
  rb_buf r !! Z.to_nat ((rb_consumer r + Z.of_nat i) mod rb_capacity r).

Definition rb_contents (r : RingBuf) : list Z :=
  (fun i => default 0 (rb_byte r i)) <$> seq 0 (Z.to_nat (rb_used r)).

(** The contract of a bounded hash map over finite maps. *)
Definition spec_update (max_entries : Z) (m : gmap (list Z) (list Z)) (key value : list Z)
    : bool * gmap (list Z) (list Z) :=
  match m !! key with
  | Some old => (true, <[key := HashTable.overlay old value]> m)
  | None => if Z.of_nat (size m) <? max_entries then (true, <[key := value]> m) else (false, m)
  end.

Definition spec_delete (m : gmap (list Z) (list Z)) (key : list Z)
    : bool * gmap (list Z) (list Z) :=
  (bool_decide (is_Some (m !! key)), base.delete key m).

(** ** [HashTable] refines the finite-map contract *)

Lemma ht_find_abs key es :
  HashTable.find key es = (list_to_map es : gmap (list Z) (list Z)) !! key.
Proof.
  induction es as [|[k v] es IH]; simpl; [by rewrite lookup_empty|].
  rewrite lookup_insert. case_decide; [done|]. by rewrite IH.
Qed.

Lemma ht_overwrite_None key value es :
  HashTable.overwrite key value es = None <-> key ∉ es.*1.
Proof.
  induction es as [|[k v] es IH]; simpl; [set_solver|].
  rewrite not_elem_of_cons. case_decide; [naive_solver|].
  rewrite fmap_None, IH. naive_solver.
Qed.

Lemma ht_overwrite_Some key value es es' :
  HashTable.overwrite key value es = Some es' ->
  es'.*1 = es.*1 /\
  exists old, HashTable.find key es = Some old /\
    (list_to_map es' : gmap (list Z) (list Z)) =
      <[key := HashTable.overlay old value]> (list_to_map es).
Proof.
  revert es'. induction es as [|[k v] es IH]; simpl; [done|]. intros es'.
  case_decide as Hk.
  - intros [= <-]. subst. split; [done|]. exists v. split; [done|].
    simpl. by rewrite insert_insert_eq.
  - intros (es1 & Hes & ->)%fmap_Some. destruct (IH _ Hes) as (Hdom & old & Hold & Hmap).
    split; [by simpl; f_equal|]. exists old. split; [done|]. simpl. rewrite Hmap.
    by rewrite insert_insert_ne.
Qed.

Lemma ht_overlay_bytes v value : bytes v -> bytes value -> bytes (HashTable.overlay v value).
Proof. intros. apply Forall_app. split; [by apply Forall_take | by apply Forall_drop]. Qed.

Lemma ht_overwrite_bytes key value es es' :
  HashTable.overwrite key value es = Some es' -> bytes value ->
  Forall (fun e => bytes e.1 /\ bytes e.2) es ->
  Forall (fun e => bytes e.1 /\ bytes e.2) es'.
Proof.
  intros Hes Hv Hall. revert es' Hes. induction Hall as [|[k v] es [Hk Hvv] Hall IH]; simpl; [done|].
  intros es'. case_decide.
  - intros [= <-]. constructor; [|done]. simpl in *. eauto using ht_overlay_bytes.
  - intros (es1 & Hes & ->)%fmap_Some. constructor; auto.
Qed.

Lemma ht_size h : ht_inv h -> size (ht_abs h) = length (ht_entries h).
Proof.
  intros [Hnd _]. unfold ht_abs. rewrite <- length_map_to_list.
  apply Permutation_length, map_to_list_to_map, Hnd.
Qed.

Lemma ht_filter_abs key es :
  (list_to_map (List.filter (fun e => negb (bool_decide (e.1 = key))) es)
     : gmap (list Z) (list Z)) = base.delete key (list_to_map es).
Proof.
  induction es as [|[k v] es IH]; simpl; [by rewrite delete_empty|].
  case_bool_decide; simpl.
  - subst. by rewrite IH, delete_insert_eq.
  - by rewrite IH, delete_insert_ne by done.
Qed.

Lemma ht_filter_sublist key (es : list (list Z * list Z)) :
  List.filter (fun e => negb (bool_decide (e.1 = key))) es `sublist_of` es.
Proof.
  induction es as [|e es IH]; simpl; [constructor|].
  case_match; by constructor.
Qed.

Lemma ht_filter_shorter key (es : list (list Z * list Z)) :
  (length (List.filter (fun e => negb (bool_decide (e.1 = key))) es) < length es)%nat <->
  is_Some ((list_to_map es : gmap (list Z) (list Z)) !! key).
Proof.
  induction es as [|[k v] es IH]; simpl.
  { rewrite lookup_empty. split; [lia | by intros []]. }
  rewrite lookup_insert. pose proof (sublist_length _ _ (ht_filter_sublist key es)).
  case_bool_decide; case_decide; try congruence; simpl.
  - split; [eauto | lia].
  - rewrite <- IH. lia.
Qed.

Lemma ht_update_refines h key value :
  ht_inv h ->
  prod_map id ht_abs (HashTable.update h key value) =
  spec_update (ht_max_entries h) (ht_abs h) key value.
Proof.
  intros Hinv. unfold HashTable.update, spec_update.
  destruct (HashTable.overwrite key value (ht_entries h)) as [es|] eqn:Hes.
  - destruct (ht_overwrite_Some _ _ _ _ Hes) as (_ & old & Hold & Hmap).
    unfold ht_abs at 2. rewrite <- ht_find_abs, Hold. unfold prod_map; simpl. f_equal.
    apply Hmap.
  - apply ht_overwrite_None in Hes.
    assert (ht_abs h !! key = None) as -> by by apply not_elem_of_list_to_map_1.
    rewrite ht_size by done. case_match; [|done]. unfold prod_map; simpl. f_equal.
    unfold ht_abs; simpl. by apply list_to_map_snoc.
Qed.

Lemma ht_delete_refines h key :
  prod_map id ht_abs (HashTable.delete h key) = spec_delete (ht_abs h) key.
Proof.
  unfold HashTable.delete, spec_delete, prod_map; simpl. f_equal.
  - apply bool_decide_ext, ht_filter_shorter.
  - apply ht_filter_abs.
Qed.

Lemma ht_update_inv h key value :
  ht_inv h -> bytes key -> bytes value -> ht_inv (HashTable.update h key value).2.
Proof.
  intros (Hnd & Hmax & Hk & Hv & Hb) Hkey Hval. unfold HashTable.update.
  destruct (HashTable.overwrite key value (ht_entries h)) as [es|] eqn:Hes.
  - pose proof (ht_overwrite_Some _ _ _ _ Hes) as (Hdom & _).
    pose proof (f_equal length Hdom) as Hlen. rewrite !length_fmap in Hlen.
    unfold ht_inv; simpl. rewrite Hdom, Hlen. split_and!; eauto using ht_overwrite_bytes.
  - apply ht_overwrite_None in Hes.
    destruct (Z.ltb_spec (Z.of_nat (length (ht_entries h))) (ht_max_entries h)); simpl; [|done].
    unfold ht_inv; simpl. rewrite fmap_app, length_app, NoDup_app, Forall_app; simpl.
    split_and!; auto with lia; try set_solver.
    apply NoDup_singleton.
Qed.

Lemma ht_delete_inv h key : ht_inv h -> ht_inv (HashTable.delete h key).2.
Proof.
  intros (Hnd & Hmax & Hk & Hv & Hb). unfold ht_inv; simpl.
  pose proof (ht_filter_sublist key (ht_entries h)) as Hsub.
  pose proof (sublist_length _ _ Hsub). split_and!; try done; [| lia |].
  - eapply sublist_NoDup; [exact Hnd | by apply fmap_sublist].
  - rewrite Forall_forall in *. intros e He. apply Hb.
    by eapply elem_of_sublist.
Qed.

Lemma ht_find_bytes key es v :
  Forall (fun e => bytes e.1 /\ bytes e.2) es -> HashTable.find key es = Some v -> bytes v.
Proof.
  induction 1 as [|[k w] es [_ Hw] _ IH]; simpl; [done|].
  case_decide; [by intros [= <-] | done].
Qed.

#[export] Program Instance HashTable_MapLaws : MapLaws HashTable := { m_inv := ht_inv }.
Next Obligation. done. Qed.
Next Obligation. intros. by apply ht_update_inv. Qed.
Next Obligation. intros. by apply ht_delete_inv. Qed.
Next Obligation.
  intros h (_ & Hmax & Hk & Hv & _). unfold ht_inv; simpl.
  split_and!; auto using NoDup_nil_2. lia.
Qed.
Next Obligation. intros h k v (_ & _ & _ & _ & Hb). by apply ht_find_bytes. Qed.
Next Obligation. done. Qed.
Next Obligation. intros h (_ & _ & ? & ? & _). done. Qed.

Lemma am_set_inv a i e :
  am_inv a -> match e with Some v => bytes v | None => True end ->
  am_inv (ArrayMap.set_entries a (<[i := e]> (am_entries a))).
Proof.
  intros (Hlen & Hv & Hb) He. unfold am_inv; simpl. rewrite length_insert.
  split_and!; try done. by apply Forall_insert.
Qed.

#[export] Program Instance ArrayMap_MapLaws : MapLaws ArrayMap := { m_inv := am_inv }.
Next Obligation. done. Qed.
Next Obligation. intros. unfold m_update; simpl. unfold ArrayMap.update. case_match; [by apply am_set_inv | done]. Qed.
Next Obligation. intros. unfold m_delete; simpl. unfold ArrayMap.delete. case_match; [by apply am_set_inv | done]. Qed.
Next Obligation.
  intros a (Hlen & Hv & Hb). unfold am_inv; simpl. rewrite length_fmap.
  split_and!; try done. apply Forall_fmap, Forall_true. done.
Qed.
Next Obligation.
  intros a k v (_ & _ & Hb). simpl. case_match; [|done].
  destruct (am_entries a !! ArrayMap.index k) as [e|] eqn:He; simpl; [|done].
  intros ->. by apply (Forall_lookup_1 _ _ _ _ Hb He).
Qed.
Next Obligation. done. Qed.
Next Obligation. intros a (_ & ? & _). unfold m_key_size, m_value_size; simpl. unfold ArrayMap.key_size. lia. Qed.

#[export] Program Instance PerfEventArray_MapLaws : MapLaws PerfEventArray :=
  { m_inv := fun _ => True }.
Solve All Obligations with (simpl; intros; first [done | lia]).

(** ** [RingBuf] is a byte stream *)

Section ring.
Context (r : RingBuf) (Hr : rb_inv r).

Local Lemma rb_cap_pos : 256 <= rb_capacity r < M64.
Proof.
  destruct Hr as ((k & Hk & ->) & _). split.
  - apply (Z.pow_le_mono_r 2 8 k); lia.
  - apply (Z.pow_lt_mono_r 2 k 64); lia.
Qed.

Local Lemma rb_u64_mod x : u64 x mod rb_capacity r = x mod rb_capacity r.
Proof. destruct Hr as ((k & Hk & ->) & _). apply u64_mod_pow2. lia. Qed.

Local Lemma rb_used_range : 0 <= rb_used r <= rb_capacity r.
Proof. destruct Hr as (_ & _ & _ & _ & Hu & _). pose proof (u64_range (rb_producer r - rb_consumer r)). unfold rb_used, is_u64 in *. lia. Qed.

(** The distance between the cursors is the fill level, modulo capacity. *)
Local Lemma rb_cursor_mod x :
  (x + rb_producer r) mod rb_capacity r = (x + rb_consumer r + rb_used r) mod rb_capacity r.
Proof.
  pose proof rb_cap_pos. rewrite (Zplus_mod (x + rb_consumer r)). unfold rb_used.
  rewrite rb_u64_mod, <- Zplus_mod. f_equal. lia.
Qed.

Lemma rb_byte_Some i : is_Some (rb_byte r i).
Proof.
  pose proof rb_cap_pos. apply lookup_lt_is_Some.
  destruct Hr as (_ & Hlen & _).
  pose proof (Z.mod_pos_bound (rb_consumer r + Z.of_nat i) (rb_capacity r)). lia.
Qed.

Lemma rb_contents_lookup i :
  rb_contents r !! i = if decide (Z.of_nat i < rb_used r) then rb_byte r i else None.
Proof.
  unfold rb_contents. rewrite list_lookup_fmap. case_decide.
  - rewrite lookup_seq_lt by lia. simpl. destruct (rb_byte_Some i) as [b ->]. done.
  - rewrite lookup_seq_ge by lia. done.
Qed.

Lemma length_rb_contents : Z.of_nat (length (rb_contents r)) = rb_used r.
Proof. pose proof rb_used_range. unfold rb_contents. rewrite length_fmap, length_seq. lia. Qed.

(** Copying in at [offset] writes [value] circularly. *)
Lemma rb_copy_in_lookup offset value p :
  0 <= offset < rb_capacity r -> Z.of_nat (length value) <= rb_capacity r ->
  0 <= p < rb_capacity r ->
  rb_buf (RingBuf.copy_in r offset value) !! Z.to_nat p =
    let d := (p - offset) mod rb_capacity r in
    if decide (d < Z.of_nat (length value)) then value !! Z.to_nat d
    else rb_buf r !! Z.to_nat p.
Proof.
  intros Hoff Hlen Hp. pose proof rb_cap_pos. destruct Hr as (_ & Hbuf & _).
  set (first := Nat.min (length value) (Z.to_nat (rb_capacity r - offset))).
  assert (H1 : forall q, splice (Z.to_nat offset) (take first value) (rb_buf r) !! q =
    if decide (Z.to_nat offset <= q < Z.to_nat offset + first)%nat
    then value !! (q - Z.to_nat offset)%nat else rb_buf r !! q).
  { intros q. rewrite lookup_splice; rewrite length_take; [|unfold first; lia].
    replace (first `min` length value)%nat with first by (unfold first; lia).
    case_decide; [|done]. rewrite lookup_take_lt by lia. done. }
  assert (Hd : (p - offset) mod rb_capacity r =
    if decide (offset <= p) then p - offset else p - offset + rb_capacity r).
  { case_decide; [apply Z.mod_small; lia|].
    rewrite <- (Z.mod_add _ 1) by lia. rewrite Z.mul_1_l. apply Z.mod_small. lia. }
  unfold RingBuf.copy_in; simpl. fold first. rewrite Hd.
  destruct (Nat.ltb_spec first (length value)).
  - rewrite lookup_splice; rewrite length_drop, ?length_splice by (rewrite ?length_take; unfold first; lia); [|unfold first in *; lia].
    rewrite H1. repeat case_decide; rewrite ?lookup_drop; try (unfold first in *; lia);
      f_equal; unfold first in *; lia.
  - rewrite H1. repeat case_decide; try (unfold first in *; lia); f_equal; lia.
Qed.
End ring.

(** Advancing the producer by [n] that fits. *)
Lemma rb_used_advance p c n :
  is_u64 p -> is_u64 c -> 0 <= n -> u64 (p - c) + n < M64 ->
  u64 (u64 (p + n) - c) = u64 (p - c) + n.
Proof.
  intros Hp Hc Hn Hfit. pose proof (u64_range (p - c)) as [? _].
  rewrite <- (u64_small (u64 (p - c) + n)) by (unfold is_u64; lia).
  unfold u64 in *. rewrite Zminus_mod_idemp_l, Zplus_mod_idemp_l. f_equal. lia.
Qed.

(** Advancing the consumer by [n] bytes that are there. *)
Lemma rb_used_retreat p c n :
  0 <= n <= u64 (p - c) -> u64 (p - u64 (c + n)) = u64 (p - c) - n.
Proof.
  intros Hn. pose proof (u64_range (p - c)) as [_ ?].
  rewrite <- (u64_small (u64 (p - c) - n)) by (unfold is_u64; lia).
  unfold u64 in *. rewrite Zminus_mod_idemp_r, Zminus_mod_idemp_l. f_equal. lia.
Qed.

Lemma rb_reserve_full r len :
  rb_inv r -> rb_capacity r - rb_used r < len ->
  RingBuf.reserve r len =
    (None, mkRingBuf (rb_buf r) (rb_capacity r) (rb_producer r) (rb_consumer r)
             (u64 (rb_lost_bytes r + len))).
Proof.
  intros Hr Hfull. unfold RingBuf.reserve. pose proof (rb_used_range r Hr).
  pose proof (rb_cap_pos r Hr). fold (rb_used r).
  rewrite u64_small by (unfold is_u64; lia). by rewrite (proj2 (Z.ltb_lt _ _)).
Qed.

Lemma rb_reserve_fits r len :
  rb_inv r -> len <= rb_capacity r - rb_used r ->
  RingBuf.reserve r len =
    (Some (rb_producer r mod rb_capacity r),
     mkRingBuf (rb_buf r) (rb_capacity r) (u64 (rb_producer r + len)) (rb_consumer r)
       (rb_lost_bytes r)).
Proof.
  intros Hr Hfits. unfold RingBuf.reserve. pose proof (rb_used_range r Hr).
  pose proof (rb_cap_pos r Hr). fold (rb_used r).
  rewrite u64_small by (unfold is_u64; lia). by rewrite (proj2 (Z.ltb_ge _ _)).
Qed.

Lemma rb_advance_inv r n :
  rb_inv r -> 0 <= n <= rb_capacity r - rb_used r ->
  rb_inv (mkRingBuf (rb_buf r) (rb_capacity r) (u64 (rb_producer r + n)) (rb_consumer r)
            (rb_lost_bytes r)).
Proof.
  intros Hr Hn. pose proof (rb_cap_pos r Hr).
  destruct Hr as (Hk & Hlen & Hp & Hc & Hu & Hb). unfold rb_inv; simpl.
  split_and!; auto with word. unfold rb_used in *; simpl.
  rewrite rb_used_advance by (try done; lia). lia.
Qed.

Lemma rb_copy_in_inv r offset value :
  rb_inv r -> 0 <= offset < rb_capacity r -> Z.of_nat (length value) <= rb_capacity r ->
  bytes value -> rb_inv (RingBuf.copy_in r offset value).
Proof.
  intros Hr Hoff Hlen Hv. destruct Hr as (Hk & Hbuf & Hp & Hc & Hu & Hb).
  unfold RingBuf.copy_in, rb_inv; simpl. split_and!; try done.
  - case_match eqn:E; rewrite ?length_splice; rewrite ?length_take, ?length_drop;
      rewrite ?length_splice; rewrite ?length_take; lia.
  - case_match; auto using Forall_splice, Forall_take, Forall_drop.
Qed.


(** How far slot [i] of the stream lies behind the write offset. *)
Lemma rb_slot_distance r i :
  rb_inv r -> 0 <= i < rb_used r + rb_capacity r ->
  ((rb_consumer r + i) mod rb_capacity r - rb_producer r mod rb_capacity r)
      mod rb_capacity r =
  if decide (i < rb_used r) then i - rb_used r + rb_capacity r else i - rb_used r.
Proof.
  intros Hr Hi. pose proof (rb_cap_pos r Hr). pose proof (rb_used_range r Hr).
  rewrite <- Zminus_mod.
  assert (E : (rb_consumer r + i - rb_producer r) mod rb_capacity r =
              (i - rb_used r) mod rb_capacity r).
  { unfold rb_used.
    rewrite <- (Zminus_mod_idemp_r _ (u64 _)), rb_u64_mod, Zminus_mod_idemp_r by done.
    f_equal. lia. }
  rewrite E. case_decide; [|apply Z.mod_small; lia].
  rewrite <- (Z.mod_add _ 1), Z.mul_1_l by lia. apply Z.mod_small. lia.
Qed.

(** A record that fits is appended to the stream. *)
Lemma rb_update_contents r key value :
  rb_inv r -> bytes value -> Z.of_nat (length value) <= rb_capacity r - rb_used r ->
  exists r', RingBuf.update r key value = (true, r') /\ rb_inv r' /\
    rb_contents r' = rb_contents r ++ value /\ RingBuf.lost r' = RingBuf.lost r.
Proof.
  intros Hr Hb Hfits. unfold RingBuf.update. rewrite rb_reserve_fits by done.
  set (n := Z.of_nat (length value)) in *.
  pose proof (rb_cap_pos r Hr) as Hcap. pose proof (rb_used_range r Hr) as Hused.
  pose proof (rb_advance_inv r n Hr ltac:(lia)) as Hr1.
  set (r1 := mkRingBuf (rb_buf r) _ _ _ _) in *.
  set (offset := rb_producer r mod rb_capacity r).
  assert (Hoff : 0 <= offset < rb_capacity r1) by (apply Z.mod_pos_bound; simpl; lia).
  pose proof (rb_copy_in_inv r1 offset value Hr1 Hoff ltac:(simpl; lia) Hb) as Hr2.
  eexists. split_and!; [done | exact Hr2 | | done].
  assert (Hu : rb_used (RingBuf.copy_in r1 offset value) = rb_used r + n).
  { destruct Hr as (_ & _ & ? & ? & _). apply (rb_used_advance (rb_producer r) (rb_consumer r) n); try done; fold (rb_used r); lia. }
  apply list_eq. intros i. rewrite rb_contents_lookup, Hu by done.
  pose proof (length_rb_contents r Hr) as Hlen. case_decide as Hi.
  2: { symmetry. apply lookup_ge_None. rewrite length_app. lia. }
  unfold rb_byte at 1; cbn [rb_consumer RingBuf.copy_in r1 rb_capacity].
  rewrite rb_copy_in_lookup by first [done | simpl; lia | apply Z.mod_pos_bound; simpl; lia].
  unfold offset; cbn [r1 rb_capacity]. cbv zeta.
  rewrite rb_slot_distance by (try done; lia).
  rewrite lookup_app, rb_contents_lookup by done.
  destruct (decide (Z.of_nat i < rb_used r)).
  - rewrite decide_False by lia. by destruct (rb_byte_Some r Hr i) as [b Hbyte]; rewrite Hbyte.
  - rewrite decide_True by lia. f_equal. lia.
Qed.

(** A record that does not fit leaves the stream alone and is counted. *)
Lemma rb_update_full r key value :
  rb_inv r -> rb_capacity r - rb_used r < Z.of_nat (length value) ->
  exists r', RingBuf.update r key value = (false, r') /\ rb_inv r' /\
    rb_contents r' = rb_contents r /\
    RingBuf.lost r' = u64 (RingBuf.lost r + Z.of_nat (length value)).
Proof.
  intros Hr Hfull. unfold RingBuf.update. rewrite rb_reserve_full by done.
  eexists. by split_and!.
Qed.

(** The two-part read of [m] bytes from the consumer offset. *)
Lemma rb_read_take r m :
  rb_inv r -> Z.of_nat m <= rb_used r ->
  let offset := rb_consumer r mod rb_capacity r in
  let first := Nat.min m (Z.to_nat (rb_capacity r - offset)) in
  slice (Z.to_nat offset) first (rb_buf r) ++
    (if (first <? m)%nat then take (m - first) (rb_buf r) else []) =
  take m (rb_contents r).
Proof.
  intros Hr Hm offset first. pose proof (rb_cap_pos r Hr). pose proof (rb_used_range r Hr).
  assert (Hoff : 0 <= offset < rb_capacity r) by (apply Z.mod_pos_bound; lia).
  assert (Hbuf : Z.of_nat (length (rb_buf r)) = rb_capacity r) by apply Hr.
  assert (Hfirst : length (slice (Z.to_nat offset) first (rb_buf r)) = first)
    by (apply length_slice; lia).
  apply list_eq. intros i. destruct (decide (i < m)%nat).
  2: { rewrite !lookup_ge_None_2; [done | rewrite length_take; lia |].
       rewrite length_app, Hfirst. case_match; rewrite ?length_take; simpl; lia. }
  rewrite lookup_take_lt, rb_contents_lookup, decide_True by (done || lia).
  unfold rb_byte. rewrite <- Zplus_mod_idemp_l. fold offset.
  destruct (decide (i < first)%nat).
  - rewrite lookup_app_l, lookup_slice, decide_True by lia.
    rewrite Z.mod_small by lia. f_equal. lia.
  - rewrite lookup_app_r, Hfirst, (proj2 (Nat.ltb_lt _ _)), lookup_take_lt by lia.
    replace (offset + Z.of_nat i) with (offset + Z.of_nat i - rb_capacity r + 1 * rb_capacity r) by lia.
    rewrite Z.mod_add, Z.mod_small by lia. f_equal. lia.
Qed.

Lemma rb_retreat_inv r n :
  rb_inv r -> 0 <= n <= rb_used r ->
  rb_inv (mkRingBuf (rb_buf r) (rb_capacity r) (rb_producer r) (u64 (rb_consumer r + n))
            (rb_lost_bytes r)).
Proof.
  intros Hr Hn. destruct Hr as (Hk & Hlen & Hp & Hc & Hu & Hb). unfold rb_inv; simpl.
  split_and!; auto with word. unfold rb_used in *; simpl.
  rewrite rb_used_retreat by lia. lia.
Qed.

Lemma rb_retreat_contents r m :
  rb_inv r -> Z.of_nat m <= rb_used r ->
  rb_contents (mkRingBuf (rb_buf r) (rb_capacity r) (rb_producer r)
    (u64 (rb_consumer r + Z.of_nat m)) (rb_lost_bytes r)) = drop m (rb_contents r).
Proof.
  intros Hr Hm. pose proof (rb_retreat_inv r (Z.of_nat m) Hr ltac:(lia)) as Hr'.
  apply list_eq. intros i. rewrite lookup_drop, !rb_contents_lookup by done.
  assert (Hu : rb_used (mkRingBuf (rb_buf r) (rb_capacity r) (rb_producer r)
    (u64 (rb_consumer r + Z.of_nat m)) (rb_lost_bytes r)) = rb_used r - Z.of_nat m).
  { apply (rb_used_retreat (rb_producer r) (rb_consumer r)). fold (rb_used r). lia. }
  rewrite Hu. unfold rb_byte; simpl.
  rewrite <- Zplus_mod_idemp_l, rb_u64_mod, Zplus_mod_idemp_l by done.
  repeat case_decide; try lia; [|done]. do 3 f_equal. lia.
Qed.

(** Consuming takes a prefix of the stream. *)
Lemma rb_consume_contents r n :
  rb_inv r ->
  exists r', RingBuf.consume r n = (take n (rb_contents r), r') /\ rb_inv r' /\
    rb_contents r' = drop n (rb_contents r).
Proof.
  intros Hr. unfold RingBuf.consume. fold (rb_used r).
  pose proof (rb_used_range r Hr). pose proof (length_rb_contents r Hr) as Hlen.
  set (m := Z.to_nat (Z.min (Z.of_nat n) (rb_used r))).
  assert (Hm : Z.of_nat m <= rb_used r) by lia.
  assert (take n (rb_contents r) = take m (rb_contents r) /\
          drop n (rb_contents r) = drop m (rb_contents r)) as [-> ->].
  { destruct (decide (Z.of_nat n <= rb_used r)); [by replace m with n by lia|].
    rewrite !take_ge, !drop_ge by lia. done. }
  destruct (Nat.eqb_spec m 0) as [->|_].
  { exists r. by rewrite take_0, drop_0. }
  eexists. split_and!.
  - f_equal. by apply rb_read_take.
  - apply rb_retreat_inv; [done | lia].
  - by apply rb_retreat_contents.
Qed.

Lemma rb_contents_bytes r : rb_inv r -> bytes (rb_contents r).
Proof.
  intros Hr. apply Forall_lookup. intros i b. rewrite rb_contents_lookup by done.
  case_decide; [|done]. apply Forall_lookup_1, Hr.
Qed.

Lemma rb_update_inv r key value :
  rb_inv r -> bytes value -> rb_inv (RingBuf.update r key value).2.
Proof.
  intros Hr Hv.
  destruct (decide (Z.of_nat (length value) <= rb_capacity r - rb_used r)).
  - by destruct (rb_update_contents r key value) as (r' & -> & ? & _).
  - by destruct (rb_update_full r key value) as (r' & -> & ? & _); [| lia |].
Qed.

Lemma rb_empty_inv r c :
  rb_inv r -> is_u64 c -> rb_inv (mkRingBuf (rb_buf r) (rb_capacity r) c c (rb_lost_bytes r)).
Proof.
  intros Hr Hc. pose proof (rb_cap_pos r Hr). destruct Hr as (? & ? & _ & _ & _ & ?).
  unfold rb_inv; simpl. split_and!; try done. unfold rb_used; simpl.
  rewrite Z.sub_diag. unfold u64. rewrite Z.mod_0_l by lia. lia.
Qed.

#[export] Program Instance RingBuf_MapLaws : MapLaws RingBuf := { m_inv := rb_inv }.
Next Obligation.
  intros r k Hr. simpl. unfold RingBuf.lookup.
  by destruct (rb_consume_contents r 256 Hr) as (r' & -> & ? & _).
Qed.
Next Obligation. intros. by apply rb_update_inv. Qed.
Next Obligation. intros r k Hr. apply rb_empty_inv; [done | apply Hr]. Qed.
Next Obligation. intros r Hr. by apply (rb_empty_inv _ 0) in Hr; [|split; lia]. Qed.
Next Obligation.
  intros r k v Hr. simpl. unfold RingBuf.lookup.
  destruct (rb_consume_contents r 256 Hr) as (r' & -> & _). case_match eqn:E; [done|].
  intros [= <-]. rewrite <- E. apply Forall_take. by apply rb_contents_bytes.
Qed.
Next Obligation. done. Qed.
Next Obligation. intros r _. simpl. unfold RingBuf.key_size, RingBuf.value_size. lia. Qed.

Lemma rb_new_inv capacity : 0 <= capacity <= M63 -> rb_inv (RingBuf.new capacity).
Proof.
  intros Hc. unfold RingBuf.new, rb_inv; simpl. rewrite length_replicate.
  assert (exists k, 8 <= k < 64 /\ Z.max (next_power_of_two capacity) 256 = 2 ^ k) as (k & Hk & Hcap).
  { unfold next_power_of_two. destruct (Z.leb_spec capacity 1); [by exists 8|].
    assert (Z.log2_up capacity <= 63) by (apply (Z.log2_up_le_pow2 capacity 63); lia).
    pose proof (Z.log2_up_nonneg capacity).
    destruct (decide (Z.log2_up capacity <= 8)).
    - exists 8. pose proof (Z.pow_le_mono_r 2 (Z.log2_up capacity) 8). split; lia.
    - exists (Z.log2_up capacity). pose proof (Z.pow_le_mono_r 2 8 (Z.log2_up capacity)).
      split; lia. }
  split_and!; eauto; try (unfold is_u64; lia).
  - unfold rb_used; simpl. unfold u64. rewrite Z.mod_0_l by lia. lia.
  - apply Forall_replicate. split; lia.
Qed.

(** ** Dynamic dispatch and the registry *)

Definition map_obj_inv (m : MapObj) : Prop :=
  match m with
  | MapHash h => m_inv h | MapArray a => m_inv a
  | MapPerf p => m_inv p | MapRing r => m_inv r
  end.

#[export] Program Instance MapObj_MapLaws : MapLaws MapObj := { m_inv := map_obj_inv }.
Next Obligation. intros []; unfold m_lookup, prod_map; cbn -[m_inv m_lookup]; apply m_lookup_inv. Qed.
Next Obligation. intros []; unfold m_update, prod_map; cbn -[m_inv m_update]; apply m_update_inv. Qed.
Next Obligation. intros []; unfold m_delete, prod_map; cbn -[m_inv m_delete]; apply m_delete_inv. Qed.
Next Obligation. intros []; cbn -[m_inv m_clear]; apply m_clear_inv. Qed.
Next Obligation. intros []; unfold m_lookup at 1, prod_map; cbn -[m_inv m_lookup]; apply m_lookup_bytes. Qed.
Next Obligation.
  intros [h|a|p|r] k; [exact (m_lookup_sizes h k) | exact (m_lookup_sizes a k)
    | exact (m_lookup_sizes p k) | exact (m_lookup_sizes r k)].
Qed.
Next Obligation.
  intros [h|a|p|r] Hm; [exact (m_sizes_nonneg h Hm) | exact (m_sizes_nonneg a Hm)
    | exact (m_sizes_nonneg p Hm) | exact (m_sizes_nonneg r Hm)].
Qed.

Lemma registry_find_app id reg reg' :
  registry_find id (reg ++ reg') =
    match registry_find id reg with Some m => Some m | None => registry_find id reg' end.
Proof. induction reg as [|[i m] reg IH]; simpl; [done|]. by destruct (i =? id). Qed.

(** In a well-numbered registry lookup by id is lookup by position. *)
Lemma registry_find_lookup reg j id :
  (forall i x map, reg !! i = Some (x, map) -> x = Z.of_nat (j + i) + 1) ->
  registry_find id reg =
    if decide (Z.of_nat j < id) then snd <$> reg !! Z.to_nat (id - Z.of_nat j - 1) else None.
Proof.
  revert j. induction reg as [|[x map] reg IH]; intros j Hnum; simpl.
  { by case_decide. }
  pose proof (Hnum O x map eq_refl) as Hx. rewrite (IH (S j)).
  2: { intros i y m Hi. rewrite (Hnum (S i) y m Hi). lia. }
  destruct (Z.eqb_spec x id).
  - rewrite decide_True by lia. by replace (Z.to_nat (id - Z.of_nat j - 1)) with O by lia.
  - destruct (decide (Z.of_nat j < id)).
    + rewrite decide_True by lia.
      by replace (Z.to_nat (id - Z.of_nat j - 1)) with (S (Z.to_nat (id - Z.of_nat (S j) - 1))) by lia.
    + by rewrite decide_False by lia.
Qed.

Lemma get_map_lookup s id :
  ms_inv s ->
  get_map s id = if decide (0 < id) then snd <$> MAP_REGISTRY s !! Z.to_nat (id - 1) else None.
Proof.
  intros Hs. unfold get_map. rewrite (registry_find_lookup _ 0).
  - by rewrite Z.sub_0_r.
  - intros i x map Hi. by destruct (Hs _ _ _ Hi).
Qed.

(** ** Traces of a ring buffer *)

Inductive RingOp := Push (record : list Z) | Pull (max_len : nat).

(** Runs a trace and collects the records accepted and the bytes handed out. *)
Fixpoint ring_run (r : RingBuf) (ops : list RingOp) : RingBuf * list Z * list Z :=
  match ops with
  | [] => (r, [], [])
  | Push v :: ops =>
      let '(ok, r1) := RingBuf.update r [] v in
      let '(r2, acc, out) := ring_run r1 ops in
      (r2, if ok : bool then v ++ acc else acc, out)
  | Pull n :: ops =>
      let '(data, r1) := RingBuf.consume r n in
      let '(r2, acc, out) := ring_run r1 ops in
      (r2, acc, data ++ out)
  end.

Definition ring_op_bytes (o : RingOp) : Prop :=
  match o with Push v => bytes v | Pull _ => True end.

Lemma ring_run_stream r ops :
  rb_inv r -> Forall ring_op_bytes ops ->
  let '(r', acc, out) := ring_run r ops in
  rb_inv r' /\ out ++ rb_contents r' = rb_contents r ++ acc.
Proof.
  revert r. induction ops as [|[v|n] ops IH]; intros r Hr Hops; simpl.
  - by rewrite app_nil_r.
  - apply Forall_cons in Hops as [Hv Hops].
    destruct (decide (Z.of_nat (length v) <= rb_capacity r - rb_used r)).
    + destruct (rb_update_contents r [] v) as (r1 & -> & Hr1 & Hc & _); try done.
      specialize (IH r1 Hr1 Hops). destruct (ring_run r1 ops) as [[r2 acc] out].
      by rewrite Hc, <- app_assoc in IH.
    + destruct (rb_update_full r [] v) as (r1 & -> & Hr1 & Hc & _); [done | lia |].
      specialize (IH r1 Hr1 Hops). destruct (ring_run r1 ops) as [[r2 acc] out].
      by rewrite Hc in IH.
  - apply Forall_cons in Hops as [_ Hops].
    destruct (rb_consume_contents r n Hr) as (r1 & -> & Hr1 & Hc).
    specialize (IH r1 Hr1 Hops). destruct (ring_run r1 ops) as [[r2 acc] out].
    destruct IH as [? IH]. split; [done|].
    by rewrite <- app_assoc, IH, Hc, app_assoc, take_drop.
Qed.

(** ** Results *)

(** [HashTable] implements a bounded finite map: [lookup], [update] (in
    place for a known key, refused when full) and [delete] agree with the
    contract on [gmap], results included, and keep the invariant (distinct
    keys, at most [max_entries] of them). *)
Theorem hash_table_refines h key value :
  ht_inv h -> bytes key -> bytes value ->
  (HashTable.lookup h key).1 = ht_abs h !! key /\
  prod_map id ht_abs (HashTable.update h key value) =
    spec_update (ht_max_entries h) (ht_abs h) key value /\
  prod_map id ht_abs (HashTable.delete h key) = spec_delete (ht_abs h) key /\
  ht_inv (HashTable.update h key value).2 /\ ht_inv (HashTable.delete h key).2.
Proof.
  intros. split_and!; [apply ht_find_abs | by apply ht_update_refines
    | apply ht_delete_refines | by apply ht_update_inv | by apply ht_delete_inv].
Qed.

Lemma hash_table_refines_witness :
  (HashTable.lookup (HashTable.update (HashTable.new 1 1 2) [7] [9]).2 [7]).1 =
  ht_abs (HashTable.update (HashTable.new 1 1 2) [7] [9]).2 !! [7].
Proof.
  apply (hash_table_refines (HashTable.update (HashTable.new 1 1 2) [7] [9]).2 [7] [9]).
  - apply ht_update_inv.
    + split_and!; simpl; try lia; constructor.
    + repeat constructor; lia.
    + repeat constructor; lia.
  - repeat constructor; lia.
  - repeat constructor; lia.
Defined.

(** [RingBuf] is a lossy byte stream: over any sequence of [update] and
    [consume] calls, also when the 64-bit cursors wrap, what was consumed
    followed by what is still buffered is what was buffered at the start
    followed by the records that were accepted, in order. *)
Theorem ring_stream r ops r' acc out :
  rb_inv r -> Forall ring_op_bytes ops -> ring_run r ops = (r', acc, out) ->
  rb_inv r' /\ out ++ rb_contents r' = rb_contents r ++ acc.
Proof.
  intros Hr Hops Hrun. pose proof (ring_run_stream r ops Hr Hops) as H. by rewrite Hrun in H.
Qed.

Lemma ring_stream_witness :
  exists r' acc out,
    ring_run (RingBuf.new 300) [Push [1; 2; 3]; Pull 2; Push [4]; Pull 5] = (r', acc, out) /\
    out ++ rb_contents r' = [1; 2; 3; 4].
Proof.
  do 3 eexists. split; [vm_compute; reflexivity|].
  apply (ring_stream (RingBuf.new 300) [Push [1; 2; 3]; Pull 2; Push [4]; Pull 5] _ [1; 2; 3; 4]).
  - apply rb_new_inv. lia.
  - repeat constructor; lia.
  - vm_compute. reflexivity.
Defined.

(** A record is refused exactly when it does not fit, nothing is written
    then, and its length is added to the loss counter. *)
Theorem ring_update_result r key value :
  rb_inv r -> bytes value ->
  exists r', RingBuf.update r key value =
      (Z.of_nat (length value) <=? rb_capacity r - rb_used r, r') /\
    rb_inv r' /\
    if Z.of_nat (length value) <=? rb_capacity r - rb_used r
    then rb_contents r' = rb_contents r ++ value /\ RingBuf.lost r' = RingBuf.lost r
    else rb_contents r' = rb_contents r /\
         RingBuf.lost r' = u64 (RingBuf.lost r + Z.of_nat (length value)).
Proof.
  intros Hr Hv. destruct (Z.leb_spec (Z.of_nat (length value)) (rb_capacity r - rb_used r)).
  - by apply rb_update_contents.
  - by apply rb_update_full.
Qed.

Lemma ring_update_result_witness :
  exists r', RingBuf.update (RingBuf.new 0) [] (replicate 257 1) = (false, r').
Proof.
  destruct (ring_update_result (RingBuf.new 0) [] (replicate 257 1)) as (r' & Hu & _).
  - apply rb_new_inv. lia.
  - apply Forall_replicate. split; lia.
  - exists r'. exact Hu.
Defined.

(** [reserve] advances the producer before the record is copied in: a
    reader that runs between the two calls is handed the old buffer bytes
    in place of the record, and the record itself is never delivered. *)
Theorem ring_reserve_races value :
  length value = 4%nat ->
  let '(offset, r1) := RingBuf.reserve (RingBuf.new 256) 4 in
  let '(data, r2) := RingBuf.consume r1 4 in
  let r3 := RingBuf.copy_in r2 (default 0 offset) value in
  data = [0; 0; 0; 0] /\ rb_contents r3 = [].
Proof. by destruct value as [|a [|b [|c [|d []]]]]. Qed.

Lemma ring_reserve_races_witness :
  let '(offset, r1) := RingBuf.reserve (RingBuf.new 256) 4 in
  let '(data, r2) := RingBuf.consume r1 4 in
  data = [0; 0; 0; 0] /\ rb_contents (RingBuf.copy_in r2 (default 0 offset) [1; 2; 3; 4]) = [].
Proof. apply (ring_reserve_races [1; 2; 3; 4]). reflexivity. Defined.

(** Registering a map yields a fresh id under which exactly that map is
    found, and every id registered before keeps its map. *)
Theorem register_map_get s map id s' :
  ms_inv s -> (map < length (ms_heap s))%nat -> register_map s map = (id, s') ->
  ms_inv s' /\ get_map s id = None /\ get_map s' id = Some map /\
  forall id', id' <> id -> get_map s' id' = get_map s id'.
Proof.
  intros Hs Hmap [= <- <-].
  set (id := Z.of_nat (length (MAP_REGISTRY s)) + 1).
  assert (Hnone : get_map s id = None).
  { rewrite get_map_lookup by done. rewrite decide_True by lia.
    rewrite lookup_ge_None_2; [done | lia]. }
  split_and!; [|done| |].
  - intros i x m. simpl. rewrite lookup_app. case_match eqn:E; [intros [= ->]; by apply Hs|].
    apply lookup_ge_None in E. intros Hi. apply list_lookup_singleton_Some in Hi as [Hi [= <- <-]].
    split; [lia | done].
  - unfold get_map in *; simpl. rewrite registry_find_app, Hnone. simpl. by rewrite Z.eqb_refl.
  - intros id' Hne. unfold get_map; simpl. rewrite registry_find_app.
    case_match; [done|]. simpl. by rewrite (proj2 (Z.eqb_neq _ _)).
Qed.

Lemma register_map_get_witness :
  get_map (mkMapStore [MapPerf (mkPerfEventArray 1)] [(1, O)]) 1 = Some O.
Proof.
  apply (register_map_get (mkMapStore [MapPerf (mkPerfEventArray 1)] []) O 1).
  - intros i x m Hi. destruct i; discriminate Hi.
  - simpl. lia.
  - reflexivity.
Defined.
