(* ===== verification/EbpfVm.v ===== *)
(** * eBPF interpreter

    Model of [kernel/src/ebpf/vm.rs] and [kernel/src/ebpf/helpers.rs].  One
    iteration of the [exec_raw] loop is the function [step]; the raw pointer
    accesses of the source are checked accesses here, so that an access
    outside the 512-byte stack shows up as the outcome [Fault]. *)

From S2P Require Import Prelude EbpfMaps.

Definition STACK_SIZE : Z := 512.

Record EbpfInsn := mkInsn {
  code : Z;
  dst_reg : Z;
  src_reg : Z;
  off : Z;
  imm : Z;
}.

#[export] Instance EbpfInsn_eq_dec : EqDecision EbpfInsn.
Proof. solve_decision. Defined.

(** The fields at their machine widths. *)
Definition insn_ok (i : EbpfInsn) : Prop :=
  is_u8 (code i) /\ is_u8 (dst_reg i) /\ is_u8 (src_reg i) /\
  is_i16 (off i) /\ is_i32 (imm i).

(** ** Opcodes *)

Definition BPF_LD : Z := 0x00.
Definition BPF_LDX : Z := 0x01.
Definition BPF_ST : Z := 0x02.
Definition BPF_STX : Z := 0x03.
Definition BPF_ALU : Z := 0x04.
Definition BPF_JMP : Z := 0x05.
Definition BPF_JMP32 : Z := 0x06.
Definition BPF_ALU64 : Z := 0x07.

Definition BPF_DW : Z := 0x18.
Definition BPF_MOV : Z := 0xb0.
Definition BPF_ADD : Z := 0x00.
Definition BPF_SUB : Z := 0x10.
Definition BPF_MUL : Z := 0x20.
Definition BPF_DIV : Z := 0x30.
Definition BPF_OR : Z := 0x40.
Definition BPF_AND : Z := 0x50.
Definition BPF_LSH : Z := 0x60.
Definition BPF_RSH : Z := 0x70.
Definition BPF_NEG : Z := 0x80.
Definition BPF_MOD : Z := 0x90.
Definition BPF_XOR : Z := 0xa0.
Definition BPF_ARSH : Z := 0xc0.

Definition BPF_JA : Z := 0x00.
Definition BPF_JEQ : Z := 0x10.
Definition BPF_JGT : Z := 0x20.
Definition BPF_JGE : Z := 0x30.
Definition BPF_JSET : Z := 0x40.
Definition BPF_JNE : Z := 0x50.
Definition BPF_JSGT : Z := 0x60.
Definition BPF_JSGE : Z := 0x70.
Definition BPF_CALL : Z := 0x80.
Definition BPF_EXIT : Z := 0x90.

Definition BPF_SIZE_MASK : Z := 0x18.
Definition BPF_IMM : Z := 0x00.

(** [code & 0x07], [code & 0xf0] and the source bit. *)
Definition cls (i : EbpfInsn) : Z := Z.land (code i) 0x07.
Definition op (i : EbpfInsn) : Z := Z.land (code i) 0xf0.
Definition use_imm (i : EbpfInsn) : bool := negb (Z.land (code i) 0x08 =? 0).
Definition size_bits (i : EbpfInsn) : Z := Z.land (code i) BPF_SIZE_MASK.

Definition size_bytes (size : Z) : Z :=
  if size =? 0x00 then 8
  else if size =? 0x08 then 4
  else if size =? 0x10 then 2
  else if size =? 0x18 then 1
  else 0.

(** ** Register file *)

Module EbpfRegs.

Definition new : list Z := replicate 11 0.

Definition r (regs : list Z) (i : Z) : Z :=
  if i <? 11 then default 0 (regs !! Z.to_nat i) else 0.

Definition set_r (regs : list Z) (i v : Z) : list Z :=
  if i <? 11 then <[Z.to_nat i := v]> regs else regs.

Definition r0 (regs : list Z) : Z := r regs 0.
Definition set_r0 (regs : list Z) (v : Z) : list Z := set_r regs 0 v.
Definition r1 (regs : list Z) : Z := r regs 1.
Definition set_r1 (regs : list Z) (v : Z) : list Z := set_r regs 1 v.

End EbpfRegs.

(** ** The kernel state the helpers read and write *)

Record World := mkWorld {
  w_maps : MapStore;
  CURRENT_PROCESS : option Z;
  w_ticks : Z;
  w_cpu_id : Z;
  SEED : Z;
  TAIL_CALL_PROGS : list Z;
  w_console : list (list Z);
}.

Definition set_maps (w : World) (m : MapStore) : World :=
  mkWorld m (CURRENT_PROCESS w) (w_ticks w) (w_cpu_id w) (SEED w) (TAIL_CALL_PROGS w) (w_console w).
Definition set_seed (w : World) (x : Z) : World :=
  mkWorld (w_maps w) (CURRENT_PROCESS w) (w_ticks w) (w_cpu_id w) x (TAIL_CALL_PROGS w) (w_console w).
Definition set_tail_calls (w : World) (q : list Z) : World :=
  mkWorld (w_maps w) (CURRENT_PROCESS w) (w_ticks w) (w_cpu_id w) (SEED w) q (w_console w).
Definition println (w : World) (s : list Z) : World :=
  mkWorld (w_maps w) (CURRENT_PROCESS w) (w_ticks w) (w_cpu_id w) (SEED w)
    (TAIL_CALL_PROGS w) (w_console w ++ [s]).

(** [core::str::from_utf8] succeeds. *)
Fixpoint from_utf8_ok (l : list Z) : bool :=
  let cont (b : Z) := (0x80 <=? b) && (b <=? 0xbf) in
  let within (lo hi b : Z) := (lo <=? b) && (b <=? hi) in
  match l with
  | [] => true
  | b0 :: l0 =>
      if b0 <? 0x80 then from_utf8_ok l0
      else if within 0xc2 0xdf b0 then
        match l0 with b1 :: l1 => cont b1 && from_utf8_ok l1 | _ => false end
      else if within 0xe0 0xef b0 then
        match l0 with
        | b1 :: b2 :: l2 =>
            (if b0 =? 0xe0 then within 0xa0 0xbf b1
             else if b0 =? 0xed then within 0x80 0x9f b1 else cont b1)
            && cont b2 && from_utf8_ok l2
        | _ => false
        end
      else if within 0xf0 0xf4 b0 then
        match l0 with
        | b1 :: b2 :: b3 :: l3 =>
            (if b0 =? 0xf0 then within 0x90 0xbf b1
             else if b0 =? 0xf4 then within 0x80 0x8f b1 else cont b1)
            && cont b2 && cont b3 && from_utf8_ok l3
        | _ => false
        end
      else false
  end.

(** ** Helper functions *)

(** [off.checked_add(len)] stays within the stack. *)
Definition range_ok (o len : Z) : bool := (o + len <? M64) && (o + len <=? STACK_SIZE).

Definition update_heap (s : MapStore) (m : nat) (o : MapObj) : MapStore :=
  mkMapStore (<[m := o]> (ms_heap s)) (MAP_REGISTRY s).

Definition bpf_helper_map_lookup_elem (w : World) (stack : list Z) (map_fd key_off val_off : Z)
    : Z * list Z * World :=
  match get_map (w_maps w) map_fd with
  | None => (-2, stack, w)
  | Some m =>
      match ms_heap (w_maps w) !! m with
      | None => (-2, stack, w)
      | Some obj =>
          let ksz := m_key_size obj in
          let vsz := m_value_size obj in
          if negb (range_ok key_off ksz) then (-1, stack, w)
          else if negb (range_ok val_off vsz) then (-1, stack, w)
          else
            let key := slice (Z.to_nat key_off) (Z.to_nat ksz) stack in
            let '(res, obj') := m_lookup obj key in
            let w' := set_maps w (update_heap (w_maps w) m obj') in
            match res with
            | Some val =>
                let copy_len := Nat.min (length val) (Z.to_nat vsz) in
                (0, splice (Z.to_nat val_off) (take copy_len val) stack, w')
            | None => (-1, stack, w')
            end
      end
  end.

Definition bpf_helper_get_current_pid (w : World) : Z := default 0 (CURRENT_PROCESS w).

Definition bpf_helper_get_ticks (w : World) : Z := w_ticks w.

Definition bpf_helper_debug_print (w : World) (stack : list Z) (msg_off len : Z) : World :=
  if negb (range_ok msg_off len) then w
  else
    let s := slice (Z.to_nat msg_off) (Z.to_nat len) stack in
    if from_utf8_ok s then println w s else w.

Definition bpf_helper_ktime_get_ns (w : World) : Z := u64 (w_ticks w * 10000000).

Definition xorshift32 (x0 : Z) : Z :=
  let x1 := Z.lxor x0 (u32 (Z.shiftl x0 13)) in
  let x2 := Z.lxor x1 (Z.shiftr x1 17) in
  Z.lxor x2 (u32 (Z.shiftl x2 5)).

Definition bpf_helper_get_prandom_u32 (w : World) : Z * World :=
  let x := xorshift32 (SEED w) in (x, set_seed w x).

Definition bpf_helper_get_smp_processor_id (w : World) : Z := w_cpu_id w.

Definition bpf_helper_tail_call (w : World) (prog_idx : Z) : World :=
  set_tail_calls w (TAIL_CALL_PROGS w ++ [prog_idx]).

(** Unchecked loads and stores: [None] when the bytes are not all inside. *)
Definition load (stack : list Z) (addr n : Z) : option Z :=
  if addr + n <=? STACK_SIZE
  then Some (le_value (slice (Z.to_nat addr) (Z.to_nat n) stack)) else None.

Definition store (stack : list Z) (addr n v : Z) : option (list Z) :=
  if addr + n <=? STACK_SIZE
  then Some (splice (Z.to_nat addr) (le_bytes (Z.to_nat n) v) stack) else None.

(** ** Interpreter state and outcomes *)

Record Vm := mkVm {
  pc : Z;
  regs : list Z;
  stack : list Z;
  world : World;
}.

Inductive Outcome :=
  | Running (s : Vm)
  | Done (ret : Z) (s : Vm)
  | Fault (addr size : Z)
  | Panic
  | Hang.

(** [spin_lock]: waits for the lock word in the program's own stack; when it
    is not free nobody else can free it. *)
Inductive SpinResult := SpinTaken (stack : list Z) | SpinFault | SpinForever.

Definition bpf_helper_spin_lock (lock_off : Z) (stack : list Z) : SpinResult :=
  if u64 (lock_off + 8) <=? STACK_SIZE then
    match load stack lock_off 8 with
    | None => SpinFault
    | Some v =>
        if v =? 0 then
          match store stack lock_off 8 1 with Some st => SpinTaken st | None => SpinFault end
        else SpinForever
    end
  else SpinTaken stack.

Definition bpf_helper_spin_unlock (lock_off : Z) (stack : list Z) : SpinResult :=
  if u64 (lock_off + 8) <=? STACK_SIZE then
    match store stack lock_off 8 0 with Some st => SpinTaken st | None => SpinFault end
  else SpinTaken stack.

(** ** One iteration of the loop *)

(** The [match op] of the ALU classes on [i64] operands; [None] is the
    overflow panic of [i64::MIN / -1] and [i64::MIN % -1]. *)
Definition alu_result (o d s : Z) : option Z :=
  if o =? BPF_ADD then Some (i64 (d + s))
  else if o =? BPF_SUB then Some (i64 (d - s))
  else if o =? BPF_MUL then Some (i64 (d * s))
  else if o =? BPF_DIV then
    if s =? 0 then Some 0
    else if (d =? - M63) && (s =? -1) then None
    else Some (Z.quot d s)
  else if o =? BPF_OR then Some (Z.lor d s)
  else if o =? BPF_AND then Some (Z.land d s)
  else if o =? BPF_LSH then Some (i64 (Z.shiftl d (u32 s mod 64)))
  else if o =? BPF_RSH then Some (i64 (Z.shiftr (u64 d) (u32 s mod 64)))
  else if o =? BPF_MOD then
    if s =? 0 then Some 0
    else if (d =? - M63) && (s =? -1) then None
    else Some (Z.rem d s)
  else if o =? BPF_XOR then Some (Z.lxor d s)
  else if o =? BPF_MOV then Some s
  else if o =? BPF_ARSH then Some (i64 (Z.shiftr (u64 d) (u32 s mod 64)))
  else if o =? BPF_NEG then Some (i64 (- d))
  else Some 0.

Definition goto (s : Vm) (pc' : Z) : Vm := mkVm pc' (regs s) (stack s) (world s).
Definition with_regs (s : Vm) (rs : list Z) : Vm := mkVm (pc s) rs (stack s) (world s).
Definition next (s : Vm) : Vm := goto s (pc s + 1).

Definition step_alu (i : EbpfInsn) (s : Vm) : Outcome :=
  let is64 := cls i =? BPF_ALU64 in
  let src_val := if use_imm i then imm i else i64 (EbpfRegs.r (regs s) (src_reg i)) in
  let dst_val := i64 (EbpfRegs.r (regs s) (dst_reg i)) in
  match alu_result (op i) dst_val src_val with
  | None => Panic
  | Some result =>
      let final_val := if is64 then u64 result else u64 (i32 result) in
      Running (next (with_regs s (EbpfRegs.set_r (regs s) (dst_reg i) final_val)))
  end.

(** The [BPF_CALL] arm: run the helper, then fall through to the next pc. *)
Definition step_call (i : EbpfInsn) (s : Vm) : Outcome :=
  let rg := EbpfRegs.r (regs s) in
  let ret v := Running (next (with_regs s (EbpfRegs.set_r0 (regs s) v))) in
  let lock_result res :=
    match res with
    | SpinTaken st => Running (next (mkVm (pc s) (regs s) st (world s)))
    | SpinFault => Fault (rg 1) 8
    | SpinForever => Hang
    end in
  if imm i =? 1 then
    let '(v, st, w) := bpf_helper_map_lookup_elem (world s) (stack s) (rg 1) (rg 2) (rg 3) in
    Running (next (mkVm (pc s) (EbpfRegs.set_r0 (regs s) (u64 v)) st w))
  else if imm i =? 2 then ret (bpf_helper_get_current_pid (world s))
  else if imm i =? 3 then ret (bpf_helper_get_ticks (world s))
  else if imm i =? 4 then
    Running (next (mkVm (pc s) (regs s) (stack s)
      (bpf_helper_debug_print (world s) (stack s) (rg 1) (rg 2))))
  else if imm i =? 5 then ret (bpf_helper_ktime_get_ns (world s))
  else if imm i =? 6 then
    let '(v, w) := bpf_helper_get_prandom_u32 (world s) in
    Running (next (mkVm (pc s) (EbpfRegs.set_r0 (regs s) v) (stack s) w))
  else if imm i =? 7 then ret (bpf_helper_get_smp_processor_id (world s))
  else if imm i =? 8 then lock_result (bpf_helper_spin_lock (rg 1) (stack s))
  else if imm i =? 9 then lock_result (bpf_helper_spin_unlock (rg 1) (stack s))
  else if imm i =? 10 then
    Done 0 (mkVm (pc s) (regs s) (stack s) (bpf_helper_tail_call (world s) (u32 (rg 1))))
  else Running (next s).

(** The comparison of a conditional jump. *)
Definition jump_taken (o d s : Z) : bool :=
  if o =? BPF_JA then true
  else if o =? BPF_JEQ then d =? s
  else if o =? BPF_JGT then u64 s <? u64 d
  else if o =? BPF_JGE then u64 s <=? u64 d
  else if o =? BPF_JSET then negb (Z.land d s =? 0)
  else if o =? BPF_JNE then negb (d =? s)
  else if o =? BPF_JSGT then s <? d
  else if o =? BPF_JSGE then s <=? d
  else false.

(** A taken jump goes to [pc + off]; offset -1 returns. *)
Definition step_jmp (i : EbpfInsn) (s : Vm) : Outcome :=
  let o := op i in
  let is32 := cls i =? BPF_JMP32 in
  let rg := EbpfRegs.r (regs s) in
  let src_val := if o =? BPF_JA then 0
                 else if is32 then i32 (rg (src_reg i)) else i64 (rg (src_reg i)) in
  let dst_val := if is32 then i32 (rg (dst_reg i)) else i64 (rg (dst_reg i)) in
  if o =? BPF_CALL then step_call i s
  else if o =? BPF_EXIT then Done (EbpfRegs.r0 (regs s)) s
  else if jump_taken o dst_val src_val then
    if off i =? -1 then Done (EbpfRegs.r0 (regs s)) s
    else Running (goto s (if off i <? 0 then u64 (pc s - - off i) else u64 (pc s + off i)))
  else Running (next s).

Definition step_ld (insns : list EbpfInsn) (i : EbpfInsn) (s : Vm) : Outcome :=
  if (size_bits i =? BPF_DW) && (Z.land (code i) 0xe0 =? BPF_IMM) then
    let nxt := default (mkInsn 0 0 0 0 0) (insns !! Z.to_nat (pc s + 1)) in
    let imm64 := Z.lor (u64 (imm i)) (shl64 (u64 (imm nxt)) 32) in
    Running (goto (with_regs s (EbpfRegs.set_r (regs s) (dst_reg i) imm64)) (pc s + 2))
  else Running (next s).

Definition step_ldx (i : EbpfInsn) (s : Vm) : Outcome :=
  let n := size_bytes (size_bits i) in
  let addr := u64 (EbpfRegs.r (regs s) (src_reg i) + u64 (off i)) in
  if STACK_SIZE <? u64 (addr + n) then Running (next s)
  else match load (stack s) addr n with
       | None => Fault addr n
       | Some v => Running (next (with_regs s (EbpfRegs.set_r (regs s) (dst_reg i) v)))
       end.

Definition step_st (i : EbpfInsn) (s : Vm) : Outcome :=
  let addr := u64 (EbpfRegs.r (regs s) (dst_reg i) + u64 (off i)) in
  if STACK_SIZE <? u64 (addr + 8) then Running (next s)
  else match store (stack s) addr 8 (u64 (imm i)) with
       | None => Fault addr 8
       | Some st => Running (next (mkVm (pc s) (regs s) st (world s)))
       end.

Definition step_stx (i : EbpfInsn) (s : Vm) : Outcome :=
  let n := size_bytes (size_bits i) in
  let addr := u64 (EbpfRegs.r (regs s) (dst_reg i) + u64 (off i)) in
  if STACK_SIZE <? u64 (addr + n) then Running (next s)
  else match store (stack s) addr n (EbpfRegs.r (regs s) (src_reg i)) with
       | None => Fault addr n
       | Some st => Running (next (mkVm (pc s) (regs s) st (world s)))
       end.

Definition step_insn (insns : list EbpfInsn) (i : EbpfInsn) (s : Vm) : Outcome :=
  let c := cls i in
  if (c =? BPF_ALU) || (c =? BPF_ALU64) then step_alu i s
  else if (c =? BPF_JMP) || (c =? BPF_JMP32) then step_jmp i s
  else if c =? BPF_LD then step_ld insns i s
  else if c =? BPF_LDX then step_ldx i s
  else if c =? BPF_ST then step_st i s
  else if c =? BPF_STX then step_stx i s
  else Running (next s).

(** The loop test and body: leaving the program returns [r0]. *)
Definition step (insns : list EbpfInsn) (s : Vm) : Outcome :=
  if pc s <? Z.of_nat (length insns) then
    match insns !! Z.to_nat (pc s) with
    | Some i => step_insn insns i s
    | None => Done (EbpfRegs.r0 (regs s)) s
    end
  else Done (EbpfRegs.r0 (regs s)) s.

(** [exec_raw] for at most [fuel] iterations. *)
Fixpoint exec_raw (fuel : nat) (insns : list EbpfInsn) (s : Vm) : Outcome :=
  match fuel with
  | O => Running s
  | S fuel =>
      match step insns s with
      | Running s' => exec_raw fuel insns s'
      | o => o
      end
  end.

(** ** Runs interleaved with the rest of the kernel

    Between two instructions an interrupt may change the current process, the
    tick counter and the CPU the program runs on. *)

Inductive vm_step (insns : list EbpfInsn) : Vm -> Vm -> Prop :=
  | vm_exec s s' : step insns s = Running s' -> vm_step insns s s'
  | vm_interrupt s p t c :
      is_u64 t -> is_u64 c -> (forall pid, p = Some pid -> is_u64 pid) ->
      vm_step insns s
        (mkVm (pc s) (regs s) (stack s)
           (mkWorld (w_maps (world s)) p t c (SEED (world s))
              (TAIL_CALL_PROGS (world s)) (w_console (world s)))).

Definition vm_reachable (insns : list EbpfInsn) : Vm -> Vm -> Prop := rtc (vm_step insns).

(** ** Well-formed states *)

Definition regs_ok (rs : list Z) : Prop := length rs = 11%nat /\ Forall is_u64 rs.
Definition stack_ok (st : list Z) : Prop := Z.of_nat (length st) = STACK_SIZE /\ bytes st.

Definition world_ok (w : World) : Prop :=
  ms_inv (w_maps w) /\ Forall m_inv (ms_heap (w_maps w)) /\
  (forall pid, CURRENT_PROCESS w = Some pid -> is_u64 pid) /\
  is_u64 (w_ticks w) /\ is_u64 (w_cpu_id w) /\ is_u32 (SEED w) /\
  Forall is_u32 (TAIL_CALL_PROGS w).

Definition vm_ok (s : Vm) : Prop :=
  0 <= pc s /\ regs_ok (regs s) /\ stack_ok (stack s) /\ world_ok (world s).

Create HintDb vm.

Lemma regs_r_u64 rs i : regs_ok rs -> is_u64 (EbpfRegs.r rs i).
Proof.
  intros [Hlen Hall]. unfold EbpfRegs.r. case_match; [|split; lia].
  destruct (rs !! Z.to_nat i) as [v|] eqn:E; simpl; [|split; lia].
  by eapply Forall_lookup_1.
Qed.

Lemma regs_set_r_ok rs i v : regs_ok rs -> is_u64 v -> regs_ok (EbpfRegs.set_r rs i v).
Proof.
  intros [Hlen Hall] Hv. unfold EbpfRegs.set_r. case_match; [|done].
  split; [by rewrite length_insert | by apply Forall_insert].
Qed.

Lemma regs_r_set_r rs i j v :
  regs_ok rs -> 0 <= i < 11 -> 0 <= j < 11 ->
  EbpfRegs.r (EbpfRegs.set_r rs i v) j = if decide (i = j) then v else EbpfRegs.r rs j.
Proof.
  intros [Hlen _] Hi Hj. unfold EbpfRegs.r, EbpfRegs.set_r.
  rewrite !(proj2 (Z.ltb_lt _ 11)) by lia. case_decide as E.
  - subst. by rewrite list_lookup_insert_eq by lia.
  - by rewrite list_lookup_insert_ne by lia.
Qed.

Lemma u64_of_u32 x : is_u32 x -> is_u64 x.
Proof. unfold is_u32, is_u64. lia. Qed.

Lemma le_value_u64 l : bytes l -> (length l <= 8)%nat -> is_u64 (le_value l).
Proof.
  intros Hb Hlen. pose proof (le_value_range l Hb) as [? Hlt]. split; [done|].
  assert (M8 ^ Z.of_nat (length l) <= M8 ^ 8) by (apply Z.pow_le_mono_r; lia).
  change (M8 ^ 8) with M64 in *. lia.
Qed.

Lemma size_bytes_range sz : 0 <= size_bytes sz <= 8.
Proof. unfold size_bytes. repeat case_match; lia. Qed.

Lemma load_u64 st addr n v :
  stack_ok st -> 0 <= n <= 8 -> load st addr n = Some v -> is_u64 v.
Proof.
  intros [Hlen Hb] Hn. unfold load. case_match; [|done]. intros [= <-].
  apply le_value_u64; [by apply Forall_slice|].
  unfold slice. rewrite length_take. lia.
Qed.

Lemma store_ok st addr n v st' :
  stack_ok st -> 0 <= addr -> 0 <= n -> store st addr n v = Some st' -> stack_ok st'.
Proof.
  intros [Hlen Hb] Ha Hn. unfold store. destruct (Z.leb_spec (addr + n) STACK_SIZE); [|done].
  intros [= <-]. split.
  - rewrite length_splice; [done|]. rewrite length_le_bytes. unfold STACK_SIZE in *. lia.
  - auto with word.
Qed.

Lemma ms_update_inv s m o : ms_inv s -> ms_inv (update_heap s m o).
Proof.
  intros Hs i id map Hi. destruct (Hs _ _ _ Hi). simpl. by rewrite length_insert.
Qed.

#[export] Hint Resolve regs_r_u64 regs_set_r_ok u64_of_u32 ms_update_inv : vm.

(** The map helper keeps the stack well formed and the maps consistent. *)
Lemma map_lookup_elem_ok w st fd ko vo ret st' w' :
  world_ok w -> stack_ok st -> 0 <= ko -> 0 <= vo ->
  bpf_helper_map_lookup_elem w st fd ko vo = (ret, st', w') ->
  stack_ok st' /\ world_ok w' /\ (ret = 0 \/ ret = -1 \/ ret = -2).
Proof.
  intros Hw Hst Hko Hvo. unfold bpf_helper_map_lookup_elem.
  destruct (get_map (w_maps w) fd) as [m|]; [|intros [= <- <- <-]; auto].
  destruct (ms_heap (w_maps w) !! m) as [obj|] eqn:Hobj; [|intros [= <- <- <-]; auto].
  destruct (range_ok ko (m_key_size obj)) eqn:Hk; cbn [negb]; [|intros [= <- <- <-]; auto].
  destruct (range_ok vo (m_value_size obj)) eqn:Hv; cbn [negb]; [|intros [= <- <- <-]; auto].
  set (key := slice _ _ st). destruct (m_lookup obj key) as [res obj'] eqn:Hlk.
  destruct Hw as (Hms & Hheap & Hpid & Ht & Hc & Hs & Htc).
  assert (Hinv : m_inv obj) by by eapply Forall_lookup_1.
  pose proof (m_sizes_nonneg obj Hinv) as [_ Hvsz].
  generalize dependent (m_value_size obj). intros vsz Hv Hvsz.
  pose proof (m_lookup_inv obj key Hinv) as Hinv'. rewrite Hlk in Hinv'; simpl in Hinv'.
  assert (Hw' : world_ok (set_maps w (update_heap (w_maps w) m obj'))).
  { unfold world_ok; simpl. split_and!; auto with vm. by apply Forall_insert. }
  destruct res as [val|]; intros [= <- <- <-]; [|by auto].
  split_and!; auto. destruct Hst as [Hlen Hb].
  pose proof (m_lookup_bytes obj key val Hinv) as Hvb. rewrite Hlk in Hvb.
  unfold range_ok in Hv. apply andb_true_iff in Hv as [_ Hv%Z.leb_le].
  split.
  - rewrite length_splice; [done|]. rewrite length_take. unfold STACK_SIZE in *. lia.
  - apply Forall_splice; [|done]. apply Forall_take, Hvb. done.
Qed.

Lemma xorshift32_u32 x : is_u32 x -> is_u32 (xorshift32 x).
Proof.
  intros Hx. unfold xorshift32. cbv zeta.
  assert (Hl : forall a b, is_u32 a -> is_u32 b -> is_u32 (Z.lxor a b)).
  { intros a b [??] [??]. split; [apply Z.lxor_nonneg; tauto|].
    destruct (Z.eq_dec (Z.lxor a b) 0) as [->|]; [lia|].
    assert (0 <= Z.lxor a b) by (apply Z.lxor_nonneg; tauto).
    apply (Z.log2_lt_pow2 _ 32); [lia|].
    eapply Z.le_lt_trans; [by apply Z.log2_lxor|].
    apply Z.max_lub_lt; (destruct (Z.eq_dec a 0), (Z.eq_dec b 0); subst; try done);
      apply Z.log2_lt_pow2; lia. }
  apply Hl; [|auto with word]. apply Hl; [by apply Hl; auto with word|].
  set (y := Z.lxor x _). assert (Hy : is_u32 y) by (apply Hl; auto with word).
  rewrite Z.shiftr_div_pow2 by lia. destruct Hy. split; [apply Z.div_pos; lia|].
  apply Z.div_lt_upper_bound; lia.
Qed.

(** ** Every step keeps the state well formed *)

Lemma next_ok s : vm_ok s -> vm_ok (next s).
Proof. intros (? & ? & ? & ?). unfold vm_ok; simpl. split_and!; auto; lia. Qed.

Lemma goto_ok s p : vm_ok s -> 0 <= p -> vm_ok (goto s p).
Proof. intros (? & ? & ? & ?) ?. unfold vm_ok; simpl. auto. Qed.

Lemma with_regs_ok s rs : vm_ok s -> regs_ok rs -> vm_ok (with_regs s rs).
Proof. intros (? & ? & ? & ?) ?. unfold vm_ok; simpl. auto. Qed.

Lemma set_reg_ok s i v : vm_ok s -> is_u64 v -> vm_ok (with_regs s (EbpfRegs.set_r (regs s) i v)).
Proof. intros Hs Hv. apply with_regs_ok; [done|]. apply regs_set_r_ok; [apply Hs | done]. Qed.

#[export] Hint Resolve next_ok goto_ok set_reg_ok : vm.

Lemma current_pid_u64 w : world_ok w -> is_u64 (bpf_helper_get_current_pid w).
Proof.
  intros (_ & _ & Hpid & _). unfold bpf_helper_get_current_pid.
  destruct (CURRENT_PROCESS w); simpl; [by apply Hpid | split; lia].
Qed.

Lemma ticks_u64 w : world_ok w -> is_u64 (bpf_helper_get_ticks w).
Proof. by intros (_ & _ & _ & ? & _). Qed.

Lemma cpu_id_u64 w : world_ok w -> is_u64 (bpf_helper_get_smp_processor_id w).
Proof. by intros (_ & _ & _ & _ & ? & _). Qed.

Lemma ret_ok s v : vm_ok s -> is_u64 v -> vm_ok (with_regs s (EbpfRegs.set_r0 (regs s) v)).
Proof. apply set_reg_ok. Qed.

Lemma debug_print_ok w st o n : world_ok w -> world_ok (bpf_helper_debug_print w st o n).
Proof. intros Hw. unfold bpf_helper_debug_print. by repeat case_match. Qed.

Lemma prandom_ok w x w' :
  world_ok w -> bpf_helper_get_prandom_u32 w = (x, w') -> is_u64 x /\ world_ok w'.
Proof.
  intros (? & ? & ? & ? & ? & Hseed & ?) [= <- <-]. apply xorshift32_u32 in Hseed.
  split; [by apply u64_of_u32 | by unfold world_ok].
Qed.

Lemma spin_lock_ok st a st' :
  stack_ok st -> 0 <= a -> bpf_helper_spin_lock a st = SpinTaken st' -> stack_ok st'.
Proof.
  intros Hst Ha. unfold bpf_helper_spin_lock. repeat case_match; intros; simplify_eq; auto.
  by eapply (store_ok st a 8).
Qed.

Lemma spin_unlock_ok st a st' :
  stack_ok st -> 0 <= a -> bpf_helper_spin_unlock a st = SpinTaken st' -> stack_ok st'.
Proof.
  intros Hst Ha. unfold bpf_helper_spin_unlock. repeat case_match; intros; simplify_eq; auto.
  by eapply (store_ok st a 8).
Qed.

#[export] Hint Resolve ret_ok current_pid_u64 ticks_u64 cpu_id_u64 debug_print_ok spin_lock_ok spin_unlock_ok : vm.

Lemma step_call_ok i s s' : vm_ok s -> step_call i s = Running s' -> vm_ok s'.
Proof.
  intros Hs. pose proof Hs as (Hpc & Hr & Hst & Hw).
  pose proof Hw as (_ & _ & _ & Ht & Hc & _).
  assert (Hreg : forall j, 0 <= EbpfRegs.r (regs s) j) by (intros j; by apply regs_r_u64).
  assert (Hmk : forall rs st w, regs_ok rs -> stack_ok st -> world_ok w ->
    vm_ok (next (mkVm (pc s) rs st w))) by (intros; apply next_ok; by split_and!).
  unfold step_call.
  destruct (imm i =? 1).
  { destruct (bpf_helper_map_lookup_elem _ _ _ _ _) as [[v st] w] eqn:E. intros [= <-].
    apply map_lookup_elem_ok in E as (? & ? & _); auto.
    apply Hmk; auto. by apply regs_set_r_ok; auto with word. }
  destruct (imm i =? 2); [intros [= <-]; auto with vm|].
  destruct (imm i =? 3); [intros [= <-]; auto with vm|].
  destruct (imm i =? 4); [intros [= <-]; auto with vm|].
  destruct (imm i =? 5); [intros [= <-]; apply next_ok, ret_ok; auto with word; apply u64_range|].
  destruct (imm i =? 6).
  { destruct (bpf_helper_get_prandom_u32 (world s)) as [x w] eqn:E.
    apply prandom_ok in E as [? ?]; auto. intros [= <-]. apply Hmk; auto.
    by apply regs_set_r_ok. }
  destruct (imm i =? 7); [intros [= <-]; auto with vm|].
  repeat case_match; intros; simplify_eq; eauto with vm.
Qed.

Lemma step_alu_ok i s s' : vm_ok s -> step_alu i s = Running s' -> vm_ok s'.
Proof.
  intros Hs. unfold step_alu. destruct (alu_result _ _ _); [|done]. intros [= <-].
  apply next_ok, set_reg_ok; [done|]. destruct (cls i =? BPF_ALU64); apply u64_range.
Qed.

Lemma step_jmp_ok i s s' : vm_ok s -> step_jmp i s = Running s' -> vm_ok s'.
Proof.
  intros Hs. unfold step_jmp. cbv zeta.
  destruct (op i =? BPF_CALL); [by apply step_call_ok|].
  destruct (op i =? BPF_EXIT); [done|].
  destruct (jump_taken _ _ _); [|intros [= <-]; by apply next_ok].
  destruct (off i =? -1); [done|]. intros [= <-]. apply goto_ok; [done|].
  destruct (off i <? 0); apply u64_range.
Qed.

Lemma step_ld_ok insns i s s' : vm_ok s -> step_ld insns i s = Running s' -> vm_ok s'.
Proof.
  intros Hs. unfold step_ld. case_match; intros [= <-]; [|by apply next_ok].
  destruct Hs as (Hpc & ?). apply goto_ok; [|lia].
  apply set_reg_ok; [by split|]. auto with word.
Qed.

Lemma step_ldx_ok i s s' : vm_ok s -> step_ldx i s = Running s' -> vm_ok s'.
Proof.
  intros Hs. unfold step_ldx. case_match; [intros [= <-]; by apply next_ok|].
  case_match eqn:E; intros [= <-]. apply next_ok, set_reg_ok; [done|].
  eapply load_u64; [apply Hs | apply size_bytes_range | exact E].
Qed.

Lemma store_step_ok s addr n v st :
  vm_ok s -> is_u64 addr -> 0 <= n -> store (stack s) addr n v = Some st ->
  vm_ok (next (mkVm (pc s) (regs s) st (world s))).
Proof.
  intros (? & ? & Hst & ?) Ha Hn E. apply next_ok. split_and!; auto; simpl.
  eapply store_ok; [exact Hst | apply Ha | exact Hn | exact E].
Qed.

Lemma step_insn_ok insns i s s' :
  vm_ok s -> step_insn insns i s = Running s' -> vm_ok s'.
Proof.
  intros Hs. unfold step_insn. cbv zeta.
  case_match; [by apply step_alu_ok|]. case_match; [by apply step_jmp_ok|].
  case_match; [by apply step_ld_ok|]. case_match; [by apply step_ldx_ok|].
  case_match.
  { unfold step_st. destruct (STACK_SIZE <? _); [intros [= <-]; by apply next_ok|].
    destruct (store _ _ _ _) eqn:E; intros [= <-].
    eapply store_step_ok; [done | apply u64_range | | exact E]. lia. }
  case_match; [|intros [= <-]; by apply next_ok].
  unfold step_stx. destruct (STACK_SIZE <? _); [intros [= <-]; by apply next_ok|].
  destruct (store _ _ _ _) eqn:E; intros [= <-].
  eapply store_step_ok; [done | apply u64_range | | exact E]. apply size_bytes_range.
Qed.

Lemma step_ok insns s s' : vm_ok s -> step insns s = Running s' -> vm_ok s'.
Proof.
  intros Hs. unfold step. destruct (pc s <? _); [|done].
  destruct (insns !! _); [by apply step_insn_ok | done].
Qed.

Lemma vm_step_ok insns s s' : vm_ok s -> vm_step insns s s' -> vm_ok s'.
Proof.
  intros Hs Hstep. destruct Hstep as [s s' Hstep | s p t c Ht Hc Hp].
  { by apply (step_ok insns s). }
  destruct Hs as (? & ? & ? & (? & ? & _ & _ & _ & ? & ?)). unfold vm_ok; simpl.
  split_and!; auto. by unfold world_ok.
Qed.

Lemma vm_reachable_ok insns s s' : vm_ok s -> vm_reachable insns s s' -> vm_ok s'.
Proof. intros Hs. induction 1; eauto using vm_step_ok. Qed.

(** ** Where a raw access can go wrong *)

Lemma guard_window addr n :
  is_u64 addr -> 0 <= n <= STACK_SIZE -> u64 (addr + n) <= STACK_SIZE ->
  addr + n <= STACK_SIZE \/ M64 - n <= addr.
Proof.
  unfold is_u64, u64, STACK_SIZE. intros Ha Hn Hle.
  destruct (Z.lt_ge_cases (addr + n) M64); [|lia].
  rewrite Z.mod_small in Hle by lia. lia.
Qed.

(** ** A concrete start state, for the examples *)

Definition idle_world : World := mkWorld (mkMapStore [] []) None 0 0 1 [] [].

(** Registers zero but for the frame pointer, a zeroed stack. *)
Definition start_vm (fp : Z) : Vm :=
  mkVm 0 (EbpfRegs.set_r EbpfRegs.new 10 fp) (replicate 512 0) idle_world.

Lemma idle_world_ok : world_ok idle_world.
Proof.
  unfold world_ok; simpl. split_and!; try done; try (split; lia); try constructor.
Qed.

Lemma start_vm_ok fp : is_u64 fp -> vm_ok (start_vm fp).
Proof.
  intros Hfp. unfold vm_ok, start_vm. cbn [pc regs stack world].
  split_and!; [lia | | | apply idle_world_ok].
  - apply (regs_set_r_ok EbpfRegs.new 10 fp); [|done]. split; [done|].
    apply Forall_replicate. split; lia.
  - split; [done|]. apply Forall_replicate. split; lia.
Qed.

(** ** Results *)

(** The machine state stays well formed in every run of any program,
    verified or not: eleven 64-bit registers, a 512-byte stack, the maps'
    invariants and a non-negative program counter are kept by every
    instruction and every interrupt. *)
Theorem vm_invariant insns s s' :
  vm_ok s -> vm_reachable insns s s' -> vm_ok s'.
Proof. apply vm_reachable_ok. Qed.

Lemma vm_invariant_witness :
  exists s', step [mkInsn 0xbf 0 0 0 7] (start_vm 0) = Running s' /\ vm_ok s'.
Proof.
  eexists. split; [vm_compute; reflexivity|].
  eapply (vm_invariant [mkInsn 0xbf 0 0 0 7] (start_vm 0)).
  - apply start_vm_ok. split; lia.
  - apply rtc_once. constructor. vm_compute. reflexivity.
Defined.

(** The only way a single access can leave the stack is the wrap-around of
    the guard [addr + size > STACK_SIZE]: whatever the program, a faulting
    access has [addr >= 2^64 - size]. *)
Theorem fault_only_by_wraparound insns s addr n :
  vm_ok s -> step insns s = Fault addr n -> 0 < n <= 8 /\ M64 - n <= addr < M64.
Proof.
  assert (Hwin : forall a m, is_u64 a -> 0 <= m <= 8 -> u64 (a + m) <= STACK_SIZE ->
    ~ (a + m <= STACK_SIZE) -> 0 < m <= 8 /\ M64 - m <= a < M64).
  { intros a m Ha Hm Hg Hf. unfold STACK_SIZE in *.
    destruct (guard_window a m Ha) as [|]; unfold STACK_SIZE, is_u64 in *; lia. }
  intros (_ & Hr & _). unfold step. destruct (pc s <? _); [|done].
  destruct (insns !! Z.to_nat (pc s)) as [i|]; [|done].
  pose proof (size_bytes_range (size_bits i)) as Hn. unfold step_insn. cbv zeta.
  destruct (_ || _); [unfold step_alu; cbv zeta; by destruct (alu_result _ _ _)|].
  destruct (_ || _).
  { unfold step_jmp, step_call, bpf_helper_spin_lock, bpf_helper_spin_unlock, load, store.
    pose proof (regs_r_u64 (regs s) 1 Hr) as H1.
    repeat case_match; intros; simplify_eq;
      apply Hwin; rewrite ?Z.leb_le, ?Z.leb_gt in *; auto; lia. }
  unfold step_ld, step_ldx, step_st, step_stx, load, store.
  repeat case_match; intros; simplify_eq;
    apply Hwin; rewrite ?Z.ltb_ge, ?Z.leb_gt in *; auto with word; lia.
Qed.

Lemma fault_only_by_wraparound_witness :
  step [mkInsn 0x63 10 0 (-8) 0] (start_vm 0) = Fault (M64 - 8) 8 /\ M64 - 8 <= M64 - 8 < M64.
Proof.
  split; [vm_compute; reflexivity|].
  apply (fault_only_by_wraparound [mkInsn 0x63 10 0 (-8) 0] (start_vm 0)).
  - apply start_vm_ok. split; lia.
  - vm_compute. reflexivity.
Defined.
