(* ===== verification/EbpfVerifier.v ===== *)
(** * eBPF verifier

    Model of [kernel/src/ebpf/verifier.rs]: the structural pass [verify] with
    its reachability walk, and the abstract interpretation [tnum_verify].  The
    two [while let Some(..) = worklist.pop()] loops recurse on the pop budget
    the source gives them. *)

From S2P Require Import Prelude Tnum EbpfMaps EbpfVm.

(** ** [verify] *)

(** [insn.code & 0x1f == 0x18]: the first half of a 64-bit immediate load. *)
Definition is_lddw (i : EbpfInsn) : bool := Z.land (code i) 0x1f =? 0x18.

Definition is_jmp (i : EbpfInsn) : bool := (cls i =? BPF_JMP) || (cls i =? BPF_JMP32).

(** [((i as i64) + 1 + (insn.off as i64)) as usize]. *)
Definition jump_target (pc : Z) (i : EbpfInsn) : Z := u64 (pc + 1 + off i).

(** The body of the first loop, on instruction [i] at index [k]. *)
Definition check_insn (insns : list EbpfInsn) (k : nat) (i : EbpfInsn) : bool :=
  let c := cls i in
  let dst := dst_reg i in
  let src := src_reg i in
  if (10 <? dst) || (10 <? src) then false
  else if ((c =? BPF_ALU) || (c =? BPF_ALU64) || (c =? BPF_JMP) || (c =? BPF_JMP32))
          && (dst =? 10) then false
  else if c =? BPF_LD then
    if negb (Z.land (code i) 0xe0 =? 0x00) then false
    else if size_bits i =? 0x18 then
      match insns !! S k with
      | None => false
      | Some n => code n =? 0
      end
    else true
  else if c =? BPF_LDX then
    negb ((off i <? -512) || (512 <? off i)) && negb (dst =? 10)
  else if (c =? BPF_ST) || (c =? BPF_STX) then
    negb ((off i <? -512) || (512 <? off i))
  else if (c =? BPF_ALU) || (c =? BPF_ALU64) || (c =? BPF_JMP) || (c =? BPF_JMP32) then
    negb ((op i =? BPF_CALL) && ((imm i <? 1) || (4 <? imm i)))
  else false.

(** The body of the second loop: the targets instruction [k] adds, or [None]
    when its jump leaves the program. *)
Definition insn_targets (insns : list EbpfInsn) (k : nat) (i : EbpfInsn) : option (list Z) :=
  let len := Z.of_nat (length insns) in
  let kz := Z.of_nat k in
  if is_jmp i then
    if (op i =? BPF_JA) || (op i =? BPF_CALL) then
      let target := jump_target kz i in
      if len <=? target then None
      else Some (target :: if negb (op i =? BPF_JA) then [kz + 1] else [])
    else if negb (op i =? BPF_EXIT) then
      let target := jump_target kz i in
      if len <=? target then None else Some [target; kz + 1]
    else Some []
  else if kz + 1 <? len then
    Some [kz + (if is_lddw i then 2 else 1)]
  else Some [].

Fixpoint collect_targets (insns : list EbpfInsn) (k : nat) (l : list EbpfInsn)
    (targets : gset Z) : option (gset Z) :=
  match l with
  | [] => Some targets
  | i :: l =>
      match insn_targets insns k i with
      | None => None
      | Some ts => collect_targets insns (S k) l (list_to_set ts ∪ targets)
      end
  end.

(** [insns[t - 1].code & 0x1f == 0x18] for [t > 0]. *)
Definition follows_lddw (insns : list EbpfInsn) (t : Z) : bool :=
  (0 <? t) && match insns !! Z.to_nat (t - 1) with Some p => is_lddw p | None => false end.

Definition target_ok (insns : list EbpfInsn) (t : Z) : bool :=
  negb (Z.of_nat (length insns) <=? t) && negb (follows_lddw insns t).

(** What the walk pushes after visiting [cur], first push first. *)
Definition walk_succs (insns : list EbpfInsn) (cur : Z) (i : EbpfInsn) : list Z :=
  let len := Z.of_nat (length insns) in
  let target := jump_target cur i in
  let nxt := cur + (if is_lddw i then 2 else 1) in
  (if is_jmp i && (target <? len) then [target] else []) ++
  (if is_jmp i && ((op i =? BPF_JA) || (op i =? BPF_EXIT)) then []
   else if nxt <? len then [nxt] else []).

(** The reachability walk; [None] when the budget is exhausted.  The head of
    the list is the top of the source's [Vec] stack.  Only indices below the
    length are ever pushed, so the lookup does not fail. *)
Fixpoint walk (budget : nat) (insns : list EbpfInsn) (visited : gset Z) (worklist : list Z)
    : option (gset Z) :=
  match worklist with
  | [] => Some visited
  | cur :: worklist =>
      match budget with
      | O => None
      | S budget =>
          if bool_decide (cur ∈ visited) then walk budget insns visited worklist
          else
            match insns !! Z.to_nat cur with
            | None => None
            | Some i =>
                walk budget insns ({[cur]} ∪ visited)
                  (reverse (walk_succs insns cur i) ++ worklist)
            end
      end
  end.

Definition MAX_TNUM_STEPS_PER_INSN : Z := 64.

(** [(insns.len() as u64).saturating_mul(MAX_TNUM_STEPS_PER_INSN)]. *)
Definition step_budget (insns : list EbpfInsn) : nat :=
  Z.to_nat (Z.min (Z.of_nat (length insns) * MAX_TNUM_STEPS_PER_INSN) (M64 - 1)).

Definition verify (insns : list EbpfInsn) : bool :=
  let len := Z.of_nat (length insns) in
  if (len =? 0) || (4096 <? len) then false
  else if negb (forallb (fun p => check_insn insns p.1 p.2) (imap pair insns)) then false
  else if negb (bool_decide ((op <$> last insns) = Some BPF_EXIT)) then false
  else
    match collect_targets insns 0 insns {[0; len - 1]} with
    | None => false
    | Some targets =>
        if negb (forallb (target_ok insns) (elements targets)) then false
        else
          match walk (step_budget insns) insns ∅ [0] with
          | None => false
          | Some visited =>
              forallb (fun k => bool_decide (Z.of_nat k ∈ visited)
                                || follows_lddw insns (Z.of_nat k)) (seq 0 (length insns))
          end
    end.

(** ** Abstract states *)

Record VState := mkVState { v_regs : list Tnum; v_stack : list Tnum }.

#[export] Instance VState_eq_dec : EqDecision VState.
Proof. solve_decision. Defined.

Module VState.

Definition new : VState := mkVState (replicate 11 Tnum.any) (replicate 64 Tnum.any).

Definition reg (s : VState) (i : Z) : Tnum := default Tnum.any (v_regs s !! Z.to_nat i).

Definition set_reg (s : VState) (i : Z) (t : Tnum) : VState :=
  mkVState (<[Z.to_nat i := t]> (v_regs s)) (v_stack s).

Definition init : VState := set_reg new 10 (Tnum.exact STACK_SIZE).

(** [self.stack[slot + i] = t] for the slots that exist. *)
Fixpoint write_slots (slot count : nat) (t : Tnum) (st : list Tnum) : list Tnum :=
  match count with
  | O => st
  | S count => write_slots (S slot) count t (<[slot := t]> st)
  end.

Definition write_stack (s : VState) (off size : Z) (t : Tnum) : VState :=
  if negb (off mod 8 =? 0) || negb (size mod 8 =? 0) then s
  else
    let count := Z.max 1 (size / 8) in
    if off / 8 <? 64
    then mkVState (v_regs s) (write_slots (Z.to_nat (off / 8)) (Z.to_nat count) t (v_stack s))
    else s.

Definition merge (a b : VState) : VState :=
  mkVState (zip_with Tnum.merge (v_regs a) (v_regs b))
           (zip_with Tnum.merge (v_stack a) (v_stack b)).

(** The field-by-field comparison loops. *)
Definition eq (a b : VState) : bool := bool_decide (v_regs a = v_regs b) && bool_decide (v_stack a = v_stack b).

End VState.

(** ** Transfer functions *)

Definition sz_bytes (i : EbpfInsn) : Z := size_bytes (Z.land (code i) BPF_SIZE_MASK).

Definition check_stack_acc (base : Tnum) (o size : Z) : bool :=
  let bm := Tnum.max base in
  if STACK_SIZE * 8 <? bm then false
  else
    let addr := i64 (i64 bm + o) in
    let end_ := i64 (addr + (size - 1)) in
    (0 <=? addr) && (end_ <? STACK_SIZE).

Definition lo32 : Z := 0xFFFFFFFF.

Definition alu_op_tnum (o : Z) (dst src : Tnum) (is_alu32 : bool) : Tnum :=
  let r :=
    if o =? BPF_ADD then Tnum.add dst src
    else if o =? BPF_SUB then Tnum.sub dst src
    else if o =? BPF_MUL then Tnum.mul dst src
    else if o =? BPF_DIV then Tnum.any
    else if o =? BPF_OR then Tnum.or dst src
    else if o =? BPF_AND then Tnum.and dst src
    else if o =? BPF_LSH then Tnum.shl dst src
    else if o =? BPF_RSH then Tnum.lshr dst src
    else if o =? BPF_NEG then Tnum.neg dst
    else if o =? BPF_MOD then Tnum.any
    else if o =? BPF_XOR then Tnum.xor dst src
    else if o =? BPF_MOV then src
    else if o =? BPF_ARSH then Tnum.ashr dst src
    else Tnum.any in
  if is_alu32 then
    mkTnum (Z.land (Z.land (value r) lo32) (not64 (mask r)))
           (Z.lor (Z.land (mask r) lo32) (not64 lo32))
  else r.

Definition mask32 (t : Tnum) : Tnum :=
  mkTnum (Z.land (value t) lo32) (Z.lor (Z.land (mask t) lo32) (not64 lo32)).

Definition refine_cond (pre : VState) (i : EbpfInsn) (taken is32 : bool) : VState :=
  let o := op i in
  if (o =? BPF_JEQ) || (o =? BPF_JNE) then
    let eq := ((o =? BPF_JEQ) && taken) || ((o =? BPF_JNE) && negb taken) in
    if use_imm i && eq then
      VState.set_reg pre (dst_reg i)
        (if is32 then Tnum.exact (u32 (imm i)) else Tnum.exact (u64 (imm i)))
    else if negb (use_imm i) && eq && negb (src_reg i =? dst_reg i) then
      let r := Tnum.intersect (VState.reg pre (dst_reg i)) (VState.reg pre (src_reg i)) in
      VState.set_reg (VState.set_reg pre (dst_reg i) r) (src_reg i) r
    else pre
  else pre.

(** What processing one instruction does: [return false], a panic on an
    out-of-range register index, or the calls of [push_merged] in order. *)
Inductive Transfer := TReject | TPanic | TPush (succs : list (Z * VState)).

(** Indexing the 11-element register array. *)
Definition idx (r : Z) (k : Transfer) : Transfer := if r <? 11 then k else TPanic.

(** [if next < insns.len() { push_merged(next, post) }]. *)
Definition fall (insns : list EbpfInsn) (nxt : Z) (post : VState) : Transfer :=
  TPush (if nxt <? Z.of_nat (length insns) then [(nxt, post)] else []).

Definition alu_src (pre : VState) (i : EbpfInsn) : Tnum :=
  let is64 := cls i =? BPF_ALU64 in
  if use_imm i then
    if is64 then Tnum.exact (u64 (imm i)) else Tnum.exact (u32 (imm i))
  else if is64 then VState.reg pre (src_reg i) else mask32 (VState.reg pre (src_reg i)).

Definition alu_dst (pre : VState) (i : EbpfInsn) : Tnum :=
  if cls i =? BPF_ALU64 then VState.reg pre (dst_reg i) else mask32 (VState.reg pre (dst_reg i)).

Definition transfer_alu (insns : list EbpfInsn) (cur : Z) (i : EbpfInsn) (pre : VState) : Transfer :=
  let src := alu_src pre i in
  idx (if use_imm i then 0 else src_reg i)
    (idx (dst_reg i)
       (if ((op i =? BPF_DIV) || (op i =? BPF_MOD)) && Tnum.could_be_zero src then TReject
        else
          fall insns (cur + 1)
            (VState.set_reg pre (dst_reg i)
               (alu_op_tnum (op i) (alu_dst pre i) src (negb (cls i =? BPF_ALU64)))))).

Definition transfer_ldx (insns : list EbpfInsn) (cur : Z) (i : EbpfInsn) (pre : VState) : Transfer :=
  idx (src_reg i)
    (if negb (check_stack_acc (VState.reg pre (src_reg i)) (off i) (sz_bytes i)) then TReject
     else idx (dst_reg i) (fall insns (cur + 1) (VState.set_reg pre (dst_reg i) Tnum.any))).

Definition transfer_st (insns : list EbpfInsn) (cur : Z) (i : EbpfInsn) (pre : VState) : Transfer :=
  let base := VState.reg pre (dst_reg i) in
  let size := if Z.land (code i) BPF_SIZE_MASK =? 0 then 8 else 4 in
  idx (dst_reg i)
    (if negb (check_stack_acc base (off i) size) then TReject
     else
       let addr := u64 (i64 (Tnum.min base) + off i) in
       fall insns (cur + 1) (VState.write_stack pre addr size (Tnum.exact (u64 (imm i))))).

Definition transfer_stx (insns : list EbpfInsn) (cur : Z) (i : EbpfInsn) (pre : VState) : Transfer :=
  let base := VState.reg pre (dst_reg i) in
  let size := sz_bytes i in
  idx (dst_reg i)
    (if negb (check_stack_acc base (off i) size) then TReject
     else
       let addr := u64 (i64 (Tnum.min base) + off i) in
       idx (src_reg i)
         (fall insns (cur + 1) (VState.write_stack pre addr size (VState.reg pre (src_reg i))))).

(** The registers [refine_cond] indexes. *)
Definition idx_cond (i : EbpfInsn) (k : Transfer) : Transfer :=
  if (op i =? BPF_JEQ) || (op i =? BPF_JNE) then
    if use_imm i then idx (dst_reg i) k
    else if src_reg i =? dst_reg i then k
    else idx (src_reg i) (idx (dst_reg i) k)
  else k.

(** Registers 1 to 5 after a call. *)
Definition clobber (s : VState) : VState :=
  foldl (fun s r => VState.set_reg s r Tnum.any) s [1; 2; 3; 4; 5].

Definition transfer_jmp (insns : list EbpfInsn) (cur : Z) (i : EbpfInsn) (pre : VState) : Transfer :=
  let len := Z.of_nat (length insns) in
  let target := jump_target cur i in
  if op i =? BPF_EXIT then
    if bool_decide (VState.reg pre 0 = Tnum.any) then TReject else TPush []
  else if op i =? BPF_CALL then
    if (1 <=? imm i) && (imm i <=? 3) then
      fall insns (cur + 1) (clobber (VState.set_reg pre 0 Tnum.any))
    else if imm i =? 4 then
      fall insns (cur + 1) (clobber (VState.set_reg pre 0 (Tnum.exact 0)))
    else TReject
  else if op i =? BPF_JA then
    if len <=? target then TReject else TPush [(target, pre)]
  else
    if len <=? target then TReject
    else
      let is32 := cls i =? BPF_JMP32 in
      idx_cond i
        (TPush [(target, refine_cond pre i true is32); (cur + 1, refine_cond pre i false is32)]).

Definition transfer_ld (insns : list EbpfInsn) (cur : Z) (i : EbpfInsn) (pre : VState) : Transfer :=
  if (size_bits i =? BPF_DW) && (Z.land (code i) 0xe0 =? 0x00) then
    match insns !! Z.to_nat (cur + 1) with
    | None => TReject
    | Some n =>
        let imm64 := Z.lor (u64 (imm i)) (shl64 (u64 (imm n)) 32) in
        idx (dst_reg i)
          (fall insns (cur + 2) (VState.set_reg pre (dst_reg i) (Tnum.exact imm64)))
    end
  else TReject.

Definition transfer (insns : list EbpfInsn) (cur : Z) (i : EbpfInsn) (pre : VState) : Transfer :=
  let c := cls i in
  if (c =? BPF_ALU) || (c =? BPF_ALU64) then transfer_alu insns cur i pre
  else if c =? BPF_LDX then transfer_ldx insns cur i pre
  else if c =? BPF_ST then transfer_st insns cur i pre
  else if c =? BPF_STX then transfer_stx insns cur i pre
  else if (c =? BPF_JMP) || (c =? BPF_JMP32) then transfer_jmp insns cur i pre
  else if c =? BPF_LD then transfer_ld insns cur i pre
  else TReject.

(** ** The fixpoint loop *)

Definition push_merged (sw : gmap Z VState * list Z) (tv : Z * VState) : gmap Z VState * list Z :=
  let '(state_map, worklist) := sw in
  let '(target, new_state) := tv in
  match state_map !! target with
  | Some existing =>
      let merged := VState.merge existing new_state in
      if negb (VState.eq existing merged)
      then (<[target := merged]> state_map, target :: worklist)
      else (state_map, worklist)
  | None => (<[target := new_state]> state_map, target :: worklist)
  end.

(** Outcomes of [tnum_verify]: the verdict, or the index panic of
    [insns[cur]] or [pre.regs[..]] out of bounds. *)
Inductive Verdict := Accept | Reject | VPanic.

#[export] Instance Verdict_eq_dec : EqDecision Verdict.
Proof. solve_decision. Defined.

(** The loop; its result is the final map, or the early exit. *)
Fixpoint tnum_loop (budget : nat) (insns : list EbpfInsn) (state_map : gmap Z VState)
    (worklist : list Z) : Verdict * gmap Z VState :=
  match worklist with
  | [] => (Accept, state_map)
  | cur :: worklist =>
      match budget with
      | O => (Reject, state_map)
      | S budget =>
          match state_map !! cur with
          | None => tnum_loop budget insns state_map worklist
          | Some pre =>
              match insns !! Z.to_nat cur with
              | None => (VPanic, state_map)
              | Some i =>
                  match transfer insns cur i pre with
                  | TReject => (Reject, state_map)
                  | TPanic => (VPanic, state_map)
                  | TPush succs =>
                      let '(sm, wl) := foldl push_merged (state_map, worklist) succs in
                      tnum_loop budget insns sm wl
                  end
              end
          end
      end
  end.

Definition tnum_verify (insns : list EbpfInsn) : Verdict :=
  let len := Z.of_nat (length insns) in
  if (len =? 0) || (4096 <? len) then Reject
  else
    match tnum_loop (step_budget insns) insns {[0 := VState.init]} [0] with
    | (Accept, state_map) =>
        match state_map !! (len - 1) with
        | Some st => if bool_decide (VState.reg st 0 = Tnum.any) then Reject else Accept
        | None => Accept
        end
    | (v, _) => v
    end.
