(* ===== verification/EbpfCfg.v ===== *)
(** * What the structural verifier establishes

    The reachability walk of [verify] computes exactly the instructions
    reachable from the entry in the control-flow graph, its pop budget is
    never exhausted, and so [verify] decides a declarative well-formedness
    predicate on programs. *)

From S2P Require Import Prelude Tnum EbpfMaps EbpfVm EbpfVerifier.

(** ** The control-flow graph *)

(** Slots an instruction takes: a wide load takes two. *)
Definition insn_len (i : EbpfInsn) : Z := if is_lddw i then 2 else 1.

(** Only an unconditional jump and [EXIT] do not continue below. *)
Definition falls_through (i : EbpfInsn) : Prop :=
  ~ (is_jmp i = true /\ (op i = BPF_JA \/ op i = BPF_EXIT)).

(** The edges the source follows: the offset of every jump-class instruction
    (for [CALL] and [EXIT] too) and the next instruction. *)
Inductive cfg_edge (insns : list EbpfInsn) (k : Z) : Z -> Prop :=
  | edge_jump i :
      insns !! Z.to_nat k = Some i -> is_jmp i = true ->
      jump_target k i < Z.of_nat (length insns) -> cfg_edge insns k (jump_target k i)
  | edge_fall i :
      insns !! Z.to_nat k = Some i -> falls_through i ->
      k + insn_len i < Z.of_nat (length insns) -> cfg_edge insns k (k + insn_len i).

Definition cfg_reachable (insns : list EbpfInsn) : Z -> Prop := rtc (cfg_edge insns) 0.

(** The indices of the program. *)
Definition in_prog (insns : list EbpfInsn) (k : Z) : Prop := 0 <= k < Z.of_nat (length insns).

Definition all_pcs (insns : list EbpfInsn) : gset Z :=
  list_to_set (Z.of_nat <$> seq 0 (length insns)).

(** ** The declarative predicate [verify] decides *)

Record well_formed (insns : list EbpfInsn) : Prop := {
  wf_length : (0 < length insns <= 4096)%nat;
  wf_insns k i : insns !! k = Some i -> check_insn insns k i = true;
  wf_exit : (op <$> last insns) = Some BPF_EXIT;
  wf_targets k i : insns !! k = Some i ->
    exists ts, insn_targets insns k i = Some ts /\
      Forall (fun t => target_ok insns t = true) ts;
  wf_entry : target_ok insns 0 = true;
  wf_last : target_ok insns (Z.of_nat (length insns) - 1) = true;
  wf_reach k : in_prog insns k ->
    cfg_reachable insns k \/ follows_lddw insns k = true;
}.

(** ** The walk *)

Lemma falls_through_spec i :
  is_jmp i && ((op i =? BPF_JA) || (op i =? BPF_EXIT)) = false <-> falls_through i.
Proof.
  unfold falls_through.
  rewrite <- not_true_iff_false, andb_true_iff, orb_true_iff, !Z.eqb_eq. done.
Qed.

Lemma elem_of_walk_succs insns k i k' :
  insns !! Z.to_nat k = Some i -> k' ∈ walk_succs insns k i <-> cfg_edge insns k k'.
Proof.
  intros Hi. unfold walk_succs. cbv zeta. fold (insn_len i). rewrite elem_of_app. split.
  - intros [H|H].
    + destruct (is_jmp i && _) eqn:E; [|set_solver]. apply andb_true_iff in E as [? ?%Z.ltb_lt].
      apply list_elem_of_singleton in H as ->. by eapply edge_jump.
    + destruct (is_jmp i && _) eqn:E; [set_solver|]. apply falls_through_spec in E.
      destruct (Z.ltb_spec (k + insn_len i) (Z.of_nat (length insns))); [|set_solver].
      apply list_elem_of_singleton in H as ->. by eapply edge_fall.
  - intros [i' Hi' Hj Ht|i' Hi' Hf Ht]; simplify_eq.
    + left. rewrite Hj, (proj2 (Z.ltb_lt _ _)) by done. set_solver.
    + right. apply falls_through_spec in Hf. rewrite Hf, (proj2 (Z.ltb_lt _ _)) by done.
      set_solver.
Qed.

Lemma elem_of_all_pcs insns k : k ∈ all_pcs insns <-> in_prog insns k.
Proof.
  unfold all_pcs, in_prog. rewrite elem_of_list_to_set, list_elem_of_fmap.
  split.
  - intros (n & -> & Hn%elem_of_seq). lia.
  - intros Hk. exists (Z.to_nat k). rewrite elem_of_seq. lia.
Qed.

Lemma all_pcs_size insns : size (all_pcs insns) = length insns.
Proof.
  unfold all_pcs. rewrite size_list_to_set.
  - by rewrite length_fmap, length_seq.
  - apply NoDup_fmap_2; [apply _ | apply NoDup_seq].
Qed.

Lemma walk_succs_in_prog insns k i k' :
  in_prog insns k -> k' ∈ walk_succs insns k i -> in_prog insns k'.
Proof.
  unfold in_prog, walk_succs. intros Hk. rewrite elem_of_app. intros [H|H].
  - destruct (is_jmp i && _) eqn:E; [|set_solver]. apply list_elem_of_singleton in H as ->.
    apply andb_true_iff in E as [_ E%Z.ltb_lt]. pose proof (u64_range (k + 1 + off i)).
    unfold jump_target, is_u64 in *. lia.
  - destruct (is_jmp i && _); [set_solver|].
    destruct (Z.ltb_spec (k + (if is_lddw i then 2 else 1)) (Z.of_nat (length insns))); [|set_solver].
    apply list_elem_of_singleton in H as ->. destruct (is_lddw i); lia.
Qed.

Lemma length_walk_succs insns k i : (length (walk_succs insns k i) <= 2)%nat.
Proof.
  unfold walk_succs. rewrite length_app. repeat case_match; simpl; lia.
Qed.

Section walk.
Context (insns : list EbpfInsn).

(** Pops still needed: the queue plus two pushes per unvisited index. *)
Definition walk_measure (visited : gset Z) (worklist : list Z) : nat :=
  length worklist + 2 * size (all_pcs insns ∖ visited).

Lemma walk_total budget visited worklist :
  Forall (in_prog insns) worklist ->
  (walk_measure visited worklist <= budget)%nat ->
  exists v, walk budget insns visited worklist = Some v.
Proof.
  revert visited worklist. induction budget as [|b IH]; intros visited worklist Hwl Hb.
  { destruct worklist; unfold walk_measure in Hb; simpl in *; [eauto | lia]. }
  destruct worklist as [|cur wl]; [by eexists|]. simpl.
  apply Forall_cons in Hwl as [Hcur Hwl]. unfold walk_measure in *. simpl in Hb.
  case_bool_decide as Hv; [apply IH; [done | lia]|].
  destruct (lookup_lt_is_Some_2 insns (Z.to_nat cur)) as [i Hi].
  { unfold in_prog in Hcur. lia. }
  rewrite Hi. apply IH.
  - rewrite Forall_app. split; [|done]. apply Forall_forall. intros k'.
    rewrite elem_of_reverse. by apply walk_succs_in_prog.
  - rewrite length_app, length_reverse. pose proof (length_walk_succs insns cur i).
    assert (size (all_pcs insns ∖ ({[cur]} ∪ visited)) < size (all_pcs insns ∖ visited))%nat.
    { apply subset_size. split; [set_solver|]. intros Hsub.
      assert (cur ∈ all_pcs insns ∖ visited) as Hin%Hsub; [|set_solver].
      apply elem_of_difference. by rewrite elem_of_all_pcs. }
    lia.
Qed.

(** What the loop maintains: the visited and queued indices are reachable,
    and the successors of a visited index are visited or queued. *)
Definition walk_inv (visited : gset Z) (worklist : list Z) : Prop :=
  (forall k, k ∈ visited \/ k ∈ worklist -> cfg_reachable insns k) /\
  (forall k k', k ∈ visited -> cfg_edge insns k k' -> k' ∈ visited \/ k' ∈ worklist).

Lemma walk_preserves budget visited worklist v :
  walk_inv visited worklist -> walk budget insns visited worklist = Some v ->
  walk_inv v [] /\ visited ⊆ v /\ (forall k, k ∈ worklist -> k ∈ v).
Proof.
  revert visited worklist. induction budget as [|b IH]; intros visited worklist Hinv.
  { destruct worklist; simpl; [intros [= <-]; set_solver | done]. }
  destruct worklist as [|cur wl]; simpl; [intros [= <-]; set_solver|].
  destruct Hinv as [Hreach Hclosed]. case_bool_decide as Hv.
  - intros Hw. apply IH in Hw as (? & ? & ?); [set_solver|]. split; [set_solver|].
    intros k k' Hk He. destruct (Hclosed k k' Hk He) as [|Hin]; [auto|].
    apply elem_of_cons in Hin as [->|]; auto.
  - destruct (insns !! Z.to_nat cur) as [i|] eqn:Hi; [|done]. intros Hw.
    apply IH in Hw as (? & ? & ?); [set_solver|]. split.
    + intros k Hk. rewrite elem_of_union, elem_of_app, elem_of_reverse in Hk.
      destruct Hk as [Hk|[Hk|Hk]]; [apply Hreach; set_solver | | apply Hreach; set_solver].
      eapply rtc_r; [apply (Hreach cur); set_solver|]. by eapply elem_of_walk_succs.
    + intros k k' Hk He. rewrite elem_of_union, elem_of_app, elem_of_reverse.
      apply elem_of_union in Hk as [Hk|Hk]; [apply elem_of_singleton in Hk as ->|].
      * right. left. by eapply elem_of_walk_succs.
      * destruct (Hclosed k k' Hk He) as [|Hin]; [set_solver|].
        apply elem_of_cons in Hin as [->|]; set_solver.
Qed.

Lemma walk_reachable budget v :
  walk budget insns ∅ [0] = Some v -> forall k, k ∈ v <-> cfg_reachable insns k.
Proof.
  intros Hw. apply walk_preserves in Hw as ([Hreach Hclosed] & _ & Hin).
  2: { split; [|set_solver]. intros k [|Hk]; [set_solver|]. apply list_elem_of_singleton in Hk as ->. apply rtc_refl. }
  intros k. split; [intros; apply Hreach; auto|].
  assert (forall a b, rtc (cfg_edge insns) a b -> a ∈ v -> b ∈ v) as Hrtc.
  { intros a b. induction 1 as [|a b c He _ IHr]; [done|]. intros Ha. apply IHr.
    destruct (Hclosed _ _ Ha He); set_solver. }
  intros Hk. apply (Hrtc 0); [exact Hk | set_solver].
Qed.
End walk.

(** ** The passes of [verify] *)

Lemma forallb_imap_pair {A} (f : nat -> A -> bool) (l : list A) :
  forallb (fun p => f p.1 p.2) (imap pair l) = true <->
  forall k x, l !! k = Some x -> f k x = true.
Proof.
  rewrite forallb_forall. setoid_rewrite <- list_elem_of_In. split.
  - intros H k x Hk. apply (H (k, x)), list_elem_of_lookup. exists k.
    by rewrite list_lookup_imap, Hk.
  - intros H [k x] Hin. apply list_elem_of_lookup in Hin as [j Hj].
    rewrite list_lookup_imap in Hj. destruct (l !! j) eqn:E; simplify_eq/=. by apply H.
Qed.

Lemma collect_targets_spec insns k l targets :
  match collect_targets insns k l targets with
  | None => exists j i, l !! j = Some i /\ insn_targets insns (k + j) i = None
  | Some ts =>
      (forall j i, l !! j = Some i -> exists us, insn_targets insns (k + j) i = Some us /\
         forall t, t ∈ us -> t ∈ ts) /\
      (forall t, t ∈ ts -> t ∈ targets \/
         exists j i us, l !! j = Some i /\ insn_targets insns (k + j) i = Some us /\ t ∈ us) /\
      targets ⊆ ts
  end.
Proof.
  revert k targets. induction l as [|i l IH]; intros k targets; simpl.
  { split_and!; [done | auto | done]. }
  destruct (insn_targets insns k i) as [us|] eqn:Hus.
  2: { exists O, i. by rewrite Nat.add_0_r. }
  specialize (IH (S k) (list_to_set us ∪ targets)).
  destruct (collect_targets insns (S k) l _) as [ts|].
  - destruct IH as (Hl & Hts & Hsub). split_and!.
    + intros [|j] i' Hj; simplify_eq/=.
      * exists us. rewrite Nat.add_0_r. split; [done|]. set_solver.
      * rewrite Nat.add_succ_r. by apply Hl.
    + intros t Ht. destruct (Hts t Ht) as [Hin|(j & i' & us' & Hj & Hu & Htu)].
      * apply elem_of_union in Hin as [Hin%elem_of_list_to_set|]; [|by left].
        right. exists O, i, us. by rewrite Nat.add_0_r.
      * right. exists (S j), i', us'. by rewrite Nat.add_succ_r.
    + set_solver.
  - destruct IH as (j & i' & Hj & Hu). exists (S j), i'. by rewrite Nat.add_succ_r.
Qed.

Lemma elements_forallb (f : Z -> bool) (s : gset Z) :
  forallb f (elements s) = true <-> forall t, t ∈ s -> f t = true.
Proof.
  rewrite forallb_forall. setoid_rewrite <- list_elem_of_In.
  by setoid_rewrite elem_of_elements.
Qed.

Lemma step_budget_enough insns :
  (0 < length insns <= 4096)%nat ->
  exists v, walk (step_budget insns) insns ∅ [0] = Some v.
Proof.
  intros Hlen. apply walk_total.
  - repeat constructor; lia.
  - unfold walk_measure, step_budget, MAX_TNUM_STEPS_PER_INSN. simpl length.
    rewrite difference_empty_L, all_pcs_size. lia.
Qed.

Lemma visited_forallb insns (v : gset Z) :
  (forall k, k ∈ v <-> cfg_reachable insns k) ->
  forallb (fun k => bool_decide (Z.of_nat k ∈ v) || follows_lddw insns (Z.of_nat k))
    (seq 0 (length insns)) = true <->
  forall k, in_prog insns k -> cfg_reachable insns k \/ follows_lddw insns k = true.
Proof.
  intros Hv. rewrite forallb_forall. setoid_rewrite <- list_elem_of_In. split.
  - intros H k Hk. specialize (H (Z.to_nat k)). unfold in_prog in Hk.
    rewrite Z2Nat.id in H by lia.
    assert (Z.to_nat k ∈ seq 0 (length insns)) as Hin%H by (apply elem_of_seq; lia).
    apply orb_true_iff in Hin as [Hin|]; [|auto]. apply bool_decide_eq_true in Hin.
    left. by apply Hv.
  - intros H k Hk%elem_of_seq. apply orb_true_iff.
    destruct (H (Z.of_nat k)) as [Hr|]; [unfold in_prog; lia | | auto].
    left. by apply bool_decide_eq_true, Hv.
Qed.

Lemma verify_iff insns : verify insns = true <-> well_formed insns.
Proof.
  unfold verify. set (len := Z.of_nat (length insns)).
  destruct ((len =? 0) || (4096 <? len)) eqn:Hlen.
  { split; [done|]. intros [? _]. apply orb_true_iff in Hlen as [E%Z.eqb_eq|E%Z.ltb_lt]; lia. }
  apply orb_false_iff in Hlen as [Hne%Z.eqb_neq Hle%Z.ltb_ge].
  destruct (forallb _ (imap pair insns)) eqn:Hchk; simpl negb; cbv iota.
  2: { split; [done|]. intros [_ Hw]. apply not_true_iff_false in Hchk. destruct Hchk.
       exact (proj2 (forallb_imap_pair (check_insn insns) insns) Hw). }
  pose proof (proj1 (forallb_imap_pair (check_insn insns) insns) Hchk) as Hins. clear Hchk.
  case_bool_decide as Hexit; simpl negb; cbv iota; [|split; [done | by intros []]].
  pose proof (collect_targets_spec insns 0 insns {[0; len - 1]}) as Hct. simpl Nat.add in Hct.
  destruct (collect_targets _ _ _ _) as [ts|].
  2: { split; [done|]. intros [_ _ _ Ht]. destruct Hct as (j & i & Hj & Hn).
       destruct (Ht _ _ Hj) as (us & Hus & _). congruence. }
  destruct Hct as (Hall & Hts & Hsub).
  destruct (step_budget_enough insns ltac:(lia)) as [v Hv]. rewrite Hv.
  pose proof (visited_forallb insns v (walk_reachable _ _ _ Hv)) as Hvis.
  destruct (forallb (target_ok insns) (elements ts)) eqn:Htok; simpl negb; cbv iota.
  - rewrite elements_forallb in Htok. rewrite Hvis. split; [|by intros []].
    intros Hr. split; try done; try lia; try (apply Htok; set_solver).
    intros k i Hk. destruct (Hall k i Hk) as (us & Hus & Hin). exists us. split; [done|].
    apply Forall_forall. auto.
  - split; [done|]. intros [_ _ _ Ht He Hl _]. apply not_true_iff_false in Htok. destruct Htok.
    apply elements_forallb. intros t Hin. destruct (Hts t Hin) as [H|(j & i & us & Hj & Hus & Htu)].
    + apply elem_of_union in H as [H|H]; apply elem_of_singleton in H as ->; done.
    + destruct (Ht _ _ Hj) as (us' & Hus' & Hf). simplify_eq. rewrite Forall_forall in Hf. auto.
Qed.

(** ** The predicate without the verifier's own functions *)

(** What each instruction class allows. *)
Inductive legal_insn (insns : list EbpfInsn) (k : nat) (i : EbpfInsn) : Prop :=
  | legal_wide n :
      cls i = BPF_LD -> Z.land (code i) 0xe0 = 0 -> size_bits i = BPF_DW ->
      insns !! S k = Some n -> code n = 0 -> legal_insn insns k i
  | legal_ld :
      cls i = BPF_LD -> Z.land (code i) 0xe0 = 0 -> size_bits i <> BPF_DW -> legal_insn insns k i
  | legal_ldx :
      cls i = BPF_LDX -> -512 <= off i <= 512 -> dst_reg i <> 10 -> legal_insn insns k i
  | legal_store :
      cls i = BPF_ST \/ cls i = BPF_STX -> -512 <= off i <= 512 -> legal_insn insns k i
  | legal_alu_jmp :
      cls i = BPF_ALU \/ cls i = BPF_ALU64 \/ cls i = BPF_JMP \/ cls i = BPF_JMP32 ->
      dst_reg i <> 10 -> (op i = BPF_CALL -> 1 <= imm i <= 4) -> legal_insn insns k i.

(** Control may arrive at [t]: it is in the program and not the second half of
    a wide load. *)
Definition valid_target (insns : list EbpfInsn) (t : Z) : Prop :=
  t < Z.of_nat (length insns) /\
  forall p, 0 < t -> insns !! Z.to_nat (t - 1) = Some p -> is_lddw p = false.

Record safe_program (insns : list EbpfInsn) : Prop := {
  sp_length : (0 < length insns <= 4096)%nat;
  sp_regs k i : insns !! k = Some i -> dst_reg i <= 10 /\ src_reg i <= 10;
  sp_insns k i : insns !! k = Some i -> legal_insn insns k i;
  sp_exit : exists i, last insns = Some i /\ op i = BPF_EXIT;
  sp_jump k i : insns !! k = Some i -> is_jmp i = true -> op i <> BPF_EXIT ->
    valid_target insns (jump_target (Z.of_nat k) i);
  sp_fall k i : insns !! k = Some i -> falls_through i ->
    is_jmp i = true \/ Z.of_nat k + 1 < Z.of_nat (length insns) ->
    valid_target insns (Z.of_nat k + insn_len i);
  sp_last : valid_target insns (Z.of_nat (length insns) - 1);
  sp_reach k : in_prog insns k ->
    cfg_reachable insns k \/
    exists p, 0 < k /\ insns !! Z.to_nat (k - 1) = Some p /\ is_lddw p = true;
}.

Lemma follows_lddw_spec insns t :
  follows_lddw insns t = true <->
  exists p, 0 < t /\ insns !! Z.to_nat (t - 1) = Some p /\ is_lddw p = true.
Proof.
  unfold follows_lddw. rewrite andb_true_iff, Z.ltb_lt.
  destruct (insns !! Z.to_nat (t - 1)); naive_solver.
Qed.

Lemma target_ok_spec insns t : target_ok insns t = true <-> valid_target insns t.
Proof.
  unfold target_ok, valid_target. rewrite andb_true_iff, !negb_true_iff, Z.leb_gt.
  rewrite <- (not_true_iff_false (follows_lddw _ _)), follows_lddw_spec.
  split; intros [H1 H2]; (split; [done|]).
  - intros p Ht Hp. destruct (is_lddw p) eqn:E; [|done]. destruct H2. eauto.
  - intros (p & Ht & Hp & E). by rewrite (H2 p) in E.
Qed.

Lemma off_range_spec (o : Z) : negb ((o <? -512) || (512 <? o)) = true <-> -512 <= o <= 512.
Proof. rewrite negb_true_iff, orb_false_iff, !Z.ltb_ge. lia. Qed.

Lemma check_insn_spec insns k i :
  check_insn insns k i = true <->
  (dst_reg i <= 10 /\ src_reg i <= 10) /\ legal_insn insns k i.
Proof.
  unfold check_insn. cbv zeta.
  destruct ((10 <? dst_reg i) || (10 <? src_reg i)) eqn:Hr.
  { rewrite orb_true_iff, !Z.ltb_lt in Hr. split; [done | lia]. }
  apply orb_false_iff in Hr as [?%Z.ltb_ge ?%Z.ltb_ge].
  split.
  - intros Hchk. split; [lia|]. revert Hchk.
    destruct (_ && _) eqn:H10; [done|].
    destruct (Z.eqb_spec (cls i) BPF_LD).
    { destruct (Z.eqb_spec (Z.land (code i) 0xe0) 0); [simpl|done].
      destruct (Z.eqb_spec (size_bits i) 0x18); [|by intros; apply legal_ld].
      destruct (insns !! S k) eqn:E; [|done]. intros ?%Z.eqb_eq. by eapply legal_wide. }
    destruct (Z.eqb_spec (cls i) BPF_LDX).
    { rewrite andb_true_iff, off_range_spec, negb_true_iff, Z.eqb_neq. intros []. by apply legal_ldx. }
    destruct ((cls i =? BPF_ST) || (cls i =? BPF_STX)) eqn:Hst.
    { rewrite off_range_spec. rewrite orb_true_iff, !Z.eqb_eq in Hst. by apply legal_store. }
    destruct ((cls i =? BPF_ALU) || _ || _ || _) eqn:Hal; [|done]. simpl in H10. apply Z.eqb_neq in H10.
    rewrite !orb_true_iff, !Z.eqb_eq in Hal. intros Hcall. apply legal_alu_jmp; [tauto | done|].
    intros E. rewrite E, negb_true_iff in Hcall. simpl in Hcall.
    apply orb_false_iff in Hcall as [?%Z.ltb_ge ?%Z.ltb_ge]. lia.
  - intros [_ Hl]. destruct Hl as [n Hcl Hm Hw Hn Hz|Hcl Hm Hw|Hcl Ho Hd|Hcl Ho|Hcl Hd Hcall].
    + rewrite Hcl, Hm, Hw, Hn, Hz. done.
    + rewrite Hcl, Hm. simpl. by rewrite (proj2 (Z.eqb_neq _ _)).
    + rewrite Hcl. simpl. by rewrite (proj2 (off_range_spec _)), (proj2 (Z.eqb_neq _ _)).
    + destruct Hcl as [Hcl|Hcl]; rewrite Hcl; by apply off_range_spec.
    + assert (Hd' : (dst_reg i =? 10) = false) by by apply Z.eqb_neq. rewrite Hd', andb_false_r.
      assert (Hcall' : negb ((op i =? BPF_CALL) && ((imm i <? 1) || (4 <? imm i))) = true).
      { destruct (Z.eqb_spec (op i) BPF_CALL) as [E|]; [|done]. specialize (Hcall E).
        by rewrite !(proj2 (Z.ltb_ge _ _)) by lia. }
      destruct Hcl as [Hcl|[Hcl|[Hcl|Hcl]]]; rewrite Hcl; done.
Qed.

Lemma jmp_len i : is_jmp i = true -> insn_len i = 1.
Proof.
  unfold is_jmp, insn_len, is_lddw, cls. rewrite orb_true_iff, !Z.eqb_eq. intros Hj.
  destruct (Z.eqb_spec (Z.land (code i) 0x1f) 0x18) as [E|]; [|done].
  assert (Z.land (Z.land (code i) 0x1f) 0x07 = Z.land (code i) 0x07) as Hl
    by by rewrite <- Z.land_assoc.
  rewrite E in Hl. change (Z.land 0x18 0x07) with 0 in Hl. rewrite <- Hl in Hj. destruct Hj; done.
Qed.

(** The targets one instruction contributes, said with [valid_target]. *)
Lemma insn_targets_spec insns k i :
  (exists ts, insn_targets insns k i = Some ts /\
     Forall (fun t => target_ok insns t = true) ts) <->
  (is_jmp i = true -> op i <> BPF_EXIT -> valid_target insns (jump_target (Z.of_nat k) i)) /\
  (falls_through i -> is_jmp i = true \/ Z.of_nat k + 1 < Z.of_nat (length insns) ->
   valid_target insns (Z.of_nat k + insn_len i)).
Proof.
  unfold insn_targets. cbv zeta. rewrite <- falls_through_spec.
  pose proof (jmp_len i) as Hlen. destruct (is_jmp i) eqn:Hj.
  - rewrite Hlen by done. simpl andb.
    assert (Hsp : forall t ts,
      (exists us, (if Z.of_nat (length insns) <=? t then None else Some (t :: ts)) = Some us /\
         Forall (fun t => target_ok insns t = true) us) <->
      valid_target insns t /\ Forall (valid_target insns) ts).
    { intros t ts. destruct (Z.leb_spec (Z.of_nat (length insns)) t).
      - split; [by intros (? & ? & _) | intros [[? _] _]; lia].
      - assert (Hf : forall us, Forall (fun t => target_ok insns t = true) us <->
          Forall (valid_target insns) us)
          by (intros; apply Forall_iff; intros; apply target_ok_spec).
        setoid_rewrite Hf. rewrite <- Forall_cons. naive_solver. }
    destruct (Z.eqb_spec (op i) BPF_JA) as [E|E]; simpl.
    + rewrite Hsp, Forall_nil. rewrite E. unfold BPF_JA, BPF_EXIT. naive_solver.
    + destruct (Z.eqb_spec (op i) BPF_EXIT) as [E2|E2].
      * rewrite E2. simpl. split; [done|]. intros _. exists []. by split.
      * destruct (op i =? BPF_CALL); simpl; rewrite Hsp, Forall_cons, Forall_nil; naive_solver.
  - simpl. fold (insn_len i).
    destruct (Z.ltb_spec (Z.of_nat k + 1) (Z.of_nat (length insns))).
    + split.
      * intros (ts & [= <-] & [Ht _]%Forall_cons). apply target_ok_spec in Ht. by split.
      * intros [_ Hf]. eexists. split; [done|]. constructor; [|done]. apply target_ok_spec.
        apply Hf; [done | by right].
    + split; [intros _; split; [done|]; intros _ [|]; [done | lia]|].
      intros _. exists []. by split.
Qed.

Lemma well_formed_safe insns : well_formed insns <-> safe_program insns.
Proof.
  split.
  - intros [Hlen Hins Hexit Htgt He Hl Hr]. split; try done.
    + intros k i Hi. by apply (check_insn_spec insns k i), Hins.
    + intros k i Hi. by apply (check_insn_spec insns k i), Hins.
    + apply fmap_Some in Hexit as (i & ? & ?). eauto.
    + intros k i Hi. by apply insn_targets_spec, Htgt.
    + intros k i Hi. by apply insn_targets_spec, Htgt.
    + by apply target_ok_spec.
    + intros k Hk. rewrite <- follows_lddw_spec. auto.
  - intros [Hlen Hregs Hins (i0 & Hi0 & Hop) Hj Hf Hl Hr]. split; try done.
    + intros k i Hi. apply check_insn_spec. eauto.
    + by rewrite Hi0; simpl; rewrite Hop.
    + intros k i Hi. apply insn_targets_spec. eauto.
    + apply target_ok_spec. split; [lia|]. intros p Hp. lia.
    + by apply target_ok_spec.
    + intros k Hk. rewrite follows_lddw_spec. auto.
Qed.

(** ** Results *)

(** C3. [verify] decides exactly the declarative predicate [safe_program]:
    between 1 and 4096 instructions, each with legal registers, offsets and
    helper numbers, [EXIT] last, every jump target inside the program and
    never the second half of a wide load, and every instruction reachable
    from the entry.  In particular its pop budget never runs out. *)
Theorem verify_decides insns : verify insns = true <-> safe_program insns.
Proof. rewrite verify_iff. apply well_formed_safe. Qed.
