(* ===== verification/EbpfSound.v ===== *)
(** * Soundness of the abstract interpretation

    [tnum_verify] computes a post-fixpoint of the transfer functions, and on
    the instructions whose abstract operation is sound the computed states
    cover every state the interpreter reaches. *)

From S2P Require Import Prelude Tnum EbpfMaps EbpfVm EbpfVerifier EbpfCfg.

(** ** Word arithmetic of the interpreter *)

Lemma i64_bits x i : 0 <= i < 64 -> Z.testbit (i64 x) i = Z.testbit x i.
Proof.
  intros Hi. pose proof (f_equal (fun z => Z.testbit z i) (u64_i64 x)) as H.
  simpl in H. bits_simp. done.
Qed.

Lemma i32_bits x i : 0 <= i < 32 -> Z.testbit (i32 x) i = Z.testbit x i.
Proof.
  intros Hi. rewrite <- (Z.mod_pow2_bits_low (i32 x) 32), <- (Z.mod_pow2_bits_low x 32) by lia.
  f_equal. change (2 ^ 32) with M32. unfold i32. case_match; [by rewrite Z.mod_mod by lia|].
  replace (x mod M32 - M32) with (x mod M32 + (-1) * M32) by lia.
  rewrite Z.mod_add by lia. by rewrite Z.mod_mod by lia.
Qed.

Lemma u32_i64 x : u32 (i64 x) = u32 x.
Proof.
  unfold u32. change M32 with (2 ^ 32).
  by rewrite <- (u64_mod_pow2 (i64 x)), u64_i64, u64_mod_pow2.
Qed.

Lemma u64_add x y : u64 (u64 x + u64 y) = u64 (x + y).
Proof. unfold u64. by rewrite <- Zplus_mod. Qed.

Lemma u64_mul x y : u64 (u64 x * u64 y) = u64 (x * y).
Proof. unfold u64. by rewrite <- Zmult_mod. Qed.

Lemma u64_lor_dist x y : u64 (Z.lor x y) = Z.lor (u64 x) (u64 y).
Proof.
  apply Z.bits_inj'. intros i Hi. rewrite Z.lor_spec, !u64_spec, Z.lor_spec by done.
  by destruct (i <? 64).
Qed.

Lemma u64_lxor_dist x y : u64 (Z.lxor x y) = Z.lxor (u64 x) (u64 y).
Proof.
  apply Z.bits_inj'. intros i Hi. rewrite Z.lxor_spec, !u64_spec, Z.lxor_spec by done.
  by destruct (i <? 64).
Qed.

Lemma shift_amount s : u32 s mod 64 = u64 s mod 64.
Proof.
  change 64 with (2 ^ 6). rewrite u64_mod_pow2 by lia. unfold u32.
  change M32 with (2 ^ 6 * 2 ^ 26). rewrite Z.rem_mul_r by lia.
  rewrite Z.mul_comm, Z.mod_add by lia. by apply Z.mod_mod.
Qed.

Lemma u64_shl x n : 0 <= n -> u64 (Z.shiftl (i64 x) n) = shl64 (u64 x) n.
Proof.
  intros Hn. apply u64_ext; [auto with word..|]. intros i Hi.
  rewrite u64_spec, Z.shiftl_spec, shl64_spec by lia.
  destruct (Z.lt_ge_cases (i - n) 0); [by rewrite !Z.testbit_neg_r|].
  by rewrite i64_bits, u64_spec, (proj2 (Z.ltb_lt (i - n) 64)) by lia.
Qed.

(** ** ALU instructions *)

(** The operations whose abstract counterpart is sound and keeps tristate
    numbers well formed.  [sub], [and] and [neg] of the source are not sound
    on operands with unknown bits, [ashr] breaks well-formedness. *)
Definition sound_alu_op (o : Z) : bool :=
  negb ((o =? BPF_SUB) || (o =? BPF_AND) || (o =? BPF_NEG) || (o =? BPF_ARSH)).

(** The 64-bit result is one of the values of the abstract result. *)
Lemma alu_sound64 o a b x y s r :
  sound_alu_op o = true -> tnum_wf a -> tnum_wf b -> tnum_in x a -> tnum_in y b ->
  u64 s = y -> alu_result o (i64 x) s = Some r ->
  tnum_in (u64 r) (alu_op_tnum o a b false).
Proof.
  intros Hop Ha Hb Hx Hy Hs. pose proof (tnum_in_u64 _ _ Hx) as Hxr.
  pose proof (u64_small x Hxr) as Hx64. unfold sound_alu_op, alu_result, alu_op_tnum in *.
  cbv zeta iota.
  destruct (o =? BPF_SUB); [done|]. destruct (o =? BPF_AND); [done|].
  destruct (o =? BPF_NEG); [done|]. destruct (o =? BPF_ARSH); [done|].
  destruct (o =? BPF_ADD).
  { intros [= <-]. rewrite u64_i64, <- u64_add, u64_i64, Hs, Hx64. by apply tnum_add_in. }
  destruct (o =? BPF_MUL).
  { intros [= <-]. rewrite u64_i64, <- u64_mul, u64_i64, Hs, Hx64. by apply tnum_mul_in. }
  destruct (o =? BPF_DIV); [intros _; auto with word|].
  destruct (o =? BPF_OR).
  { intros [= <-]. rewrite u64_lor_dist, u64_i64, Hs, Hx64. by apply tnum_or_in. }
  destruct (o =? BPF_LSH).
  { intros [= <-]. rewrite u64_i64, u64_shl, Hx64, shift_amount, Hs
      by (apply Z.mod_pos_bound; lia). by apply tnum_shl_in. }
  destruct (o =? BPF_RSH).
  { intros [= <-]. rewrite u64_i64, u64_i64, Hx64, shift_amount, Hs, u64_small.
    - by apply tnum_lshr_in.
    - apply u64_shr64; [done|]. apply Z.mod_pos_bound. lia. }
  destruct (o =? BPF_MOD); [intros _; auto with word|].
  destruct (o =? BPF_XOR).
  { intros [= <-]. rewrite u64_lxor_dist, u64_i64, Hs, Hx64. by apply tnum_xor_in. }
  destruct (o =? BPF_MOV); [|intros _; auto with word].
  intros [= <-]. by rewrite Hs.
Qed.

Lemma alu_op_tnum_wf o a b :
  sound_alu_op o = true -> tnum_wf a -> tnum_wf b -> tnum_wf (alu_op_tnum o a b false).
Proof.
  intros Hop Ha Hb. unfold sound_alu_op, alu_op_tnum in *. cbv zeta iota.
  destruct (o =? BPF_SUB); [done|]. destruct (o =? BPF_AND); [done|].
  destruct (o =? BPF_NEG); [done|]. destruct (o =? BPF_ARSH); [done|].
  repeat case_match; auto with word.
Qed.

(** ** 32-bit results *)

Lemma lo32_spec i : 0 <= i -> Z.testbit lo32 i = (i <? 32).
Proof.
  intros Hi. change lo32 with (Z.ones 32). destruct (Z.ltb_spec i 32).
  - apply Z.ones_spec_low. lia.
  - apply Z.ones_spec_high. lia.
Qed.

Lemma lo32_u64 : is_u64 lo32.
Proof. unfold lo32, is_u64. lia. Qed.
#[local] Hint Resolve lo32_u64 : word.

Lemma mask32_mask_bit t i :
  0 <= i < 64 -> Z.testbit (mask (mask32 t)) i = if i <? 32 then Z.testbit (mask t) i else true.
Proof.
  intros Hi. unfold mask32; simpl. bits_simp. rewrite lo32_spec by lia.
  destruct (i <? 32); simpl; rewrite ?andb_true_r, ?orb_false_r, ?orb_true_r; done.
Qed.

Lemma mask32_in x t : tnum_in x t -> tnum_in x (mask32 t).
Proof.
  intros [Hx Hb]. split; [done|]. intros i Hi. rewrite mask32_mask_bit by done.
  destruct (i <? 32) eqn:E; [|done]. intros Hm. rewrite Hb by done.
  unfold mask32; simpl. bits_simp. rewrite lo32_spec by lia. by rewrite E, andb_true_r.
Qed.

Lemma mask32_wf t : tnum_wf t -> tnum_wf (mask32 t).
Proof.
  intros [[Hv Hm] Ht]. split; [unfold mask32; split; simpl; auto with word|].
  intros i Hi. rewrite mask32_mask_bit by done. unfold mask32; simpl.
  bits_simp. rewrite lo32_spec by lia. specialize (Ht i Hi).
  destruct (i <? 32); [rewrite andb_true_r; auto | by rewrite andb_false_r].
Qed.

Definition narrow32 (r : Tnum) : Tnum :=
  mkTnum (Z.land (Z.land (value r) lo32) (not64 (mask r)))
         (Z.lor (Z.land (mask r) lo32) (not64 lo32)).

Lemma alu_op_tnum_32 o a b : alu_op_tnum o a b true = narrow32 (alu_op_tnum o a b false).
Proof. done. Qed.

Lemma narrow32_wf r : tnum_u64 r -> tnum_wf (narrow32 r).
Proof.
  intros [Hv Hm]. split; [split; simpl; auto 8 with word|]. simpl. intros i Hi.
  bits_simp. rewrite lo32_spec by lia.
  destruct (i <? 32), (Z.testbit (mask r) i), (Z.testbit (value r) i); done.
Qed.

(** A sign-extended 32-bit result only needs its low half covered. *)
Lemma narrow32_in r z :
  (forall i, 0 <= i < 32 -> Z.testbit (mask r) i = false -> Z.testbit z i = Z.testbit (value r) i) ->
  tnum_in (u64 (i32 z)) (narrow32 r).
Proof.
  intros Hz. split; [auto with word|]. simpl. intros i Hi. bits_simp.
  rewrite lo32_spec by lia. destruct (Z.ltb_spec i 32); simpl; rewrite ?orb_true_r, ?andb_true_r, ?orb_false_r; [|done].
  intros Hm. rewrite Hm, i32_bits, Hz by (done || lia). simpl. by rewrite andb_true_r.
Qed.

(** The low half of a result only depends on the low half of the operand. *)
Lemma add_low32 d s s' i :
  u32 s = u32 s' -> 0 <= i < 32 -> Z.testbit (d + s) i = Z.testbit (d + s') i.
Proof.
  intros Hs Hi. rewrite <- (Z.mod_pow2_bits_low _ 32), <- (Z.mod_pow2_bits_low (d + s') 32) by lia.
  change (2 ^ 32) with M32. unfold u32 in Hs.
  by rewrite <- Zplus_mod_idemp_r, Hs, Zplus_mod_idemp_r.
Qed.

Lemma mul_low32 d s s' i :
  u32 s = u32 s' -> 0 <= i < 32 -> Z.testbit (d * s) i = Z.testbit (d * s') i.
Proof.
  intros Hs Hi. rewrite <- (Z.mod_pow2_bits_low _ 32), <- (Z.mod_pow2_bits_low (d * s') 32) by lia.
  change (2 ^ 32) with M32. unfold u32 in Hs.
  by rewrite <- Zmult_mod_idemp_r, Hs, Zmult_mod_idemp_r.
Qed.

Lemma low32_bit s s' i : u32 s = u32 s' -> 0 <= i < 32 -> Z.testbit s i = Z.testbit s' i.
Proof. intros Hs Hi. apply (add_low32 0 s s' i Hs Hi). Qed.

(** Operations that are computed, rather than given up on, by the verifier. *)
Definition tracked_op (o : Z) : bool :=
  (o =? BPF_ADD) || (o =? BPF_MUL) || (o =? BPF_OR) || (o =? BPF_LSH) ||
  (o =? BPF_RSH) || (o =? BPF_XOR) || (o =? BPF_MOV).

Lemma alu_low32 o d s s' :
  tracked_op o = true -> u32 s = u32 s' ->
  exists r r', alu_result o d s = Some r /\ alu_result o d s' = Some r' /\
    forall i, 0 <= i < 32 -> Z.testbit r i = Z.testbit r' i.
Proof.
  intros Ht Hs. unfold tracked_op in Ht. rewrite !orb_true_iff, !Z.eqb_eq in Ht.
  destruct Ht as [[[[[[->| ->]| ->]| ->]| ->]| ->]| ->]; unfold alu_result; simpl;
    do 2 eexists; (split; [reflexivity|]); (split; [reflexivity|]); intros i Hi;
    rewrite ?i64_bits, ?Z.lor_spec, ?Z.lxor_spec by lia;
    rewrite ?(low32_bit s s' i Hs Hi), ?Hs; auto using add_low32, mul_low32.
Qed.

Lemma untracked_any o a b :
  sound_alu_op o = true -> tracked_op o = false -> alu_op_tnum o a b false = Tnum.any.
Proof.
  intros Hs Ht. unfold sound_alu_op, tracked_op, alu_op_tnum in *. cbv zeta iota.
  repeat case_match; simpl in *; done.
Qed.

Lemma alu_sound32 o a b x y s r :
  sound_alu_op o = true -> tnum_wf a -> tnum_wf b -> tnum_in x a -> tnum_in y b ->
  u32 s = u32 y -> alu_result o (i64 x) s = Some r ->
  tnum_in (u64 (i32 r)) (alu_op_tnum o a b true).
Proof.
  intros Hop Ha Hb Hx Hy Hs Hr. rewrite alu_op_tnum_32. apply narrow32_in.
  destruct (tracked_op o) eqn:Ht.
  - destruct (alu_low32 o (i64 x) s (i64 y) Ht) as (r1 & r2 & Hr1 & Hr2 & Hlow).
    { by rewrite u32_i64. }
    simplify_eq. intros i Hi Hm. rewrite Hlow by done.
    pose proof (alu_sound64 o a b x y (i64 y) r2 Hop Ha Hb Hx Hy) as [_ H64]; [|done|].
    { rewrite u64_i64. apply u64_small. by apply Hy. }
    rewrite <- H64 by (done || lia). by rewrite u64_spec, (proj2 (Z.ltb_lt i 64)) by lia.
  - rewrite untracked_any by done. simpl. intros i Hi. rewrite u64_max_spec by lia.
    intros Hlt%Z.ltb_ge. lia.
Qed.

(** ** Abstract states *)

(** The two arrays have their fixed lengths. *)
Definition vs_shape (s : VState) : Prop :=
  length (v_regs s) = 11%nat /\ length (v_stack s) = 64%nat.

Definition vs_le (a b : VState) : Prop :=
  Forall2 tnum_le (v_regs a) (v_regs b) /\ Forall2 tnum_le (v_stack a) (v_stack b).

(** The register file is one the abstract state stands for. *)
Definition vs_in (rs : list Z) (s : VState) : Prop :=
  forall i, 0 <= i < 11 -> tnum_in (EbpfRegs.r rs i) (VState.reg s i).

Definition vs_wf (s : VState) : Prop := Forall tnum_wf (v_regs s).

#[export] Instance vs_le_preorder : PreOrder vs_le.
Proof.
  split.
  - intros a. split; apply reflexivity.
  - intros a b c [] []. split; etransitivity; eauto.
Qed.

Lemma zip_merge_l l1 l2 : length l1 = length l2 -> Forall2 tnum_le l1 (zip_with Tnum.merge l1 l2).
Proof.
  revert l2. induction l1 as [|a l1 IH]; intros [|b l2] Hl; simpl in *; try done; constructor; auto.
  apply tnum_merge_l.
Qed.

Lemma zip_merge_r l1 l2 : length l1 = length l2 -> Forall2 tnum_le l2 (zip_with Tnum.merge l1 l2).
Proof.
  revert l2. induction l1 as [|a l1 IH]; intros [|b l2] Hl; simpl in *; try done; constructor; auto.
  apply tnum_merge_r.
Qed.

Lemma vs_merge_l a b : vs_shape a -> vs_shape b -> vs_le a (VState.merge a b).
Proof. intros [??] [??]. split; apply zip_merge_l; congruence. Qed.

Lemma vs_merge_r a b : vs_shape a -> vs_shape b -> vs_le b (VState.merge a b).
Proof. intros [??] [??]. split; apply zip_merge_r; congruence. Qed.

Lemma vs_merge_shape a b : vs_shape a -> vs_shape b -> vs_shape (VState.merge a b).
Proof. intros [??] [??]. split; simpl; rewrite length_zip_with; lia. Qed.

Lemma vs_merge_wf a b : vs_wf a -> vs_wf b -> vs_wf (VState.merge a b).
Proof.
  unfold vs_wf; simpl. intros Ha Hb. revert Hb. generalize (v_regs b).
  induction Ha as [|x l Hx Hl IH]; intros [|y l2] Hb; simpl; constructor;
    apply Forall_cons in Hb as [??]; auto with word.
Qed.

Lemma vs_eq_spec a b : VState.eq a b = true <-> a = b.
Proof.
  unfold VState.eq. rewrite andb_true_iff, !bool_decide_eq_true.
  destruct a, b; simpl. naive_solver.
Qed.

Lemma vs_in_mono rs a b : vs_shape a -> vs_le a b -> vs_in rs a -> vs_in rs b.
Proof.
  intros [Hs _] [Hle _] Hin i Hi. specialize (Hin i Hi). unfold VState.reg in *.
  destruct (lookup_lt_is_Some_2 (v_regs a) (Z.to_nat i)) as [x Hx]; [lia|].
  destruct (Forall2_lookup_l _ _ _ _ _ Hle Hx) as (y & Hy & Hxy).
  rewrite Hx in Hin. rewrite Hy. by apply Hxy.
Qed.

Lemma vs_set_reg_shape s i t : vs_shape s -> vs_shape (VState.set_reg s i t).
Proof. intros []. split; simpl; by rewrite ?length_insert. Qed.

Lemma vs_set_reg_wf s i t : vs_wf s -> tnum_wf t -> vs_wf (VState.set_reg s i t).
Proof. intros ??. by apply Forall_insert. Qed.

Lemma vs_reg_wf s i : vs_wf s -> tnum_wf (VState.reg s i).
Proof.
  intros Hs. unfold VState.reg. destruct (v_regs s !! Z.to_nat i) eqn:E; simpl; [|auto with word].
  by eapply Forall_lookup_1.
Qed.

Lemma vs_reg_set_reg s i j t :
  vs_shape s -> 0 <= i < 11 -> 0 <= j < 11 ->
  VState.reg (VState.set_reg s i t) j = if decide (i = j) then t else VState.reg s j.
Proof.
  intros [Hs _] Hi Hj. unfold VState.reg; simpl. case_decide as E.
  - subst. by rewrite list_lookup_insert_eq by lia.
  - by rewrite list_lookup_insert_ne by lia.
Qed.

(** Updating a register concretely and abstractly. *)
Lemma vs_in_set rs s i v t :
  regs_ok rs -> vs_shape s -> 0 <= i < 11 -> vs_in rs s -> tnum_in v t ->
  vs_in (EbpfRegs.set_r rs i v) (VState.set_reg s i t).
Proof.
  intros Hrs Hs Hi Hin Hv j Hj. rewrite regs_r_set_r, vs_reg_set_reg by done.
  case_decide; auto.
Qed.

(** Forgetting a register abstractly. *)
Lemma vs_in_forget rs s i :
  regs_ok rs -> vs_shape s -> 0 <= i < 11 -> vs_in rs s ->
  vs_in rs (VState.set_reg s i Tnum.any).
Proof.
  intros Hrs Hs Hi Hin j Hj. rewrite vs_reg_set_reg by done.
  case_decide; auto. apply tnum_in_any. by apply regs_r_u64.
Qed.

Lemma write_slots_length slot count t st : length (VState.write_slots slot count t st) = length st.
Proof.
  revert slot st. induction count as [|c IH]; intros; simpl; [done|]. by rewrite IH, length_insert.
Qed.

Lemma vs_write_stack_shape s o n t : vs_shape s -> vs_shape (VState.write_stack s o n t).
Proof.
  intros []. unfold VState.write_stack. repeat case_match; split; simpl; auto.
  by rewrite write_slots_length.
Qed.

Lemma vs_write_stack_regs s o n t : v_regs (VState.write_stack s o n t) = v_regs s.
Proof. unfold VState.write_stack. by repeat case_match. Qed.

#[export] Hint Resolve vs_set_reg_shape vs_write_stack_shape vs_merge_shape : vm.

(** ** Transfer functions keep the shape *)

Lemma refine_cond_shape pre i t b : vs_shape pre -> vs_shape (refine_cond pre i t b).
Proof. intros. unfold refine_cond. repeat case_match; auto with vm. Qed.

Lemma clobber_shape s : vs_shape s -> vs_shape (clobber s).
Proof. intros. unfold clobber; simpl. auto 10 with vm. Qed.

#[export] Hint Resolve refine_cond_shape clobber_shape : vm.

Definition succs_shape (t : Transfer) : Prop :=
  match t with TPush l => Forall (fun p => vs_shape p.2) l | _ => True end.

Lemma fall_shape insns n s : vs_shape s -> succs_shape (fall insns n s).
Proof. intros. unfold fall. simpl. case_match; rewrite ?Forall_cons, Forall_nil; auto. Qed.

Lemma idx_shape r t : succs_shape t -> succs_shape (idx r t).
Proof. intros. unfold idx. by case_match. Qed.

#[export] Hint Resolve fall_shape idx_shape : vm.

Lemma transfer_shape insns cur i pre : vs_shape pre -> succs_shape (transfer insns cur i pre).
Proof.
  intros Hp. unfold transfer. cbv zeta.
  case_match. { unfold transfer_alu; simpl. do 2 apply idx_shape. case_match; [done|]. auto with vm. }
  case_match. { unfold transfer_ldx. apply idx_shape. case_match; [done|]. auto with vm. }
  case_match. { unfold transfer_st. apply idx_shape. case_match; [done|]. auto with vm. }
  case_match. { unfold transfer_stx. apply idx_shape. case_match; [done|]. auto with vm. }
  case_match.
  { unfold transfer_jmp, idx_cond. cbv zeta.
    repeat case_match; auto 8 with vm; try done;
      repeat apply idx_shape; simpl; rewrite ?Forall_cons, Forall_nil; simpl; auto with vm. }
  case_match; [|done]. unfold transfer_ld. repeat case_match; auto with vm; done.
Qed.

(** ** The loop computes a post-fixpoint *)

(** The abstract state at [t] covers [v]. *)
Definition covers (sm : gmap Z VState) (p : Z * VState) : Prop :=
  exists s, sm !! p.1 = Some s /\ vs_le p.2 s.

(** Processing [k] again would add nothing. *)
Definition stable (insns : list EbpfInsn) (sm : gmap Z VState) (k : Z) (pre : VState) : Prop :=
  exists i succs, insns !! Z.to_nat k = Some i /\
    transfer insns k i pre = TPush succs /\ Forall (covers sm) succs.

(** A map is a post-fixpoint: it covers the entry and every node is stable. *)
Definition post_fixpoint (insns : list EbpfInsn) (sm : gmap Z VState) : Prop :=
  covers sm (0, VState.init) /\
  map_Forall (fun _ s => vs_shape s) sm /\
  map_Forall (stable insns sm) sm.

(** [sm'] is reached from [sm] by merging, and every change is queued. *)
Record grows (sm : gmap Z VState) (wl : list Z) (sm' : gmap Z VState) (wl' : list Z) : Prop := {
  grows_wl k : k ∈ wl -> k ∈ wl';
  grows_le k s : sm !! k = Some s -> covers sm' (k, s);
  grows_new k s : sm' !! k = Some s -> k ∈ wl' \/ sm !! k = Some s;
  grows_shape : map_Forall (fun _ s => vs_shape s) sm';
}.

Lemma covers_grows sm wl sm' wl' p : grows sm wl sm' wl' -> covers sm p -> covers sm' p.
Proof.
  intros Hg (s & Hs & Hle). destruct (grows_le _ _ _ _ Hg _ _ Hs) as (s' & Hs' & Hle').
  exists s'. split; [done | by etransitivity].
Qed.

Lemma grows_refl sm wl : map_Forall (fun _ s => vs_shape s) sm -> grows sm wl sm wl.
Proof. intros. split; auto. intros k s Hs. by exists s. Qed.

Lemma grows_trans sm1 wl1 sm2 wl2 sm3 wl3 :
  grows sm1 wl1 sm2 wl2 -> grows sm2 wl2 sm3 wl3 -> grows sm1 wl1 sm3 wl3.
Proof.
  intros H12 H23. split.
  - eauto using grows_wl.
  - intros k s Hs. eapply covers_grows; [exact H23|]. by eapply grows_le.
  - intros k s Hs. destruct (grows_new _ _ _ _ H23 _ _ Hs) as [|H2]; [auto|].
    destruct (grows_new _ _ _ _ H12 _ _ H2) as [|]; eauto using grows_wl.
  - apply H23.
Qed.

Lemma push_merged_grows sm wl t v sm' wl' :
  map_Forall (fun _ s => vs_shape s) sm -> vs_shape v ->
  push_merged (sm, wl) (t, v) = (sm', wl') ->
  grows sm wl sm' wl' /\ covers sm' (t, v).
Proof.
  intros Hsm Hv. unfold push_merged.
  assert (Hins : forall s', vs_shape s' -> vs_le v s' ->
    (forall s, sm !! t = Some s -> vs_le s s') ->
    grows sm wl (<[t := s']> sm) (t :: wl) /\ covers (<[t := s']> sm) (t, v)).
  { intros s' Hs' Hvs' Hold. split.
    - split.
      + intros k Hk. by apply elem_of_cons; right.
      + intros k s Hs. unfold covers; simpl. rewrite lookup_insert. case_decide; subst; eauto.
        by exists s.
      + intros k s. rewrite lookup_insert. case_decide; subst; [|auto].
        intros _. left. by apply elem_of_cons; left.
      + by apply map_Forall_insert_2.
    - exists s'. by rewrite lookup_insert_eq. }
  destruct (sm !! t) as [ex|] eqn:Hex.
  - pose proof (Hsm _ _ Hex) as Hexs. simpl in Hexs.
    destruct (VState.eq ex (VState.merge ex v)) eqn:Heq; simpl; intros [= <- <-].
    + apply vs_eq_spec in Heq. split; [by apply grows_refl|].
      exists ex. split; [done|]. rewrite Heq. by apply vs_merge_r.
    + apply Hins; auto with vm; [by apply vs_merge_r|].
      intros s [= <-]. by apply vs_merge_l.
  - intros [= <- <-]. apply Hins; done.
Qed.

Lemma fold_push_grows succs sm wl sm' wl' :
  map_Forall (fun _ s => vs_shape s) sm -> Forall (fun p => vs_shape p.2) succs ->
  foldl push_merged (sm, wl) succs = (sm', wl') ->
  grows sm wl sm' wl' /\ Forall (covers sm') succs.
Proof.
  revert sm wl. induction succs as [|[t v] succs IH]; intros sm wl Hsm Hs; simpl.
  { intros [= <- <-]. split; [by apply grows_refl | constructor]. }
  apply Forall_cons in Hs as [Hv Hs].
  destruct (match sm !! t with Some _ => _ | None => _ end) as [sm1 wl1] eqn:E.
  intros Hf. apply push_merged_grows in E as [Hg1 Hc1]; [|done..].
  apply IH in Hf as [Hg2 Hc2]; [|apply Hg1 | done].
  split; [by eapply grows_trans|]. constructor; [by eapply covers_grows | done].
Qed.

(** Nodes outside the worklist are stable. *)
Definition loop_inv (insns : list EbpfInsn) (sm : gmap Z VState) (wl : list Z) : Prop :=
  covers sm (0, VState.init) /\
  map_Forall (fun _ s => vs_shape s) sm /\
  forall k pre, sm !! k = Some pre -> k ∈ wl \/ stable insns sm k pre.

Lemma stable_grows insns sm wl sm' wl' k pre :
  grows sm wl sm' wl' -> stable insns sm k pre -> stable insns sm' k pre.
Proof.
  intros Hg (i & succs & Hi & Ht & Hc). exists i, succs. split_and!; try done.
  eapply Forall_impl; [exact Hc|]. intros p Hp. by eapply covers_grows.
Qed.

Lemma tnum_loop_post_fixpoint budget insns sm wl sm' :
  loop_inv insns sm wl -> tnum_loop budget insns sm wl = (Accept, sm') ->
  post_fixpoint insns sm'.
Proof.
  revert sm wl. induction budget as [|b IH]; intros sm wl (H0 & Hsh & Hst).
  { destruct wl; simpl; [|done]. intros [= <-]. split_and!; try done.
    intros k pre Hk. destruct (Hst _ _ Hk); [set_solver | done]. }
  destruct wl as [|cur wl]; simpl.
  { intros [= <-]. split_and!; try done.
    intros k pre Hk. destruct (Hst _ _ Hk); [set_solver | done]. }
  destruct (sm !! cur) as [pre|] eqn:Hcur.
  2: { apply IH. split_and!; try done. intros k s Hk.
       destruct (Hst _ _ Hk) as [Hin|]; [|auto]. apply elem_of_cons in Hin as [->|]; [congruence|auto]. }
  destruct (insns !! Z.to_nat cur) as [i|] eqn:Hi; [|done].
  pose proof (transfer_shape insns cur i pre (Hsh _ _ Hcur)) as Htr.
  destruct (transfer insns cur i pre) as [| |succs] eqn:Et; [done|done|].
  destruct (foldl push_merged (sm, wl) succs) as [sm1 wl1] eqn:Ef.
  apply fold_push_grows in Ef as [Hg Hc]; [|done..]. apply IH. split_and!.
  - by eapply covers_grows.
  - apply Hg.
  - intros k s Hk. destruct (grows_new _ _ _ _ Hg _ _ Hk) as [|Hk0]; [auto|].
    destruct (decide (k = cur)) as [->|Hne].
    + right. simplify_eq. by exists i, succs.
    + destruct (Hst _ _ Hk0) as [Hin|Hs]; [|right; by eapply stable_grows].
      left. apply elem_of_cons in Hin as [|Hin]; [done|]. by eapply grows_wl.
Qed.

Lemma vs_init_shape : vs_shape VState.init.
Proof. done. Qed.

Lemma loop_inv_init insns : loop_inv insns {[0 := VState.init]} [0].
Proof.
  split_and!.
  - exists VState.init. split; [by rewrite lookup_singleton_eq | apply reflexivity].
  - apply map_Forall_singleton. apply vs_init_shape.
  - intros k pre Hk. apply lookup_singleton_Some in Hk as [<- <-]. left. set_solver.
Qed.

Lemma tnum_verify_Accept insns :
  tnum_verify insns = Accept ->
  (0 < length insns <= 4096)%nat /\ exists sm, post_fixpoint insns sm.
Proof.
  unfold tnum_verify. destruct (_ || _) eqn:Hlen; [done|].
  apply orb_false_iff in Hlen as [?%Z.eqb_neq ?%Z.ltb_ge].
  destruct (tnum_loop _ _ _ _) as [v sm] eqn:Hl. intros Hv. split; [lia|].
  exists sm. eapply tnum_loop_post_fixpoint; [apply loop_inv_init|].
  destruct v; [exact Hl | done | done].
Qed.

(** ** Invariants of every computed state *)

Lemma push_merged_forall (P : VState -> Prop) sm wl t v :
  (forall a b, P a -> P b -> P (VState.merge a b)) ->
  map_Forall (fun _ => P) sm -> P v ->
  map_Forall (fun _ => P) (push_merged (sm, wl) (t, v)).1.
Proof.
  intros Hm Hsm Hv. unfold push_merged. destruct (sm !! t) as [ex|] eqn:E.
  - case_match; simpl; [|done]. apply map_Forall_insert_2; [|done]. apply Hm; [|done].
    by apply (Hsm t).
  - simpl. by apply map_Forall_insert_2.
Qed.

Lemma fold_push_forall (P : VState -> Prop) succs sm wl :
  (forall a b, P a -> P b -> P (VState.merge a b)) ->
  map_Forall (fun _ => P) sm -> Forall (fun p => P p.2) succs ->
  map_Forall (fun _ => P) (foldl push_merged (sm, wl) succs).1.
Proof.
  intros Hm. revert sm wl. induction succs as [|[t v] succs IH]; intros sm wl Hsm Hs; [done|].
  apply Forall_cons in Hs as [Hv Hs]. cbn [foldl].
  pose proof (push_merged_forall P sm wl t v Hm Hsm Hv) as H1.
  destruct (push_merged (sm, wl) (t, v)) as [sm1 wl1]. by apply IH.
Qed.

(** A predicate that holds initially and is kept by merging and by the
    transfer functions holds of the whole map. *)
Lemma tnum_loop_forall (P : VState -> Prop) insns budget sm wl :
  (forall a b, P a -> P b -> P (VState.merge a b)) ->
  (forall k i pre succs, insns !! Z.to_nat k = Some i -> P pre ->
     transfer insns k i pre = TPush succs -> Forall (fun p => P p.2) succs) ->
  map_Forall (fun _ => P) sm ->
  map_Forall (fun _ => P) (tnum_loop budget insns sm wl).2.
Proof.
  intros Hm Ht. revert sm wl. induction budget as [|b IH]; intros sm [|cur wl] Hsm; simpl; try done.
  destruct (sm !! cur) as [pre|] eqn:Hcur; [|by apply IH].
  destruct (insns !! Z.to_nat cur) as [i|] eqn:Hi; [|done].
  destruct (transfer insns cur i pre) as [| |succs] eqn:Et; [done..|].
  pose proof (fold_push_forall P succs sm wl Hm Hsm) as Hf.
  destruct (foldl push_merged (sm, wl) succs) as [sm1 wl1]. apply IH, Hf.
  apply (Ht cur i pre); auto. by apply (Hsm cur).
Qed.

(** ** The instructions on which verifier and interpreter agree *)

(** Straight-line code with the ALU operations above: jumps are excluded
    because the interpreter and the verifier compute different targets, the
    debug print helper because the verifier takes it to clear [r0]. *)
Definition agreed_insn (i : EbpfInsn) : bool :=
  let c := cls i in
  if (c =? BPF_ALU) || (c =? BPF_ALU64) then sound_alu_op (op i)
  else if (c =? BPF_JMP) || (c =? BPF_JMP32) then
    (op i =? BPF_EXIT) || ((op i =? BPF_CALL) && (1 <=? imm i) && (imm i <=? 3))
  else true.

Definition straight_line (insns : list EbpfInsn) : Prop :=
  Forall (fun i => insn_ok i /\ agreed_insn i = true) insns.

Definition succs_wf (t : Transfer) : Prop :=
  match t with TPush l => Forall (fun p => vs_wf p.2) l | _ => True end.

Lemma fall_wf insns n s : vs_wf s -> succs_wf (fall insns n s).
Proof. intros. unfold fall. simpl. case_match; rewrite ?Forall_cons, Forall_nil; auto. Qed.

Lemma idx_wf r t : succs_wf t -> succs_wf (idx r t).
Proof. intros. unfold idx. by case_match. Qed.

Lemma clobber_wf s : vs_wf s -> vs_wf (clobber s).
Proof. intros. unfold clobber; simpl. repeat apply vs_set_reg_wf; auto with word. Qed.

Lemma write_stack_wf s o n t : vs_wf s -> vs_wf (VState.write_stack s o n t).
Proof. unfold vs_wf. by rewrite vs_write_stack_regs. Qed.

#[export] Hint Resolve fall_wf idx_wf clobber_wf write_stack_wf vs_set_reg_wf vs_reg_wf mask32_wf : vm.

Lemma alu_src_wf pre i : insn_ok i -> vs_wf pre -> tnum_wf (alu_src pre i).
Proof. intros Hi Hp. unfold alu_src. repeat case_match; auto with word vm. Qed.

Lemma alu_dst_wf pre i : vs_wf pre -> tnum_wf (alu_dst pre i).
Proof. intros Hp. unfold alu_dst. case_match; auto with vm. Qed.

Lemma alu_op_tnum_wf' o a b w :
  sound_alu_op o = true -> tnum_wf a -> tnum_wf b -> tnum_wf (alu_op_tnum o a b w).
Proof.
  intros. destruct w; [|by apply alu_op_tnum_wf]. rewrite alu_op_tnum_32.
  apply narrow32_wf. by apply alu_op_tnum_wf.
Qed.

Lemma transfer_wf insns k i pre :
  insn_ok i -> agreed_insn i = true -> vs_wf pre -> succs_wf (transfer insns k i pre).
Proof.
  intros Hi Ha Hp. unfold transfer, agreed_insn in *. cbv zeta in *.
  destruct ((cls i =? BPF_ALU) || (cls i =? BPF_ALU64)).
  { unfold transfer_alu. cbv zeta. do 2 apply idx_wf. destruct (_ && _); [done|].
    apply fall_wf, vs_set_reg_wf; [done|].
    apply alu_op_tnum_wf'; auto using alu_src_wf, alu_dst_wf. }
  destruct (cls i =? BPF_LDX).
  { unfold transfer_ldx. apply idx_wf. destruct (negb _); [done|]. auto with vm word. }
  destruct (cls i =? BPF_ST).
  { unfold transfer_st. apply idx_wf. destruct (negb _); [done|]. auto with vm. }
  destruct (cls i =? BPF_STX).
  { unfold transfer_stx. apply idx_wf. destruct (negb _); [done|]. auto with vm. }
  destruct ((cls i =? BPF_JMP) || (cls i =? BPF_JMP32)).
  { unfold transfer_jmp. cbv zeta. destruct (op i =? BPF_EXIT); [destruct (bool_decide _); [done | by constructor]|].
    simpl in Ha. apply andb_true_iff in Ha as [Ha ?]. apply andb_true_iff in Ha as [Hc H1].
    rewrite Hc, H1, H. simpl. apply fall_wf, clobber_wf. auto with vm word. }
  clear Ha. case_match; [|done]. unfold transfer_ld. cbv zeta.
  case_match; [|done]. case_match; [|done].
  apply idx_wf, fall_wf, vs_set_reg_wf; auto 8 with word.
Qed.

(** ** One step is covered by the transfer function *)

Lemma idx_TPush r k succs : idx r k = TPush succs -> r < 11 /\ k = TPush succs.
Proof. unfold idx. destruct (Z.ltb_spec r 11); [auto | done]. Qed.

Lemma fall_TPush insns nxt post succs :
  fall insns nxt post = TPush succs ->
  Z.of_nat (length insns) <= nxt \/ (nxt, post) ∈ succs.
Proof.
  unfold fall. intros [= <-]. destruct (Z.ltb_spec nxt (Z.of_nat (length insns))); [|auto].
  right. set_solver.
Qed.

Lemma alu_src_in s pre i :
  insn_ok i -> vm_ok s -> vs_in (regs s) pre -> (use_imm i = false -> src_reg i < 11) ->
  let src_val := if use_imm i then imm i else i64 (EbpfRegs.r (regs s) (src_reg i)) in
  exists y, tnum_in y (alu_src pre i) /\
    (cls i = BPF_ALU64 -> u64 src_val = y) /\ u32 src_val = u32 y /\
    (src_val = 0 -> y = 0).
Proof.
  intros (_ & _ & [Hs _] & _ & _) (_ & Hr & _) Hin Hsrc. unfold alu_src.
  pose proof (regs_r_u64 (regs s) (src_reg i) Hr) as Hu.
  destruct (use_imm i); cbv zeta iota.
  - destruct (Z.eqb_spec (cls i) BPF_ALU64).
    + exists (u64 (imm i)). split_and!; auto.
      * apply tnum_in_exact; auto with word.
      * unfold u32. change M32 with (2 ^ 32). by rewrite u64_mod_pow2.
      * by intros ->.
    + exists (u32 (imm i)). split_and!; [|done| |].
      * apply tnum_in_exact; auto with word. apply u64_of_u32. auto with word.
      * unfold u32. by rewrite Z.mod_mod by lia.
      * by intros ->.
  - specialize (Hin (src_reg i)). rewrite u32_i64.
    exists (EbpfRegs.r (regs s) (src_reg i)). split_and!.
    + case_match; [|apply mask32_in]; apply Hin; auto.
    + intros _. by rewrite u64_i64, u64_small.
    + done.
    + intros E. by rewrite <- (u64_small _ Hu), <- u64_i64, E.
Qed.

Lemma step_alu_covered insns i s s' pre succs :
  insn_ok i -> sound_alu_op (op i) = true -> vm_ok s ->
  vs_shape pre -> vs_wf pre -> vs_in (regs s) pre ->
  transfer_alu insns (pc s) i pre = TPush succs -> step_alu i s = Running s' ->
  Z.of_nat (length insns) <= pc s' \/ exists post, (pc s', post) ∈ succs /\ vs_in (regs s') post.
Proof.
  intros Hi Hop Hs Hsh Hwf Hin. unfold transfer_alu. cbv zeta.
  intros [Hsrc Ht]%idx_TPush. apply idx_TPush in Ht as [Hdst Ht].
  destruct (_ && _); [done|].
  destruct (alu_src_in s pre i Hi Hs Hin) as (y & Hy & Hy64 & Hy32 & _).
  { intros E. by rewrite E in Hsrc. }
  unfold step_alu. cbv zeta. destruct (alu_result _ _ _) as [r|] eqn:Hr; [|done].
  intros [= <-]. simpl. apply fall_TPush in Ht as [|Ht]; [by left|]. right.
  eexists. split; [exact Ht|]. pose proof Hi as (_ & [Hd _] & _).
  apply vs_in_set; auto; [apply Hs|].
  assert (Hx : tnum_in (EbpfRegs.r (regs s) (dst_reg i)) (VState.reg pre (dst_reg i))) by auto.
  pose proof (alu_src_wf pre i Hi Hwf). unfold alu_dst.
  destruct (Z.eqb_spec (cls i) BPF_ALU64) as [E|E]; simpl.
  - eapply alu_sound64; eauto with vm.
  - eapply alu_sound32; eauto using mask32_in, mask32_wf, vs_reg_wf.
Qed.

Lemma vs_in_write_stack rs s o n t : vs_in rs s -> vs_in rs (VState.write_stack s o n t).
Proof. intros Hin i Hi. unfold VState.reg. rewrite vs_write_stack_regs. by apply Hin. Qed.

Lemma vs_in_call rs s v :
  regs_ok rs -> vs_shape s -> is_u64 v -> vs_in rs s ->
  vs_in (EbpfRegs.set_r0 rs v) (clobber (VState.set_reg s 0 Tnum.any)).
Proof.
  intros Hrs Hs Hv Hin. unfold clobber; cbn [foldl].
  assert (Hrs' : regs_ok (EbpfRegs.set_r0 rs v)) by by apply regs_set_r_ok.
  do 5 (apply vs_in_forget; auto 8 with vm; [lia|]).
  apply vs_in_set; auto with word; lia.
Qed.

Lemma step_call_covered insns i s s' pre succs :
  vm_ok s -> vs_shape pre -> vs_in (regs s) pre -> 1 <= imm i <= 3 ->
  fall insns (pc s + 1) (clobber (VState.set_reg pre 0 Tnum.any)) = TPush succs ->
  step_call i s = Running s' ->
  Z.of_nat (length insns) <= pc s' \/ exists post, (pc s', post) ∈ succs /\ vs_in (regs s') post.
Proof.
  intros Hs Hsh Hin Hi Ht Hstep.
  assert (exists v, is_u64 v /\ pc s' = pc s + 1 /\ regs s' = EbpfRegs.set_r0 (regs s) v)
    as (v & Hv & -> & ->).
  { pose proof Hs as (_ & _ & _ & Hw). unfold step_call in Hstep.
    assert (imm i = 1 \/ imm i = 2 \/ imm i = 3) as [E|[E|E]] by lia;
      rewrite E in Hstep; cbn -[bpf_helper_map_lookup_elem] in Hstep.
    - destruct (bpf_helper_map_lookup_elem _ _ _ _ _) as [[v st] w].
      simplify_eq/=. eauto with word.
    - simplify_eq/=. eauto with vm.
    - simplify_eq/=. eauto with vm. }
  apply fall_TPush in Ht as [|Ht]; [by left|]. right. eexists. split; [exact Ht|].
  apply vs_in_call; auto. apply Hs.
Qed.

Lemma step_ldx_covered insns i s s' pre succs :
  insn_ok i -> vm_ok s -> vs_shape pre -> vs_in (regs s) pre ->
  transfer_ldx insns (pc s) i pre = TPush succs -> step_ldx i s = Running s' ->
  Z.of_nat (length insns) <= pc s' \/ exists post, (pc s', post) ∈ succs /\ vs_in (regs s') post.
Proof.
  intros (_ & [Hd _] & _) Hs Hsh Hin. unfold transfer_ldx.
  intros [_ Ht]%idx_TPush. destruct (negb _); [done|]. apply idx_TPush in Ht as [Hdst Ht].
  pose proof Hs as (_ & Hr & Hst & _). unfold step_ldx. cbv zeta. intros Hstep.
  assert (pc s' = pc s + 1 /\ vs_in (regs s') (VState.set_reg pre (dst_reg i) Tnum.any)) as [-> Hpost].
  { destruct (_ <? _); [simplify_eq/=; auto using vs_in_forget|].
    destruct (load _ _ _) eqn:E; simplify_eq/=. split; [done|]. apply vs_in_set; auto.
    apply tnum_in_any. eapply load_u64; [done | apply size_bytes_range | exact E]. }
  apply fall_TPush in Ht as [|Ht]; eauto.
Qed.

(** A store leaves the registers alone, in the program and in the abstract. *)
Lemma step_store_covered insns s s' pre o n t succs :
  vs_in (regs s) pre -> pc s' = pc s + 1 -> regs s' = regs s ->
  fall insns (pc s + 1) (VState.write_stack pre o n t) = TPush succs ->
  Z.of_nat (length insns) <= pc s' \/ exists post, (pc s', post) ∈ succs /\ vs_in (regs s') post.
Proof.
  intros Hin -> -> [|Ht]%fall_TPush; [by left|]. right. eauto using vs_in_write_stack.
Qed.

Lemma step_ld_covered insns i s s' pre succs :
  insn_ok i -> vm_ok s -> vs_shape pre -> vs_in (regs s) pre ->
  transfer_ld insns (pc s) i pre = TPush succs -> step_ld insns i s = Running s' ->
  Z.of_nat (length insns) <= pc s' \/ exists post, (pc s', post) ∈ succs /\ vs_in (regs s') post.
Proof.
  intros (_ & [Hd _] & _) Hs Hsh Hin. unfold transfer_ld, step_ld. cbv zeta. unfold BPF_IMM.
  destruct (_ && _); [|done]. destruct (insns !! Z.to_nat (pc s + 1)) as [n|]; [|done].
  intros [Hdst Ht]%idx_TPush [= <-]. simpl.
  apply fall_TPush in Ht as [|Ht]; [by left|]. right. eexists. split; [exact Ht|].
  apply vs_in_set; auto; [apply Hs|]. apply tnum_in_exact; auto with word.
Qed.

Lemma transfer_sound insns i s s' pre succs :
  insn_ok i -> agreed_insn i = true -> vm_ok s ->
  vs_shape pre -> vs_wf pre -> vs_in (regs s) pre ->
  transfer insns (pc s) i pre = TPush succs -> step_insn insns i s = Running s' ->
  Z.of_nat (length insns) <= pc s' \/ exists post, (pc s', post) ∈ succs /\ vs_in (regs s') post.
Proof.
  intros Hi Ha Hs Hsh Hwf Hin. unfold transfer, step_insn, agreed_insn in *. cbv zeta in *.
  destruct ((cls i =? BPF_ALU) || (cls i =? BPF_ALU64)); [by apply step_alu_covered|].
  destruct (Z.eqb_spec (cls i) BPF_LDX) as [->|]; [by apply step_ldx_covered|].
  destruct (Z.eqb_spec (cls i) BPF_ST) as [->|].
  { simpl. unfold transfer_st, step_st. cbv zeta. intros [_ Ht]%idx_TPush Hstep.
    destruct (negb _); [done|]. eapply step_store_covered; [done | | | exact Ht];
      by destruct (_ <? _); [|destruct (store _ _ _ _)]; simplify_eq/=. }
  destruct (Z.eqb_spec (cls i) BPF_STX) as [->|].
  { simpl. unfold transfer_stx, step_stx. cbv zeta. intros [_ Ht]%idx_TPush Hstep.
    destruct (negb _); [done|]. apply idx_TPush in Ht as [_ Ht].
    eapply step_store_covered; [done | | | exact Ht];
      by destruct (_ <? _); [|destruct (store _ _ _ _)]; simplify_eq/=. }
  destruct ((cls i =? BPF_JMP) || (cls i =? BPF_JMP32)).
  { unfold transfer_jmp, step_jmp. cbv zeta.
    destruct (Z.eqb_spec (op i) BPF_EXIT) as [->|]; [done|]. simpl in Ha.
    apply andb_true_iff in Ha as [Ha ?%Z.leb_le]. apply andb_true_iff in Ha as [-> ?%Z.leb_le].
    rewrite (proj2 (Z.leb_le 1 _)), (proj2 (Z.leb_le _ 3)) by done. simpl.
    by apply step_call_covered. }
  destruct (cls i =? BPF_LD); [by apply step_ld_covered | done].
Qed.

(** ** Runs of accepted programs *)

(** The verifier's map has a state at the current instruction that stands for
    the current registers (or the program has been left at its end). *)
Definition covered (insns : list EbpfInsn) (sm : gmap Z VState) (s : Vm) : Prop :=
  Z.of_nat (length insns) <= pc s \/
  exists st, sm !! pc s = Some st /\ vs_in (regs s) st.

(** The state a program is entered in: [r10] is the top of the stack. *)
Definition entry_state (s : Vm) : Prop :=
  vm_ok s /\ pc s = 0 /\ EbpfRegs.r (regs s) 10 = STACK_SIZE.

Lemma vs_wf_init : vs_wf VState.init.
Proof.
  apply Forall_insert; [apply Forall_replicate; auto with word | apply tnum_exact_wf; done].
Qed.

Lemma entry_in s : entry_state s -> vs_in (regs s) VState.init.
Proof.
  intros (Hs & _ & H10) i Hi. unfold VState.init. rewrite vs_reg_set_reg; [|done..|lia|done].
  case_decide as E; [subst; rewrite H10; by apply tnum_in_exact|].
  replace (VState.reg VState.new i) with Tnum.any.
  - apply tnum_in_any, regs_r_u64, Hs.
  - unfold VState.reg, VState.new. cbn [v_regs]. by rewrite lookup_replicate_2 by lia.
Qed.

(** The abstract states [tnum_verify] has when its loop ends. *)
Definition state_map (insns : list EbpfInsn) : gmap Z VState :=
  (tnum_loop (step_budget insns) insns {[0 := VState.init]} [0]).2.

Lemma accept_map insns :
  tnum_verify insns = Accept -> straight_line insns ->
  post_fixpoint insns (state_map insns) /\ map_Forall (fun _ => vs_wf) (state_map insns).
Proof.
  intros Hv Hl. unfold state_map, tnum_verify in *. destruct (_ || _); [done|].
  pose proof (tnum_loop_forall vs_wf insns (step_budget insns) {[0 := VState.init]} [0] vs_merge_wf) as Hwf.
  destruct (tnum_loop _ _ _ _) as [v sm] eqn:E. destruct v; [|done..].
  split; [by eapply tnum_loop_post_fixpoint; [apply loop_inv_init|]|]. apply Hwf.
  - intros k i pre succs Hi Hp Ht. eapply Forall_lookup_1 in Hi; [|exact Hl].
    destruct Hi as [Hi Ha]. pose proof (transfer_wf insns k i pre Hi Ha Hp) as H. by rewrite Ht in H.
  - apply map_Forall_singleton, vs_wf_init.
Qed.

Section covered.
Context (insns : list EbpfInsn) (sm : gmap Z VState).
Context (Hl : straight_line insns) (Hsm : post_fixpoint insns sm).
Context (Hwf : map_Forall (fun _ => vs_wf) sm).

Lemma step_covered s s' :
  vm_ok s -> covered insns sm s -> step insns s = Running s' -> covered insns sm s'.
Proof.
  intros Hs [Hend|(st & Hst & Hin)]; unfold step.
  { by rewrite (proj2 (Z.ltb_ge _ _)). }
  destruct (pc s <? _); [|done].
  destruct Hsm as (_ & Hsh & Hstab). destruct (Hstab _ _ Hst) as (i & succs & Hi & Ht & Hc).
  rewrite Hi. intros Hstep. pose proof (Forall_lookup_1 _ _ _ _ Hl Hi) as [Hok Ha].
  destruct (transfer_sound insns i s s' st succs) as [|(post & Hp & Hpin)]; auto.
  { by apply (Hsh (pc s)). } { by apply (Hwf (pc s)). } { by left. }
  right. destruct (proj1 (Forall_forall _ _) Hc _ Hp) as (st' & Hst' & Hle). simpl in *.
  exists st'. split; [done|]. eapply vs_in_mono; [|exact Hle|done].
  pose proof (transfer_shape insns (pc s) i st (Hsh _ _ Hst)) as Hts. rewrite Ht in Hts.
  by apply (proj1 (Forall_forall _ _) Hts _ Hp).
Qed.

Lemma reachable_covered s s' :
  vm_ok s -> covered insns sm s -> vm_reachable insns s s' -> covered insns sm s'.
Proof.
  intros Hs Hc Hr. revert Hs Hc. induction Hr as [|s1 s2 s3 Hstep Hr IH]; [done|].
  intros Hs Hc. apply IH; [by eapply vm_step_ok|].
  destruct Hstep as [? ? Hstep|]; [by eapply step_covered | done].
Qed.

Lemma entry_covered s : entry_state s -> covered insns sm s.
Proof.
  intros He. destruct Hsm as ((st & H0 & Hle) & _). right. exists st.
  pose proof He as (_ & -> & _). split; [done|].
  eapply vs_in_mono; [|exact Hle|by apply entry_in]. apply vs_init_shape.
Qed.

(** At a reachable instruction the transfer function did not reject. *)
Lemma reachable_transfer s s' i :
  entry_state s -> vm_reachable insns s s' -> insns !! Z.to_nat (pc s') = Some i ->
  exists st succs, vs_in (regs s') st /\ vs_shape st /\ vs_wf st /\
    transfer insns (pc s') i st = TPush succs.
Proof.
  intros He Hr Hi. pose proof He as (Hs & _).
  destruct (reachable_covered s s' Hs (entry_covered s He) Hr) as [Hend|(st & Hst & Hin)].
  { apply lookup_lt_Some in Hi. lia. }
  destruct Hsm as (_ & Hsh & Hstab). destruct (Hstab _ _ Hst) as (i' & succs & Hi' & Ht & _).
  simplify_eq. exists st, succs. split_and!; auto; [by apply (Hsh (pc s')) | by apply (Hwf (pc s'))].
Qed.
End covered.

(** The upper bound [check_stack_acc] establishes on every value of the base. *)
Lemma check_stack_acc_bound base o n x :
  is_i16 o -> 0 <= n <= 8 -> tnum_wf base -> tnum_in x base ->
  check_stack_acc base o n = true -> x + o + n <= STACK_SIZE.
Proof.
  intros Ho Hn Hb Hx. unfold check_stack_acc. cbv zeta.
  pose proof (tnum_in_max x base (tnum_wf_u64 _ Hb) Hx) as Hmax.
  destruct (Z.ltb_spec (STACK_SIZE * 8) (Tnum.max base)); [done|].
  pose proof (proj1 (tnum_in_u64 _ _ Hx)). unfold STACK_SIZE, is_i16 in *.
  assert (Hsm : forall z, - M63 <= z < M63 -> i64 z = z).
  { intros z Hz. unfold i64. destruct (Z.ltb_spec (z mod M64) M63); Z.div_mod_to_equations; lia. }
  rewrite (Hsm (Tnum.max base)), !Hsm by (rewrite ?Hsm; lia).
  intros [_ H2%Z.ltb_lt]%andb_true_iff. lia.
Qed.

(** ** Results *)

(** When [tnum_verify] accepts, the map its worklist computed is a
    post-fixpoint of the transfer functions: it covers the entry state, no
    instruction it has a state for is rejected, and every successor state is
    covered by the map. *)
Theorem tnum_verify_post_fixpoint insns :
  tnum_verify insns = Accept ->
  (0 < length insns <= 4096)%nat /\ exists sm, post_fixpoint insns sm.
Proof. apply tnum_verify_Accept. Qed.

(** r0 = 7; spill it below the frame pointer; r2 = 8; r0 /= r2; exit. *)
Definition example_prog : list EbpfInsn :=
  [mkInsn 0xbf 0 0 0 7; mkInsn 0x63 10 0 (-8) 0; mkInsn 0xbf 2 0 0 8;
   mkInsn 0x37 0 2 0 0; mkInsn 0x61 3 10 (-8) 0; mkInsn 0xbf 0 0 0 1; mkInsn 0x95 0 0 0 0].

Lemma example_accepted : tnum_verify example_prog = Accept.
Proof. by vm_compute. Qed.

Lemma example_straight_line : straight_line example_prog.
Proof.
  unfold straight_line, example_prog.
  rewrite !Forall_cons, Forall_nil. split_and!; try done.
Qed.

Lemma example_entry : entry_state (start_vm STACK_SIZE).
Proof. split; [by apply start_vm_ok | done]. Qed.

Lemma tnum_verify_post_fixpoint_witness :
  exists sm, post_fixpoint example_prog sm.
Proof. apply (tnum_verify_post_fixpoint example_prog). vm_compute. reflexivity. Defined.

(** For every ALU operation except [SUB], [AND], [NEG] and [ARSH], the
    abstract result of [alu_op_tnum] contains the value the interpreter
    writes, for 64-bit operations and for 32-bit ones (whose result is
    sign-extended, and whose source needs only its low half tracked). *)
Theorem alu_op_tnum_sound o a b x y s r :
  sound_alu_op o = true -> tnum_wf a -> tnum_wf b -> tnum_in x a -> tnum_in y b ->
  alu_result o (i64 x) s = Some r ->
  (u64 s = y -> tnum_in (u64 r) (alu_op_tnum o a b false)) /\
  (u32 s = u32 y -> tnum_in (u64 (i32 r)) (alu_op_tnum o a b true)).
Proof. split; intros; [by eapply alu_sound64 | by eapply alu_sound32]. Qed.

Lemma alu_op_tnum_sound_witness :
  tnum_in 12 (alu_op_tnum BPF_ADD (mkTnum 8 3) (Tnum.exact 1) false).
Proof.
  apply (alu_op_tnum_sound BPF_ADD (mkTnum 8 3) (Tnum.exact 1) 11 1 1 12); first [reflexivity | tnum_decide].
Defined.

(** C2. The register states the verifier computes are sound on straight-line
    programs. If [tnum_verify] accepts, then in every state the interpreter
    reaches from an entry state ([pc] 0, [r10] the top of the stack), with
    interrupts in between, the eleven registers have values of the tristate
    numbers that the verifier's own state map holds for the current
    instruction. Straight-line means: no jumps, no calls but of helpers 1 to 3,
    and none of the ALU operations whose abstract version is unsound ([SUB],
    [AND], [NEG] and [ARSH]). The abstract stack slots are not covered; no
    transfer function reads them. *)
Theorem accepted_covers insns s s' :
  tnum_verify insns = Accept -> straight_line insns -> entry_state s -> vm_reachable insns s s' ->
  covered insns (state_map insns) s'.
Proof.
  intros Hv Hl He Hr. destruct (accept_map insns Hv Hl) as [Hsm Hwf].
  eapply reachable_covered; [done.. | apply He | by apply entry_covered | done].
Qed.

(** The entry state, and the state after the first instruction. *)
Lemma accepted_covers_witness :
  covered example_prog (state_map example_prog) (start_vm STACK_SIZE) /\
  match step example_prog (start_vm STACK_SIZE) with
  | Running s => covered example_prog (state_map example_prog) s
  | _ => False
  end.
Proof.
  split.
  - apply (accepted_covers example_prog (start_vm STACK_SIZE));
      [vm_compute; reflexivity|apply example_straight_line|apply example_entry|apply rtc_refl].
  - destruct (step example_prog (start_vm STACK_SIZE)) as [s1| | | |] eqn:E;
      try (vm_compute in E; discriminate E).
    apply (accepted_covers example_prog (start_vm STACK_SIZE));
      [vm_compute; reflexivity|apply example_straight_line|apply example_entry|].
    apply rtc_once, vm_exec. exact E.
Defined.

(** In an accepted straight-line program the interpreter never divides by
    zero: whenever it reaches a [DIV] or [MOD], the operand it divides by is
    not zero (so the interpreter's own zero guard is not what decides). *)
Theorem accepted_divisor_nonzero insns s s' i :
  tnum_verify insns = Accept -> straight_line insns ->
  entry_state s -> vm_reachable insns s s' ->
  insns !! Z.to_nat (pc s') = Some i -> cls i = BPF_ALU \/ cls i = BPF_ALU64 ->
  op i = BPF_DIV \/ op i = BPF_MOD ->
  (if use_imm i then imm i else i64 (EbpfRegs.r (regs s') (src_reg i))) <> 0.
Proof.
  intros Hv Hl He Hr Hi Hc Ho. destruct (accept_map insns Hv Hl) as [Hsm Hwf].
  destruct (reachable_transfer insns (state_map insns) Hl Hsm Hwf s s' i He Hr Hi)
    as (st & succs & Hin & Hsh & Hw & Ht).
  pose proof (Forall_lookup_1 _ _ _ _ Hl Hi) as [Hok _].
  unfold transfer in Ht. cbv zeta in Ht. replace (_ || _) with true in Ht
    by (destruct Hc as [-> | ->]; done).
  unfold transfer_alu in Ht. cbv zeta in Ht. apply idx_TPush in Ht as [Hsrc Ht].
  apply idx_TPush in Ht as [_ Ht].
  replace ((op i =? BPF_DIV) || (op i =? BPF_MOD)) with true in Ht
    by (destruct Ho as [-> | ->]; done). simpl in Ht.
  destruct (Tnum.could_be_zero (alu_src st i)) eqn:Hz; [done|].
  destruct (alu_src_in s' st i Hok) as (y & Hy & _ & _ & Hy0); auto.
  { apply (vm_reachable_ok insns s); [apply He | done]. }
  { intros E. by rewrite E in Hsrc. }
  pose proof (tnum_nonzero_in _ y (tnum_wf_u64 _ (alu_src_wf st i Hok Hw)) Hz Hy) as Hnz.
  by intros E0%Hy0.
Qed.

(** A concrete run: the state of [example_prog] before its fourth instruction. *)
Lemma exec_reachable n insns s s' : exec_raw n insns s = Running s' -> vm_reachable insns s s'.
Proof.
  revert s. induction n as [|n IH]; intros s; simpl; [intros [= <-]; apply rtc_refl|].
  destruct (step insns s) as [s1| | | |] eqn:E; try done. intros Hr%IH.
  eapply rtc_l; [|exact Hr]. by constructor.
Qed.

Lemma accepted_divisor_nonzero_witness :
  exists s', exec_raw 3 example_prog (start_vm STACK_SIZE) = Running s' /\
    i64 (EbpfRegs.r (regs s') 2) <> 0.
Proof.
  eexists. split; [vm_compute; reflexivity|].
  refine (accepted_divisor_nonzero example_prog (start_vm STACK_SIZE) _ (mkInsn 0x37 0 2 0 0)
            _ example_straight_line example_entry _ _ _ _).
  - vm_compute. reflexivity.
  - apply (exec_reachable 3). vm_compute. reflexivity.
  - reflexivity.
  - right. reflexivity.
  - left. reflexivity.
Defined.

(** In an accepted straight-line program every load and store through a
    register stays below the top of the stack: the value of the base
    register plus offset plus size is at most 512, whatever value the run
    has put in the register. *)
Theorem accepted_access_bound insns s s' i :
  tnum_verify insns = Accept -> straight_line insns ->
  entry_state s -> vm_reachable insns s s' ->
  insns !! Z.to_nat (pc s') = Some i ->
  (cls i = BPF_LDX ->
     EbpfRegs.r (regs s') (src_reg i) + off i + sz_bytes i <= STACK_SIZE) /\
  (cls i = BPF_STX ->
     EbpfRegs.r (regs s') (dst_reg i) + off i + sz_bytes i <= STACK_SIZE) /\
  (cls i = BPF_ST -> EbpfRegs.r (regs s') (dst_reg i) + off i + 4 <= STACK_SIZE).
Proof.
  intros Hv Hl He Hr Hi. destruct (accept_map insns Hv Hl) as [Hsm Hwf].
  destruct (reachable_transfer insns (state_map insns) Hl Hsm Hwf s s' i He Hr Hi)
    as (st & succs & Hin & Hsh & Hw & Ht).
  pose proof (Forall_lookup_1 _ _ _ _ Hl Hi) as [(_ & [Hd _] & [Hs _] & Ho & _) _].
  split_and!; intros Hc; unfold transfer in Ht; rewrite Hc in Ht; simpl in Ht.
  - unfold transfer_ldx in Ht. apply idx_TPush in Ht as [Hsrc Ht].
    destruct (check_stack_acc _ _ _) eqn:Hck; [|done].
    eapply check_stack_acc_bound; eauto using size_bytes_range, vs_reg_wf.
  - unfold transfer_stx in Ht. apply idx_TPush in Ht as [Hdst Ht].
    destruct (check_stack_acc _ _ _) eqn:Hck; [|done].
    eapply check_stack_acc_bound; eauto using size_bytes_range, vs_reg_wf.
  - unfold transfer_st in Ht. apply idx_TPush in Ht as [Hdst Ht].
    destruct (check_stack_acc _ _ _) eqn:Hck; [|done].
    apply check_stack_acc_bound with (x := EbpfRegs.r (regs s') (dst_reg i)) in Hck; auto with vm.
    + by destruct (_ =? 0); lia.
    + destruct (_ =? 0); lia.
Qed.

Lemma accepted_access_bound_witness :
  exists s', exec_raw 4 example_prog (start_vm STACK_SIZE) = Running s' /\
    EbpfRegs.r (regs s') 10 + -8 + 8 <= STACK_SIZE.
Proof.
  eexists. split; [vm_compute; reflexivity|].
  refine (proj1 (accepted_access_bound example_prog (start_vm STACK_SIZE) _ (mkInsn 0x61 3 10 (-8) 0)
            _ example_straight_line example_entry _ _) _).
  - vm_compute. reflexivity.
  - apply (exec_reachable 4). vm_compute. reflexivity.
  - reflexivity.
  - reflexivity.
Defined.
