(* ===== verification/EbpfSafe.v ===== *)
(** * Safety and termination of verified programs

    What the two verifier passes guarantee about runs of the interpreter, and
    where verifier and interpreter disagree. *)

From S2P Require Import Prelude Tnum EbpfMaps EbpfVm EbpfVerifier EbpfCfg EbpfSound.

(** ** Frame-relative programs *)

(** Loads and stores go through [r10], and no wide load overwrites it. *)
Definition frame_access (i : EbpfInsn) : bool :=
  if cls i =? BPF_LDX then src_reg i =? 10
  else if (cls i =? BPF_ST) || (cls i =? BPF_STX) then dst_reg i =? 10
  else if cls i =? BPF_LD then negb (dst_reg i =? 10)
  else true.

Definition frame_relative (insns : list EbpfInsn) : Prop :=
  Forall (fun i => insn_ok i /\ frame_access i = true) insns.

Lemma frame_guard o n :
  0 <= n <= 8 -> is_i16 o -> -512 <= o <= 512 ->
  u64 (u64 (STACK_SIZE + u64 o) + n) <= STACK_SIZE ->
  u64 (STACK_SIZE + u64 o) + n <= STACK_SIZE.
Proof.
  unfold STACK_SIZE. intros Hn Ho Hr.
  assert (Ha : u64 (512 + u64 o) = 512 + o).
  { unfold u64. rewrite Zplus_mod_idemp_r. apply Z.mod_small. lia. }
  rewrite Ha. unfold u64. rewrite Z.mod_small; lia.
Qed.

Lemma set_r_other rs i v : i <> 10 -> EbpfRegs.r (EbpfRegs.set_r rs i v) 10 = EbpfRegs.r rs 10.
Proof.
  intros Hi. unfold EbpfRegs.r, EbpfRegs.set_r. simpl.
  destruct (Z.ltb_spec i 11); [|done]. rewrite list_lookup_insert_ne; [done|].
  destruct (Z.lt_ge_cases i 0); [destruct i; simpl; lia | lia].
Qed.

(** What [check_insn] says about one instruction. *)
Lemma check_insn_facts insns k i :
  check_insn insns k i = true ->
  dst_reg i <= 10 /\ src_reg i <= 10 /\
  (cls i = BPF_ALU \/ cls i = BPF_ALU64 \/ cls i = BPF_LDX -> dst_reg i <> 10) /\
  (cls i = BPF_LDX \/ cls i = BPF_ST \/ cls i = BPF_STX -> -512 <= off i <= 512) /\
  (cls i = BPF_JMP \/ cls i = BPF_JMP32 -> op i = BPF_CALL -> 1 <= imm i <= 4).
Proof.
  unfold check_insn. cbv zeta. unfold BPF_ALU, BPF_ALU64, BPF_JMP, BPF_JMP32, BPF_LD, BPF_LDX, BPF_ST, BPF_STX.
  destruct (_ || _) eqn:Hr; [done|]. apply orb_false_iff in Hr as [?%Z.ltb_ge ?%Z.ltb_ge].
  intros Hc. split_and!; try lia.
  - intros [E|[E|E]] Hd; rewrite E, Hd in Hc; simpl in Hc; try done.
    by rewrite andb_false_r in Hc.
  - intros [E|[E|E]]; rewrite E in Hc; simpl in Hc;
      repeat (apply andb_true_iff in Hc as [Hc _]); apply negb_true_iff, orb_false_iff in Hc as [?%Z.ltb_ge ?%Z.ltb_ge]; lia.
  - intros [E|E] Ho; rewrite E, Ho in Hc; destruct (_ && _); simpl in Hc; try done;
      apply negb_true_iff, orb_false_iff in Hc as [?%Z.ltb_ge ?%Z.ltb_ge]; lia.
Qed.

(** The state every run of such a program stays in. *)
Definition frame_inv (q : list Z) (s : Vm) : Prop :=
  vm_ok s /\ EbpfRegs.r (regs s) 10 = STACK_SIZE /\ TAIL_CALL_PROGS (world s) = q.

(** Outcomes that are neither a bad access nor a hang. *)
Definition safe_outcome (q : list Z) (o : Outcome) : Prop :=
  match o with
  | Running s => EbpfRegs.r (regs s) 10 = STACK_SIZE /\ TAIL_CALL_PROGS (world s) = q
  | Done _ s => TAIL_CALL_PROGS (world s) = q
  | Panic => True
  | Fault _ _ | Hang => False
  end.

Lemma map_lookup_tail_calls w st fd k v r st' w' :
  bpf_helper_map_lookup_elem w st fd k v = (r, st', w') ->
  TAIL_CALL_PROGS w' = TAIL_CALL_PROGS w.
Proof.
  unfold bpf_helper_map_lookup_elem. repeat case_match; intros; simplify_eq; done.
Qed.

Lemma debug_print_tail_calls w st o n :
  TAIL_CALL_PROGS (bpf_helper_debug_print w st o n) = TAIL_CALL_PROGS w.
Proof. unfold bpf_helper_debug_print. by repeat case_match. Qed.

Lemma step_call_safe q i s :
  frame_inv q s -> 1 <= imm i <= 4 -> safe_outcome q (step_call i s).
Proof.
  intros (_ & H10 & Hq) Hi. unfold step_call.
  assert (imm i = 1 \/ imm i = 2 \/ imm i = 3 \/ imm i = 4) as [->|[->|[->| ->]]] by lia;
    cbn -[bpf_helper_map_lookup_elem EbpfRegs.set_r0 EbpfRegs.r].
  - destruct (bpf_helper_map_lookup_elem _ _ _ _ _) as [[v st] w] eqn:E.
    cbn -[EbpfRegs.set_r0 EbpfRegs.r]. apply map_lookup_tail_calls in E as ->.
    split; [|done]. by rewrite <- H10; apply set_r_other.
  - split; [|done]. by rewrite <- H10; apply set_r_other.
  - split; [|done]. by rewrite <- H10; apply set_r_other.
  - by rewrite debug_print_tail_calls.
Qed.

Lemma step_insn_safe q insns k i s :
  check_insn insns k i = true -> insn_ok i -> frame_access i = true ->
  frame_inv q s -> safe_outcome q (step_insn insns i s).
Proof.
  intros (Hd & Hs & H10 & Hoff & Hcall)%check_insn_facts (_ & _ & _ & Ho & _) Hf Hinv.
  pose proof Hinv as (_ & Hr10 & Hq). unfold step_insn, frame_access in *. cbv zeta.
  pose proof (size_bytes_range (size_bits i)) as Hn.
  destruct ((_ =? BPF_ALU) || _) eqn:Hc.
  { unfold step_alu. cbv zeta. destruct (alu_result _ _ _); [|done]. simpl. split; [|done].
    rewrite set_r_other; [done|]. apply H10.
    apply orb_true_iff in Hc as [?%Z.eqb_eq|?%Z.eqb_eq]; auto. }
  destruct ((_ =? BPF_JMP) || _) eqn:Hj.
  { apply orb_true_iff in Hj. rewrite !Z.eqb_eq in Hj. unfold step_jmp. cbv zeta.
    destruct (Z.eqb_spec (op i) BPF_CALL) as [E|]; [by apply step_call_safe; auto|].
    clear Hf. by repeat case_match. }
  destruct (Z.eqb_spec (cls i) BPF_LD) as [E|].
  { rewrite E in Hf. simpl in Hf. apply negb_true_iff, Z.eqb_neq in Hf.
    unfold step_ld. cbv zeta. destruct (_ && _); [|done]. simpl. by rewrite set_r_other. }
  destruct (Z.eqb_spec (cls i) BPF_LDX) as [E|].
  { apply Z.eqb_eq in Hf. unfold step_ldx. cbv zeta. rewrite Hf, Hr10.
    destruct (Z.ltb_spec STACK_SIZE (u64 (u64 (STACK_SIZE + u64 (off i)) + size_bytes (size_bits i)))); [done|].
    unfold load. rewrite (proj2 (Z.leb_le _ _)) by (apply frame_guard; auto).
    simpl. rewrite set_r_other; auto. }
  destruct (Z.eqb_spec (cls i) BPF_ST) as [E|].
  { apply Z.eqb_eq in Hf. unfold step_st. cbv zeta. rewrite Hf, Hr10.
    destruct (Z.ltb_spec STACK_SIZE (u64 (u64 (STACK_SIZE + u64 (off i)) + 8))); [done|].
    unfold store. by rewrite (proj2 (Z.leb_le _ _)) by (apply frame_guard; auto; lia). }
  destruct (Z.eqb_spec (cls i) BPF_STX) as [E|]; [|done].
  apply Z.eqb_eq in Hf. unfold step_stx. cbv zeta. rewrite Hf, Hr10.
  destruct (Z.ltb_spec STACK_SIZE (u64 (u64 (STACK_SIZE + u64 (off i)) + size_bytes (size_bits i)))); [done|].
  unfold store. by rewrite (proj2 (Z.leb_le _ _)) by (apply frame_guard; auto).
Qed.

Section frame.
Context (insns : list EbpfInsn) (q : list Z).
Context (Hwf : well_formed insns) (Hf : frame_relative insns).

Lemma frame_step_safe s : frame_inv q s -> safe_outcome q (step insns s).
Proof.
  intros Hs. unfold step. pose proof Hs as (_ & _ & Hq).
  destruct (pc s <? _); [|done]. destruct (insns !! Z.to_nat (pc s)) as [i|] eqn:Hi; [|done].
  pose proof (Forall_lookup_1 _ _ _ _ Hf Hi) as [Hok Ha].
  eapply step_insn_safe; eauto. by apply (wf_insns _ Hwf _ _ Hi).
Qed.

Lemma frame_reachable s s' : frame_inv q s -> vm_reachable insns s s' -> frame_inv q s'.
Proof.
  intros Hs Hr. induction Hr as [|s1 s2 s3 Hstep Hr IH]; [done|]. apply IH.
  pose proof Hs as (Hok & H10 & Hq). split; [by eapply vm_step_ok|].
  destruct Hstep as [s1 s2 Hstep|]; [|done].
  pose proof (frame_step_safe s1 Hs) as H. by rewrite Hstep in H.
Qed.
End frame.

(** ** Termination of straight-line programs *)

(** No jumps; calls and exits are allowed, with any helper. *)
Definition jump_free (insns : list EbpfInsn) : Prop :=
  Forall (fun i => cls i = BPF_JMP \/ cls i = BPF_JMP32 -> op i = BPF_EXIT \/ op i = BPF_CALL) insns.

(** Without jumps every iteration moves forward. *)
Lemma straight_step_pc insns s s' :
  jump_free insns -> step insns s = Running s' ->
  pc s < Z.of_nat (length insns) /\ pc s + 1 <= pc s'.
Proof.
  intros Hl. unfold step. destruct (Z.ltb_spec (pc s) (Z.of_nat (length insns))); [|done].
  destruct (insns !! Z.to_nat (pc s)) as [i|] eqn:Hi; [|done].
  pose proof (Forall_lookup_1 _ _ _ _ Hl Hi) as Ha. simpl in Ha. intros Hstep. split; [done|].
  unfold step_insn in *. cbv zeta in *.
  destruct ((_ =? BPF_ALU) || _).
  { unfold step_alu in Hstep. cbv zeta in Hstep. destruct (alu_result _ _ _); simplify_eq/=; lia. }
  destruct (_ || _) eqn:Hj.
  { apply orb_true_iff in Hj. rewrite !Z.eqb_eq in Hj. unfold step_jmp in Hstep. cbv zeta in Hstep.
    destruct (Ha Hj) as [E|E]; rewrite E in Hstep; [done|]. cbn [Z.eqb] in Hstep.
    change (BPF_CALL =? BPF_CALL) with true in Hstep. cbv iota in Hstep.
    unfold step_call in Hstep. repeat case_match; simplify_eq/=; lia. }
  unfold step_ld, step_ldx, step_st, step_stx in Hstep.
  clear Ha Hj. repeat case_match; simplify_eq/=; lia.
Qed.

(** A run that is still going after [n] iterations has advanced [n] times. *)
Lemma straight_exec_bound n insns s s' :
  jump_free insns -> exec_raw n insns s = Running s' ->
  n = O \/ pc s + Z.of_nat n <= Z.of_nat (length insns).
Proof.
  intros Hl. revert s. induction n as [|n IH]; intros s; simpl; [by left|].
  destruct (step insns s) as [s1| | | |] eqn:E; try done. intros Hr%IH.
  destruct (straight_step_pc _ _ _ Hl E). right. destruct Hr; lia.
Qed.

(** ** The division that overflows *)

(** The next instruction divides [i64::MIN] by -1, or takes that remainder. *)
Definition overflowing_division (insns : list EbpfInsn) (s : Vm) : Prop :=
  exists i, insns !! Z.to_nat (pc s) = Some i /\ (cls i = BPF_ALU \/ cls i = BPF_ALU64) /\
    (op i = BPF_DIV \/ op i = BPF_MOD) /\ i64 (EbpfRegs.r (regs s) (dst_reg i)) = - M63 /\
    (if use_imm i then imm i else i64 (EbpfRegs.r (regs s) (src_reg i))) = -1.

Lemma alu_result_none o d s :
  alu_result o d s = None -> (o = BPF_DIV \/ o = BPF_MOD) /\ d = - M63 /\ s = -1.
Proof.
  unfold alu_result. destruct (o =? BPF_ADD); [done|]. destruct (o =? BPF_SUB); [done|].
  destruct (o =? BPF_MUL); [done|]. destruct (Z.eqb_spec o BPF_DIV) as [->|].
  { destruct (s =? 0); [done|]. destruct (_ && _) eqn:E; [|done]. lia. }
  destruct (o =? BPF_OR); [done|]. destruct (o =? BPF_AND); [done|].
  destruct (o =? BPF_LSH); [done|]. destruct (o =? BPF_RSH); [done|].
  destruct (Z.eqb_spec o BPF_MOD) as [->|]; [|repeat case_match; done].
  destruct (s =? 0); [done|]. destruct (_ && _) eqn:E; [|done]. lia.
Qed.

Lemma step_call_no_panic i s : step_call i s <> Panic.
Proof. unfold step_call. repeat case_match; done. Qed.

Lemma step_panic insns s : step insns s = Panic -> overflowing_division insns s.
Proof.
  unfold step. destruct (pc s <? _); [|done].
  destruct (insns !! Z.to_nat (pc s)) as [i|] eqn:Hi; [|done].
  unfold step_insn. cbv zeta. destruct (_ || _) eqn:Hc.
  { apply orb_true_iff in Hc. rewrite !Z.eqb_eq in Hc. unfold step_alu. cbv zeta.
    destruct (alu_result _ _ _) eqn:E; [done|]. apply alu_result_none in E as (Ho & Hd & Hs).
    intros _. exists i. by split_and!. }
  clear Hc. unfold step_jmp, step_ld, step_ldx, step_st, step_stx.
  repeat case_match; try done; by intros ?%step_call_no_panic.
Qed.

(** ** Results *)

(** C1. Memory safety of frame-relative programs: if the structural verifier
    accepts a program whose loads and stores all go through [r10], then in
    every run from an entry state (jumps and interrupts included) no
    instruction accesses memory outside the 512-byte stack or spins on a
    lock, and the tail-call queue is never touched. *)
Theorem verified_frame_safe insns s s' :
  verify insns = true -> frame_relative insns -> entry_state s -> vm_reachable insns s s' ->
  safe_outcome (TAIL_CALL_PROGS (world s)) (step insns s').
Proof.
  intros Hv%verify_iff Hf (Hs & _ & H10) Hr.
  apply frame_step_safe; [done..|]. eapply frame_reachable; eauto. by split_and!.
Qed.

Lemma example_frame : frame_relative example_prog.
Proof.
  unfold frame_relative, example_prog. rewrite !Forall_cons, Forall_nil. split_and!; done.
Qed.

Lemma verified_frame_safe_witness :
  safe_outcome [] (step example_prog (start_vm STACK_SIZE)).
Proof.
  refine (verified_frame_safe example_prog (start_vm STACK_SIZE) (start_vm STACK_SIZE)
            _ example_frame example_entry _).
  - vm_compute. reflexivity.
  - apply rtc_refl.
Defined.


Definition example_total : list EbpfInsn :=
  [mkInsn 0xbf 0 0 0 7; mkInsn 0x63 10 0 (-8) 0; mkInsn 0x3f 0 0 0 2;
   mkInsn 0x61 3 10 (-8) 0; mkInsn 0x1f 0 3 0 1; mkInsn 0x95 0 0 0 0].


(** ** The abstract interpretation cannot index out of bounds *)

Lemma push_merged_worklist sm wl t v sm' wl' (P : Z -> Prop) :
  push_merged (sm, wl) (t, v) = (sm', wl') -> Forall P wl -> P t -> Forall P wl'.
Proof. unfold push_merged. repeat case_match; intros; simplify_eq; auto. Qed.

Lemma fold_push_worklist succs sm wl sm' wl' (P : Z -> Prop) :
  foldl push_merged (sm, wl) succs = (sm', wl') -> Forall P wl ->
  Forall (fun p => P p.1) succs -> Forall P wl'.
Proof.
  revert sm wl. induction succs as [|[t v] succs IH]; intros sm wl; [by intros [= <- <-]|].
  cbn [foldl]. destruct (push_merged (sm, wl) (t, v)) as [sm1 wl1] eqn:E.
  intros Hf Hw [Ht Hs]%Forall_cons. eapply IH; eauto using push_merged_worklist.
Qed.

(** Neither a panic nor a target outside the program. *)
Definition transfer_good (insns : list EbpfInsn) (t : Transfer) : Prop :=
  match t with
  | TReject => True
  | TPanic => False
  | TPush succs => Forall (fun p => in_prog insns p.1) succs
  end.

Lemma fall_good insns nxt post : 0 <= nxt -> transfer_good insns (fall insns nxt post).
Proof.
  intros Hn. unfold fall. simpl. destruct (Z.ltb_spec nxt (Z.of_nat (length insns)));
    rewrite ?Forall_cons, Forall_nil; [|done]. split; [split; simpl; lia | done].
Qed.

Lemma idx_good insns r t : r <= 10 -> transfer_good insns t -> transfer_good insns (idx r t).
Proof. intros Hr Ht. unfold idx. by rewrite (proj2 (Z.ltb_lt r 11)) by lia. Qed.

Lemma jmp_targets_good insns k i :
  well_formed insns -> 0 <= k -> insns !! Z.to_nat k = Some i -> is_jmp i = true ->
  op i <> BPF_EXIT -> op i <> BPF_JA -> op i <> BPF_CALL -> in_prog insns (k + 1).
Proof.
  intros Hwf Hk Hi Hj He Hja Hc. destruct (wf_targets _ Hwf _ _ Hi) as (ts & Hts & Hall).
  unfold insn_targets in Hts. rewrite Hj in Hts. rewrite Z2Nat.id in Hts by done.
  rewrite !(proj2 (Z.eqb_neq _ _)) in Hts by done. simpl in Hts.
  case_match; simplify_eq. apply Forall_cons in Hall as [_ [Ht _]%Forall_cons].
  unfold target_ok in Ht. apply andb_true_iff in Ht as [Ht%negb_true_iff%Z.leb_gt _].
  unfold in_prog. lia.
Qed.

Lemma transfer_is_good insns k i pre :
  well_formed insns -> 0 <= k -> insns !! Z.to_nat k = Some i ->
  transfer_good insns (transfer insns k i pre).
Proof.
  intros Hwf Hk Hi.
  pose proof (check_insn_facts _ _ _ (wf_insns _ Hwf _ _ Hi)) as (Hd & Hs & _).
  pose proof (jmp_targets_good insns k i Hwf Hk Hi) as Hnext.
  assert (Hsrc : (if use_imm i then 0 else src_reg i) <= 10) by (case_match; lia).
  assert (Hf : forall post, transfer_good insns (fall insns (k + 1) post))
    by (intros; apply fall_good; lia).
  unfold transfer. cbv zeta.
  destruct ((_ =? BPF_ALU) || _).
  { unfold transfer_alu. cbv zeta. do 2 (apply idx_good; [done|]). by destruct (_ && _). }
  clear Hsrc.
  destruct (cls i =? BPF_LDX).
  { unfold transfer_ldx. apply idx_good; [done|]. destruct (negb _); [done|]. by apply idx_good. }
  destruct (cls i =? BPF_ST).
  { unfold transfer_st. cbv zeta. apply idx_good; [done|]. by destruct (negb _). }
  destruct (cls i =? BPF_STX).
  { unfold transfer_stx. cbv zeta. apply idx_good; [done|]. destruct (negb _); [done|].
    by apply idx_good. }
  destruct ((_ =? BPF_JMP) || _) eqn:Hj.
  - unfold transfer_jmp. cbv zeta. pose proof (u64_range (k + 1 + off i)) as Hu.
    fold (jump_target k i) in Hu.
    destruct (Z.eqb_spec (op i) BPF_EXIT); [destruct (bool_decide _); [done | by constructor]|].
    destruct (Z.eqb_spec (op i) BPF_CALL); [destruct (_ && _); [done | by destruct (_ =? 4)]|].
    destruct (Z.leb_spec (Z.of_nat (length insns)) (jump_target k i)) as [|Ht]; [by destruct (op i =? BPF_JA)|].
    assert (Ht' : in_prog insns (jump_target k i)) by (split; [apply Hu | done]).
    destruct (Z.eqb_spec (op i) BPF_JA); [by constructor|].
    assert (Hgood : forall a b, transfer_good insns (TPush [(jump_target k i, a); (k + 1, b)]))
      by (intros; constructor; [done|]; constructor; [by apply Hnext | by constructor]).
    unfold idx_cond. repeat case_match; auto using idx_good.
  - destruct (cls i =? BPF_LD); [|done]. unfold transfer_ld. cbv zeta.
    destruct (_ && _); [|done]. case_match; [|done].
    apply idx_good; [done|]. apply fall_good. lia.
Qed.

Lemma tnum_loop_no_panic insns budget sm wl :
  well_formed insns -> Forall (in_prog insns) wl ->
  (tnum_loop budget insns sm wl).1 <> VPanic.
Proof.
  intros Hwf. revert sm wl. induction budget as [|b IH]; intros sm [|cur wl] Hwl; simpl; try done.
  apply Forall_cons in Hwl as [[Hc0 Hc1] Hwl].
  destruct (sm !! cur) as [pre|]; [|by apply IH].
  destruct (lookup_lt_is_Some_2 insns (Z.to_nat cur)) as [i Hi]; [lia|]. rewrite Hi.
  pose proof (transfer_is_good insns cur i pre Hwf Hc0 Hi) as Hg.
  destruct (transfer insns cur i pre) as [| |succs]; [done..|].
  destruct (foldl push_merged (sm, wl) succs) as [sm1 wl1] eqn:E.
  apply IH. by eapply fold_push_worklist.
Qed.

Lemma tnum_verify_total insns : well_formed insns -> tnum_verify insns <> VPanic.
Proof.
  intros Hwf. unfold tnum_verify. destruct (_ || _); [done|].
  pose proof (tnum_loop_no_panic insns (step_budget insns) {[0 := VState.init]} [0] Hwf) as Hp.
  destruct (tnum_loop _ _ _ _) as [[] sm]; simpl in Hp; [by repeat case_match | done|].
  destruct Hp; [|done]. constructor; [|done]. pose proof (wf_length _ Hwf). split; lia.
Qed.

(** Both passes, as the callers run them. *)
Definition admitted (insns : list EbpfInsn) : bool :=
  verify insns && bool_decide (tnum_verify insns = Accept).

(** Run after the structural pass, as every caller does, the abstract
    interpretation never indexes the program or the register array out of
    bounds: it returns a verdict, and a program is either admitted by both
    passes or rejected. *)
Theorem tnum_verify_no_panic insns :
  verify insns = true ->
  tnum_verify insns = if admitted insns then Accept else Reject.
Proof.
  intros Hv. unfold admitted. rewrite Hv. apply verify_iff, tnum_verify_total in Hv.
  by destruct (tnum_verify insns).
Qed.

Lemma tnum_verify_no_panic_witness :
  tnum_verify example_total = if admitted example_total then Accept else Reject.
Proof. apply (tnum_verify_no_panic example_total). vm_compute. reflexivity. Defined.

(** ** Where verifier and interpreter disagree *)

(** [r0 = 0; ja +0; exit]. *)
Definition ja_prog : list EbpfInsn :=
  [mkInsn 0xbf 0 0 0 0; mkInsn 0x05 0 0 0 0; mkInsn 0x95 0 0 0 0].

(** The verifier resolves a jump to [pc + 1 + off], the interpreter to
    [pc + off]: the program [r0 = 0; ja +0; exit] is accepted by both passes
    and its run never ends. *)
Theorem ja_zero_loops s :
  entry_state s ->
  verify ja_prog = true /\ tnum_verify ja_prog = Accept /\
  forall fuel, exists s', exec_raw fuel ja_prog s = Running s'.
Proof.
  intros (_ & Hpc & _). split; [by vm_compute|]. split; [by vm_compute|].
  assert (Hloop : forall n s1, pc s1 = 1 -> exec_raw n ja_prog s1 = Running s1).
  { intros n. induction n as [|n IH]; intros s1 H1; [done|].
    assert (Hs : step ja_prog s1 = Running s1).
    { destruct s1 as [p r st w]. simpl in H1. by subst p. }
    cbn [exec_raw]. rewrite Hs. by apply IH. }
  intros [|n]; [by exists s|]. eexists. cbn [exec_raw].
  replace (step ja_prog s) with
    (Running (next (with_regs s (EbpfRegs.set_r (regs s) 0 0)))).
  - apply Hloop. simpl. lia.
  - unfold step. by rewrite Hpc.
Qed.

Lemma ja_zero_loops_witness :
  exists s', exec_raw 100 ja_prog (start_vm STACK_SIZE) = Running s'.
Proof. apply (ja_zero_loops (start_vm STACK_SIZE)). apply example_entry. Defined.

(** r2 is an unknown byte shifted left by 63, so its largest value passes
    [check_stack_acc] while its smallest, 0, does not. *)
Definition low_base_prog : list EbpfInsn :=
  [mkInsn 0xbf 0 0 0 0; mkInsn 0x71 2 10 (-8) 0; mkInsn 0x7f 2 0 0 63;
   mkInsn 0x73 2 0 (-1) 0; mkInsn 0x95 0 0 0 0].

(** [check_stack_acc] bounds only the largest value of the base register,
    and the interpreter's guard adds offset and size with wrap-around: a
    program both passes accept stores 2 bytes at address 2^64 - 1. *)
Theorem accepted_program_faults :
  verify low_base_prog = true /\ tnum_verify low_base_prog = Accept /\
  exec_raw 10 low_base_prog (start_vm STACK_SIZE) = Fault (M64 - 1) 2.
Proof. split_and!; by vm_compute. Qed.
