(* ===== verification/EbpfSys.v ===== *)
(** * The [bpf] system call

    Model of [kernel/src/ebpf/mod.rs]: creating maps and loading programs. *)

From S2P Require Import Prelude Tnum EbpfMaps EbpfVm EbpfVerifier EbpfCfg EbpfSound EbpfSafe.

Definition BPF_MAP_CREATE : Z := 0.
Definition BPF_PROG_LOAD : Z := 5.

Definition BPF_MAP_TYPE_HASH : Z := 1.
Definition BPF_MAP_TYPE_ARRAY : Z := 2.
Definition BPF_MAP_TYPE_PERF_EVENT_ARRAY : Z := 3.
Definition BPF_MAP_TYPE_RINGBUF : Z := 4.

(** The attribute block with the instruction array it points to ([None] for a
    null pointer). *)
Record BpfAttr := mkBpfAttr {
  map_type : Z;
  key_size : Z;
  value_size : Z;
  max_entries : Z;
  attr_insns : option (list EbpfInsn);
  insn_cnt : Z;
}.

Record EbpfProg := mkEbpfProg { prog_insns : list EbpfInsn }.

Record BpfState := mkBpfState {
  bpf_maps : MapStore;
  PROGRAMS : list (Z * EbpfProg);
}.

Definition bpf_map_create (s : BpfState) (attr : BpfAttr) : Z * BpfState :=
  let create m :=
    let '(map, store) := arc_new (bpf_maps s) m in
    let '(id, store) := register_map store map in
    (u64 id, mkBpfState store (PROGRAMS s)) in
  if map_type attr =? BPF_MAP_TYPE_HASH then
    create (MapHash (HashTable.new (key_size attr) (value_size attr) (max_entries attr)))
  else if map_type attr =? BPF_MAP_TYPE_ARRAY then
    create (MapArray (ArrayMap.new (value_size attr) (max_entries attr)))
  else if map_type attr =? BPF_MAP_TYPE_PERF_EVENT_ARRAY then
    create (MapPerf (mkPerfEventArray (max_entries attr)))
  else if map_type attr =? BPF_MAP_TYPE_RINGBUF then
    create (MapRing (RingBuf.new (max_entries attr)))
  else (Errno.ret Errno.EINVAL, s).

Definition bpf_prog_load (s : BpfState) (attr : BpfAttr) : Z * BpfState :=
  match attr_insns attr with
  | Some user_insns =>
      if insn_cnt attr =? 0 then (Errno.ret Errno.EINVAL, s)
      else
        let insns := take (Z.to_nat (insn_cnt attr)) user_insns in
        if negb (verify insns) then (Errno.ret Errno.EINVAL, s)
        else
          let id := Z.of_nat (length (PROGRAMS s)) in
          (id, mkBpfState (bpf_maps s) (PROGRAMS s ++ [(id, mkEbpfProg insns)]))
  | None => (Errno.ret Errno.EINVAL, s)
  end.

(** [euid] and [cap_sys_admin] are those of the calling process. *)
Definition sys_bpf (euid : Z) (cap_sys_admin : bool) (s : BpfState) (cmd : Z) (attr : BpfAttr)
    : Z * BpfState :=
  if negb (euid =? 0) && negb cap_sys_admin then (Errno.ret Errno.EPERM, s)
  else if cmd =? BPF_MAP_CREATE then bpf_map_create s attr
  else if cmd =? BPF_PROG_LOAD then bpf_prog_load s attr
  else (Errno.ret Errno.ENOSYS, s).

(** ** Invariant *)

(** The fields at their [u32] widths. *)
Definition attr_ok (a : BpfAttr) : Prop :=
  is_u32 (key_size a) /\ is_u32 (value_size a) /\ is_u32 (max_entries a).

(** Programs are numbered by position and verified; maps keep their
    invariants. *)
Definition bpf_inv (s : BpfState) : Prop :=
  ms_inv (bpf_maps s) /\ Forall m_inv (ms_heap (bpf_maps s)) /\
  forall i id p, PROGRAMS s !! i = Some (id, p) ->
    id = Z.of_nat i /\ well_formed (prog_insns p).

Lemma register_new_inv st m id st' :
  ms_inv st -> Forall m_inv (ms_heap st) -> m_inv m ->
  register_map (arc_new st m).2 (arc_new st m).1 = (id, st') ->
  ms_inv st' /\ Forall m_inv (ms_heap st').
Proof.
  intros Hs Hh Hm [= <- <-]. split; simpl.
  - intros i x map. simpl. rewrite lookup_app, length_app. simpl.
    case_match eqn:E; intros Hi.
    + injection Hi as ->. destruct (Hs _ _ _ E). split; [done | lia].
    + apply lookup_ge_None in E. apply list_lookup_singleton_Some in Hi as [Hi [= <- <-]].
      split; lia.
  - apply Forall_app. split; [done|]. by constructor.
Qed.

Lemma new_map_inv a m :
  attr_ok a ->
  m = MapHash (HashTable.new (key_size a) (value_size a) (max_entries a)) \/
  m = MapArray (ArrayMap.new (value_size a) (max_entries a)) \/
  m = MapPerf (mkPerfEventArray (max_entries a)) \/
  m = MapRing (RingBuf.new (max_entries a)) -> m_inv m.
Proof.
  intros (Hk & Hv & Hm). unfold is_u32 in *. intros [-> | [-> | [-> | ->]]].
  - repeat split; simpl; try lia; constructor.
  - repeat split; simpl; [rewrite length_replicate; lia | lia |]. by apply Forall_replicate.
  - done.
  - apply rb_new_inv. lia.
Qed.

Lemma sys_bpf_inv euid cap s cmd attr :
  bpf_inv s -> attr_ok attr -> bpf_inv (sys_bpf euid cap s cmd attr).2.
Proof.
  intros (Hms & Hh & Hp) Ha. unfold sys_bpf. destruct (_ && _); [done|].
  destruct (cmd =? BPF_MAP_CREATE).
  - unfold bpf_map_create. cbv zeta.
    assert (Hc : forall m, m_inv m ->
      bpf_inv (let '(map, store) := arc_new (bpf_maps s) m in
               let '(id, store) := register_map store map in
               (u64 id, mkBpfState store (PROGRAMS s))).2).
    { intros m Hm. destruct (register_map (arc_new (bpf_maps s) m).2 (arc_new (bpf_maps s) m).1)
        as [id st'] eqn:E.
      pose proof (register_new_inv _ _ _ _ Hms Hh Hm E) as [? ?]. injection E as <- <-.
      by split_and!. }
    pose proof (new_map_inv attr) as Hn.
    do 4 (destruct (map_type attr =? _); [apply Hc, Hn; auto 6|]). by split_and!.
  - destruct (cmd =? BPF_PROG_LOAD); [|by split_and!]. unfold bpf_prog_load.
    destruct (attr_insns attr) as [ui|]; [|by split_and!].
    destruct (insn_cnt attr =? 0); [by split_and!|].
    destruct (verify _) eqn:Hv; [|by split_and!]. simpl. split_and!; [done..|].
    intros i id p. simpl. rewrite lookup_app. case_match eqn:E; intros Hi.
    + injection Hi as ->. by apply Hp.
    + apply lookup_ge_None in E. apply list_lookup_singleton_Some in Hi as [Hi [= <- <-]].
      split; [lia | by apply verify_iff].
Qed.

(** ** Results *)

(** The [bpf] system call keeps its state consistent on every command and
    argument: loaded programs are numbered by position and well formed, map
    ids resolve, every map satisfies its invariant; an unprivileged caller
    gets [EPERM] and changes nothing. *)
Theorem sys_bpf_safe euid cap s cmd attr :
  bpf_inv s -> attr_ok attr ->
  bpf_inv (sys_bpf euid cap s cmd attr).2 /\
  (euid <> 0 -> cap = false -> sys_bpf euid cap s cmd attr = (u64 (-1), s)).
Proof.
  intros Hs Ha. split; [by apply sys_bpf_inv|]. intros He ->. unfold sys_bpf.
  by rewrite (proj2 (Z.eqb_neq _ _)).
Qed.

Lemma sys_bpf_safe_witness :
  bpf_inv (sys_bpf 0 false (mkBpfState (mkMapStore [] []) []) BPF_MAP_CREATE
    (mkBpfAttr BPF_MAP_TYPE_RINGBUF 4 4 300 None 0)).2.
Proof.
  apply (sys_bpf_safe 0 false (mkBpfState (mkMapStore [] []) []) BPF_MAP_CREATE
    (mkBpfAttr BPF_MAP_TYPE_RINGBUF 4 4 300 None 0)).
  - split_and!; [|constructor|]; intros i id p Hi; destruct i; discriminate Hi.
  - split_and!; simpl; split; lia.
Defined.

(** [bpf_prog_load] runs only the structural pass: it loads a program that
    the abstract interpretation rejects for storing outside the stack. *)
Theorem prog_load_skips_tnum :
  let attr := mkBpfAttr 0 0 0 0
    (Some [mkInsn 0x63 10 0 8 0; mkInsn 0xbf 0 0 0 0; mkInsn 0x95 0 0 0 0]) 3 in
  (bpf_prog_load (mkBpfState (mkMapStore [] []) []) attr).1 = 0 /\
  tnum_verify [mkInsn 0x63 10 0 8 0; mkInsn 0xbf 0 0 0 0; mkInsn 0x95 0 0 0 0] = Reject.
Proof. split; by vm_compute. Qed.
