(* ===== verification/Ash.v ===== *)
(** * Application-specific handlers

    Model of [kernel/src/ash]: handlers are eBPF programs that user processes
    attach to kernel events.  [verifier.rs] admits them, [manager.rs] keeps
    them, [runtime.rs] runs them, [hooks] dispatches events to them and
    [syscalls.rs] is the interface to user processes. *)

From S2P Require Import Prelude Tnum EbpfMaps EbpfVm EbpfVerifier EbpfCfg EbpfSound EbpfSafe.

(** ** Data *)

Inductive Protocol := Tcp | Udp | Icmp | Raw.

#[export] Instance Protocol_eq_dec : EqDecision Protocol.
Proof. solve_decision. Defined.

Module Protocol.

Definition to_u8 (p : Protocol) : Z :=
  match p with Tcp => 6 | Udp => 17 | Icmp => 1 | Raw => 0 end.

Definition from_u8 (v : Z) : option Protocol :=
  if v =? 6 then Some Tcp
  else if v =? 17 then Some Udp
  else if v =? 1 then Some Icmp
  else if v =? 0 then Some Raw
  else None.

End Protocol.

Inductive HookPoint :=
  | NetReceive (interface port : Z) (protocol : Protocol)
  | NetTransmit (interface port : Z) (protocol : Protocol)
  | SyscallEntry (syscall_num : Z)
  | SyscallExit (syscall_num : Z)
  | TimerFired (timer_id : Z)
  | SignalDelivery (signal : Z)
  | MessageReceive (channel : Z).

#[export] Instance HookPoint_eq_dec : EqDecision HookPoint.
Proof. solve_decision. Defined.

Inductive AshError :=
  | MemoryViolation | CycleLimitExceeded | InvalidInstruction
  | VerifierRejected | NotFound | Unknown.

#[export] Instance AshError_eq_dec : EqDecision AshError.
Proof. solve_decision. Defined.

Inductive AshResult := Continue | Handled | Drop | Modified | Error (e : AshError).

#[export] Instance AshResult_eq_dec : EqDecision AshResult.
Proof. solve_decision. Defined.

Record AshHandler := mkAshHandler {
  h_id : Z;
  h_pid : Z;
  h_bytecode : list Z;
  h_hook_point : HookPoint;
  h_context_mask : Z;
  h_max_insns : Z;
  h_expiry : option Z;
}.

Record VerifiedAsh := mkVerifiedAsh {
  va_bytecode : list Z;
  va_insns : list EbpfInsn;
  va_jited : list Z;
  va_max_cycles : Z;
  va_context_size : Z;
  va_memory_budget : Z;
}.

Record AshStats := mkAshStats {
  st_total_insns : Z;
  st_total_events : Z;
  st_total_dropped : Z;
  st_total_handled : Z;
  st_total_modified : Z;
  st_total_errors : Z;
}.

(** ** [verifier.rs] *)

Definition ASH_MAX_INSNS : Z := 512.
Definition ASH_MAX_MEMORY_BUDGET : Z := 512.

(** [size_of::<EbpfInsn>()]: the [repr(C)] layout pads [off] to offset 4 and
    [imm] to offset 8. *)
Definition INSN_SIZE : Z := 12.

Definition i16 (x : Z) : Z := let y := u16 x in if y <? 32768 then y else y - 65536.

(** One instruction read from its twelve bytes. *)
Definition decode_insn (b : list Z) : EbpfInsn :=
  let byte n := default 0 (b !! n) in
  mkInsn (byte 0%nat) (byte 1%nat) (byte 2%nat)
    (i16 (le_value (slice 4 2 b))) (i32 (le_value (slice 8 4 b))).

(** [slice::from_raw_parts(bytecode as *const EbpfInsn, insn_count)]. *)
Fixpoint decode_insns (count : nat) (b : list Z) : list EbpfInsn :=
  match count with
  | O => []
  | S count => decode_insn (take 12 b) :: decode_insns count (drop 12 b)
  end.

Definition size_of_load (code : Z) : Z :=
  let s := Z.land code 0x18 in
  if s =? 0x00 then 8
  else if s =? 0x08 then 4
  else if s =? 0x10 then 2
  else if s =? 0x18 then 1
  else 0.

Definition hook_context_size (hook : HookPoint) : Z :=
  match hook with
  | NetReceive _ _ _ | NetTransmit _ _ _ => 32
  | SyscallEntry _ | SyscallExit _ => 64
  | TimerFired _ => 16
  | SignalDelivery _ => 16
  | MessageReceive _ => 32
  end.

Definition is_hook_compatible (insns : list EbpfInsn) (hook : HookPoint) : bool :=
  let ctx_size := hook_context_size hook in
  forallb (fun i =>
    if (cls i =? 0x01) && (src_reg i =? 1) then
      let addr := off i in
      let end_ := addr + size_of_load (code i) in
      negb ((addr <? 0) || (ctx_size <? end_))
    else true) insns.

(** [Result<VerifiedAsh, AshResult>], or the index panic of [tnum_verify]. *)
Inductive VerifyResult := VOk (v : VerifiedAsh) | VErr (e : AshResult) | VAbort.

Definition verify_handler (handler : AshHandler) : VerifyResult :=
  let rejected := VErr (Error VerifierRejected) in
  let len := Z.of_nat (length (h_bytecode handler)) in
  if (len =? 0) || (ASH_MAX_INSNS * INSN_SIZE <? len) then rejected
  else
    let insn_count := len / INSN_SIZE in
    if ASH_MAX_INSNS <? insn_count then rejected
    else
      let insns := decode_insns (Z.to_nat insn_count) (h_bytecode handler) in
      if negb (verify insns) then rejected
      else
        match tnum_verify insns with
        | VPanic => VAbort
        | Reject => rejected
        | Accept =>
            if negb (is_hook_compatible insns (h_hook_point handler)) then rejected
            else
              VOk (mkVerifiedAsh (h_bytecode handler) insns []
                (Z.min (Z.max (h_max_insns handler) ASH_MAX_INSNS) 100000)
                (hook_context_size (h_hook_point handler))
                ASH_MAX_MEMORY_BUDGET)
        end.

(** ** [manager.rs] *)

Record AshManager := mkAshManager {
  am_handlers : gmap Z AshHandler;
  am_verified : gmap Z VerifiedAsh;
  am_next_id : Z;
  am_stats : AshStats;
}.

Module Manager.

Definition new : AshManager := mkAshManager ∅ ∅ 1 (mkAshStats 0 0 0 0 0 0).

Definition is_dup (mgr : AshManager) (pid : Z) (bytecode : list Z) (hook : HookPoint) : bool :=
  existsb (fun p => bool_decide (h_pid p.2 = pid) && bool_decide (h_bytecode p.2 = bytecode)
                    && bool_decide (h_hook_point p.2 = hook)) (map_to_list (am_handlers mgr)).

(** The id is consumed even when registration fails. *)
Definition register (mgr : AshManager) (pid : Z) (bytecode : list Z) (hook : HookPoint)
    (max_insns : Z) (expiry : option Z) : option (Z + AshResult) * AshManager :=
  let id := am_next_id mgr in
  let mgr1 := mkAshManager (am_handlers mgr) (am_verified mgr) (u64 (id + 1)) (am_stats mgr) in
  if is_dup mgr1 pid bytecode hook then (Some (inr (Error Unknown)), mgr1)
  else
    let handler := mkAshHandler id pid bytecode hook 0 max_insns expiry in
    match verify_handler handler with
    | VAbort => (None, mgr1)
    | VErr e => (Some (inr e), mgr1)
    | VOk v =>
        (Some (inl id),
         mkAshManager (<[id := handler]> (am_handlers mgr1)) (<[id := v]> (am_verified mgr1))
           (am_next_id mgr1) (am_stats mgr1))
    end.

Definition remove (mgr : AshManager) (id : Z) : AshManager :=
  mkAshManager (base.delete id (am_handlers mgr)) (base.delete id (am_verified mgr))
    (am_next_id mgr) (am_stats mgr).

Definition unregister (mgr : AshManager) (handler_id pid : Z) : (unit + AshResult) * AshManager :=
  match am_handlers mgr !! handler_id with
  | None => (inr (Error NotFound), mgr)
  | Some handler =>
      if negb (h_pid handler =? pid) then (inr (Error Unknown), mgr)
      else (inl tt, remove mgr handler_id)
  end.

(** The keys of the [BTreeMap] entries satisfying [f], in key order. *)
Definition ids_where (f : AshHandler -> bool) (mgr : AshManager) : list Z :=
  merge_sort Z.le (List.filter (fun p => f p.2) (map_to_list (am_handlers mgr))).*1.

Definition unregister_all (mgr : AshManager) (pid : Z) : AshManager :=
  foldl remove mgr (ids_where (fun h => h_pid h =? pid) mgr).

Definition hook_matches (registered triggered : HookPoint) : bool :=
  match registered, triggered with
  | NetReceive _ rport rp, NetReceive _ tport tp =>
      (bool_decide (rp = tp) || (rport =? 0)) && ((rport =? 0) || (rport =? tport))
  | SyscallEntry r, SyscallEntry t => r =? t
  | SyscallExit r, SyscallExit t => r =? t
  | TimerFired r, TimerFired t => r =? t
  | SignalDelivery r, SignalDelivery t => r =? t
  | MessageReceive r, MessageReceive t => r =? t
  | _, _ => false
  end.

Definition lookup_ids (mgr : AshManager) (hook : HookPoint) : list Z :=
  ids_where (fun h => hook_matches (h_hook_point h) hook) mgr.

Definition get_verified (mgr : AshManager) (id : Z) : option VerifiedAsh := am_verified mgr !! id.

Definition record_execution (mgr : AshManager) (result : AshResult) (cycles : Z) : AshManager :=
  let s := am_stats mgr in
  let bump b x := if b : bool then u64 (x + 1) else x in
  mkAshManager (am_handlers mgr) (am_verified mgr) (am_next_id mgr)
    (mkAshStats (u64 (st_total_insns s + cycles)) (u64 (st_total_events s + 1))
       (bump (match result with Drop => true | _ => false end) (st_total_dropped s))
       (bump (match result with Handled => true | _ => false end) (st_total_handled s))
       (bump (match result with Modified => true | _ => false end) (st_total_modified s))
       (bump (match result with Error _ => true | _ => false end) (st_total_errors s))).

Definition process_stats (mgr : AshManager) : AshStats := am_stats mgr.

End Manager.

(** ** [runtime.rs] *)

Definition map_return (val : Z) : AshResult :=
  if val =? 0 then Continue
  else if val =? 1 then Handled
  else if val =? 2 then Drop
  else if val =? 3 then Modified
  else Error Unknown.

(** Registers and stack of the interpreter path.  [context] and [payload] are
    the addresses of the two buffers; every other register, the frame pointer
    included, is zero. *)
Definition handler_vm (context payload payload_len : Z) (w : World) : Vm :=
  let rs := EbpfRegs.set_r EbpfRegs.new 1 context in
  let rs := EbpfRegs.set_r rs 2 payload in
  let rs := EbpfRegs.set_r rs 3 payload_len in
  mkVm 0 rs (replicate (Z.to_nat STACK_SIZE) 0) w.

(** What running a handler does: its result and the new kernel state, or how
    the interpreter went wrong; [HFuel] when [fuel] iterations were not
    enough. *)
Inductive HandlerRun :=
  | HReturn (r : AshResult) (w : World)
  | HFault (addr size : Z)
  | HPanic
  | HHang
  | HFuel.

Section runtime.

(** Running native code: the return value and the kernel state it leaves, or
    [None] when no executable region could be set up.  What machine code does
    is the processor's business, so it is a parameter. *)
Context (execute_jit : VerifiedAsh -> Z -> Z -> Z -> World -> option (Z * World)).

Definition execute_interp (fuel : nat) (handler : VerifiedAsh)
    (context payload payload_len : Z) (w : World) : HandlerRun :=
  match exec_raw fuel (va_insns handler) (handler_vm context payload payload_len w) with
  | Done ret s => HReturn (map_return ret) (world s)
  | Fault a n => HFault a n
  | Panic => HPanic
  | Hang => HHang
  | Running _ => HFuel
  end.

Definition execute_handler (fuel : nat) (handler : VerifiedAsh)
    (context payload payload_len : Z) (w : World) : HandlerRun :=
  match va_jited handler with
  | [] => execute_interp fuel handler context payload payload_len w
  | _ =>
      match execute_jit handler context payload payload_len w with
      | Some (result, w') => HReturn (map_return result) w'
      | None => execute_interp fuel handler context payload payload_len w
      end
  end.

(** ** [hooks] *)

(** The dispatch loop the four hooks share: run the handlers in order until
    one returns [Handled] or [Drop]; a handler that has gone is skipped. *)
Fixpoint run_handlers (fuel : nat) (mgr : AshManager) (ids : list Z)
    (context payload payload_len : Z) (result : AshResult) (w : World) : HandlerRun :=
  match ids with
  | [] => HReturn result w
  | id :: ids =>
      match Manager.get_verified mgr id with
      | None => run_handlers fuel mgr ids context payload payload_len result w
      | Some handler =>
          match execute_handler fuel handler context payload payload_len w with
          | HReturn Handled w' => HReturn Handled w'
          | HReturn Drop w' => HReturn Drop w'
          | HReturn r w' => run_handlers fuel mgr ids context payload payload_len r w'
          | o => o
          end
      end
  end.

Definition dispatch (fuel : nat) (mgr : AshManager) (hook : HookPoint)
    (context payload payload_len : Z) (w : World) : HandlerRun :=
  match Manager.lookup_ids mgr hook with
  | [] => HReturn Continue w
  | ids => run_handlers fuel mgr ids context payload payload_len Continue w
  end.

(** [context] is the address the context struct gets on the kernel stack. *)
Definition hook_net_receive fuel mgr (interface protocol src_port dst_port : Z)
    (context packet packet_len : Z) (w : World) : HandlerRun :=
  dispatch fuel mgr
    (NetReceive interface dst_port (default Raw (Protocol.from_u8 protocol)))
    context packet packet_len w.

Definition hook_net_transmit fuel mgr (interface protocol src_port dst_port : Z)
    (context packet packet_len : Z) (w : World) : HandlerRun :=
  dispatch fuel mgr
    (NetTransmit interface dst_port (default Raw (Protocol.from_u8 protocol)))
    context packet packet_len w.

Definition hook_syscall_entry fuel mgr (num : Z) (context dummy : Z) (w : World) : HandlerRun :=
  dispatch fuel mgr (SyscallEntry num) context dummy 8 w.

Definition hook_syscall_exit fuel mgr (num : Z) (context dummy : Z) (w : World) : HandlerRun :=
  dispatch fuel mgr (SyscallExit num) context dummy 8 w.

End runtime.

(** ** [syscalls.rs] *)

(** The fields of the current process the system calls read. *)
Record AshProc := mkAshProc { p_id : Z; p_euid : Z; p_cap_effective : Z }.

Definition ash_check_priv (current : option AshProc) : Z :=
  match current with
  | None => 0
  | Some p =>
      if (p_euid p =? 0) || Z.testbit (p_cap_effective p) 13 || Z.testbit (p_cap_effective p) 21
      then 0 else Errno.ret Errno.EPERM
  end.

Definition current_pid (current : option AshProc) : Z := default 0 (p_id <$> current).

Definition parse_hook_info (info : Z) : HookPoint :=
  let hook_type := Z.land info 0xff in
  let protocol := Z.land (Z.shiftr info 8) 0xff in
  let port := Z.land (Z.shiftr info 16) 0xffff in
  let extra := u32 (Z.shiftr info 32) in
  let proto := default Raw (Protocol.from_u8 protocol) in
  if hook_type =? 0 then NetReceive 0 port proto
  else if hook_type =? 1 then NetTransmit 0 port proto
  else if hook_type =? 2 then SyscallEntry port
  else if hook_type =? 3 then SyscallExit port
  else if hook_type =? 4 then TimerFired extra
  else if hook_type =? 5 then SignalDelivery port
  else if hook_type =? 6 then MessageReceive extra
  else NetReceive 0 0 Raw.

(** [user_bytes] is what [copy_from_user] of [len] bytes yields; [None] when
    it fails.  The result is [None] on a panic. *)
Definition sys_ash_register (current : option AshProc) (mgr : AshManager)
    (bytecode_ptr len : Z) (user_bytes : option (list Z)) (hook_info : Z)
    : option Z * AshManager :=
  if (bytecode_ptr =? 0) || (len =? 0) then (Some (Errno.ret Errno.EINVAL), mgr)
  else
    let priv_check := ash_check_priv current in
    if negb (priv_check =? 0) then (Some priv_check, mgr)
    else
      match user_bytes with
      | None => (Some (Errno.ret Errno.EFAULT), mgr)
      | Some bytecode =>
          match Manager.register mgr (current_pid current) bytecode (parse_hook_info hook_info)
                  (u32 (len / INSN_SIZE)) None with
          | (None, mgr') => (None, mgr')
          | (Some (inl id), mgr') => (Some id, mgr')
          | (Some (inr (Error VerifierRejected)), mgr') => (Some (Errno.ret Errno.EINVAL), mgr')
          | (Some (inr _), mgr') => (Some (Errno.ret Errno.ENOMEM), mgr')
          end
      end.

Definition sys_ash_unregister (current : option AshProc) (mgr : AshManager) (handler_id : Z)
    : Z * AshManager :=
  match Manager.unregister mgr handler_id (current_pid current) with
  | (inl _, mgr') => (0, mgr')
  | (inr _, mgr') => (Errno.ret Errno.ENOENT, mgr')
  end.

Definition sys_ash_control (current : option AshProc) (mgr : AshManager) (enable : Z)
    : Z * AshManager :=
  (0, if enable =? 0 then Manager.unregister_all mgr (current_pid current) else mgr).

(** ** Runs of the manager *)

Inductive mgr_step : AshManager -> AshManager -> Prop :=
  | step_register mgr pid bytecode hook max_insns expiry :
      mgr_step mgr (Manager.register mgr pid bytecode hook max_insns expiry).2
  | step_unregister mgr id pid : mgr_step mgr (Manager.unregister mgr id pid).2
  | step_unregister_all mgr pid : mgr_step mgr (Manager.unregister_all mgr pid)
  | step_record mgr r cycles : mgr_step mgr (Manager.record_execution mgr r cycles).

Definition mgr_reachable : AshManager -> Prop := rtc mgr_step Manager.new.

(** Two registrations that the duplicate check tells apart. *)
Definition same_registration (h1 h2 : AshHandler) : Prop :=
  h_pid h1 = h_pid h2 /\ h_bytecode h1 = h_bytecode h2 /\ h_hook_point h1 = h_hook_point h2.

Record mgr_inv (mgr : AshManager) : Prop := {
  mgr_verified id h : am_handlers mgr !! id = Some h ->
    h_id h = id /\ exists v, am_verified mgr !! id = Some v /\ verify_handler h = VOk v;
  mgr_no_stray id v : am_verified mgr !! id = Some v -> is_Some (am_handlers mgr !! id);
  mgr_unique id1 id2 h1 h2 :
    am_handlers mgr !! id1 = Some h1 -> am_handlers mgr !! id2 = Some h2 ->
    same_registration h1 h2 -> id1 = id2;
}.

(** What admission guarantees about a handler. *)
Lemma verify_handler_VOk h v :
  verify_handler h = VOk v ->
  verify (va_insns v) = true /\ tnum_verify (va_insns v) = Accept /\
  is_hook_compatible (va_insns v) (h_hook_point h) = true /\ va_jited v = [] /\
  (length (va_insns v) <= 512)%nat.
Proof.
  unfold verify_handler. cbv zeta. destruct (_ || _) eqn:Hlen; [done|].
  destruct (Z.ltb_spec ASH_MAX_INSNS (Z.of_nat (length (h_bytecode h)) / INSN_SIZE)); [done|].
  set (n := Z.to_nat _). destruct (verify _) eqn:Hv; [|done].
  destruct (tnum_verify _) eqn:Ht; [|done..].
  destruct (is_hook_compatible _ _) eqn:Hc; [|done].
  intros [= <-]. simpl. split_and!; try done.
  assert (Hd : forall k b, length (decode_insns k b) = k).
  { intros k. induction k as [|k IH]; intros b; simpl; [done|]. by rewrite IH. }
  rewrite Hd. unfold ASH_MAX_INSNS in *. unfold n. lia.
Qed.

Lemma verify_handler_total h : verify_handler h <> VAbort.
Proof.
  unfold verify_handler. cbv zeta. destruct (_ || _); [done|]. destruct (_ <? _); [done|].
  destruct (verify _) eqn:Hv; [|done]. simpl.
  apply verify_iff, tnum_verify_total in Hv.
  destruct (tnum_verify _); [|done..]. by destruct (negb _).
Qed.

Lemma is_dup_spec mgr pid bytecode hook :
  Manager.is_dup mgr pid bytecode hook = true <->
  exists id h, am_handlers mgr !! id = Some h /\
    h_pid h = pid /\ h_bytecode h = bytecode /\ h_hook_point h = hook.
Proof.
  unfold Manager.is_dup. rewrite existsb_exists. split.
  - intros ([id h] & Hin & Hb). apply list_elem_of_In, elem_of_map_to_list in Hin.
    rewrite !andb_true_iff, !bool_decide_eq_true in Hb. simpl in Hb. naive_solver.
  - intros (id & h & Hh & <- & <- & <-). exists (id, h). split.
    + by apply list_elem_of_In, elem_of_map_to_list.
    + by rewrite !bool_decide_eq_true_2.
Qed.

Lemma elem_of_ids_where f mgr id :
  id ∈ Manager.ids_where f mgr <-> exists h, am_handlers mgr !! id = Some h /\ f h = true.
Proof.
  unfold Manager.ids_where. rewrite merge_sort_Permutation, list_elem_of_fmap. split.
  - intros ([i h] & -> & Hin). apply list_elem_of_In, List.filter_In in Hin as [Hin Hf].
    apply list_elem_of_In, elem_of_map_to_list in Hin. eauto.
  - intros (h & Hh & Hf). exists (id, h). split; [done|].
    apply list_elem_of_In, List.filter_In. split; [|done].
    by apply list_elem_of_In, elem_of_map_to_list.
Qed.

Lemma foldl_remove_lookup mgr ids id :
  am_handlers (foldl Manager.remove mgr ids) !! id =
    (if decide (id ∈ ids) then None else am_handlers mgr !! id) /\
  am_verified (foldl Manager.remove mgr ids) !! id =
    (if decide (id ∈ ids) then None else am_verified mgr !! id).
Proof.
  revert mgr. induction ids as [|i ids IH]; intros mgr; simpl.
  { done. }
  destruct (IH (Manager.remove mgr i)) as [-> ->]. simpl.
  destruct (decide (id = i)) as [->|].
  - rewrite !lookup_delete_eq. repeat case_decide; set_solver.
  - rewrite !lookup_delete_ne by done. repeat case_decide; set_solver.
Qed.

Lemma mgr_inv_sub mgr mgr' :
  mgr_inv mgr ->
  (forall id h, am_handlers mgr' !! id = Some h -> am_handlers mgr !! id = Some h /\
     am_verified mgr' !! id = am_verified mgr !! id) ->
  (forall id v, am_verified mgr' !! id = Some v -> is_Some (am_handlers mgr' !! id)) ->
  mgr_inv mgr'.
Proof.
  intros Hinv Hsub Hstray. split; [|done|].
  - intros id h Hh. destruct (Hsub _ _ Hh) as [Hh' ->]. by apply (mgr_verified _ Hinv).
  - intros id1 id2 h1 h2 H1%Hsub H2%Hsub Hs. destruct H1, H2. by eapply (mgr_unique _ Hinv).
Qed.

Lemma remove_inv mgr id : mgr_inv mgr -> mgr_inv (Manager.remove mgr id).
Proof.
  intros Hinv. apply (mgr_inv_sub mgr); [done | |]; simpl.
  - intros i h. rewrite lookup_delete_Some. intros [Hne Hh]. by rewrite lookup_delete_ne.
  - intros i v. rewrite lookup_delete_Some. intros [Hne Hv]. rewrite lookup_delete_ne by done.
    by eapply (mgr_no_stray _ Hinv).
Qed.

Lemma register_inv mgr pid bc hook mi ex :
  mgr_inv mgr -> mgr_inv (Manager.register mgr pid bc hook mi ex).2.
Proof.
  intros Hinv. unfold Manager.register. cbv zeta.
  set (mgr1 := mkAshManager _ _ (u64 _) _).
  assert (Hinv1 : mgr_inv mgr1).
  { apply (mgr_inv_sub mgr); [done | done|]. apply (mgr_no_stray _ Hinv). }
  destruct (Manager.is_dup mgr1 pid bc hook) eqn:Hdup; [done|].
  set (h := mkAshHandler _ _ _ _ _ _ _). destruct (verify_handler h) as [v| |] eqn:Hv; [|done..].
  assert (Hfresh : forall id h', am_handlers mgr !! id = Some h' -> ~ same_registration h h').
  { intros id h' Hh' (Hp & Hb & Hk). apply not_true_iff_false in Hdup. apply Hdup, is_dup_spec.
    exists id, h'. split; [done|]. simpl in *. by subst. }
  split; simpl.
  - intros id h'. rewrite lookup_insert. case_decide as E.
    + intros [= <-]. subst. split; [done|]. exists v. by rewrite lookup_insert_eq.
    + intros Hh'. rewrite lookup_insert_ne by done. by apply (mgr_verified _ Hinv).
  - intros id v'. rewrite !lookup_insert. case_decide; [done|]. apply (mgr_no_stray _ Hinv).
  - intros id1 id2 h1 h2. rewrite !lookup_insert. repeat case_decide; intros H1 H2 Hs; subst; try done;
      simplify_eq.
    + by destruct (Hfresh _ _ H2).
    + destruct (Hfresh _ _ H1). by destruct Hs as (? & ? & ?).
    + by eapply (mgr_unique _ Hinv).
Qed.

Lemma mgr_step_inv mgr mgr' : mgr_inv mgr -> mgr_step mgr mgr' -> mgr_inv mgr'.
Proof.
  intros Hinv Hstep. destruct Hstep as [mgr pid bc hook mi ex|mgr id pid|mgr pid|mgr r c].
  - by apply register_inv.
  - unfold Manager.unregister. destruct (am_handlers mgr !! id); [|done].
    destruct (negb _); [done|]. by apply remove_inv.
  - unfold Manager.unregister_all. revert mgr Hinv. intros mgr.
    generalize (Manager.ids_where (fun h => h_pid h =? pid) mgr). intros ids.
    revert mgr. induction ids as [|i ids IH]; intros mgr Hinv; simpl; [done|].
    by apply IH, remove_inv.
  - apply (mgr_inv_sub mgr); [done | done|]. apply (mgr_no_stray _ Hinv).
Qed.

Lemma mgr_reachable_inv mgr : mgr_reachable mgr -> mgr_inv mgr.
Proof.
  intros Hr. assert (H0 : mgr_inv Manager.new).
  { split; simpl; intros; by rewrite lookup_empty in *. }
  revert H0. induction Hr as [|m1 m2 m3 Hs _ IH]; eauto using mgr_step_inv.
Qed.

(** ** The stack of a handler *)

(** Every store through the frame pointer at a negative offset. *)
Definition frame_store (i : EbpfInsn) : Prop :=
  insn_ok i /\ cls i = BPF_STX /\ dst_reg i = 10 /\ -512 <= off i < 0.

Lemma handler_vm_fp c p n w : EbpfRegs.r (regs (handler_vm c p n w)) 10 = 0.
Proof. done. Qed.

Lemma handler_vm_ok c p n w :
  is_u64 c -> is_u64 p -> is_u64 n -> world_ok w -> vm_ok (handler_vm c p n w).
Proof.
  intros Hc Hp Hn Hw. unfold vm_ok, handler_vm. cbn [pc regs stack world].
  split_and!; [lia | | | done].
  - repeat apply regs_set_r_ok; try done. split; [done|]. apply Forall_replicate. split; lia.
  - split; [done|]. apply Forall_replicate. split; lia.
Qed.

(** With [r10 = 0] such a store is at an address just below 2^64. *)
Lemma zero_frame_store insns i s :
  frame_store i -> EbpfRegs.r (regs s) 10 = 0 ->
  off i + size_bytes (size_bits i) <= 0 ->
  step_insn insns i s =
    if off i + size_bytes (size_bits i) =? 0
    then Fault (M64 + off i) (size_bytes (size_bits i)) else Running (next s).
Proof.
  intros (Hok & Hc & Hd & Ho) H10 Hle. unfold step_insn. rewrite Hc. simpl.
  unfold step_stx. cbv zeta. rewrite Hd, H10.
  pose proof (size_bytes_range (size_bits i)) as Hn. set (n := size_bytes _) in *.
  assert (Ha : u64 (0 + u64 (off i)) = M64 + off i).
  { rewrite Z.add_0_l, (u64_small (u64 _)) by apply u64_range. unfold u64.
    rewrite <- (Z.mod_add _ 1) by lia. rewrite Z.mod_small; lia. }
  rewrite Ha. unfold store. rewrite (proj2 (Z.leb_gt _ _)) by (unfold STACK_SIZE; lia).
  destruct (Z.eqb_spec (off i + n) 0) as [E|E].
  - replace (M64 + off i + n) with M64 by lia. done.
  - rewrite u64_small by (split; lia). by rewrite (proj2 (Z.ltb_lt _ _)) by (unfold STACK_SIZE; lia).
Qed.

(** ** Results *)

(** The handler manager's invariant holds after any sequence of
    registrations, removals and executions: the two tables have the same
    ids, every stored handler has passed both verifier passes and the hook
    check and carries no native code, and no process has the same program
    attached to the same hook twice. *)
Theorem ash_manager_invariant mgr :
  mgr_reachable mgr ->
  mgr_inv mgr /\
  forall id v, Manager.get_verified mgr id = Some v ->
    admitted (va_insns v) = true /\ va_jited v = [] /\ (length (va_insns v) <= 512)%nat /\
    exists h, am_handlers mgr !! id = Some h /\
      is_hook_compatible (va_insns v) (h_hook_point h) = true.
Proof.
  intros Hr. pose proof (mgr_reachable_inv mgr Hr) as Hinv. split; [done|].
  intros id v Hv. destruct (mgr_no_stray _ Hinv id v Hv) as [h Hh].
  destruct (mgr_verified _ Hinv id h Hh) as (_ & v' & Hv' & Hok).
  unfold Manager.get_verified in Hv. simplify_eq.
  apply verify_handler_VOk in Hok as (H1 & H2 & H3 & H4 & H5).
  split_and!; eauto. unfold admitted. rewrite H1, H2. done.
Qed.

(** [r0 = 0; *(r10 - 8) = r0; exit] in the twelve-byte encoding. *)
Definition spill_bytes : list Z :=
  [0xbf; 0; 0; 0; 0; 0; 0; 0; 0; 0; 0; 0;
   0x63; 10; 0; 0; 0xf8; 0xff; 0; 0; 0; 0; 0; 0;
   0x95; 0; 0; 0; 0; 0; 0; 0; 0; 0; 0; 0].

Definition spill_mgr : AshManager :=
  (Manager.register Manager.new 1 spill_bytes (SyscallEntry 0) 3 None).2.

Lemma ash_manager_invariant_witness : mgr_inv spill_mgr.
Proof.
  apply (ash_manager_invariant spill_mgr). apply rtc_once. apply step_register.
Defined.

(** Only the owner removes a handler: [unregister] by another process
    changes nothing, by the owner it removes exactly that id; and
    [unregister_all] removes exactly the handlers of the process. *)
Theorem ash_ownership mgr id pid h :
  am_handlers mgr !! id = Some h ->
  (h_pid h <> pid -> Manager.unregister mgr id pid = (inr (Error Unknown), mgr)) /\
  (h_pid h = pid -> Manager.unregister mgr id pid = (inl tt, Manager.remove mgr id)) /\
  (forall id', am_handlers (Manager.unregister_all mgr pid) !! id' =
     match am_handlers mgr !! id' with
     | Some h' => if h_pid h' =? pid then None else Some h'
     | None => None
     end).
Proof.
  intros Hh. unfold Manager.unregister. rewrite Hh. split_and!.
  - intros Hne. by rewrite (proj2 (Z.eqb_neq _ _)).
  - intros <-. by rewrite Z.eqb_refl.
  - intros id'. unfold Manager.unregister_all.
    rewrite (proj1 (foldl_remove_lookup _ _ _)). case_decide as E.
    + apply elem_of_ids_where in E as (h' & -> & ->). done.
    + destruct (am_handlers mgr !! id') as [h'|] eqn:Hh'; [|done].
      destruct (h_pid h' =? pid) eqn:Hp; [|done]. destruct E. apply elem_of_ids_where. eauto.
Qed.

Lemma ash_ownership_witness :
  Manager.unregister spill_mgr 1 2 = (inr (Error Unknown), spill_mgr).
Proof.
  apply (ash_ownership spill_mgr 1 2
    (mkAshHandler 1 1 spill_bytes (SyscallEntry 0) 0 3 None)); [vm_compute; reflexivity|].
  simpl. lia.
Defined.

(** An event is dispatched to exactly the handlers whose hook matches, in
    increasing id order without repetition; in a reachable manager each of
    them has a verified program. *)
Theorem ash_lookup_ids mgr hook :
  mgr_reachable mgr ->
  Sorted Z.le (Manager.lookup_ids mgr hook) /\ NoDup (Manager.lookup_ids mgr hook) /\
  forall id, id ∈ Manager.lookup_ids mgr hook <->
    exists h v, am_handlers mgr !! id = Some h /\ Manager.get_verified mgr id = Some v /\
      Manager.hook_matches (h_hook_point h) hook = true.
Proof.
  intros Hr. pose proof (mgr_reachable_inv mgr Hr) as Hinv. unfold Manager.lookup_ids.
  split_and!.
  - apply (Sorted_merge_sort Z.le).
  - unfold Manager.ids_where. rewrite merge_sort_Permutation.
    eapply sublist_NoDup; [apply (NoDup_fst_map_to_list (am_handlers mgr))|].
    apply fmap_sublist. generalize (map_to_list (am_handlers mgr)). intros l.
    induction l as [|x l IH]; simpl; [constructor|]. case_match; by constructor.
  - intros id. rewrite elem_of_ids_where. split.
    + intros (h & Hh & Hm). destruct (mgr_verified _ Hinv id h Hh) as (_ & v & Hv & _). eauto.
    + naive_solver.
Qed.

Lemma ash_lookup_ids_witness : NoDup (Manager.lookup_ids spill_mgr (SyscallEntry 0)).
Proof.
  apply (ash_lookup_ids spill_mgr (SyscallEntry 0)). apply rtc_once. apply step_register.
Defined.

(** The runtime starts handlers with [r10 = 0] although the verifier
    assumes the top of the stack: an aligned spill slot that ends at the
    frame pointer is written at address [2^64 - size], outside any stack,
    and every lower slot is silently not written. *)
Theorem ash_frame_store_misses insns i context payload n w :
  frame_store i -> off i + size_bytes (size_bits i) <= 0 ->
  step_insn insns i (handler_vm context payload n w) =
    if off i + size_bytes (size_bits i) =? 0
    then Fault (M64 + off i) (size_bytes (size_bits i))
    else Running (next (handler_vm context payload n w)).
Proof. intros. by apply zero_frame_store. Qed.

Lemma ash_frame_store_misses_witness :
  step_insn [] (mkInsn 0x63 10 0 (-8) 0) (handler_vm 0 0 0 idle_world) = Fault (M64 - 8) 8.
Proof.
  apply (ash_frame_store_misses [] (mkInsn 0x63 10 0 (-8) 0) 0 0 0 idle_world).
  - unfold frame_store, insn_ok. simpl. split_and!; try reflexivity; first [lia | split; lia].
  - vm_compute. discriminate.
Defined.

(** End to end: a user program that spills [r0] to its stack is registered
    for a system call, and dispatching that call makes the kernel write
    eight bytes at address [2^64 - 8], whatever the addresses of the context
    and the payload. *)
Theorem ash_dispatch_faults jit context payload w fuel :
  (3 <= fuel)%nat ->
  (Manager.register Manager.new 1 spill_bytes (SyscallEntry 0) 3 None).1 = Some (inl 1) /\
  hook_syscall_entry jit fuel spill_mgr 0 context payload w = HFault (M64 - 8) 8.
Proof.
  intros Hf. split; [by vm_compute|]. do 3 (destruct fuel as [|fuel]; [lia|]).
  unfold hook_syscall_entry, dispatch.
  replace (Manager.lookup_ids spill_mgr (SyscallEntry 0)) with [1] by by vm_compute.
  cbn [run_handlers].
  replace (Manager.get_verified spill_mgr 1) with
    (Some (mkVerifiedAsh spill_bytes (decode_insns 3 spill_bytes) [] 512 64 512)) by by vm_compute.
  done.
Qed.

Lemma ash_dispatch_faults_witness :
  hook_syscall_entry (fun _ _ _ _ _ => None) 3 spill_mgr 0 0 0 idle_world = HFault (M64 - 8) 8.
Proof. apply (ash_dispatch_faults (fun _ _ _ _ _ => None) 0 0 idle_world 3). lia. Defined.

(** [hook_matches] has no case for [NetTransmit]: a transmit handler is
    admitted but never runs, every transmitted packet is continued. *)
Theorem ash_net_transmit_ignored jit fuel mgr interface protocol src dst ctx pkt n w :
  hook_net_transmit jit fuel mgr interface protocol src dst ctx pkt n w = HReturn Continue w.
Proof.
  unfold hook_net_transmit, dispatch.
  destruct (Manager.lookup_ids _ _) as [|id ids] eqn:E; [done|].
  assert (Hin : id ∈ id :: ids) by set_solver. rewrite <- E in Hin.
  apply elem_of_ids_where in Hin as (h & _ & Hm). by destruct (h_hook_point h).
Qed.
