(* ===== verification/Buddy.v ===== *)
(** * Physical frame allocator

    Model of [crates/memory/src/buddy.rs] and [crates/memory/src/frame_info.rs].
    The free lists of the source are threaded through the free frames
    themselves; the model keeps physical memory as a map from addresses to the
    64-bit words the allocator writes there, and the proofs relate it to
    abstract lists of blocks. *)

From stdpp Require Import functions.
From S2P Require Import Prelude.

(** ** Frame accounting ([frame_info.rs]) *)

Record FrameStats := mkFrameStats { ALLOCATED_FRAMES : Z; HIGH_WATER_MARK : Z }.

Definition track_alloc (f : FrameStats) : FrameStats :=
  let cur := u64 (ALLOCATED_FRAMES f + 1) in
  mkFrameStats cur (if cur <=? HIGH_WATER_MARK f then HIGH_WATER_MARK f else cur).

Definition track_dealloc (f : FrameStats) : FrameStats :=
  mkFrameStats (u64 (ALLOCATED_FRAMES f - 1)) (HIGH_WATER_MARK f).

Definition frame_stats (f : FrameStats) : Z * Z := (ALLOCATED_FRAMES f, HIGH_WATER_MARK f).

(** [REFCOUNTS]: one counter per frame and the deferred-free queue. *)
Record RefCountTable := mkRefCountTable { counts : list Z; deferred : list Z }.

Module FrameInfo.

Definition init (max_phys : Z) : option RefCountTable :=
  Some (mkRefCountTable (replicate (Z.to_nat ((max_phys + 4095) / 4096)) 0) []).

Definition index (phys : Z) : nat := Z.to_nat (Z.shiftr phys 12).

Definition increment (t : option RefCountTable) (phys : Z) : option RefCountTable :=
  match t with
  | None => None
  | Some tbl =>
      match counts tbl !! index phys with
      | Some c => Some (mkRefCountTable (<[index phys := u16 (c + 1)]> (counts tbl)) (deferred tbl))
      | None => Some tbl
      end
  end.

Definition decrement (t : option RefCountTable) (phys : Z) : Z * option RefCountTable :=
  match t with
  | None => (0, None)
  | Some tbl =>
      match counts tbl !! index phys with
      | Some prev =>
          let cs := <[index phys := u16 (prev - 1)]> (counts tbl) in
          if prev =? 1 then (0, Some (mkRefCountTable cs (deferred tbl ++ [phys])))
          else (u16 (prev - 1), Some (mkRefCountTable cs (deferred tbl)))
      | None => (0, Some tbl)
      end
  end.

Definition count (t : option RefCountTable) (phys : Z) : Z :=
  match t with
  | None => 1
  | Some tbl => default 1 (counts tbl !! index phys)
  end.

End FrameInfo.

(** ** The allocator *)

Definition MAX_ORDER : nat := 11.

(** [4096 << order]. *)
Definition bsize (order : nat) : Z := Z.shiftl 4096 (Z.of_nat order).

(** Physical addresses have 52 bits; [PhysAddr::new] panics on others. *)
Definition PHYS_LIMIT : Z := 2 ^ 52.

Definition phys_new (a : Z) : option Z := if (0 <=? a) && (a <? PHYS_LIMIT) then Some a else None.

Record BuddyAllocator := mkBuddy {
  free_lists : list (option Z);
  mem : gmap Z Z;
}.

(** [None] from an operation is a panic: a link that is no physical address,
    or an order with no free list.  [fuel] bounds the walks along a list. *)
Module BuddyAllocator.

Definition new (mem : gmap Z Z) : BuddyAllocator :=
  mkBuddy (replicate (S MAX_ORDER) None) mem.

(** The word all of whose bits are set ends a list. *)
Definition NIL : Z := M64 - 1.

Definition read_next_ptr (b : BuddyAllocator) (addr : Z) : option (option Z) :=
  let val := default 0 (mem b !! addr) in
  if val =? NIL then Some None else Some <$> phys_new val.

Definition write_next_ptr (b : BuddyAllocator) (addr : Z) (next : option Z) : BuddyAllocator :=
  mkBuddy (free_lists b) (<[addr := default NIL next]> (mem b)).

Definition set_head (b : BuddyAllocator) (order : nat) (h : option Z) : BuddyAllocator :=
  mkBuddy (<[order := h]> (free_lists b)) (mem b).

Definition add_block (b : BuddyAllocator) (addr : Z) (order : nat) : option BuddyAllocator :=
  next ← free_lists b !! order;
  Some (set_head (write_next_ptr b addr next) order (Some addr)).

(** The [while] loop of [remove_block]. *)
Fixpoint remove_walk (fuel : nat) (b : BuddyAllocator) (addr : Z) (order : nat)
    (prev current : option Z) : option (bool * BuddyAllocator) :=
  match current with
  | None => Some (false, b)
  | Some curr_addr =>
      match fuel with
      | O => None
      | S fuel =>
          next ← read_next_ptr b curr_addr;
          if curr_addr =? addr then
            Some (true, match prev with
                        | Some p => write_next_ptr b p next
                        | None => set_head b order next
                        end)
          else remove_walk fuel b addr order (Some curr_addr) next
      end
  end.

Definition remove_block (fuel : nat) (b : BuddyAllocator) (addr : Z) (order : nat)
    : option (bool * BuddyAllocator) :=
  head ← free_lists b !! order;
  remove_walk fuel b addr order None head.

(** The recursion goes up to the first order above [MAX_ORDER]: [depth] calls
    with [depth > MAX_ORDER - order + 1] are enough. *)
Fixpoint alloc_go (depth : nat) (b : BuddyAllocator) (order : nat)
    : option (option Z * BuddyAllocator) :=
  match depth with
  | O => None
  | S depth =>
      if (MAX_ORDER <? order)%nat then Some (None, b)
      else
        head ← free_lists b !! order;
        match head with
        | Some addr =>
            next ← read_next_ptr b addr;
            Some (Some addr, set_head b order next)
        | None =>
            '(res, b1) ← alloc_go depth b (S order);
            match res with
            | None => Some (None, b1)
            | Some addr =>
                buddy_addr ← phys_new (addr + bsize order);
                b2 ← add_block b1 buddy_addr order;
                Some (Some addr, b2)
            end
        end
  end.

Definition allocate_at_order (b : BuddyAllocator) (order : nat) : option (option Z * BuddyAllocator) :=
  alloc_go (S (S (MAX_ORDER - order))) b order.

Definition allocate_contiguous := allocate_at_order.

Fixpoint dealloc_go (depth fuel : nat) (b : BuddyAllocator) (addr : Z) (order : nat)
    : option BuddyAllocator :=
  match depth with
  | O => None
  | S depth =>
      if (MAX_ORDER <=? order)%nat then add_block b addr order
      else
        buddy_addr ← phys_new (Z.lxor addr (bsize order));
        '(found, b1) ← remove_block fuel b buddy_addr order;
        if found : bool then
          dealloc_go depth fuel b1 (if buddy_addr <? addr then buddy_addr else addr) (S order)
        else add_block b1 addr order
  end.

Definition deallocate_at_order (fuel : nat) (b : BuddyAllocator) (addr : Z) (order : nat)
    : option BuddyAllocator :=
  dealloc_go (S (MAX_ORDER - order)) fuel b addr order.

Definition deallocate_contiguous := deallocate_at_order.

(** [try_evict_one_page] returns [false], so the retry of [allocate_frame]
    never happens. *)
Definition try_evict_one_page : bool := false.

Definition allocate_frame (swap_devices : bool) (b : BuddyAllocator) (f : FrameStats)
    : option (option Z * BuddyAllocator * FrameStats) :=
  '(res, b1) ← allocate_contiguous b 0;
  match res with
  | Some addr => Some (Some addr, b1, track_alloc f)
  | None =>
      if swap_devices && try_evict_one_page then
        '(res, b2) ← allocate_contiguous b1 0;
        match res with
        | Some addr => Some (Some addr, b2, track_alloc f)
        | None => Some (None, b2, f)
        end
      else Some (None, b1, f)
  end.

Definition deallocate_frame (fuel : nat) (b : BuddyAllocator) (f : FrameStats) (frame : Z)
    : option (BuddyAllocator * FrameStats) :=
  b1 ← deallocate_at_order fuel b frame 0;
  Some (b1, track_dealloc f).

(** The inner loop of [add_region]: the largest order aligned at [current]
    that fits in [remaining]. *)
Fixpoint fit_order (k : nat) (current remaining : Z) (order : nat) : nat :=
  match k with
  | O => order
  | S k =>
      let block_size := bsize (S order) in
      if (current mod block_size =? 0) && (block_size <=? remaining)
      then fit_order k current remaining (S order) else order
  end.

Fixpoint add_region_go (n : nat) (b : BuddyAllocator) (current end_ : Z) : option BuddyAllocator :=
  if end_ <=? current then Some b
  else
    match n with
    | O => None
    | S n =>
        let order := fit_order MAX_ORDER current (end_ - current) 0 in
        addr ← phys_new current;
        b1 ← add_block b addr order;
        add_region_go n b1 (u64 (current + bsize order)) end_
    end.

(** At most one block per page is added. *)
Definition add_region (b : BuddyAllocator) (start end_ : Z) : option BuddyAllocator :=
  add_region_go (Z.to_nat ((end_ - start) / 4096 + 1)) b start end_.

(** Walks one list, folding [f] over its blocks. *)
Fixpoint walk_list {A} (fuel : nat) (b : BuddyAllocator) (f : A -> Z -> A) (acc : A)
    (cur : option Z) : option A :=
  match cur with
  | None => Some acc
  | Some a =>
      match fuel with
      | O => None
      | S fuel => next ← read_next_ptr b a; walk_list fuel b f (f acc a) next
      end
  end.

Fixpoint walk_orders {A} (fuel : nat) (b : BuddyAllocator) (f : nat -> A -> Z -> A) (acc : A)
    (orders : list nat) : option A :=
  match orders with
  | [] => Some acc
  | o :: orders =>
      head ← free_lists b !! o;
      acc' ← walk_list fuel b (f o) acc head;
      walk_orders fuel b f acc' orders
  end.

Definition count_free_pages (fuel : nat) (b : BuddyAllocator) : option Z :=
  walk_orders fuel b (fun o total _ => u64 (total + Z.shiftl 1 (Z.of_nat o))) 0
    (seq 0 (S MAX_ORDER)).

(** Is [base] on the list? *)
Fixpoint list_has (fuel : nat) (b : BuddyAllocator) (base : Z) (cur : option Z) : option bool :=
  match cur with
  | None => Some false
  | Some a =>
      if a =? base then Some true
      else
        match fuel with
        | O => None
        | S fuel => next ← read_next_ptr b a; list_has fuel b base next
        end
  end.

Fixpoint is_free_go (fuel : nat) (b : BuddyAllocator) (addr : Z) (orders : list nat)
    : option bool :=
  match orders with
  | [] => Some false
  | o :: orders =>
      head ← free_lists b !! o;
      found ← list_has fuel b (Z.land addr (not64 (bsize o - 1))) head;
      if found : bool then Some true else is_free_go fuel b addr orders
  end.

Definition is_free (fuel : nat) (b : BuddyAllocator) (addr : Z) : option bool :=
  is_free_go fuel b addr (seq 0 (S MAX_ORDER)).

(** [drain_deferred]: the queue is taken, then every frame in it is freed. *)
Fixpoint free_frames (fuel : nat) (frames : list Z) (b : BuddyAllocator) (f : FrameStats)
    : option (BuddyAllocator * FrameStats) :=
  match frames with
  | [] => Some (b, f)
  | phys :: frames =>
      '(b1, f1) ← deallocate_frame fuel b f (phys / 4096 * 4096);
      free_frames fuel frames b1 f1
  end.

Definition drain_deferred (fuel : nat) (t : option RefCountTable) (b : BuddyAllocator)
    (f : FrameStats) : option (option RefCountTable * BuddyAllocator * FrameStats) :=
  match t with
  | None => Some (None, b, f)
  | Some tbl =>
      '(b1, f1) ← free_frames fuel (deferred tbl) b f;
      Some (Some (mkRefCountTable (counts tbl) []), b1, f1)
  end.

End BuddyAllocator.

(** ** Blocks *)

Definition block_ok (a : Z) (o : nat) : Prop :=
  0 <= a /\ (bsize o | a) /\ a + bsize o <= PHYS_LIMIT.

Definition blocks_disjoint (a1 : Z) (o1 : nat) (a2 : Z) (o2 : nat) : Prop :=
  a1 + bsize o1 <= a2 \/ a2 + bsize o2 <= a1.

(** The buddy of a block. *)
Definition buddy_of (a : Z) (o : nat) : Z := Z.lxor a (bsize o).

Lemma bsize_pow o : bsize o = 2 ^ (12 + Z.of_nat o).
Proof. unfold bsize. rewrite Z.shiftl_mul_pow2, Z.pow_add_r by lia. done. Qed.

Lemma bsize_pos o : 0 < bsize o.
Proof. rewrite bsize_pow. apply Z.pow_pos_nonneg; lia. Qed.

Lemma bsize_S o : bsize (S o) = 2 * bsize o.
Proof.
  rewrite !bsize_pow. replace (12 + Z.of_nat (S o)) with (Z.succ (12 + Z.of_nat o)) by lia.
  by rewrite Z.pow_succ_r by lia.
Qed.

Lemma block_ok_limit a o : block_ok a o -> 0 <= a < PHYS_LIMIT.
Proof. intros (? & _ & ?). pose proof (bsize_pos o). lia. Qed.

Lemma phys_new_ok a : 0 <= a < PHYS_LIMIT -> phys_new a = Some a.
Proof.
  intros Ha. unfold phys_new. by rewrite (proj2 (Z.leb_le _ _)), (proj2 (Z.ltb_lt _ _)) by lia.
Qed.

Lemma blocks_disjoint_sym a1 o1 a2 o2 :
  blocks_disjoint a1 o1 a2 o2 -> blocks_disjoint a2 o2 a1 o1.
Proof. unfold blocks_disjoint. tauto. Qed.

(** Flipping the size bit of an aligned address adds or subtracts the size. *)
Lemma buddy_of_cases a o :
  0 <= a -> (bsize o | a) ->
  ((bsize (S o) | a) /\ buddy_of a o = a + bsize o) \/
  (bsize o <= a /\ (bsize (S o) | a - bsize o) /\ buddy_of a o = a - bsize o).
Proof.
  intros Ha [q Hq]. pose proof (bsize_pos o) as Hp. unfold buddy_of.
  set (n := 12 + Z.of_nat o). assert (Hs : bsize o = Z.shiftl 1 n).
  { by rewrite bsize_pow, Z.shiftl_mul_pow2, Z.mul_1_l by lia. }
  assert (Hx : Z.lxor a (bsize o) = Z.shiftl (Z.lxor q 1) n).
  { rewrite Z.shiftl_lxor, <- Hs. f_equal. rewrite Hq, bsize_pow. fold n.
    by rewrite Z.shiftl_mul_pow2 by lia. }
  assert (Hq0 : 0 <= q) by nia.
  rewrite Hx, Z.shiftl_mul_pow2 by lia. fold n in Hs. rewrite bsize_S.
  replace (2 ^ n) with (bsize o) by (rewrite bsize_pow; done).
  destruct (Z.Even_or_Odd q) as [[k ->]|[k ->]].
  - left. split; [exists k; lia|].
    assert (Z.lxor (2 * k) 1 = 2 * k + 1) as ->; [|lia].
    rewrite <- Z.add_nocarry_lxor; [done|].
    apply Z.bits_inj'. intros i Hi. rewrite Z.land_spec, Z.testbit_0_l.
    destruct (Z.eq_dec i 0) as [->|]; [by rewrite Z.testbit_even_0|].
    replace i with (Z.succ (i - 1)) by lia. change 1 with (2 * 0 + 1) at 2.
    rewrite Z.testbit_odd_succ by lia. by rewrite Z.testbit_0_l, andb_false_r.
  - right. assert (Z.lxor (2 * k + 1) 1 = 2 * k) as ->.
    { apply Z.bits_inj'. intros i Hi. rewrite Z.lxor_spec.
      destruct (Z.eq_dec i 0) as [->|].
      - by rewrite Z.testbit_odd_0, Z.testbit_even_0.
      - replace i with (Z.succ (i - 1)) by lia.
        rewrite Z.testbit_odd_succ, Z.testbit_even_succ by lia.
        change 1 with (2 * 0 + 1) at 2. rewrite Z.testbit_odd_succ by lia.
        by rewrite Z.testbit_0_l, xorb_false_r. }
    split; [nia|]. split; [exists k; lia | lia].
Qed.

(** A buddy pair lies inside physical memory. *)
Lemma block_ok_up a o :
  (S o <= MAX_ORDER)%nat -> 0 <= a < PHYS_LIMIT -> (bsize (S o) | a) -> block_ok a (S o).
Proof.
  intros Ho Ha Hd. split; [lia|]. split; [done|].
  assert (Hl : (bsize (S o) | PHYS_LIMIT)).
  { rewrite bsize_pow. unfold PHYS_LIMIT, MAX_ORDER in *. exists (2 ^ (52 - (12 + Z.of_nat (S o)))).
    rewrite <- Z.pow_add_r by lia. f_equal. lia. }
  pose proof (bsize_pos (S o)) as Hp. destruct Hd as [q ->], Hl as [r Hr]. rewrite Hr in *.
  assert (q < r) by (apply (Z.mul_lt_mono_pos_r (bsize (S o))); lia). nia.
Qed.

Lemma block_ok_low a o : block_ok a (S o) -> block_ok a o.
Proof.
  intros (? & [q ->] & ?). rewrite bsize_S in *. pose proof (bsize_pos o).
  split; [lia|]. split; [exists (2 * q); ring | lia].
Qed.

Lemma block_ok_high a o : block_ok a (S o) -> block_ok (a + bsize o) o.
Proof.
  intros (? & [q ->] & ?). rewrite bsize_S in *. pose proof (bsize_pos o).
  split; [lia|]. split; [exists (2 * q + 1); ring | lia].
Qed.

(** Merging with the buddy gives a block of the next order. *)
Lemma buddy_merge a o :
  (S o <= MAX_ORDER)%nat -> block_ok a o ->
  let m := if buddy_of a o <? a then buddy_of a o else a in
  0 <= buddy_of a o < PHYS_LIMIT /\ block_ok m (S o) /\
  (forall x, m <= x < m + bsize (S o) <->
     a <= x < a + bsize o \/ buddy_of a o <= x < buddy_of a o + bsize o) /\
  (forall a' o', blocks_disjoint a o a' o' -> blocks_disjoint (buddy_of a o) o a' o' ->
     blocks_disjoint m (S o) a' o').
Proof.
  intros Ho Hok. pose proof Hok as (H0 & Hd & Hl). pose proof (bsize_pos o) as Hp.
  pose proof (block_ok_limit _ _ Hok) as Hlim. cbv zeta.
  destruct (buddy_of_cases a o H0 Hd) as [[Hd' E]|(Hge & Hd' & E)]; rewrite !E.
  - destruct (block_ok_up a o Ho Hlim Hd') as (_ & _ & Hl').
    rewrite bsize_S in *. rewrite (proj2 (Z.ltb_ge _ _)) by lia.
    split_and!; [lia | lia | split; [done|]; rewrite bsize_S; split; [done | lia] | intros; lia |].
    intros a' o'. pose proof (bsize_pos o'). unfold blocks_disjoint. rewrite bsize_S. lia.
  - rewrite (proj2 (Z.ltb_lt _ _)) by lia.
    destruct (block_ok_up (a - bsize o) o Ho ltac:(lia) Hd') as (_ & _ & Hl').
    split_and!; [lia | lia | split; [lia|]; split; [done | lia] | rewrite bsize_S; intros; lia |].
    intros a' o'. pose proof (bsize_pos o'). unfold blocks_disjoint. rewrite bsize_S. lia.
Qed.

(** ** Free lists *)

(** The blocks of every order, as lists. *)
Abbreviation Blocks := (nat -> list Z).

(** The links in memory spell out the list [l] from [h]. *)
Fixpoint chain (b : BuddyAllocator) (h : option Z) (l : list Z) : Prop :=
  match l with
  | [] => h = None
  | a :: l => h = Some a /\ exists next, BuddyAllocator.read_next_ptr b a = Some next /\ chain b next l
  end.

(** Every block is in range and aligned, and no two overlap. *)
Record blocks_inv (F : Blocks) : Prop := {
  bi_block o a : a ∈ F o -> block_ok a o;
  bi_high o : (MAX_ORDER < o)%nat -> F o = [];
  bi_nodup o : NoDup (F o);
  bi_disjoint o1 a1 o2 a2 :
    a1 ∈ F o1 -> a2 ∈ F o2 -> (o1, a1) <> (o2, a2) -> blocks_disjoint a1 o1 a2 o2;
}.

Record buddy_inv (b : BuddyAllocator) (F : Blocks) : Prop := {
  bi_blocks : blocks_inv F;
  bi_chain o : (o <= MAX_ORDER)%nat -> exists h, free_lists b !! o = Some h /\ chain b h (F o);
}.

(** Address [x] is inside a free block. *)
Definition free_at (F : Blocks) (x : Z) : Prop :=
  exists o a, a ∈ F o /\ a <= x < a + bsize o.

(** A block overlaps no free one. *)
Definition apart (F : Blocks) (a : Z) (o : nat) : Prop :=
  forall o' a', a' ∈ F o' -> blocks_disjoint a o a' o'.

(** No two buddies are both free: everything that can be merged is. *)
Definition coalesced (F : Blocks) : Prop :=
  forall o a, (o < MAX_ORDER)%nat -> a ∈ F o -> buddy_of a o ∉ F o.

Lemma apart_not_elem F a o o' : apart F a o -> a ∉ F o'.
Proof.
  intros Ha Hin. pose proof (bsize_pos o). pose proof (bsize_pos o').
  destruct (Ha _ _ Hin); lia.
Qed.

Lemma blocks_inv_add F a o :
  blocks_inv F -> (o <= MAX_ORDER)%nat -> block_ok a o -> apart F a o ->
  blocks_inv (<[o := a :: F o]> F).
Proof.
  intros HF Ho Hok Ha. split.
  - intros o' a'. destruct (decide (o' = o)) as [->|].
    + rewrite fn_lookup_insert. intros [->|]%elem_of_cons; [done | by apply HF].
    + rewrite fn_lookup_insert_ne by done. apply HF.
  - intros o' Ho'. rewrite fn_lookup_insert_ne by lia. by apply HF.
  - intros o'. destruct (decide (o' = o)) as [->|].
    + rewrite fn_lookup_insert. constructor; [by eapply apart_not_elem | apply HF].
    + rewrite fn_lookup_insert_ne by done. apply HF.
  - assert (Hin : forall o' a', a' ∈ (<[o := a :: F o]> F) o' -> (o', a') = (o, a) \/ a' ∈ F o').
    { intros o' a'. destruct (decide (o' = o)) as [->|].
      - rewrite fn_lookup_insert. intros [->|]%elem_of_cons; auto.
      - rewrite fn_lookup_insert_ne by done. auto. }
    intros o1 a1 o2 a2 H1%Hin H2%Hin Hne. destruct H1 as [[= -> ->]|H1], H2 as [[= -> ->]|H2].
    + done.
    + by apply Ha.
    + by apply blocks_disjoint_sym, Ha.
    + by apply HF.
Qed.

Lemma blocks_inv_sub F o l :
  blocks_inv F -> l `sublist_of` F o -> blocks_inv (<[o := l]> F).
Proof.
  intros HF Hl.
  assert (Hin : forall o' a', a' ∈ (<[o := l]> F) o' -> a' ∈ F o').
  { intros o' a'. destruct (decide (o' = o)) as [->|].
    - rewrite fn_lookup_insert. intros. by eapply elem_of_sublist.
    - by rewrite fn_lookup_insert_ne. }
  split.
  - intros o' a' H%Hin. by apply HF.
  - intros o' Ho'. destruct (decide (o' = o)) as [->|].
    + rewrite fn_lookup_insert. rewrite (bi_high F HF) in Hl by done. by apply sublist_nil_r.
    + rewrite fn_lookup_insert_ne by done. by apply HF.
  - intros o'. destruct (decide (o' = o)) as [->|].
    + rewrite fn_lookup_insert. eapply sublist_NoDup; [apply HF | done].
    + rewrite fn_lookup_insert_ne by done. apply HF.
  - intros o1 a1 o2 a2 H1%Hin H2%Hin. by apply HF.
Qed.

Lemma free_at_insert F o l x :
  free_at (<[o := l]> F) x <->
  (exists a, a ∈ l /\ a <= x < a + bsize o) \/
  (exists o' a, o' <> o /\ a ∈ F o' /\ a <= x < a + bsize o').
Proof.
  unfold free_at. split.
  - intros (o' & a & Hin & Hx). destruct (decide (o' = o)) as [->|].
    + rewrite fn_lookup_insert in Hin. eauto.
    + rewrite fn_lookup_insert_ne in Hin by done. right. eauto.
  - intros [(a & Hin & Hx)|(o' & a & Hne & Hin & Hx)].
    + exists o, a. by rewrite fn_lookup_insert.
    + exists o', a. by rewrite fn_lookup_insert_ne.
Qed.

Lemma free_at_self F o x :
  free_at F x <-> (exists a, a ∈ F o /\ a <= x < a + bsize o) \/
  (exists o' a, o' <> o /\ a ∈ F o' /\ a <= x < a + bsize o').
Proof.
  unfold free_at. split; [|naive_solver].
  intros (o' & a & Hin & Hx). destruct (decide (o' = o)) as [->|]; [left | right]; eauto.
Qed.

(** ** Links in memory *)

Lemma read_write_eq b a next :
  (forall n, next = Some n -> 0 <= n < PHYS_LIMIT) ->
  BuddyAllocator.read_next_ptr (BuddyAllocator.write_next_ptr b a next) a = Some next.
Proof.
  intros Hn. unfold BuddyAllocator.read_next_ptr; simpl. rewrite lookup_insert_eq. simpl.
  destruct next as [n|]; simpl; [|done]. specialize (Hn n eq_refl).
  rewrite (proj2 (Z.eqb_neq _ _)) by (unfold PHYS_LIMIT, BuddyAllocator.NIL in *; lia).
  by rewrite phys_new_ok.
Qed.

Lemma read_write_ne b a a' next :
  a <> a' ->
  BuddyAllocator.read_next_ptr (BuddyAllocator.write_next_ptr b a next) a' =
  BuddyAllocator.read_next_ptr b a'.
Proof. intros. unfold BuddyAllocator.read_next_ptr; simpl. by rewrite lookup_insert_ne. Qed.

(** [chain] only looks at memory, and there only at the blocks of the list. *)
Lemma chain_mem b b' h l : mem b = mem b' -> chain b h l -> chain b' h l.
Proof.
  intros Hm. revert h. induction l as [|a l IH]; intros h; simpl; [done|].
  intros (-> & next & Hr & Hc). split; [done|]. exists next. split; [|by apply IH].
  unfold BuddyAllocator.read_next_ptr in *. by rewrite <- Hm.
Qed.

Lemma chain_write b a next h l :
  a ∉ l -> chain b h l -> chain (BuddyAllocator.write_next_ptr b a next) h l.
Proof.
  revert h. induction l as [|a' l IH]; intros h; simpl; [done|].
  intros [Hne Hn]%not_elem_of_cons (-> & n & Hr & Hc). split; [done|]. exists n.
  rewrite read_write_ne by done. auto.
Qed.

Lemma chain_head b h l : chain b h l -> h = head l.
Proof. destruct l; simpl; [done | by intros [-> _]]. Qed.

(** Unlinking the element after [p]. *)
Lemma chain_unlink b h l1 p a next l3 :
  NoDup (l1 ++ p :: a :: l3) -> chain b h (l1 ++ p :: a :: l3) ->
  BuddyAllocator.read_next_ptr b a = Some next ->
  (forall n, next = Some n -> 0 <= n < PHYS_LIMIT) ->
  chain (BuddyAllocator.write_next_ptr b p next) h (l1 ++ p :: l3).
Proof.
  intros Hnd Hc Hr Hn. revert h Hc. induction l1 as [|x l1 IH]; intros h; simpl in *.
  - intros (-> & n1 & _ & -> & n2 & Hr2 & Hc). simplify_eq. split; [done|].
    exists next. split; [by apply read_write_eq|]. apply chain_write; [|done].
    apply NoDup_cons in Hnd as [Hp _]. set_solver.
  - apply NoDup_cons in Hnd as [Hx Hnd]. intros (-> & n1 & Hr1 & Hc). split; [done|].
    exists n1. rewrite read_write_ne by set_solver. auto.
Qed.

Lemma buddy_inv_head b F o :
  buddy_inv b F -> (o <= MAX_ORDER)%nat -> free_lists b !! o = Some (head (F o)).
Proof.
  intros Hb Ho. destruct (bi_chain _ _ Hb o Ho) as (h & -> & Hc). f_equal. by eapply chain_head.
Qed.

(** Replacing one list: the other orders only need their links unharmed. *)
Lemma buddy_inv_update b F b' o l h :
  buddy_inv b F -> (o <= MAX_ORDER)%nat -> blocks_inv (<[o := l]> F) ->
  free_lists b' = <[o := h]> (free_lists b) -> chain b' h l ->
  (forall o', o' <> o -> (o' <= MAX_ORDER)%nat -> forall h', chain b h' (F o') -> chain b' h' (F o')) ->
  buddy_inv b' (<[o := l]> F).
Proof.
  intros Hb Ho HF Hfl Hc Hothers. split; [done|]. intros o' Ho'. rewrite Hfl.
  destruct (decide (o' = o)) as [->|Hne].
  - exists h. rewrite fn_lookup_insert. split; [|done].
    apply list_lookup_insert_eq. destruct (bi_chain _ _ Hb o Ho) as (h0 & Hh & _).
    by eapply lookup_lt_Some.
  - destruct (bi_chain _ _ Hb o' Ho') as (h0 & Hh & Hc0). exists h0.
    rewrite list_lookup_insert_ne by done. rewrite fn_lookup_insert_ne by done. auto.
Qed.

Lemma add_block_inv b F a o :
  buddy_inv b F -> (o <= MAX_ORDER)%nat -> block_ok a o -> apart F a o ->
  exists b', BuddyAllocator.add_block b a o = Some b' /\ buddy_inv b' (<[o := a :: F o]> F).
Proof.
  intros Hb Ho Hok Ha. destruct (bi_chain _ _ Hb o Ho) as (h & Hh & Hc).
  unfold BuddyAllocator.add_block. rewrite Hh. simpl. eexists. split; [done|].
  set (w := BuddyAllocator.write_next_ptr b a h).
  assert (Hw : forall o' h', chain b h' (F o') -> chain w h' (F o')).
  { intros. apply chain_write; [by eapply apart_not_elem | done]. }
  eapply buddy_inv_update; [done | done | by apply blocks_inv_add, Ha; [apply Hb|..] | done | |].
  - simpl. split; [done|]. exists h. split.
    + transitivity (BuddyAllocator.read_next_ptr w a); [done|]. apply read_write_eq.
      intros n ->. apply chain_head in Hc. symmetry in Hc. apply head_Some in Hc as [l' Hl'].
      apply (block_ok_limit n o), (bi_block _ (bi_blocks _ _ Hb)). rewrite Hl'. set_solver.
    + by apply (chain_mem w), Hw.
  - intros o' _ _ h' Hc'. by apply (chain_mem w), Hw.
Qed.

Lemma pop_inv b F a l o :
  buddy_inv b F -> (o <= MAX_ORDER)%nat -> F o = a :: l ->
  exists next, BuddyAllocator.read_next_ptr b a = Some next /\
    buddy_inv (BuddyAllocator.set_head b o next) (<[o := l]> F).
Proof.
  intros Hb Ho HF. destruct (bi_chain _ _ Hb o Ho) as (h & Hh & Hc). rewrite HF in Hc.
  destruct Hc as (-> & next & Hr & Hc). exists next. split; [done|].
  eapply buddy_inv_update; try done.
  - apply blocks_inv_sub; [apply Hb|]. rewrite HF. by constructor.
  - by apply (chain_mem b).
  - intros o' _ _ h'. by apply chain_mem.
Qed.

(** The walk of [remove_block], from the middle of the list. *)
Lemma remove_walk_spec fuel b F o addr l1 l2 cur :
  buddy_inv b F -> (o <= MAX_ORDER)%nat -> F o = l1 ++ l2 -> addr ∉ l1 ->
  chain b cur l2 -> (length l2 <= fuel)%nat ->
  ((addr ∉ l2) /\ BuddyAllocator.remove_walk fuel b addr o (last l1) cur = Some (false, b)) \/
  (exists l3 l4 b', F o = l3 ++ addr :: l4 /\
     BuddyAllocator.remove_walk fuel b addr o (last l1) cur = Some (true, b') /\
     buddy_inv b' (<[o := l3 ++ l4]> F)).
Proof.
  intros Hb Ho. revert l1 l2 cur. induction fuel as [|fuel IH]; intros l1 l2 cur HF Hn Hc Hlen.
  { destruct l2; simpl in *; [|lia]. subst. left. split; [set_solver | done]. }
  destruct l2 as [|x l2]; simpl in Hc; [subst; left; split; [set_solver | done]|].
  destruct Hc as (-> & next & Hr & Hc). simpl in Hlen. simpl. rewrite Hr. simpl.
  assert (Hval : forall n, next = Some n -> 0 <= n < PHYS_LIMIT).
  { intros n ->. apply chain_head in Hc. symmetry in Hc. apply head_Some in Hc as [l' ->].
    apply (block_ok_limit n o), (bi_block _ (bi_blocks _ _ Hb)). rewrite HF. set_solver. }
  destruct (Z.eqb_spec x addr) as [->|Hne].
  - right. exists l1, l2. eexists. split; [done|]. split; [done|].
    assert (HF' : blocks_inv (<[o := l1 ++ l2]> F)).
    { apply blocks_inv_sub; [apply Hb|]. rewrite HF. apply sublist_app; [done|]. by constructor. }
    pose proof (bi_nodup _ (bi_blocks _ _ Hb) o) as Hnd. rewrite HF in Hnd.
    destruct (bi_chain _ _ Hb o Ho) as (h & Hh & Hch). rewrite HF in Hch.
    destruct l1 as [|p l1 _] using rev_ind; simpl.
    + eapply buddy_inv_update; try done; [by apply (chain_mem b)|].
      intros o' _ _ h'. by apply chain_mem.
    + rewrite last_snoc. rewrite <- app_assoc in *. simpl in *.
      eapply buddy_inv_update; [done | done | done | | by apply (chain_unlink b h l1 p addr) |].
      * simpl. by rewrite list_insert_id.
      * intros o' Hne _ h'. apply chain_write. intros Hp.
        destruct (bi_disjoint _ (bi_blocks _ _ Hb) o' p o p Hp) as [|]; [rewrite HF; set_solver | congruence | |];
          pose proof (bsize_pos o); pose proof (bsize_pos o'); lia.
  - destruct (IH (l1 ++ [x]) l2 next) as [[Hn2 Hw]|(l3 & l4 & b' & Hl & Hw & Hb')].
    + by rewrite HF, <- app_assoc.
    + set_solver.
    + done.
    + lia.
    + left. rewrite last_snoc in Hw. split; [set_solver | done].
    + right. rewrite last_snoc in Hw. eauto 10.
Qed.

Lemma remove_block_spec fuel b F o addr :
  buddy_inv b F -> (o <= MAX_ORDER)%nat -> (length (F o) <= fuel)%nat ->
  ((addr ∉ F o) /\ BuddyAllocator.remove_block fuel b addr o = Some (false, b)) \/
  (exists l3 l4 b', F o = l3 ++ addr :: l4 /\
     BuddyAllocator.remove_block fuel b addr o = Some (true, b') /\
     buddy_inv b' (<[o := l3 ++ l4]> F)).
Proof.
  intros Hb Ho Hlen. unfold BuddyAllocator.remove_block.
  destruct (bi_chain _ _ Hb o Ho) as (h & Hh & Hc). rewrite Hh. simpl.
  apply (remove_walk_spec fuel b F o addr [] (F o) h); auto. set_solver.
Qed.

(** ** Allocation *)

(** What a successful allocation of [a] at order [o] does to the free blocks:
    exactly the addresses of the block stop being free. *)
Record alloc_rel (F F' : Blocks) (a : Z) (o : nat) : Prop := {
  al_ok : block_ok a o;
  al_apart : apart F' a o;
  al_free x : free_at F x <-> free_at F' x \/ a <= x < a + bsize o;
  al_low o' : (o' < o)%nat -> F' o' = F o';
  al_coalesced : coalesced F -> coalesced F';
}.

Lemma alloc_pop F a l o :
  blocks_inv F -> F o = a :: l -> alloc_rel F (<[o := l]> F) a o.
Proof.
  intros HF Hl. assert (Ha : a ∈ F o) by (rewrite Hl; set_solver).
  pose proof (bi_nodup _ HF o) as Hnd. rewrite Hl in Hnd. apply NoDup_cons in Hnd as [Hnd _].
  assert (Hsub : forall o' a', a' ∈ (<[o := l]> F) o' -> a' ∈ F o' /\ (o', a') <> (o, a)).
  { intros o' a'. destruct (decide (o' = o)) as [->|].
    - rewrite fn_lookup_insert, Hl. intros Hin. split; [set_solver|]. intros [= ->]. done.
    - rewrite fn_lookup_insert_ne by done. split; [done | congruence]. }
  split.
  - by apply HF.
  - intros o' a' [Hin Hne]%Hsub. apply blocks_disjoint_sym. by apply (bi_disjoint _ HF).
  - intros x. rewrite free_at_insert, (free_at_self F o), Hl. setoid_rewrite elem_of_cons. naive_solver.
  - intros o' Ho'. rewrite fn_lookup_insert_ne by lia. done.
  - intros Hco o' a' Ho' [Hin _]%Hsub [Hb _]%Hsub. by apply (Hco o' a').
Qed.

(** Splitting: the upper half of the block found one order up is freed. *)
Lemma alloc_split F F1 a o :
  blocks_inv F1 -> F o = [] -> alloc_rel F F1 a (S o) ->
  alloc_rel F (<[o := (a + bsize o) :: F1 o]> F1) a o /\
  block_ok (a + bsize o) o /\ apart F1 (a + bsize o) o.
Proof.
  intros HF1 Hnil [Hok Hap Hfr Hlow Hco]. pose proof (bsize_pos o) as Hp.
  assert (H1 : F1 o = []) by (rewrite Hlow; [done | lia]).
  assert (Hap2 : apart F1 (a + bsize o) o /\ apart F1 a o).
  { split; intros o' a' Hin; destruct (Hap _ _ Hin) as [H|H]; rewrite ?bsize_S in H;
      [left | right | left | right]; lia. }
  split_and!; [|by apply block_ok_high | apply Hap2]. split.
  - by apply block_ok_low.
  - intros o' a'. destruct (decide (o' = o)) as [->|].
    + rewrite fn_lookup_insert, H1, list_elem_of_singleton. intros ->. left. lia.
    + rewrite fn_lookup_insert_ne by done. apply Hap2.
  - intros x. rewrite free_at_insert, Hfr, (free_at_self F1 o), H1, bsize_S.
    setoid_rewrite elem_of_cons. split.
    + intros [[(? & ?%elem_of_nil & _)|]|]; [done | naive_solver|].
      destruct (Z.lt_ge_cases x (a + bsize o)); [right; lia|]. left. left. exists (a + bsize o).
      split; [by left | lia].
    + intros [[(y & [->|?%elem_of_nil] & ?)|]|]; [right; lia | done | naive_solver | right; lia].
  - intros o' Ho'. rewrite fn_lookup_insert_ne by lia. apply Hlow. lia.
  - intros Hc%Hco o' a' Ho'. destruct (decide (o' = o)) as [->|].
    + rewrite fn_lookup_insert, H1. rewrite !list_elem_of_singleton. intros ->.
      unfold buddy_of. intros E. apply (f_equal (Z.lxor (a + bsize o))) in E.
      rewrite Z.lxor_nilpotent, <- Z.lxor_assoc, Z.lxor_nilpotent, Z.lxor_0_l in E. lia.
    + rewrite !fn_lookup_insert_ne by done. by apply Hc.
Qed.

Lemma alloc_go_spec depth b F o :
  buddy_inv b F -> (S (S MAX_ORDER) <= o + depth)%nat -> (0 < depth)%nat ->
  (BuddyAllocator.alloc_go depth b o = Some (None, b) /\ forall o', (o <= o')%nat -> F o' = []) \/
  (exists a b' F', BuddyAllocator.alloc_go depth b o = Some (Some a, b') /\
     buddy_inv b' F' /\ alloc_rel F F' a o).
Proof.
  revert o. induction depth as [|depth IH]; intros o Hb Hd Hd0; [lia|]. simpl.
  destruct (Nat.ltb_spec MAX_ORDER o) as [Hgt|Hle].
  { left. split; [done|]. intros o' Ho'. apply Hb. lia. }
  rewrite (buddy_inv_head b F o Hb) by done. simpl.
  destruct (F o) as [|a l] eqn:HFo; simpl.
  - destruct (IH (S o) Hb) as [[-> Hnil]|(a & b1 & F1 & -> & Hb1 & Hrel)]; [lia | lia | |].
    + left. split; [done|]. intros o' Ho'. destruct (decide (o' = o)) as [->|]; [done|].
      apply Hnil. lia.
    + right. simpl. destruct (alloc_split F F1 a o) as (Hrel2 & Hok2 & Hap2); [apply Hb1 | done | done|].
      rewrite phys_new_ok by by eapply block_ok_limit. simpl.
      destruct (add_block_inv b1 F1 (a + bsize o) o) as (b2 & -> & Hb2); [done.. |].
      simpl. eauto 10.
  - right. destruct (pop_inv b F a l o) as (next & -> & Hb'); [done..|]. simpl.
    exists a. do 2 eexists. split; [done|]. split; [done|]. apply alloc_pop; [apply Hb | done].
Qed.

(** ** Deallocation *)

Record dealloc_rel (F F' : Blocks) (a : Z) (o : nat) : Prop := {
  de_free x : free_at F' x <-> free_at F x \/ a <= x < a + bsize o;
  de_coalesced : coalesced F -> coalesced F';
}.

Lemma buddy_of_invol a o : buddy_of (buddy_of a o) o = a.
Proof. unfold buddy_of. by rewrite Z.lxor_assoc, Z.lxor_nilpotent, Z.lxor_0_r. Qed.

Lemma buddy_of_neq a o : buddy_of a o <> a.
Proof.
  unfold buddy_of. intros E. apply (f_equal (Z.lxor a)) in E.
  rewrite <- Z.lxor_assoc, Z.lxor_nilpotent, Z.lxor_0_l in E. pose proof (bsize_pos o). lia.
Qed.

Lemma dealloc_add F a o :
  ((o < MAX_ORDER)%nat -> buddy_of a o ∉ F o) -> dealloc_rel F (<[o := a :: F o]> F) a o.
Proof.
  intros Hn. split.
  - intros x. rewrite free_at_insert, (free_at_self F o). setoid_rewrite elem_of_cons.
    naive_solver.
  - intros Hco o' a' Ho'. destruct (decide (o' = o)) as [->|].
    + rewrite fn_lookup_insert, !elem_of_cons. intros [->|Hin] [E|Hb].
      * by apply (buddy_of_neq a o).
      * by apply Hn.
      * apply Hn; [done|]. by rewrite <- E, buddy_of_invol.
      * by apply (Hco o a').
    + rewrite !fn_lookup_insert_ne by done. by apply Hco.
Qed.

(** Removing the buddy and freeing the merged block. *)
Lemma dealloc_merge F F' a o l3 l4 :
  (S o <= MAX_ORDER)%nat -> block_ok a o -> blocks_inv F -> apart F a o ->
  F o = l3 ++ buddy_of a o :: l4 ->
  let m := if buddy_of a o <? a then buddy_of a o else a in
  let F1 := <[o := l3 ++ l4]> F in
  block_ok m (S o) /\ apart F1 m (S o) /\
  (dealloc_rel F1 F' m (S o) -> dealloc_rel F F' a o).
Proof.
  intros Ho Hok HF Hap Hl. pose proof (buddy_merge a o Ho Hok) as (_ & Hm & Hx & Hd).
  cbv zeta in *. set (m := if buddy_of a o <? a then _ else _) in *.
  assert (Hbin : buddy_of a o ∈ F o) by (rewrite Hl; set_solver).
  assert (Hsub : forall o' a', a' ∈ (<[o := l3 ++ l4]> F) o' ->
    a' ∈ F o' /\ (o', a') <> (o, buddy_of a o)).
  { pose proof (bi_nodup _ HF o) as Hnd. rewrite Hl, NoDup_app in Hnd.
    destruct Hnd as (_ & Hn1 & [Hn2 _]%NoDup_cons). intros o' a'.
    destruct (decide (o' = o)) as [->|].
    - rewrite fn_lookup_insert, Hl. intros Hin. split; [set_solver|]. intros [= ->]. set_solver.
    - rewrite fn_lookup_insert_ne by done. split; [done | congruence]. }
  split_and!; [done| |].
  - intros o' a' [Hin Hne]%Hsub. apply Hd; [by apply Hap|].
    apply blocks_disjoint_sym. by apply (bi_disjoint _ HF).
  - intros [Hfree Hco]. split.
    + intros x. rewrite Hfree, Hx, free_at_insert, (free_at_self F o), Hl.
      setoid_rewrite elem_of_app. setoid_rewrite elem_of_cons. naive_solver.
    + intros Hc. apply Hco. intros o' a' Ho' [Hin _]%Hsub [Hb _]%Hsub. by apply (Hc o' a').
Qed.

Lemma dealloc_go_spec depth fuel b F a o :
  buddy_inv b F -> (o <= MAX_ORDER)%nat -> (S MAX_ORDER <= o + depth)%nat ->
  block_ok a o -> apart F a o -> (forall o', (length (F o') <= fuel)%nat) ->
  exists b' F', BuddyAllocator.dealloc_go depth fuel b a o = Some b' /\
    buddy_inv b' F' /\ dealloc_rel F F' a o.
Proof.
  revert b F a o. induction depth as [|depth IH]; intros b F a o Hb Ho Hd Hok Hap Hlen; [lia|].
  cbn [BuddyAllocator.dealloc_go]. destruct (Nat.leb_spec MAX_ORDER o) as [Hge|Hlt].
  { destruct (add_block_inv b F a o) as (b' & -> & Hb'); [done..|].
    exists b', (<[o := a :: F o]> F). split; [done|]. split; [done|]. apply dealloc_add. lia. }
  pose proof (buddy_merge a o Hlt Hok) as (Hbr & _). fold (buddy_of a o).
  rewrite phys_new_ok by done. simpl.
  destruct (remove_block_spec fuel b F o (buddy_of a o)) as
    [[Hn ->]|(l3 & l4 & b1 & Hl & -> & Hb1)]; [done.. | |]; simpl.
  - destruct (add_block_inv b F a o) as (b' & -> & Hb'); [done..|].
    exists b', (<[o := a :: F o]> F). split; [done|]. split; [done|]. by apply dealloc_add.
  - pose proof (fun F' => dealloc_merge F F' a o l3 l4 Hlt Hok (bi_blocks _ _ Hb) Hap Hl) as Hm.
    cbv zeta in Hm. destruct (Hm F) as (Hmok & Hmap & _).
    destruct (IH b1 (<[o := l3 ++ l4]> F) _ (S o) Hb1 Hlt ltac:(lia) Hmok Hmap)
      as (b' & F' & Hgo & Hb' & Hrel).
    { intros o'. destruct (decide (o' = o)) as [->|].
      - rewrite fn_lookup_insert. specialize (Hlen o). rewrite Hl in Hlen.
        rewrite length_app in *. simpl in Hlen. lia.
      - rewrite fn_lookup_insert_ne by done. apply Hlen. }
    exists b', F'. split; [exact Hgo|]. split; [done|]. by apply Hm.
Qed.

(** ** Adding memory *)

Lemma fit_order_spec k current remaining o :
  (bsize o | current) -> bsize o <= remaining ->
  let o' := BuddyAllocator.fit_order k current remaining o in
  (bsize o' | current) /\ bsize o' <= remaining /\ (o' <= o + k)%nat.
Proof.
  revert o. induction k as [|k IH]; intros o Hd Hle; cbv zeta; cbn [BuddyAllocator.fit_order].
  { split_and!; [done | done | lia]. }
  destruct (_ && _) eqn:E; [|split_and!; [done | done | lia]].
  apply andb_true_iff in E as [Hm%Z.eqb_eq Hs%Z.leb_le].
  destruct (IH (S o)) as (? & ? & ?); [|done|split_and!; [done | done | lia]].
  apply Z.mod_divide; [pose proof (bsize_pos (S o)); lia | done].
Qed.

(** [x] lies in the region still to be added. *)
Definition region_apart (F : Blocks) (start end_ : Z) : Prop :=
  forall o a, a ∈ F o -> a + bsize o <= start \/ end_ <= a.

Lemma add_region_go_spec n b F current end_ :
  buddy_inv b F -> 0 <= current -> end_ <= PHYS_LIMIT ->
  (4096 | current) -> (4096 | end_) -> region_apart F current end_ ->
  end_ - current <= Z.of_nat n * 4096 ->
  exists b' F', BuddyAllocator.add_region_go n b current end_ = Some b' /\ buddy_inv b' F' /\
    forall x, free_at F' x <-> free_at F x \/ current <= x < end_.
Proof.
  revert b F current. induction n as [|n IH]; intros b F current Hb H0 Hlim Hdc Hde Hap Hn.
  { cbn. rewrite (proj2 (Z.leb_le _ _)) by lia. exists b, F. split_and!; [done..|]. intros x. split; [auto | intros [|]; [done | lia]]. }
  cbn [BuddyAllocator.add_region_go]. destruct (Z.leb_spec end_ current) as [Hle|Hlt].
  { exists b, F. split_and!; [done..|]. intros x. split; [auto | intros [|]; [done | lia]]. }
  assert (Hrem : bsize 0 <= end_ - current).
  { change (bsize 0) with 4096. destruct Hdc as [q Hq], Hde as [r Hr]. lia. }
  change 4096 with (bsize 0) in Hdc.
  destruct (fit_order_spec MAX_ORDER current (end_ - current) 0 Hdc Hrem) as (Hd & Hle & Ho).
  set (o := BuddyAllocator.fit_order _ _ _ _) in *. pose proof (bsize_pos o) as Hp.
  rewrite phys_new_ok by lia. cbn [mbind option_bind].
  destruct (add_block_inv b F current o) as (b1 & -> & Hb1); [done | lia | | |].
  { split; [done|]. split; [done | lia]. }
  { intros o' a' Hin. destruct (Hap _ _ Hin); [right | left]; lia. }
  cbn [mbind option_bind]. rewrite u64_small by (unfold is_u64, PHYS_LIMIT in *; lia).
  assert (4096 <= bsize o /\ (4096 | bsize o)) as [Hpage Hpaged].
  { rewrite bsize_pow, Z.pow_add_r by lia. change (2 ^ 12) with 4096. split.
    - pose proof (Z.pow_pos_nonneg 2 (Z.of_nat o)). nia.
    - by exists (2 ^ Z.of_nat o); lia. }
  destruct (IH b1 (<[o := current :: F o]> F) (current + bsize o)) as (b' & F' & Hgo & Hb' & Hfree);
    [done | lia | done | | done | | lia |].
  { change (bsize 0) with 4096 in Hdc. by apply Z.divide_add_r. }
  { intros o' a'. destruct (decide (o' = o)) as [->|].
    - rewrite fn_lookup_insert, elem_of_cons. intros [->|Hin]; [lia|]. destruct (Hap _ _ Hin); lia.
    - rewrite fn_lookup_insert_ne by done. intros Hin. destruct (Hap _ _ Hin); lia. }
  exists b', F'. split_and!; [done..|]. intros x.
  rewrite Hfree, free_at_insert, (free_at_self F o). setoid_rewrite elem_of_cons.
  split; [intros [[(y & [->|Hy] & Hx)|Hx]|Hx]; [right; lia | left; eauto | left; eauto | right; lia]|].
  intros [[(y & Hy & Hx)|Hx]|Hx]; [left; left; eauto | left; eauto|].
  destruct (Z.lt_ge_cases x (current + bsize o)); [left; left; exists current; split; [by left | lia] | right; lia].
Qed.

(** ** Queries *)

Lemma land_mask_base addr o :
  is_u64 addr -> (o <= MAX_ORDER)%nat ->
  Z.land addr (not64 (bsize o - 1)) = addr / bsize o * bsize o.
Proof.
  intros Haddr Ho. rewrite bsize_pow. set (n := 12 + Z.of_nat o).
  assert (Hn : 0 <= n < 64) by (unfold n, MAX_ORDER in *; lia).
  rewrite <- Z.shiftl_mul_pow2, <- Z.shiftr_div_pow2 by lia.
  replace (2 ^ n - 1) with (Z.ones n) by (rewrite Z.ones_equiv; lia).
  apply Z.bits_inj'. intros i Hi. rewrite Z.land_spec, Z.shiftl_spec by done.
  destruct (Z.lt_ge_cases i 64).
  - rewrite not64_spec, (proj2 (Z.ltb_lt i 64)) by lia. simpl.
    destruct (Z.lt_ge_cases i n).
    + rewrite Z.ones_spec_low by lia. by rewrite andb_false_r, Z.testbit_neg_r by lia.
    + rewrite Z.ones_spec_high, Z.shiftr_spec by lia. rewrite andb_true_r. f_equal. lia.
  - rewrite Z.shiftr_spec by lia. replace (i - n + n) with i by lia.
    by rewrite (u64_bits_high addr i Haddr) by lia.
Qed.

Lemma block_base a o addr :
  block_ok a o -> is_u64 addr -> (o <= MAX_ORDER)%nat ->
  a = Z.land addr (not64 (bsize o - 1)) <-> a <= addr < a + bsize o.
Proof.
  intros (H0 & [q ->] & _) Haddr Ho. rewrite land_mask_base by done.
  pose proof (bsize_pos o) as Hp. split.
  - intros E. rewrite E at 1 2. pose proof (Z.div_mod addr (bsize o)).
    pose proof (Z.mod_pos_bound addr (bsize o) Hp). lia.
  - intros Hx. f_equal. apply (Z.div_unique addr (bsize o) q (addr - q * bsize o)); lia.
Qed.

Lemma list_has_spec fuel b base h l :
  chain b h l -> (length l <= fuel)%nat ->
  BuddyAllocator.list_has fuel b base h = Some (bool_decide (base ∈ l)).
Proof.
  revert h l. induction fuel as [|fuel IH]; intros h [|a l] Hc Hlen; simpl in Hlen; try lia.
  - simpl in Hc. by subst.
  - simpl in Hc. by subst.
  - destruct Hc as (-> & next & Hr & Hc). cbn [BuddyAllocator.list_has].
    destruct (Z.eqb_spec a base) as [->|Hne].
    + f_equal. symmetry. apply bool_decide_eq_true. set_solver.
    + rewrite Hr. simpl. rewrite (IH _ _ Hc) by lia. f_equal.
      apply bool_decide_ext. rewrite elem_of_cons. naive_solver.
Qed.

Lemma is_free_go_spec fuel b F addr orders :
  buddy_inv b F -> (forall o, (length (F o) <= fuel)%nat) -> is_u64 addr ->
  Forall (fun o => (o <= MAX_ORDER)%nat) orders ->
  exists r, BuddyAllocator.is_free_go fuel b addr orders = Some r /\
    (r = true <-> exists o a, o ∈ orders /\ a ∈ F o /\ a <= addr < a + bsize o).
Proof.
  intros Hb Hlen Haddr Hall. induction Hall as [|o orders Ho Hall IH]; simpl.
  { exists false. split; [done|]. split; [done|]. intros (o & a & ?%elem_of_nil & _). done. }
  destruct (bi_chain _ _ Hb o Ho) as (h & -> & Hc). simpl.
  rewrite (list_has_spec _ _ _ _ _ Hc) by done. simpl.
  assert (Hiff : Z.land addr (not64 (bsize o - 1)) ∈ F o <-> exists a, a ∈ F o /\ a <= addr < a + bsize o).
  { split.
    - intros Hin. eexists. split; [exact Hin|]. apply block_base; auto. by apply Hb.
    - intros (a & Hin & Hx). apply block_base in Hx as <-; auto. by apply Hb. }
  case_bool_decide as Hd.
  - exists true. split; [done|]. split; [|done]. intros _. apply Hiff in Hd as (a & ? & ?).
    exists o, a. split; [set_solver | done].
  - destruct IH as (r & Hr & Hrs). exists r. split; [done|]. rewrite Hrs.
    setoid_rewrite elem_of_cons. split; [naive_solver|].
    intros (o' & a & [->|] & Hin & Hx); [|eauto]. destruct Hd. apply Hiff. eauto.
Qed.

Lemma is_free_spec fuel b F addr :
  buddy_inv b F -> (forall o, (length (F o) <= fuel)%nat) -> is_u64 addr ->
  exists r, BuddyAllocator.is_free fuel b addr = Some r /\ (r = true <-> free_at F addr).
Proof.
  intros Hb Hlen Haddr.
  destruct (is_free_go_spec fuel b F addr (seq 0 (S MAX_ORDER)) Hb Hlen Haddr) as (r & Hr & Hrs).
  { apply Forall_forall. intros o Ho%elem_of_seq. lia. }
  exists r. split; [done|]. rewrite Hrs. unfold free_at. split; [naive_solver|].
  intros (o & a & Hin & Hx). exists o, a. split; [|done]. apply elem_of_seq.
  destruct (decide (o <= MAX_ORDER)%nat); [lia|].
  rewrite (bi_high _ (bi_blocks _ _ Hb)) in Hin by lia. by apply elem_of_nil in Hin.
Qed.

Lemma walk_list_spec {A} fuel b (f : A -> Z -> A) acc h l :
  chain b h l -> (length l <= fuel)%nat ->
  BuddyAllocator.walk_list fuel b f acc h = Some (foldl f acc l).
Proof.
  revert acc h l. induction fuel as [|fuel IH]; intros acc h [|a l] Hc Hlen; simpl in Hlen; try lia.
  - simpl in Hc. by subst.
  - simpl in Hc. by subst.
  - destruct Hc as (-> & next & Hr & Hc). simpl. rewrite Hr. simpl. apply IH; [done | lia].
Qed.

(** [count_free_pages] is the number of free pages, [2^order] per block. *)
Lemma count_free_pages_spec fuel b F :
  buddy_inv b F -> (forall o, (length (F o) <= fuel)%nat) ->
  BuddyAllocator.count_free_pages fuel b =
    Some (u64 (foldr Z.add 0 ((fun o => Z.of_nat (length (F o)) * 2 ^ Z.of_nat o) <$> seq 0 (S MAX_ORDER)))).
Proof.
  intros Hb Hlen. unfold BuddyAllocator.count_free_pages.
  assert (Hl : forall o l t, foldl (fun total (_ : Z) => u64 (total + Z.shiftl 1 (Z.of_nat o))) (u64 t) l =
    u64 (t + Z.of_nat (length l) * 2 ^ Z.of_nat o)).
  { intros o l. rewrite Z.shiftl_1_l. induction l as [|a l IH]; intros t; simpl.
    - f_equal. lia.
    - assert (Hu : u64 (u64 t + 2 ^ Z.of_nat o) = u64 (t + 2 ^ Z.of_nat o))
        by (unfold u64; apply Zplus_mod_idemp_l).
      rewrite Hu, IH. f_equal. lia. }
  assert (Ho : Forall (fun o => (o <= MAX_ORDER)%nat) (seq 0 (S MAX_ORDER))).
  { apply Forall_forall. intros o Hin%elem_of_seq. lia. }
  assert (Hgo : forall t, BuddyAllocator.walk_orders fuel b
      (fun o total _ => u64 (total + Z.shiftl 1 (Z.of_nat o))) (u64 t) (seq 0 (S MAX_ORDER)) =
    Some (u64 (t + foldr Z.add 0
      ((fun o => Z.of_nat (length (F o)) * 2 ^ Z.of_nat o) <$> seq 0 (S MAX_ORDER))))).
  { induction Ho as [|o orders Ho _ IH]; intros t; simpl; [do 2 f_equal; lia|].
    destruct (bi_chain _ _ Hb o Ho) as (h & -> & Hc). simpl.
    rewrite (walk_list_spec _ _ _ _ _ _ Hc) by done. simpl. rewrite Hl, IH. do 2 f_equal. by rewrite <- Z.add_assoc. }
  exact (Hgo 0).
Qed.

(** A reference taken and dropped leaves the count as it was, and queues the
    frame exactly when there was no other reference. *)
Lemma increment_decrement tbl phys c :
  counts tbl !! FrameInfo.index phys = Some c -> 0 <= c < 65535 ->
  FrameInfo.decrement (FrameInfo.increment (Some tbl) phys) phys =
    (c, Some (mkRefCountTable (counts tbl)
                (if c =? 0 then deferred tbl ++ [phys] else deferred tbl))).
Proof.
  intros Hc Hr. unfold FrameInfo.decrement, FrameInfo.increment. rewrite Hc. simpl.
  rewrite list_lookup_insert_eq by by eapply lookup_lt_Some.
  assert (E1 : u16 (c + 1) = c + 1) by (apply Z.mod_small; lia). rewrite E1.
  replace (c + 1 - 1) with c by lia. assert (E2 : u16 c = c) by (apply Z.mod_small; lia).
  rewrite E2, list_insert_insert_eq, list_insert_id by done.
  destruct (Z.eqb_spec (c + 1) 1), (Z.eqb_spec c 0); try lia; [by subst | done].
Qed.

(** ** Clients *)

(** The allocator with the blocks its clients hold. *)
Record Pool := mkPool { pool_b : BuddyAllocator; pool_held : list (Z * nat) }.

(** Clients allocate any order and free what they hold. *)
Inductive pool_step : Pool -> Pool -> Prop :=
  | pool_alloc b held o a b' :
      BuddyAllocator.allocate_at_order b o = Some (Some a, b') ->
      pool_step (mkPool b held) (mkPool b' ((a, o) :: held))
  | pool_exhausted b held o b' :
      BuddyAllocator.allocate_at_order b o = Some (None, b') ->
      pool_step (mkPool b held) (mkPool b' held)
  | pool_free b held1 a o held2 fuel b' :
      BuddyAllocator.deallocate_at_order fuel b a o = Some b' ->
      pool_step (mkPool b (held1 ++ (a, o) :: held2)) (mkPool b' (held1 ++ held2)).

Definition held_at (held : list (Z * nat)) (x : Z) : Prop :=
  exists a o, (a, o) ∈ held /\ a <= x < a + bsize o.

(** Held blocks are disjoint from each other and from the free ones, and
    together they are the memory the allocator was given. *)
Record pool_inv (region : Z -> Prop) (p : Pool) (F : Blocks) : Prop := {
  pi_buddy : buddy_inv (pool_b p) F;
  pi_held a o : (a, o) ∈ pool_held p -> block_ok a o /\ (o <= MAX_ORDER)%nat /\ apart F a o;
  pi_disjoint : ForallOrdPairs (fun x y => blocks_disjoint x.1 x.2 y.1 y.2) (pool_held p);
  pi_region x : region x <-> free_at F x \/ held_at (pool_held p) x;
}.

Lemma apart_free F a o :
  (forall x, a <= x < a + bsize o -> ~ free_at F x) -> apart F a o.
Proof.
  intros H o' a' Hin. pose proof (bsize_pos o). pose proof (bsize_pos o').
  destruct (decide (a + bsize o <= a')); [by left|]. right.
  destruct (decide (a' + bsize o' <= a)); [done|].
  destruct (H (Z.max a a')); [lia|]. exists o', a'. split; [done | lia].
Qed.

Lemma apart_not_free F a o x : apart F a o -> a <= x < a + bsize o -> ~ free_at F x.
Proof. intros Ha Hx (o' & a' & Hin & Hx'). destruct (Ha _ _ Hin); lia. Qed.

Lemma alloc_order b F o r b' :
  buddy_inv b F -> BuddyAllocator.allocate_at_order b o = Some (r, b') ->
  match r with
  | None => b' = b /\ forall o', (o <= o')%nat -> F o' = []
  | Some a => (o <= MAX_ORDER)%nat /\ exists F', buddy_inv b' F' /\ alloc_rel F F' a o
  end.
Proof.
  intros Hb. unfold BuddyAllocator.allocate_at_order.
  destruct (decide (o <= MAX_ORDER)%nat).
  - destruct (alloc_go_spec (S (S (MAX_ORDER - o))) b F o Hb) as [[-> ?]|(a & b1 & F1 & -> & ? & ?)];
      [lia | lia | |]; intros [= <- <-]; eauto.
  - replace (MAX_ORDER - o)%nat with O by lia. cbn [BuddyAllocator.alloc_go].
    rewrite (proj2 (Nat.ltb_lt _ _)) by lia. intros [= <- <-]. split; [done|].
    intros o' Ho'. apply Hb. lia.
Qed.

(** More fuel does not change a result. *)
Lemma remove_walk_mono fuel fuel' b addr o prev cur r :
  (fuel <= fuel')%nat -> BuddyAllocator.remove_walk fuel b addr o prev cur = Some r ->
  BuddyAllocator.remove_walk fuel' b addr o prev cur = Some r.
Proof.
  revert fuel' prev cur. induction fuel as [|fuel IH]; intros fuel' prev cur Hle.
  { destruct cur; simpl; [done|]. by destruct fuel'. }
  destruct fuel' as [|fuel']; [lia|]. simpl. destruct cur as [c|]; [|done].
  destruct (BuddyAllocator.read_next_ptr b c); simpl; [|done].
  destruct (c =? addr); [done|]. apply IH. lia.
Qed.

Lemma dealloc_go_mono depth fuel fuel' b a o r :
  (fuel <= fuel')%nat -> BuddyAllocator.dealloc_go depth fuel b a o = Some r ->
  BuddyAllocator.dealloc_go depth fuel' b a o = Some r.
Proof.
  intros Hle. revert b a o. induction depth as [|depth IH]; intros b a o; [done|].
  cbn [BuddyAllocator.dealloc_go]. destruct (_ <=? _)%nat; [done|].
  destruct (phys_new _) as [bd|]; simpl; [|done]. unfold BuddyAllocator.remove_block.
  destruct (free_lists b !! o) as [h|]; simpl; [|done].
  destruct (BuddyAllocator.remove_walk fuel b bd o None h) as [[found b1]|] eqn:E; simpl; [|done].
  rewrite (remove_walk_mono _ fuel' _ _ _ _ _ _ Hle E). simpl. destruct found; [apply IH | done].
Qed.

Lemma blocks_bound F : blocks_inv F -> exists n, forall o, (length (F o) <= n)%nat.
Proof.
  intros HF. exists (sum_list_with (fun o => length (F o)) (seq 0 (S MAX_ORDER))). intros o.
  destruct (decide (o <= MAX_ORDER)%nat).
  - apply (sum_list_with_in o (fun o => length (F o))), elem_of_seq. lia.
  - rewrite (bi_high _ HF) by lia. simpl. lia.
Qed.

Lemma dealloc_order b F a o fuel b' :
  buddy_inv b F -> (o <= MAX_ORDER)%nat -> block_ok a o -> apart F a o ->
  BuddyAllocator.deallocate_at_order fuel b a o = Some b' ->
  exists F', buddy_inv b' F' /\ dealloc_rel F F' a o.
Proof.
  intros Hb Ho Hok Hap Hd. destruct (blocks_bound F (bi_blocks _ _ Hb)) as [n Hn].
  apply (dealloc_go_mono _ fuel (Nat.max fuel n)) in Hd; [|lia].
  destruct (dealloc_go_spec (S (MAX_ORDER - o)) (Nat.max fuel n) b F a o) as (b1 & F1 & Hd1 & ? & ?);
    [done | done | lia | done | done | intros o'; specialize (Hn o'); lia |].
  simplify_eq. eauto.
Qed.

Lemma held_at_cons a o held x :
  held_at ((a, o) :: held) x <-> a <= x < a + bsize o \/ held_at held x.
Proof.
  unfold held_at. setoid_rewrite elem_of_cons. split.
  - intros (a' & o' & [[= -> ->]|] & ?); eauto.
  - intros [|(a' & o' & ? & ?)]; [exists a, o | exists a', o']; auto.
Qed.

Lemma ForallOrdPairs_middle {A} (R : A -> A -> Prop) l1 x l2 :
  (forall y z, R y z -> R z y) ->
  ForallOrdPairs R (l1 ++ x :: l2) <-> ForallOrdPairs R (x :: l1 ++ l2).
Proof.
  intros Hsym. induction l1 as [|y l1 IH]; simpl; [done|]. split.
  - intros H. inversion H as [|? ? Hy Hr]; subst. apply IH in Hr.
    inversion Hr as [|? ? Hx Hr2]; subst. apply Forall_app in Hy as [Hy1 [Hyx Hy2]%Forall_cons].
    constructor; [constructor; auto|]. constructor; [|done]. by apply Forall_app.
  - intros H. inversion H as [|? ? Hx Hr]; subst. inversion Hr as [|? ? Hy Hr2]; subst.
    apply Forall_cons in Hx as [Hxy Hx]. apply Forall_app in Hy as [Hy1 Hy2].
    constructor; [apply Forall_app; split; [done|]; constructor; auto|].
    apply IH. by constructor.
Qed.

Lemma pool_alloc_inv region b held F o a b' :
  pool_inv region (mkPool b held) F ->
  BuddyAllocator.allocate_at_order b o = Some (Some a, b') ->
  exists F', pool_inv region (mkPool b' ((a, o) :: held)) F'.
Proof.
  intros [Hb Hheld Hdis Hreg] Ha. simpl in *.
  destruct (alloc_order _ _ _ _ _ Hb Ha) as (Ho & F' & Hb' & Hrel). exists F'.
  assert (Hsub : forall x, free_at F' x -> free_at F x) by (intros; apply (al_free _ _ _ _ Hrel); auto).
  assert (Hmine : forall x, a <= x < a + bsize o -> free_at F x)
    by (intros; apply (al_free _ _ _ _ Hrel); auto).
  split; simpl.
  - done.
  - intros a' o'. rewrite elem_of_cons. intros [[= -> ->]|Hin].
    + split_and!; [apply Hrel | done | apply Hrel].
    + destruct (Hheld _ _ Hin) as (? & ? & Hap). split_and!; [done..|].
      apply apart_free. intros x Hx Hf%Hsub. by eapply apart_not_free.
  - constructor; [|done]. apply Forall_forall. intros [a' o'] Hin. simpl.
    destruct (Hheld _ _ Hin) as (_ & _ & Hap). pose proof (bsize_pos o). pose proof (bsize_pos o').
    destruct (decide (a + bsize o <= a')); [by left|]. right.
    destruct (decide (a' + bsize o' <= a)); [done|].
    destruct (apart_not_free F a' o' (Z.max a a') Hap); [lia|]. apply Hmine. lia.
  - intros x. rewrite Hreg, (al_free _ _ _ _ Hrel), held_at_cons. tauto.
Qed.

Lemma pool_free_inv region b held1 a o held2 F fuel b' :
  pool_inv region (mkPool b (held1 ++ (a, o) :: held2)) F ->
  BuddyAllocator.deallocate_at_order fuel b a o = Some b' ->
  exists F', pool_inv region (mkPool b' (held1 ++ held2)) F'.
Proof.
  intros [Hb Hheld Hdis Hreg] Hd. simpl in *.
  destruct (Hheld a o) as (Hok & Ho & Hap); [set_solver|].
  destruct (dealloc_order _ _ _ _ _ _ Hb Ho Hok Hap Hd) as (F' & Hb' & Hrel). exists F'.
  apply (ForallOrdPairs_middle _ held1 (a, o) held2) in Hdis.
  2: { intros [] []. apply blocks_disjoint_sym. }
  inversion Hdis as [|? ? Hx Hdis']; subst. rewrite Forall_forall in Hx.
  assert (Hat : forall x, held_at (held1 ++ (a, o) :: held2) x <->
    a <= x < a + bsize o \/ held_at (held1 ++ held2) x).
  { intros x. rewrite <- held_at_cons. unfold held_at. set_solver. }
  split; simpl; [done | | done|].
  - intros a' o' Hin. destruct (Hheld a' o') as (? & ? & Hap'); [set_solver|]. split_and!; [done..|].
    apply apart_free. intros x Hx' Hf. apply (de_free _ _ _ _ Hrel) in Hf as [Hf|Hf].
    + by eapply apart_not_free.
    + destruct (Hx _ Hin) as [|]; simpl in *; lia.
  - intros x. rewrite Hreg, Hat, (de_free _ _ _ _ Hrel). tauto.
Qed.

Lemma pool_step_inv region p F p' :
  pool_inv region p F -> pool_step p p' -> exists F', pool_inv region p' F'.
Proof.
  intros Hp Hs. destruct Hs as [b held o a b' Ha|b held o b' Ha|b held1 a o held2 fuel b' Hd].
  - by eapply pool_alloc_inv.
  - pose proof (alloc_order _ _ _ _ _ (pi_buddy _ _ _ Hp) Ha) as [-> _]. eauto.
  - by eapply pool_free_inv.
Qed.

(** ** Results *)

Lemma new_inv m : buddy_inv (BuddyAllocator.new m) (fun _ => []).
Proof.
  split.
  - split; try done; intros; [by apply elem_of_nil in H | constructor | by apply elem_of_nil in H].
  - intros o Ho. exists None. split; [|done]. unfold BuddyAllocator.new. cbn [free_lists].
    apply lookup_replicate_2. lia.
Qed.

(** Allocation is total and exact: [allocate_at_order] either finds no free
    block of the order or above and changes nothing, or returns an aligned
    block inside physical memory such that precisely the addresses of that
    block stop being free (splitting larger blocks as needed), with the
    in-memory free lists consistent and no newly mergeable pair. *)
Theorem buddy_allocate b F o :
  buddy_inv b F ->
  (BuddyAllocator.allocate_at_order b o = Some (None, b) /\
     forall o', (o <= o')%nat -> F o' = []) \/
  (exists a b' F', BuddyAllocator.allocate_at_order b o = Some (Some a, b') /\
     buddy_inv b' F' /\ alloc_rel F F' a o).
Proof.
  intros Hb. unfold BuddyAllocator.allocate_at_order.
  apply alloc_go_spec; [done | lia | lia].
Qed.

Lemma buddy_allocate_witness :
  exists o, BuddyAllocator.allocate_at_order (BuddyAllocator.new ∅) o =
    Some (None, BuddyAllocator.new ∅).
Proof.
  exists O. destruct (buddy_allocate (BuddyAllocator.new ∅) (fun _ => []) O (new_inv ∅))
    as [[H _]|(a & b' & F' & H & _ & Hrel)]; [exact H|].
  exfalso. destruct (proj2 (al_free _ _ _ _ Hrel a)) as (o & a' & Hin & _).
  - right. pose proof (bsize_pos 0). lia.
  - inversion Hin.
Defined.

(** Freeing is total and exact: given a block that overlaps no free block,
    [deallocate_at_order] makes exactly its addresses free again, merging
    with the buddy as long as that is free; if no two free buddies existed
    before, none do after. *)
Theorem buddy_deallocate fuel b F a o :
  buddy_inv b F -> (o <= MAX_ORDER)%nat -> block_ok a o -> apart F a o ->
  (forall o', (length (F o') <= fuel)%nat) ->
  exists b' F', BuddyAllocator.deallocate_at_order fuel b a o = Some b' /\
    buddy_inv b' F' /\ dealloc_rel F F' a o.
Proof. intros. apply dealloc_go_spec; try done. lia. Qed.

Lemma buddy_deallocate_witness :
  exists b', BuddyAllocator.deallocate_at_order 0 (BuddyAllocator.new ∅) 8192 1 = Some b'.
Proof.
  destruct (buddy_deallocate 0 (BuddyAllocator.new ∅) (fun _ => []) 8192 1) as (b' & F' & H & _).
  - apply new_inv.
  - unfold MAX_ORDER. lia.
  - split; [lia|]. split; [exists 1; reflexivity | vm_compute; discriminate].
  - intros o' a' Hin. inversion Hin.
  - intros o'. simpl. lia.
  - exists b'. exact H.
Defined.

(** C6. No double allocation: over any sequence of allocations and frees in
    which clients free only what they hold, the blocks held are pairwise
    disjoint and disjoint from the free blocks, and held and free memory
    together remain exactly the memory the allocator started with. *)
Theorem buddy_no_overlap region p F p' :
  pool_inv region p F -> rtc pool_step p p' ->
  exists F', pool_inv region p' F'.
Proof.
  intros Hp Hr. revert F Hp. induction Hr as [|p1 p2 p3 Hs _ IH]; intros F Hp; [eauto|].
  destruct (pool_step_inv _ _ _ _ Hp Hs) as [F' Hp']. by eapply IH.
Qed.

(** Memory [0, 16K) handed to a fresh allocator. *)
Definition small_pool : Pool :=
  mkPool (default (BuddyAllocator.new ∅) (BuddyAllocator.add_region (BuddyAllocator.new ∅) 0 16384)) [].

Lemma small_pool_inv : exists F, pool_inv (fun x => 0 <= x < 16384) small_pool F.
Proof.
  destruct (add_region_go_spec 5 (BuddyAllocator.new ∅) (fun _ => []) 0 16384) as (b & F & Hb & Hi & Hf).
  - apply new_inv.
  - lia.
  - unfold PHYS_LIMIT. lia.
  - by exists 0.
  - by exists 4.
  - intros o a Hin. by apply elem_of_nil in Hin.
  - lia.
  - exists F. assert (E : pool_b small_pool = b).
    { unfold small_pool, BuddyAllocator.add_region. cbn [pool_b].
      replace (Z.to_nat ((16384 - 0) / 4096 + 1)) with 5%nat by done. by rewrite Hb. }
    split; cbn [pool_b pool_held].
    + by rewrite E.
    + intros a o Hin. by apply elem_of_nil in Hin.
    + constructor.
    + intros x. rewrite Hf. unfold free_at at 1. split; [auto|].
      intros [[(o & a & Hin & _)|]|(o & a & Hin & _)]; [by apply elem_of_nil in Hin | done |
        by apply elem_of_nil in Hin].
Qed.

Lemma buddy_no_overlap_witness : exists F, pool_inv (fun x => 0 <= x < 16384) small_pool F.
Proof.
  destruct small_pool_inv as [F HF].
  exact (buddy_no_overlap (fun x => 0 <= x < 16384) small_pool F small_pool HF (rtc_refl _ _)).
Defined.

(** [add_region] makes exactly the pages of an aligned, unused region free,
    in blocks that respect alignment, and [is_free] then answers for every
    address whether it lies in a free block. *)
Theorem buddy_region_query b F start end_ fuel addr :
  buddy_inv b F -> 0 <= start <= end_ -> end_ <= PHYS_LIMIT ->
  (4096 | start) -> (4096 | end_) -> region_apart F start end_ -> is_u64 addr ->
  exists b' F', BuddyAllocator.add_region b start end_ = Some b' /\ buddy_inv b' F' /\
    ((forall o, (length (F' o) <= fuel)%nat) ->
     exists r, BuddyAllocator.is_free fuel b' addr = Some r /\
       (r = true <-> free_at F addr \/ start <= addr < end_)).
Proof.
  intros Hb Hs Hlim Hds Hde Hap Haddr. unfold BuddyAllocator.add_region.
  destruct (add_region_go_spec (Z.to_nat ((end_ - start) / 4096 + 1)) b F start end_)
    as (b' & F' & Hgo & Hb' & Hf); [done | lia | done..| |].
  { pose proof (Z.div_mod (end_ - start) 4096). pose proof (Z.mod_pos_bound (end_ - start) 4096).
    pose proof (Z.div_pos (end_ - start) 4096). lia. }
  exists b', F'. split_and!; [done..|]. intros Hlen.
  destruct (is_free_spec fuel b' F' addr) as (r & Hr & Hrs); [done..|].
  exists r. split; [done|]. by rewrite Hrs, Hf.
Qed.

Lemma buddy_region_query_witness :
  exists b', BuddyAllocator.add_region (BuddyAllocator.new ∅) 0 16384 = Some b'.
Proof.
  destruct (buddy_region_query (BuddyAllocator.new ∅) (fun _ => []) 0 16384 0 0) as (b' & _ & H & _).
  - apply new_inv.
  - lia.
  - unfold PHYS_LIMIT. lia.
  - exists 0. reflexivity.
  - exists 4. reflexivity.
  - intros o a Hin. inversion Hin.
  - split; lia.
  - exists b'. exact H.
Defined.
