(* ===== verification/Seccomp.v ===== *)
(** * System call filtering

    Model of [crates/syscalls/src/seccomp.rs], the per-process state and the
    classic BPF interpreter, and of [kernel/src/syscalls/seccomp.rs], the
    [seccomp] system call and the hook every system call goes through. *)

From S2P Require Import Prelude.

(** ** Data *)

Inductive SeccompMode := Disabled | Strict | Filter.

#[export] Instance SeccompMode_eq_dec : EqDecision SeccompMode.
Proof. solve_decision. Defined.

Record SeccompBpfInstruction := mkBpf { code : Z; jt : Z; jf : Z; k : Z }.

Definition SECCOMP_RET_KILL_PROCESS : Z := 0x00000000.
Definition SECCOMP_RET_TRAP : Z := 0x00020000.
Definition SECCOMP_RET_ERRNO : Z := 0x00030000.
Definition SECCOMP_RET_TRACE : Z := 0x7FF00000.
Definition SECCOMP_RET_LOG : Z := 0x7FFC0000.
Definition SECCOMP_RET_ALLOW : Z := 0x7FFF0000.
Definition SECCOMP_RET_ACTION : Z := 0xFFFF0000.

Definition BPF_LD : Z := 0x00.
Definition BPF_LDX : Z := 0x01.
Definition BPF_ST : Z := 0x02.
Definition BPF_STX : Z := 0x03.
Definition BPF_ALU : Z := 0x04.
Definition BPF_JMP : Z := 0x05.
Definition BPF_RET : Z := 0x06.

Definition BPF_W : Z := 0x00.
Definition BPF_H : Z := 0x08.
Definition BPF_B : Z := 0x10.
Definition BPF_K : Z := 0x00.
Definition BPF_X : Z := 0x08.
Definition BPF_ABS : Z := 0x20.
Definition BPF_IND : Z := 0x40.
Definition BPF_MEM : Z := 0x60.

Definition BPF_ADD : Z := 0x00.
Definition BPF_SUB : Z := 0x10.
Definition BPF_MUL : Z := 0x20.
Definition BPF_DIV : Z := 0x30.
Definition BPF_OR : Z := 0x40.
Definition BPF_AND : Z := 0x50.
Definition BPF_LSH : Z := 0x60.
Definition BPF_RSH : Z := 0x70.
Definition BPF_NEG : Z := 0x80.
Definition BPF_MOD : Z := 0x90.
Definition BPF_XOR : Z := 0xA0.

Definition BPF_JEQ : Z := 0x10.
Definition BPF_JGT : Z := 0x20.
Definition BPF_JGE : Z := 0x30.
Definition BPF_JSET : Z := 0x40.
Definition BPF_JNE : Z := 0x50.
Definition BPF_JLT : Z := 0xA0.
Definition BPF_JLE : Z := 0xB0.
Definition BPF_JMP_ALWAYS : Z := 0x00.

Record SeccompState := mkSeccomp {
  mode : SeccompMode;
  filter : list SeccompBpfInstruction;
  default_action : Z;
}.

(** ** The filter interpreter *)

Module SeccompState.

Definition default : SeccompState := mkSeccomp Disabled [] SECCOMP_RET_KILL_PROCESS.

Definition check_strict (syscall_nr : Z) : bool :=
  bool_decide (syscall_nr ∈ [0; 1; 3; 15; 60; 231]).

(** [struct seccomp_data]: number, architecture, instruction pointer (zero)
    and the six arguments, 64 bytes in all. *)
Definition build_seccomp_data (syscall_nr : Z) (args : list Z) : list Z :=
  le_bytes 4 (u32 syscall_nr) ++ le_bytes 4 0xC000003E ++ le_bytes 8 0 ++
  concat (le_bytes 8 <$> args).

(** Interpreter registers. *)
Record Cpu := mkCpu { pc : Z; acc : Z; x : Z; scratch : list Z }.

(** What one iteration does: go on, return an action, or panic on an index
    out of bounds. *)
Inductive Step := Next (c : Cpu) | Return (action : Z) | IndexPanic.

(** A sized load at [offset]: the guard [offset + n > 64] is computed with
    wrap-around, the element accesses are bounds-checked. *)
Inductive Load := Loaded (v : Z) | LoadDefault | LoadPanic.

Definition load_data (data : list Z) (size offset : Z) : Load :=
  let checked n :=
    if 64 <? u64 (offset + n) then LoadDefault
    else if offset + n <=? 64 then Loaded (le_value (slice (Z.to_nat offset) (Z.to_nat n) data))
    else LoadPanic in
  if size =? BPF_W then checked 4
  else if size =? BPF_H then checked 2
  else if size =? BPF_B then
    if 64 <=? offset then LoadDefault
    else Loaded (le_value (slice (Z.to_nat offset) 1 data))
  else LoadDefault.

Definition step_load (st : SeccompState) (data : list Z) (i : SeccompBpfInstruction) (c : Cpu) : Step :=
  let size := Z.land (code i) 0x18 in
  let source := Z.land (code i) 0xE0 in
  let value :=
    if source =? BPF_ABS then load_data data size (k i)
    else if source =? BPF_IND then load_data data size (u64 (x c + k i))
    else if source =? BPF_MEM then
      match scratch c !! Z.to_nat (k i) with Some v => Loaded v | None => LoadDefault end
    else LoadDefault in
  match value with
  | LoadDefault => Return (default_action st)
  | LoadPanic => IndexPanic
  | Loaded v =>
      Next (if Z.land (code i) 0x07 =? BPF_LD
            then mkCpu (pc c + 1) v (x c) (scratch c)
            else mkCpu (pc c + 1) (acc c) v (scratch c))
  end.

Definition step_store (i : SeccompBpfInstruction) (c : Cpu) : Step :=
  let v := if Z.land (code i) 0x07 =? BPF_ST then acc c else x c in
  Next (mkCpu (pc c + 1) (acc c) (x c)
          (if k i <? 16 then <[Z.to_nat (k i) := v]> (scratch c) else scratch c)).

Definition operand (i : SeccompBpfInstruction) (c : Cpu) : Z :=
  if Z.land (code i) 0x08 =? BPF_K then k i else x c.

Definition step_alu (st : SeccompState) (i : SeccompBpfInstruction) (c : Cpu) : Step :=
  let op := Z.land (code i) 0xF0 in
  let a := acc c in
  let o := operand i c in
  let set v := Next (mkCpu (pc c + 1) v (x c) (scratch c)) in
  if op =? BPF_ADD then set (u64 (a + o))
  else if op =? BPF_SUB then set (u64 (a - o))
  else if op =? BPF_MUL then set (u64 (a * o))
  else if op =? BPF_DIV then if o =? 0 then Return (default_action st) else set (a / o)
  else if op =? BPF_MOD then if o =? 0 then Return (default_action st) else set (a mod o)
  else if op =? BPF_OR then set (Z.lor a o)
  else if op =? BPF_AND then set (Z.land a o)
  else if op =? BPF_XOR then set (Z.lxor a o)
  else if op =? BPF_LSH then set (wrapping_shl64 a (u32 o))
  else if op =? BPF_RSH then set (wrapping_shr64 a (u32 o))
  else if op =? BPF_NEG then set (u64 (- i64 a))
  else Return (default_action st).

Definition jump_taken (op a o : Z) : bool :=
  if op =? BPF_JEQ then a =? o
  else if op =? BPF_JNE then negb (a =? o)
  else if op =? BPF_JGT then o <? a
  else if op =? BPF_JGE then o <=? a
  else if op =? BPF_JLT then a <? o
  else if op =? BPF_JLE then a <=? o
  else if op =? BPF_JSET then negb (Z.land a o =? 0)
  else if op =? BPF_JMP_ALWAYS then true
  else false.

Definition step_jmp (i : SeccompBpfInstruction) (c : Cpu) : Step :=
  let taken := jump_taken (Z.land (code i) 0xF0) (acc c) (operand i c) in
  Next (mkCpu (pc c + 1 + if taken then jt i else jf i) (acc c) (x c) (scratch c)).

Definition step_ret (st : SeccompState) (i : SeccompBpfInstruction) (c : Cpu) : Step :=
  let retval := if Z.land (code i) 0x08 =? BPF_X then x c else k i in
  if negb (Z.land retval SECCOMP_RET_ACTION =? 0) then Return retval
  else Return (default_action st).

(** One iteration of the loop, the final [pc] check included. *)
Definition step (st : SeccompState) (data : list Z) (c : Cpu) : Step :=
  match filter st !! Z.to_nat (pc c) with
  | None => Return (default_action st)
  | Some i =>
      let class := Z.land (code i) 0x07 in
      let r :=
        if (class =? BPF_LD) || (class =? BPF_LDX) then step_load st data i c
        else if (class =? BPF_ST) || (class =? BPF_STX) then step_store i c
        else if class =? BPF_ALU then step_alu st i c
        else if class =? BPF_JMP then step_jmp i c
        else if class =? BPF_RET then step_ret st i c
        else Next (mkCpu (pc c + 1) (acc c) (x c) (scratch c)) in
      match r with
      | Next c' =>
          if Z.of_nat (length (filter st)) + 10000 <? pc c' then Return (default_action st)
          else Next c'
      | o => o
      end
  end.

(** [None] when [fuel] iterations are not enough. *)
Fixpoint run (fuel : nat) (st : SeccompState) (data : list Z) (c : Cpu) : option Step :=
  match fuel with
  | O => None
  | S fuel =>
      match step st data c with
      | Next c' => run fuel st data c'
      | r => Some r
      end
  end.

Definition start : Cpu := mkCpu 0 0 0 (replicate 16 0).

(** Jumps only go forward, so one iteration per instruction and a last one
    are enough. *)
Definition check_filter (st : SeccompState) (syscall_nr : Z) (args : list Z) : option Step :=
  match filter st with
  | [] => Some (Return (default_action st))
  | _ => run (S (length (filter st))) st (build_seccomp_data syscall_nr args) start
  end.

End SeccompState.

(** ** The [seccomp] system call and the dispatch hook *)

(** [user_access::copy_from_user]: the bytes at a user address, or a fault. *)
Definition UserMemory := Z -> nat -> option (list Z).

(** The instruction in the eight bytes at [offset]. *)
Definition parse_insn (buf : list Z) (offset : nat) : SeccompBpfInstruction :=
  mkBpf (le_value (slice offset 2 buf)) (le_value (slice (offset + 2) 1 buf))
    (le_value (slice (offset + 3) 1 buf)) (le_value (slice (offset + 4) 4 buf)).

(** The parse loop over [i = from .. from + n], [None] for its [EINVAL]. *)
Fixpoint parse_insns (n from : nat) (buf : list Z) : option (list SeccompBpfInstruction) :=
  match n with
  | O => Some []
  | S n =>
      if (length buf <? from * 8 + 8)%nat then None
      else match parse_insns n (S from) buf with
           | Some l => Some (parse_insn buf (from * 8) :: l)
           | None => None
           end
  end.

Definition set_mode_filter (copy_from_user : UserMemory) (s : SeccompState) (user_insns : Z)
    : Z * SeccompState :=
  if user_insns =? 0 then (Errno.ret Errno.EINVAL, s)
  else
    match copy_from_user user_insns 16%nat with
    | None => (Errno.ret Errno.EFAULT, s)
    | Some hdr =>
        let len := le_value (slice 0 2 hdr) in
        let insns_ptr := le_value (slice 8 8 hdr) in
        if (len =? 0) || (4096 <? len) then (Errno.ret Errno.EINVAL, s)
        else
          match copy_from_user insns_ptr (Z.to_nat len * 8)%nat with
          | None => (Errno.ret Errno.EFAULT, s)
          | Some buf =>
              match parse_insns (Z.to_nat len) 0 buf with
              | None => (Errno.ret Errno.EINVAL, s)
              | Some l => (0, mkSeccomp Filter l (default_action s))
              end
          end
    end.

(** [proc] is the seccomp state of the current process, if there is one. *)
Definition sys_seccomp (copy_from_user : UserMemory) (proc : option SeccompState)
    (op flags user_insns : Z) : Z * option SeccompState :=
  match proc with
  | None => (Errno.ret Errno.ESRCH, None)
  | Some s =>
      if negb (bool_decide (mode s = Disabled)) then (Errno.ret Errno.EINVAL, Some s)
      else if op =? 1 then (0, Some (mkSeccomp Strict (filter s) (default_action s)))
      else if op =? 2 then
        let r := set_mode_filter copy_from_user s user_insns in (r.1, Some r.2)
      else if op =? 3 then
        ((if bool_decide (flags ∈ [SECCOMP_RET_KILL_PROCESS; SECCOMP_RET_TRAP;
                                   SECCOMP_RET_ERRNO; SECCOMP_RET_TRACE;
                                   SECCOMP_RET_LOG; SECCOMP_RET_ALLOW])
          then 0 else Errno.ret Errno.EOPNOTSUPP), Some s)
      else if op =? 4 then (Errno.ret Errno.ENOSYS, Some s)
      else (Errno.ret Errno.EINVAL, Some s)
  end.

(** What the hook decides: run the call, return a value instead (raising
    SIGSYS or not), or end the process. *)
Inductive Decision := Allow | Deny (ret : Z) (sigsys : bool) | Kill | KernelPanic.

Definition apply_action (action : Z) : Decision :=
  let a := Z.land action SECCOMP_RET_ACTION in
  if a =? SECCOMP_RET_ALLOW then Allow
  else if a =? SECCOMP_RET_KILL_PROCESS then Kill
  else if a =? SECCOMP_RET_TRAP then Deny (Errno.ret Errno.EPERM) true
  else if a =? SECCOMP_RET_ERRNO then
    let requested := Z.land action 0xFFFF in
    if requested =? 0 then Deny (Errno.ret Errno.EPERM) false
    else Deny (u64 (- requested)) false
  else if a =? SECCOMP_RET_LOG then Allow
  else Deny (Errno.ret Errno.EPERM) false.

(** [None] only if the filter needs more iterations than it has instructions. *)
Definition check_syscall (proc : option SeccompState) (nr : Z) (args : list Z) : option Decision :=
  match proc with
  | None => Some Allow
  | Some s =>
      match mode s with
      | Disabled => Some Allow
      | Strict =>
          Some (if SeccompState.check_strict nr then Allow
                else Deny (Errno.ret Errno.EPERM) false)
      | Filter =>
          match SeccompState.check_filter s nr args with
          | Some (SeccompState.Return action) => Some (apply_action action)
          | Some SeccompState.IndexPanic => Some KernelPanic
          | _ => None
          end
      end
  end.

(** ** The interpreter always ends *)

Definition wf_insn (i : SeccompBpfInstruction) : Prop :=
  is_u16 (code i) /\ is_u8 (jt i) /\ is_u8 (jf i) /\ is_u32 (k i).

Section Interpreter.
Context (st : SeccompState) (Hwf : Forall wf_insn (filter st)).

Lemma step_next data c c' :
  0 <= SeccompState.pc c -> SeccompState.step st data c = SeccompState.Next c' ->
  SeccompState.pc c < SeccompState.pc c' /\ SeccompState.pc c < Z.of_nat (length (filter st)).
Proof using Hwf.
  intros Hpc Hs. unfold SeccompState.step in Hs.
  destruct (filter st !! Z.to_nat (SeccompState.pc c)) as [i|] eqn:Hi; [|done].
  pose proof (lookup_lt_Some _ _ _ Hi) as Hlt. split; [|lia].
  destruct (Forall_lookup_1 _ _ _ _ Hwf Hi) as (_ & Hjt & Hjf & _).
  unfold is_u8 in Hjt, Hjf.
  unfold SeccompState.step_load, SeccompState.step_store, SeccompState.step_alu,
    SeccompState.step_jmp, SeccompState.step_ret in Hs.
  repeat (case_match; try discriminate); simplify_eq; cbn; repeat case_match; cbn; lia.
Qed.

Lemma run_total data fuel c :
  0 <= SeccompState.pc c ->
  Z.of_nat (length (filter st)) < Z.of_nat fuel + SeccompState.pc c -> (0 < fuel)%nat ->
  is_Some (SeccompState.run fuel st data c).
Proof using Hwf.
  revert c. induction fuel as [|fuel IH]; intros c Hpc Hf H0; [lia|]. cbn [SeccompState.run].
  destruct (SeccompState.step st data c) as [c'| |] eqn:Hs; [|eauto|eauto].
  destruct (step_next _ _ _ Hpc Hs). apply IH; lia.
Qed.

End Interpreter.

(** ** What the filter sees *)

(** A load of [n] bytes at [offset] of the [seccomp_data] of a call. *)
Definition load_abs (size offset nr : Z) (args : list Z) : SeccompState.Load :=
  SeccompState.load_data (SeccompState.build_seccomp_data nr args) size offset.

(** A filter reads what the call is: the 32-bit loads of the absolute
    addressing mode at 0 and 4 give the call number modulo 2^32 and the
    x86_64 audit architecture, and those at [16 + 8 i] and [20 + 8 i] the low
    and the high half of argument [i]; together they give back the argument. *)
Theorem seccomp_data_words (nr : Z) (args : list Z) (i : nat) (v : Z) :
  length args = 6%nat -> args !! i = Some v -> is_u64 v ->
  load_abs BPF_W 0 nr args = SeccompState.Loaded (u32 nr) /\
  load_abs BPF_W 4 nr args = SeccompState.Loaded 0xC000003E /\
  load_abs BPF_W (16 + 8 * Z.of_nat i) nr args = SeccompState.Loaded (u32 v) /\
  load_abs BPF_W (20 + 8 * Z.of_nat i) nr args = SeccompState.Loaded (v / M32).
Proof.
  intros Hlen Hi Hv.
  destruct args as [|a0 [|a1 [|a2 [|a3 [|a4 [|a5 [|a6 args]]]]]]]; try discriminate Hlen.
  assert (Hw : forall w, le_value (le_bytes 4 w) = u32 w)
    by (intros w; by rewrite le_value_le_bytes).
  assert (Hhi : u32 (v / 256 / 256 / 256 / 256) = v / M32).
  { rewrite !Z.div_div by lia. unfold u32, is_u64 in *. apply Z.mod_small.
    split; [apply Z.div_pos; lia|apply Z.div_lt_upper_bound; lia]. }
  assert (Hnr : u32 nr = le_value (le_bytes 4 (u32 nr)))
    by (rewrite Hw; unfold u32; by rewrite Z.mod_mod).
  rewrite <- Hhi, Hnr, <- (Hw v), <- (Hw (v / 256 / 256 / 256 / 256)).
  do 6 (destruct i as [|i]; [injection Hi as ->; repeat split|]). done.
Qed.

(** The theorem at a call with six arguments, for the last one. *)
Lemma seccomp_data_words_witness :
  load_abs BPF_W 60 257 [1; 2; 3; 4; 5; 0x100000002] = SeccompState.Loaded 1.
Proof.
  refine (proj2 (proj2 (proj2 (seccomp_data_words 257 [1; 2; 3; 4; 5; 0x100000002] 5
            0x100000002 _ _ _)))); [done|done|unfold is_u64; lia].
Defined.

(** ** Installing a filter *)

(** What is relied on of [copy_from_user]: bytes, as many as asked for. *)
Definition copies (m : UserMemory) : Prop :=
  forall p n l, m p n = Some l -> length l = n /\ bytes l.

(** User memory holding [img] from address 0 on and nothing else. *)
Definition image_memory (img : list Z) : UserMemory := fun p n =>
  if (0 <=? p) && (p + Z.of_nat n <=? Z.of_nat (length img))
  then Some (slice (Z.to_nat p) n img) else None.

Lemma image_memory_copies img : bytes img -> copies (image_memory img).
Proof.
  intros Hb p n l. unfold image_memory.
  destruct (Z.leb_spec 0 p), (Z.leb_spec (p + Z.of_nat n) (Z.of_nat (length img)));
    cbn; [|done..]. intros [= <-].
  split; [apply length_slice; lia|by apply Forall_slice].
Qed.

Lemma forallb_bytes l : forallb (fun b => (0 <=? b) && (b <? M8)) l = true -> bytes l.
Proof.
  rewrite forallb_forall. intros H. apply List.Forall_forall. intros b Hb.
  specialize (H b Hb). unfold is_u8. lia.
Qed.

Lemma parse_insn_wf buf o : bytes buf -> (o + 8 <= length buf)%nat -> wf_insn (parse_insn buf o).
Proof.
  intros Hb Ho.
  assert (forall d n, (d + n <= 8)%nat ->
    0 <= le_value (slice (o + d) n buf) < M8 ^ Z.of_nat n) as Hr.
  { intros d n Hd. rewrite <- (length_slice (o + d) n buf) at 3 by lia.
    by apply le_value_range, Forall_slice. }
  pose proof (Hr 0%nat 2%nat ltac:(lia)) as H0. rewrite Nat.add_0_r in H0.
  pose proof (Hr 2%nat 1%nat ltac:(lia)). pose proof (Hr 3%nat 1%nat ltac:(lia)).
  pose proof (Hr 4%nat 4%nat ltac:(lia)). done.
Qed.

Lemma parse_insns_spec n from buf l :
  bytes buf -> parse_insns n from buf = Some l -> length l = n /\ Forall wf_insn l.
Proof.
  intros Hb. revert from l. induction n as [|n IH]; intros from l; cbn [parse_insns].
  { by intros [= <-]. }
  destruct (Nat.ltb_spec (length buf) (from * 8 + 8)); [done|].
  destruct (parse_insns n (S from) buf) as [l'|] eqn:Hp; [|done]. intros [= <-].
  destruct (IH _ _ Hp) as [<- Hl]. split; [done|].
  constructor; [by apply parse_insn_wf|done].
Qed.

(** The states a process can bring itself to. *)
Inductive seccomp_reachable : SeccompState -> Prop :=
| reach_default : seccomp_reachable SeccompState.default
| reach_call m s s' op flags user_insns r :
    seccomp_reachable s -> copies m ->
    sys_seccomp m (Some s) op flags user_insns = (r, Some s') ->
    seccomp_reachable s'.

Definition seccomp_inv (s : SeccompState) : Prop :=
  Forall wf_insn (filter s) /\ default_action s = SECCOMP_RET_KILL_PROCESS /\
  match mode s with
  | Filter => (1 <= length (filter s) <= 4096)%nat
  | _ => filter s = []
  end.

Lemma set_mode_filter_inv m s p r s' :
  copies m -> seccomp_inv s -> set_mode_filter m s p = (r, s') ->
  s' = s \/ (r = 0 /\ mode s' = Filter /\ seccomp_inv s').
Proof.
  intros Hm (_ & Hd & _). unfold set_mode_filter.
  destruct (p =? 0); [intros [= _ <-]; auto|].
  destruct (m p 16%nat) as [hdr|] eqn:Hh; [|intros [= _ <-]; auto].
  set (len := le_value (slice 0 2 hdr)). set (q := le_value (slice 8 8 hdr)).
  destruct (Z.eqb_spec len 0); [intros [= _ <-]; auto|].
  destruct (Z.ltb_spec 4096 len); [intros [= _ <-]; auto|]. cbn [orb].
  destruct (m q (Z.to_nat len * 8)%nat) as [buf|] eqn:Hb; [|intros [= _ <-]; auto].
  destruct (Hm _ _ _ Hb) as [Hl Hbytes].
  destruct (parse_insns (Z.to_nat len) 0 buf) as [l|] eqn:Hp; [|intros [= _ <-]; auto].
  intros [= <- <-]. right. destruct (parse_insns_spec _ _ _ _ Hbytes Hp) as [Hn Hwf].
  do 3 (split; [done|]). split; [done|]. cbn. rewrite Hn.
  assert (0 <= len); [|lia].
  by apply le_value_range, Forall_slice, (Hm _ _ _ Hh).
Qed.

Lemma sys_seccomp_inv m s op flags p r s' :
  copies m -> seccomp_inv s -> sys_seccomp m (Some s) op flags p = (r, Some s') ->
  s' = s \/ (mode s = Disabled /\ r = 0 /\ mode s' <> Disabled /\ seccomp_inv s').
Proof.
  intros Hm Hinv. unfold sys_seccomp.
  destruct (bool_decide_reflect (mode s = Disabled)) as [Hd|]; cbn [negb];
    [|intros [= _ <-]; auto].
  destruct (op =? 1).
  { intros [= <- <-]. right. destruct Hinv as (Hwf & Ha & Hf). rewrite Hd in Hf.
    by repeat split. }
  destruct (op =? 2); [|repeat case_match; intros [= _ <-]; auto].
  destruct (set_mode_filter m s p) as [r0 s0] eqn:Hs. intros [= <- <-].
  destruct (set_mode_filter_inv _ _ _ _ _ Hm Hinv Hs) as [->|(-> & Hf & ?)]; [auto|].
  right. rewrite Hf. auto.
Qed.

Lemma seccomp_reachable_inv s : seccomp_reachable s -> seccomp_inv s.
Proof.
  induction 1 as [|m s s' op flags p r _ IH Hm Hc]; [by repeat split|].
  destruct (sys_seccomp_inv _ _ _ _ _ _ _ Hm IH Hc) as [->|(_ & _ & _ & ?)]; done.
Qed.

(** ** Properties *)

(** Seccomp is a one-way door. In every state a process can bring itself
    to, the filter is well formed, has between 1 and 4096 instructions in
    filter mode and none otherwise, and the default action is to kill. A call
    that changes the state reports success, leaves [Disabled] and is made in
    [Disabled]; so once a mode is set, every later call answers [EINVAL] and
    changes nothing. *)
Theorem seccomp_one_way (s s' : SeccompState) m op flags user_insns r :
  seccomp_reachable s -> copies m ->
  sys_seccomp m (Some s) op flags user_insns = (r, Some s') ->
  seccomp_inv s' /\
  (s' <> s -> mode s = Disabled /\ mode s' <> Disabled /\ r = 0) /\
  (mode s <> Disabled -> r = Errno.ret Errno.EINVAL /\ s' = s).
Proof.
  intros Hs Hm Hc. apply seccomp_reachable_inv in Hs.
  destruct (sys_seccomp_inv _ _ _ _ _ _ _ Hm Hs Hc) as [->|(Hd & -> & Hd' & ?)].
  - split; [done|]. split; [done|]. intros Hd. split; [|done].
    unfold sys_seccomp in Hc. rewrite bool_decide_false in Hc by done.
    by injection Hc as <-.
  - split; [done|]. by split; [|intros []].
Qed.

(** A second call, made in strict mode. *)
Lemma seccomp_one_way_witness :
  let strict := mkSeccomp Strict [] SECCOMP_RET_KILL_PROCESS in
  seccomp_inv strict /\ sys_seccomp (fun _ _ => None) (Some strict) 2 0 8 =
    (Errno.ret Errno.EINVAL, Some strict).
Proof.
  split; [|done].
  apply (seccomp_one_way (mkSeccomp Strict [] SECCOMP_RET_KILL_PROCESS)
           (mkSeccomp Strict [] SECCOMP_RET_KILL_PROCESS) (fun _ _ => None) 2 0 8
           (Errno.ret Errno.EINVAL)); [|done|done].
  by apply (reach_call (fun _ _ => None) SeccompState.default _ 1 0 0 0);
    [apply reach_default| |].
Defined.

(** [A |= 1; A = -A; M[0] = A; X = M[0]; A = data[X]]: the index is 2^64 - 1. *)
Definition wrapping_index_image : list Z :=
  replicate 8 0 ++ le_bytes 8 5 ++ le_bytes 8 24 ++
  [0x44; 0; 0; 0; 1; 0; 0; 0] ++ [0x84; 0; 0; 0; 0; 0; 0; 0] ++
  [0x02; 0; 0; 0; 0; 0; 0; 0] ++ [0x61; 0; 0; 0; 0; 0; 0; 0] ++
  [0x40; 0; 0; 0; 0; 0; 0; 0].

(** The bounds check of an indexed load adds the access size to the index
    with wrap-around. A process without privileges can install a filter of
    five instructions that builds the index [2^64 - 1]; the check passes and
    the slice access panics the kernel, at any later system call. *)
Theorem seccomp_filter_panics :
  exists s, sys_seccomp (image_memory wrapping_index_image) (Some SeccompState.default) 2 0 8
              = (0, Some s) /\
    forall nr args, check_syscall (Some s) nr args = Some KernelPanic.
Proof. eexists. split; [vm_compute; reflexivity|]. intros nr args. reflexivity. Qed.
