(* ===== verification/SeccompSound.v ===== *)
(** * System call filtering: what a filter decides

    A semantics of classic BPF as an inductive relation over decoded
    instructions ([Bpf]), and the proof that the interpreter of
    [crates/syscalls/src/seccomp.rs] with the hook of
    [kernel/src/syscalls/seccomp.rs] decides every system call as that
    semantics says. *)

From S2P Require Import Prelude Seccomp.

(** ** Classic BPF *)

Module Bpf.

Inductive AluOp := Add | Sub | Mul | Div | Or | And | Lsh | Rsh | Neg | Mod | Xor.

Inductive Cond := Always | Eq | Gt | Ge | AnyBit | Ne | Lt | Le | Never.

(** A constant, or the index register. *)
Inductive Operand := Const (k : Z) | X.

(** Bytes of the call's data at a constant or an indexed offset, or a word of
    the scratch memory. *)
Inductive Source := Abs (n : nat) | Ind (n : nat) | Mem.

Inductive Instr :=
| Load (to_x : bool) (s : Source) (k : Z)
| Store (from_x : bool) (k : Z)
| Alu (op : AluOp) (o : Operand)
| Jump (c : Cond) (o : Operand) (jt jf : nat)
| Ret (o : Operand)
| Skip
| Unknown.

(** The fields of the code: class in bits 0 to 2, size in 3 and 4, mode in 5
    to 7, the operand in bit 3, the operation in bits 4 to 7. *)
Definition operand (i : SeccompBpfInstruction) : Operand := if Z.testbit (code i) 3 then X else Const (k i).

Definition source (i : SeccompBpfInstruction) : option Source :=
  let sized (f : nat -> Source) :=
    match (code i / 8) mod 4 with 0 => Some (f 4%nat) | 1 => Some (f 2%nat) | 2 => Some (f 1%nat) | _ => None end in
  match (code i / 32) mod 8 with
  | 1 => sized Abs
  | 2 => sized Ind
  | 3 => Some Mem
  | _ => None
  end.

Definition load (to_x : bool) (i : SeccompBpfInstruction) : Instr :=
  match source i with Some s => Load to_x s (k i) | None => Unknown end.

Definition alu_op (i : SeccompBpfInstruction) : option AluOp :=
  match (code i / 16) mod 16 with
  | 0 => Some Add | 1 => Some Sub | 2 => Some Mul | 3 => Some Div | 4 => Some Or | 5 => Some And
  | 6 => Some Lsh | 7 => Some Rsh | 8 => Some Neg | 9 => Some Mod | 10 => Some Xor
  | _ => None
  end.

Definition cond (i : SeccompBpfInstruction) : Cond :=
  match (code i / 16) mod 16 with
  | 0 => Always | 1 => Eq | 2 => Gt | 3 => Ge | 4 => AnyBit | 5 => Ne | 10 => Lt | 11 => Le
  | _ => Never
  end.

Definition decode (i : SeccompBpfInstruction) : Instr :=
  match code i mod 8 with
  | 0 => load false i
  | 1 => load true i
  | 2 => Store false (k i)
  | 3 => Store true (k i)
  | 4 => match alu_op i with Some op => Alu op (operand i) | None => Unknown end
  | 5 => Jump (cond i) (operand i) (Z.to_nat (jt i)) (Z.to_nat (jf i))
  | 6 => Ret (operand i)
  | _ => Skip
  end.

(** Arithmetic is on 64 bits; a division by zero has no result. *)
Definition alu (op : AluOp) (a o : Z) : option Z :=
  match op with
  | Add => Some ((a + o) mod 2 ^ 64)
  | Sub => Some ((a - o) mod 2 ^ 64)
  | Mul => Some ((a * o) mod 2 ^ 64)
  | Div => if decide (o = 0) then None else Some (a / o)
  | Mod => if decide (o = 0) then None else Some (a mod o)
  | Or => Some (Z.lor a o)
  | And => Some (Z.land a o)
  | Xor => Some (Z.lxor a o)
  | Lsh => Some ((a * 2 ^ (o mod 64)) mod 2 ^ 64)
  | Rsh => Some (a / 2 ^ (o mod 64))
  | Neg => Some ((- a) mod 2 ^ 64)
  end.

Definition holds (c : Cond) (a o : Z) : Prop :=
  match c with
  | Always => True
  | Never => False
  | Eq => a = o
  | Ne => a <> o
  | Gt => o < a
  | Ge => o <= a
  | Lt => a < o
  | Le => a <= o
  | AnyBit => exists i, Z.testbit a i = true /\ Z.testbit o i = true
  end.

Definition value (o : Operand) (x : Z) : Z := match o with Const k => k | X => x end.

(** What a load finds; [Wraps]: the end of the access is beyond 2^64. *)
Inductive Fetched := Value (v : Z) | Outside | Wraps.

Definition fetch_data (data : list Z) (n : nat) (off : Z) : Fetched :=
  if decide (off + Z.of_nat n <= Z.of_nat (length data)) then Value (le_value (slice (Z.to_nat off) n data))
  else if decide ((1 < n)%nat /\ 2 ^ 64 <= off + Z.of_nat n) then Wraps
  else Outside.

Definition fetch (data : list Z) (x : Z) (m : list Z) (s : Source) (k : Z) : Fetched :=
  match s with
  | Abs n => fetch_data data n k
  | Ind n => fetch_data data n ((x + k) mod 2 ^ 64)
  | Mem => match m !! Z.to_nat k with Some v => Value v | None => Outside end
  end.

(** How a filter ends: with the value of a [RET] that names an action, without
    naming one, or with an index out of bounds. *)
Inductive Outcome := Returned (v : Z) | NoAction | OutOfBounds.

(** The run of a program from [pc], with the accumulator, the index register
    and the scratch memory. A store outside the scratch memory does nothing. *)
Inductive exec (p : list Instr) (data : list Z) : nat -> Z -> Z -> list Z -> Outcome -> Prop :=
| exec_end pc a x m : p !! pc = None -> exec p data pc a x m NoAction
| exec_unknown pc a x m : p !! pc = Some Unknown -> exec p data pc a x m NoAction
| exec_skip pc a x m r : p !! pc = Some Skip -> exec p data (S pc) a x m r -> exec p data pc a x m r
| exec_load_a pc a x m s k v r :
    p !! pc = Some (Load false s k) -> fetch data x m s k = Value v ->
    exec p data (S pc) v x m r -> exec p data pc a x m r
| exec_load_x pc a x m s k v r :
    p !! pc = Some (Load true s k) -> fetch data x m s k = Value v ->
    exec p data (S pc) a v m r -> exec p data pc a x m r
| exec_load_outside pc a x m b s k :
    p !! pc = Some (Load b s k) -> fetch data x m s k = Outside -> exec p data pc a x m NoAction
| exec_load_wraps pc a x m b s k :
    p !! pc = Some (Load b s k) -> fetch data x m s k = Wraps -> exec p data pc a x m OutOfBounds
| exec_store_a pc a x m k r :
    p !! pc = Some (Store false k) -> exec p data (S pc) a x (<[Z.to_nat k := a]> m) r -> exec p data pc a x m r
| exec_store_x pc a x m k r :
    p !! pc = Some (Store true k) -> exec p data (S pc) a x (<[Z.to_nat k := x]> m) r -> exec p data pc a x m r
| exec_alu pc a x m op o v r :
    p !! pc = Some (Alu op o) -> alu op a (value o x) = Some v ->
    exec p data (S pc) v x m r -> exec p data pc a x m r
| exec_alu_none pc a x m op o :
    p !! pc = Some (Alu op o) -> alu op a (value o x) = None -> exec p data pc a x m NoAction
| exec_taken pc a x m c o jt jf r :
    p !! pc = Some (Jump c o jt jf) -> holds c a (value o x) ->
    exec p data (S pc + jt) a x m r -> exec p data pc a x m r
| exec_not_taken pc a x m c o jt jf r :
    p !! pc = Some (Jump c o jt jf) -> ~ holds c a (value o x) ->
    exec p data (S pc + jf) a x m r -> exec p data pc a x m r
| exec_ret pc a x m o :
    p !! pc = Some (Ret o) -> (value o x / 2 ^ 16) mod 2 ^ 16 <> 0 -> exec p data pc a x m (Returned (value o x))
| exec_ret_none pc a x m o :
    p !! pc = Some (Ret o) -> (value o x / 2 ^ 16) mod 2 ^ 16 = 0 -> exec p data pc a x m NoAction.

(** A filter has one outcome. *)
Lemma exec_unique p data pc a x m r r' :
  exec p data pc a x m r -> exec p data pc a x m r' -> r = r'.
Proof.
  intros H. revert r'. induction H; intros r' H'; inversion H'; simplify_eq; eauto; try congruence.
  all: match goal with H1 : fetch _ _ _ _ _ = Value ?v, H2 : fetch _ _ _ _ _ = Value ?w |- _ =>
         assert (v = w) as <- by congruence end; eauto.
Qed.

(** What a filter's outcome means for the call. *)
Definition verdict (r : Outcome) : Decision :=
  match r with
  | NoAction => Kill
  | OutOfBounds => KernelPanic
  | Returned v =>
      let action := (v / 2 ^ 16) mod 2 ^ 16 in
      if decide (action = 0x7FFF \/ action = 0x7FFC) then Allow
      else if decide (action = 0) then Kill
      else if decide (action = 2) then Deny (Errno.ret Errno.EPERM) true
      else if decide (action = 3 /\ v mod 2 ^ 16 <> 0) then Deny (2 ^ 64 - v mod 2 ^ 16) false
      else Deny (Errno.ret Errno.EPERM) false
  end.

End Bpf.

(** ** Fields of the code *)

Lemma land_field c n s : 0 <= n -> 0 <= s -> Z.land c (Z.shiftl (Z.ones n) s) = (c / 2 ^ s) mod 2 ^ n * 2 ^ s.
Proof.
  intros Hn Hs. rewrite <- Z.shiftl_mul_pow2, <- Z.land_ones, <- Z.shiftr_div_pow2 by done.
  apply Z.bits_inj'. intros i Hi. rewrite Z.land_spec, !Z.shiftl_spec, Z.land_spec by done.
  destruct (Z.lt_ge_cases i s); [by rewrite !(Z.testbit_neg_r _ (i - s)), andb_false_r by lia|].
  rewrite Z.shiftr_spec by lia. by replace (i - s + s) with i by lia.
Qed.

Lemma code_class c : Z.land c 0x07 = c mod 8.
Proof. apply (Z.land_ones c 3). lia. Qed.

Lemma code_size c : Z.land c 0x18 = (c / 8) mod 4 * 8.
Proof. apply (land_field c 2 3); lia. Qed.

Lemma code_mode c : Z.land c 0xE0 = (c / 32) mod 8 * 32.
Proof. apply (land_field c 3 5); lia. Qed.

Lemma code_op c : Z.land c 0xF0 = (c / 16) mod 16 * 16.
Proof. apply (land_field c 4 4); lia. Qed.

Lemma code_bit c : Z.land c 0x08 = if Z.testbit c 3 then 8 else 0.
Proof.
  change 8 with (Z.shiftl (Z.ones 1) 3) at 1. rewrite land_field, <- Z.testbit_spec' by lia. by destruct (Z.testbit c 3).
Qed.

Lemma action_field v : Z.land v SECCOMP_RET_ACTION = (v / 2 ^ 16) mod 2 ^ 16 * 2 ^ 16.
Proof. apply (land_field v 16 16); lia. Qed.

(** ** The interpreter follows the semantics *)

Definition program (st : SeccompState) : list Bpf.Instr := Bpf.decode <$> filter st.

(** The run of the filter from a state of the interpreter. *)
Definition runs (st : SeccompState) (data : list Z) (c : SeccompState.Cpu) (r : Bpf.Outcome) : Prop :=
  Bpf.exec (program st) data (Z.to_nat (SeccompState.pc c)) (SeccompState.acc c) (SeccompState.x c)
    (SeccompState.scratch c) r.

(** What an iteration says about the run. *)
Definition agrees (st : SeccompState) (data : list Z) (c : SeccompState.Cpu) (s : SeccompState.Step) : Prop :=
  match s with
  | SeccompState.Next c' => forall r, runs st data c' r -> runs st data c r
  | SeccompState.Return v => runs st data c (Bpf.Returned v) \/ (v = default_action st /\ runs st data c Bpf.NoAction)
  | SeccompState.IndexPanic => runs st data c Bpf.OutOfBounds
  end.

Lemma load_data_fetch data n size off :
  length data = 64%nat -> 0 <= off < 2 ^ 64 ->
  size = BPF_W /\ n = 4%nat \/ size = BPF_H /\ n = 2%nat \/ size = BPF_B /\ n = 1%nat ->
  Bpf.fetch_data data n off =
  match SeccompState.load_data data size off with
  | SeccompState.Loaded v => Bpf.Value v
  | SeccompState.LoadDefault => Bpf.Outside
  | SeccompState.LoadPanic => Bpf.Wraps
  end.
Proof.
  intros Hd Ho Hn. unfold Bpf.fetch_data, SeccompState.load_data. rewrite Hd.
  assert (Hu : forall d, 0 <= d < 2 ^ 64 -> u64 (off + d) = if decide (off + d < 2 ^ 64) then off + d else off + d - 2 ^ 64).
  { intros d Hd'. unfold u64. change M64 with (2 ^ 64). case_decide; [by apply Z.mod_small; lia|].
    replace (off + d) with (off + d - 2 ^ 64 + 1 * 2 ^ 64) at 1 by lia. rewrite Z.mod_add, Z.mod_small by lia. done. }
  destruct Hn as [[-> ->]|[[-> ->]|[-> ->]]]; cbv zeta; cbn [Z.eqb BPF_W BPF_H BPF_B Pos.eqb].
  - rewrite Hu by lia. repeat case_decide; repeat case_match; simplify_eq; first [done | lia].
  - rewrite Hu by lia. repeat case_decide; repeat case_match; simplify_eq; first [done | lia].
  - repeat case_decide; repeat case_match; simplify_eq; first [done | lia].
Qed.

(** Shifts, and the negation on signed words. *)
Lemma shift_count o : u32 o mod 64 = o mod 64.
Proof.
  unfold u32. change M32 with (64 * 2 ^ 26). rewrite Z.rem_mul_r by lia.
  rewrite Z.mul_comm, Z.mod_add by lia. by apply Z.mod_mod.
Qed.

Lemma neg_signed a : u64 (- i64 a) = (- a) mod 2 ^ 64.
Proof.
  unfold u64, i64. change (2 ^ 64) with M64. case_match.
  - by rewrite <- (Z.sub_0_l (a mod M64)), <- (Z.sub_0_l a), Zminus_mod_idemp_r.
  - replace (- (a mod M64 - M64)) with (- (a mod M64) + 1 * M64) by lia. rewrite Z.mod_add by lia.
    by rewrite <- (Z.sub_0_l (a mod M64)), <- (Z.sub_0_l a), Zminus_mod_idemp_r.
Qed.

Lemma any_bit a o : Z.land a o <> 0 <-> Bpf.holds Bpf.AnyBit a o.
Proof.
  cbn. split.
  - intros H. assert (Hb : exists i, Z.testbit (Z.land a o) i = true).
    { destruct (Z.lt_ge_cases 0 (Z.land a o)); [exists (Z.log2 (Z.land a o)); by apply Z.bit_log2|].
      exists (Z.log2 (Z.pred (- Z.land a o)) + 1). apply Z.bits_above_log2_neg; lia. }
    destruct Hb as [i Hi]. rewrite Z.land_spec, andb_true_iff in Hi. eauto.
  - intros (i & Ha & Ho) H. assert (Hb : Z.testbit (Z.land a o) i = true) by (by rewrite Z.land_spec, Ha, Ho).
    rewrite H, Z.bits_0 in Hb. done.
Qed.

(** The alternatives of a field. *)
Ltac field f n :=
  let Hf := fresh in
  assert (Hf : 0 <= f < n) by (apply Z.mod_pos_bound; lia);
  let v := fresh in
  set (v := f) in *; clearbody v;
  destruct v as [|v|v]; [| do 4 (try destruct v as [v|v|]); try (exfalso; lia)|exfalso; lia].

Section agreement.
Context (st : SeccompState) (data : list Z) (c : SeccompState.Cpu) (i : SeccompBpfInstruction).
Context (Hdata : length data = 64%nat) (Hi : filter st !! Z.to_nat (SeccompState.pc c) = Some i) (Hwf : wf_insn i).
Context (Hpc : 0 <= SeccompState.pc c) (Hm : length (SeccompState.scratch c) = 16%nat).

Lemma program_at : program st !! Z.to_nat (SeccompState.pc c) = Some (Bpf.decode i).
Proof using Hi. unfold program. by rewrite list_lookup_fmap, Hi. Qed.

Lemma operand_value : SeccompState.operand i c = Bpf.value (Bpf.operand i) (SeccompState.x c).
Proof using Type.
  unfold SeccompState.operand, Bpf.operand. rewrite code_bit. by destruct (Z.testbit (code i) 3).
Qed.

Lemma next_pc a x m d :
  0 <= d ->
  runs st data (SeccompState.mkCpu (SeccompState.pc c + 1 + d) a x m) =
  Bpf.exec (program st) data (S (Z.to_nat (SeccompState.pc c)) + Z.to_nat d) a x m.
Proof using Hpc. clear - Hpc. intros Hd. unfold runs. cbn [SeccompState.pc SeccompState.acc SeccompState.x SeccompState.scratch]. f_equal. lia. Qed.

Lemma source_fetch :
  match Bpf.source i with
  | None => SeccompState.step_load st data i c = SeccompState.Return (default_action st)
  | Some s =>
      SeccompState.step_load st data i c =
      match Bpf.fetch data (SeccompState.x c) (SeccompState.scratch c) s (k i) with
      | Bpf.Value v =>
          SeccompState.Next (if code i mod 8 =? 0
            then SeccompState.mkCpu (SeccompState.pc c + 1) v (SeccompState.x c) (SeccompState.scratch c)
            else SeccompState.mkCpu (SeccompState.pc c + 1) (SeccompState.acc c) v (SeccompState.scratch c))
      | Bpf.Outside => SeccompState.Return (default_action st)
      | Bpf.Wraps => SeccompState.IndexPanic
      end
  end.
Proof using Hdata Hwf.
  clear Hm Hpc. destruct Hwf as (_ & _ & _ & Hk). unfold is_u32 in Hk.
  unfold Bpf.source, SeccompState.step_load. rewrite code_size, code_mode, code_class. cbv zeta.
  pose proof (Z.mod_pos_bound (SeccompState.x c + k i) (2 ^ 64) ltac:(lia)) as Hx.
  field ((code i / 32) mod 8) 8; try done; [|field ((code i / 8) mod 4) 4..]; try done.
  all: cbv [Z.mul Pos.mul Z.eqb Pos.eqb BPF_ABS BPF_IND BPF_MEM BPF_LD Bpf.fetch].
  all: try (destruct (SeccompState.scratch c !! _); done).
  all: change (u64 (SeccompState.x c + k i)) with ((SeccompState.x c + k i) mod 2 ^ 64) in *.
  all: match goal with |- match SeccompState.load_data _ ?sz ?o with _ => _ end = match Bpf.fetch_data _ ?n _ with _ => _ end =>
         rewrite (load_data_fetch data n sz o) by first [done | lia | tauto]; by destruct (SeccompState.load_data _ _ _) end.
Qed.

Lemma load_agrees (b : bool) :
  code i mod 8 = (if b then 1 else 0) -> agrees st data c (SeccompState.step_load st data i c).
Proof using Hdata Hi Hwf Hpc.
  intros Hc. pose proof program_at as Hp. unfold Bpf.decode in Hp. rewrite Hc in Hp.
  replace (match (if b then 1 else 0) with 0 => _ | _ => _ end) with (Bpf.load b i) in Hp by by destruct b.
  unfold Bpf.load in Hp. pose proof source_fetch as Hs. destruct (Bpf.source i) as [s|]; rewrite Hs; clear Hs.
  - destruct (Bpf.fetch _ _ _ _ _) as [v| |] eqn:Hf; cbn [agrees].
    + rewrite Hc. destruct b; cbn [Z.eqb]; intros r; rewrite <- (Z.add_0_r (_ + 1)), next_pc, Nat.add_0_r by done.
      * by apply Bpf.exec_load_x with (s := s) (k := k i).
      * by apply Bpf.exec_load_a with (s := s) (k := k i).
    + right. split; [done|]. by eapply Bpf.exec_load_outside.
    + by eapply Bpf.exec_load_wraps.
  - right. split; [done|]. by apply Bpf.exec_unknown.
Qed.

Lemma store_agrees (b : bool) :
  code i mod 8 = (if b then 3 else 2) -> agrees st data c (SeccompState.step_store i c).
Proof using Hi Hwf Hpc Hm.
  clear Hdata. intros Hc. pose proof program_at as Hp. unfold Bpf.decode in Hp. rewrite Hc in Hp.
  unfold SeccompState.step_store. rewrite code_class, Hc. cbn [agrees]. intros r.
  rewrite <- (Z.add_0_r (_ + 1)), next_pc, Nat.add_0_r by done.
  destruct Hwf as (_ & _ & _ & Hk). unfold is_u32 in Hk.
  assert (Hst : forall v, (if k i <? 16 then <[Z.to_nat (k i) := v]> (SeccompState.scratch c) else SeccompState.scratch c)
                = <[Z.to_nat (k i) := v]> (SeccompState.scratch c)).
  { intros v. destruct (Z.ltb_spec (k i) 16); [done|]. by rewrite list_insert_ge by lia. }
  rewrite Hst. destruct b; [by apply Bpf.exec_store_x|by apply Bpf.exec_store_a].
Qed.

Lemma alu_agrees : code i mod 8 = 4 -> agrees st data c (SeccompState.step_alu st i c).
Proof using Hi Hpc.
  clear Hdata Hm Hwf. intros Hc. pose proof program_at as Hp. unfold Bpf.decode in Hp. rewrite Hc in Hp.
  unfold SeccompState.step_alu. rewrite code_op, operand_value. cbv zeta.
  set (o := Bpf.value (Bpf.operand i) (SeccompState.x c)) in *. set (a := SeccompState.acc c).
  assert (Hset : forall op v, program st !! Z.to_nat (SeccompState.pc c) = Some (Bpf.Alu op (Bpf.operand i)) ->
    Bpf.alu op a o = Some v ->
    agrees st data c (SeccompState.Next (SeccompState.mkCpu (SeccompState.pc c + 1) v (SeccompState.x c) (SeccompState.scratch c)))).
  { intros op v Ho Hv r. rewrite <- (Z.add_0_r (_ + 1)), next_pc, Nat.add_0_r by done. by apply Bpf.exec_alu with (op := op) (o := Bpf.operand i). }
  assert (Hnone : forall op, program st !! Z.to_nat (SeccompState.pc c) = Some (Bpf.Alu op (Bpf.operand i)) ->
    Bpf.alu op a o = None -> agrees st data c (SeccompState.Return (default_action st))).
  { intros op Ho Hv. right. split; [done|]. by eapply Bpf.exec_alu_none. }
  assert (Hunknown : program st !! Z.to_nat (SeccompState.pc c) = Some Bpf.Unknown ->
    agrees st data c (SeccompState.Return (default_action st))).
  { intros Ho. right. split; [done|]. by apply Bpf.exec_unknown. }
  unfold Bpf.alu_op in Hp. field ((code i / 16) mod 16) 16; cbv iota in Hp;
    repeat match goal with |- context [?x * 16 =? ?y] => let b := eval vm_compute in (x * 16 =? y) in
      change (x * 16 =? y) with b; cbv iota end;
    try (by apply Hunknown); try (by eapply Hset; [exact Hp|]).
  all: try (destruct (Z.eqb_spec o 0); [eapply Hnone|eapply Hset]; [exact Hp|cbn; by rewrite ?decide_True, ?decide_False by done..]).
  all: eapply Hset; [exact Hp|]; cbn [Bpf.alu]; f_equal.
  all: unfold wrapping_shl64, wrapping_shr64, shl64, shr64; rewrite ?shift_count, ?neg_signed; try done.
  all: try (rewrite Z.shiftl_mul_pow2 by (apply Z.mod_pos_bound; lia)); try (rewrite Z.shiftr_div_pow2 by (apply Z.mod_pos_bound; lia)).
  all: done.
Qed.

Lemma jump_taken_holds a o :
  SeccompState.jump_taken (Z.land (code i) 0xF0) a o = true <-> Bpf.holds (Bpf.cond i) a o.
Proof using Type.
  clear. rewrite code_op. unfold SeccompState.jump_taken, Bpf.cond. pose proof (any_bit a o) as Hb.
  field ((code i / 16) mod 16) 16;
    repeat match goal with |- context [?x * 16 =? ?y] => let b := eval vm_compute in (x * 16 =? y) in
      change (x * 16 =? y) with b; cbv iota end; try (by cbn; rewrite ?Z.eqb_eq, ?Z.ltb_lt, ?Z.leb_le).
  - cbn [Bpf.holds]. by rewrite negb_true_iff, Z.eqb_neq.
  - by rewrite negb_true_iff, Z.eqb_neq.
Qed.

Lemma jmp_agrees : code i mod 8 = 5 -> agrees st data c (SeccompState.step_jmp i c).
Proof using Hi Hpc Hwf.
  clear Hdata Hm. intros Hc. pose proof program_at as Hp. unfold Bpf.decode in Hp. rewrite Hc in Hp.
  destruct Hwf as (_ & Hjt & Hjf & _). unfold is_u8 in *. unfold SeccompState.step_jmp. rewrite operand_value.
  cbn [agrees]. intros r.
  pose proof (jump_taken_holds (SeccompState.acc c) (Bpf.value (Bpf.operand i) (SeccompState.x c))) as Ht.
  destruct (SeccompState.jump_taken _ _ _); rewrite next_pc by lia.
  - eapply Bpf.exec_taken; [exact Hp|by apply Ht].
  - eapply Bpf.exec_not_taken; [exact Hp|]. by intros Hh%Ht.
Qed.

Lemma ret_agrees : code i mod 8 = 6 -> agrees st data c (SeccompState.step_ret st i c).
Proof using Hi.
  clear Hdata Hm Hwf Hpc. intros Hc. pose proof program_at as Hp. unfold Bpf.decode in Hp. rewrite Hc in Hp.
  unfold SeccompState.step_ret. rewrite code_bit, action_field. unfold Bpf.operand in Hp. cbv zeta.
  set (v := if (if Z.testbit (code i) 3 then 8 else 0) =? BPF_X then SeccompState.x c else k i).
  assert (Hv : Bpf.value (if Z.testbit (code i) 3 then Bpf.X else Bpf.Const (k i)) (SeccompState.x c) = v)
    by (unfold v; by destruct (Z.testbit (code i) 3)).
  destruct (Z.eqb_spec ((v / 2 ^ 16) mod 2 ^ 16 * 2 ^ 16) 0) as [Hz|Hz]; cbn [negb agrees].
  - right. split; [done|]. eapply Bpf.exec_ret_none; [exact Hp|]. rewrite Hv. lia.
  - left. rewrite <- Hv. apply Bpf.exec_ret; [exact Hp|]. rewrite Hv. lia.
Qed.

Lemma skip_agrees :
  code i mod 8 = 7 ->
  agrees st data c (SeccompState.Next (SeccompState.mkCpu (SeccompState.pc c + 1) (SeccompState.acc c) (SeccompState.x c)
                                          (SeccompState.scratch c))).
Proof using Hi Hpc.
  intros Hc. pose proof program_at as Hp. unfold Bpf.decode in Hp. rewrite Hc in Hp. intros r.
  rewrite <- (Z.add_0_r (_ + 1)), next_pc, Nat.add_0_r by done. by apply Bpf.exec_skip.
Qed.

(** The last check of an iteration never ends it. *)
Lemma guard_idle s : agrees st data c s ->
  (forall c', s = SeccompState.Next c' -> SeccompState.pc c' <= SeccompState.pc c + 256) ->
  agrees st data c
    (match s with
     | SeccompState.Next c' =>
         if Z.of_nat (length (filter st)) + 10000 <? SeccompState.pc c'
         then SeccompState.Return (default_action st) else SeccompState.Next c'
     | o => o
     end).
Proof using Hi.
  clear - Hi. apply lookup_lt_Some in Hi. destruct s as [c'| |]; [|done..]. intros Ha Hb.
  specialize (Hb c' eq_refl). by rewrite (proj2 (Z.ltb_ge _ _)) by lia.
Qed.
End agreement.

Lemma step_agrees st data c :
  length data = 64%nat -> Forall wf_insn (filter st) -> 0 <= SeccompState.pc c ->
  length (SeccompState.scratch c) = 16%nat -> agrees st data c (SeccompState.step st data c).
Proof.
  intros Hd Hwf Hpc Hm. unfold SeccompState.step.
  destruct (filter st !! Z.to_nat (SeccompState.pc c)) as [i|] eqn:Hi.
  2: { right. split; [done|]. apply Bpf.exec_end. unfold program. by rewrite list_lookup_fmap, Hi. }
  pose proof (Forall_lookup_1 _ _ _ _ Hwf Hi) as Hw. cbv zeta. apply (guard_idle st data c i Hi).
  - rewrite code_class. pose proof (Z.mod_pos_bound (code i) 8 ltac:(lia)) as Hc.
    assert (Hcs : code i mod 8 = 0 \/ code i mod 8 = 1 \/ code i mod 8 = 2 \/ code i mod 8 = 3 \/ code i mod 8 = 4 \/
      code i mod 8 = 5 \/ code i mod 8 = 6 \/ code i mod 8 = 7) by lia.
    destruct Hcs as [E|[E|[E|[E|[E|[E|[E|E]]]]]]]; rewrite E.
    + by apply (load_agrees st data c i Hd Hi Hw Hpc false).
    + by apply (load_agrees st data c i Hd Hi Hw Hpc true).
    + by apply (store_agrees st data c i Hi Hw Hpc Hm false).
    + by apply (store_agrees st data c i Hi Hw Hpc Hm true).
    + by apply (alu_agrees st data c i Hi Hpc).
    + by apply (jmp_agrees st data c i Hi Hw Hpc).
    + by apply (ret_agrees st data c i Hi).
    + by apply (skip_agrees st data c i Hi Hpc).
  - destruct Hw as (_ & Hjt & Hjf & _). unfold is_u8 in *. clear Hm Hd Hpc Hwf Hi. intros c' Hs.
    unfold SeccompState.step_load, SeccompState.step_store, SeccompState.step_alu, SeccompState.step_jmp, SeccompState.step_ret in Hs.
    repeat (case_match; try discriminate); simplify_eq; cbn; repeat case_match; cbn; lia.
Qed.

Lemma step_scratch st data c c' :
  SeccompState.step st data c = SeccompState.Next c' -> length (SeccompState.scratch c') = length (SeccompState.scratch c).
Proof.
  unfold SeccompState.step, SeccompState.step_load, SeccompState.step_store, SeccompState.step_alu, SeccompState.step_jmp,
    SeccompState.step_ret. intros Hs.
  repeat (case_match; try discriminate); simplify_eq; cbn; repeat case_match; cbn; by rewrite ?length_insert.
Qed.

Lemma run_exec st data fuel c s :
  length data = 64%nat -> Forall wf_insn (filter st) -> 0 <= SeccompState.pc c ->
  length (SeccompState.scratch c) = 16%nat -> SeccompState.run fuel st data c = Some s ->
  agrees st data c s /\ forall c', s <> SeccompState.Next c'.
Proof.
  intros Hd Hwf. revert c. induction fuel as [|fuel IH]; intros c Hpc Hm; [done|]. cbn [SeccompState.run].
  pose proof (step_agrees st data c Hd Hwf Hpc Hm) as Ha.
  destruct (SeccompState.step st data c) as [c'|v|] eqn:E; [|by intros [= <-]..].
  intros Hr. apply IH in Hr as [Hr Hn]; [|by destruct (step_next st Hwf data c c' Hpc E); lia|by rewrite (step_scratch _ _ _ _ E)].
  split; [|done]. destruct s as [c2|v|]; [by destruct (Hn c2)| |].
  - destruct Hr as [Hr|[-> Hr]]; [left|right]; [|split; [done|]]; by apply Ha.
  - by apply Ha.
Qed.

Lemma data_length nr args : length args = 6%nat -> length (SeccompState.build_seccomp_data nr args) = 64%nat.
Proof.
  intros Ha. destruct args as [|a0 [|a1 [|a2 [|a3 [|a4 [|a5 [|a6 args]]]]]]]; try discriminate Ha.
  unfold SeccompState.build_seccomp_data. cbn [fmap list_fmap concat]. by rewrite !length_app, !length_le_bytes.
Qed.

Lemma apply_action_verdict v : apply_action v = Bpf.verdict (Bpf.Returned v).
Proof.
  unfold apply_action, Bpf.verdict. rewrite action_field.
  assert (Hlow : Z.land v 0xFFFF = v mod 2 ^ 16) by (apply (Z.land_ones v 16); lia). rewrite Hlow. clear Hlow.
  set (b := (v / 2 ^ 16) mod 2 ^ 16). pose proof (Z.mod_pos_bound v (2 ^ 16) ltac:(lia)) as Hv.
  set (w := v mod 2 ^ 16) in *. clearbody b w.
  assert (Hneg : w <> 0 -> u64 (- w) = 2 ^ 64 - w).
  { intros Hw. unfold u64. change M64 with (2 ^ 64). replace (- w) with (2 ^ 64 - w + (-1) * 2 ^ 64) by lia.
    rewrite Z.mod_add, Z.mod_small by lia. done. }
  unfold SECCOMP_RET_ALLOW, SECCOMP_RET_KILL_PROCESS, SECCOMP_RET_TRAP, SECCOMP_RET_ERRNO, SECCOMP_RET_LOG.
  repeat case_decide; repeat case_match; first [done | lia | rewrite Hneg by lia; done].
Qed.

(** ** What the hook decides *)

(** The run of the filter of a process on a call. *)
Definition filter_outcome (s : SeccompState) (nr : Z) (args : list Z) (r : Bpf.Outcome) : Prop :=
  Bpf.exec (Bpf.decode <$> filter s) (SeccompState.build_seccomp_data nr args) 0 0 0 (replicate 16 0) r.

Lemma check_filter_exec s nr args :
  seccomp_inv s -> mode s = Filter -> length args = 6%nat ->
  exists r, filter_outcome s nr args r /\
    match SeccompState.check_filter s nr args with
    | Some (SeccompState.Return v) => apply_action v = Bpf.verdict r
    | Some SeccompState.IndexPanic => r = Bpf.OutOfBounds
    | _ => False
    end.
Proof.
  intros (Hwf & Hd & Hlen) Hmode Ha. rewrite Hmode in Hlen. unfold SeccompState.check_filter.
  destruct (run_total s Hwf (SeccompState.build_seccomp_data nr args) (S (length (filter s))) SeccompState.start)
    as [o Ho]; [done|cbn; lia|lia|].
  destruct (run_exec s _ (S (length (filter s))) SeccompState.start o (data_length nr args Ha) Hwf) as [Hr Hn]; [done|done|exact Ho|].
  destruct (filter s) as [|i l] eqn:Hf; [cbn in Hlen; lia|]. rewrite Ho. unfold filter_outcome. rewrite Hf.
  unfold agrees, runs, program in Hr. rewrite Hf in Hr. destruct o as [c'|v|]; [by destruct (Hn c')| |].
  - destruct Hr as [Hr|[-> Hr]]; [exists (Bpf.Returned v)|exists Bpf.NoAction]; (split; [exact Hr|]).
    + apply apply_action_verdict.
    + by rewrite Hd.
  - by exists Bpf.OutOfBounds.
Qed.


(** At 8 the [sock_fprog], at 24 its program: kill [execve], allow the rest. *)
Definition no_exec_image : list Z :=
  replicate 8 0 ++ le_bytes 8 4 ++ le_bytes 8 24 ++
  [0x20; 0; 0; 0; 0; 0; 0; 0] ++ [0x15; 0; 0; 1; 59; 0; 0; 0] ++
  [6; 0; 0; 0; 0; 0; 0; 0] ++ [6; 0; 0; 0; 0; 0; 255; 127].

Definition no_exec : SeccompState :=
  mkSeccomp Filter [mkBpf 0x20 0 0 0; mkBpf 0x15 0 1 59; mkBpf 6 0 0 0; mkBpf 6 0 0 SECCOMP_RET_ALLOW]
    SECCOMP_RET_KILL_PROCESS.

Lemma no_exec_reachable : seccomp_reachable no_exec.
Proof.
  apply (reach_call (image_memory no_exec_image) SeccompState.default _ 2 0 8 0);
    [apply reach_default|by apply image_memory_copies, forallb_bytes|vm_compute; reflexivity].
Qed.

