(* ===== verification/Objects.v ===== *)
(** * Kernel objects: access control, handles and the namespace

    Model of [crates/objects/src/security.rs] (the check made when a handle is
    bound), [kernel/src/objects/security.rs] (mode bits, ACLs and per-object
    capabilities), [kernel/src/objects/handle.rs] (the per-process handle
    table) and [kernel/src/objects/namespace.rs] (the named objects). *)

From Stdlib Require Import Ascii.
From stdpp Require Import strings.
From S2P Require Import Prelude.

(** ** The bind-time check ([crates/objects/src/security.rs]) *)

Record Credentials := mkCred {
  uid : Z; gid : Z; euid : Z; egid : Z; fsuid : Z; fsgid : Z; cap_effective : Z;
}.

Module Dacl.

Record Ace := mkAce { sid : Z; access_mask : Z; deny : bool }.

Record SecurityDescriptor := mkSd { owner : Z; group : Z; dacl : list Ace }.

Definition default_for_owner (owner_uid : Z) : SecurityDescriptor := mkSd owner_uid 0 [].

Definition default_socket : SecurityDescriptor := mkSd 0 0 [].

Definition names (cred : Credentials) (ace : Ace) : bool :=
  (euid cred =? sid ace) || (egid cred =? sid ace).

Definition access_check (cred : Credentials) (sec : SecurityDescriptor) (desired_access : Z) : bool :=
  if (euid cred =? owner sec) || (uid cred =? owner sec) then true
  else if euid cred =? 0 then true
  else
    match dacl sec with
    | [] => true
    | entries =>
        if existsb (fun ace => deny ace && names cred ace &&
                               negb (Z.land desired_access (access_mask ace) =? 0)) entries
        then false
        else existsb (fun ace => negb (deny ace) && names cred ace &&
                                 (Z.land desired_access (access_mask ace) =? desired_access)) entries
    end.

End Dacl.

(** ** Mode bits, ACLs and capabilities ([kernel/src/objects/security.rs]) *)

Inductive AceType := Allow | Deny.

#[export] Instance AceType_eq_dec : EqDecision AceType.
Proof. solve_decision. Defined.

Record Ace := mkAce { ace_type : AceType; ace_flags : Z; access_mask : Z; ace_uid : Z }.

Record SecurityDescriptor := mkSd { sd_uid : Z; sd_gid : Z; mode : Z; acl : list Ace }.

Definition ACCESS_READ : Z := 4.
Definition ACCESS_WRITE : Z := 2.
Definition ACCESS_EXEC : Z := 1.

Definition CAP_DAC_OVERRIDE : Z := Z.shiftl 1 1.
Definition CAP_DAC_READ_SEARCH : Z := Z.shiftl 1 2.

Module SecurityDescriptor.

Definition new (uid gid mode : Z) : SecurityDescriptor := mkSd uid gid mode [].
(** Modes [0o644] and [0o600]. *)
Definition default : SecurityDescriptor := mkSd 0 0 420 [].
Definition default_socket : SecurityDescriptor := mkSd 0 0 384 [].

End SecurityDescriptor.

Definition dac_bits (cred : Credentials) (sec : SecurityDescriptor) : Z :=
  if euid cred =? sd_uid sec then Z.land (Z.shiftr (mode sec) 6) 7
  else if egid cred =? sd_gid sec then Z.land (Z.shiftr (mode sec) 3) 7
  else Z.land (mode sec) 7.

(** The ACL loop: the first entry that names the caller and covers the whole
    request decides. *)
Fixpoint acl_check (cred : Credentials) (entries : list Ace) (desired : Z) : bool :=
  match entries with
  | [] => false
  | ace :: entries =>
      if ((ace_uid ace =? euid cred) || (ace_uid ace =? uid cred)) &&
         (Z.land (access_mask ace) desired =? desired)
      then bool_decide (ace_type ace = Allow)
      else acl_check cred entries desired
  end.

Definition access_check (cred : Credentials) (sec : SecurityDescriptor) (desired : Z) : bool :=
  if euid cred =? 0 then true
  else if Z.land (dac_bits cred sec) desired =? desired then true
  else if negb (Z.land (cap_effective cred) CAP_DAC_OVERRIDE =? 0) then true
  else if negb (Z.land (cap_effective cred) CAP_DAC_READ_SEARCH =? 0) &&
          (Z.land desired ACCESS_WRITE =? 0) then true
  else acl_check cred (acl sec) desired.

Definition CAP_RIGHT_READ : Z := Z.shiftl 1 0.
Definition CAP_RIGHT_WRITE : Z := Z.shiftl 1 1.
Definition CAP_RIGHT_EXEC : Z := Z.shiftl 1 2.
Definition CAP_RIGHT_CREATE : Z := Z.shiftl 1 3.
Definition CAP_RIGHT_DELETE : Z := Z.shiftl 1 4.
Definition CAP_RIGHT_MODIFY : Z := Z.shiftl 1 5.
Definition CAP_RIGHT_ADMIN : Z := Z.shiftl 1 6.
Definition CAP_RIGHT_CONNECT : Z := Z.shiftl 1 7.
Definition CAP_RIGHT_LISTEN : Z := Z.shiftl 1 8.
Definition CAP_RIGHT_BIND : Z := Z.shiftl 1 9.
Definition CAP_RIGHT_SEND : Z := Z.shiftl 1 10.
Definition CAP_RIGHT_RECV : Z := Z.shiftl 1 11.
Definition CAP_RIGHT_IOCTL : Z := Z.shiftl 1 12.
Definition CAP_RIGHT_MMAP : Z := Z.shiftl 1 13.
Definition CAP_RIGHT_SHMEM : Z := Z.shiftl 1 14.
Definition CAP_RIGHT_SIGNAL : Z := Z.shiftl 1 15.

Definition CAP_ALL_RIGHTS : Z :=
  foldl Z.lor 0
  [CAP_RIGHT_READ; CAP_RIGHT_WRITE; CAP_RIGHT_EXEC; CAP_RIGHT_CREATE;
   CAP_RIGHT_DELETE; CAP_RIGHT_MODIFY; CAP_RIGHT_ADMIN; CAP_RIGHT_CONNECT;
   CAP_RIGHT_LISTEN; CAP_RIGHT_BIND; CAP_RIGHT_SEND; CAP_RIGHT_RECV;
   CAP_RIGHT_IOCTL; CAP_RIGHT_MMAP; CAP_RIGHT_SHMEM; CAP_RIGHT_SIGNAL].

Record Capability := mkCap { rights : Z; object_type : Z; object_id : Z }.

Module Capability.

Definition new (rights object_type object_id : Z) : Capability :=
  mkCap (Z.land rights CAP_ALL_RIGHTS) object_type object_id.

Definition has_right (c : Capability) (right : Z) : bool := Z.land (rights c) right =? right.

Definition grant (c : Capability) (more : Z) : Capability :=
  mkCap (Z.lor (rights c) (Z.land more CAP_ALL_RIGHTS)) (object_type c) (object_id c).

Definition drop_rights (c : Capability) (less : Z) : Capability :=
  mkCap (Z.land (rights c) (not64 less)) (object_type c) (object_id c).

Definition compose (c other : Capability) : Capability :=
  mkCap (Z.land (rights c) (rights other)) (object_type c) (object_id c).

Definition fork (c : Capability) (additional_rights : Z) : Capability :=
  mkCap (Z.land (rights c) additional_rights) (object_type c) (object_id c).

End Capability.

(** ** Handle tables ([handle.rs]) *)

(** Objects are a parameter: what the table uses of one is its security
    descriptor and its type. *)
Class KernelObject (Obj : Type) := {
  security : Obj -> Dacl.SecurityDescriptor;
  type_id : Obj -> Z;
}.

Record HandleEntry (Obj : Type) := mkEntry {
  object : Obj; entry_mask : Z; entry_flags : Z; offset : Z; audit_id : Z; create_time : Z;
}.
Arguments mkEntry {Obj} _ _ _ _ _ _.
Arguments object {Obj} _.
Arguments entry_mask {Obj} _.
Arguments entry_flags {Obj} _.
Arguments offset {Obj} _.
Arguments audit_id {Obj} _.
Arguments create_time {Obj} _.

Module HandleTable.
Section HandleTable.
Context {Obj : Type} `{!KernelObject Obj}.

Local Abbreviation Table := (list (option (HandleEntry Obj))).

Definition new : Table := [].

Definition get (t : Table) (handle : Z) : option (HandleEntry Obj) :=
  match t !! Z.to_nat handle with Some slot => slot | None => None end.

Definition is_valid (t : Table) (handle : Z) : bool :=
  bool_decide (is_Some (get t handle)).

(** [iter().position(|s| s.is_none())]. *)
Fixpoint first_free (t : Table) : option nat :=
  match t with
  | [] => None
  | None :: _ => Some 0%nat
  | Some _ :: t => S <$> first_free t
  end.

(** First-fit placement: the first hole, or a new slot at the end. *)
Definition place (t : Table) (e : HandleEntry Obj) : Z * Table :=
  match first_free t with
  | Some i => (Z.of_nat i, <[i := Some e]> t)
  | None => (Z.of_nat (length t), t ++ [Some e])
  end.

(** [next] is [NEXT_HANDLE_AUDIT_ID]. [None] is the refused request. *)
Definition insert (cred : Credentials) (t : Table) (next : Z) (obj : Obj) (desired_access flags : Z)
    : option Z * Table * Z :=
  if negb (Dacl.access_check cred (security obj) desired_access) then (None, t, next)
  else
    let '(h, t') := place t (mkEntry obj desired_access flags 0 next 0) in
    (Some h, t', u64 (next + 1)).

Definition insert_kernel (t : Table) (next : Z) (obj : Obj) (flags : Z) : Z * Table * Z :=
  let '(h, t') := place t (mkEntry obj 0xFFFF flags 0 next 0) in
  (h, t', u64 (next + 1)).

(** [Vec::resize] with [None]. *)
Definition resize (t : Table) (n : nat) : Table := take n t ++ replicate (n - length t) None.

(** Store at an index, growing the table first; [None] is the index panic,
    when [handle + 1] wraps. *)
Definition put (t : Table) (handle : Z) (e : HandleEntry Obj) : option Table :=
  let i := Z.to_nat handle in
  let t := if Z.of_nat (length t) <=? handle then resize t (Z.to_nat (u64 (handle + 1))) else t in
  if bool_decide (is_Some (t !! i)) then Some (<[i := Some e]> t) else None.

Definition insert_at (t : Table) (next handle : Z) (obj : Obj) (access_mask flags : Z)
    : option Table * Z :=
  (put t handle (mkEntry obj access_mask flags 0 next 0), u64 (next + 1)).

Definition fill_handle (t : Table) (handle : Z) (obj : Obj) (access_mask flags audit : Z) : option Table :=
  put t handle (mkEntry obj access_mask flags 0 audit 0).

(** [on_close] is called on the object returned. *)
Definition close (t : Table) (handle : Z) : option Obj * Table :=
  match get t handle with
  | Some e => (Some (object e), <[Z.to_nat handle := None]> t)
  | None => (None, t)
  end.

Definition copy_entry (e : HandleEntry Obj) (audit : Z) : HandleEntry Obj :=
  mkEntry (object e) (entry_mask e) (entry_flags e) (offset e) audit 0.

Definition dup (t : Table) (next old_handle : Z) : option Z * Table * Z :=
  match get t old_handle with
  | None => (None, t, next)
  | Some e =>
      let '(h, t') := place t (copy_entry e next) in
      (Some h, t', u64 (next + 1))
  end.

(** The inner option is the panic. *)
Definition dup_into (t : Table) (next old_handle new_handle : Z) : option (option Table) * Z :=
  match get t old_handle with
  | None => (None, next)
  | Some e => (Some (put t new_handle (copy_entry e next)), u64 (next + 1))
  end.

Definition count (t : Table) : nat := length (omap id t).

Definition audit_trail (t : Table) : list (Z * Z) :=
  omap (fun '(i, slot) => (fun e => (Z.of_nat i, audit_id e)) <$> slot) (imap pair t).

Definition enumerate (t : Table) : list Obj := object <$> omap id t.

Definition has_type (ty : Z) (slot : option (HandleEntry Obj)) : bool :=
  match slot with Some e => type_id (object e) =? ty | None => false end.

Definition find_by_type (t : Table) (ty : Z) : list Z :=
  omap (fun '(i, slot) => if has_type ty slot then Some (Z.of_nat i) else None) (imap pair t).

Definition handle_count_by_type (t : Table) (ty : Z) : nat := length (List.filter (has_type ty) t).

Definition reserve_handle (t : Table) : Z * Table :=
  match first_free t with
  | Some i => (Z.of_nat i, t)
  | None => (Z.of_nat (length t), t ++ [None])
  end.

Definition clone_table (t : Table) : Table := t.

End HandleTable.
End HandleTable.

(** ** The object namespace ([namespace.rs]) *)

#[local] Unset Elimination Schemes.
Inductive ObjectDirectory (Obj : Type) := mkDir {
  entries : gmap string Obj;
  subdirs : gmap string (ObjectDirectory Obj);
}.
#[local] Set Elimination Schemes.
Arguments mkDir {Obj} _ _.
Arguments entries {Obj} _.
Arguments subdirs {Obj} _.

(** [str::trim_matches('/')] and [str::split('/')] on the characters. *)
Definition is_slash (c : ascii) : bool := bool_decide (c = "/"%char).

Fixpoint trim_start (l : list ascii) : list ascii :=
  match l with
  | [] => []
  | c :: l' => if is_slash c then trim_start l' else l
  end.

Definition trim_matches (l : list ascii) : list ascii :=
  reverse (trim_start (reverse (trim_start l))).

Fixpoint split (l : list ascii) : list (list ascii) :=
  match l with
  | [] => [[]]
  | c :: l =>
      if is_slash c then [] :: split l
      else match split l with
           | part :: parts => (c :: part) :: parts
           | [] => [[c]]
           end
  end.

Definition components (l : list ascii) : list string :=
  String.string_of_list_ascii <$> split l.

Fixpoint pop (l : list string) : option (list string * string) :=
  match l with
  | [] => None
  | [name] => Some ([], name)
  | part :: l => prod_map (cons part) id <$> pop l
  end.

(** The directories to walk and the last component; [None] for an empty path. *)
Definition parse_path (path : string) : option (list string * string) :=
  match trim_matches (String.list_ascii_of_string path) with
  | [] => None
  | l => pop (components l)
  end.

Module ObjectDirectory.
Section ObjectDirectory.
Context {Obj : Type}.

Definition new : ObjectDirectory Obj := mkDir ∅ ∅.

Definition insert (d : ObjectDirectory Obj) (name : string) (obj : Obj) : ObjectDirectory Obj :=
  mkDir (<[name := obj]> (entries d)) (subdirs d).

Fixpoint walk (d : ObjectDirectory Obj) (parts : list string) : option (ObjectDirectory Obj) :=
  match parts with
  | [] => Some d
  | part :: parts =>
      match subdirs d !! part with
      | Some d' => walk d' parts
      | None => None
      end
  end.

Definition lookup (d : ObjectDirectory Obj) (path : string) : option Obj :=
  match parse_path path with
  | None => None
  | Some (parts, name) =>
      match walk d parts with
      | Some d' => entries d' !! name
      | None => None
      end
  end.

Fixpoint remove_at (d : ObjectDirectory Obj) (parts : list string) (name : string)
    : option Obj * ObjectDirectory Obj :=
  match parts with
  | [] => (entries d !! name, mkDir (delete name (entries d)) (subdirs d))
  | part :: parts =>
      match subdirs d !! part with
      | None => (None, d)
      | Some d' =>
          let '(r, d'') := remove_at d' parts name in
          (r, mkDir (entries d) (<[part := d'']> (subdirs d)))
      end
  end.

Definition remove (d : ObjectDirectory Obj) (path : string) : option Obj * ObjectDirectory Obj :=
  match parse_path path with
  | None => (None, d)
  | Some (parts, name) => remove_at d parts name
  end.

Fixpoint mkdir_slice (d : ObjectDirectory Obj) (parts : list string) : bool * ObjectDirectory Obj :=
  match parts with
  | [] => (false, d)
  | [name] =>
      if bool_decide (is_Some (subdirs d !! name)) then (false, d)
      else (true, mkDir (entries d) (<[name := new]> (subdirs d)))
  | name :: parts =>
      match subdirs d !! name with
      | None => (false, d)
      | Some d' =>
          let '(r, d'') := mkdir_slice d' parts in
          (r, mkDir (entries d) (<[name := d'']> (subdirs d)))
      end
  end.

Definition mkdir (d : ObjectDirectory Obj) (path : string) : bool * ObjectDirectory Obj :=
  if bool_decide (path = "") || bool_decide (path = "/") then (false, d)
  else mkdir_slice d (components (trim_matches (String.list_ascii_of_string path))).

End ObjectDirectory.
End ObjectDirectory.

(** The namespace is its root directory. *)
Module ObjectNamespace.
Section ObjectNamespace.
Context {Obj : Type}.

Fixpoint insert_at (d : ObjectDirectory Obj) (parts : list string) (name : string) (obj : Obj)
    : ObjectDirectory Obj :=
  match parts with
  | [] => ObjectDirectory.insert d name obj
  | part :: parts =>
      let sub := default ObjectDirectory.new (subdirs d !! part) in
      mkDir (entries d) (<[part := insert_at sub parts name obj]> (subdirs d))
  end.

Definition insert (root : ObjectDirectory Obj) (path : string) (obj : Obj) : ObjectDirectory Obj :=
  match parse_path path with
  | None => root
  | Some (parts, name) => insert_at root parts name obj
  end.

Definition resolve_object := @ObjectDirectory.lookup Obj.

Definition register_object (root : ObjectDirectory Obj) (name : string) (obj : Obj)
    : ObjectDirectory Obj :=
  insert root (String.append "System/" name) obj.

Definition init (root : ObjectDirectory Obj) : ObjectDirectory Obj :=
  foldl (fun d path => (ObjectDirectory.mkdir d path).2) root
    ["Device"; "Process"; "Tmp"; "System"].

End ObjectNamespace.
End ObjectNamespace.

(** ** Access control *)

(** An entry of the list that refuses or grants the request to the caller. *)
Definition denies (cred : Credentials) (desired : Z) (ace : Dacl.Ace) : Prop :=
  Dacl.deny ace = true /\ Dacl.names cred ace = true /\
  Z.land desired (Dacl.access_mask ace) <> 0.

Definition allows (cred : Credentials) (desired : Z) (ace : Dacl.Ace) : Prop :=
  Dacl.deny ace = false /\ Dacl.names cred ace = true /\
  Z.land desired (Dacl.access_mask ace) = desired.

(** The bind-time check has deny-overrides semantics, whatever the order
    of the list: the owner and root always pass; for anyone else an object
    without entries is open, and an object with entries is accessible exactly
    when some entry allows the whole request and none denies a part of it. *)
Theorem dacl_deny_overrides (cred : Credentials) (sec : Dacl.SecurityDescriptor) (desired : Z) :
  euid cred <> 0 -> euid cred <> Dacl.owner sec -> uid cred <> Dacl.owner sec ->
  (Dacl.access_check cred sec desired = true <->
   Dacl.dacl sec = [] \/
   ((exists ace, ace ∈ Dacl.dacl sec /\ allows cred desired ace) /\
    forall ace, ace ∈ Dacl.dacl sec -> ~ denies cred desired ace)).
Proof.
  intros H0 H1 H2. unfold Dacl.access_check, allows, denies.
  rewrite (proj2 (Z.eqb_neq _ _) H0), (proj2 (Z.eqb_neq _ _) H1), (proj2 (Z.eqb_neq _ _) H2).
  cbn [orb]. destruct (Dacl.dacl sec) as [|a l] eqn:Hl; [tauto|]. rewrite <- Hl.
  destruct (existsb _ (Dacl.dacl sec)) eqn:Hd at 1.
  - apply existsb_exists in Hd as (ace & Hin & Hc). apply list_elem_of_In in Hin.
    split; [done|]. intros [?|[_ Hn]]; [congruence|]. destruct (Hn ace Hin).
    rewrite !andb_true_iff, negb_true_iff, Z.eqb_neq in Hc. tauto.
  - rewrite existsb_exists. split.
    + intros (ace & Hin & Hc). right. rewrite !andb_true_iff, negb_true_iff, Z.eqb_eq in Hc.
      split; [exists ace; rewrite list_elem_of_In; tauto|]. intros b Hb Hden.
      apply not_true_iff_false in Hd. apply Hd, existsb_exists. exists b.
      rewrite <- list_elem_of_In, !andb_true_iff, negb_true_iff, Z.eqb_neq. tauto.
    + intros [?|[(ace & Hin & Hc) _]]; [congruence|]. exists ace.
      rewrite <- list_elem_of_In, !andb_true_iff, negb_true_iff, Z.eqb_eq. tauto.
Qed.

(** A user in a group that is allowed, but denied by name. *)
Lemma dacl_deny_overrides_witness :
  let cred := mkCred 7 9 7 9 7 9 0 in
  let sec := Dacl.mkSd 1 1 [Dacl.mkAce 9 3 false; Dacl.mkAce 7 2 true] in
  Dacl.access_check cred sec 1 = true /\ ~ Dacl.access_check cred sec 2 = true.
Proof.
  split; [done|]. intros H.
  apply (dacl_deny_overrides (mkCred 7 9 7 9 7 9 0)
           (Dacl.mkSd 1 1 [Dacl.mkAce 9 3 false; Dacl.mkAce 7 2 true]) 2) in H; [|done..].
  destruct H as [H|[_ H]]; [done|]. apply (H (Dacl.mkAce 7 2 true)); [|done].
  apply list_elem_of_In. right. by left.
Defined.

(** The two descriptors named [default_socket] disagree. The one with mode
    0600 refuses every read, write or execute request of a caller who is
    not root and holds no capability; the one that the handle table checks
    has an empty list and grants every request to everyone. *)
Theorem default_socket_open (cred : Credentials) (desired : Z) :
  Dacl.access_check cred Dacl.default_socket desired = true /\
  (euid cred <> 0 -> cap_effective cred = 0 -> 0 < desired ->
   access_check cred SecurityDescriptor.default_socket desired = false).
Proof.
  split.
  - unfold Dacl.access_check. cbn. by repeat case_match.
  - intros He Hc Hd. unfold access_check, dac_bits. cbn [sd_uid sd_gid mode acl
      SecurityDescriptor.default_socket acl_check].
    rewrite (proj2 (Z.eqb_neq _ _) He), Hc.
    assert ((0 =? desired) = false) as H0 by (apply Z.eqb_neq; lia).
    destruct (egid cred =? 0); change (Z.land (Z.land _ 7) desired) with 0; by rewrite H0.
Qed.

(** The theorem at an ordinary user's write request. *)
Lemma default_socket_open_witness :
  Dacl.access_check (mkCred 7 9 7 9 7 9 0) Dacl.default_socket ACCESS_WRITE = true /\
  access_check (mkCred 7 9 7 9 7 9 0) SecurityDescriptor.default_socket ACCESS_WRITE = false.
Proof.
  destruct (default_socket_open (mkCred 7 9 7 9 7 9 0) ACCESS_WRITE) as [Ho Hr].
  split; [exact Ho|]. by apply Hr.
Defined.

(** What the mode bits grant no entry of the list takes away. *)
Lemma acl_deny_ineffective cred sec desired entries :
  Z.land (dac_bits cred sec) desired = desired ->
  access_check cred (mkSd (sd_uid sec) (sd_gid sec) (mode sec) entries) desired = true.
Proof.
  intros Hd. unfold access_check. destruct (euid cred =? 0); [done|].
  change (dac_bits cred (mkSd _ _ _ _)) with (dac_bits cred sec).
  by rewrite Hd, Z.eqb_refl.
Qed.

Lemma land_submask a b m : Z.land (Z.land a b) m = m -> Z.land a m = m.
Proof.
  intros H. rewrite <- H. apply Z.bits_inj'. intros i _. rewrite !Z.land_spec.
  by destruct (Z.testbit a i), (Z.testbit b i), (Z.testbit m i).
Qed.

(** Forking, composing and dropping only attenuate a capability. *)
Lemma capability_attenuates c other rs right :
  (Capability.has_right (Capability.fork c rs) right = true -> Capability.has_right c right = true) /\
  (Capability.has_right (Capability.compose c other) right = true ->
     Capability.has_right c right = true /\ Capability.has_right other right = true) /\
  (Capability.has_right (Capability.drop_rights c rs) right = true ->
     Capability.has_right c right = true).
Proof.
  unfold Capability.has_right. cbn [rights Capability.fork Capability.compose Capability.drop_rights].
  rewrite !Z.eqb_eq. split_and!; [apply land_submask| |apply land_submask].
  intros H. split; [by eapply land_submask|].
  rewrite (Z.land_comm (rights c)) in H. by eapply land_submask.
Qed.

(** ** The handle table is a finite map with least-free allocation *)

Section Handles.
Context {Obj : Type} `{!KernelObject Obj}.
Local Abbreviation Table := (list (option (HandleEntry Obj))).

Definition abs (t : Table) : gmap nat (HandleEntry Obj) := omap id (map_seq 0 t).

Lemma lookup_abs t i :
  abs t !! i = match t !! i with Some slot => slot | None => None end.
Proof using Type.
  unfold abs. rewrite lookup_omap, lookup_map_seq_0. by destruct (t !! i) as [[]|].
Qed.

Lemma get_abs t h : HandleTable.get t h = abs t !! Z.to_nat h.
Proof using Type. by rewrite lookup_abs. Qed.

Lemma abs_insert t i e :
  (i < length t)%nat -> abs (<[i := Some e]> t) = <[i := e]> (abs t).
Proof using Type.
  intros Hi. apply map_eq. intros j. rewrite lookup_abs.
  destruct (decide (i = j)) as [<-|Hij].
  - by rewrite list_lookup_insert_eq, lookup_insert_eq.
  - by rewrite list_lookup_insert_ne, lookup_insert_ne, lookup_abs.
Qed.

Lemma abs_app t u : (forall i slot, u !! i = Some slot -> slot = None) -> abs (t ++ u) = abs t.
Proof using Type.
  intros Hu. apply map_eq. intros j. rewrite !lookup_abs.
  destruct (decide (j < length t)%nat).
  - by rewrite lookup_app_l.
  - rewrite lookup_app_r, (lookup_ge_None_2 t) by lia.
    destruct (u !! (j - length t)%nat) as [slot|] eqn:Hs; [|done]. by eapply Hu.
Qed.

Definition least_free (m : gmap nat (HandleEntry Obj)) (h : Z) : Prop :=
  0 <= h /\ m !! Z.to_nat h = None /\ forall j, (j < Z.to_nat h)%nat -> is_Some (m !! j).

Lemma first_free_slot (t : Table) :
  match HandleTable.first_free t with
  | Some i => t !! i = Some None /\ forall j, (j < i)%nat -> exists e, t !! j = Some (Some e)
  | None => forall j, (j < length t)%nat -> exists e, t !! j = Some (Some e)
  end.
Proof using Type.
  induction t as [|[e|] t IH]; cbn [HandleTable.first_free]; [cbn; lia| |split; [done|lia]].
  destruct (HandleTable.first_free t) as [i|]; cbn.
  - destruct IH as [Hi Hj]. split; [done|]. intros [|j] ?; [by eexists|]. apply Hj. lia.
  - intros [|j] ?; [by eexists|]. apply IH. lia.
Qed.

Lemma first_free_spec (t : Table) :
  match HandleTable.first_free t with
  | Some i => t !! i = Some None /\ forall j, (j < i)%nat -> is_Some (abs t !! j)
  | None => forall j, (j < length t)%nat -> is_Some (abs t !! j)
  end.
Proof using Type.
  assert (forall j, (exists e, t !! j = Some (Some e)) -> is_Some (abs t !! j)) as Habs
    by (intros j [e He]; rewrite lookup_abs, He; by eexists).
  pose proof (first_free_slot t) as H. destruct (HandleTable.first_free t); naive_solver.
Qed.

Lemma place_abs t e h t' :
  HandleTable.place t e = (h, t') ->
  least_free (abs t) h /\ abs t' = <[Z.to_nat h := e]> (abs t).
Proof using Type.
  unfold HandleTable.place, least_free. pose proof (first_free_spec t) as Hf.
  destruct (HandleTable.first_free t) as [i|]; intros [= <- <-]; rewrite Nat2Z.id.
  - destruct Hf as [Hi Hj]. rewrite lookup_abs, Hi.
    split; [by split; [lia|]|]. apply abs_insert. by eapply lookup_lt_Some.
  - rewrite lookup_abs, (lookup_ge_None_2 t) by lia. split; [by split; [lia|]|].
    apply map_eq. intros j. rewrite lookup_abs.
    destruct (decide (j = length t)) as [->|Hj].
    + by rewrite lookup_insert_eq, list_lookup_middle.
    + rewrite lookup_insert_ne by done. rewrite lookup_abs.
      destruct (decide (j < length t)%nat); [by rewrite lookup_app_l|].
      by rewrite !lookup_ge_None_2 by (rewrite ?length_app; cbn; lia).
Qed.

Lemma put_abs t h e :
  0 <= h < M64 - 1 ->
  exists t', HandleTable.put t h e = Some t' /\ abs t' = <[Z.to_nat h := e]> (abs t).
Proof using Type.
  intros Hh. unfold HandleTable.put, HandleTable.resize. rewrite u64_small by (unfold is_u64; lia).
  destruct (Z.leb_spec (Z.of_nat (length t)) h).
  - rewrite take_ge by lia.
    rewrite bool_decide_true by (apply lookup_lt_is_Some; rewrite length_app, length_replicate; lia).
    eexists. split; [done|]. rewrite abs_insert by (rewrite length_app, length_replicate; lia).
    rewrite abs_app; [done|]. by intros i slot [-> _]%lookup_replicate.
  - rewrite bool_decide_true by (apply lookup_lt_is_Some; lia).
    eexists. split; [done|]. apply abs_insert. lia.
Qed.

Lemma close_abs t h :
  HandleTable.close t h = (object <$> abs t !! Z.to_nat h, (HandleTable.close t h).2) /\
  abs (HandleTable.close t h).2 = delete (Z.to_nat h) (abs t).
Proof using Type.
  unfold HandleTable.close. rewrite get_abs.
  destruct (abs t !! Z.to_nat h) as [e|] eqn:He; cbn [snd]; (split; [done|]).
  - apply map_eq. intros j. rewrite lookup_abs.
    destruct (decide (j = Z.to_nat h)) as [->|Hj].
    + rewrite lookup_delete_eq, list_lookup_insert_eq; [done|].
      rewrite lookup_abs in He. destruct (t !! Z.to_nat h) eqn:Hs; [|done].
      by eapply lookup_lt_Some.
    + by rewrite lookup_delete_ne, list_lookup_insert_ne, lookup_abs.
  - by rewrite delete_id.
Qed.

Lemma reserve_abs t h t' :
  HandleTable.reserve_handle t = (h, t') -> least_free (abs t) h /\ abs t' = abs t.
Proof using Type.
  unfold HandleTable.reserve_handle, least_free. pose proof (first_free_spec t) as Hf.
  destruct (HandleTable.first_free t) as [i|]; intros [= <- <-]; rewrite Nat2Z.id, lookup_abs.
  - destruct Hf as [-> Hj]. by split; [split; [lia|]|].
  - rewrite lookup_ge_None_2 by lia. split; [by split; [lia|]|].
    apply abs_app. intros [|i] slot; cbn; [congruence|done].
Qed.

(** The operations of a table and what they answer. *)
Inductive HandleOp :=
| OpInsert (cred : Credentials) (obj : Obj) (desired_access flags : Z)
| OpInsertKernel (obj : Obj) (flags : Z)
| OpInsertAt (handle : Z) (obj : Obj) (am flags : Z)
| OpFill (handle : Z) (obj : Obj) (am flags audit : Z)
| OpClose (handle : Z)
| OpDup (old_handle : Z)
| OpDupInto (old_handle new_handle : Z)
| OpReserve.

Inductive HandleResult := RHandle (h : option Z) | RObject (o : option Obj) | RUnit | RPanic.

Definition exec (op : HandleOp) (t : Table) (next : Z) : HandleResult * Table * Z :=
  match op with
  | OpInsert cred obj da fl =>
      let '(h, t', n') := HandleTable.insert cred t next obj da fl in (RHandle h, t', n')
  | OpInsertKernel obj fl =>
      let '(h, t', n') := HandleTable.insert_kernel t next obj fl in (RHandle (Some h), t', n')
  | OpInsertAt h obj am fl =>
      match HandleTable.insert_at t next h obj am fl with
      | (Some t', n') => (RUnit, t', n')
      | (None, n') => (RPanic, t, n')
      end
  | OpFill h obj am fl audit =>
      match HandleTable.fill_handle t h obj am fl audit with
      | Some t' => (RUnit, t', next)
      | None => (RPanic, t, next)
      end
  | OpClose h => let '(o, t') := HandleTable.close t h in (RObject o, t', next)
  | OpDup h => let '(h', t', n') := HandleTable.dup t next h in (RHandle h', t', n')
  | OpDupInto h h' =>
      match HandleTable.dup_into t next h h' with
      | (None, n') => (RHandle None, t, n')
      | (Some (Some t'), n') => (RHandle (Some h'), t', n')
      | (Some None, n') => (RPanic, t, n')
      end
  | OpReserve => let '(h, t') := HandleTable.reserve_handle t in (RHandle (Some h), t', next)
  end.

(** A new entry goes to the least free handle, with the next audit id. *)
Definition bound_at_least (m m' : gmap nat (HandleEntry Obj)) (next next' : Z) (r : HandleResult)
    (e : HandleEntry Obj) : Prop :=
  exists h, least_free m h /\ r = RHandle (Some h) /\ m' = <[Z.to_nat h := e]> m /\
            next' = u64 (next + 1).

(** The specification: a finite map from handles to entries. *)
Definition handle_spec (op : HandleOp) (m : gmap nat (HandleEntry Obj)) (next : Z)
    (r : HandleResult) (m' : gmap nat (HandleEntry Obj)) (next' : Z) : Prop :=
  match op with
  | OpInsert cred obj da fl =>
      if Dacl.access_check cred (security obj) da
      then bound_at_least m m' next next' r (mkEntry obj da fl 0 next 0)
      else r = RHandle None /\ m' = m /\ next' = next
  | OpInsertKernel obj fl => bound_at_least m m' next next' r (mkEntry obj 0xFFFF fl 0 next 0)
  | OpInsertAt h obj am fl =>
      r = RUnit /\ m' = <[Z.to_nat h := mkEntry obj am fl 0 next 0]> m /\ next' = u64 (next + 1)
  | OpFill h obj am fl audit =>
      r = RUnit /\ m' = <[Z.to_nat h := mkEntry obj am fl 0 audit 0]> m /\ next' = next
  | OpClose h =>
      r = RObject (object <$> m !! Z.to_nat h) /\ m' = delete (Z.to_nat h) m /\ next' = next
  | OpDup h =>
      match m !! Z.to_nat h with
      | Some e => bound_at_least m m' next next' r (HandleTable.copy_entry e next)
      | None => r = RHandle None /\ m' = m /\ next' = next
      end
  | OpDupInto h h' =>
      match m !! Z.to_nat h with
      | Some e =>
          r = RHandle (Some h') /\ m' = <[Z.to_nat h' := HandleTable.copy_entry e next]> m /\
          next' = u64 (next + 1)
      | None => r = RHandle None /\ m' = m /\ next' = next
      end
  | OpReserve => exists h, least_free m h /\ r = RHandle (Some h) /\ m' = m /\ next' = next
  end.

(** The handles a store by index is asked for: [handle + 1] does not wrap. *)
Definition op_ok (op : HandleOp) : Prop :=
  match op with
  | OpInsertAt h _ _ _ | OpFill h _ _ _ _ | OpDupInto _ h => 0 <= h < M64 - 1
  | _ => True
  end.

Lemma place_bound t e next h t' :
  HandleTable.place t e = (h, t') ->
  bound_at_least (abs t) (abs t') next (u64 (next + 1)) (RHandle (Some h)) e.
Proof using Type. intros Hp. destruct (place_abs _ _ _ _ Hp). by exists h. Qed.

(** C22. The handle table refines a finite map. Every operation, on every
    table, answers and changes the handles as the map specification says:
    insertion and duplication use the least free handle and refuse when the
    access check does, duplication copies object, rights, flags and offset
    under a fresh audit id, closing returns the object and frees exactly that
    handle, and an access by index touches no other handle. None of them
    panics as long as an index plus one fits in 64 bits. *)
Theorem handle_table_refines (op : HandleOp) (t t' : Table) (next next' : Z) (r : HandleResult) :
  op_ok op -> exec op t next = (r, t', next') ->
  handle_spec op (abs t) next r (abs t') next'.
Proof using Type.
  intros Hok. destruct op; cbn [exec handle_spec op_ok] in *.
  - unfold HandleTable.insert. destruct (Dacl.access_check _ _ _); cbn [negb].
    + destruct (HandleTable.place _ _) eqn:Hp. intros [= <- <- <-]. by apply place_bound.
    + by intros [= <- <- <-].
  - unfold HandleTable.insert_kernel. destruct (HandleTable.place _ _) eqn:Hp.
    intros [= <- <- <-]. by apply place_bound.
  - unfold HandleTable.insert_at. destruct (put_abs t handle (mkEntry obj am flags 0 next 0) Hok)
      as (u & -> & Hu). by intros [= <- <- <-].
  - unfold HandleTable.fill_handle. destruct (put_abs t handle (mkEntry obj am flags 0 audit 0) Hok)
      as (u & -> & Hu). by intros [= <- <- <-].
  - destruct (close_abs t handle) as [-> ?]. by intros [= <- <- <-].
  - unfold HandleTable.dup. rewrite get_abs. destruct (abs t !! _) as [e|]; [|by intros [= <- <- <-]].
    destruct (HandleTable.place _ _) eqn:Hp. intros [= <- <- <-]. by apply place_bound.
  - unfold HandleTable.dup_into. rewrite get_abs.
    destruct (abs t !! _) as [e|]; [|by intros [= <- <- <-]].
    destruct (put_abs t new_handle (HandleTable.copy_entry e next) Hok) as (u & -> & Hu).
    by intros [= <- <- <-].
  - destruct (HandleTable.reserve_handle t) eqn:Hp. intros [= <- <- <-].
    destruct (reserve_abs _ _ _ Hp). by eexists.
Qed.

End Handles.

(** Objects that are their own type number, open to everyone. *)
#[local] Instance plain_object : KernelObject Z :=
  {| security := fun _ => Dacl.default_socket; type_id := fun x => x |}.

(** A duplicate goes to the hole that closing handle 0 left. *)
Lemma handle_table_refines_witness :
  let e1 := mkEntry 6 4 0 7 2 0 in
  exec (OpDup 1) [None; Some e1] 3 =
    (RHandle (Some 0), [Some (HandleTable.copy_entry e1 3); Some e1], 4) /\
  handle_spec (OpDup 1) (abs [None; Some e1]) 3 (RHandle (Some 0))
    (abs [Some (HandleTable.copy_entry e1 3); Some e1]) 4.
Proof.
  split; [done|].
  by apply (handle_table_refines (OpDup 1) [None; Some (mkEntry 6 4 0 7 2 0)]
              [Some (mkEntry 6 4 0 7 3 0); Some (mkEntry 6 4 0 7 2 0)] 3 4 (RHandle (Some 0))).
Defined.

(** ** The namespace is a map from paths *)

Section Namespace.
Context {Obj : Type}.
Local Abbreviation Dir := (ObjectDirectory Obj).

Definition get_at (d : Dir) (key : list string * string) : option Obj :=
  match ObjectDirectory.walk d key.1 with
  | Some d' => entries d' !! key.2
  | None => None
  end.

Lemma get_at_cons (d : Dir) part parts name :
  get_at d (part :: parts, name) =
  match subdirs d !! part with Some d' => get_at d' (parts, name) | None => None end.
Proof using Type. unfold get_at. cbn. by destruct (subdirs d !! part). Qed.

Lemma get_at_new key : get_at (@ObjectDirectory.new Obj) key = None.
Proof using Type. destruct key as [[|part parts] name]; done. Qed.

Lemma get_insert_at ps n o (d : Dir) key :
  get_at (ObjectNamespace.insert_at d ps n o) key =
  if decide (key = (ps, n)) then Some o else get_at d key.
Proof using Type.
  revert d key. induction ps as [|p ps IH]; intros d [[|q qs] m];
    cbn [ObjectNamespace.insert_at].
  - unfold get_at; cbn. destruct (decide (m = n)) as [->|].
    + by rewrite lookup_insert_eq, decide_True.
    + by rewrite lookup_insert_ne, decide_False by congruence.
  - by rewrite decide_False, !get_at_cons by congruence.
  - by rewrite decide_False by congruence.
  - rewrite !get_at_cons. cbn [subdirs]. destruct (decide (q = p)) as [->|].
    + rewrite lookup_insert_eq, IH. destruct (decide ((qs, m) = (ps, n))) as [[= -> ->]|].
      * by rewrite decide_True.
      * rewrite decide_False by congruence.
        destruct (subdirs d !! p); [done|apply get_at_new].
    + by rewrite lookup_insert_ne, decide_False by congruence.
Qed.

Lemma get_remove_at ps n (d : Dir) key :
  (ObjectDirectory.remove_at d ps n).1 = get_at d (ps, n) /\
  get_at (ObjectDirectory.remove_at d ps n).2 key =
  if decide (key = (ps, n)) then None else get_at d key.
Proof using Type.
  revert d key. induction ps as [|p ps IH]; intros d [[|q qs] m];
    cbn [ObjectDirectory.remove_at].
  - split; [done|]. unfold get_at; cbn. destruct (decide (m = n)) as [->|].
    + by rewrite lookup_delete_eq, decide_True.
    + by rewrite lookup_delete_ne, decide_False by congruence.
  - split; [done|]. by rewrite decide_False, !get_at_cons by congruence.
  - rewrite get_at_cons, decide_False by congruence. destruct (subdirs d !! p) as [d'|]; [|done].
    destruct (IH d' ([], m)) as [<- _]. by destruct (ObjectDirectory.remove_at d' ps n).
  - rewrite (get_at_cons d p). destruct (subdirs d !! p) as [d'|] eqn:Hp.
    + destruct (IH d' (qs, m)) as [<- Hg]. destruct (ObjectDirectory.remove_at d' ps n) as [r d''].
      split; [done|]. cbn [snd] in *. rewrite !get_at_cons. cbn [subdirs].
      destruct (decide (q = p)) as [->|].
      * rewrite lookup_insert_eq, Hg, Hp. apply decide_ext. naive_solver.
      * by rewrite lookup_insert_ne, decide_False by congruence.
    + split; [done|]. cbn [snd]. rewrite !get_at_cons.
      destruct (decide ((q :: qs, m) = (p :: ps, n))) as [[= -> -> ->]|]; [by rewrite Hp|done].
Qed.

Lemma mkdir_slice_cons (d : Dir) p p' ps :
  ObjectDirectory.mkdir_slice d (p :: p' :: ps) =
  match subdirs d !! p with
  | None => (false, d)
  | Some d' =>
      let '(r, d'') := ObjectDirectory.mkdir_slice d' (p' :: ps) in
      (r, mkDir (entries d) (<[p := d'']> (subdirs d)))
  end.
Proof using Type. done. Qed.

Lemma get_mkdir_slice parts (d : Dir) key :
  get_at (ObjectDirectory.mkdir_slice d parts).2 key = get_at d key.
Proof using Type.
  revert d key. induction parts as [|p [|p' ps] IH]; intros d [qs m]; [done| |].
  - cbn [ObjectDirectory.mkdir_slice].
    destruct (bool_decide_reflect (is_Some (subdirs d !! p))) as [|Hn]; [done|].
    destruct qs as [|q qs]; [done|]. cbn [snd]. rewrite !get_at_cons. cbn [subdirs].
    destruct (decide (q = p)) as [->|]; [|by rewrite lookup_insert_ne].
    by rewrite lookup_insert_eq, get_at_new, (proj2 (eq_None_not_Some _) Hn).
  - rewrite mkdir_slice_cons. destruct (subdirs d !! p) as [d'|] eqn:Hp; [|done].
    destruct (ObjectDirectory.mkdir_slice d' (p' :: ps)) as [r d''] eqn:Hd.
    destruct qs as [|q qs]; [done|]. specialize (IH d' (qs, m)). rewrite Hd in IH.
    cbn [snd] in *. rewrite !get_at_cons. cbn [subdirs].
    destruct (decide (q = p)) as [->|]; [by rewrite lookup_insert_eq, Hp|].
    by rewrite lookup_insert_ne.
Qed.

Lemma lookup_get_at (d : Dir) path :
  ObjectDirectory.lookup d path = match parse_path path with Some key => get_at d key | None => None end.
Proof using Type. unfold ObjectDirectory.lookup. by destruct (parse_path path) as [[]|]. Qed.

(** The namespace is a map from paths to objects. Two paths are the same
    when they have the same components after the outer slashes are trimmed.
    An insertion under a path with a component is found under that path and
    under no other, creating the directories it needs; a removal returns what
    the lookup of its path would and hides exactly that path; creating a
    directory changes no lookup. *)
Theorem namespace_map (root : Dir) (path path' : string) (obj : Obj)
    (key : list string * string) :
  parse_path path = Some key ->
  ObjectDirectory.lookup (ObjectNamespace.insert root path obj) path' =
    (if decide (parse_path path' = Some key) then Some obj
     else ObjectDirectory.lookup root path') /\
  (ObjectDirectory.remove root path).1 = ObjectDirectory.lookup root path /\
  ObjectDirectory.lookup (ObjectDirectory.remove root path).2 path' =
    (if decide (parse_path path' = Some key) then None
     else ObjectDirectory.lookup root path') /\
  ObjectDirectory.lookup (ObjectDirectory.mkdir root path).2 path' =
    ObjectDirectory.lookup root path'.
Proof using Type.
  intros Hk. rewrite !lookup_get_at, Hk.
  unfold ObjectNamespace.insert, ObjectDirectory.remove. rewrite Hk. destruct key as [ps n].
  split_and!.
  - destruct (parse_path path') as [k|]; [|done]. rewrite get_insert_at. apply decide_ext. naive_solver.
  - apply (get_remove_at ps n root (ps, n)).
  - destruct (parse_path path') as [k|]; [|done].
    rewrite (proj2 (get_remove_at ps n root k)). apply decide_ext. naive_solver.
  - unfold ObjectDirectory.mkdir. destruct (parse_path path') as [k|]; [|done].
    destruct (_ || _); [done|apply get_mkdir_slice].
Qed.

End Namespace.

(** A path and the same path with outer slashes. *)
Lemma namespace_map_witness :
  parse_path "System/clock" = Some (["System"], "clock") /\
  ObjectDirectory.lookup
    (ObjectNamespace.insert (ObjectNamespace.init (@ObjectDirectory.new Z)) "System/clock" 3)
    "/System/clock/" = Some 3.
Proof.
  split; [done|].
  destruct (namespace_map (ObjectNamespace.init (@ObjectDirectory.new Z)) "System/clock"
              "/System/clock/" 3 (["System"], "clock")) as [H _]; [done|].
  rewrite H. by rewrite decide_True.
Defined.
