(* ===== verification/Pipe.v ===== *)
(** * Pipes

    Model of [crates/vfs/src/pipe.rs]: the byte queue between a reader and a
    writer, the bounded polling loop of [read], and end of file. *)

From S2P Require Import Prelude.

Record Pipe := mkPipe {
  buffer : list Z;
  capacity : Z;
  id : Z;
  eof : bool;
  writers : Z;
}.

Definition PIPE_DEFAULT_CAPACITY : Z := 65536.

Module Pipe.

(** A power of two that does not fit in 64 bits becomes zero. *)
Definition with_capacity (next_id capacity : Z) : Pipe :=
  mkPipe [] (Z.max (u64 (next_power_of_two capacity)) 4096) next_id false 1.

Definition new (next_id : Z) : Pipe := with_capacity next_id PIPE_DEFAULT_CAPACITY.

(** One pass of the loop of [read], with the lock held: the data taken, or
    nothing to report yet. *)
Definition poll (p : Pipe) (max_len : nat) : option (list Z) * Pipe :=
  match buffer p with
  | _ :: _ =>
      let n := Nat.min (length (buffer p)) max_len in
      (Some (take n (buffer p)),
       mkPipe (drop n (buffer p)) (capacity p) (id p) (eof p) (writers p))
  | [] => if eof p then (Some [], p) else (None, p)
  end.

(** The loop of [read]: [remaining] passes are left after this one. Between two
    passes the lock is free: [others i] is what the rest of the system does to
    the pipe before pass [i], and [signal i] whether a signal is pending. *)
Fixpoint read_loop (others : nat -> Pipe -> Pipe) (signal : nat -> bool) (remaining i : nat)
    (p : Pipe) (max_len : nat) : option (list Z) * Pipe :=
  match poll p max_len with
  | (Some data, p') => (Some data, p')
  | (None, p') =>
      if signal i then (None, p')
      else match remaining with
           | O => (None, p')
           | S remaining => read_loop others signal remaining (S i) (others (S i) p') max_len
           end
  end.

(** [None] is the error. *)
Definition read (others : nat -> Pipe -> Pipe) (signal : nat -> bool) (p : Pipe) (max_len : nat)
    : option (list Z) * Pipe :=
  read_loop others signal (Z.to_nat 4096) 0 p max_len.

(** [PipeWriter::write]; the result is whether it succeeded. *)
Definition write (p : Pipe) (data : list Z) : bool * Pipe :=
  let available := u64 (capacity p - Z.of_nat (length (buffer p))) in
  if available =? 0 then (false, p)
  else
    let to_write := Z.min available (Z.of_nat (length data)) in
    (true, mkPipe (buffer p ++ take (Z.to_nat to_write) data) (capacity p) (id p) (eof p) (writers p)).

(** [Drop for PipeWriter]. *)
Definition drop_writer (p : Pipe) : Pipe :=
  mkPipe (buffer p) (capacity p) (id p) ((writers p =? 1) || eof p) (u64 (writers p - 1)).

(** The size both ends report in [stat]. *)
Definition stat_size (p : Pipe) : Z := Z.of_nat (length (buffer p)).

End Pipe.

(** ** The stream invariant *)

(** A pipe with the bytes it has accepted and delivered so far. *)
Inductive pipe_trace (c : Z) : Pipe -> list Z -> list Z -> Prop :=
| trace_new next_id : pipe_trace c (Pipe.with_capacity next_id c) [] []
| trace_write p sent received data ok p' :
    pipe_trace c p sent received -> Pipe.write p data = (ok, p') ->
    pipe_trace c p'
      (sent ++ (if ok : bool
                then take (Z.to_nat (capacity p) - length (buffer p)) data else []))
      received
| trace_poll p sent received max_len r p' :
    pipe_trace c p sent received -> Pipe.poll p max_len = (r, p') ->
    pipe_trace c p' sent (received ++ default [] r)
| trace_drop p sent received :
    pipe_trace c p sent received -> pipe_trace c (Pipe.drop_writer p) sent received.

Record pipe_inv (c : Z) (p : Pipe) (sent received : list Z) : Prop := {
  inv_stream : sent = received ++ buffer p;
  inv_capacity : capacity p = Z.max (u64 (next_power_of_two c)) 4096;
  inv_bound : Z.of_nat (length (buffer p)) <= capacity p;
}.

Lemma capacity_range c : 0 < Z.max (u64 (next_power_of_two c)) 4096 < M64.
Proof. pose proof (u64_range (next_power_of_two c)). unfold is_u64 in *. lia. Qed.

Lemma write_spec c p sent received data :
  pipe_inv c p sent received ->
  Pipe.write p data =
    if decide (Z.of_nat (length (buffer p)) = capacity p) then (false, p)
    else (true, mkPipe (buffer p ++ take (Z.to_nat (capacity p) - length (buffer p)) data)
                  (capacity p) (id p) (eof p) (writers p)).
Proof.
  intros [_ Hc Hb]. pose proof (capacity_range c) as Hr. rewrite <- Hc in Hr.
  unfold Pipe.write. rewrite u64_small by (unfold is_u64; lia).
  destruct (decide _); [by rewrite (proj2 (Z.eqb_eq _ _)) by lia|].
  rewrite (proj2 (Z.eqb_neq _ _)) by lia. do 3 f_equal.
  destruct (Z.leb_spec (Z.of_nat (length data)) (capacity p - Z.of_nat (length (buffer p)))).
  - by rewrite !take_ge by lia.
  - f_equal. lia.
Qed.

Lemma pipe_trace_inv c p sent received : pipe_trace c p sent received -> pipe_inv c p sent received.
Proof.
  induction 1 as [next_id|p sent received data ok p' _ IH Hw|p sent received n r p' _ IH Hp|
                  p sent received _ IH].
  - pose proof (capacity_range c). split; [done|done|cbn; lia].
  - rewrite (write_spec _ _ _ _ _ IH) in Hw. destruct IH as [-> Hc Hb].
    pose proof (capacity_range c) as Hr. rewrite <- Hc in Hr.
    destruct (decide _); injection Hw as <- <-; split; cbn; auto.
    + by rewrite app_nil_r.
    + by rewrite app_assoc.
    + rewrite length_app, length_take. lia.
  - destruct IH as [-> Hc Hb]. unfold Pipe.poll in Hp. destruct (buffer p) as [|b l] eqn:Hbuf.
    + destruct (eof p); injection Hp as <- <-; split; cbn; rewrite ?Hbuf, ?app_nil_r; auto.
    + injection Hp as <- <-. split; cbn [buffer capacity default]; auto.
      * rewrite <- app_assoc. f_equal. symmetry. apply take_drop.
      * rewrite length_drop. lia.
  - destruct IH as [-> Hc Hb]. split; auto.
Qed.

(** ** Waiting for data *)

(** The pipe at pass [i] of a reader that has found nothing so far. *)
Fixpoint at_pass (others : nat -> Pipe -> Pipe) (i k : nat) (p : Pipe) : Pipe :=
  match k with
  | O => p
  | S k => at_pass others (S i) k (others (S i) p)
  end.

Definition pending (p : Pipe) : Prop := buffer p <> [] \/ eof p = true.

Lemma poll_not_pending p n : ~ pending p -> Pipe.poll p n = (None, p).
Proof.
  unfold pending, Pipe.poll. intros Hn. destruct (buffer p) eqn:Hb; [|naive_solver].
  destruct (eof p); [naive_solver|done].
Qed.

Lemma poll_pending p n : pending p -> exists data p', Pipe.poll p n = (Some data, p').
Proof. unfold pending, Pipe.poll. destruct (buffer p), (eof p); naive_solver. Qed.

(** A reader is served at the first pass that finds data or end of file, as
    long as that is among the 4097 it makes and no signal comes before. *)
Lemma read_loop_served others signal remaining i k p n :
  (k <= remaining)%nat ->
  (forall j, (j < k)%nat -> signal (i + j)%nat = false /\ ~ pending (at_pass others i j p)) ->
  pending (at_pass others i k p) ->
  Pipe.read_loop others signal remaining i p n = Pipe.poll (at_pass others i k p) n.
Proof.
  revert remaining i p. induction k as [|k IH]; intros remaining i p Hk Hj Hp; cbn [at_pass] in Hp.
  - destruct (poll_pending p n Hp) as (data & p' & Hpoll).
    destruct remaining; cbn [Pipe.read_loop at_pass]; by rewrite Hpoll.
  - destruct remaining as [|remaining]; [lia|]. destruct (Hj 0%nat ltac:(lia)) as [Hs Hn].
    rewrite Nat.add_0_r in Hs. cbn [at_pass] in Hn. cbn [Pipe.read_loop at_pass].
    rewrite poll_not_pending, Hs by done. apply IH; [lia| |done].
    intros j Hlt. destruct (Hj (S j) ltac:(lia)) as [Hs' Hn']. by rewrite Nat.add_succ_r in Hs'.
Qed.

(** C36. A pipe is a bounded byte stream. However writes, reads and closes of
    the writer are interleaved, what has been accepted is what has been
    delivered followed by what is buffered, and at most the capacity is
    buffered. A write fails exactly when the pipe is full; otherwise it
    reports success and accepts only the part of the data that fits. A reader
    is served by the first of its 4097 passes that finds data or end of file,
    unless a signal comes first. *)
Theorem pipe_stream c p sent received :
  pipe_trace c p sent received ->
  sent = received ++ buffer p /\ Z.of_nat (length (buffer p)) <= capacity p /\
  (forall data,
     Pipe.write p data =
       if decide (Z.of_nat (length (buffer p)) = capacity p) then (false, p)
       else (true, mkPipe (buffer p ++ take (Z.to_nat (capacity p) - length (buffer p)) data)
                     (capacity p) (id p) (eof p) (writers p))) /\
  (forall others signal k n,
     (k <= 4096)%nat ->
     (forall j, (j < k)%nat -> signal j = false /\ ~ pending (at_pass others 0 j p)) ->
     pending (at_pass others 0 k p) ->
     Pipe.read others signal p n = Pipe.poll (at_pass others 0 k p) n).
Proof.
  intros Ht. pose proof (pipe_trace_inv _ _ _ _ Ht) as Hinv. destruct Hinv as [Hs Hc Hb].
  do 2 (split; [done|]). split; [intros data; by eapply write_spec|].
  intros others signal k n Hk Hj Hp. apply read_loop_served; [lia|done|done].
Qed.

(** A pipe of one page after a write of 4100 bytes: four are lost. *)
Lemma pipe_stream_witness :
  let p := (Pipe.write (Pipe.with_capacity 1 1) (replicate 4100 7)).2 in
  (Pipe.write (Pipe.with_capacity 1 1) (replicate 4100 7)).1 = true /\
  length (buffer p) = 4096%nat /\ Pipe.write p [1] = (false, p).
Proof.
  split; [vm_compute; reflexivity|]. split; [vm_compute; reflexivity|].
  destruct (pipe_stream 1 (Pipe.write (Pipe.with_capacity 1 1) (replicate 4100 7)).2
              ([] ++ take (Z.to_nat 4096 - 0) (replicate 4100 7)) []) as (_ & _ & Hw & _).
  - apply (trace_write 1 (Pipe.with_capacity 1 1) [] [] (replicate 4100 7) true);
      [apply trace_new|vm_compute; reflexivity].
  - rewrite (Hw [1]). rewrite decide_True; [reflexivity|vm_compute; reflexivity].
Defined.
