(* ===== verification/UserAccess.v ===== *)
(** * User memory access

    Model of [kernel/src/syscalls/user_access.rs]. User memory is a map from
    the mapped addresses to bytes; a copy that meets an unmapped address
    faults, and the bytes before it have been copied. The page fault fixup
    and the SMAP instructions around the copy are the hardware's part and are
    not modelled. *)

From S2P Require Import Prelude.

Abbreviation UserMem := (gmap Z Z).

Definition USER_LIMIT : Z := 0x800000000000.

(** [checked_add], then the limit. *)
Definition validate_ptr (ptr len : Z) : bool :=
  if M64 <=? ptr + len then false else ptr + len <=? USER_LIMIT.

(** [user_copy_bytes] from user memory: all the bytes, or a fault. *)
Fixpoint user_read (m : UserMem) (p : Z) (n : nat) : option (list Z) :=
  match n with
  | O => Some []
  | S n =>
      b ← m !! p;
      l ← user_read m (p + 1) n;
      Some (b :: l)
  end.

(** [user_copy_bytes] to user memory: whether it succeeded, and the memory. *)
Fixpoint user_write (m : UserMem) (p : Z) (l : list Z) : bool * UserMem :=
  match l with
  | [] => (true, m)
  | b :: l =>
      match m !! p with
      | None => (false, m)
      | Some _ => user_write (<[p := b]> m) (p + 1) l
      end
  end.

(** [None] is the error. *)
Definition copy_from_user (m : UserMem) (src_ptr : Z) (len : nat) : option (list Z) :=
  if negb (validate_ptr src_ptr (Z.of_nat len)) then None else user_read m src_ptr len.

Definition copy_to_user (m : UserMem) (dst_ptr : Z) (src : list Z) : bool * UserMem :=
  if negb (validate_ptr dst_ptr (Z.of_nat (length src))) then (false, m)
  else user_write m dst_ptr src.

(** [String::from_utf8] accepts exactly the well-formed sequences of bytes. *)
Definition cont (lo hi b : Z) : bool := (lo <=? b) && (b <=? hi).

Fixpoint from_utf8 (l : list Z) : bool :=
  match l with
  | [] => true
  | b0 :: l1 =>
      if b0 <? 0x80 then from_utf8 l1
      else
        match l1 with
        | [] => false
        | b1 :: l2 =>
            if cont 0xC2 0xDF b0 then cont 0x80 0xBF b1 && from_utf8 l2
            else
              match l2 with
              | [] => false
              | b2 :: l3 =>
                  if cont 0xE0 0xEF b0 then
                    cont (if b0 =? 0xE0 then 0xA0 else 0x80) (if b0 =? 0xED then 0x9F else 0xBF) b1 &&
                    cont 0x80 0xBF b2 && from_utf8 l3
                  else
                    match l3 with
                    | [] => false
                    | b3 :: l4 =>
                        cont 0xF0 0xF4 b0 &&
                        cont (if b0 =? 0xF0 then 0x90 else 0x80) (if b0 =? 0xF4 then 0x8F else 0xBF) b1 &&
                        cont 0x80 0xBF b2 && cont 0x80 0xBF b3 && from_utf8 l4
                    end
              end
        end
  end.

(** The bytes before the first zero; [None] when there is none. *)
Fixpoint until_nul (l : list Z) : option (list Z) :=
  match l with
  | [] => None
  | b :: l => if b =? 0 then Some [] else cons b <$> until_nul l
  end.

Definition read_user_string (m : UserMem) (ptr : Z) (max_len : nat) : option (list Z) :=
  if (ptr =? 0) || (max_len =? 0)%nat then None
  else if negb (validate_ptr ptr (Z.of_nat max_len)) then None
  else
    buf ← user_read m ptr max_len;
    s ← until_nul buf;
    if from_utf8 s then Some s else None.

(** ** Copies *)

Lemma user_read_lookup m p n l :
  user_read m p n = Some l <->
  length l = n /\ forall i b, l !! i = Some b -> m !! (p + Z.of_nat i) = Some b.
Proof.
  revert p l. induction n as [|n IH]; intros p l; cbn [user_read].
  - split; [intros [= <-]; by split|]. intros [?%nil_length_inv _]. by subst.
  - split.
    + destruct (m !! p) as [b|] eqn:Hb; [|done]. cbn.
      destruct (user_read m (p + 1) n) as [l'|] eqn:Hr; [|done]. intros [= <-].
      apply IH in Hr as [Hl Hr]. split; [cbn; lia|]. intros [|i] c; cbn.
      * intros [= <-]. by rewrite Z.add_0_r.
      * intros Hc. apply Hr in Hc. by rewrite <- Hc; f_equal; lia.
    + intros [Hl Hi]. destruct l as [|b l]; [done|].
      pose proof (Hi 0%nat b eq_refl) as Hb. rewrite Z.add_0_r in Hb. rewrite Hb. cbn.
      rewrite (proj2 (IH (p + 1) l)); [done|]. split; [by injection Hl|].
      intros i c Hc. rewrite <- (Hi (S i) c Hc). f_equal. lia.
Qed.

Definition mapped (m : UserMem) (p : Z) (n : nat) : Prop :=
  forall i, (i < n)%nat -> is_Some (m !! (p + Z.of_nat i)).

Lemma user_write_spec m p l :
  mapped m p (length l) ->
  exists m', user_write m p l = (true, m') /\
    forall a, m' !! a = if decide (p <= a < p + Z.of_nat (length l))
                        then l !! Z.to_nat (a - p) else m !! a.
Proof.
  revert m p. induction l as [|b l IH]; intros m p Hm; cbn [user_write].
  - exists m. split; [done|]. intros a. by rewrite decide_False by (cbn; lia).
  - destruct (Hm 0%nat) as [c Hc]; [cbn; lia|]. rewrite Z.add_0_r in Hc. rewrite Hc.
    destruct (IH (<[p := b]> m) (p + 1)) as (m' & -> & Hm').
    { intros i Hi. destruct (Hm (S i)) as [d Hd]; [cbn; lia|]. exists d.
      rewrite lookup_insert_ne by lia. rewrite <- Hd. f_equal. lia. }
    exists m'. split; [done|]. intros a. rewrite Hm'. cbn [length].
    destruct (decide (p + 1 <= a < p + 1 + Z.of_nat (length l))).
    + rewrite decide_True by lia. by replace (Z.to_nat (a - p)) with (S (Z.to_nat (a - (p + 1)))) by lia.
    + destruct (decide (a = p)) as [->|].
      * rewrite decide_True by lia. rewrite lookup_insert_eq. by rewrite Z.sub_diag.
      * rewrite decide_False by lia. by rewrite lookup_insert_ne.
Qed.

Lemma user_write_domain m p l b m' :
  user_write m p l = (b, m') ->
  dom m' = dom m /\ forall a, ~ (p <= a < p + Z.of_nat (length l)) -> m' !! a = m !! a.
Proof.
  revert m p. induction l as [|c l IH]; intros m p; cbn [user_write].
  { by intros [= <- <-]. }
  destruct (m !! p) as [d|] eqn:Hp; [|by intros [= <- <-]].
  intros [Hd Ha]%IH. split.
  - rewrite Hd, dom_insert_L. apply elem_of_dom_2 in Hp. set_solver.
  - intros a Hna. cbn [length] in *. rewrite Ha by lia. apply lookup_insert_ne. lia.
Qed.

(** Every byte of user memory is a byte, and stays one. *)
Definition mem_bytes (m : UserMem) : Prop := map_Forall (fun _ b => is_u8 b) m.

Lemma copy_from_user_bytes m p n l : mem_bytes m -> copy_from_user m p n = Some l -> bytes l /\ length l = n.
Proof.
  intros Hm. unfold copy_from_user. destruct (negb _); [done|]. intros [Hl Hi]%user_read_lookup. split; [|done].
  apply Forall_lookup. intros i b Hb. eapply Hm, Hi, Hb.
Qed.

Lemma copy_to_user_bytes m p l : mem_bytes m -> bytes l -> mem_bytes (copy_to_user m p l).2.
Proof.
  unfold copy_to_user. destruct (negb _); [done|]. revert m p.
  induction l as [|b l IH]; intros m p Hm Hl; cbn [user_write]; [done|].
  apply Forall_cons in Hl as [Hb Hl]. destruct (m !! p); [|done]. apply IH; [|done]. by apply map_Forall_insert_2.
Qed.

Lemma user_write_true m p l m' : user_write m p l = (true, m') -> mapped m p (length l).
Proof.
  revert m p. induction l as [|c l IH]; intros m p; cbn [user_write]; [intros _ i; cbn; lia|].
  destruct (m !! p) as [d|] eqn:Hp; [|done]. intros Hm%IH [|i] Hi.
  - rewrite Z.add_0_r, Hp. by eexists.
  - cbn in Hi. destruct (Hm i) as [x Hx]; [lia|]. rewrite lookup_insert_ne in Hx by lia.
    exists x. rewrite <- Hx. f_equal. lia.
Qed.

Lemma validate_ptr_spec p n :
  0 <= p -> 0 <= n -> validate_ptr p n = true <-> p + n <= USER_LIMIT.
Proof. intros. unfold validate_ptr, USER_LIMIT. destruct (Z.leb_spec M64 (p + n)); lia. Qed.

Lemma copy_to_from m p l m' :
  0 <= p -> copy_to_user m p l = (true, m') -> copy_from_user m' p (length l) = Some l.
Proof.
  intros Hp. unfold copy_to_user, copy_from_user.
  destruct (validate_ptr p (Z.of_nat (length l))); cbn [negb]; [|done]. intros Hw.
  destruct (user_write_spec m p l) as (m2 & Hw2 & Hm2); [by eapply user_write_true|].
  assert (m2 = m') as -> by congruence. apply user_read_lookup. split; [done|].
  intros i c Hc. apply lookup_lt_Some in Hc as Hi. rewrite Hm2, decide_True by lia.
  by replace (Z.to_nat (p + Z.of_nat i - p)) with i by lia.
Qed.

(** Copying to user memory and back is the identity, and stays in user
    space: a copy succeeds exactly when the range ends at or below the user
    limit and all of it is mapped; then the range reads back as what was
    written and every other byte is as before. In every case, faults
    included, nothing at or above the limit and nothing outside the range
    changes, and no address becomes mapped or unmapped. *)
Theorem user_copy_roundtrip m p l b m' :
  0 <= p -> copy_to_user m p l = (b, m') ->
  (b = true <-> validate_ptr p (Z.of_nat (length l)) = true /\ mapped m p (length l)) /\
  (b = true -> copy_from_user m' p (length l) = Some l) /\
  dom m' = dom m /\
  (forall a, ~ (p <= a < p + Z.of_nat (length l)) \/ USER_LIMIT <= a -> m' !! a = m !! a).
Proof.
  intros Hp Hc. pose proof (copy_to_from m p l m' Hp) as Hrt. revert Hc Hrt. unfold copy_to_user.
  destruct (validate_ptr p (Z.of_nat (length l))) eqn:Hv; cbn [negb]; [|intros [= <- <-]; naive_solver].
  intros Hw Hrt. apply validate_ptr_spec in Hv; [|lia..].
  destruct (user_write_domain _ _ _ _ _ Hw) as [Hd Ha].
  split_and!; [split| |done|].
  - intros ->. split; [done|]. by eapply user_write_true.
  - intros [_ Hm]. destruct (user_write_spec m p l Hm) as (m2 & Hw2 & _). congruence.
  - intros ->. by apply Hrt.
  - intros a Hna. apply Ha. lia.
Qed.

(** Two bytes at the end of user space, and two that do not fit. *)
Lemma user_copy_roundtrip_witness :
  let m := <[USER_LIMIT - 2 := 0]> (<[USER_LIMIT - 1 := 0]> (<[USER_LIMIT := 0]> ∅)) in
  copy_from_user (copy_to_user m (USER_LIMIT - 2) [7; 9]).2 (USER_LIMIT - 2) 2 = Some [7; 9] /\
  (copy_to_user m (USER_LIMIT - 1) [7; 9]).1 = false.
Proof.
  split; [|done].
  set (m := <[USER_LIMIT - 2 := 0]> (<[USER_LIMIT - 1 := 0]> (<[USER_LIMIT := 0]> ∅)) : UserMem).
  apply (user_copy_roundtrip m (USER_LIMIT - 2) [7; 9] true
           (copy_to_user m (USER_LIMIT - 2) [7; 9]).2); vm_compute; [discriminate|done|done].
Defined.

(** ** Strings *)

Lemma until_nul_spec l s :
  until_nul l = Some s <-> (0 ∉ s) /\ exists rest, l = s ++ 0 :: rest.
Proof.
  revert s. induction l as [|b l IH]; intros s; cbn [until_nul].
  { split; [done|]. by intros [_ [? []%app_cons_not_nil]]. }
  destruct (Z.eqb_spec b 0) as [->|Hb].
  - split.
    + intros [= <-]. split; [apply not_elem_of_nil|by exists l].
    + intros [Hs [rest Hr]]. destruct s as [|c s]; [done|].
      injection Hr as <- _. destruct Hs. by left.
  - destruct (until_nul l) as [t|] eqn:Ht; cbn.
    + destruct (proj1 (IH t) eq_refl) as [Hn [rest Hr]]. split.
      * intros [= <-]. split; [rewrite not_elem_of_cons; auto|]. exists rest. by rewrite Hr.
      * intros [Hs [rest' Hr']]. destruct s as [|c s]; [naive_solver|].
        injection Hr' as <- Hr'. rewrite not_elem_of_cons in Hs.
        assert (Some t = Some s) as [= ->]; [|done]. apply IH. naive_solver.
    + split; [done|]. intros [Hs [rest Hr]]. destruct s as [|c s]; [naive_solver|].
      injection Hr as <- Hr. rewrite not_elem_of_cons in Hs.
      enough (None = Some s) by done. apply IH. naive_solver.
Qed.

Lemma mapped_read m p n : mapped m p n <-> exists l, user_read m p n = Some l.
Proof.
  split.
  - revert p. induction n as [|n IH]; intros p Hm; cbn [user_read]; [by eexists|].
    destruct (Hm 0%nat) as [b Hb]; [lia|]. rewrite Z.add_0_r in Hb. rewrite Hb. cbn.
    destruct (IH (p + 1)) as [l ->]; [|by eexists].
    intros i Hi. destruct (Hm (S i)) as [c Hc]; [lia|]. exists c. rewrite <- Hc. f_equal. lia.
  - intros [l [Hl Hi]%user_read_lookup] i Hlt. destruct (lookup_lt_is_Some_2 l i) as [b Hb]; [lia|].
    exists b. by apply Hi.
Qed.

Lemma read_user_string_iff m p n s :
  0 <= p ->
  read_user_string m p n = Some s <->
  p <> 0 /\ p + Z.of_nat n <= USER_LIMIT /\ mapped m p n /\ (length s < n)%nat /\
  (forall i b, (s ++ [0]) !! i = Some b -> m !! (p + Z.of_nat i) = Some b) /\
  (0 ∉ s) /\ from_utf8 s = true.
Proof.
  intros Hp. unfold read_user_string. split.
  - destruct (Z.eqb_spec p 0), (Nat.eqb_spec n 0); cbn [orb]; [done..|].
    destruct (validate_ptr p (Z.of_nat n)) eqn:Hv; cbn [negb]; [|done].
    apply validate_ptr_spec in Hv; [|lia..].
    destruct (user_read m p n) as [buf|] eqn:Hr; [|done]. cbn.
    destruct (until_nul buf) as [t|] eqn:Ht; [|done]. cbn.
    destruct (from_utf8 t) eqn:Hu; [|done]. intros [= ->].
    apply until_nul_spec in Ht as [Hn [rest ->]].
    destruct (proj1 (user_read_lookup _ _ _ _) Hr) as [Hl Hi].
    rewrite length_app in Hl. cbn in Hl. split_and!; [done|done| |lia| |done|done].
    + apply mapped_read. by eexists.
    + intros i b Hb. apply Hi. by rewrite (cons_middle 0 s rest), app_assoc; apply lookup_app_l_Some.
  - intros (Hp0 & Hlim & Hm & Hlen & Hs & Hn & Hu).
    rewrite (proj2 (Z.eqb_neq p 0) Hp0), (proj2 (Nat.eqb_neq n 0)) by lia. cbn [orb].
    rewrite (proj2 (validate_ptr_spec p (Z.of_nat n) Hp ltac:(lia))) by done. cbn [negb].
    apply mapped_read in Hm as [buf Hr]. rewrite Hr. cbn.
    destruct (proj1 (user_read_lookup _ _ _ _) Hr) as [Hl Hi].
    rewrite (proj2 (until_nul_spec buf s)); [by cbn; rewrite Hu|]. split; [done|].
    exists (drop (S (length s)) buf). rewrite (cons_middle 0), app_assoc.
    rewrite <- (take_drop (S (length s)) buf) at 1. f_equal. apply list_eq. intros i.
    destruct (decide (i < S (length s))%nat).
    + rewrite lookup_take_lt by done. destruct (lookup_lt_is_Some_2 buf i) as [b Hb]; [lia|].
      destruct (lookup_lt_is_Some_2 (s ++ [0]) i) as [c Hc]; [rewrite length_app; cbn; lia|].
      apply Hi in Hb as Hb'. apply Hs in Hc as Hc'. congruence.
    + rewrite lookup_take_ge, lookup_ge_None_2 by (rewrite ?length_app; cbn; lia). done.
Qed.

(** [read_user_string] returns exactly the string at the address: it
    succeeds with [s] if and only if the address is not null, all [max_len]
    bytes from it on lie in user space and are mapped, they start with [s] and
    a zero byte, and [s] is UTF-8 without a zero. So a string longer than
    [max_len - 1] is refused, and so is a short one less than [max_len] bytes
    before the end of a mapping. *)
Theorem read_user_string_spec m p n s :
  0 <= p ->
  read_user_string m p n = Some s <->
  p <> 0 /\ p + Z.of_nat n <= USER_LIMIT /\ mapped m p n /\ (length s < n)%nat /\
  (forall i b, (s ++ [0]) !! i = Some b -> m !! (p + Z.of_nat i) = Some b) /\
  (0 ∉ s) /\ from_utf8 s = true.
Proof. apply read_user_string_iff. Qed.

(** The string "ab" with two bytes to spare. *)
Lemma read_user_string_spec_witness :
  let m : UserMem := <[8 := 97]> (<[9 := 98]> (<[10 := 0]> (<[11 := 200]> ∅))) in
  read_user_string m 8 4 = Some [97; 98] /\ from_utf8 [97; 98] = true /\
  read_user_string m 8 5 = None.
Proof.
  split; [done|]. split; [|done].
  apply (read_user_string_spec (<[8 := 97]> (<[9 := 98]> (<[10 := 0]> (<[11 := 200]> ∅))))
           8 4 [97; 98]); done.
Defined.
