(* ===== verification/FdTable.v ===== *)
(** * File descriptors

    Model of the descriptor table of a process: [FileDescriptor] and
    [ProcessFiles] of [kernel/src/task/process.rs], and the operations on it
    of [kernel/src/syscalls/fs_open.rs] (close, dup, dup2, fcntl, pipe),
    [compat.rs] (dup3, pipe2), [helpers.rs] (the slot [add_fd] picks),
    [ipc/mqueue/mod.rs] ([install_fd]) and of exec in
    [process_lifecycle.rs]. What a descriptor refers to is kept by number. *)

From S2P Require Import Prelude UserAccess.

Inductive SocketType := Tcp | Udp | Raw | Unix.

#[export] Instance SocketType_eq_dec : EqDecision SocketType.
Proof. solve_decision. Defined.

Inductive FileDescriptor :=
| File (node offset : Z)
| Socket (h : Z) (t : SocketType)
| UnixSocket (h : Z) (t : SocketType)
| PtyMaster (idx pair : Z)
| PtySlave (idx pair : Z)
| SignalFd (h : Z)
| EventFd (data : Z)
| TimerFd (data : Z)
| InotifyFd (instance_key : Z)
| IoUringFd (data : Z)
| Mqueue (obj : Z).

#[export] Instance FileDescriptor_eq_dec : EqDecision FileDescriptor.
Proof. solve_decision. Defined.

Record ProcessFiles := mkFiles {
  fd_table : list (option FileDescriptor);
  fd_flags : list Z;
}.

(** The internal close-on-exec bit. *)
Definition FD_CLOEXEC : Z := 0x80000.

(** [flags & !0x80000] on a 64-bit word. *)
Definition clear_cloexec (flags : Z) : Z := Z.land flags (not64 FD_CLOEXEC).

Definition F_DUPFD : Z := 0.
Definition F_GETFD : Z := 1.
Definition F_SETFD : Z := 2.
Definition F_GETFL : Z := 3.
Definition F_SETFL : Z := 4.

(** [Vec::resize]. *)
Definition resize {A} (l : list A) (n : nat) (x : A) : list A :=
  take n l ++ replicate (n - length l) x.

(** A store by index; [None] is the panic. *)
Definition store {A} (l : list A) (i : nat) (x : A) : option (list A) :=
  if bool_decide (i < length l)%nat then Some (<[i := x]> l) else None.

(** The first hole at or after [from], in a table whose first index is [i]. *)
Fixpoint hole (t : list (option FileDescriptor)) (i : nat) (from : Z) : option nat :=
  match t with
  | [] => None
  | None :: t => if from <=? Z.of_nat i then Some i else hole t (S i) from
  | Some _ :: t => hole t (S i) from
  end.

(** A descriptor that is open. *)
Definition fd_get (f : ProcessFiles) (fd : Z) : option FileDescriptor :=
  match fd_table f !! Z.to_nat fd with Some slot => slot | None => None end.

(** The flag word of a descriptor: a missing one counts as zero. *)
Definition flags_of (f : ProcessFiles) (fd : Z) : Z := default 0 (fd_flags f !! Z.to_nat fd).

(** What closing a descriptor does beyond the table. [strong_count] is the
    number of references to a queue description, this one included. *)
Inductive CloseEffect :=
| CloseHandle (fd : Z)
| RemoveReuseport (h : Z)
| TcpStatsRemove (h : Z)
| RemoveSocket (h : Z)
| CleanupUnixSocket (h : Z)
| RemoveSignalFd (h : Z)
| InotifyClose (key : Z)
| ClearNotify (obj : Z)
| WakePipe (data : Z).

Definition close_effects (strong_count : Z -> Z) (desc : FileDescriptor) : list CloseEffect :=
  match desc with
  | Socket h _ => [RemoveReuseport h; TcpStatsRemove h; RemoveSocket h]
  | UnixSocket h _ => [CleanupUnixSocket h]
  | SignalFd h => [RemoveSignalFd h]
  | InotifyFd key => [InotifyClose key]
  | Mqueue obj => if strong_count obj =? 1 then [ClearNotify obj] else []
  | EventFd data | TimerFd data | IoUringFd data => [WakePipe data]
  | File _ _ | PtyMaster _ _ | PtySlave _ _ => []
  end.

Definition sys_close (strong_count : Z -> Z) (f : ProcessFiles) (fd : Z)
    : Z * ProcessFiles * list CloseEffect :=
  match fd_get f fd with
  | None => (Errno.ret Errno.EBADF, f, [])
  | Some desc =>
      (0, mkFiles (<[Z.to_nat fd := None]> (fd_table f)) (<[Z.to_nat fd := 0]> (fd_flags f)),
       CloseHandle fd :: close_effects strong_count desc)
  end.

(** Put a copy in the first hole at or after [from], or at the end. *)
Definition dup_from (f : ProcessFiles) (desc : FileDescriptor) (from : Z) : Z * ProcessFiles :=
  match hole (fd_table f) 0 from with
  | Some i =>
      let flags := if (length (fd_flags f) <=? i)%nat then resize (fd_flags f) (S i) 0 else fd_flags f in
      (Z.of_nat i, mkFiles (<[i := Some desc]> (fd_table f)) (<[i := 0]> flags))
  | None =>
      (Z.of_nat (length (fd_table f)), mkFiles (fd_table f ++ [Some desc]) (fd_flags f ++ [0]))
  end.

Definition sys_dup (f : ProcessFiles) (old_fd : Z) : Z * ProcessFiles :=
  match fd_get f old_fd with
  | None => (Errno.ret Errno.EBADF, f)
  | Some desc => dup_from f desc 0
  end.

(** [None] is the index panic: [new_fd + 1] wraps to zero. *)
Definition sys_dup2 (f : ProcessFiles) (old_fd new_fd : Z) : option (Z * ProcessFiles) :=
  match fd_get f old_fd with
  | None => Some (Errno.ret Errno.EBADF, f)
  | Some desc =>
      let old_flags := flags_of f old_fd in
      let t := if Z.of_nat (length (fd_table f)) <=? new_fd
               then resize (fd_table f) (Z.to_nat (u64 (new_fd + 1))) None else fd_table f in
      let flags := if (length (fd_flags f) <? length t)%nat
                   then resize (fd_flags f) (length t) 0 else fd_flags f in
      t' ← store t (Z.to_nat new_fd) (Some desc);
      flags' ← store flags (Z.to_nat new_fd) (clear_cloexec old_flags);
      Some (new_fd, mkFiles t' flags')
  end.

Definition set_flag_word (f : ProcessFiles) (fd : Z) (g : Z -> Z) : ProcessFiles :=
  let i := Z.to_nat fd in
  let flags := if (length (fd_flags f) <=? i)%nat then resize (fd_flags f) (S i) 0 else fd_flags f in
  mkFiles (fd_table f) (alter g i flags).

Definition sys_dup3 (f : ProcessFiles) (old_fd new_fd flags : Z) : option (Z * ProcessFiles) :=
  if old_fd =? new_fd then Some (Errno.ret Errno.EINVAL, f)
  else if negb (Z.land flags (Z.lnot FD_CLOEXEC) =? 0) then Some (Errno.ret Errno.EINVAL, f)
  else
    match fd_get f old_fd with
    | None => Some (Errno.ret Errno.EBADF, f)
    | Some _ =>
        '(result, f') ← sys_dup2 f old_fd new_fd;
        if (i64 result =? -1) || negb (Z.land result 0xFFFFFFFFFFFF0000 =? 0)
        then Some (result, f')
        else if negb (Z.land flags FD_CLOEXEC =? 0)
        then Some (new_fd, set_flag_word f' new_fd (Z.lor FD_CLOEXEC))
        else Some (new_fd, f')
    end.

(** What [fcntl] uses of a queue description. *)
Record MqDesc := mkMqDesc { can_read : bool; can_write : bool; mq_flags : Z }.

(** The last component is the description flags [F_SETFL] sets, if any. *)
Definition sys_fcntl (mq : Z -> MqDesc) (f : ProcessFiles) (fd cmd arg : Z)
    : Z * ProcessFiles * option (Z * Z) :=
  match fd_get f fd with
  | None => (Errno.ret Errno.EBADF, f, None)
  | Some desc =>
      if cmd =? F_DUPFD then (dup_from f desc arg, None)
      else if cmd =? F_GETFD then
        ((if Z.land (flags_of f fd) FD_CLOEXEC =? 0 then 0 else 1), f, None)
      else if cmd =? F_SETFD then
        (0, set_flag_word f fd (if Z.land arg 1 =? 0 then clear_cloexec else Z.lor FD_CLOEXEC), None)
      else if cmd =? F_GETFL then
        (match desc with
         | Mqueue obj =>
             let accmode := match can_read (mq obj), can_write (mq obj) with
                            | true, false => 0 | false, true => 1 | _, _ => 2 end in
             u64 (Z.lor accmode (mq_flags (mq obj)))
         | _ => flags_of f fd
         end, f, None)
      else if cmd =? F_SETFL then
        (0, set_flag_word f fd (fun w =>
              Z.lor (Z.land w 0x80003) (Z.land (Z.land arg 0xFFFF) (not64 3))),
         match desc with Mqueue obj => Some (obj, Z.land arg 0x800) | _ => None end)
      else (Errno.ret Errno.EINVAL, f, None)
  end.

(** ** Pipes, queues, files and exec *)

(** The two lowest free descriptors. *)
Definition pipe_slots (t : list (option FileDescriptor)) : nat * nat :=
  let r := default (length t) (hole t 0 0) in
  let w := match hole t 0 (Z.of_nat r + 1) with
           | Some w => w
           | None => if (r =? length t)%nat then S (length t) else length t
           end in
  (r, w).

Definition install_pipe (f : ProcessFiles) (reader writer flags : Z) : Z * Z * ProcessFiles :=
  let '(r, w) := pipe_slots (fd_table f) in
  let end_ := S (Nat.max r w) in
  let t := if (length (fd_table f) <? end_)%nat then resize (fd_table f) end_ None else fd_table f in
  let fl := if (length (fd_flags f) <? end_)%nat then resize (fd_flags f) end_ 0 else fd_flags f in
  (Z.of_nat r, Z.of_nat w,
   mkFiles (<[w := Some (File writer 0)]> (<[r := Some (File reader 0)]> t))
     (<[w := flags]> (<[r := flags]> fl))).

(** [pipe] and, with flags, [pipe2]: [reader] and [writer] are the nodes of a
    new pipe. *)
Definition pipe_common (m : UserMem) (f : ProcessFiles) (reader writer fds_ptr flags : Z)
    : Z * ProcessFiles * UserMem :=
  let '(r, w, f') := install_pipe f reader writer flags in
  let '(ok, m') := copy_to_user m fds_ptr (le_bytes 4 (u32 r) ++ le_bytes 4 (u32 w)) in
  if ok : bool then (0, f', m')
  else
    (Errno.ret Errno.EFAULT,
     mkFiles (<[Z.to_nat w := None]> (<[Z.to_nat r := None]> (fd_table f')))
       (<[Z.to_nat w := 0]> (<[Z.to_nat r := 0]> (fd_flags f'))), m').

Definition sys_pipe (m : UserMem) (f : ProcessFiles) (reader writer fds_ptr : Z) :=
  pipe_common m f reader writer fds_ptr 0.

Definition sys_pipe2 (m : UserMem) (f : ProcessFiles) (reader writer fds_ptr flags : Z)
    : Z * ProcessFiles * UserMem :=
  if negb (Z.land flags (Z.lnot (Z.lor FD_CLOEXEC 0x800)) =? 0) then (Errno.ret Errno.EINVAL, f, m)
  else pipe_common m f reader writer fds_ptr (u32 flags).

(** A queue descriptor: the lowest slot, close-on-exec. *)
Definition install_fd (f : ProcessFiles) (obj : Z) : Z * ProcessFiles :=
  let '(i, t) := match hole (fd_table f) 0 0 with
                 | Some i => (i, <[i := Some (Mqueue obj)]> (fd_table f))
                 | None => (length (fd_table f), fd_table f ++ [Some (Mqueue obj)])
                 end in
  (Z.of_nat i, set_flag_word (mkFiles t (fd_flags f)) (Z.of_nat i) (Z.lor FD_CLOEXEC)).

(** The slot [add_fd] takes: free in the handle table and here. [fuel] counts
    the slots of the longer table. *)
Fixpoint shared_slot (fuel : nat) (handle_valid : nat -> bool) (f : ProcessFiles) (idx : nat) : nat :=
  match fuel with
  | O => idx
  | S fuel =>
      if handle_valid idx || bool_decide (is_Some (fd_get f (Z.of_nat idx)))
      then shared_slot fuel handle_valid f (S idx) else idx
  end.

Definition add_file (handle_len : nat) (handle_valid : nat -> bool) (f : ProcessFiles)
    (node open_flags : Z) : Z * ProcessFiles :=
  let idx := shared_slot (Nat.max handle_len (length (fd_table f))) handle_valid f 0 in
  let t := if (length (fd_table f) <=? idx)%nat then resize (fd_table f) (S idx) None else fd_table f in
  let fl := if (length (fd_flags f) <=? idx)%nat then resize (fd_flags f) (S idx) 0 else fd_flags f in
  (Z.of_nat idx, mkFiles (<[idx := Some (File node 0)]> t) (<[idx := u64 open_flags]> fl)).

(** What exec does to the table. *)
Definition exec_files (f : ProcessFiles) : ProcessFiles :=
  mkFiles (imap (fun i slot => if Z.land (flags_of f (Z.of_nat i)) FD_CLOEXEC =? 0
                               then slot else None) (fd_table f))
    (fd_flags f).

(** ** The view of a table *)

(** There are never more flag words than slots. *)
Definition files_wf (f : ProcessFiles) : Prop :=
  (length (fd_flags f) <= length (fd_table f))%nat.

(** [fd] is the lowest free descriptor at or above [from]. *)
Definition lowest_free (f : ProcessFiles) (from fd : Z) : Prop :=
  from <= fd /\ fd_get f fd = None /\ forall j, 0 <= j -> from <= j < fd -> is_Some (fd_get f j).

(** [f'] is [f] with [desc] and [flags] at [fd]. *)
Definition files_set (f f' : ProcessFiles) (fd : Z) (desc : option FileDescriptor) (flags : Z) : Prop :=
  forall j, 0 <= j ->
    fd_get f' j = (if decide (j = fd) then desc else fd_get f j) /\
    flags_of f' j = (if decide (j = fd) then flags else flags_of f j).

Lemma lookup_resize {A} (l : list A) n x i :
  (length l <= n)%nat ->
  resize l n x !! i = if decide (i < length l)%nat then l !! i
                      else if decide (i < n)%nat then Some x else None.
Proof.
  intros Hn. unfold resize. rewrite take_ge by lia. case_decide; [by rewrite lookup_app_l|].
  rewrite lookup_app_r by lia. case_decide.
  - apply lookup_replicate_2. lia.
  - apply lookup_ge_None_2. rewrite length_replicate. lia.
Qed.

Lemma length_resize {A} (l : list A) n x : (length l <= n)%nat -> length (resize l n x) = n.
Proof. intros. unfold resize. rewrite take_ge, length_app, length_replicate by lia. lia. Qed.

Lemma hole_spec t i from :
  match hole t i from with
  | Some j => (i <= j)%nat /\ t !! (j - i)%nat = Some None /\ from <= Z.of_nat j /\
              forall h, (i <= h < j)%nat -> from <= Z.of_nat h -> exists d, t !! (h - i)%nat = Some (Some d)
  | None => forall h, (i <= h < i + length t)%nat -> from <= Z.of_nat h ->
              exists d, t !! (h - i)%nat = Some (Some d)
  end.
Proof.
  revert i. induction t as [|[d|] t IH]; intros i; cbn [hole]; [cbn; lia| |].
  - specialize (IH (S i)). destruct (hole t (S i) from) as [j|].
    + destruct IH as (Hij & Hj & Hf & Hh). split_and!; [lia| |done|].
      * by replace (j - i)%nat with (S (j - S i)) by lia.
      * intros h Hh1 Hh2. destruct (decide (h = i)) as [->|]; [rewrite Nat.sub_diag; by exists d|].
        replace (h - i)%nat with (S (h - S i)) by lia. apply Hh; [lia|done].
    + intros h Hh1 Hh2. cbn in Hh1. destruct (decide (h = i)) as [->|]; [rewrite Nat.sub_diag; by exists d|].
      replace (h - i)%nat with (S (h - S i)) by lia. apply IH; [lia|done].
  - destruct (Z.leb_spec from (Z.of_nat i)).
    + split_and!; [lia|by rewrite Nat.sub_diag|done|lia].
    + specialize (IH (S i)). destruct (hole t (S i) from) as [j|].
      * destruct IH as (Hij & Hj & Hf & Hh). split_and!; [lia| |done|].
        -- by replace (j - i)%nat with (S (j - S i)) by lia.
        -- intros h Hh1 Hh2. replace (h - i)%nat with (S (h - S i)) by lia. apply Hh; lia.
      * intros h Hh1 Hh2. cbn in Hh1. replace (h - i)%nat with (S (h - S i)) by lia. apply IH; lia.
Qed.

Lemma flags_resize l n i : (length l <= n)%nat -> default 0 (resize l n 0 !! i) = default 0 (l !! i).
Proof.
  intros Hn. rewrite lookup_resize by done. case_decide; [done|].
  rewrite (lookup_ge_None_2 l) by lia. by case_decide.
Qed.

Lemma flags_snoc l i : default 0 ((l ++ [0]) !! i) = default 0 (l !! i).
Proof.
  destruct (decide (i < length l)%nat); [by rewrite lookup_app_l|].
  rewrite lookup_app_r, (lookup_ge_None_2 l) by lia.
  destruct (i - length l)%nat as [|k]; [done|]. by destruct k.
Qed.

Lemma flags_insert l i v j :
  (i < length l)%nat ->
  default 0 (<[i := v]> l !! j) = if decide (j = i) then v else default 0 (l !! j).
Proof.
  intros Hi. case_decide as Hj; [subst; by rewrite list_lookup_insert_eq|].
  by rewrite list_lookup_insert_ne by done.
Qed.

Definition slot_of (t : list (option FileDescriptor)) (i : nat) : option FileDescriptor :=
  match t !! i with Some slot => slot | None => None end.

Lemma slot_insert t i v j :
  (i < length t)%nat -> slot_of (<[i := v]> t) j = if decide (j = i) then v else slot_of t j.
Proof.
  intros Hi. unfold slot_of. case_decide as Hj; [subst; by rewrite list_lookup_insert_eq|].
  by rewrite list_lookup_insert_ne by done.
Qed.

Lemma slot_resize t n j : (length t <= n)%nat -> slot_of (resize t n None) j = slot_of t j.
Proof.
  intros Hn. unfold slot_of. rewrite lookup_resize by done. case_decide; [done|].
  rewrite (lookup_ge_None_2 t) by lia. by case_decide.
Qed.

Lemma slot_snoc t d j :
  slot_of (t ++ [Some d]) j = if decide (j = length t) then Some d else slot_of t j.
Proof.
  unfold slot_of. case_decide as Hj; [subst; by rewrite list_lookup_middle|].
  destruct (decide (j < length t)%nat); [by rewrite lookup_app_l|].
  by rewrite !lookup_ge_None_2 by (rewrite ?length_app; cbn; lia).
Qed.

Lemma files_set_nat f f' i desc flags :
  (forall j, slot_of (fd_table f') j = (if decide (j = i) then desc else slot_of (fd_table f) j) /\
             default 0 (fd_flags f' !! j) = (if decide (j = i) then flags else default 0 (fd_flags f !! j))) ->
  files_set f f' (Z.of_nat i) desc flags.
Proof.
  intros H j Hj. destruct (H (Z.to_nat j)) as [Ht Hf]. unfold fd_get, flags_of.
  fold (slot_of (fd_table f') (Z.to_nat j)). fold (slot_of (fd_table f) (Z.to_nat j)).
  rewrite Ht, Hf. destruct (decide (j = Z.of_nat i)), (decide (Z.to_nat j = i)); auto; lia.
Qed.

Lemma files_set_at f f' fd desc flags :
  0 <= fd ->
  (forall j, slot_of (fd_table f') j =
               (if decide (j = Z.to_nat fd) then desc else slot_of (fd_table f) j) /\
             default 0 (fd_flags f' !! j) =
               (if decide (j = Z.to_nat fd) then flags else default 0 (fd_flags f !! j))) ->
  files_set f f' fd desc flags.
Proof. intros Hfd H. rewrite <- (Z2Nat.id fd) by done. by apply files_set_nat. Qed.

Lemma dup_from_spec f d from n f' :
  files_wf f -> dup_from f d from = (n, f') ->
  0 <= n /\ files_wf f' /\ fd_get f n = None /\ files_set f f' n (Some d) 0 /\
  (from <= Z.of_nat (length (fd_table f)) -> lowest_free f from n).
Proof.
  intros Hwf. unfold dup_from. pose proof (hole_spec (fd_table f) 0 from) as Hh.
  destruct (hole (fd_table f) 0 from) as [i|]; intros [= <- <-].
  - destruct Hh as (_ & Hi & Hfr & Hbelow). rewrite Nat.sub_0_r in Hi.
    pose proof (lookup_lt_Some _ _ _ Hi) as Hlt.
    assert (Hnone : fd_get f (Z.of_nat i) = None) by (unfold fd_get; by rewrite Nat2Z.id, Hi).
    split_and!; [lia| |done| |].
    + unfold files_wf in *. cbn. rewrite !length_insert.
      destruct (Nat.leb_spec (length (fd_flags f)) i); [rewrite length_resize; lia|done].
    + apply files_set_nat. intros j. cbn [fd_table fd_flags]. split; [by apply slot_insert|].
      destruct (Nat.leb_spec (length (fd_flags f)) i).
      * rewrite flags_insert by (rewrite length_resize; lia). by rewrite flags_resize by lia.
      * by rewrite flags_insert.
    + intros _. split_and!; [done|done|]. intros j Hj0 Hj. unfold fd_get.
      destruct (Hbelow (Z.to_nat j)) as [x Hx]; [lia|lia|]. rewrite Nat.sub_0_r in Hx. rewrite Hx. by eexists.
  - split_and!; [lia| | | |].
    + unfold files_wf in *. cbn. rewrite !length_app. cbn. lia.
    + unfold fd_get. by rewrite Nat2Z.id, lookup_ge_None_2.
    + apply files_set_nat. intros j. cbn [fd_table fd_flags]. rewrite slot_snoc, flags_snoc.
      split; [done|]. case_decide; [|done]. subst. by rewrite lookup_ge_None_2.
    + intros Hfr. split_and!; [done|unfold fd_get; by rewrite Nat2Z.id, lookup_ge_None_2|].
      intros j Hj0 Hj. unfold fd_get. destruct (Hh (Z.to_nat j)) as [x Hx]; [lia|lia|].
      rewrite Nat.sub_0_r in Hx. rewrite Hx. by eexists.
Qed.

Lemma dup2_spec f desc old new :
  files_wf f -> fd_get f old = Some desc -> 0 <= new < M64 - 1 ->
  exists f', sys_dup2 f old new = Some (new, f') /\ files_wf f' /\
    files_set f f' new (Some desc) (clear_cloexec (flags_of f old)).
Proof.
  intros Hwf Ho Hn. unfold sys_dup2. rewrite Ho, u64_small by (unfold is_u64; lia).
  set (t := if _ <=? new then _ else _). set (fl := if (_ <? length t)%nat then _ else _).
  assert (Ht : (length (fd_table f) <= length t)%nat /\ (Z.to_nat new < length t)%nat /\
               forall j, slot_of t j = slot_of (fd_table f) j).
  { subst t. destruct (Z.leb_spec (Z.of_nat (length (fd_table f))) new); [|split_and!; auto; lia].
    rewrite length_resize by lia. split_and!; [lia|lia|]. intros j. apply slot_resize. lia. }
  destruct Ht as (Hlen & Hlt & Hslot).
  assert (Hfl : length fl = length t /\ forall j, default 0 (fl !! j) = default 0 (fd_flags f !! j)).
  { subst fl. unfold files_wf in Hwf. destruct (Nat.ltb_spec (length (fd_flags f)) (length t)); [|split; [lia|done]].
    rewrite length_resize by lia. split; [done|]. intros j. apply flags_resize. lia. }
  destruct Hfl as [Hfll Hflags]. unfold store. rewrite !bool_decide_true by lia. cbn.
  eexists. split; [done|]. split; [unfold files_wf; cbn; rewrite !length_insert; lia|].
  apply files_set_at; [lia|]. intros j. cbn [fd_table fd_flags].
  by rewrite slot_insert, flags_insert, Hslot, Hflags by lia.
Qed.

Lemma close_spec count f fd r f' eff :
  files_wf f -> 0 <= fd -> sys_close count f fd = (r, f', eff) ->
  files_wf f' /\
  match fd_get f fd with
  | Some desc => r = 0 /\ eff = CloseHandle fd :: close_effects count desc /\ files_set f f' fd None 0
  | None => r = Errno.ret Errno.EBADF /\ eff = [] /\ f' = f
  end.
Proof.
  intros Hwf Hfd. unfold sys_close. destruct (fd_get f fd) as [desc|] eqn:Hd; intros [= <- <- <-]; [|done].
  assert (Hlt : (Z.to_nat fd < length (fd_table f))%nat).
  { unfold fd_get in Hd. destruct (fd_table f !! Z.to_nat fd) eqn:Hl; [|done]. by eapply lookup_lt_Some. }
  split; [unfold files_wf in *; cbn; by rewrite !length_insert|]. do 2 (split; [done|]).
  apply files_set_at; [done|]. intros j. cbn [fd_table fd_flags]. split; [by apply slot_insert|].
  destruct (decide (Z.to_nat fd < length (fd_flags f))%nat); [by apply flags_insert|].
  rewrite list_insert_ge by lia. case_decide; [|done]. subst. by rewrite lookup_ge_None_2 by lia.
Qed.

Lemma set_flag_word_spec f fd g :
  files_wf f -> 0 <= fd -> is_Some (fd_get f fd) ->
  files_wf (set_flag_word f fd g) /\
  files_set f (set_flag_word f fd g) fd (fd_get f fd) (g (flags_of f fd)).
Proof.
  intros Hwf Hfd [d Hd].
  assert (Hlt : (Z.to_nat fd < length (fd_table f))%nat).
  { unfold fd_get in Hd. destruct (fd_table f !! Z.to_nat fd) eqn:Hl; [|done]. by eapply lookup_lt_Some. }
  unfold set_flag_word. set (fl := if (_ <=? _)%nat then _ else _).
  assert (Hfl : (Z.to_nat fd < length fl <= length (fd_table f))%nat /\
                forall j, default 0 (fl !! j) = default 0 (fd_flags f !! j)).
  { subst fl. unfold files_wf in Hwf. destruct (Nat.leb_spec (length (fd_flags f)) (Z.to_nat fd)); [|split; [lia|done]].
    rewrite length_resize by lia. split; [lia|]. intros j. apply flags_resize. lia. }
  destruct Hfl as [Hl Hf]. split; [unfold files_wf; cbn; rewrite length_alter; lia|].
  apply files_set_at; [done|]. intros j. cbn [fd_table fd_flags]. split.
  - case_decide; [subst|done]. by rewrite Hd; unfold fd_get, slot_of in *.
  - case_decide as Hj.
    + subst. rewrite list_lookup_alter_eq. unfold flags_of. rewrite <- Hf.
      by destruct (lookup_lt_is_Some_2 fl (Z.to_nat fd)) as [v ->]; [lia|].
    + by rewrite list_lookup_alter_ne by done.
Qed.

(** ** Properties *)

(** Duplicating and closing act on one descriptor only. [dup] of an open
    descriptor takes the lowest free one, with the flags cleared; [dup2] and
    [dup3] below the last 64-bit number store the copy at the number asked
    for, without its close-on-exec bit; [close] frees its descriptor and
    clears its flags. Every other descriptor keeps its object and its flags,
    and a request on a descriptor that is not open answers [EBADF] and
    changes nothing. *)
Theorem fd_ops_local (count : Z -> Z) (f : ProcessFiles) (fd new : Z) :
  files_wf f -> 0 <= fd -> 0 <= new < M64 - 1 ->
  match fd_get f fd with
  | None =>
      sys_dup f fd = (Errno.ret Errno.EBADF, f) /\
      sys_dup2 f fd new = Some (Errno.ret Errno.EBADF, f) /\
      sys_close count f fd = (Errno.ret Errno.EBADF, f, [])
  | Some desc =>
      (lowest_free f 0 (sys_dup f fd).1 /\
       files_set f (sys_dup f fd).2 (sys_dup f fd).1 (Some desc) 0) /\
      (exists f', sys_dup2 f fd new = Some (new, f') /\
         files_set f f' new (Some desc) (clear_cloexec (flags_of f fd))) /\
      (exists f', sys_close count f fd = (0, f', CloseHandle fd :: close_effects count desc) /\
         files_set f f' fd None 0)
  end.
Proof.
  intros Hwf Hfd Hn. pose proof (close_spec count f fd) as Hc.
  destruct (sys_close count f fd) as [[r fc] eff]. destruct (Hc r fc eff Hwf Hfd eq_refl) as [_ Hc'].
  unfold sys_dup. destruct (fd_get f fd) as [desc|] eqn:Hd.
  - destruct Hc' as (-> & -> & Hset).
    destruct (dup_from f desc 0) as [n f'] eqn:Hdup.
    destruct (dup_from_spec _ _ _ _ _ Hwf Hdup) as (_ & _ & _ & Hs & Hl).
    destruct (dup2_spec _ _ _ _ Hwf Hd Hn) as (f2 & H2 & _ & Hs2).
    split_and!; [apply Hl; lia|done|by exists f2|by exists fc].
  - destruct Hc' as (-> & -> & ->). unfold sys_dup2. by rewrite Hd.
Qed.

Definition two_files : ProcessFiles := mkFiles [Some (File 1 0); None; Some (File 2 7)] [0; 0; FD_CLOEXEC].

(** [dup] of descriptor 2 fills the hole at 1. *)
Lemma fd_ops_local_witness :
  (sys_dup two_files 2).1 = 1 /\ lowest_free two_files 0 (sys_dup two_files 2).1.
Proof.
  split; [done|].
  destruct (fd_ops_local (fun _ => 1) two_files 2 5) as ((H & _) & _);
    [unfold files_wf; cbn; lia|lia|lia|exact H].
Defined.

(** [dup2] to the last 64-bit number panics the kernel, whatever is open:
    [new_fd + 1] wraps to zero, the table is resized to nothing and the store
    is out of range. *)
Theorem dup2_last_panics (f : ProcessFiles) (fd : Z) (desc : FileDescriptor) :
  fd_get f fd = Some desc -> Z.of_nat (length (fd_table f)) < M64 ->
  sys_dup2 f fd (M64 - 1) = None.
Proof.
  intros Hd Hl. unfold sys_dup2. rewrite Hd.
  rewrite (proj2 (Z.leb_le _ _)) by lia. by change (Z.to_nat (u64 (M64 - 1 + 1))) with 0%nat.
Qed.

Lemma dup2_last_panics_witness : sys_dup2 two_files 0 (M64 - 1) = None.
Proof. apply (dup2_last_panics two_files 0 (File 1 0)); [done|cbn; lia]. Defined.

(** [F_DUPFD] promises a descriptor at or above its argument; past the end of
    the table it appends, below it. *)
Lemma dupfd_below_request mq :
  (sys_fcntl mq two_files 0 F_DUPFD 1).1.1 = 1 /\ (sys_fcntl mq two_files 0 F_DUPFD 10).1.1 = 3.
Proof. done. Qed.

(** [dup3] takes a descriptor from 65536 on for an error of [dup2] and does
    not set the close-on-exec bit it was asked for. *)
Lemma dup3_cloexec_lost f fd desc new :
  files_wf f -> fd_get f fd = Some desc -> 0 <= fd -> fd <> new -> 0x10000 <= new < M32 ->
  exists f', sys_dup3 f fd new FD_CLOEXEC = Some (new, f') /\
    flags_of f' new = clear_cloexec (flags_of f fd).
Proof.
  intros Hwf Hd Hfd Hne Hn. unfold sys_dup3. rewrite (proj2 (Z.eqb_neq _ _) Hne), Hd. cbn [negb].
  change (Z.land FD_CLOEXEC (Z.lnot FD_CLOEXEC) =? 0) with true. cbn [negb].
  destruct (dup2_spec f desc fd new Hwf Hd) as (f' & -> & _ & Hs); [lia|]. cbn.
  assert (Z.land new 0xFFFFFFFFFFFF0000 <> 0) as Hm.
  { change 0xFFFFFFFFFFFF0000 with (Z.shiftl (Z.ones 48) 16). intros H0.
    assert (Z.shiftr (Z.land new (Z.shiftl (Z.ones 48) 16)) 16 = 0) as H1 by by rewrite H0.
    rewrite Z.shiftr_land, Z.shiftr_shiftl_l, Z.shiftl_0_r, Z.land_ones, Z.shiftr_div_pow2 in H1 by lia.
    rewrite Z.mod_small in H1 by (change (2 ^ 16) with 65536; change (2 ^ 48) with 281474976710656; split; [apply Z.div_pos|apply Z.div_lt_upper_bound]; lia).
    apply Z.div_small_iff in H1; [|done]. change (2 ^ 16) with 65536 in H1. lia. }
  rewrite (proj2 (Z.eqb_neq _ _) Hm), orb_true_r. exists f'. split; [done|].
  destruct (Hs new) as [_ ->]; [lia|]. by rewrite decide_True.
Qed.

Lemma exec_get f j :
  0 <= j ->
  fd_get (exec_files f) j = (if Z.land (flags_of f j) FD_CLOEXEC =? 0 then fd_get f j else None).
Proof.
  intros Hj. unfold fd_get, exec_files. cbn [fd_table]. rewrite list_lookup_imap, Z2Nat.id by done.
  destruct (fd_table f !! Z.to_nat j) as [slot|]; cbn; by destruct (_ =? 0).
Qed.

(** ** Pipes *)

Lemma pipe_slots_spec t r w :
  pipe_slots t = (r, w) ->
  (r < w)%nat /\ slot_of t r = None /\ slot_of t w = None /\ (w <= S (length t))%nat /\
  forall j, (j < w)%nat -> j <> r -> is_Some (slot_of t j).
Proof.
  unfold pipe_slots. pose proof (hole_spec t 0 0) as Hr.
  destruct (hole t 0 0) as [r0|]; cbn [default from_option]; unfold id.
  - destruct Hr as (_ & Hr & _ & Hbr). rewrite Nat.sub_0_r in Hr.
    pose proof (lookup_lt_Some _ _ _ Hr) as Hlt.
    assert (forall h, (h < r0)%nat -> is_Some (slot_of t h)) as Hbelow.
    { intros h Hh. destruct (Hbr h) as [x Hx]; [lia|lia|]. rewrite Nat.sub_0_r in Hx.
      unfold slot_of. rewrite Hx. by eexists. }
    pose proof (hole_spec t 0 (Z.of_nat r0 + 1)) as Hw.
    destruct (hole t 0 (Z.of_nat r0 + 1)) as [w0|].
    + destruct Hw as (_ & Hw & Hlow & Hbw). rewrite Nat.sub_0_r in Hw. intros [= <- <-].
      pose proof (lookup_lt_Some _ _ _ Hw). unfold slot_of at 1 2. rewrite Hr, Hw.
      split_and!; [lia|done|done|lia|]. intros j Hj Hne.
      destruct (decide (j < r0)%nat); [by apply Hbelow|].
      destruct (Hbw j) as [x Hx]; [lia|lia|]. rewrite Nat.sub_0_r in Hx. unfold slot_of. rewrite Hx. by eexists.
    + rewrite (proj2 (Nat.eqb_neq r0 (length t))) by lia. intros [= <- <-].
      unfold slot_of at 1 2. rewrite Hr, lookup_ge_None_2 by done.
      split_and!; [lia|done|done|lia|]. intros j Hj Hne.
      destruct (decide (j < r0)%nat); [by apply Hbelow|].
      destruct (Hw j) as [x Hx]; [lia|lia|]. rewrite Nat.sub_0_r in Hx. unfold slot_of. rewrite Hx. by eexists.
  - pose proof (hole_spec t 0 (Z.of_nat (length t) + 1)) as Hw.
    destruct (hole t 0 (Z.of_nat (length t) + 1)) as [w0|].
    { destruct Hw as (_ & Hw & Hlow & _). rewrite Nat.sub_0_r in Hw. apply lookup_lt_Some in Hw. lia. }
    rewrite Nat.eqb_refl. intros [= <- <-]. unfold slot_of at 1 2. rewrite !lookup_ge_None_2 by lia.
    split_and!; [lia|done|done|lia|]. intros j Hj Hne.
    destruct (Hr j) as [x Hx]; [lia|lia|]. rewrite Nat.sub_0_r in Hx. unfold slot_of. rewrite Hx. by eexists.
Qed.

Lemma install_pipe_slots f reader writer flags r w f' :
  install_pipe f reader writer flags = (r, w, f') ->
  exists i j, pipe_slots (fd_table f) = (i, j) /\ r = Z.of_nat i /\ w = Z.of_nat j /\
    (j < length (fd_table f'))%nat /\
    forall k, slot_of (fd_table f') k =
      if decide (k = j) then Some (File writer 0)
      else if decide (k = i) then Some (File reader 0) else slot_of (fd_table f) k.
Proof.
  unfold install_pipe. destruct (pipe_slots (fd_table f)) as [i j] eqn:Hp. intros [= <- <- <-].
  destruct (pipe_slots_spec _ _ _ Hp) as (Hij & _).
  exists i, j. do 3 (split; [done|]). cbn [fd_table].
  set (t := if (_ <? _)%nat then _ else _).
  assert (Ht : (j < length t)%nat /\ forall k, slot_of t k = slot_of (fd_table f) k).
  { subst t. destruct (Nat.ltb_spec (length (fd_table f)) (S (Nat.max i j))); [|split; [lia|done]].
    rewrite length_resize by lia. split; [lia|]. intros k. apply slot_resize. lia. }
  destruct Ht as [Hlt Hs]. rewrite !length_insert. split; [done|]. intros k.
  by rewrite !slot_insert, Hs by (rewrite ?length_insert; lia).
Qed.

(** [pipe] is all or nothing. Either it returns 0, the two lowest free
    descriptors (in this order) are the reader and the writer, and the user
    array reads back as their numbers; or the copy to the user array faulted,
    it returns [EFAULT], and the same descriptors are open as before. In both
    cases every other descriptor keeps its object. *)
Theorem pipe_all_or_nothing m f reader writer p flags res f' m' :
  0 <= p -> Z.of_nat (length (fd_table f)) < M32 - 1 ->
  pipe_common m f reader writer p flags = (res, f', m') ->
  (res = 0 /\ exists r w, lowest_free f 0 r /\ lowest_free f (r + 1) w /\
     (forall j, 0 <= j -> fd_get f' j = if decide (j = w) then Some (File writer 0)
                                        else if decide (j = r) then Some (File reader 0)
                                        else fd_get f j) /\
     copy_from_user m' p 8 = Some (le_bytes 4 r ++ le_bytes 4 w)) \/
  (res = Errno.ret Errno.EFAULT /\ forall j, 0 <= j -> fd_get f' j = fd_get f j).
Proof.
  intros Hp Hlen. unfold pipe_common.
  destruct (install_pipe f reader writer flags) as [[r w] f1] eqn:Hi.
  destruct (install_pipe_slots _ _ _ _ _ _ _ Hi) as (i & j & Hs & -> & -> & Hlt & Hv).
  destruct (pipe_slots_spec _ _ _ Hs) as (Hij & Hni & Hnj & Hle & Hbelow).
  assert (Hget : forall g k, fd_get g k = slot_of (fd_table g) (Z.to_nat k)) by done.
  destruct (copy_to_user _ _ _) as [[|] m1] eqn:Hc; intros [= <- <- <-].
  - left. split; [done|]. exists (Z.of_nat i), (Z.of_nat j). unfold lowest_free.
    setoid_rewrite Hget. rewrite !Nat2Z.id. split_and!; [lia|done| |lia|done| | |].
    + intros k Hk1 Hk2. apply Hbelow; lia.
    + intros k Hk1 Hk2. apply Hbelow; lia.
    + intros k Hk. rewrite Hv. repeat case_decide; try done; lia.
    + apply copy_to_from in Hc; [|done]. rewrite length_app, !length_le_bytes in Hc.
      unfold u32 in Hc. by rewrite !Z.mod_small in Hc by lia.
  - right. split; [done|]. intros k Hk. rewrite !Hget, !Nat2Z.id. cbn [fd_table].
    rewrite !slot_insert, Hv by (rewrite ?length_insert; lia). repeat case_decide; congruence.
Qed.

(** A pipe whose user array is mapped, and one whose array is not. *)
Lemma pipe_all_or_nothing_witness :
  let m : UserMem := list_to_map ((fun i => (4096 + Z.of_nat i, 0)) <$> seq 0 8) in
  (pipe_common m two_files 5 6 4096 0).1.1 = 0 /\
  (pipe_common m two_files 5 6 0 0).1.1 = Errno.ret Errno.EFAULT /\
  forall j, 0 <= j -> fd_get (pipe_common m two_files 5 6 0 0).1.2 j = fd_get two_files j.
Proof.
  set (m := list_to_map ((fun i => (4096 + Z.of_nat i, 0)) <$> seq 0 8) : UserMem).
  split; [vm_compute; reflexivity|]. split; [vm_compute; reflexivity|].
  destruct (pipe_all_or_nothing m two_files 5 6 0 0 (pipe_common m two_files 5 6 0 0).1.1
              (pipe_common m two_files 5 6 0 0).1.2 (pipe_common m two_files 5 6 0 0).2)
    as [[H _]|[_ H]]; [lia|cbn; lia|vm_compute; reflexivity|vm_compute in H; discriminate|exact H].
Defined.
