(* ===== verification/MqQueue.v ===== *)
(** * Message queues: the queue

    Model of [kernel/src/ipc/mqueue/queue.rs]: a bounded priority queue with a
    one-shot notification, and the bytes charged per user. *)

From S2P Require Import Prelude.

(** A [Result] with an error number. *)
Inductive Result (A : Type) := Ok (a : A) | Err (e : Z).
Arguments Ok {A} _.
Arguments Err {A} _.

Definition MQ_PRIO_MAX : Z := 32768.
Definition MQ_MSG_OVERHEAD : Z := 96.

Definition SIGEV_SIGNAL : Z := 0.
Definition SIGEV_NONE : Z := 1.
Definition SIGEV_THREAD : Z := 2.

Record MqNotify := mkNotify { owner_pid : Z; signo : Z; kind : Z }.

Record MqMsg := mkMsg { data : list Z; prio : Z }.

(** The reserved words are kept so that the structure can be copied. *)
Record MqAttr := mkAttr {
  mq_flags : Z; mq_maxmsg : Z; mq_msgsize : Z; mq_curmsgs : Z; reserved : list Z;
}.

Definition default_attrs : MqAttr := mkAttr 0 10 8192 0 [0; 0; 0; 0].

(** ** Accounting *)

Definition checked_mul (a b : Z) : Result Z :=
  if M64 <=? a * b then Err Errno.EOVERFLOW else Ok (a * b).

Definition checked_add (a b : Z) : Result Z :=
  if M64 <=? a + b then Err Errno.EOVERFLOW else Ok (a + b).

Definition message_bytes (attr : MqAttr) : Result Z :=
  let maxmsg := u64 (mq_maxmsg attr) in
  match checked_mul maxmsg (u64 (mq_msgsize attr)) with
  | Err e => Err e
  | Ok payload =>
      match checked_mul maxmsg MQ_MSG_OVERHEAD with
      | Err e => Err e
      | Ok overhead => checked_add payload overhead
      end
  end.

(** [MQ_BYTES]: the bytes charged to each user. *)
Abbreviation MqBytes := (gmap Z Z).

Definition charged (b : MqBytes) (uid : Z) : Z := default 0 (b !! uid).

Definition charge_msgbytes (b : MqBytes) (uid bytes limit : Z) : Result MqBytes :=
  match checked_add (charged b uid) bytes with
  | Err e => Err e
  | Ok total => if limit <? total then Err Errno.EMFILE else Ok (<[uid := total]> b)
  end.

Definition release_msgbytes (b : MqBytes) (uid bytes : Z) : MqBytes :=
  match b !! uid with
  | None => b
  | Some used =>
      let used := Z.max 0 (used - bytes) in
      if used =? 0 then delete uid b else <[uid := used]> b
  end.

(** ** The queue *)

Record MqQueue := mkQueue {
  msgs : list MqMsg;
  max_msgs : Z;
  max_msg_size : Z;
  notify : option MqNotify;
}.

Module MqQueue.

Definition new (attr : MqAttr) : MqQueue :=
  mkQueue [] (u64 (mq_maxmsg attr)) (u64 (mq_msgsize attr)) None.

Definition get_attr (q : MqQueue) (flags : Z) : MqAttr :=
  mkAttr flags (i64 (max_msgs q)) (i64 (max_msg_size q)) (Z.of_nat (length (msgs q))) [0; 0; 0; 0].

Definition is_full (q : MqQueue) : bool := max_msgs q <=? Z.of_nat (length (msgs q)).

Definition is_empty (q : MqQueue) : bool := bool_decide (length (msgs q) = 0%nat).

(** Insertion before the first message of lower priority. *)
Fixpoint insert_msg (l : list MqMsg) (m : MqMsg) : list MqMsg :=
  match l with
  | [] => [m]
  | x :: l => if prio x <? prio m then m :: x :: l else x :: insert_msg l m
  end.

Definition send (q : MqQueue) (d : list Z) (p : Z) : Result (option MqNotify) * MqQueue :=
  if MQ_PRIO_MAX <=? p then (Err Errno.EINVAL, q)
  else if max_msg_size q <? Z.of_nat (length d) then (Err Errno.EMSGSIZE, q)
  else if is_full q then (Err Errno.EAGAIN, q)
  else
    let l := insert_msg (msgs q) (mkMsg d p) in
    if (length l =? 1)%nat
    then (Ok (notify q), mkQueue l (max_msgs q) (max_msg_size q) None)
    else (Ok None, mkQueue l (max_msgs q) (max_msg_size q) (notify q)).

(** The message delivered into a buffer of [buf_len] bytes. *)
Definition receive (q : MqQueue) (buf_len : Z) : Result (list Z * Z) * MqQueue :=
  match msgs q with
  | [] => (Err Errno.EAGAIN, q)
  | m :: rest =>
      if buf_len <? Z.of_nat (length (data m)) then (Err Errno.EMSGSIZE, q)
      else (Ok (data m, prio m), mkQueue rest (max_msgs q) (max_msg_size q) (notify q))
  end.

Definition qsize (q : MqQueue) : Z := foldr (fun m n => Z.of_nat (length (data m)) + n) 0 (msgs q).

Definition register_notify (q : MqQueue) (n : MqNotify) : Result unit * MqQueue :=
  match notify q with
  | Some _ => (Err Errno.EBUSY, q)
  | None => (Ok tt, mkQueue (msgs q) (max_msgs q) (max_msg_size q) (Some n))
  end.

Definition clear_notify (q : MqQueue) (pid : Z) : MqQueue :=
  match notify q with
  | Some n =>
      if owner_pid n =? pid then mkQueue (msgs q) (max_msgs q) (max_msg_size q) None else q
  | None => q
  end.

(** Decimal digits in ASCII, and left-justified padding to a width. *)
Fixpoint dec_go (fuel : nat) (n : Z) (acc : list Z) : list Z :=
  match fuel with
  | O => acc
  | S fuel =>
      let acc := (48 + n mod 10) :: acc in
      if n <? 10 then acc else dec_go fuel (n / 10) acc
  end.

(** A 64-bit number has at most twenty digits. *)
Definition dec (n : Z) : list Z := dec_go 20 n [].

Definition pad (width : nat) (l : list Z) : list Z := l ++ replicate (width - length l) 32.

Definition QSIZE : list Z := [81; 83; 73; 90; 69; 58].
Definition NOTIFY : list Z := [32; 78; 79; 84; 73; 70; 89; 58].
Definition SIGNO : list Z := [32; 83; 73; 71; 78; 79; 58].
Definition NOTIFY_PID : list Z := [32; 78; 79; 84; 73; 70; 89; 95; 80; 73; 68; 58].

(** ["QSIZE:{:<10} NOTIFY:{:<5} SIGNO:{:<5} NOTIFY_PID:{:<6}\n"]. *)
Definition describe_line (q : MqQueue) : list Z :=
  let '(k, s, p) := match notify q with
                    | Some n => (kind n, if kind n =? SIGEV_SIGNAL then signo n else 0, owner_pid n)
                    | None => (0, 0, 0)
                    end in
  QSIZE ++ pad 10 (dec (qsize q)) ++ NOTIFY ++ pad 5 (dec k) ++ SIGNO ++ pad 5 (dec s) ++
  NOTIFY_PID ++ pad 6 (dec p) ++ [10].

End MqQueue.

(** A queue shared by its descriptors, with what its owner was charged. *)
Record MqQueueHandle := mkHandle { inner : MqQueue; owner_uid : Z; charge : Z }.

Definition handle_new (attr : MqAttr) (owner_uid charge : Z) : MqQueueHandle :=
  mkHandle (MqQueue.new attr) owner_uid charge.

Definition handle_drop (b : MqBytes) (h : MqQueueHandle) : MqBytes :=
  if 0 <? charge h then release_msgbytes b (owner_uid h) (charge h) else b.

(** ** Order of delivery *)

(** The messages in the order they are delivered, from the order they came. *)
Definition by_priority (pending : list MqMsg) : list MqMsg := foldl MqQueue.insert_msg [] pending.

(** [m] is the oldest of the messages of the highest priority. *)
Definition next_message (pending : list MqMsg) (m : MqMsg) (rest : list MqMsg) : Prop :=
  exists l1 l2, pending = l1 ++ m :: l2 /\ rest = l1 ++ l2 /\
    Forall (fun x => prio x < prio m) l1 /\ Forall (fun x => prio x <= prio m) l2.

Lemma by_priority_next pending m rest :
  by_priority pending = m :: rest ->
  exists rest', next_message pending m rest' /\ by_priority rest' = rest.
Proof.
  unfold by_priority. revert m rest.
  induction pending as [|x p IH] using rev_ind; intros m rest; [done|].
  rewrite foldl_snoc. destruct (foldl MqQueue.insert_msg [] p) as [|y l] eqn:Hl.
  - intros [= <- <-]. destruct p as [|z p _] using rev_ind.
    + exists []. split; [|done]. exists [], []. by repeat constructor.
    + exfalso. rewrite foldl_snoc in Hl. by destruct (foldl _ [] p); cbn in Hl; [|case_match].
  - destruct (IH y l eq_refl) as (r & (l1 & l2 & -> & -> & H1 & H2) & Hr). cbn [MqQueue.insert_msg].
    destruct (Z.ltb_spec (prio y) (prio x)) as [Hlt|Hge]; intros [= <- <-].
    + exists (l1 ++ y :: l2). split; [|done]. exists (l1 ++ y :: l2), [].
      rewrite app_nil_r. repeat split; [|done].
      rewrite Forall_app, Forall_cons. split_and!; [..|lia|];
        eapply Forall_impl; try eassumption; cbn; lia.
    + exists (l1 ++ l2 ++ [x]). rewrite app_assoc, foldl_snoc, Hr. split; [|done].
      exists l1, (l2 ++ [x]). rewrite <- !app_assoc. repeat split; [done|].
      by rewrite Forall_app, Forall_singleton.
Qed.

Lemma insert_msg_perm l m : MqQueue.insert_msg l m ≡ₚ m :: l.
Proof.
  induction l as [|x l IH]; cbn; [done|]. destruct (_ <? _); [done|]. rewrite IH. apply Permutation_swap.
Qed.

Lemma by_priority_perm pending : by_priority pending ≡ₚ pending.
Proof.
  unfold by_priority. induction pending as [|x p IH] using rev_ind; [done|].
  rewrite foldl_snoc, insert_msg_perm, IH. by rewrite Permutation_app_comm.
Qed.

(** The specification of delivery, on the messages in order of arrival. *)
Fixpoint oldest_highest (l : list MqMsg) : option (MqMsg * list MqMsg) :=
  match l with
  | [] => None
  | x :: l =>
      match oldest_highest l with
      | None => Some (x, [])
      | Some (m, rest) => if prio x <? prio m then Some (m, x :: rest) else Some (x, l)
      end
  end.

Lemma oldest_highest_next l :
  match oldest_highest l with
  | None => l = []
  | Some (m, rest) => next_message l m rest
  end.
Proof.
  induction l as [|x l IH]; cbn [oldest_highest]; [done|].
  destruct (oldest_highest l) as [[m rest]|].
  - destruct IH as (l1 & l2 & -> & -> & H1 & H2). destruct (Z.ltb_spec (prio x) (prio m)).
    + exists (x :: l1), l2. split_and!; [done|done|by constructor|done].
    + exists [], (l1 ++ m :: l2). split_and!; [done|done|done|].
      rewrite Forall_app, Forall_cons. split_and!; [|lia|]; eapply Forall_impl; try eassumption; cbn; lia.
  - subst. exists [], []. by repeat constructor.
Qed.

Lemma next_message_unique l m r m' r' :
  next_message l m r -> next_message l m' r' -> m' = m /\ r' = r.
Proof.
  intros (l1 & l2 & -> & -> & H1 & H2) (k1 & k2 & Heq & -> & K1 & K2).
  revert k1 Heq K1. induction l1 as [|x l1 IH]; intros [|y k1] Heq K1; cbn in Heq.
  - by injection Heq as <- <-.
  - injection Heq as <- ->. rewrite Forall_cons in K1. rewrite Forall_app, Forall_cons in H2. lia.
  - injection Heq as <- <-. rewrite Forall_cons in H1. rewrite Forall_app, Forall_cons in K2. lia.
  - injection Heq as <- Heq. rewrite Forall_cons in H1, K1.
    destruct (IH (proj2 H1) k1 Heq (proj2 K1)) as [-> Hr]. split; [done|]. cbn. by rewrite Hr.
Qed.

Lemma by_priority_oldest pending :
  match oldest_highest pending with
  | None => by_priority pending = []
  | Some (m, rest) => by_priority pending = m :: by_priority rest
  end.
Proof.
  pose proof (oldest_highest_next pending) as Hn.
  destruct (by_priority pending) as [|m l] eqn:Hb.
  - pose proof (by_priority_perm pending) as Hp. rewrite Hb in Hp. apply Permutation_nil_l in Hp.
    by subst.
  - destruct (by_priority_next _ _ _ Hb) as (r & Hr & <-).
    destruct (oldest_highest pending) as [[m' r']|].
    + by destruct (next_message_unique _ _ _ _ _ Hn Hr) as [-> ->].
    + destruct Hr as (l1 & l2 & -> & _). by destruct l1.
Qed.

(** The operations on a queue beside the messages that are pending according
    to the specification, in order of arrival. *)
Inductive mq_trace (attr : MqAttr) : MqQueue -> list MqMsg -> Prop :=
| mq_new : mq_trace attr (MqQueue.new attr) []
| mq_send q pending d p r q' :
    mq_trace attr q pending -> MqQueue.send q d p = (r, q') ->
    mq_trace attr q' (match r with Ok _ => pending ++ [mkMsg d p] | Err _ => pending end)
| mq_receive q pending len r q' :
    mq_trace attr q pending -> MqQueue.receive q len = (r, q') ->
    mq_trace attr q' (match r, oldest_highest pending with
                      | Ok _, Some (_, rest) => rest
                      | _, _ => pending
                      end)
| mq_register q pending n r q' :
    mq_trace attr q pending -> MqQueue.register_notify q n = (r, q') -> mq_trace attr q' pending
| mq_clear q pending pid :
    mq_trace attr q pending -> mq_trace attr (MqQueue.clear_notify q pid) pending.

Record mq_inv (attr : MqAttr) (q : MqQueue) (pending : list MqMsg) : Prop := {
  mqi_order : msgs q = by_priority pending;
  mqi_attr : max_msgs q = u64 (mq_maxmsg attr) /\ max_msg_size q = u64 (mq_msgsize attr);
  mqi_room : Z.of_nat (length (msgs q)) <= max_msgs q;
  mqi_size : Forall (fun m => Z.of_nat (length (data m)) <= max_msg_size q) (msgs q);
}.

Lemma send_inv attr q pending d p r q' :
  mq_inv attr q pending -> MqQueue.send q d p = (r, q') ->
  mq_inv attr q' (match r with Ok _ => pending ++ [mkMsg d p] | Err _ => pending end).
Proof.
  intros Hi. unfold MqQueue.send.
  destruct (MQ_PRIO_MAX <=? p); [by intros [= <- <-]|].
  destruct (Z.ltb_spec (max_msg_size q) (Z.of_nat (length d))); [by intros [= <- <-]|].
  unfold MqQueue.is_full. destruct (Z.leb_spec (max_msgs q) (Z.of_nat (length (msgs q)))); [by intros [= <- <-]|].
  destruct Hi as [Ho Ha Hr Hs]. set (l := MqQueue.insert_msg (msgs q) (mkMsg d p)).
  assert (Hperm : l ≡ₚ mkMsg d p :: msgs q) by apply insert_msg_perm.
  assert (mq_inv attr (mkQueue l (max_msgs q) (max_msg_size q) None) (pending ++ [mkMsg d p])) as [I1 I2 I3 I4].
  { split; cbn [msgs max_msgs max_msg_size]; [|done| |].
    - unfold by_priority. rewrite foldl_snoc. subst l. by rewrite Ho.
    - rewrite Hperm. cbn. lia.
    - rewrite Hperm. by constructor. }
  destruct (length l =? 1)%nat; intros [= <- <-]; by split.
Qed.

Lemma receive_eq attr q pending len :
  mq_inv attr q pending ->
  MqQueue.receive q len =
  match oldest_highest pending with
  | None => (Err Errno.EAGAIN, q)
  | Some (m, rest) =>
      if len <? Z.of_nat (length (data m)) then (Err Errno.EMSGSIZE, q)
      else (Ok (data m, prio m), mkQueue (by_priority rest) (max_msgs q) (max_msg_size q) (notify q))
  end.
Proof.
  intros [Ho _ _ _]. unfold MqQueue.receive. rewrite Ho. pose proof (by_priority_oldest pending) as Hb.
  destruct (oldest_highest pending) as [[m rest]|]; by rewrite Hb.
Qed.

Lemma mq_trace_inv attr q pending : mq_trace attr q pending -> mq_inv attr q pending.
Proof.
  induction 1 as [|q pending d p r q' _ IH Hs|q pending len r q' _ IH Hr|q pending n r q' _ IH Hr|
                  q pending pid _ IH].
  - split; cbn; [done|done|apply u64_range|constructor].
  - by eapply send_inv.
  - rewrite (receive_eq _ _ _ _ IH) in Hr. pose proof (by_priority_oldest pending) as Hb.
    destruct (oldest_highest pending) as [[m rest]|]; [|injection Hr as <- <-; done].
    destruct (len <? _); injection Hr as <- <-; [done|]. destruct IH as [Ho Ha Hl Hz].
    rewrite Ho, Hb in Hl, Hz. rewrite Forall_cons in Hz. split; cbn in *; [done|done|lia|naive_solver].
  - destruct IH as [Ho Ha Hl Hz]. unfold MqQueue.register_notify in Hr.
    destruct (notify q); injection Hr as <- <-; by split.
  - destruct IH as [Ho Ha Hl Hz]. unfold MqQueue.clear_notify.
    destruct (notify q) as [n|]; [destruct (_ =? _)|]; by split.
Qed.

(** ** Properties *)

(** C23. A message queue implements its specification: messages are delivered
    by priority, and within one priority in order of arrival. Whatever the
    sequence of operations, receiving fails with [EAGAIN] exactly when nothing
    is pending, and otherwise concerns the oldest pending message of the
    highest priority: it is delivered whole with its priority when the buffer
    holds it, which a buffer of the queue's message size always does, and
    otherwise kept, with [EMSGSIZE]. Sending fails exactly on a priority out
    of range, a message too long or a full queue, in that order, without
    effect; the queue never holds more than its maximum. *)
Theorem mq_priority_order attr q pending :
  mq_trace attr q pending ->
  (Z.of_nat (length pending) <= max_msgs q) /\
  (forall len, (MqQueue.receive q len).1 =
     match oldest_highest pending with
     | None => Err Errno.EAGAIN
     | Some (m, _) => if len <? Z.of_nat (length (data m)) then Err Errno.EMSGSIZE
                      else Ok (data m, prio m)
     end) /\
  (pending <> [] -> exists m rest, next_message pending m rest /\
     (MqQueue.receive q (max_msg_size q)).1 = Ok (data m, prio m)) /\
  (forall d p e, (MqQueue.send q d p).1 = Err e <->
     e = Errno.EINVAL /\ MQ_PRIO_MAX <= p \/
     e = Errno.EMSGSIZE /\ p < MQ_PRIO_MAX /\ max_msg_size q < Z.of_nat (length d) \/
     e = Errno.EAGAIN /\ p < MQ_PRIO_MAX /\ Z.of_nat (length d) <= max_msg_size q /\
       Z.of_nat (length pending) = max_msgs q).
Proof.
  intros Ht. pose proof (mq_trace_inv _ _ _ Ht) as Hi. destruct Hi as [Ho Ha Hl Hz].
  assert (Hlen : length (msgs q) = length pending) by (rewrite Ho; by rewrite by_priority_perm).
  pose proof (fun len => receive_eq attr q pending len (mq_trace_inv _ _ _ Ht)) as Hrecv.
  split_and!; [lia| | |].
  - intros len. rewrite Hrecv. destruct (oldest_highest pending) as [[m rest]|]; [by destruct (_ <? _)|done].
  - intros Hne. pose proof (oldest_highest_next pending) as Hn. pose proof (by_priority_oldest pending) as Hb.
    rewrite Hrecv. destruct (oldest_highest pending) as [[m rest]|]; [|done]. exists m, rest.
    split; [done|]. rewrite Ho, Hb, Forall_cons in Hz. rewrite (proj2 (Z.ltb_ge _ _)); [done|apply Hz].
  - intros d p e. unfold MqQueue.send, MqQueue.is_full. rewrite Hlen.
    destruct (Z.leb_spec MQ_PRIO_MAX p); cbn [fst].
    { split; [intros [= <-]; by left|]. intros [[-> _]|[(_ & ? & _)|(_ & ? & _)]]; [done|lia|lia]. }
    destruct (Z.ltb_spec (max_msg_size q) (Z.of_nat (length d))); cbn [fst].
    { split; [intros [= <-]; right; by left|].
      intros [[_ ?]|[[-> _]|(_ & _ & ? & _)]]; [lia|done|lia]. }
    destruct (Z.leb_spec (max_msgs q) (Z.of_nat (length pending))); cbn [fst].
    { split; [intros [= <-]; right; right; split_and!; [done|done|done|lia]|].
      intros [[_ ?]|[(_ & _ & ?)|(-> & _)]]; [lia|lia|done]. }
    destruct (_ =? _)%nat; cbn [fst]; (split; [done|]);
      intros [[_ ?]|[(_ & _ & ?)|(_ & _ & _ & ?)]]; lia.
Qed.

(** Two messages of one priority and a later one of a higher priority. *)
Lemma mq_priority_order_witness :
  exists q, mq_trace default_attrs q [mkMsg [1] 3; mkMsg [2] 3; mkMsg [3] 5] /\
    (MqQueue.receive q 8192).1 = Ok ([3], 5).
Proof.
  pose (s1 := MqQueue.send (MqQueue.new default_attrs) [1] 3).
  pose (s2 := MqQueue.send s1.2 [2] 3). pose (s3 := MqQueue.send s2.2 [3] 5).
  assert (mq_trace default_attrs s3.2 [mkMsg [1] 3; mkMsg [2] 3; mkMsg [3] 5]) as Ht.
  { apply (mq_send _ s2.2 [mkMsg [1] 3; mkMsg [2] 3] [3] 5 (Ok None)); [|reflexivity].
    apply (mq_send _ s1.2 [mkMsg [1] 3] [2] 3 (Ok None)); [|reflexivity].
    apply (mq_send _ (MqQueue.new default_attrs) [] [1] 3 (Ok None)); [apply mq_new|reflexivity]. }
  exists s3.2. split; [exact Ht|].
  destruct (mq_priority_order _ _ _ Ht) as (_ & H & _). rewrite H. reflexivity.
Defined.

(** A notification fires once, on the edge from empty to non-empty: a
    successful send returns the registration exactly when the queue was empty,
    and then the registration is gone; otherwise the registration stays. A
    second registration is refused with [EBUSY], and only the process that
    registered can take it back. *)
Theorem mq_notify_one_shot q d p r q' :
  MqQueue.send q d p = (Ok r, q') ->
  (msgs q = [] -> r = notify q /\ notify q' = None) /\
  (msgs q <> [] -> r = None /\ notify q' = notify q) /\
  (forall n, notify q' <> None -> MqQueue.register_notify q' n = (Err Errno.EBUSY, q')) /\
  (forall pid n, notify q' = Some n ->
     notify (MqQueue.clear_notify q' pid) = if owner_pid n =? pid then None else Some n).
Proof.
  intros Hs.
  assert ((msgs q = [] -> r = notify q /\ notify q' = None) /\
          (msgs q <> [] -> r = None /\ notify q' = notify q)) as [H1 H2].
  { unfold MqQueue.send in Hs. destruct (MQ_PRIO_MAX <=? p); [done|].
    destruct (_ <? _); [done|]. destruct (MqQueue.is_full q); [done|].
    pose proof (Permutation_length (insert_msg_perm (msgs q) (mkMsg d p))) as Hl. cbn in Hl. rewrite Hl in Hs.
    destruct (msgs q) as [|m l]; cbn in Hs; injection Hs as <- <-; done. }
  split_and!; [done|done| |].
  - intros n Hn. unfold MqQueue.register_notify. by destruct (notify q').
  - intros pid n Hn. unfold MqQueue.clear_notify. rewrite Hn. by destruct (owner_pid n =? pid).
Qed.

(** A registration on an empty queue, fired by the first message. *)
Lemma mq_notify_one_shot_witness :
  let n := mkNotify 100 10 SIGEV_SIGNAL in
  let q := (MqQueue.register_notify (MqQueue.new default_attrs) n).2 in
  (MqQueue.send q [1] 0).1 = Ok (Some n) /\ notify (MqQueue.send q [1] 0).2 = None.
Proof.
  split; [reflexivity|].
  apply (mq_notify_one_shot
           (MqQueue.register_notify (MqQueue.new default_attrs) (mkNotify 100 10 SIGEV_SIGNAL)).2
           [1] 0 (Some (mkNotify 100 10 SIGEV_SIGNAL))); reflexivity.
Defined.
