(* ===== verification/MqSys.v ===== *)
(** * Message queues: the system calls

    Model of [kernel/src/ipc/mqueue/mod.rs] and [object.rs]: names, open
    descriptions, descriptors, the six system calls, and what closing a
    descriptor ([sys_close]) does to a queue. Queues and descriptions are
    reference counted in the source; here they live in two stores, and the
    last reference to go (a name of some namespace, a description, a
    descriptor, a call in progress) removes them. *)

From S2P Require Import Prelude UserAccess FdTable MqQueue.

Definition O_RDONLY : Z := 0.
Definition O_WRONLY : Z := 1.
Definition O_CREAT : Z := 0x40.
Definition O_EXCL : Z := 0x80.
Definition O_NONBLOCK : Z := 0x800.
Definition NAME_MAX : nat := 255.
Definition DFLT_MSGMAX : Z := 10.
Definition DFLT_MSGSIZEMAX : Z := 8192.
Definition DFLT_QUEUESMAX : nat := 256.
Definition HARD_MSGMAX : Z := 65536.
Definition HARD_MSGSIZEMAX : Z := 16 * 1024 * 1024.
Definition NSIG : Z := 64.
Definition CAP_DAC_OVERRIDE : Z := Z.shiftl 1 1.
Definition CAP_DAC_READ_SEARCH : Z := Z.shiftl 1 2.
Definition CAP_SYS_RESOURCE : Z := Z.shiftl 1 24.

(** ** State *)

(** An open description ([object.rs]). *)
Record MqObject := mkObj {
  o_queue : Z; o_flags : Z; o_pos : Z; o_read : bool; o_write : bool;
  o_mode : Z; o_uid : Z; o_gid : Z;
}.

Record MqEntry := mkEntry { e_queue : Z; e_mode : Z; e_uid : Z; e_gid : Z }.

(** The calling process. *)
Record Process := mkProcess {
  pid : Z; p_euid : Z; p_egid : Z; p_caps : Z; p_umask : Z; p_rlimit : Z;
}.

(** [mqueues] are the names in the IPC namespace of the calling process and
    [namespaces] those in the others; [elsewhere] lists, with repetition, the
    descriptions that other processes have open and that calls in progress
    hold; [signals] the pending masks of the processes that exist. *)
Record World := mkWorld {
  handles : gmap Z MqQueueHandle;
  objects : gmap Z MqObject;
  mqueues : gmap (list Z) MqEntry;
  bytes_used : MqBytes;
  files : ProcessFiles;
  elsewhere : list Z;
  signals : gmap Z Z;
  next_id : Z;
  umem : UserMem;
  namespaces : list (gmap (list Z) MqEntry);
}.

Definition set_handle (w : World) (q : Z) (h : MqQueueHandle) : World :=
  mkWorld (<[q := h]> (handles w)) (objects w) (mqueues w) (bytes_used w) (files w) (elsewhere w)
    (signals w) (next_id w) (umem w) (namespaces w).

Definition set_object (w : World) (o : Z) (ob : MqObject) : World :=
  mkWorld (handles w) (<[o := ob]> (objects w)) (mqueues w) (bytes_used w) (files w) (elsewhere w)
    (signals w) (next_id w) (umem w) (namespaces w).

Definition set_files (w : World) (f : ProcessFiles) : World :=
  mkWorld (handles w) (objects w) (mqueues w) (bytes_used w) f (elsewhere w)
    (signals w) (next_id w) (umem w) (namespaces w).

Definition set_signals (w : World) (s : gmap Z Z) : World :=
  mkWorld (handles w) (objects w) (mqueues w) (bytes_used w) (files w) (elsewhere w)
    s (next_id w) (umem w) (namespaces w).

Definition set_umem (w : World) (m : UserMem) : World :=
  mkWorld (handles w) (objects w) (mqueues w) (bytes_used w) (files w) (elsewhere w)
    (signals w) (next_id w) m (namespaces w).

Definition set_inner (w : World) (q : Z) (h : MqQueueHandle) (n : MqQueue) : World :=
  set_handle w q (mkHandle n (owner_uid h) (charge h)).

(** ** Reference counts *)

Definition is_mqueue (o : Z) (slot : option FileDescriptor) : bool :=
  match slot with Some (Mqueue o') => o' =? o | _ => false end.

(** The references to a description: descriptors, here and in other
    processes, and calls in progress. *)
Definition open_count (w : World) (o : Z) : nat :=
  length (List.filter (is_mqueue o) (fd_table (files w))) +
  length (List.filter (Z.eqb o) (elsewhere w)).

Definition names_queue (q : Z) (names : gmap (list Z) MqEntry) : bool :=
  existsb (fun e => e_queue e.2 =? q) (map_to_list names).

Definition queue_used (w : World) (q : Z) : bool :=
  existsb (names_queue q) (mqueues w :: namespaces w) ||
  existsb (fun ob => o_queue ob.2 =? q) (map_to_list (objects w)).

(** Drop a reference to a queue: the last one frees it and its charge. *)
Definition drop_queue (w : World) (q : Z) : World :=
  if queue_used w q then w
  else match handles w !! q with
       | None => w
       | Some h =>
           mkWorld (delete q (handles w)) (objects w) (mqueues w) (handle_drop (bytes_used w) h)
             (files w) (elsewhere w) (signals w) (next_id w) (umem w) (namespaces w)
       end.

(** Drop a reference to a description. *)
Definition drop_object (w : World) (o : Z) : World :=
  if (0 <? open_count w o)%nat then w
  else match objects w !! o with
       | None => w
       | Some ob =>
           drop_queue (mkWorld (handles w) (delete o (objects w)) (mqueues w) (bytes_used w) (files w)
                         (elsewhere w) (signals w) (next_id w) (umem w) (namespaces w)) (o_queue ob)
       end.

(** ** Arguments from user memory *)

Definition read_name (m : UserMem) (ptr : Z) : Result (list Z) :=
  match read_user_string m ptr (NAME_MAX + 1) with
  | None => Err Errno.EFAULT
  | Some name =>
      if bool_decide (name = []) || bool_decide (name = [46]) || bool_decide (name = [46; 46]) ||
         bool_decide (47 ∈ name)
      then Err Errno.EACCES
      else if (NAME_MAX <? length name)%nat then Err Errno.ENAMETOOLONG
      else Ok name
  end.

(** [struct mq_attr] as eight little-endian words. *)
Definition attr_words (a : MqAttr) : list Z :=
  [mq_flags a; mq_maxmsg a; mq_msgsize a; mq_curmsgs a] ++ reserved a.

Definition attr_bytes (a : MqAttr) : list Z := concat ((fun x => le_bytes 8 (u64 x)) <$> attr_words a).

Definition word_at (b : list Z) (i : nat) : Z := i64 (le_value (slice (8 * i) 8 b)).

Definition attr_of_bytes (b : list Z) : MqAttr :=
  mkAttr (word_at b 0) (word_at b 1) (word_at b 2) (word_at b 3)
    [word_at b 4; word_at b 5; word_at b 6; word_at b 7].

Definition copy_mq_attr_from_user (m : UserMem) (attr_ptr : Z) : Result (option MqAttr) :=
  if attr_ptr =? 0 then Ok None
  else match copy_from_user m attr_ptr 64 with
       | None => Err Errno.EFAULT
       | Some b => Ok (Some (attr_of_bytes b))
       end.

Definition copy_mq_attr_to_user (m : UserMem) (attr_ptr : Z) (a : MqAttr) : bool * UserMem :=
  if attr_ptr =? 0 then (false, m) else copy_to_user m attr_ptr (attr_bytes a).

Definition saturate (x : Z) : Z := Z.min x (M64 - 1).

Definition read_deadline (m : UserMem) (ptr : Z) : Result (option Z) :=
  if ptr =? 0 then Ok None
  else match copy_from_user m ptr 16 with
       | None => Err Errno.EFAULT
       | Some b =>
           let tv_sec := word_at b 0 in
           let tv_nsec := word_at b 1 in
           if (tv_sec <? 0) || negb ((0 <=? tv_nsec) && (tv_nsec <? 1000000000))
           then Err Errno.EINVAL
           else Ok (Some (saturate (saturate (tv_sec * 1000000000) + tv_nsec)))
       end.

(** The two fields of [struct sigevent] that are read: signal and kind. *)
Definition read_sigevent (m : UserMem) (ptr : Z) : Result (Z * Z) :=
  match copy_from_user m ptr 64 with
  | None => Err Errno.EFAULT
  | Some b => Ok (i32 (le_value (slice 8 4 b)), i32 (le_value (slice 12 4 b)))
  end.

(** ** Permissions and lookup *)

Definition has_capability (p : Process) (cap : Z) : bool :=
  (p_euid p =? 0) || negb (Z.land (p_caps p) cap =? 0).

Definition check_file_permission (p : Process) (st_mode st_uid st_gid need : Z) : bool :=
  if has_capability p CAP_DAC_OVERRIDE then true
  else if has_capability p CAP_DAC_READ_SEARCH && (Z.land need 2 =? 0) then true
  else
    let bits := if p_euid p =? st_uid then Z.land (Z.shiftr st_mode 6) 7
                else if p_egid p =? st_gid then Z.land (Z.shiftr st_mode 3) 7
                else Z.land st_mode 7 in
    Z.land bits need =? need.

Definition privileged (p : Process) : bool := has_capability p CAP_SYS_RESOURCE.

(** A negative limit is no limit. *)
Definition msgqueue_limit (p : Process) : Z := if p_rlimit p <? 0 then M64 - 1 else p_rlimit p.

Definition lookup (cur : option Process) (w : World) (mqd : Z) (need_read need_write : bool)
    : Result Z :=
  if mqd <? 0 then Err Errno.EBADF
  else match cur with
       | None => Err Errno.ESRCH
       | Some _ =>
           match fd_get (files w) mqd with
           | Some (Mqueue o) =>
               match objects w !! o with
               | Some ob =>
                   if (need_read && negb (o_read ob)) || (need_write && negb (o_write ob))
                   then Err Errno.EBADF else Ok o
               | None => Err Errno.EBADF
               end
           | _ => Err Errno.EBADF
           end
       end.

(** A new description of a queue, installed in the lowest descriptor. *)
Definition new_object (e : MqEntry) (oflag : Z) : MqObject :=
  let acc := Z.land oflag 3 in
  mkObj (e_queue e) (Z.land oflag O_NONBLOCK) 0 (negb (acc =? 1)) (negb (acc =? 0))
    (e_mode e) (e_uid e) (e_gid e).

Definition open_entry (w : World) (e : MqEntry) (oflag : Z) : Z * World :=
  let o := next_id w in
  let '(fd, f) := install_fd (files w) o in
  (fd, mkWorld (handles w) (<[o := new_object e oflag]> (objects w)) (mqueues w) (bytes_used w) f
         (elsewhere w) (signals w) (next_id w + 1) (umem w) (namespaces w)).

(** ** [mq_open] and [mq_unlink] *)

(** The branch that creates a queue. *)
Definition mq_create (p : Process) (w : World) (name : list Z) (oflag mode : Z) (attr : option MqAttr)
    : Z * World :=
  if Z.land oflag O_CREAT =? 0 then (Errno.ret Errno.ENOENT, w)
  else
    let attr := default default_attrs attr in
    let max_msgs := if privileged p then HARD_MSGMAX else DFLT_MSGMAX in
    let max_size := if privileged p then HARD_MSGSIZEMAX else DFLT_MSGSIZEMAX in
    if (mq_maxmsg attr <=? 0) || (max_msgs <? mq_maxmsg attr) ||
       (mq_msgsize attr <=? 0) || (max_size <? mq_msgsize attr)
    then (Errno.ret Errno.EINVAL, w)
    else
      match message_bytes attr with
      | Err e => (Errno.ret e, w)
      | Ok c =>
          if (DFLT_QUEUESMAX <=? size (mqueues w))%nat && negb (privileged p)
          then (Errno.ret Errno.ENOSPC, w)
          else
            match charge_msgbytes (bytes_used w) (p_euid p) c (msgqueue_limit p) with
            | Err e => (Errno.ret e, w)
            | Ok b =>
                let q := next_id w in
                let entry := mkEntry q (Z.land (Z.land (u32 mode) (Z.lnot (p_umask p))) 511)
                               (p_euid p) (p_egid p) in
                open_entry (mkWorld (<[q := handle_new attr (p_euid p) c]> (handles w)) (objects w)
                              (<[name := entry]> (mqueues w)) b (files w) (elsewhere w) (signals w)
                              (next_id w + 1) (umem w) (namespaces w)) entry oflag
            end
      end.

Definition mq_open (cur : option Process) (w : World) (name_ptr oflag mode attr_ptr : Z) : Z * World :=
  match copy_mq_attr_from_user (umem w) attr_ptr with
  | Err e => (Errno.ret e, w)
  | Ok attr =>
      match read_name (umem w) name_ptr with
      | Err e => (Errno.ret e, w)
      | Ok name =>
          if Z.land oflag 3 =? 3 then (Errno.ret Errno.EINVAL, w)
          else
            match cur with
            | None => (Errno.ret Errno.ESRCH, w)
            | Some p =>
                let acc := Z.land oflag 3 in
                let need := if acc =? O_RDONLY then 4 else if acc =? O_WRONLY then 2 else 6 in
                match mqueues w !! name with
                | Some entry =>
                    if negb (Z.land oflag O_CREAT =? 0) && negb (Z.land oflag O_EXCL =? 0)
                    then (Errno.ret Errno.EEXIST, w)
                    else if negb (check_file_permission p (e_mode entry) (e_uid entry) (e_gid entry) need)
                    then (Errno.ret Errno.EACCES, w)
                    else open_entry w entry oflag
                | None => mq_create p w name oflag mode attr
                end
            end
      end
  end.

Definition mq_unlink (cur : option Process) (w : World) (name_ptr : Z) : Z * World :=
  match read_name (umem w) name_ptr with
  | Err e => (Errno.ret e, w)
  | Ok name =>
      match cur with
      | None => (Errno.ret Errno.ESRCH, w)
      | Some _ =>
          match mqueues w !! name with
          | None => (Errno.ret Errno.ENOENT, w)
          | Some entry =>
              (0, drop_queue (mkWorld (handles w) (objects w) (delete name (mqueues w)) (bytes_used w)
                                (files w) (elsewhere w) (signals w) (next_id w) (umem w) (namespaces w)) (e_queue entry))
          end
      end
  end.

(** ** Sending and receiving *)

(** What happens around a call that waits: [others i] is what the rest of the
    system does during sleep [i], [signal i] and [now i] are what the check
    before that sleep sees. This is a call whose description stays open while
    it waits; in [mq_run] below descriptors may be closed meanwhile. *)
Record Env := mkEnv {
  others : nat -> World -> World;
  signal : nat -> bool;
  now : nat -> Z;
}.

(** [Some e] stops the call with [e]. *)
Definition wait_step (env : Env) (i : nat) (ob : MqObject) (deadline : option Z) : option Z :=
  if negb (Z.land (o_flags ob) O_NONBLOCK =? 0) then Some (Errno.ret Errno.EAGAIN)
  else if signal env i then Some (Errno.ret Errno.EINTR)
  else match deadline with
       | Some d => if d <=? now env i then Some (Errno.ret Errno.ETIMEDOUT) else None
       | None => None
       end.

(** Raise the signal in the owner, if it still exists. *)
Definition deliver (w : World) (n : MqNotify) : World :=
  if negb (kind n =? SIGEV_SIGNAL) || (signo n =? 0) then w
  else
    let bit := u32 (signo n - 1) in
    if 64 <=? bit then w
    else match signals w !! owner_pid n with
         | None => w
         | Some pending =>
             set_signals w (<[owner_pid n := Z.lor pending (Z.shiftl 1 bit)]> (signals w))
         end.

(** The loop of a call that retries while [attempt] answers [EAGAIN], on
    description [o]. [None]: still waiting after [fuel] attempts. *)
Fixpoint retry {A} (fuel : nat) (env : Env) (attempt : MqQueue -> Result A * MqQueue)
    (o : Z) (deadline : option Z) (i : nat) (w : World) : option ((A + Z) * World) :=
  match fuel with
  | O => None
  | S fuel =>
      ob ← objects w !! o;
      h ← handles w !! o_queue ob;
      let '(r, q) := attempt (inner h) in
      match r with
      | Ok a => Some (inl a, set_inner w (o_queue ob) h q)
      | Err e =>
          if e =? Errno.EAGAIN then
            match wait_step env i ob deadline with
            | Some e => Some (inr e, w)
            | None => retry fuel env attempt o deadline (S i) (others env i w)
            end
          else Some (inr (Errno.ret e), w)
      end
  end.

(** The queue of a description that is open. *)
Definition queue_of (w : World) (o : Z) : option MqQueue :=
  ob ← objects w !! o;
  h ← handles w !! o_queue ob;
  Some (inner h).

Definition send_common (fuel : nat) (env : Env) (cur : option Process) (w : World)
    (mqd msg_ptr : Z) (msg_len : nat) (p : Z) (deadline : option Z) : option (Z * World) :=
  if MQ_PRIO_MAX <=? p then Some (Errno.ret Errno.EINVAL, w)
  else
    match lookup cur w mqd false true with
    | Err e => Some (Errno.ret e, w)
    | Ok o =>
        q ← queue_of w o;
        if max_msg_size q <? Z.of_nat msg_len then Some (Errno.ret Errno.EMSGSIZE, w)
        else
          match copy_from_user (umem w) msg_ptr msg_len with
          | None => Some (Errno.ret Errno.EFAULT, w)
          | Some buf =>
              '(r, w') ← retry fuel env (fun q => MqQueue.send q buf p) o deadline 0 w;
              match r with
              | inl (Some n) => Some (0, deliver w' n)
              | inl None => Some (0, w')
              | inr e => Some (e, w')
              end
          end
    end.

Definition receive_common (fuel : nat) (env : Env) (cur : option Process) (w : World)
    (mqd msg_ptr msg_len prio_ptr : Z) (deadline : option Z) : option (Z * World) :=
  match lookup cur w mqd true false with
  | Err e => Some (Errno.ret e, w)
  | Ok o =>
      q ← queue_of w o;
      let queue_size := max_msg_size q in
      if msg_len <? queue_size then Some (Errno.ret Errno.EMSGSIZE, w)
      else
        '(r, w') ← retry fuel env (fun q => MqQueue.receive q queue_size) o deadline 0 w;
        match r with
        | inr e => Some (e, w')
        | inl (d, p) =>
            let '(ok, m) := if prio_ptr =? 0 then (true, umem w')
                            else copy_to_user (umem w') prio_ptr (le_bytes 4 p) in
            if negb ok then Some (Errno.ret Errno.EFAULT, set_umem w' m)
            else
              let '(ok, m) := copy_to_user m msg_ptr d in
              if negb ok then Some (Errno.ret Errno.EFAULT, set_umem w' m)
              else Some (Z.of_nat (length d), set_umem w' m)
        end
  end.

Definition mq_timedsend (fuel : nat) (env : Env) (cur : option Process) (w : World)
    (mqd msg_ptr : Z) (msg_len : nat) (p timeout_ptr : Z) : option (Z * World) :=
  match read_deadline (umem w) timeout_ptr with
  | Err e => Some (Errno.ret e, w)
  | Ok deadline => send_common fuel env cur w mqd msg_ptr msg_len p deadline
  end.

Definition mq_timedreceive (fuel : nat) (env : Env) (cur : option Process) (w : World)
    (mqd msg_ptr msg_len prio_ptr timeout_ptr : Z) : option (Z * World) :=
  match read_deadline (umem w) timeout_ptr with
  | Err e => Some (Errno.ret e, w)
  | Ok deadline => receive_common fuel env cur w mqd msg_ptr msg_len prio_ptr deadline
  end.

(** ** Notification, attributes, status line *)

(** Update the queue behind a description. *)
Definition with_queue {A} (w : World) (o : Z) (g : MqQueue -> A * MqQueue) : option (A * World) :=
  ob ← objects w !! o;
  h ← handles w !! o_queue ob;
  let '(a, q) := g (inner h) in
  Some (a, set_inner w (o_queue ob) h q).

Definition sigevent_error (ev : Z * Z) : option Z :=
  let '(sig, how) := ev in
  if negb (how =? SIGEV_NONE) && negb (how =? SIGEV_SIGNAL) && negb (how =? SIGEV_THREAD)
  then Some Errno.EINVAL
  else if (how =? SIGEV_SIGNAL) && negb ((1 <=? sig) && (sig <=? NSIG)) then Some Errno.EINVAL
  else if how =? SIGEV_THREAD then Some Errno.ENOSYS
  else None.

Definition current_pid (cur : option Process) : Z := match cur with Some p => pid p | None => 0 end.

Definition mq_notify (cur : option Process) (w : World) (mqd notification : Z) : option (Z * World) :=
  match (if notification =? 0 then Ok None
         else match read_sigevent (umem w) notification with Ok ev => Ok (Some ev) | Err e => Err e end) with
  | Err e => Some (Errno.ret e, w)
  | Ok event =>
      match (ev ← event; sigevent_error ev) with
      | Some e => Some (Errno.ret e, w)
      | None =>
          match lookup cur w mqd false false with
          | Err e => Some (Errno.ret e, w)
          | Ok o =>
              match event with
              | None =>
                  '(_, w') ← with_queue w o (fun q => (tt, MqQueue.clear_notify q (current_pid cur)));
                  Some (0, w')
              | Some (sig, how) =>
                  let n := mkNotify (current_pid cur) (if how =? SIGEV_SIGNAL then u32 sig else 0) how in
                  '(r, w') ← with_queue w o (fun q => MqQueue.register_notify q n);
                  Some (match r with Ok _ => 0 | Err e => Errno.ret e end, w')
              end
          end
      end
  end.

Definition mq_getsetattr (cur : option Process) (w : World) (mqd new_attr_ptr old_attr_ptr : Z)
    : option (Z * World) :=
  match copy_mq_attr_from_user (umem w) new_attr_ptr with
  | Err e => Some (Errno.ret e, w)
  | Ok new_attr =>
      if match new_attr with
         | Some a => negb (Z.land (mq_flags a) (Z.lnot O_NONBLOCK) =? 0) | None => false end
      then Some (Errno.ret Errno.EINVAL, w)
      else
        match lookup cur w mqd false false with
        | Err e => Some (Errno.ret e, w)
        | Ok o =>
            ob ← objects w !! o;
            h ← handles w !! o_queue ob;
            let old := MqQueue.get_attr (inner h) (o_flags ob) in
            let w' := match new_attr with
                      | Some a =>
                          set_object w o (mkObj (o_queue ob) (Z.land (i32 (mq_flags a)) O_NONBLOCK)
                                            (o_pos ob) (o_read ob) (o_write ob) (o_mode ob)
                                            (o_uid ob) (o_gid ob))
                      | None => w
                      end in
            if old_attr_ptr =? 0 then Some (0, w')
            else
              let '(ok, m) := copy_mq_attr_to_user (umem w') old_attr_ptr old in
              Some (if ok : bool then 0 else Errno.ret Errno.EFAULT, set_umem w' m)
        end
  end.

(** [MqObject::read_line]. *)
Definition read_line (w : World) (o : Z) (count : Z) : option (list Z * World) :=
  ob ← objects w !! o;
  h ← handles w !! o_queue ob;
  let line := MqQueue.describe_line (inner h) in
  let len := Z.of_nat (length line) in
  if len <=? o_pos ob then Some ([], w)
  else
    let end_ := Z.min len (saturate (o_pos ob + count)) in
    Some (slice (Z.to_nat (o_pos ob)) (Z.to_nat (end_ - o_pos ob)) line,
          set_object w o (mkObj (o_queue ob) (o_flags ob) end_ (o_read ob) (o_write ob)
                            (o_mode ob) (o_uid ob) (o_gid ob))).

(** ** Closing and duplicating a descriptor *)

Definition clear_notify_of (w : World) (o : Z) (pid : Z) : World :=
  match with_queue w o (fun q => (tt, MqQueue.clear_notify q pid)) with
  | Some (_, w') => w'
  | None => w
  end.

(** [sys_close], with its effects on queues and the references it drops. *)
Definition close_fd (p : Process) (w : World) (fd : Z) : Z * World :=
  let '(r, f, eff) := sys_close (fun o => Z.of_nat (open_count w o)) (files w) fd in
  let w1 := foldl (fun w e => match e with ClearNotify o => clear_notify_of w o (pid p) | _ => w end)
              (set_files w f) eff in
  (r, match fd_get (files w) fd with
      | Some (Mqueue o) => drop_object w1 o
      | _ => w1
      end).

Definition dup_fd (w : World) (fd : Z) : Z * World :=
  let '(r, f) := sys_dup (files w) fd in (r, set_files w f).

(** ** Names and attributes *)

(** The buffer of [read_name] has no room for a name that is too long: such a
    name is reported as a bad address. *)
Lemma read_name_never_too_long m p : 0 <= p -> read_name m p <> Err Errno.ENAMETOOLONG.
Proof.
  intros Hp. unfold read_name. destruct (read_user_string m p (NAME_MAX + 1)) as [s|] eqn:Hs; [|done].
  apply read_user_string_iff in Hs as (_ & _ & _ & Hl & _); [|done].
  destruct (_ || _); [done|]. destruct (Nat.ltb_spec NAME_MAX (length s)); [|done].
  unfold NAME_MAX in *. lia.
Qed.

Definition attr_ok (a : MqAttr) : Prop := Forall is_i64 (attr_words a) /\ length (reserved a) = 4%nat.

Lemma i64_small x : is_i64 x -> i64 x = x.
Proof.
  unfold is_i64, i64. intros Hx. destruct (decide (0 <= x)).
  - rewrite Z.mod_small by lia. case_match; lia.
  - replace (x mod M64) with (x + M64); [case_match; lia|].
    rewrite <- (Z.mod_add x 1) by lia. rewrite Z.mod_small by lia. lia.
Qed.

Lemma slice_concat_word ws i w :
  ws !! i = Some w ->
  slice (8 * i) 8 (concat ((fun x => le_bytes 8 (u64 x)) <$> ws)) = le_bytes 8 (u64 w).
Proof.
  revert i. induction ws as [|v ws IH]; intros [|i] Hi; [done|done| |].
  - injection Hi as ->. unfold slice. cbn [fmap list_fmap concat]. rewrite Nat.mul_0_r, drop_0.
    by rewrite take_app_length'.
  - cbn in Hi. unfold slice in *. cbn [fmap list_fmap concat].
    replace (8 * S i)%nat with (length (le_bytes 8 (u64 v)) + 8 * i)%nat by (rewrite length_le_bytes; lia).
    rewrite drop_app_add. by apply IH.
Qed.

Lemma word_at_bytes a i w :
  attr_ok a -> attr_words a !! i = Some w -> word_at (attr_bytes a) i = w.
Proof.
  intros [Ha _] Hi. unfold word_at, attr_bytes. rewrite (slice_concat_word _ _ _ Hi), le_value_le_bytes.
  change (M8 ^ Z.of_nat 8) with M64. fold (u64 (u64 w)). rewrite !i64_u64.
  apply i64_small. by eapply Forall_lookup_1 in Ha.
Qed.

Lemma attr_bytes_inv a : attr_ok a -> attr_of_bytes (attr_bytes a) = a.
Proof.
  intros Ha. pose proof (word_at_bytes a) as Hw. pose proof Ha as [_ Hr].
  destruct a as [f mm ms cm res]. cbn in Hr.
  destruct res as [|r0 [|r1 [|r2 [|r3 [|]]]]]; try discriminate Hr.
  unfold attr_of_bytes.
  by rewrite (Hw 0%nat f), (Hw 1%nat mm), (Hw 2%nat ms), (Hw 3%nat cm), (Hw 4%nat r0), (Hw 5%nat r1),
    (Hw 6%nat r2), (Hw 7%nat r3).
Qed.

Lemma length_attr_bytes a : length (reserved a) = 4%nat -> length (attr_bytes a) = 64%nat.
Proof.
  destruct a as [f mm ms cm res]. cbn [reserved]. intros Hr.
  destruct res as [|r0 [|r1 [|r2 [|r3 [|]]]]]; try discriminate Hr.
  unfold attr_bytes, attr_words. cbn [fmap list_fmap app concat mq_flags mq_maxmsg mq_msgsize mq_curmsgs reserved].
  by rewrite !length_app, !length_le_bytes.
Qed.

(** Attributes survive the trip through user memory: what the kernel copies
    out to an address it reads back from there, field by field, negative
    values and reserved words included. *)
Theorem mq_attr_roundtrip m p a m' :
  0 < p -> attr_ok a -> copy_mq_attr_to_user m p a = (true, m') ->
  copy_mq_attr_from_user m' p = Ok (Some a).
Proof.
  intros Hp Ha. unfold copy_mq_attr_to_user, copy_mq_attr_from_user.
  rewrite (proj2 (Z.eqb_neq p 0)) by lia. intros Hc%copy_to_from; [|lia].
  rewrite length_attr_bytes in Hc by apply Ha. rewrite Hc. by rewrite attr_bytes_inv.
Qed.

Definition user_page : UserMem := list_to_map ((fun i => (4096 + Z.of_nat i, 0)) <$> seq 0 128).

Lemma mq_attr_roundtrip_witness :
  let a := mkAttr (-1) 10 8192 3 [0; -5; 0; 7] in
  copy_mq_attr_from_user (copy_mq_attr_to_user user_page 4096 a).2 4096 = Ok (Some a).
Proof.
  apply (mq_attr_roundtrip user_page 4096 (mkAttr (-1) 10 8192 3 [0; -5; 0; 7])); [lia| |].
  - split; [|done]. unfold attr_words. cbn. repeat (constructor; [unfold is_i64; lia|]). constructor.
  - vm_compute. reflexivity.
Defined.

(** ** References and charges *)

(** What a user is charged, by the queues. *)
Definition share (uid : Z) (h : MqQueueHandle) : Z := if owner_uid h =? uid then charge h else 0.

Definition total (uid : Z) (hs : gmap Z MqQueueHandle) : Z :=
  map_fold (fun _ h n => share uid h + n) 0 hs.

Lemma total_insert uid hs q h : hs !! q = None -> total uid (<[q := h]> hs) = share uid h + total uid hs.
Proof. intros Hq. unfold total. rewrite map_fold_insert_L; [done| |done]. intros; lia. Qed.

Lemma total_delete uid hs q h : hs !! q = Some h -> total uid hs = share uid h + total uid (delete q hs).
Proof. intros Hq. unfold total. rewrite (map_fold_delete_L _ _ q h); [done| |done]. intros; lia. Qed.

Lemma total_update uid hs q h h' :
  hs !! q = Some h -> share uid h' = share uid h -> total uid (<[q := h']> hs) = total uid hs.
Proof.
  intros Hq Hs. rewrite (total_delete uid hs q h Hq), <- insert_delete_eq, total_insert by apply lookup_delete_eq.
  by rewrite Hs.
Qed.

Lemma total_nonneg uid hs : map_Forall (fun _ h => 0 < charge h) hs -> 0 <= total uid hs.
Proof.
  unfold total. induction hs as [|q h hs Hq IH] using map_ind; [done|]. intros Hf.
  rewrite map_fold_insert_L; [|intros; lia|done].
  apply map_Forall_insert in Hf as [Hh Hf]; [|done]. specialize (IH Hf).
  assert (0 <= share uid h) by (unfold share; case_match; lia). lia.
Qed.

Definition slot_count (o : Z) (t : list (option FileDescriptor)) : nat := length (List.filter (is_mqueue o) t).

Lemma slot_count_app o t u : slot_count o (t ++ u) = (slot_count o t + slot_count o u)%nat.
Proof. unfold slot_count. by rewrite List.filter_app, length_app. Qed.

Lemma slot_count_insert o t i old new :
  t !! i = Some old ->
  (slot_count o (<[i := new]> t) + (if is_mqueue o old then 1 else 0) =
   slot_count o t + (if is_mqueue o new then 1 else 0))%nat.
Proof.
  intros Hi. rewrite insert_take_drop by by eapply lookup_lt_Some.
  rewrite <- (take_drop_middle t i old Hi) at 3. rewrite !slot_count_app. unfold slot_count at 2 4.
  cbn [List.filter]. destruct (is_mqueue o new), (is_mqueue o old); cbn [length]; unfold slot_count; lia.
Qed.

(** The queue has a name, in some namespace. *)
Definition named (w : World) (q : Z) : Prop :=
  exists names name e, names ∈ mqueues w :: namespaces w /\ names !! name = Some e /\ e_queue e = q.

Lemma existsb_map_to_list {K A} `{Countable K} (f : A -> Z) (m : gmap K A) q :
  existsb (fun x => f x.2 =? q) (map_to_list m) = true <-> exists k a, m !! k = Some a /\ f a = q.
Proof.
  rewrite existsb_exists. split.
  - intros ([k a] & Hin & He). exists k, a. rewrite <- list_elem_of_In, elem_of_map_to_list in Hin. by apply Z.eqb_eq in He.
  - intros (k & a & Hin & He). exists (k, a). rewrite <- list_elem_of_In, elem_of_map_to_list. by rewrite Z.eqb_eq.
Qed.

Lemma queue_used_spec w q :
  queue_used w q = true <-> named w q \/ (exists o ob, objects w !! o = Some ob /\ o_queue ob = q).
Proof.
  unfold queue_used, named. rewrite orb_true_iff, existsb_map_to_list, existsb_exists. apply or_iff_compat_r. split.
  - intros (ns & Hin & (n & e & He)%existsb_map_to_list). exists ns, n, e. by rewrite list_elem_of_In.
  - intros (ns & n & e & Hin & He). exists ns. rewrite <- list_elem_of_In. split; [done|]. apply existsb_map_to_list. eauto.
Qed.

Lemma named_here w name e : mqueues w !! name = Some e -> named w (e_queue e).
Proof. intros H. exists (mqueues w), name, e. split; [by left|done]. Qed.

(** The state, except that queue [Q] or description [O] may have lost their
    last reference. *)
Record mq_wf_but (Q O : option Z) (w : World) : Prop := {
  wf_charged uid : charged (bytes_used w) uid = total uid (handles w);
  wf_charge : map_Forall (fun _ h => 0 < charge h) (handles w);
  wf_used q : is_Some (handles w !! q) <-> queue_used w q = true \/ (Q = Some q);
  wf_open o : is_Some (objects w !! o) <-> (0 < open_count w o)%nat \/ O = Some o;
  wf_fresh_q q : is_Some (handles w !! q) -> q < next_id w;
  wf_fresh_o o : is_Some (objects w !! o) -> o < next_id w;
  wf_files : files_wf (files w);
}.

Definition mq_wf : World -> Prop := mq_wf_but None None.

Lemma charged_drop hs b uid q h :
  (forall u, charged b u = total u hs) -> map_Forall (fun _ h => 0 < charge h) hs ->
  hs !! q = Some h -> charged (handle_drop b h) uid = total uid (delete q hs).
Proof.
  intros Hb Hc Hq. pose proof (map_Forall_lookup_1 _ _ _ _ Hc Hq) as Hpos. cbn in Hpos.
  assert (Hd : map_Forall (fun _ h => 0 < charge h) (delete q hs)) by by apply map_Forall_delete.
  pose proof (total_nonneg (owner_uid h) _ Hd) as H0.
  pose proof (Hb (owner_uid h)) as Hu. rewrite (total_delete _ _ _ _ Hq) in Hu.
  unfold share in Hu. rewrite Z.eqb_refl in Hu.
  unfold handle_drop. rewrite (proj2 (Z.ltb_lt _ _) Hpos). unfold release_msgbytes.
  unfold charged in Hu. destruct (b !! owner_uid h) as [used|] eqn:Hl; cbn in Hu; [|lia].
  replace (Z.max 0 (used - charge h)) with (total (owner_uid h) (delete q hs)) by lia.
  destruct (decide (uid = owner_uid h)) as [->|Hne].
  - unfold charged. destruct (Z.eqb_spec (total (owner_uid h) (delete q hs)) 0) as [->|].
    + by rewrite lookup_delete_eq.
    + by rewrite lookup_insert_eq.
  - transitivity (charged b uid).
    + unfold charged. destruct (_ =? 0); [by rewrite lookup_delete_ne|by rewrite lookup_insert_ne].
    + rewrite Hb, (total_delete _ _ _ _ Hq). unfold share. rewrite (proj2 (Z.eqb_neq _ _)) by congruence. lia.
Qed.

Lemma drop_queue_wf w q : mq_wf_but (Some q) None w -> mq_wf (drop_queue w q).
Proof.
  intros [Hb Hc Hu Ho Hfq Hfo Hf]. unfold drop_queue.
  destruct (queue_used w q) eqn:Huq.
  { split; try done. intros q'. rewrite Hu. split; [|naive_solver]. intros [?|[= <-]]; auto. }
  destruct (handles w !! q) as [h|] eqn:Hq; [|exfalso; destruct (proj2 (Hu q)); [auto|congruence]].
  split; cbn [bytes_used handles objects next_id files]; [|by apply map_Forall_delete| |exact Ho| |exact Hfo|exact Hf].
  - intros uid. by apply charged_drop.
  - intros q'. change (queue_used _ q') with (queue_used w q'). destruct (decide (q' = q)) as [->|Hne].
    + rewrite lookup_delete_eq, Huq. split; [by intros []|naive_solver].
    + rewrite lookup_delete_ne, Hu by done. naive_solver.
  - intros q' [x Hx]. apply Hfq. apply lookup_delete_Some in Hx as [_ Hx]. by eexists.
Qed.

Lemma drop_object_wf w o : mq_wf_but None (Some o) w -> mq_wf (drop_object w o).
Proof.
  intros [Hb Hc Hu Ho Hfq Hfo Hf]. unfold drop_object.
  destruct (Nat.ltb_spec 0 (open_count w o)) as [Hn|Hn].
  { split; try done. intros o'. rewrite Ho. split; [|naive_solver]. intros [?|[= <-]]; auto. }
  destruct (objects w !! o) as [ob|] eqn:Hob; [|exfalso; destruct (proj2 (Ho o)); [auto|congruence]].
  apply drop_queue_wf. split; cbn [bytes_used handles objects next_id files]; [done|done| | |done| |done].
  - intros q'. rewrite Hu, !queue_used_spec. cbn [mqueues objects]. split.
    + intros [[?|(o' & ob' & Hl & <-)]|?]; [auto| |done].
      destruct (decide (o' = o)) as [->|]; [right; congruence|].
      left. right. exists o', ob'. by rewrite lookup_delete_ne.
    + intros [[?|(o' & ob' & [_ Hl]%lookup_delete_Some & <-)]|[= <-]]; [auto|left; right; eauto|left; right; eauto].
  - intros o'. change (open_count _ o') with (open_count w o').
    destruct (decide (o' = o)) as [->|Hne].
    + rewrite lookup_delete_eq. split; [by intros []|]. intros [?|?]; [lia|done].
    + rewrite lookup_delete_ne, Ho by done. naive_solver.
  - intros o' [x [_ Hx]%lookup_delete_Some]. apply Hfo. by eexists.
Qed.

(** Changing a queue but not its charge, or a description but not its queue,
    changes no reference. *)
Lemma set_inner_wf Q O w q h n :
  mq_wf_but Q O w -> handles w !! q = Some h -> mq_wf_but Q O (set_inner w q h n).
Proof.
  intros [Hb Hc Hu Ho Hfq Hfo Hf] Hq.
  split; cbn [bytes_used handles objects next_id files set_inner set_handle]; [| | |exact Ho| |exact Hfo|exact Hf].
  - intros uid. rewrite Hb. symmetry. by eapply total_update.
  - apply map_Forall_insert_2; [|done]. cbn. by apply (map_Forall_lookup_1 _ _ _ _ Hc Hq).
  - intros q'. rewrite lookup_insert_is_Some'. change (queue_used _ q') with (queue_used w q').
    rewrite <- Hu. split; [intros [<-|?]; [by eexists|done]|auto].
  - intros q'. rewrite lookup_insert_is_Some'. intros [<-|?]; apply Hfq; [by eexists|done].
Qed.

Lemma set_object_wf Q O w o ob ob' :
  mq_wf_but Q O w -> objects w !! o = Some ob -> o_queue ob' = o_queue ob ->
  mq_wf_but Q O (set_object w o ob').
Proof.
  intros [Hb Hc Hu Ho Hfq Hfo Hf] Hob Heq.
  split; cbn [bytes_used handles objects next_id files set_object]; [done|done| | |done| |done].
  - intros q. rewrite Hu, !queue_used_spec. cbn [mqueues objects set_object]. split.
    + intros [[?|(o' & x & Hl & <-)]|?]; [auto| |auto]. left. right.
      destruct (decide (o' = o)) as [->|]; [exists o, ob'; rewrite lookup_insert_eq; split; [done|congruence]|].
      exists o', x. by rewrite lookup_insert_ne.
    + intros [[?|(o' & x & Hl & <-)]|?]; [auto| |auto]. left. right.
      apply lookup_insert_Some in Hl as [[<- <-]|[_ Hl]]; [exists o, ob; done|eauto].
  - intros o'. rewrite lookup_insert_is_Some'. change (open_count _ o') with (open_count w o').
    rewrite <- Ho. split; [intros [<-|?]; [by eexists|done]|auto].
  - intros o'. rewrite lookup_insert_is_Some'. intros [<-|?]; apply Hfo; [by eexists|done].
Qed.

Lemma with_queue_wf {A} Q O w o (g : MqQueue -> A * MqQueue) a w' :
  mq_wf_but Q O w -> with_queue w o g = Some (a, w') -> mq_wf_but Q O w'.
Proof.
  intros Hw. unfold with_queue. destruct (objects w !! o) as [ob|]; [|done]. cbn.
  destruct (handles w !! o_queue ob) as [h|] eqn:Hh; [|done]. cbn.
  destruct (g (inner h)) as [x q]. intros [= <- <-]. by apply set_inner_wf.
Qed.

Lemma set_umem_wf Q O w m : mq_wf_but Q O w -> mq_wf_but Q O (set_umem w m).
Proof. by intros []. Qed.

Lemma deliver_wf w n : mq_wf w -> mq_wf (deliver w n).
Proof. intros Hw. unfold deliver. destruct (_ || _); [done|]. destruct (64 <=? _); [done|]. case_match; [|done]. by destruct Hw. Qed.

(** *** Descriptors *)

Lemma install_fd_spec f o fd f' :
  files_wf f -> install_fd f o = (fd, f') ->
  files_wf f' /\ fd_get f fd = None /\ fd_get f' fd = Some (Mqueue o) /\
  forall o', slot_count o' (fd_table f') = (slot_count o' (fd_table f) + if decide (o' = o) then 1 else 0)%nat.
Proof.
  unfold install_fd. pose proof (hole_spec (fd_table f) 0 0) as Hh.
  intros Hwf. destruct (hole (fd_table f) 0 0) as [i|]; intros [= <- <-].
  - destruct Hh as (_ & Hi & _). rewrite Nat.sub_0_r in Hi. pose proof (lookup_lt_Some _ _ _ Hi) as Hlt.
    set (g := mkFiles _ _).
    assert (Hg : fd_get g (Z.of_nat i) = Some (Mqueue o)).
    { unfold fd_get, g. cbn. by rewrite Nat2Z.id, list_lookup_insert_eq. }
    destruct (set_flag_word_spec g (Z.of_nat i) (Z.lor FD_CLOEXEC)) as [Hw _];
      [unfold files_wf, g in *; cbn; by rewrite length_insert|lia|by rewrite Hg|].
    split_and!; [done|unfold fd_get; by rewrite Nat2Z.id, Hi|done|].
    intros o'. cbn [fd_table set_flag_word g]. pose proof (slot_count_insert o' _ _ _ (Some (Mqueue o)) Hi) as Hc.
    cbn [is_mqueue] in Hc. destruct (Z.eqb_spec o o'); case_decide; subst; try done; lia.
  - set (g := mkFiles _ _).
    assert (Hg : fd_get g (Z.of_nat (length (fd_table f))) = Some (Mqueue o)).
    { unfold fd_get, g. cbn. by rewrite Nat2Z.id, lookup_app_r, Nat.sub_diag by lia. }
    destruct (set_flag_word_spec g (Z.of_nat (length (fd_table f))) (Z.lor FD_CLOEXEC)) as [Hw _];
      [unfold files_wf, g in *; cbn; rewrite length_app; lia|lia|by rewrite Hg|].
    split_and!; [done|unfold fd_get; by rewrite Nat2Z.id, lookup_ge_None_2 by lia|done|].
    intros o'. cbn [fd_table set_flag_word g]. rewrite slot_count_app. f_equal. unfold slot_count. cbn.
    destruct (Z.eqb_spec o o'); case_decide; subst; done.
Qed.

Lemma open_count_files w f o :
  open_count (set_files w f) o = (slot_count o (fd_table f) + length (List.filter (Z.eqb o) (elsewhere w)))%nat.
Proof. done. Qed.

Lemma open_entry_wf w e oflag :
  mq_wf w -> is_Some (handles w !! e_queue e) -> mq_wf (open_entry w e oflag).2.
Proof.
  intros [Hb Hc Hu Ho Hfq Hfo Hf] He. unfold open_entry.
  destruct (install_fd (files w) (next_id w)) as [fd f] eqn:Hi.
  destruct (install_fd_spec _ _ _ _ Hf Hi) as (Hf' & _ & _ & Hcount).
  split; cbn [snd bytes_used handles objects next_id files]; [done|done| | | | |done].
  - intros q. rewrite Hu, !queue_used_spec. cbn [mqueues objects]. split.
    + intros [[?|(o & ob & Hl & <-)]|?]; [auto| |done]. left. right. exists o, ob.
      rewrite lookup_insert_ne; [done|]. intros <-. specialize (Hfo (next_id w)). rewrite Hl in Hfo.
      specialize (Hfo ltac:(eauto)). lia.
    + intros [[?|(o & ob & Hl & <-)]|?]; [auto| |done].
      apply lookup_insert_Some in Hl as [[<- <-]|[_ Hl]]; [|left; right; eauto].
      cbn [o_queue new_object]. rewrite <- queue_used_spec. by apply Hu.
  - intros o. rewrite lookup_insert_is_Some', Ho. unfold open_count. cbn [files elsewhere].
    fold (slot_count o (fd_table f)) (slot_count o (fd_table (files w))). rewrite Hcount.
    case_decide; subst; split; intros; destruct_or?; try lia; try done; auto; try (left; lia).
  - intros q Hq%Hfq. lia.
  - intros o [<-|Hq%Hfo]%lookup_insert_is_Some'; lia.
Qed.

Lemma fresh_not_used w : mq_wf w -> handles w !! next_id w = None /\ queue_used w (next_id w) = false.
Proof.
  intros [_ _ Hu _ Hfq _ _]. assert (Hn : handles w !! next_id w = None).
  { destruct (handles w !! next_id w) eqn:H; [|done]. specialize (Hfq (next_id w) ltac:(eauto)). lia. }
  split; [done|]. apply not_true_is_false. intros Hx. destruct (proj2 (Hu (next_id w))); [auto|congruence].
Qed.

Lemma message_bytes_pos attr c :
  0 < mq_maxmsg attr <= HARD_MSGMAX -> 0 < mq_msgsize attr <= HARD_MSGSIZEMAX ->
  message_bytes attr = Ok c -> c = mq_maxmsg attr * (mq_msgsize attr + MQ_MSG_OVERHEAD) /\ 0 < c.
Proof.
  unfold HARD_MSGMAX, HARD_MSGSIZEMAX, message_bytes, checked_mul, checked_add, MQ_MSG_OVERHEAD. intros Hm Hs.
  unfold u64. rewrite !Z.mod_small by lia.
  destruct (M64 <=? mq_maxmsg attr * mq_msgsize attr); [done|].
  destruct (M64 <=? mq_maxmsg attr * _); [done|]. destruct (M64 <=? _ + _); [done|].
  intros [= <-]. split; nia.
Qed.

(** The state after a new queue has its name and its charge. *)
Lemma create_wf w name e attr c b p limit :
  mq_wf w -> mqueues w !! name = None -> e_queue e = next_id w -> 0 < c ->
  charge_msgbytes (bytes_used w) (p_euid p) c limit = Ok b ->
  mq_wf (mkWorld (<[next_id w := handle_new attr (p_euid p) c]> (handles w)) (objects w)
           (<[name := e]> (mqueues w)) b (files w) (elsewhere w) (signals w) (next_id w + 1) (umem w) (namespaces w)).
Proof.
  intros Hw Hname He Hc Hb. destruct (fresh_not_used w Hw) as [Hn Hnu]. destruct Hw as [Hch Hpos Hu Ho Hfq Hfo Hf].
  split; cbn [bytes_used handles objects next_id files]; [| | |done| | |done].
  - intros uid. rewrite total_insert by done. rewrite <- Hch. unfold share. cbn [owner_uid charge handle_new].
    unfold charge_msgbytes, checked_add in Hb. destruct (M64 <=? _); [done|]. destruct (limit <? _); [done|].
    injection Hb as <-. unfold charged. destruct (Z.eqb_spec (p_euid p) uid) as [->|].
    + rewrite lookup_insert_eq. cbn. lia.
    + by rewrite lookup_insert_ne.
  - by apply map_Forall_insert_2.
  - intros q. rewrite lookup_insert_is_Some', Hu, !queue_used_spec. cbn [mqueues objects]. split.
    + intros [<-|[[(ns & n & e' & Hns & Hl & Hq)|?]|?]]; [| |auto|done]; left; left.
      * rewrite <- He. eapply named_here. by apply lookup_insert_eq.
      * apply elem_of_cons in Hns as [->|Hns]; [|exists ns, n, e'; by split_and!; [right|..]].
        rewrite <- Hq. eapply named_here. cbn [mqueues]. rewrite lookup_insert_ne; [exact Hl|congruence].
    + intros [[(ns & n & e' & Hns & Hl & <-)|?]|?]; [|auto|done].
      apply elem_of_cons in Hns as [->|Hns]; [|right; left; left; exists ns, n, e'; by split_and!; [right|..]].
      cbn [mqueues] in Hl. apply lookup_insert_Some in Hl as [[<- <-]|[_ Hl]]; [auto|]. right. left. left. by eapply named_here.
  - intros q [<-|Hq%Hfq]%lookup_insert_is_Some'; lia.
  - intros o Hq%Hfo. lia.
Qed.

Lemma mq_open_wf cur w name_ptr oflag mode attr_ptr :
  mq_wf w -> mq_wf (mq_open cur w name_ptr oflag mode attr_ptr).2.
Proof.
  intros Hw. unfold mq_open. destruct (copy_mq_attr_from_user _ _) as [attr|]; [|done].
  destruct (read_name _ _) as [name|]; [|done]. destruct (_ =? 3); [done|]. destruct cur as [p|]; [|done].
  destruct (mqueues w !! name) as [e|] eqn:Hl.
  - destruct (_ && _); [done|]. destruct (negb _); [done|]. apply open_entry_wf; [done|].
    apply Hw. left. apply queue_used_spec. left. by eapply named_here.
  - unfold mq_create. destruct (_ =? 0); [done|]. set (a := default _ _).
    destruct (_ || _) eqn:Hbad; [done|]. destruct (message_bytes a) as [c|] eqn:Hc; [|done].
    destruct (_ && _); [done|]. destruct (charge_msgbytes _ _ _ _) as [b|] eqn:Hb; [|done].
    apply message_bytes_pos in Hc as [_ Hc].
    + apply open_entry_wf; [eapply create_wf; eauto|]. cbn. rewrite lookup_insert_eq. eauto.
    + unfold HARD_MSGMAX, DFLT_MSGMAX in *. destruct (privileged p); lia.
    + unfold HARD_MSGSIZEMAX, DFLT_MSGSIZEMAX in *. destruct (privileged p); lia.
Qed.

(** A name that goes, of this namespace or of another one. *)
Lemma forget_wf w v names name e :
  mq_wf w -> names ∈ mqueues w :: namespaces w -> names !! name = Some e ->
  handles v = handles w -> objects v = objects w -> bytes_used v = bytes_used w -> files v = files w ->
  elsewhere v = elsewhere w -> next_id v = next_id w ->
  (forall names', names' ∈ mqueues w :: namespaces w -> names' ∈ mqueues v :: namespaces v \/ names' = names) ->
  (forall names', names' ∈ mqueues v :: namespaces v -> names' ∈ mqueues w :: namespaces w \/ names' = delete name names) ->
  delete name names ∈ mqueues v :: namespaces v ->
  mq_wf (drop_queue v (e_queue e)).
Proof.
  intros [Hch Hpos Hu Ho Hfq Hfo Hf] Hin Hl Eh Eo Eb Ef Ee En H1 H2 H3. apply drop_queue_wf.
  split; rewrite ?Eh, ?Eo, ?Eb, ?Ef, ?En; try done.
  - intros q. rewrite Hu, !queue_used_spec, Eo. split.
    + intros [[(ns & n & e' & Hns & He' & <-)|?]|?]; [|auto|done].
      destruct (H1 ns Hns) as [?| ->]; [left; left; by exists ns, n, e'|].
      destruct (decide (n = name)) as [->|]; [right; congruence|]. left. left. exists (delete name names), n, e'.
      by rewrite lookup_delete_ne.
    + intros [[(ns & n & e' & Hns & He' & <-)|?]|[= <-]]; [|auto|left; left; by exists names, name, e].
      left. left. destruct (H2 ns Hns) as [?| ->]; [by exists ns, n, e'|].
      apply lookup_delete_Some in He' as [_ He']. by exists names, n, e'.
  - intros o. rewrite Ho. unfold open_count. by rewrite Ef, Ee.
Qed.

Lemma mq_unlink_wf cur w name_ptr : mq_wf w -> mq_wf (mq_unlink cur w name_ptr).2.
Proof.
  intros Hw. unfold mq_unlink. destruct (read_name _ _) as [name|]; [|done]. destruct cur; [|done].
  destruct (mqueues w !! name) as [e|] eqn:Hl; [|done]. eapply (forget_wf w _ (mqueues w) name); try done; cbn [mqueues namespaces].
  - by left.
  - intros ns [->|?]%elem_of_cons; [by right|left; by right].
  - intros ns [->|?]%elem_of_cons; [by right|left; by right].
  - by left.
Qed.

Lemma close_fd_wf p w fd : mq_wf w -> 0 <= fd -> mq_wf (close_fd p w fd).2.
Proof.
  intros Hw Hfd. unfold close_fd. destruct (sys_close _ _ _) as [[r f] eff] eqn:Hcl. cbn [snd].
  assert (Hwf : files_wf (files w)) by apply Hw.
  destruct (close_spec _ _ _ _ _ _ Hwf Hfd Hcl) as [Hf' Hspec].
  unfold sys_close in Hcl. destruct (fd_get (files w) fd) as [desc|] eqn:Hd; injection Hcl as <- <- <-; [|by destruct Hw].
  assert (Hl : fd_table (files w) !! Z.to_nat fd = Some (Some desc)).
  { unfold fd_get in Hd. destruct (fd_table (files w) !! Z.to_nat fd); [congruence|done]. }
  set (f := mkFiles _ _) in *.
  assert (Hcnt : forall o, (slot_count o (fd_table f) + (if is_mqueue o (Some desc) then 1 else 0) =
                            slot_count o (fd_table (files w)))%nat).
  { intros o. pose proof (slot_count_insert o _ _ _ None Hl) as Hx. cbn [is_mqueue] in *. unfold f. cbn [fd_table]. lia. }
  assert (Hbut : mq_wf_but None (match desc with Mqueue o => Some o | _ => None end) (set_files w f)).
  { destruct Hw as [Hch Hpos Hu Ho Hfq Hfo Hf]. split; try done. intros o. cbn [objects set_files].
    rewrite Ho, open_count_files. unfold open_count. fold (slot_count o (fd_table (files w))).
    specialize (Hcnt o). destruct desc; cbn [is_mqueue] in Hcnt; try (split; intros; destruct_or?; left; lia || done).
    destruct (Z.eqb_spec obj o); split; intros; destruct_or?; simplify_eq; auto; left; lia. }
  cbn [foldl]. destruct desc; try exact Hbut. cbn [close_effects].
  apply drop_object_wf. destruct (_ =? 1); [|exact Hbut]. cbn [foldl]. unfold clear_notify_of.
  destruct (with_queue _ _ _) as [[[] w']|] eqn:Hq; [by eapply with_queue_wf|done].
Qed.

Lemma slot_count_pos o t i : t !! i = Some (Some (Mqueue o)) -> (0 < slot_count o t)%nat.
Proof.
  intros Hi. pose proof (slot_count_insert o t i _ None Hi) as Hx. cbn in Hx. rewrite Z.eqb_refl in Hx. lia.
Qed.

Lemma fd_get_slot f fd d : fd_get f fd = Some d -> fd_table f !! Z.to_nat fd = Some (Some d).
Proof. unfold fd_get. by destruct (fd_table f !! Z.to_nat fd); [intros ->|]. Qed.

Lemma dup_from_count f d from n f' o :
  dup_from f d from = (n, f') ->
  slot_count o (fd_table f') = (slot_count o (fd_table f) + if is_mqueue o (Some d) then 1 else 0)%nat.
Proof.
  unfold dup_from. pose proof (hole_spec (fd_table f) 0 from) as Hh.
  destruct (hole (fd_table f) 0 from) as [i|]; intros [= <- <-]; cbn [fd_table].
  - destruct Hh as (_ & Hi & _). rewrite Nat.sub_0_r in Hi.
    pose proof (slot_count_insert o _ _ _ (Some d) Hi) as Hx. change (is_mqueue o None) with false in Hx.
    cbn iota in Hx. lia.
  - rewrite slot_count_app. f_equal. unfold slot_count. cbn [List.filter]. by destruct (is_mqueue o (Some d)).
Qed.

Lemma dup_fd_wf w fd : mq_wf w -> mq_wf (dup_fd w fd).2.
Proof.
  intros Hw. unfold dup_fd, sys_dup. destruct (fd_get (files w) fd) as [d|] eqn:Hd; [|by destruct Hw].
  destruct (dup_from (files w) d 0) as [n f] eqn:Hdup. assert (Hwf : files_wf (files w)) by apply Hw.
  pose proof (dup_from_spec _ _ _ _ _ Hwf Hdup) as (_ & Hf' & _).
  destruct Hw as [Hch Hpos Hu Ho Hfq Hfo Hf]. split; try done. intros o. cbn [snd objects set_files].
  rewrite Ho, open_count_files, (dup_from_count _ _ _ _ _ o Hdup).
  unfold open_count. fold (slot_count o (fd_table (files w))).
  destruct (is_mqueue o (Some d)) eqn:Hm; [|by rewrite Nat.add_0_r].
  destruct d; try done. apply Z.eqb_eq in Hm as ->. apply fd_get_slot, slot_count_pos in Hd.
  split; intros [?|?]; left; lia || done.
Qed.

(** *** Calls on an open descriptor *)

(** A descriptor that passes [lookup] has a live description and queue. *)
Lemma lookup_live cur w mqd r x o :
  mq_wf w -> lookup cur w mqd r x = Ok o ->
  exists ob h, objects w !! o = Some ob /\ handles w !! o_queue ob = Some h /\ queue_of w o = Some (inner h).
Proof.
  intros Hw. unfold lookup. destruct (mqd <? 0); [done|]. destruct cur; [|done].
  destruct (fd_get (files w) mqd) as [[]|]; try done. destruct (objects w !! obj) as [ob|] eqn:Hob; [|done].
  destruct (_ || _); [done|]. intros [= <-]. assert (Hq : is_Some (handles w !! o_queue ob)).
  { apply Hw. left. apply queue_used_spec. eauto. }
  destruct Hq as [h Hh]. exists ob, h. unfold queue_of. rewrite Hob. cbn. by rewrite Hh.
Qed.

(** What the rest of the system may do while a call on [o] sleeps. *)
Definition env_ok (o : Z) (env : Env) : Prop :=
  forall i w, mq_wf w -> is_Some (objects w !! o) ->
    mq_wf (others env i w) /\ is_Some (objects (others env i w) !! o).

(** The state before attempt [i]. *)
Fixpoint world_at (env : Env) (i j : nat) (w : World) : World :=
  match j with O => w | S j => world_at env (S i) j (others env i w) end.

(** How a call that retries ends: [j] attempts fail for want of room or of a
    message, the next one decides. *)
Definition retry_end {A} (env : Env) (attempt : MqQueue -> Result A * MqQueue) (o : Z)
    (deadline : option Z) (i j : nat) (w : World) (r : A + Z) (w' : World) : Prop :=
  let v := world_at env i j w in
  exists ob h, objects v !! o = Some ob /\ handles v !! o_queue ob = Some h /\
    match r with
    | inl a => (attempt (inner h)).1 = Ok a /\ w' = set_inner v (o_queue ob) h (attempt (inner h)).2
    | inr c => w' = v /\
        (((attempt (inner h)).1 = Err Errno.EAGAIN /\ wait_step env (i + j) ob deadline = Some c) \/
         exists e, (attempt (inner h)).1 = Err e /\ e <> Errno.EAGAIN /\ c = Errno.ret e)
    end.

Lemma retry_spec {A} fuel env (attempt : MqQueue -> Result A * MqQueue) o deadline i w r w' :
  env_ok o env -> mq_wf w ->
  retry fuel env attempt o deadline i w = Some (r, w') ->
  exists j, (j < fuel)%nat /\ retry_end env attempt o deadline i j w r w' /\ mq_wf w'.
Proof.
  intros Henv. revert i w. induction fuel as [|fuel IH]; intros i w Hw; [done|]. cbn [retry].
  destruct (objects w !! o) as [ob|] eqn:Hob; [|done]. cbn.
  destruct (handles w !! o_queue ob) as [h|] eqn:Hh; [|done]. cbn.
  destruct (attempt (inner h)) as [[a|e] q] eqn:Ha.
  - intros [= <- <-]. exists 0%nat. split; [lia|]. split; [|by apply set_inner_wf].
    exists ob, h. by rewrite Ha.
  - destruct (Z.eqb_spec e Errno.EAGAIN) as [->|Hne].
    + destruct (wait_step env i ob deadline) as [c|] eqn:Hws.
      * intros [= <- <-]. exists 0%nat. split; [lia|]. split; [|done]. exists ob, h. rewrite Ha, Nat.add_0_r.
        cbn. eauto 6.
      * intros Hr. destruct (Henv i w Hw ltac:(eauto)) as [Hw' _].
        destruct (IH _ _ Hw' Hr) as (j & Hj & Hend & ?). exists (S j). split; [lia|]. split; [|done].
        unfold retry_end in *. cbn [world_at]. by rewrite Nat.add_succ_r.
    + intros [= <- <-]. exists 0%nat. split; [lia|]. split; [|done]. exists ob, h. rewrite Ha. cbn. eauto 8.
Qed.

(** A call with a deadline stops once the clock has reached it. *)
Lemma retry_returns {A} k env (attempt : MqQueue -> Result A * MqQueue) o d i w :
  env_ok o env -> mq_wf w -> is_Some (objects w !! o) -> d <= now env (i + k) ->
  is_Some (retry (S k) env attempt o (Some d) i w).
Proof.
  intros Henv. revert i w. induction k as [|k IH]; intros i w Hw [ob Hob] Hd; cbn [retry]; rewrite Hob; cbn.
  all: assert (Hq : is_Some (handles w !! o_queue ob)) by
    (apply Hw; left; apply queue_used_spec; eauto).
  all: destruct Hq as [h ->]; cbn; destruct (attempt (inner h)) as [[a|e] q]; [eauto|].
  all: destruct (e =? Errno.EAGAIN); [|eauto].
  all: destruct (wait_step env i ob (Some d)) eqn:Hws; [eauto|].
  - exfalso. unfold wait_step in Hws. destruct (negb _); [done|]. destruct (signal env i); [done|].
    rewrite Nat.add_0_r in Hd. by rewrite (proj2 (Z.leb_le _ _) Hd) in Hws.
  - destruct (Henv i w Hw ltac:(eauto)) as [Hw' Ho']. apply IH; [done|done|]. by rewrite Nat.add_succ_comm.
Qed.

Lemma send_common_wf fuel env cur w mqd msg_ptr msg_len p deadline r w' :
  (forall o, env_ok o env) -> mq_wf w ->
  send_common fuel env cur w mqd msg_ptr msg_len p deadline = Some (r, w') -> mq_wf w'.
Proof.
  intros Henv Hw. unfold send_common. destruct (_ <=? p); [by intros [= _ <-]|].
  destruct (lookup cur w mqd false true) as [o|]; [|by intros [= _ <-]].
  destruct (queue_of w o); [|done]. cbn. destruct (_ <? _); [by intros [= _ <-]|].
  destruct (copy_from_user _ _ _) as [buf|]; [|by intros [= _ <-]].
  destruct (retry _ _ _ _ _ _ _) as [[x v]|] eqn:Hr; [|done]. cbn.
  apply retry_spec in Hr as (j & _ & _ & Hv); [|done|done].
  destruct x as [[n|]|e]; intros [= _ <-]; [by apply deliver_wf|done|done].
Qed.

Lemma receive_common_wf fuel env cur w mqd msg_ptr msg_len prio_ptr deadline r w' :
  (forall o, env_ok o env) -> mq_wf w ->
  receive_common fuel env cur w mqd msg_ptr msg_len prio_ptr deadline = Some (r, w') -> mq_wf w'.
Proof.
  intros Henv Hw. unfold receive_common.
  destruct (lookup cur w mqd true false) as [o|]; [|by intros [= _ <-]].
  destruct (queue_of w o); [|done]. cbn. destruct (_ <? _); [by intros [= _ <-]|].
  destruct (retry _ _ _ _ _ _ _) as [[x v]|] eqn:Hr; [|done]. cbn.
  apply retry_spec in Hr as (j & _ & _ & Hv); [|done|done].
  destruct x as [[d pr]|e]; [|by intros [= _ <-]].
  destruct (if prio_ptr =? 0 then _ else _) as [[] m1]; cbn; [|intros [= _ <-]; by apply set_umem_wf].
  destruct (copy_to_user m1 msg_ptr d) as [[] m2]; cbn; intros [= _ <-]; by apply set_umem_wf.
Qed.

Lemma mq_notify_wf cur w mqd notification r w' :
  mq_wf w -> mq_notify cur w mqd notification = Some (r, w') -> mq_wf w'.
Proof.
  intros Hw. unfold mq_notify. destruct (if _ =? 0 then _ else _) as [event|]; [|by intros [= _ <-]].
  destruct (event ≫= _); [by intros [= _ <-]|].
  destruct (lookup cur w mqd false false) as [o|]; [|by intros [= _ <-]].
  destruct event as [[sig how]|]; (destruct (with_queue _ _ _) as [[x v]|] eqn:Hq; [|done]);
    cbn; intros [= _ <-]; by eapply with_queue_wf.
Qed.

Lemma mq_getsetattr_wf cur w mqd new_ptr old_ptr r w' :
  mq_wf w -> mq_getsetattr cur w mqd new_ptr old_ptr = Some (r, w') -> mq_wf w'.
Proof.
  intros Hw. unfold mq_getsetattr. destruct (copy_mq_attr_from_user _ _) as [new|]; [|by intros [= _ <-]].
  destruct (match new with Some a => _ | None => _ end); [by intros [= _ <-]|].
  destruct (lookup cur w mqd false false) as [o|]; [|by intros [= _ <-]].
  destruct (objects w !! o) as [ob|] eqn:Hob; [|done]. cbn. destruct (handles w !! o_queue ob); [|done]. cbn.
  set (v := match new with Some a => _ | None => _ end).
  assert (Hv : mq_wf v) by (unfold v; destruct new; [by eapply set_object_wf|done]).
  destruct (old_ptr =? 0); [by intros [= _ <-]|].
  destruct (copy_mq_attr_to_user _ _ _) as [ok m1]. intros [= _ <-]. by apply set_umem_wf.
Qed.

Lemma read_line_wf w o count l w' : mq_wf w -> read_line w o count = Some (l, w') -> mq_wf w'.
Proof.
  intros Hw. unfold read_line. destruct (objects w !! o) as [ob|] eqn:Hob; [|done]. cbn.
  destruct (handles w !! o_queue ob); [|done]. cbn. destruct (_ <=? _); intros [= _ <-]; [done|].
  by eapply set_object_wf.
Qed.

(** *** Every run *)

Definition objs_of (f : ProcessFiles) : list Z :=
  omap (fun slot => match slot with Some (Mqueue o) => Some o | _ => None end) (fd_table f).

Definition set_current (w : World) (f : ProcessFiles) (l : list Z) : World :=
  mkWorld (handles w) (objects w) (mqueues w) (bytes_used w) f l (signals w) (next_id w) (umem w) (namespaces w).

Definition set_namespaces (w : World) (names : gmap (list Z) MqEntry) (l : list (gmap (list Z) MqEntry)) : World :=
  mkWorld (handles w) (objects w) names (bytes_used w) (files w) (elsewhere w) (signals w) (next_id w) (umem w) l.

(** Runs of the system. A call that may wait is not one step: it looks its
    descriptor up and holds the description ([run_hold]); tries to send or to
    receive, any number of times ([run_try_send], [run_try_receive]), raises
    the signal of a notification ([run_deliver]) and copies out ([run_switch]);
    and lets the description go ([run_drop]). The steps of several calls
    interleave, and descriptors may be closed while calls wait. The other
    steps are the calls that do not wait; another process becoming current,
    with its own table and memory; [fork], which gives the child a copy of
    every descriptor; a descriptor of another process dropped ([exit], [exec],
    a descriptor overwritten by [dup2]); and namespaces: a process of another
    one becoming current, a new one, and the names of one that goes. *)
Inductive mq_run : World -> World -> Prop :=
| run_refl w : mq_run w w
| run_trans w1 w2 w3 : mq_run w1 w2 -> mq_run w2 w3 -> mq_run w1 w3
| run_open cur w n oflag mode a : mq_run w (mq_open cur w n oflag mode a).2
| run_unlink cur w n : mq_run w (mq_unlink cur w n).2
| run_close p w fd : 0 <= fd -> mq_run w (close_fd p w fd).2
| run_dup w fd : mq_run w (dup_fd w fd).2
| run_hold cur w mqd r x o :
    lookup cur w mqd r x = Ok o -> mq_run w (set_current w (files w) (o :: elsewhere w))
| run_try_send w o buf p r w' : with_queue w o (fun q => MqQueue.send q buf p) = Some (r, w') -> mq_run w w'
| run_try_receive w o n r w' : with_queue w o (fun q => MqQueue.receive q n) = Some (r, w') -> mq_run w w'
| run_deliver w n : mq_run w (deliver w n)
| run_notify cur w mqd n r w' : mq_notify cur w mqd n = Some (r, w') -> mq_run w w'
| run_getsetattr cur w mqd n o r w' : mq_getsetattr cur w mqd n o = Some (r, w') -> mq_run w w'
| run_read w o n l w' : read_line w o n = Some (l, w') -> mq_run w w'
| run_switch w f l m :
    files_wf f -> (forall o, open_count (set_current w f l) o = open_count w o) ->
    mq_run w (set_umem (set_current w f l) m)
| run_fork w : mq_run w (set_current w (files w) (objs_of (files w) ++ elsewhere w))
| run_drop w o l1 l2 :
    elsewhere w = l1 ++ o :: l2 -> mq_run w (drop_object (set_current w (files w) (l1 ++ l2)) o)
| run_enter_namespace w names l1 l2 :
    namespaces w = l1 ++ names :: l2 -> mq_run w (set_namespaces w names (l1 ++ mqueues w :: l2))
| run_new_namespace w : mq_run w (set_namespaces w (mqueues w) (∅ :: namespaces w))
| run_forget w names name e l1 l2 :
    namespaces w = l1 ++ names :: l2 -> names !! name = Some e ->
    mq_run w (drop_queue (set_namespaces w (mqueues w) (l1 ++ delete name names :: l2)) (e_queue e)).

Lemma objs_of_count f o : length (List.filter (Z.eqb o) (objs_of f)) = slot_count o (fd_table f).
Proof.
  unfold objs_of, slot_count. induction (fd_table f) as [|[d|] t IH]; [done| |exact IH].
  destruct d; cbn; try exact IH. rewrite (Z.eqb_sym o). destruct (obj =? o); cbn; by rewrite ?IH.
Qed.

Lemma fork_wf w : mq_wf w -> mq_wf (set_current w (files w) (objs_of (files w) ++ elsewhere w)).
Proof.
  intros [Hch Hpos Hu Ho Hfq Hfo Hf]. split; try done. intros o. rewrite Ho. unfold open_count. cbn.
  rewrite List.filter_app, length_app, objs_of_count. unfold slot_count.
  split; intros [?|?]; [left; lia|done|left; lia|done].
Qed.

Lemma drop_elsewhere_wf w o l1 l2 :
  mq_wf w -> elsewhere w = l1 ++ o :: l2 -> mq_wf (drop_object (set_current w (files w) (l1 ++ l2)) o).
Proof.
  intros [Hch Hpos Hu Ho Hfq Hfo Hf] He. apply drop_object_wf. split; try done. intros o'. rewrite Ho.
  unfold open_count. cbn [files elsewhere set_current]. rewrite He, !List.filter_app, !length_app. cbn [List.filter].
  destruct (Z.eqb_spec o' o) as [->|]; cbn [length]; split; intros; destruct_or?; simplify_eq; auto; left; lia.
Qed.

(** A call takes a reference of a description that is open. *)
Lemma hold_wf cur w mqd r x o :
  mq_wf w -> lookup cur w mqd r x = Ok o -> mq_wf (set_current w (files w) (o :: elsewhere w)).
Proof.
  intros Hw Hl. destruct (lookup_live _ _ _ _ _ _ Hw Hl) as (ob & _ & Hob & _).
  destruct Hw as [Hch Hpos Hu Ho Hfq Hfo Hf]. split; try done. intros o'. rewrite Ho. unfold open_count.
  cbn [files elsewhere set_current List.filter]. destruct (Z.eqb_spec o' o) as [->|]; [|done]. cbn [length].
  assert (Hc : (0 < open_count w o)%nat) by (destruct (proj1 (Ho o)); [by eexists|done|done]). unfold open_count in Hc.
  split; intros [?|?]; left; lia || done.
Qed.

Lemma namespaces_wf w names l :
  mq_wf w -> (forall ns, ns ∈ mqueues w :: namespaces w -> ns ∈ names :: l) ->
  (forall ns, ns ∈ names :: l -> ns ∈ mqueues w :: namespaces w \/ ns = ∅) -> mq_wf (set_namespaces w names l).
Proof.
  intros [Hch Hpos Hu Ho Hfq Hfo Hf] H1 H2. split; try done. intros q. cbn [handles set_namespaces].
  rewrite Hu, !queue_used_spec. cbn [objects set_namespaces]. split.
  - intros [[(ns & n & e & Hns & He)|?]|?]; [|auto|done]. left. left. exists ns, n, e. split; [by apply H1|done].
  - intros [[(ns & n & e & Hns & Hl & He)|?]|?]; [|auto|done]. left. left.
    destruct (H2 ns Hns) as [?| ->]; [by exists ns, n, e|]. by apply lookup_empty_Some in Hl.
Qed.

Lemma enter_namespace_wf w names l1 l2 :
  mq_wf w -> namespaces w = l1 ++ names :: l2 -> mq_wf (set_namespaces w names (l1 ++ mqueues w :: l2)).
Proof. intros Hw E. apply namespaces_wf; [done|rewrite E; set_solver..]. Qed.

Lemma new_namespace_wf w : mq_wf w -> mq_wf (set_namespaces w (mqueues w) (∅ :: namespaces w)).
Proof. intros Hw. apply namespaces_wf; [done|set_solver..]. Qed.

Lemma forget_elsewhere_wf w names name e l1 l2 :
  mq_wf w -> namespaces w = l1 ++ names :: l2 -> names !! name = Some e ->
  mq_wf (drop_queue (set_namespaces w (mqueues w) (l1 ++ delete name names :: l2)) (e_queue e)).
Proof.
  intros Hw E Hl. eapply (forget_wf w _ names name); try done; cbn [mqueues namespaces set_namespaces]; rewrite ?E; set_solver.
Qed.

Lemma mq_run_wf w w' : mq_run w w' -> mq_wf w -> mq_wf w'.
Proof.
  induction 1; intros Hw; eauto using mq_open_wf, mq_unlink_wf, close_fd_wf, dup_fd_wf, mq_notify_wf, mq_getsetattr_wf,
    read_line_wf, fork_wf, drop_elsewhere_wf, hold_wf, deliver_wf, enter_namespace_wf, new_namespace_wf, forget_elsewhere_wf.
  1-2: by eapply with_queue_wf.
  rename select (forall o, _ = _) into Hc.
  apply set_umem_wf. destruct Hw as [Hch Hpos Hu Hop Hfq Hfo Hwf]. split; try done. intros o. by rewrite Hc.
Qed.

(** A whole call is a run, when what the rest of the system does while it
    waits is. *)
Lemma run_umem w m : files_wf (files w) -> mq_run w (set_umem w m).
Proof. intros Hf. assert (E : w = set_current w (files w) (elsewhere w)) by by destruct w. rewrite E at 2. by apply run_switch. Qed.

Lemma retry_run {A} fuel env (attempt : MqQueue -> Result A * MqQueue) o deadline i w r w' :
  (forall i w, mq_run w (others env i w)) ->
  (forall w a w', with_queue w o attempt = Some (Ok a, w') -> mq_run w w') ->
  retry fuel env attempt o deadline i w = Some (r, w') -> mq_run w w'.
Proof.
  intros Henv Ha. revert i w. induction fuel as [|fuel IH]; intros i w; [done|]. cbn [retry].
  destruct (objects w !! o) as [ob|] eqn:Hob; [|done]. cbn.
  destruct (handles w !! o_queue ob) as [h|] eqn:Hh; [|done]. cbn.
  destruct (attempt (inner h)) as [[a|e] q] eqn:Hat.
  - intros [= <- <-]. apply (Ha w a). unfold with_queue. rewrite Hob. cbn. rewrite Hh. cbn. by rewrite Hat.
  - destruct (e =? Errno.EAGAIN); [|intros [= <- <-]; apply run_refl].
    destruct (wait_step env i ob deadline); [intros [= <- <-]; apply run_refl|]. intros Hr.
    eapply run_trans; [apply Henv|by eapply IH].
Qed.

Lemma mq_timedsend_run fuel env cur w mqd m n p t r w' :
  (forall i w, mq_run w (others env i w)) -> mq_timedsend fuel env cur w mqd m n p t = Some (r, w') -> mq_run w w'.
Proof.
  intros Henv. unfold mq_timedsend, send_common. pose proof run_refl as Hrefl.
  destruct (read_deadline _ _) as [deadline|]; [|by intros [= _ <-]]. destruct (_ <=? p); [by intros [= _ <-]|].
  destruct (lookup _ _ _ _ _) as [o|]; [|by intros [= _ <-]]. destruct (queue_of w o); [|done]. cbn.
  destruct (_ <? _); [by intros [= _ <-]|]. destruct (copy_from_user _ _ _) as [buf|]; [|by intros [= _ <-]].
  destruct (retry _ _ _ _ _ _ _) as [[x v]|] eqn:Hr; [|done]. cbn.
  apply retry_run in Hr; [|done|intros ???; apply run_try_send].
  destruct x as [[k|]|e]; intros [= _ <-]; [|done|done]. eapply run_trans; [exact Hr|apply run_deliver].
Qed.

Lemma mq_timedreceive_run fuel env cur w mqd m n p t r w' :
  mq_wf w -> (forall i w, mq_run w (others env i w)) ->
  mq_timedreceive fuel env cur w mqd m n p t = Some (r, w') -> mq_run w w'.
Proof.
  intros Hw Henv. unfold mq_timedreceive, receive_common. pose proof run_refl as Hrefl.
  destruct (read_deadline _ _) as [deadline|]; [|by intros [= _ <-]].
  destruct (lookup _ _ _ _ _) as [o|]; [|by intros [= _ <-]]. destruct (queue_of w o); [|done]. cbn.
  destruct (_ <? _); [by intros [= _ <-]|]. destruct (retry _ _ _ _ _ _ _) as [[x v]|] eqn:Hr; [|done]. cbn.
  apply retry_run in Hr; [|done|intros ???; apply run_try_receive].
  assert (Hm : forall m', mq_run w (set_umem v m')).
  { intros m'. eapply run_trans; [exact Hr|]. apply run_umem. by apply (mq_run_wf w v Hr Hw). }
  destruct x as [[d pr]|e]; [|by intros [= _ <-]].
  destruct (if p =? 0 then _ else _) as [[] m1]; cbn; [|by intros [= _ <-]].
  destruct (copy_to_user m1 m d) as [[] m2]; cbn; by intros [= _ <-].
Qed.

(** The system before the first [mq_open]. *)
Definition booted (w : World) : Prop :=
  handles w = ∅ /\ objects w = ∅ /\ mqueues w = ∅ /\ namespaces w = [] /\ bytes_used w = ∅ /\ files_wf (files w) /\
  forall o, open_count w o = 0%nat.

Lemma booted_wf w : booted w -> mq_wf w.
Proof.
  intros (Hh & Ho & Hm & Hn & Hb & Hf & Hc). split; rewrite ?Hh, ?Ho, ?Hb; try done.
  - intros q. rewrite lookup_empty, queue_used_spec, Ho. unfold named. rewrite Hm, Hn. split; [by intros []|].
    intros [[(? & ? & ? & ->%list_elem_of_singleton & ?%lookup_empty_Some & _)|(? & ? & ?%lookup_empty_Some & _)]|?]; done.
  - intros o. rewrite lookup_empty, Hc. split; [by intros []|]. intros [?|?]; [lia|done].
  - intros q. rewrite lookup_empty. by intros [].
  - intros q. rewrite lookup_empty. by intros [].
Qed.

Definition reachable (w : World) : Prop := exists w0, booted w0 /\ mq_run w0 w.

Lemma reachable_wf w : reachable w -> mq_wf w.
Proof. intros (w0 & Hb & Hr). eapply mq_run_wf; [done|by apply booted_wf]. Qed.

Lemma queue_of_live w o : mq_wf w -> is_Some (objects w !! o) -> is_Some (queue_of w o).
Proof.
  intros Hw [ob Hob]. unfold queue_of. rewrite Hob. cbn.
  assert (Hq : is_Some (handles w !! o_queue ob)) by (apply Hw; left; apply queue_used_spec; eauto).
  destruct Hq as [h ->]. by eexists.
Qed.

(** C15. In every run from the start, with any number of processes and IPC
    namespaces, calls that wait interleaving with everything else, and
    descriptors closed while calls wait: a user is charged exactly for the
    queues that are live and that they created; a queue is live exactly while
    it has a name in some namespace or an open description; and a description
    is live exactly while a descriptor or a call in progress refers to it. The
    source counts references; [drop_queue] and [drop_object], which stand for
    dropping one, look for those that are left. What the last two parts show
    is that every operation drops where a reference goes, and nowhere else;
    the first part, that charges follow. *)
Theorem mq_accounting w :
  reachable w ->
  (forall uid, charged (bytes_used w) uid = total uid (handles w)) /\
  (forall q, is_Some (handles w !! q) <->
     (exists names name e, names ∈ mqueues w :: namespaces w /\ names !! name = Some e /\ e_queue e = q) \/
     (exists o ob, objects w !! o = Some ob /\ o_queue ob = q)) /\
  (forall o, is_Some (objects w !! o) <-> (0 < open_count w o)%nat).
Proof.
  intros Hw%reachable_wf. split_and!.
  - apply Hw.
  - intros q. change (exists names name e, _) with (named w q). rewrite <- queue_used_spec, (wf_used _ _ _ Hw q). naive_solver.
  - intros o. rewrite (wf_open _ _ _ Hw o). naive_solver.
Qed.

(** Unlinking a name takes it away from later opens and from nobody else:
    every open descriptor keeps its description, its queue and the messages in
    it. *)
Theorem mq_unlink_keeps_open cur w name_ptr name r w' :
  reachable w -> read_name (umem w) name_ptr = Ok name -> mq_unlink cur w name_ptr = (r, w') -> r = 0 ->
  mqueues w' = delete name (mqueues w) /\ files w' = files w /\ objects w' = objects w /\
  forall o, is_Some (objects w !! o) -> is_Some (queue_of w o) /\ queue_of w' o = queue_of w o.
Proof.
  intros Hw%reachable_wf Hn. unfold mq_unlink. rewrite Hn. destruct cur; [|by intros [= <- <-]].
  destruct (mqueues w !! name) as [e|]; [|by intros [= <- <-]]. intros [= <- <-] _.
  set (v := mkWorld _ _ _ _ _ _ _ _ _ _).
  assert (Hs : mqueues (drop_queue v (e_queue e)) = delete name (mqueues w) /\
               files (drop_queue v (e_queue e)) = files w /\ objects (drop_queue v (e_queue e)) = objects w).
  { unfold drop_queue. destruct (queue_used v _); [done|]. by destruct (handles v !! _). }
  destruct Hs as (-> & -> & Ho). split_and!; [done..|]. intros o Hl. split; [by apply queue_of_live|].
  destruct Hl as [ob Hob]. unfold queue_of. rewrite Ho, Hob. cbn. f_equal.
  unfold drop_queue. destruct (queue_used v (e_queue e)) eqn:Hu; [done|].
  change (handles v) with (handles w). destruct (handles w !! e_queue e) as [h|]; [|done]. cbn [handles].
  rewrite lookup_delete_ne; [done|]. intros Heq. apply not_true_iff_false in Hu. apply Hu, queue_used_spec.
  right. by exists o, ob.
Qed.

(** What a successful [mq_open] leaves behind. *)
Definition opened (p : Process) (w w' : World) (name : list Z) (oflag fd : Z) : Prop :=
  exists o e,
    mqueues w' !! name = Some e /\
    fd_get (files w) fd = None /\ fd_get (files w') fd = Some (Mqueue o) /\
    objects w !! o = None /\ objects w' = <[o := new_object e oflag]> (objects w) /\
    ((mqueues w' = mqueues w /\ handles w' = handles w /\ bytes_used w' = bytes_used w) \/
     (exists attr c,
        mqueues w' = <[name := e]> (mqueues w) /\ mqueues w !! name = None /\
        handles w !! e_queue e = None /\
        handles w' = <[e_queue e := handle_new attr (p_euid p) c]> (handles w) /\
        c = mq_maxmsg attr * (mq_msgsize attr + MQ_MSG_OVERHEAD) /\
        charged (bytes_used w') (p_euid p) = charged (bytes_used w) (p_euid p) + c /\
        charged (bytes_used w') (p_euid p) <= msgqueue_limit p)).

Lemma open_entry_spec w e oflag fd w' :
  mq_wf w -> open_entry w e oflag = (fd, w') ->
  let o := next_id w in
  fd_get (files w) fd = None /\ fd_get (files w') fd = Some (Mqueue o) /\ objects w !! o = None /\
  objects w' = <[o := new_object e oflag]> (objects w) /\
  mqueues w' = mqueues w /\ handles w' = handles w /\ bytes_used w' = bytes_used w.
Proof.
  intros Hw. unfold open_entry. destruct (install_fd (files w) (next_id w)) as [n f] eqn:Hi.
  destruct (install_fd_spec _ _ _ _ (wf_files _ _ _ Hw) Hi) as (_ & Hnone & Hsome & _).
  intros [= <- <-]. cbn. split_and!; try done.
  destruct (objects w !! next_id w) eqn:Ho; [|done].
  assert (next_id w < next_id w) by (apply (wf_fresh_o _ _ _ Hw); eauto). lia.
Qed.

Lemma charge_msgbytes_ok b uid c limit b' :
  charge_msgbytes b uid c limit = Ok b' -> charged b' uid = charged b uid + c /\ charged b' uid <= limit.
Proof.
  unfold charge_msgbytes, checked_add. destruct (M64 <=? _); [done|]. destruct (Z.ltb_spec limit (charged b uid + c)); [done|].
  intros [= <-]. enough (charged (<[uid := charged b uid + c]> b) uid = charged b uid + c) by lia.
  unfold charged at 1. by rewrite lookup_insert_eq.
Qed.

Lemma mq_create_outcome p w name oflag mode attr r w' :
  mq_wf w -> mqueues w !! name = None -> mq_create p w name oflag mode attr = (r, w') ->
  (exists e, r = Errno.ret e /\ w' = w) \/ opened p w w' name oflag r.
Proof.
  intros Hw Hname. unfold mq_create. destruct (_ =? 0); [intros [= <- <-]; eauto|]. set (a := default _ _).
  destruct (_ || _) eqn:Hbad; [intros [= <- <-]; eauto|].
  destruct (message_bytes a) as [c|] eqn:Hc; [|intros [= <- <-]; eauto].
  destruct (_ && _); [intros [= <- <-]; eauto|].
  destruct (charge_msgbytes _ _ _ _) as [b|] eqn:Hb; [|intros [= <- <-]; eauto].
  apply message_bytes_pos in Hc as [Hc Hpos];
    [|unfold HARD_MSGMAX, DFLT_MSGMAX in *; destruct (privileged p); lia
     |unfold HARD_MSGSIZEMAX, DFLT_MSGSIZEMAX in *; destruct (privileged p); lia].
  set (e := mkEntry _ _ _ _). intros Ho. apply open_entry_spec in Ho; [|by eapply create_wf].
  cbn [next_id files objects mqueues handles bytes_used] in Ho. destruct Ho as (? & ? & ? & ? & Hm & Hh & Hbu).
  right. eexists _, e. rewrite Hm, Hh, Hbu, lookup_insert_eq. split_and!; try done. right. exists a, c.
  destruct (charge_msgbytes_ok _ _ _ _ _ Hb). destruct (fresh_not_used w Hw). by split_and!.
Qed.

(** [mq_open] either fails and changes nothing, or returns a descriptor
    that was free and now refers to a fresh description of the queue that has
    the name; when it created the queue, the queue is new and empty and the
    user's total charge grew by its size and stays within the limit. *)
Theorem mq_open_outcome p w name_ptr oflag mode attr_ptr r w' :
  reachable w -> mq_open (Some p) w name_ptr oflag mode attr_ptr = (r, w') ->
  (exists e, r = Errno.ret e /\ w' = w) \/
  (exists name, read_name (umem w) name_ptr = Ok name /\ opened p w w' name oflag r).
Proof.
  intros Hw%reachable_wf. unfold mq_open.
  destruct (copy_mq_attr_from_user _ _) as [attr|]; [|intros [= <- <-]; eauto].
  destruct (read_name _ _) as [name|]; [|intros [= <- <-]; eauto].
  destruct (_ =? 3); [intros [= <- <-]; eauto|]. destruct (mqueues w !! name) as [e|] eqn:Hl.
  - destruct (_ && _); [intros [= <- <-]; eauto|]. destruct (negb _); [intros [= <- <-]; eauto|].
    intros (? & ? & ? & ? & Hm & Hh & Hbu)%open_entry_spec; [|done]. right. exists name. split; [done|].
    eexists _, e. rewrite Hm. split_and!; try done. by left.
  - intros [?|?]%mq_create_outcome; [by left| |done|done]. right. eauto.
Qed.

Lemma send_ok q buf p x q' :
  MqQueue.send q buf p = (Ok x, q') ->
  MqQueue.is_full q = false /\ msgs q' = MqQueue.insert_msg (msgs q) (mkMsg buf p).
Proof.
  unfold MqQueue.send. destruct (_ <=? p); [done|]. destruct (_ <? _); [done|].
  destruct (MqQueue.is_full q); [done|]. by destruct (_ =? _)%nat; intros [= <- <-].
Qed.

Lemma send_err q buf p e q' : MqQueue.send q buf p = (Err e, q') -> Errno.ret e <> 0.
Proof.
  unfold MqQueue.send. destruct (_ <=? p); [by intros [= <- <-]|]. destruct (_ <? _); [by intros [= <- <-]|].
  destruct (MqQueue.is_full q); [by intros [= <- <-]|]. by destruct (_ =? _)%nat.
Qed.

Lemma wait_step_err env i ob d c : wait_step env i ob d = Some c -> c <> 0.
Proof.
  unfold wait_step. destruct (negb _); [by intros [= <-]|]. destruct (signal env i); [by intros [= <-]|].
  destruct d; [|done]. case_match; [by intros [= <-]|done].
Qed.

Lemma deliver_queue_of w n o : queue_of (deliver w n) o = queue_of w o.
Proof. unfold deliver. destruct (_ || _); [done|]. destruct (64 <=? _); [done|]. by case_match. Qed.

Lemma set_inner_queue_of v o ob h q :
  objects v !! o = Some ob -> handles v !! o_queue ob = Some h ->
  queue_of v o = Some (inner h) /\ queue_of (set_inner v (o_queue ob) h q) o = Some q.
Proof.
  intros Hob Hh. unfold queue_of. cbn [objects handles set_inner set_handle]. rewrite Hob. cbn.
  by rewrite Hh, lookup_insert_eq.
Qed.

(** C31. A timed send returns: by the first check at or after its deadline,
    whatever the rest of the system does meanwhile, it has an answer. It either
    put the message, once, into a queue that had room, behind the messages of
    its priority; or it failed, and then no queue holds it: the state is the
    one the rest of the system left. *)
Theorem mq_timedsend_ends k env cur w mqd msg_ptr msg_len p timeout_ptr d o :
  reachable w -> env_ok o env ->
  read_deadline (umem w) timeout_ptr = Ok (Some d) -> d <= now env k -> lookup cur w mqd false true = Ok o ->
  exists r w' j, (j <= k)%nat /\
    mq_timedsend (S k) env cur w mqd msg_ptr msg_len p timeout_ptr = Some (r, w') /\ mq_wf w' /\
    let v := world_at env 0 j w in
    ((exists buf q q', r = 0 /\ copy_from_user (umem w) msg_ptr msg_len = Some buf /\
        queue_of v o = Some q /\ MqQueue.is_full q = false /\ queue_of w' o = Some q' /\
        msgs q' = MqQueue.insert_msg (msgs q) (mkMsg buf p)) \/
     (r <> 0 /\ w' = v)).
Proof.
  intros Hw%reachable_wf Henv Hdl Hd Hlk. unfold mq_timedsend, send_common. rewrite Hdl, Hlk.
  destruct (lookup_live _ _ _ _ _ _ Hw Hlk) as (ob & h & Hob & Hh & Hq). rewrite Hq. cbn [mbind option_bind].
  assert (Hearly : forall e, e <> 0 -> exists r w' j, (j <= k)%nat /\ Some (e, w) = Some (r, w') /\ mq_wf w' /\
    ((exists buf q q', r = 0 /\ copy_from_user (umem w) msg_ptr msg_len = Some buf /\
        queue_of (world_at env 0 j w) o = Some q /\ MqQueue.is_full q = false /\ queue_of w' o = Some q' /\
        msgs q' = MqQueue.insert_msg (msgs q) (mkMsg buf p)) \/ (r <> 0 /\ w' = world_at env 0 j w)))
    by (intros e He; exists e, w, 0%nat; split_and!; [lia|done|done|by right]).
  destruct (_ <=? p); [by apply Hearly|]. destruct (_ <? _); [by apply Hearly|].
  destruct (copy_from_user (umem w) msg_ptr msg_len) as [buf|] eqn:Hbuf; [|by apply Hearly].
  destruct (retry_returns k env (fun q => MqQueue.send q buf p) o d 0 w Henv Hw ltac:(eauto) Hd) as [[x v] Hr].
  rewrite Hr. cbn [mbind option_bind]. apply retry_spec in Hr as (j & Hj & (ob' & h' & Hob' & Hh' & Hx) & Hv); [|done|done].
  destruct x as [n|c].
  - destruct Hx as [Ha ->]. destruct (MqQueue.send (inner h') buf p) as [? q'] eqn:Hs. cbn in Ha. subst.
    apply send_ok in Hs as [Hfull Hm]. destruct (set_inner_queue_of _ o ob' h' q' Hob' Hh') as [Hq1 Hq2].
    cbn [snd] in *. destruct n as [n|]; (eexists 0, _, j; split_and!; [lia|done| |]).
    + by apply deliver_wf.
    + left. exists buf, (inner h'), q'. by rewrite deliver_queue_of.
    + done.
    + left. by exists buf, (inner h'), q'.
  - destruct Hx as [-> Hx]. exists c, (world_at env 0 j w), j. split_and!; [lia|done|done|]. right. split; [|done].
    destruct Hx as [[_ Hws]|(e & He & _ & ->)]; [by eapply wait_step_err|].
    destruct (MqQueue.send (inner h') buf p) eqn:Hs. cbn in He. subst. by eapply send_err.
Qed.

(** ** A concrete run *)

(** A page with the name [q], the attributes of a queue of one message of eight
    bytes, and a time of 25 nanoseconds. *)
Definition demo_page : UserMem :=
  (copy_to_user
     (copy_to_user
        (copy_to_user (list_to_map ((fun i => (4096 + Z.of_nat i, 0)) <$> seq 0 1024)) 4096 [113]).2
        4608 (attr_bytes (mkAttr 0 1 8 0 [0; 0; 0; 0]))).2
     4800 (le_bytes 8 0 ++ le_bytes 8 25)).2.

Definition demo_proc : Process := mkProcess 7 0 0 0 18 (-1).

(** Nothing else runs; the clock ticks ten nanoseconds a check. *)
Definition demo_env : Env := mkEnv (fun _ w => w) (fun _ => false) (fun i => 10 * Z.of_nat i).

Definition demo0 : World := mkWorld ∅ ∅ ∅ ∅ (mkFiles [Some (File 1 0)] [0]) [] ∅ 0 demo_page [].
Definition demo1 : World := (mq_open (Some demo_proc) demo0 4096 66 384 4608).2.
Definition demo2 : World :=
  match mq_timedsend 1 demo_env (Some demo_proc) demo1 1 4096 8 5 0 with Some (_, w) => w | None => demo1 end.

Lemma demo0_reachable : reachable demo0.
Proof.
  exists demo0. split; [|apply run_refl]. unfold booted. split_and!; [done..| |done]. unfold files_wf. cbn. lia.
Qed.

Lemma reachable_run w w' : reachable w -> mq_run w w' -> reachable w'.
Proof. intros (w0 & Hb & Hr) H. exists w0. split; [done|]. by eapply run_trans. Qed.

Lemma demo1_reachable : reachable demo1.
Proof. eapply reachable_run; [apply demo0_reachable|apply run_open]. Qed.

Lemma demo2_reachable : reachable demo2.
Proof.
  eapply reachable_run; [apply demo1_reachable|].
  destruct (mq_timedsend 1 demo_env (Some demo_proc) demo1 1 4096 8 5 0) as [[r w]|] eqn:Hs.
  - unfold demo2. rewrite Hs. eapply (mq_timedsend_run 1 demo_env); [|exact Hs]. intros i v. apply run_refl.
  - unfold demo2. rewrite Hs. apply run_refl.
Qed.

Lemma demo_env_ok o : env_ok o demo_env.
Proof. by intros i w Hw Ho. Qed.

Lemma mq_accounting_witness :
  charged (bytes_used demo1) 0 = total 0 (handles demo1) /\ 0 < charged (bytes_used demo1) 0.
Proof.
  destruct (mq_accounting demo1 demo1_reachable) as [H _]. split; [exact (H 0)|vm_compute; reflexivity].
Defined.

Lemma mq_unlink_keeps_open_witness :
  queue_of (mq_unlink (Some demo_proc) demo2 4096).2 1 = queue_of demo2 1 /\
  option_map (fun q => length (msgs q)) (queue_of demo2 1) = Some 1%nat.
Proof.
  split; [|vm_compute; reflexivity].
  destruct (mq_unlink_keeps_open (Some demo_proc) demo2 4096 [113] 0 (mq_unlink (Some demo_proc) demo2 4096).2
              demo2_reachable) as (_ & _ & _ & H).
  - vm_compute. reflexivity.
  - vm_compute. reflexivity.
  - reflexivity.
  - apply H. destruct (objects demo2 !! 1) eqn:Ho; [eexists; reflexivity|]. vm_compute in Ho. discriminate Ho.
Defined.

Lemma mq_open_outcome_witness :
  exists name, read_name (umem demo0) 4096 = Ok name /\ opened demo_proc demo0 demo1 name 66 1.
Proof.
  destruct (mq_open_outcome demo_proc demo0 4096 66 384 4608 1 demo1 demo0_reachable) as [(e & He & Hw)|H].
  - vm_compute. reflexivity.
  - exfalso. apply (f_equal next_id) in Hw. vm_compute in Hw. discriminate Hw.
  - exact H.
Defined.

(** The queue is full: the call gives up at the check that sees the deadline. *)
Lemma mq_timedsend_ends_witness :
  exists r w' j, (j <= 3)%nat /\
    mq_timedsend 4 demo_env (Some demo_proc) demo2 1 4096 8 5 4800 = Some (r, w') /\ mq_wf w' /\
    r = Errno.ret Errno.ETIMEDOUT.
Proof.
  destruct (mq_timedsend_ends 3 demo_env (Some demo_proc) demo2 1 4096 8 5 4800 25 1 demo2_reachable
              (demo_env_ok 1)) as (r & w' & j & Hj & Hr & Hw & _).
  - vm_compute. reflexivity.
  - cbn. lia.
  - vm_compute. reflexivity.
  - exists r, w', j. split; [exact Hj|]. split; [exact Hr|]. split; [exact Hw|].
    apply (f_equal (option_map fst)) in Hr. vm_compute in Hr. injection Hr as <-. vm_compute. reflexivity.
Defined.
