(* ===== verification/Vma.v ===== *)
(** * Address spaces

    Model of the list of mapped regions of a process ([Vma] and its operations
    in [kernel/src/task/process.rs]) and of the system calls on it in
    [kernel/src/syscalls/fs_io.rs]: brk, mmap, munmap, mprotect, msync, mincore
    and mremap, for the current process. Addresses are 64-bit words and sums
    wrap around. The page table is a map from page addresses to frames; that
    the hardware table cannot be extended is a parameter. *)

From stdpp Require Import strings.
From S2P Require Import Prelude UserAccess.

Definition PAGE_SIZE : Z := 4096.
Definition MAX_ADDR : Z := 0x700000000000.

(** The page table bits the calls use. *)
Record PageFlags := mkFlags { PRESENT : bool; WRITABLE : bool; USER_ACCESSIBLE : bool; NO_EXECUTE : bool }.

#[export] Instance PageFlags_eq_dec : EqDecision PageFlags.
Proof. solve_decision. Defined.

Record Vma := mkVma {
  start : Z;
  end_ : Z;
  flags : PageFlags;
  name : string;
  file_handle : option Z;
  file_offset : Z;
  is_shared : bool;
  shm_id : option Z;
}.

Definition set_start (v : Vma) (a : Z) : Vma :=
  mkVma a (end_ v) (flags v) (name v) (file_handle v) (file_offset v) (is_shared v) (shm_id v).
Definition set_end (v : Vma) (a : Z) : Vma :=
  mkVma (start v) a (flags v) (name v) (file_handle v) (file_offset v) (is_shared v) (shm_id v).
Definition set_flags (v : Vma) (f : PageFlags) : Vma :=
  mkVma (start v) (end_ v) f (name v) (file_handle v) (file_offset v) (is_shared v) (shm_id v).

(** [x & !4095] and [(x + 4095) & !4095]. *)
Definition page_down (x : Z) : Z := Z.land x (not64 (PAGE_SIZE - 1)).
Definition page_up (x : Z) : Z := page_down (u64 (x + PAGE_SIZE - 1)).

Definition saturating_add (x y : Z) : Z := Z.min (x + y) (M64 - 1).

(** How a call ends: a value, a panic, or not within the fuel. *)
Inductive Run (A : Type) := Ret (a : A) | Panic | NoFuel.
Arguments Ret {A} a.
Arguments Panic {A}.
Arguments NoFuel {A}.

(** ** The list of regions *)

(** The end of the first region that [candidate, candidate + len) meets. *)
Fixpoint conflict (vmas : list Vma) (candidate len : Z) : option Z :=
  match vmas with
  | [] => None
  | v :: l =>
      if (candidate <? end_ v) && (start v <? u64 (candidate + len))
      then Some (Z.max (end_ v) candidate) else conflict l candidate len
  end.

Fixpoint find_free_vma_region (fuel : nat) (vmas : list Vma) (candidate len max_addr : Z)
    : Run (option Z) :=
  match fuel with
  | O => NoFuel
  | S fuel =>
      if saturating_add candidate len <=? max_addr then
        match conflict vmas candidate len with
        | None => Ret (Some candidate)
        | Some e => find_free_vma_region fuel vmas (page_up e) len max_addr
        end
      else Ret None
  end.

(** [sort_by_key] is stable: an element goes after those with the same key. *)
Fixpoint insert_sorted (v : Vma) (l : list Vma) : list Vma :=
  match l with
  | [] => [v]
  | w :: l => if start v <? start w then v :: w :: l else w :: insert_sorted v l
  end.

Definition sort_by_start (l : list Vma) : list Vma := foldl (fun s v => insert_sorted v s) [] l.

Definition can_merge (v w : Vma) : bool :=
  bool_decide (flags v = flags w) && bool_decide (file_handle v = file_handle w) &&
  bool_decide (is_shared v = is_shared w) && bool_decide (shm_id v = shm_id w).

(** The loop, at an element and the ones after it. *)
Fixpoint merge_from (v : Vma) (l : list Vma) : list Vma :=
  match l with
  | [] => [v]
  | w :: l =>
      if can_merge v w && (start w <=? end_ v)
      then merge_from (set_end v (Z.max (end_ v) (end_ w))) l
      else v :: merge_from w l
  end.

Definition merge_vmas_inner (vmas : list Vma) : list Vma :=
  match vmas with [] => [] | v :: l => merge_from v l end.

Definition insert_vma_locked (vmas : list Vma) (v : Vma) : list Vma :=
  merge_vmas_inner (sort_by_start (vmas ++ [v])).

(** A region that loses its middle is split in two, and the scan stops. *)
Fixpoint remove_vma_range (vmas : list Vma) (s e : Z) : list Vma :=
  match vmas with
  | [] => []
  | v :: l =>
      if (end_ v <=? s) || (e <=? start v) then v :: remove_vma_range l s e
      else if (start v <? s) && (e <? end_ v) then set_end v s :: set_start v e :: l
      else if (s <=? start v) && (end_ v <=? e) then remove_vma_range l s e
      else if (start v <? s) && (end_ v <=? e) then set_end v s :: remove_vma_range l s e
      else set_start v e :: remove_vma_range l s e
  end.

Definition merge_all_vmas (vmas : list Vma) : list Vma :=
  match vmas with [] => [] | _ => merge_vmas_inner (sort_by_start vmas) end.

Definition contains (a : Z) (v : Vma) : bool := (start v <=? a) && (a <? end_ v).

Definition find_vma (vmas : list Vma) (addr : Z) : option Vma := List.find (contains addr) vmas.

(** ** System calls *)

(** The address space of the current process: [pages] is its page table,
    [released] the frames whose count a call has decremented. *)
Record Mem := mkMem { brk : Z; vmas : list Vma; pages : gmap Z Z; released : list Z }.

Definition set_vmas (m : Mem) (l : list Vma) : Mem := mkMem (brk m) l (pages m) (released m).
Definition set_brk (m : Mem) (b : Z) : Mem := mkMem b (vmas m) (pages m) (released m).
Definition set_pages (m : Mem) (p : gmap Z Z) (r : list Z) : Mem := mkMem (brk m) (vmas m) p r.

Definition sys_brk (m : Mem) (addr : Z) : Z * Mem :=
  if addr =? 0 then (brk m, m)
  else
    let m1 := if brk m <? addr
              then set_vmas m (insert_vma_locked (vmas m)
                     (mkVma (brk m) addr (mkFlags true true true false) "brk"%string None 0 false None))
              else m in
    (addr, set_brk m1 addr).

(** The protection bits of [mmap] and [mprotect]. *)
Definition prot_flags (prot : Z) : PageFlags :=
  mkFlags true (negb (Z.land prot 2 =? 0)) true (Z.land prot 4 =? 0).

(** [can_allocate] is the limit of the process's control group. *)
Definition sys_mmap (fuel : nat) (can_allocate : Z -> bool) (m : Mem)
    (addr len prot flags fd offset : Z) : Run (Z * Mem) :=
  let len := page_up len in
  if len =? 0 then Ret (Errno.ret Errno.EINVAL, m)
  else if negb (can_allocate len) then Ret (Errno.ret Errno.ENOMEM, m)
  else
    let hint := if addr =? 0 then Z.land (u64 (brk m + 0x10000000 - 1)) (not64 (0x10000000 - 1))
                else addr in
    match find_free_vma_region fuel (vmas m) hint len MAX_ADDR with
    | Panic => Panic
    | NoFuel => NoFuel
    | Ret None => Ret (Errno.ret Errno.ENOMEM, m)
    | Ret (Some a) =>
        Ret (a, set_vmas m (insert_vma_locked (vmas m)
                  (mkVma a (u64 (a + len)) (prot_flags prot) "mmap"%string
                     (if fd =? M64 - 1 then None else Some fd) offset
                     (negb (Z.land flags 2 =? 0)) None)))
    end.

Definition sys_munmap (m : Mem) (addr len : Z) : Z * Mem :=
  (0, set_vmas m (remove_vma_range (vmas m) addr (u64 (addr + len)))).

Definition sys_mprotect (m : Mem) (addr len prot : Z) : Z * Mem :=
  let aligned_end := page_up (u64 (addr + len)) in
  let aligned_addr := page_down addr in
  (0, set_vmas m ((fun v => if (start v <? aligned_end) && (aligned_addr <? end_ v)
                            then set_flags v (prot_flags prot) else v) <$> vmas m)).

Definition MS_ASYNC : Z := 1.
Definition MS_SYNC : Z := 2.
Definition MS_INVALIDATE : Z := 4.

(** The walk of [msync] and [mincore] from region to region: [stop] is an
    answer a region gives at once. *)
Fixpoint walk_range (fuel : nat) (stop : Vma -> option Z) (vmas : list Vma) (page end_addr : Z) : Run Z :=
  match fuel with
  | O => NoFuel
  | S fuel =>
      if page <? end_addr then
        match find_vma vmas page with
        | None => Ret (Errno.ret Errno.ENOMEM)
        | Some v =>
            match stop v with
            | Some e => Ret e
            | None => walk_range fuel stop vmas (end_ v) end_addr
            end
        end
      else Ret 0
  end.

Definition shared_file (v : Vma) : option Z :=
  if is_shared v && bool_decide (is_Some (file_handle v)) then Some (Errno.ret Errno.EOPNOTSUPP) else None.

Definition sys_msync (fuel : nat) (m : Mem) (addr len flags : Z) : Run Z :=
  if len =? 0 then Ret 0
  else if negb (Z.land addr (PAGE_SIZE - 1) =? 0) then Ret (Errno.ret Errno.EINVAL)
  else if negb (Z.land flags (Z.lnot (Z.lor (Z.lor MS_ASYNC MS_SYNC) MS_INVALIDATE)) =? 0) ||
          (negb (Z.land flags MS_ASYNC =? 0) && negb (Z.land flags MS_SYNC =? 0))
  then Ret (Errno.ret Errno.EINVAL)
  else walk_range fuel shared_file (vmas m) addr (u64 (addr + len)).

(** [VirtAddr::new] panics on an address that is not canonical. *)
Definition canonical (a : Z) : bool := (a <? 0x800000000000) || (0xFFFF800000000000 <=? a).

(** One byte a page: whether it is in the page table. *)
Fixpoint resident (n : nat) (pt : gmap Z Z) (a : Z) : Run (list Z) :=
  match n with
  | O => Ret []
  | S n =>
      if negb (canonical a) then Panic
      else match resident n pt (u64 (a + PAGE_SIZE)) with
           | Ret l => Ret ((if decide (is_Some (pt !! page_down a)) then 1 else 0) :: l)
           | r => r
           end
  end.

(** [mapper]: whether the page table can be reached. *)
Definition sys_mincore (fuel : nat) (mapper : bool) (m : Mem) (um : UserMem) (addr len vec : Z)
    : Run (Z * UserMem) :=
  if len =? 0 then Ret (0, um)
  else if negb (Z.land addr (PAGE_SIZE - 1) =? 0) then Ret (Errno.ret Errno.EINVAL, um)
  else if vec =? 0 then Ret (Errno.ret Errno.EFAULT, um)
  else
    let page_count := Z.to_nat (u64 (len + PAGE_SIZE - 1) / PAGE_SIZE) in
    match walk_range fuel (fun _ => None) (vmas m) addr (u64 (addr + len)) with
    | Panic => Panic
    | NoFuel => NoFuel
    | Ret e =>
        if negb (e =? 0) then Ret (e, um)
        else
          match (if mapper then resident page_count (pages m) addr else Ret (replicate page_count 0)) with
          | Panic => Panic
          | NoFuel => NoFuel
          | Ret l =>
              let '(ok, um') := copy_to_user um vec l in
              Ret (if ok : bool then 0 else Errno.ret Errno.EFAULT, um')
          end
    end.

(** ** [mremap] *)

Definition MREMAP_MAYMOVE : Z := 1.
Definition MREMAP_FIXED : Z := 2.

Definition find_start (vmas : list Vma) (a : Z) : option Vma := List.find (fun v => start v =? a) vmas.

(** Move the end of the first region that starts at [a]. *)
Fixpoint set_end_at (vmas : list Vma) (a e : Z) : list Vma :=
  match vmas with
  | [] => []
  | v :: l => if start v =? a then set_end v e :: l else v :: set_end_at l a e
  end.

(** Whether a region meets [s, e). *)
Definition meets (s e : Z) (v : Vma) : bool := (start v <? e) && (s <? end_ v).

(** Unmap the pages of a range that shrinks, releasing their frames. *)
Fixpoint unmap_pages (n : nat) (pt : gmap Z Z) (rel : list Z) (a : Z) : Run (gmap Z Z * list Z) :=
  match n with
  | O => Ret (pt, rel)
  | S n =>
      if negb (canonical a) then Panic
      else match pt !! page_down a with
           | Some frame => unmap_pages n (delete (page_down a) pt) (frame :: rel) (a + PAGE_SIZE)
           | None => unmap_pages n pt rel (a + PAGE_SIZE)
           end
  end.

(** [map_to]: fails on a page that is mapped, and on one whose table cannot be
    allocated. *)
Definition map_to (map_fail : Z -> bool) (pt : gmap Z Z) (page frame : Z) : option (gmap Z Z) :=
  if map_fail page || bool_decide (is_Some (pt !! page)) then None else Some (<[page := frame]> pt).

(** Undo the first [n] moves. *)
Fixpoint roll_back (n : nat) (map_fail : Z -> bool) (pt : gmap Z Z) (src dst : Z) : gmap Z Z :=
  match n with
  | O => pt
  | S n =>
      let s := page_down src in
      let d := page_down dst in
      let pt' := match pt !! d with
                 | Some moved => default (delete d pt) (map_to map_fail (delete d pt) s moved)
                 | None => pt
                 end in
      roll_back n map_fail pt' (src + PAGE_SIZE) (u64 (dst + PAGE_SIZE))
  end.

(** Move [n] pages after the [k] that were moved; the first component tells
    whether it succeeded. *)
Fixpoint move_pages (n k : nat) (map_fail : Z -> bool) (pt : gmap Z Z) (rel : list Z) (old dest : Z)
    : Run (bool * gmap Z Z * list Z) :=
  match n with
  | O => Ret (true, pt, rel)
  | S n =>
      let a := old + PAGE_SIZE * Z.of_nat k in
      let b := u64 (dest + PAGE_SIZE * Z.of_nat k) in
      if negb (canonical a) || negb (canonical b) then Panic
      else
        match pt !! page_down a with
        | None => move_pages n (S k) map_fail pt rel old dest
        | Some frame =>
            let pt1 := delete (page_down a) pt in
            match map_to map_fail pt1 (page_down b) frame with
            | Some pt2 => move_pages n (S k) map_fail pt2 rel old dest
            | None =>
                let '(pt2, rel') := match map_to map_fail pt1 (page_down a) frame with
                                    | Some pt2 => (pt2, rel)
                                    | None => (pt1, frame :: rel)
                                    end in
                Ret (false, roll_back k map_fail pt2 old dest, rel')
            end
        end
  end.

(** Where the region goes: an address, or an error. *)
Definition mremap_dest (fuel : nat) (vmas : list Vma) (fixed : bool) (old_end new_size new_address : Z)
    : Run (Z + Z) :=
  if fixed then
    if negb (Z.land new_address (PAGE_SIZE - 1) =? 0) then Ret (inr (Errno.ret Errno.EINVAL))
    else if existsb (meets new_address (u64 (new_address + new_size))) vmas
    then Ret (inr (Errno.ret Errno.EINVAL))
    else Ret (inl new_address)
  else
    match find_free_vma_region fuel vmas (if new_address =? 0 then old_end else new_address) new_size MAX_ADDR with
    | Panic => Panic
    | NoFuel => NoFuel
    | Ret (Some a) => Ret (inl a)
    | Ret None => Ret (inr (Errno.ret Errno.ENOMEM))
    end.

(** The move itself. *)
Definition mremap_move (fuel : nat) (mapper : bool) (map_fail : Z -> bool) (m : Mem) (v : Vma)
    (fixed : bool) (old_size new_size new_address : Z) : Run (Z * Mem) :=
  match mremap_dest fuel (vmas m) fixed (u64 (start v + old_size)) new_size new_address with
  | Panic => Panic
  | NoFuel => NoFuel
  | Ret (inr e) => Ret (e, m)
  | Ret (inl dest) =>
      if negb mapper then Ret (Errno.ret Errno.ENOMEM, m)
      else
        match move_pages (Z.to_nat (old_size / PAGE_SIZE)) 0 map_fail (pages m) (released m) (start v) dest with
        | Panic => Panic
        | NoFuel => NoFuel
        | Ret (false, pt, rel) => Ret (Errno.ret Errno.ENOMEM, set_pages m pt rel)
        | Ret (true, pt, rel) =>
            Ret (dest,
                 set_vmas (set_pages m pt rel)
                   (insert_vma_locked (List.filter (fun w => negb (start w =? start v)) (vmas m))
                      (mkVma dest (u64 (dest + new_size)) (flags v) (name v) (file_handle v)
                         (file_offset v) (is_shared v) (shm_id v))))
        end
  end.

(** The call once its region is known. *)
Definition mremap_resize (fuel : nat) (mapper : bool) (map_fail : Z -> bool) (m : Mem) (v : Vma)
    (fixed may_move : bool) (old_size new_size new_address : Z) : Run (Z * Mem) :=
  let old_end := u64 (start v + old_size) in
  let new_end := u64 (start v + new_size) in
  if (new_size =? old_size) && negb fixed then Ret (start v, m)
  else if new_size <? old_size then
    match (if mapper
           then unmap_pages (Z.to_nat ((old_end - new_end) / PAGE_SIZE)) (pages m) (released m) new_end
           else Ret (pages m, released m)) with
    | Panic => Panic
    | NoFuel => NoFuel
    | Ret (pt, rel) => Ret (start v, set_vmas (set_pages m pt rel) (set_end_at (vmas m) (start v) new_end))
    end
  else if (old_size <? new_size) &&
          negb ((MAX_ADDR <? new_end) || existsb (meets old_end new_end) (vmas m))
  then Ret (start v, set_vmas m (set_end_at (vmas m) (start v) new_end))
  else if (old_size <? new_size) && negb may_move then Ret (Errno.ret Errno.ENOMEM, m)
  else mremap_move fuel mapper map_fail m v fixed old_size new_size new_address.

Definition sys_mremap (fuel : nat) (mapper : bool) (map_fail : Z -> bool) (m : Mem)
    (old_address old_size new_size mflags new_address : Z) : Run (Z * Mem) :=
  if negb (Z.land old_address (PAGE_SIZE - 1) =? 0) then Ret (Errno.ret Errno.EINVAL, m)
  else if (old_size =? 0) || negb (Z.land old_size (PAGE_SIZE - 1) =? 0) then Ret (Errno.ret Errno.EINVAL, m)
  else if (new_size =? 0) || negb (Z.land new_size (PAGE_SIZE - 1) =? 0) then Ret (Errno.ret Errno.EINVAL, m)
  else if negb (Z.land mflags (Z.lnot (Z.lor MREMAP_MAYMOVE MREMAP_FIXED)) =? 0)
  then Ret (Errno.ret Errno.EINVAL, m)
  else
    let may_move := negb (Z.land mflags MREMAP_MAYMOVE =? 0) in
    let fixed := negb (Z.land mflags MREMAP_FIXED =? 0) in
    if fixed && negb may_move then Ret (Errno.ret Errno.EINVAL, m)
    else
      match find_start (vmas m) old_address with
      | None => Ret (Errno.ret Errno.EFAULT, m)
      | Some v =>
          if negb (u64 (end_ v - start v) =? old_size) then Ret (Errno.ret Errno.EINVAL, m)
          else mremap_resize fuel mapper map_fail m v fixed may_move old_size new_size new_address
      end.
