(* ===== verification/VmaSound.v ===== *)
(** * Address spaces: correctness

    The list of regions of [Vma] is an ordered list of disjoint intervals that
    represents a function from addresses to attributes; each system call
    changes that function the way it should, or the theorem says where it does
    not. *)

From stdpp Require Import strings.
From S2P Require Import Prelude UserAccess Vma.

(** Addresses above this wrap around when rounded up to a page. *)
Definition ADDR_TOP : Z := M64 - PAGE_SIZE.

Definition vma_ok (v : Vma) : Prop := 0 <= start v < end_ v /\ end_ v <= ADDR_TOP.

Definition below (v w : Vma) : Prop := end_ v <= start w.

(** Regions are non-empty, in order and disjoint. *)
Definition vmas_wf (l : list Vma) : Prop := Forall vma_ok l /\ StronglySorted below l.

(** What an address is mapped with. *)
Definition attrs (v : Vma) : PageFlags * option Z * bool * option Z :=
  (flags v, file_handle v, is_shared v, shm_id v).

Definition view (l : list Vma) (a : Z) := attrs <$> find_vma l a.

(** No region meets [s, e). *)
Definition free (l : list Vma) (s e : Z) : Prop := Forall (fun v => end_ v <= s \/ e <= start v) l.

(** ** Lists of regions *)

Definition maps (l : list Vma) (a : Z) x : Prop :=
  exists v, v ∈ l /\ start v <= a < end_ v /\ attrs v = x.

Lemma contains_spec a v : contains a v = true <-> start v <= a < end_ v.
Proof. unfold contains. rewrite andb_true_iff, Z.leb_le, Z.ltb_lt. done. Qed.

Lemma vmas_wf_cons v l : vmas_wf (v :: l) <-> vma_ok v /\ Forall (below v) l /\ vmas_wf l.
Proof.
  unfold vmas_wf. rewrite Forall_cons. split.
  - intros [[? ?] [? ?]%StronglySorted_inv]. done.
  - intros (? & ? & ? & ?). split; [done|]. by constructor.
Qed.

Lemma maps_nil a x : maps [] a x <-> False.
Proof. unfold maps. split; [|done]. by intros (v & ?%elem_of_nil & _). Qed.

Lemma maps_cons v l a x : maps (v :: l) a x <-> (start v <= a < end_ v /\ attrs v = x) \/ maps l a x.
Proof. unfold maps. setoid_rewrite elem_of_cons. naive_solver. Qed.

Lemma maps_bound l b a x : Forall (fun v => b <= start v) l -> maps l a x -> b <= a.
Proof. rewrite Forall_forall. intros Hb (v & Hv & ? & _). specialize (Hb v Hv). lia. Qed.

Lemma find_vma_sound l a v : find_vma l a = Some v -> v ∈ l /\ start v <= a < end_ v.
Proof. intros [? ?%contains_spec]%List.find_some. by rewrite list_elem_of_In. Qed.

Lemma find_vma_none l a v : find_vma l a = None -> v ∈ l -> ~ (start v <= a < end_ v).
Proof.
  intros Hn Hv%list_elem_of_In Hc. eapply List.find_none in Hn; [|exact Hv].
  apply contains_spec in Hc. congruence.
Qed.

Lemma below_bound v l : Forall (below v) l -> Forall (fun w => end_ v <= start w) l.
Proof. done. Qed.

Lemma vma_unique l a v w :
  vmas_wf l -> v ∈ l -> w ∈ l -> start v <= a < end_ v -> start w <= a < end_ w -> v = w.
Proof.
  induction l as [|u l IH]; [by intros _ ?%elem_of_nil|]. rewrite vmas_wf_cons, !elem_of_cons.
  intros (_ & Hb & Hl) [->|Hv] [->|Hw] ??; [done| | |by apply IH].
  - rewrite Forall_forall in Hb. specialize (Hb w Hw). unfold below in Hb. lia.
  - rewrite Forall_forall in Hb. specialize (Hb v Hv). unfold below in Hb. lia.
Qed.

Lemma maps_unique l a x y : vmas_wf l -> maps l a x -> maps l a y -> x = y.
Proof. intros Hl (v & Hv & ? & <-) (w & Hw & ? & <-). f_equal. by apply (vma_unique l a). Qed.

Lemma view_maps l a x : vmas_wf l -> view l a = Some x <-> maps l a x.
Proof.
  intros Hl. unfold view. rewrite fmap_Some. split.
  - intros (v & [? ?]%find_vma_sound & ->). by exists v.
  - intros Hm. destruct (find_vma l a) as [v|] eqn:Hf.
    + exists v. split; [done|]. apply find_vma_sound in Hf as [? ?].
      eapply maps_unique; [done|exact Hm|by exists v].
    + destruct Hm as (v & Hv & Hc & _). by eapply find_vma_none in Hf.
Qed.

(** Two lists that map the same have the same view. *)
Lemma view_ext l l' a a' :
  vmas_wf l -> vmas_wf l' -> (forall x, maps l a x <-> maps l' a' x) -> view l a = view l' a'.
Proof.
  intros Hl Hl' H. apply option_eq. intros x. rewrite !view_maps by done. apply H.
Qed.

Lemma view_none l a : vmas_wf l -> (forall x, ~ maps l a x) -> view l a = None.
Proof.
  intros Hl H. destruct (view l a) as [x|] eqn:Hv; [|done]. apply view_maps in Hv; [|done]. by edestruct H.
Qed.

(** ** Insertion and merging *)

Lemma sort_snoc l v : sort_by_start (l ++ [v]) = insert_sorted v (sort_by_start l).
Proof. unfold sort_by_start. by rewrite foldl_app. Qed.

Lemma insert_sorted_last v l : Forall (fun w => start w <= start v) l -> insert_sorted v l = l ++ [v].
Proof.
  induction 1 as [|w l Hw Hl IH]; [done|]. cbn. rewrite (proj2 (Z.ltb_ge _ _)) by lia. by rewrite IH.
Qed.

Lemma vmas_wf_snoc l v : vmas_wf (l ++ [v]) <-> vmas_wf l /\ vma_ok v /\ Forall (fun w => below w v) l.
Proof.
  induction l as [|w l IH].
  - cbn. rewrite vmas_wf_cons. unfold vmas_wf. split; [intros (? & ? & ?)|intros (? & ? & ?)]; split_and!; done || constructor.
  - change ((w :: l) ++ [v]) with (w :: (l ++ [v])). rewrite !vmas_wf_cons, IH, Forall_app, !Forall_cons.
    naive_solver.
Qed.

Lemma sort_wf_id l : vmas_wf l -> sort_by_start l = l.
Proof.
  induction l as [|v l IH] using rev_ind; [done|]. rewrite vmas_wf_snoc. intros (Hl & Hv & Hb).
  rewrite sort_snoc, IH by done. apply insert_sorted_last.
  destruct Hl as [Hok _]. rewrite Forall_forall in *. intros w Hw. specialize (Hok w Hw). specialize (Hb w Hw).
  unfold vma_ok, below in *. lia.
Qed.

Lemma insert_sorted_elem v l w : w ∈ insert_sorted v l <-> w = v \/ w ∈ l.
Proof.
  induction l as [|u l IH]; cbn; [by rewrite elem_of_cons|].
  case_match; rewrite !elem_of_cons; [done|]. rewrite IH. naive_solver.
Qed.

Lemma insert_sorted_wf v l :
  vmas_wf l -> vma_ok v -> free l (start v) (end_ v) -> vmas_wf (insert_sorted v l).
Proof.
  intros Hl Hv. induction l as [|w l IH]; cbn [insert_sorted]; intros Hf.
  - apply vmas_wf_cons. split_and!; [done|constructor|done].
  - pose proof Hl as Hl'. apply vmas_wf_cons in Hl as (Hw & Hb & Hl). apply Forall_cons in Hf as [Hd Hf].
    unfold vma_ok in Hv, Hw.
    destruct (Z.ltb_spec (start v) (start w)).
    + apply vmas_wf_cons. split_and!; [done| |done]. apply Forall_cons. split; [unfold below; lia|].
      eapply Forall_impl; [exact Hb|]. unfold below. intros u ?. lia.
    + apply vmas_wf_cons. split_and!; [done| |by apply IH]. apply Forall_forall.
      intros u [->|Hu]%insert_sorted_elem; [unfold below; lia|]. by eapply Forall_forall in Hb.
Qed.

Lemma can_merge_attrs v w : can_merge v w = true -> attrs v = attrs w.
Proof.
  unfold can_merge, attrs. rewrite !andb_true_iff, !bool_decide_eq_true. intros [[[-> ->] ->] ->]. done.
Qed.

Lemma merge_from_bound b v l :
  Forall (fun u => b <= start u) (v :: l) -> Forall (fun u => b <= start u) (merge_from v l).
Proof.
  revert v. induction l as [|w l IH]; intros v Hf; [done|]. cbn [merge_from].
  apply Forall_cons in Hf as [Hv Hf]. case_match.
  - apply IH. apply Forall_cons. apply Forall_cons in Hf as [_ Hf]. done.
  - apply Forall_cons. split; [done|]. by apply IH.
Qed.

Lemma merge_from_wf v l : vmas_wf (v :: l) -> vmas_wf (merge_from v l) /\ forall a x, maps (merge_from v l) a x <-> maps (v :: l) a x.
Proof.
  revert v. induction l as [|w l IH]; intros v Hwf; [done|]. cbn [merge_from].
  pose proof Hwf as Hwf'. apply vmas_wf_cons in Hwf as (Hv & [Hvw Hvl]%Forall_cons & Hwl).
  pose proof Hwl as Hwl'. apply vmas_wf_cons in Hwl as (Hw & Hb & Hl). unfold vma_ok, below in Hv, Hw, Hvw.
  destruct (can_merge v w && (start w <=? end_ v)) eqn:Hc.
  - apply andb_true_iff in Hc as [Hc%can_merge_attrs Hs%Z.leb_le].
    destruct (IH (set_end v (Z.max (end_ v) (end_ w)))) as [H1 H2].
    { apply vmas_wf_cons. split_and!; [unfold vma_ok; cbn; lia| |done].
      eapply Forall_impl; [exact Hb|]. unfold below. cbn. intros; lia. }
    split; [done|]. intros a x. rewrite H2, !maps_cons. change (attrs (set_end v _)) with (attrs v). cbn [start end_ set_end].
    rewrite <- Hc. split; [|naive_solver lia]. intros [[? ?]|?]; [|auto].
    destruct (decide (a < end_ v)); [left; split; [lia|done]|right; left; split; [lia|done]].
  - destruct (IH w Hwl') as [H1 H2]. split.
    + apply vmas_wf_cons. split_and!; [done| |done]. apply merge_from_bound. apply Forall_cons. done.
    + intros a x. rewrite !maps_cons, H2, maps_cons. done.
Qed.

Lemma insert_wf l v :
  vmas_wf l -> vma_ok v -> free l (start v) (end_ v) ->
  vmas_wf (insert_vma_locked l v) /\
  forall a x, maps (insert_vma_locked l v) a x <-> (start v <= a < end_ v /\ attrs v = x) \/ maps l a x.
Proof.
  intros Hl Hv Hf. unfold insert_vma_locked. rewrite sort_snoc, sort_wf_id by done.
  pose proof (insert_sorted_wf v l Hl Hv Hf) as Hs.
  assert (Hm : forall a x, maps (insert_sorted v l) a x <-> (start v <= a < end_ v /\ attrs v = x) \/ maps l a x).
  { intros a x. unfold maps. setoid_rewrite insert_sorted_elem. naive_solver. }
  destruct (insert_sorted v l) as [|w r] eqn:He; [split; [done|apply Hm]|].
  cbn [merge_vmas_inner]. destruct (merge_from_wf w r Hs) as [H1 H2]. split; [done|]. intros a x. by rewrite H2.
Qed.

(** ** Removal and protection *)

Lemma remove_bound b l s e :
  b <= e \/ free l s e -> Forall (fun u => b <= start u) l -> Forall (fun u => b <= start u) (remove_vma_range l s e).
Proof.
  induction l as [|v l IH]; intros Hbe Hf; [done|]. cbn [remove_vma_range]. apply Forall_cons in Hf as [Hv Hf].
  assert (Hbe' : b <= e \/ free l s e) by (destruct Hbe as [?|[_ ?]%Forall_cons]; auto).
  specialize (IH Hbe' Hf). destruct (_ || _) eqn:H1; [by apply Forall_cons|].
  assert (b <= e) by (destruct Hbe as [?|[? _]%Forall_cons]; [done|lia]).
  destruct (_ && _); [apply Forall_cons; split; [done|]; by apply Forall_cons|].
  destruct (_ && _); [done|]. destruct (_ && _); apply Forall_cons; cbn; done.
Qed.

Lemma cut_iff (P P' A M N : Prop) :
  (P' <-> P /\ N) -> ((P' /\ A) \/ (M /\ N) <-> ((P /\ A) \/ M) /\ N).
Proof. tauto. Qed.

Lemma remove_wf l s e :
  vmas_wf l -> s <= e ->
  vmas_wf (remove_vma_range l s e) /\
  forall a x, maps (remove_vma_range l s e) a x <-> maps l a x /\ ~ (s <= a < e).
Proof.
  intros Hl Hse. induction l as [|v l IH]; [split; [done|intros a x; cbn; rewrite maps_nil; tauto]|].
  apply vmas_wf_cons in Hl as (Hv & Hb & Hl). specialize (IH Hl) as [Hwf Hm].
  unfold vma_ok in Hv. cbn [remove_vma_range].
  assert (Hrest : Forall (below v) (remove_vma_range l s e)).
  { destruct (decide (end_ v <= e)); [apply remove_bound; auto|].
    apply remove_bound; [|done]. right. eapply Forall_impl; [exact Hb|]. unfold below. intros; right; lia. }
  destruct (_ || _) eqn:H1.
  { split; [by apply vmas_wf_cons|]. intros a x. rewrite !maps_cons, Hm. apply cut_iff. lia. }
  destruct ((start v <? s) && (e <? end_ v)) eqn:H2.
  { split.
    - rewrite !vmas_wf_cons. unfold vma_ok, below. cbn. split_and!; try lia; [|done|done].
      apply Forall_cons. split; [cbn; lia|]. eapply Forall_impl; [exact Hb|]. unfold below. cbn. intros; lia.
    - intros a x. rewrite !maps_cons. cbn [start end_ set_end set_start].
      change (attrs (set_end v s)) with (attrs v). change (attrs (set_start v e)) with (attrs v).
      assert (maps l a x -> ~ (s <= a < e)) by (intros Hx; pose proof (maps_bound _ _ _ _ (below_bound _ _ Hb) Hx); lia).
      assert (start v <= a < s \/ e <= a < end_ v <-> (start v <= a < end_ v) /\ ~ (s <= a < e)) by lia. tauto. }
  destruct ((s <=? start v) && (end_ v <=? e)) eqn:H3.
  { split; [done|]. intros a x. rewrite Hm, maps_cons.
    assert (start v <= a < end_ v -> s <= a < e) by lia. tauto. }
  destruct ((start v <? s) && (end_ v <=? e)) eqn:H4; (split; [|intros a x; rewrite !maps_cons, Hm; cbn [start end_ set_end set_start];
      (change (attrs (set_end v s)) with (attrs v) || change (attrs (set_start v e)) with (attrs v));
      apply cut_iff; lia]).
  - rewrite vmas_wf_cons. unfold vma_ok. cbn. split_and!; [lia..| |done].
    eapply Forall_impl; [exact Hrest|]. unfold below. cbn. intros; lia.
  - rewrite vmas_wf_cons. unfold vma_ok. cbn. split_and!; [lia..|exact Hrest|done].
Qed.

(** ** Rounding to pages *)

Lemma page_down_spec x : 0 <= x < M64 -> page_down x = x / PAGE_SIZE * PAGE_SIZE.
Proof.
  intros Hx. unfold page_down, PAGE_SIZE. change (4096 - 1) with (Z.ones 12). change 4096 with (2 ^ 12).
  rewrite <- Z.shiftl_mul_pow2, <- Z.shiftr_div_pow2 by lia.
  apply Z.bits_inj'. intros i Hi. rewrite Z.land_spec, not64_spec by done.
  destruct (decide (i < 12)).
  - rewrite Z.shiftl_spec_low by lia. rewrite Z.ones_spec_low by lia. by rewrite !andb_false_r.
  - rewrite Z.shiftl_spec, Z.shiftr_spec by lia. rewrite Z.ones_spec_high by lia. cbn [negb].
    rewrite andb_true_r. replace (i - 12 + 12) with i by lia. destruct (Z.ltb_spec i 64); [by rewrite andb_true_r|].
    rewrite andb_false_r. symmetry. apply Z.bits_above_log2; [lia|].
    destruct (decide (x = 0)) as [->|]; [cbn; lia|]. apply Z.log2_lt_pow2; [lia|].
    apply Z.lt_le_trans with (2 ^ 64); [lia|]. apply Z.pow_le_mono_r; lia.
Qed.

Lemma page_up_spec x :
  0 <= x <= ADDR_TOP -> x <= page_up x < x + PAGE_SIZE /\ page_up x mod PAGE_SIZE = 0.
Proof.
  unfold ADDR_TOP, page_up, PAGE_SIZE. intros Hx. unfold u64. rewrite Z.mod_small by lia.
  rewrite page_down_spec by lia. unfold PAGE_SIZE. split; [|by apply Z.mod_mul].
  pose proof (Z.div_mod (x + 4096 - 1) 4096 ltac:(lia)). pose proof (Z.mod_pos_bound (x + 4096 - 1) 4096 ltac:(lia)). lia.
Qed.

(** ** The search for a free region *)

Lemma conflict_none l c len :
  0 <= c -> c + len < M64 -> 0 < len -> conflict l c len = None <-> free l c (c + len).
Proof.
  intros Hc Hl Hp. unfold free. induction l as [|v l IH]; cbn [conflict]; [by split|].
  unfold u64. rewrite Z.mod_small by lia. rewrite Forall_cons.
  destruct (_ && _) eqn:H; [split; [done|]|rewrite IH]; [intros [? _]; lia|].
  split; [|naive_solver]. intros ?. split; [lia|done].
Qed.

Lemma conflict_some l c len e :
  0 <= c -> c + len < M64 -> 0 < len -> conflict l c len = Some e ->
  exists v, v ∈ l /\ c < end_ v /\ start v < c + len /\ e = end_ v.
Proof.
  intros Hc Hl Hp. induction l as [|v l IH]; cbn [conflict]; [done|].
  unfold u64. rewrite Z.mod_small by lia. destruct (_ && _) eqn:H.
  - intros [= <-]. exists v. rewrite elem_of_cons. split_and!; [auto|lia..].
  - intros Hc'. destruct (IH Hc') as (w & ? & ?). exists w. rewrite elem_of_cons. naive_solver.
Qed.

(** The regions that can still get in the way. *)
Definition ahead (l : list Vma) (c : Z) : nat := length (List.filter (fun v => c <? end_ v) l).

Lemma ahead_le l c c' : c <= c' -> (ahead l c' <= ahead l c)%nat.
Proof.
  intros Hc. unfold ahead. induction l as [|v l IH]; cbn; [done|].
  destruct (Z.ltb_spec c (end_ v)), (Z.ltb_spec c' (end_ v)); cbn; lia.
Qed.

Lemma ahead_lt l c c' v : v ∈ l -> c < end_ v <= c' -> (ahead l c' < ahead l c)%nat.
Proof.
  intros Hv Hc. assert (c <= c') as Hle by lia. induction l as [|w l IH]; [by apply elem_of_nil in Hv|].
  pose proof (ahead_le l c c' Hle) as Hl. unfold ahead in *. cbn.
  apply elem_of_cons in Hv as [->|Hv]; [|specialize (IH Hv)].
  - destruct (Z.ltb_spec c (end_ w)), (Z.ltb_spec c' (end_ w)); cbn; lia.
  - destruct (Z.ltb_spec c (end_ w)), (Z.ltb_spec c' (end_ w)); cbn; lia.
Qed.

Lemma ahead_length l c : (ahead l c <= length l)%nat.
Proof. unfold ahead. apply List.filter_length_le. Qed.

(** The addresses the search may return. *)
Definition candidate (hint b : Z) : Prop := b = hint \/ b mod PAGE_SIZE = 0.

(** [r] is the lowest candidate with room for [len] bytes below [max_addr]. *)
Definition first_fit (l : list Vma) (hint len max_addr : Z) (r : option Z) : Prop :=
  match r with
  | Some a =>
      hint <= a /\ a + len <= max_addr /\ free l a (a + len) /\ candidate hint a /\
      forall b, hint <= b < a -> candidate hint b -> ~ free l b (b + len)
  | None => forall b, hint <= b -> b + len <= max_addr -> candidate hint b -> ~ free l b (b + len)
  end.

Lemma aligned_below b e : 0 <= e <= ADDR_TOP -> b mod PAGE_SIZE = 0 -> b < page_up e -> b < e.
Proof.
  intros He Hb Hlt. destruct (page_up_spec e He) as [Hr Hm]. unfold PAGE_SIZE in *.
  pose proof (Z.div_mod b 4096). pose proof (Z.div_mod (page_up e) 4096). lia.
Qed.

Lemma find_free_from l hint len max_addr fuel c :
  vmas_wf l -> 0 < len -> max_addr < M64 - 1 -> 0 <= c -> hint <= c -> candidate hint c ->
  (ahead l c < fuel)%nat -> (forall b, hint <= b < c -> candidate hint b -> ~ free l b (b + len)) ->
  exists r, find_free_vma_region fuel l c len max_addr = Ret r /\ first_fit l hint len max_addr r.
Proof.
  intros Hl Hlen Hmax. revert c. induction fuel as [|fuel IH]; intros c Hc Hh Hcand Hf Hno; [lia|].
  cbn [find_free_vma_region]. unfold saturating_add. destruct (Z.leb_spec (Z.min (c + len) (M64 - 1)) max_addr).
  - destruct (conflict l c len) as [e|] eqn:Hcf.
    + apply conflict_some in Hcf as (v & Hv & H1 & H2 & ->); [|lia..].
      assert (Hok : vma_ok v) by (destruct Hl as [Hl _]; rewrite Forall_forall in Hl; auto). unfold vma_ok in Hok.
      destruct (page_up_spec (end_ v)) as [Hr Hm]; [lia|].
      apply IH; [lia|lia|by right|pose proof (ahead_lt l c (page_up (end_ v)) v Hv ltac:(lia)); lia|].
      intros b Hb Hcb. destruct (decide (b < c)); [apply Hno; [lia|done]|].
      intros Hfree. unfold free in Hfree. rewrite Forall_forall in Hfree. specialize (Hfree v Hv).
      assert (b < end_ v); [|lia]. destruct Hcb as [->|Hal]; [lia|]. apply aligned_below; [lia|done|lia].
    + exists (Some c). split; [done|]. apply conflict_none in Hcf; [|lia..]. split_and!; [lia|lia|done..].
  - exists None. split; [done|]. intros b Hb Hbm Hcb. apply Hno; [lia|done].
Qed.

(** The search ends within one pass more than there are regions. *)
Lemma find_free_first_fit l hint len max_addr :
  vmas_wf l -> 0 < len -> max_addr < M64 - 1 -> 0 <= hint ->
  exists r, find_free_vma_region (S (length l)) l hint len max_addr = Ret r /\ first_fit l hint len max_addr r.
Proof.
  intros Hl Hlen Hm Hh. apply find_free_from; [done..|lia|by left| |lia].
  pose proof (ahead_length l hint). lia.
Qed.

(** ** [mmap], [munmap], [mprotect] *)

(** The address space outside [s, e) is as before. *)
Definition same_outside (l l' : list Vma) (s e : Z) : Prop :=
  forall a, ~ (s <= a < e) -> view l' a = view l a.

Lemma insert_view l v :
  vmas_wf l -> vma_ok v -> free l (start v) (end_ v) ->
  vmas_wf (insert_vma_locked l v) /\ same_outside l (insert_vma_locked l v) (start v) (end_ v) /\
  forall a, start v <= a < end_ v -> view l a = None /\ view (insert_vma_locked l v) a = Some (attrs v).
Proof.
  intros Hl Hv Hf. destruct (insert_wf l v Hl Hv Hf) as [Hwf Hm]. split_and!; [done| |].
  - intros a Ha. apply view_ext; [done..|]. intros x. rewrite Hm. tauto.
  - intros a Ha. split.
    + apply view_none; [done|]. intros x (w & Hw & Hc & _). unfold free in Hf. rewrite Forall_forall in Hf.
      specialize (Hf w Hw). lia.
    + apply view_maps; [done|]. rewrite Hm. auto.
Qed.

(** The hint of an [mmap] without an address. *)
Definition mmap_hint (m : Mem) (addr : Z) : Z :=
  if addr =? 0 then Z.land (u64 (brk m + 0x10000000 - 1)) (not64 (0x10000000 - 1)) else addr.

(** What [mmap] may answer. *)
Definition mmap_outcome (can_allocate : Z -> bool) (m : Mem) (addr len prot mflags fd r : Z) (m' : Mem) : Prop :=
  ((m' = m /\ (r = Errno.ret Errno.EINVAL /\ (len = 0 \/ ADDR_TOP < len) \/
               r = Errno.ret Errno.ENOMEM /\
               (can_allocate (page_up len) = false \/
                first_fit (vmas m) (mmap_hint m addr) (page_up len) MAX_ADDR None))) \/
   (first_fit (vmas m) (mmap_hint m addr) (page_up len) MAX_ADDR (Some r) /\
    same_outside (vmas m) (vmas m') r (r + page_up len) /\
    forall a, r <= a < r + page_up len ->
      view (vmas m) a = None /\
      view (vmas m') a = Some (prot_flags prot, (if fd =? M64 - 1 then None else Some fd),
                               negb (Z.land mflags 2 =? 0), None))).

(** A length above the top of the address range rounds up to zero. *)
Lemma page_up_wraps x : ADDR_TOP < x < M64 -> page_up x = 0.
Proof.
  unfold ADDR_TOP, page_up, PAGE_SIZE. intros Hx. unfold u64.
  replace (x + 4096 - 1) with (x + 4096 - 1 - M64 + 1 * M64) by lia. rewrite Z.mod_add, Z.mod_small by lia.
  rewrite page_down_spec by lia. unfold PAGE_SIZE. rewrite Z.div_small by lia. done.
Qed.

Lemma mmap_spec can_allocate m addr len prot mflags fd offset :
  vmas_wf (vmas m) -> 0 <= addr < M64 -> 0 <= len < M64 ->
  exists r m', sys_mmap (S (length (vmas m))) can_allocate m addr len prot mflags fd offset = Ret (r, m') /\
    vmas_wf (vmas m') /\ brk m' = brk m /\ pages m' = pages m /\
    mmap_outcome can_allocate m addr len prot mflags fd r m'.
Proof.
  unfold mmap_outcome. intros Hl Ha Hlen. unfold sys_mmap. destruct (Z.ltb_spec ADDR_TOP len) as [Htop|Htop].
  { rewrite page_up_wraps by lia. eexists _, m. split_and!; try done. left. auto. }
  destruct (page_up_spec len) as [Hup Hal]; [lia|].
  destruct (Z.eqb_spec (page_up len) 0) as [Hz|Hz].
  { eexists _, m. split_and!; try done. left. split; [done|]. left. split; [done|lia]. }
  destruct (can_allocate (page_up len)) eqn:Hca; cbn [negb]; [|eexists _, m; split_and!; try done; left; auto].
  fold (mmap_hint m addr).
  assert (Hh : 0 <= mmap_hint m addr).
  { unfold mmap_hint. case_match; [|lia]. apply Z.land_nonneg. left. apply u64_range. }
  destruct (find_free_first_fit (vmas m) (mmap_hint m addr) (page_up len) MAX_ADDR Hl) as (r & Hr & Hff);
    [lia|unfold MAX_ADDR; lia|done|]. rewrite Hr. destruct r as [a|]; [|eexists _, m; split_and!; try done; left; auto].
  pose proof Hff as (H1 & H2 & H3 & _). unfold MAX_ADDR in H2. unfold u64. rewrite Z.mod_small by lia.
  set (v := mkVma a (a + page_up len) _ _ _ _ _ _).
  destruct (insert_view (vmas m) v Hl) as (Hwf & Hout & Hin); [unfold vma_ok, ADDR_TOP, PAGE_SIZE; cbn; lia|done|].
  eexists a, _. split; [done|]. cbn [vmas brk pages set_vmas]. split_and!; [done..|]. right. auto.
Qed.

(** C7. In an address space whose regions are well formed (non-empty, ordered
    and disjoint, below the last page), [mmap] of any address and length
    answers within one pass more than there are regions. It fails and changes
    nothing, with [EINVAL] exactly for a length that rounds to zero and
    [ENOMEM] when the control group refuses or no candidate is free; or it maps
    at the lowest candidate, the hint or a page boundary above it, from where
    the whole rounded length lies free below the limit. That range was unmapped
    before, carries the requested protection, file descriptor and sharing now
    (not the file offset, which merging with a neighbour drops), no other address
    changes, and the regions are well formed again. *)
Theorem mmap_first_fit can_allocate m addr len prot mflags fd offset :
  vmas_wf (vmas m) -> 0 <= addr < M64 -> 0 <= len < M64 ->
  exists r m', sys_mmap (S (length (vmas m))) can_allocate m addr len prot mflags fd offset = Ret (r, m') /\
    vmas_wf (vmas m') /\ brk m' = brk m /\ pages m' = pages m /\
    mmap_outcome can_allocate m addr len prot mflags fd r m'.
Proof. apply mmap_spec. Qed.

(** [munmap] of a range that does not wrap around unmaps exactly that range
    from the list of regions: every address in it is unmapped afterwards, every
    other one is mapped with what it was, splitting a region where it must. *)
Theorem munmap_exact m addr len r m' :
  vmas_wf (vmas m) -> 0 <= addr -> 0 <= len -> addr + len < M64 -> sys_munmap m addr len = (r, m') ->
  r = 0 /\ vmas_wf (vmas m') /\ same_outside (vmas m) (vmas m') addr (addr + len) /\
  forall a, addr <= a < addr + len -> view (vmas m') a = None.
Proof.
  intros Hl Ha Hlen Hw. unfold sys_munmap, u64. rewrite Z.mod_small by lia. intros [= <- <-]. cbn [vmas set_vmas].
  destruct (remove_wf (vmas m) addr (addr + len) Hl) as [Hwf Hm]; [lia|]. split_and!; [done..| |].
  - intros a Hout. apply view_ext; [done..|]. intros x. rewrite Hm. tauto.
  - intros a Hin. apply view_none; [done|]. intros x. rewrite Hm. tauto.
Qed.

Definition protect (s e : Z) (f : PageFlags) (v : Vma) : Vma :=
  if (start v <? e) && (s <? end_ v) then set_flags v f else v.

Lemma protect_bounds s e f v : start (protect s e f v) = start v /\ end_ (protect s e f v) = end_ v.
Proof. unfold protect. by case_match. Qed.

Lemma protect_wf s e f l : vmas_wf l -> vmas_wf (protect s e f <$> l).
Proof.
  induction l as [|v l IH]; [done|]. rewrite fmap_cons, !vmas_wf_cons. intros (Hv & Hb & Hl).
  destruct (protect_bounds s e f v) as [H1 H2]. split_and!; [unfold vma_ok; by rewrite H1, H2| |by apply IH].
  apply Forall_fmap. eapply Forall_impl; [exact Hb|]. intros w Hw. unfold below in *. cbn.
  destruct (protect_bounds s e f w) as [-> _]. by rewrite H2.
Qed.

Lemma protect_find s e f l a : find_vma (protect s e f <$> l) a = protect s e f <$> find_vma l a.
Proof.
  induction l as [|v l IH]; [done|]. cbn. unfold contains. destruct (protect_bounds s e f v) as [-> ->].
  destruct (_ && _); [done|]. apply IH.
Qed.

(** [mprotect] replaces the flags of every region that meets the rounded
    range, over the region's whole extent: an address keeps its mapping, and
    changes flags exactly when its region meets the range, whether or not the
    address is in it. *)
Theorem mprotect_whole_regions m addr len prot r m' :
  vmas_wf (vmas m) -> sys_mprotect m addr len prot = (r, m') ->
  r = 0 /\ vmas_wf (vmas m') /\
  forall a, view (vmas m') a =
    v ← find_vma (vmas m) a;
    Some (if (start v <? page_up (u64 (addr + len))) && (page_down addr <? end_ v)
          then (prot_flags prot, file_handle v, is_shared v, shm_id v) else attrs v).
Proof.
  intros Hl. unfold sys_mprotect. intros [= <- <-]. cbn [vmas set_vmas]. split_and!; [done|by apply protect_wf|].
  intros a. unfold view. fold (protect (page_down addr) (page_up (u64 (addr + len))) (prot_flags prot)).
  rewrite protect_find. destruct (find_vma (vmas m) a) as [v|]; [|done]. cbn. unfold protect. by case_match.
Qed.

(** ** Walking a range *)

Lemma walk_range_spec fuel stop l page e :
  vmas_wf l -> (ahead l page < fuel)%nat ->
  exists r, walk_range fuel stop l page e = Ret r /\
    ((r = 0 /\ forall a, page <= a < e -> exists v, find_vma l a = Some v /\ stop v = None) \/
     (exists a, page <= a < e /\
        match find_vma l a with None => r = Errno.ret Errno.ENOMEM | Some v => stop v = Some r end)).
Proof.
  intros Hl. revert page. induction fuel as [|fuel IH]; intros page Hf; [lia|]. cbn [walk_range].
  destruct (Z.ltb_spec page e); [|exists 0; split; [done|]; left; split; [done|lia]].
  destruct (find_vma l page) as [v|] eqn:Hv; [|eexists; split; [done|]; right; exists page; by rewrite Hv; split; [lia|]].
  destruct (stop v) as [r|] eqn:Hs; [eexists; split; [done|]; right; exists page; by rewrite Hv; split; [lia|]|].
  apply find_vma_sound in Hv as Hin. destruct Hin as [Hin Hc].
  destruct (IH (end_ v)) as (r & Hr & Hout); [pose proof (ahead_lt l page (end_ v) v Hin ltac:(lia)); lia|].
  exists r. split; [done|]. destruct Hout as [[-> Hall]|(a & Ha & Hm)]; [left|right; exists a; split; [lia|done]].
  split; [done|]. intros a Ha. destruct (decide (a < end_ v)); [|apply Hall; lia]. exists v. split; [|done].
  destruct (find_vma l a) as [w|] eqn:Hw; [|exfalso; eapply find_vma_none; [done|exact Hin|lia]].
  apply find_vma_sound in Hw as [Hw Hcw]. f_equal. apply (vma_unique l a); [done..|lia].
Qed.

(** [msync] with valid arguments always answers, within one step more than
    there are regions, and answers success exactly when every address of the
    range is mapped and none by a shared file; otherwise the error is that of
    an address of the range: a hole, or a shared file. *)
Theorem msync_decides m addr len mflags :
  vmas_wf (vmas m) -> 0 <= addr -> 0 < len -> addr + len < M64 -> addr mod PAGE_SIZE = 0 ->
  mflags ∈ [0; MS_ASYNC; MS_SYNC; MS_INVALIDATE; Z.lor MS_ASYNC MS_INVALIDATE; Z.lor MS_SYNC MS_INVALIDATE] ->
  exists r, sys_msync (S (length (vmas m))) m addr len mflags = Ret r /\
    (r = 0 <-> forall a, addr <= a < addr + len -> exists v, find_vma (vmas m) a = Some v /\ shared_file v = None) /\
    (r <> 0 -> exists a, addr <= a < addr + len /\
       match find_vma (vmas m) a with
       | None => r = Errno.ret Errno.ENOMEM
       | Some v => shared_file v = Some r /\ r = Errno.ret Errno.EOPNOTSUPP
       end).
Proof.
  intros Hl Ha Hlen Hw Hal Hf. unfold sys_msync. rewrite (proj2 (Z.eqb_neq len 0)) by lia.
  assert (Hland : Z.land addr (PAGE_SIZE - 1) = 0).
  { rewrite <- Hal. unfold PAGE_SIZE. change (4096 - 1) with (Z.ones 12). by rewrite Z.land_ones by lia. }
  rewrite Hland. cbn [negb Z.eqb].
  destruct (negb (Z.land mflags _ =? 0) || _) eqn:Hbad; [exfalso|].
  { repeat (apply elem_of_cons in Hf as [->|Hf]; [discriminate Hbad|]). by apply elem_of_nil in Hf. }
  unfold u64. rewrite Z.mod_small by lia. pose proof (ahead_length (vmas m) addr) as Hah.
  destruct (walk_range_spec (S (length (vmas m))) shared_file (vmas m) addr (addr + len) Hl ltac:(lia)) as (r & -> & Hout).
  assert (Hsf : forall v r, shared_file v = Some r -> r = Errno.ret Errno.EOPNOTSUPP /\ r <> 0).
  { intros v r' Hs. unfold shared_file in Hs. destruct (is_shared v && _) in Hs; [|discriminate Hs]. by injection Hs as <-. }
  exists r. split; [done|]. destruct Hout as [[-> Hall]|(a & Har & Hm)]; [split; [by split|done]|].
  assert (Hr : r <> 0) by (destruct (find_vma (vmas m) a); [apply (Hsf _ _ Hm)|by subst r]).
  split; [split; [done|]|].
  - intros Hall. destruct (Hall a Har) as (v & Hv & Hs). rewrite Hv in Hm. congruence.
  - intros _. exists a. split; [done|]. destruct (find_vma (vmas m) a); [by destruct (Hsf _ _ Hm)|done].
Qed.

(** ** Where the arithmetic wraps around *)

Definition user_flags : PageFlags := mkFlags true true true false.

(** A small program with its break just above it. *)
Definition small_space : Mem :=
  mkMem 0x402000 [mkVma 0x400000 0x401000 user_flags "elf_phdr"%string None 0 false None] ∅ [].

(** The space after [brk] to the last address. *)
Definition brk_space : Mem := (sys_brk small_space (M64 - 1)).2.

Lemma brk_space_search fuel len :
  0x400000 < len -> 0x401000 + len <= MAX_ADDR ->
  find_free_vma_region (S (S fuel)) (vmas brk_space) 0 len MAX_ADDR =
  find_free_vma_region fuel (vmas brk_space) 0 len MAX_ADDR.
Proof.
  intros H1 H2. unfold MAX_ADDR in *.
  change (vmas brk_space) with
    [mkVma 0x400000 0x401000 user_flags "elf_phdr"%string None 0 false None;
     mkVma 0x402000 (M64 - 1) user_flags "brk"%string None 0 false None].
  set (l := [_; _]).
  assert (E1 : conflict l 0 len = Some 0x401000).
  { unfold l. cbn [conflict start end_]. unfold u64. rewrite Z.mod_small by lia.
    by rewrite (proj2 (Z.ltb_lt 0x400000 (0 + len))) by lia. }
  assert (E2 : conflict l 0x401000 len = Some (M64 - 1)).
  { unfold l. cbn [conflict start end_]. unfold u64. rewrite Z.mod_small by lia.
    by rewrite (proj2 (Z.ltb_lt 0x402000 (0x401000 + len))) by lia. }
  cbn [find_free_vma_region]. unfold saturating_add.
  rewrite (proj2 (Z.leb_le (Z.min (0 + len) _) _)) by lia. rewrite E1.
  change (page_up 0x401000) with 0x401000. rewrite (proj2 (Z.leb_le (Z.min (0x401000 + len) _) _)) by lia.
  rewrite E2. change (page_up (M64 - 1)) with 0. done.
Qed.

(** Two calls of any process hang the kernel: after [brk] to the last
    address the search for a free region wraps to zero, meets the program
    again, and never ends, for every length that does not fit below the
    program. *)
Theorem mmap_hangs fuel can_allocate len prot mflags fd offset :
  0x400000 < len <= 0x10000000000 -> can_allocate (page_up len) = true ->
  (sys_brk small_space (M64 - 1)).1 = M64 - 1 /\
  sys_mmap fuel can_allocate brk_space 0 len prot mflags fd offset = NoFuel.
Proof.
  intros Hlen Hca. split; [done|]. unfold sys_mmap.
  destruct (page_up_spec len) as [Hup _]; [unfold ADDR_TOP, PAGE_SIZE; lia|]. unfold PAGE_SIZE in Hup.
  rewrite (proj2 (Z.eqb_neq (page_up len) 0)) by lia. rewrite Hca. cbn [negb].
  change (if 0 =? 0 then _ else _) with 0.
  assert (Hs : find_free_vma_region fuel (vmas brk_space) 0 (page_up len) MAX_ADDR = NoFuel); [|by rewrite Hs].
  induction fuel as [fuel IH] using lt_wf_ind. destruct fuel as [|[|fuel]]; [done| |].
  - assert (E : forall k, find_free_vma_region (S (S k)) (vmas brk_space) 0 (page_up len) MAX_ADDR =
                find_free_vma_region k (vmas brk_space) 0 (page_up len) MAX_ADDR)
      by (intros k; apply brk_space_search; unfold MAX_ADDR; lia).
    specialize (E 0%nat). revert E. cbn [find_free_vma_region].
    destruct (_ <=? _); [|done]. destruct (conflict _ _ _); [|done]. done.
  - rewrite brk_space_search by (unfold MAX_ADDR; lia). apply IH. lia.
Qed.

Lemma mmap_hangs_witness :
  (sys_brk small_space (M64 - 1)).1 = M64 - 1 /\
  sys_mmap 1000 (fun _ => true) brk_space 0 0x800000 3 0x22 (M64 - 1) 0 = NoFuel.
Proof. apply mmap_hangs; [lia|reflexivity]. Defined.

(** A range that wraps around makes [munmap] duplicate addresses: the two
    parts of the split region overlap. *)
Lemma munmap_wrap_overlaps :
  let m := mkMem 0 [mkVma 0x10000 0x20000 user_flags "mmap"%string None 0 false None] ∅ [] in
  vmas (sys_munmap m 0x18000 (M64 - 0x4000)).2 =
  [mkVma 0x10000 0x18000 user_flags "mmap"%string None 0 false None;
   mkVma 0x14000 0x20000 user_flags "mmap"%string None 0 false None].
Proof. vm_compute. reflexivity. Qed.

(** [brk] does not look for mappings above the break: it grows over them. *)
Lemma brk_overlaps :
  let v := mkVma 0x20000 0x21000 (mkFlags true false true true) "mmap"%string None 0 false None in
  vmas (sys_brk (mkMem 0x10000 [v] ∅ []) 0x30000).2 =
  [mkVma 0x10000 0x30000 user_flags "brk"%string None 0 false None; v].
Proof. vm_compute. reflexivity. Qed.

(** ** Examples *)

(** Two regions, the first with a page in the page table. *)
Definition two_regions : Mem :=
  mkMem 0x402000
    [mkVma 0x400000 0x402000 user_flags "elf_phdr"%string None 0 false None;
     mkVma 0x402000 0x403000 (mkFlags true false true true) "mmap"%string None 0 false None]
    {[0x400000 := 77]} [].

Lemma two_regions_wf : vmas_wf (vmas two_regions).
Proof.
  unfold two_regions. cbn [vmas]. rewrite !vmas_wf_cons. unfold vma_ok, below, ADDR_TOP, PAGE_SIZE. cbn [start end_].
  split_and!; try lia; repeat constructor; cbn; lia.
Qed.

Lemma two_regions_user : Forall (fun v => end_ v <= USER_LIMIT) (vmas two_regions).
Proof. unfold USER_LIMIT. repeat constructor; cbn; lia. Qed.

Lemma mmap_first_fit_witness :
  exists r m', sys_mmap 3 (fun _ => true) two_regions 0x400000 5000 3 0 (M64 - 1) 0 = Ret (r, m') /\
    vmas_wf (vmas m') /\ r = 0x403000 /\ same_outside (vmas two_regions) (vmas m') r (r + 8192).
Proof.
  destruct (mmap_first_fit (fun _ => true) two_regions 0x400000 5000 3 0 (M64 - 1) 0 two_regions_wf) as
    (r & m' & Hr & Hwf & _ & _ & Hout); [lia|lia|].
  assert (Hv : r = 0x403000).
  { apply (f_equal (fun x => match x with Ret (r, _) => r | _ => 0 end)) in Hr. vm_compute in Hr. by symmetry. }
  exists r, m'. split; [exact Hr|]. split; [exact Hwf|]. split; [exact Hv|]. subst r.
  destruct Hout as [[_ [[Hx _]|[Hx _]]]|(_ & Hs & _)]; [vm_compute in Hx; discriminate Hx..|exact Hs].
Defined.

Lemma munmap_exact_witness :
  vmas_wf (vmas (sys_munmap two_regions 0x401000 0x1800).2) /\
  view (vmas (sys_munmap two_regions 0x401000 0x1800).2) 0x401000 = None.
Proof.
  destruct (munmap_exact two_regions 0x401000 0x1800 0 (sys_munmap two_regions 0x401000 0x1800).2 two_regions_wf)
    as (_ & Hwf & _ & Hv); [lia|lia|lia|reflexivity|]. split; [exact Hwf|]. apply Hv. lia.
Defined.

(** One page of the first region is made read-only: the other one changes too. *)
Lemma mprotect_whole_regions_witness :
  view (vmas two_regions) 0x401000 = Some (user_flags, None, false, None) /\
  view (vmas (sys_mprotect two_regions 0x400000 4096 1).2) 0x401000 =
    Some (mkFlags true false true true, None, false, None).
Proof.
  split; [vm_compute; reflexivity|].
  destruct (mprotect_whole_regions two_regions 0x400000 4096 1 0 (sys_mprotect two_regions 0x400000 4096 1).2
    two_regions_wf) as (_ & _ & H); [reflexivity|]. rewrite (H 0x401000). vm_compute. reflexivity.
Defined.

Lemma msync_decides_witness :
  exists r, sys_msync 3 two_regions 0x401000 0x3000 MS_SYNC = Ret r /\ r <> 0.
Proof.
  destruct (msync_decides two_regions 0x401000 0x3000 MS_SYNC two_regions_wf) as (r & Hr & Hz & _);
    [lia|lia|lia|reflexivity|apply (bool_decide_unpack _); vm_compute; exact I|].
  exists r. split; [exact Hr|]. intros H0. destruct (proj1 Hz H0 0x403000) as (v & Hv & _); [lia|].
  vm_compute in Hv. discriminate Hv.
Defined.
