(* ===== verification/VmaRemap.v ===== *)
(** * [mremap]

    Correctness of [sys_mremap] of [Vma]: resizing and moving a region,
    together with the pages of it that are in the page table. *)

From stdpp Require Import strings.
From S2P Require Import Prelude UserAccess Vma VmaSound.

(** ** Moving pages *)

Section move.
Context (map_fail : Z -> bool) (old dest : Z) (n : nat) (pt0 : gmap Z Z).

Definition src (k : nat) : Z := page_down (old + PAGE_SIZE * Z.of_nat k).
Definition dst (k : nat) : Z := page_down (dest + PAGE_SIZE * Z.of_nat k).

Context (src_inj : forall i j, (i < n)%nat -> (j < n)%nat -> src i = src j -> i = j)
        (dst_inj : forall i j, (i < n)%nat -> (j < n)%nat -> dst i = dst j -> i = j)
        (apart : forall i j, (i < n)%nat -> (j < n)%nat -> src i <> dst j)
        (small : forall k, (k < n)%nat ->
           canonical (old + PAGE_SIZE * Z.of_nat k) = true /\
           canonical (dest + PAGE_SIZE * Z.of_nat k) = true /\
           u64 (dest + PAGE_SIZE * Z.of_nat k) = dest + PAGE_SIZE * Z.of_nat k)
        (src_ok : forall k, (k < n)%nat -> map_fail (src k) = false)
        (stale : forall k, (k < n)%nat -> pt0 !! src k = None -> pt0 !! dst k = None).

(** The pages from [i] up to [k] are moved, the others are as at first. *)
Definition moved (i k : nat) (pt : gmap Z Z) : Prop :=
  (forall j, (i <= j < k)%nat -> pt !! src j = None /\ pt !! dst j = pt0 !! src j /\ pt0 !! dst j = None) /\
  (forall p, (forall j, (i <= j < k)%nat -> p <> src j /\ p <> dst j) -> pt !! p = pt0 !! p).

Lemma moved_at i k pt j :
  moved i k pt -> (j < n)%nat -> (k <= n)%nat -> (j < i \/ k <= j)%nat ->
  pt !! src j = pt0 !! src j /\ pt !! dst j = pt0 !! dst j.
Proof.
  intros [_ Hm] Hj Hk Hjk. split; apply Hm; intros l Hl; split; intros Heq.
  - apply src_inj in Heq; lia.
  - by apply (apart j l) in Heq; [|lia..].
  - symmetry in Heq. by apply (apart l j) in Heq; [|lia..].
  - apply dst_inj in Heq; lia.
Qed.

Lemma moved_step k pt pt' :
  moved 0 k pt -> (k < n)%nat -> pt0 !! dst k = None ->
  pt' !! src k = None -> pt' !! dst k = pt0 !! src k ->
  (forall p, p <> src k -> p <> dst k -> pt' !! p = pt !! p) -> moved 0 (S k) pt'.
Proof.
  intros [Hin Hout] Hk Hd Hs' Hd' Hp. split.
  - intros j Hj. destruct (decide (j = k)) as [->|]; [done|]. destruct (Hin j) as (H1 & H2 & H3); [lia|].
    rewrite !Hp; [done| | | |].
    + intros Heq. symmetry in Heq. by apply (apart k j) in Heq; [|lia..].
    + intros Heq%dst_inj; lia.
    + intros Heq%src_inj; lia.
    + intros Heq. by apply (apart j k) in Heq; [|lia..].
  - intros p Hj. destruct (Hj k ltac:(lia)) as [H1 H2]. rewrite Hp by done. apply Hout. intros j Hjk. apply Hj. lia.
Qed.

(** Rolling back restores what there was. *)
Lemma roll_back_restores c i k pt :
  moved i k pt -> (i + c = k)%nat -> (k <= n)%nat ->
  roll_back c map_fail pt (old + PAGE_SIZE * Z.of_nat i) (u64 (dest + PAGE_SIZE * Z.of_nat i)) = pt0.
Proof.
  revert i pt. induction c as [|c IH]; intros i pt Hm Hik Hk.
  { cbn. apply map_eq. intros p. apply Hm. intros j Hj. lia. }
  cbn [roll_back]. destruct (small i) as (_ & _ & Hu); [lia|]. rewrite Hu. fold (src i) (dst i).
  replace (old + PAGE_SIZE * Z.of_nat i + PAGE_SIZE) with (old + PAGE_SIZE * Z.of_nat (S i)) by lia.
  assert (Hnext : u64 (dest + PAGE_SIZE * Z.of_nat i + PAGE_SIZE) = u64 (dest + PAGE_SIZE * Z.of_nat (S i)))
    by (f_equal; lia). rewrite Hnext. apply IH; [|lia|done]. clear Hnext.
  destruct Hm as [Hin Hout]. destruct (Hin i) as (H1 & H2 & H3); [lia|].
  assert (Hpt : forall pt', pt' !! src i = pt0 !! src i -> pt' !! dst i = None ->
                (forall p, p <> src i -> p <> dst i -> pt' !! p = pt !! p) -> moved (S i) k pt').
  { intros pt' Hs Hd Hp. split.
    - intros j Hj. destruct (Hin j) as (? & ? & ?); [lia|]. rewrite !Hp; [done| | | |].
      + intros Heq. symmetry in Heq. by apply (apart i j) in Heq; [|lia..].
      + intros Heq%dst_inj; lia.
      + intros Heq%src_inj; lia.
      + intros Heq. by apply (apart j i) in Heq; [|lia..].
    - intros p Hj. destruct (decide (p = src i)) as [->|]; [done|].
      destruct (decide (p = dst i)) as [->|]; [by rewrite Hd|].
      rewrite Hp by done. apply Hout. intros j Hjk. destruct (decide (j = i)) as [->|]; [done|]. apply Hj. lia. }
  assert (Hsd : src i <> dst i) by (apply apart; lia). rewrite H2.
  destruct (pt0 !! src i) as [f|] eqn:Hf.
  - unfold map_to. rewrite src_ok by lia. rewrite lookup_delete_ne, H1 by done. cbn.
    apply Hpt; [by rewrite lookup_insert_eq|rewrite lookup_insert_ne by done; apply lookup_delete_eq|].
    intros p ??. by rewrite lookup_insert_ne, lookup_delete_ne by done.
  - apply Hpt; [by rewrite H1|done|done].
Qed.

(** The pages move, or nothing changes. *)
Lemma move_pages_spec m k pt rel :
  moved 0 k pt -> (k + m = n)%nat ->
  exists ok pt', move_pages m k map_fail pt rel old dest = Ret (ok, pt', rel) /\
    if (ok : bool) then moved 0 n pt' else pt' = pt0.
Proof.
  revert k pt. induction m as [|m IH]; intros k pt Hm Hkm.
  { exists true, pt. split; [done|]. by replace n with k by lia. }
  cbn [move_pages]. destruct (small k) as (Hc1 & Hc2 & Hu); [lia|]. rewrite Hu, Hc1, Hc2. cbn [negb orb].
  fold (src k) (dst k). destruct (moved_at _ _ _ k Hm) as [Hs Hd]; [lia..|].
  assert (Hsd : src k <> dst k) by (apply apart; lia). rewrite Hs.
  destruct (pt0 !! src k) as [f|] eqn:Hf.
  - unfold map_to at 1. rewrite lookup_delete_ne, Hd by done.
    destruct (map_fail (dst k) || bool_decide (is_Some (pt0 !! dst k))) eqn:Hbad.
    + unfold map_to. rewrite src_ok by lia. rewrite lookup_delete_eq. cbn.
      eexists false, _. split; [done|]. rewrite insert_delete_id by done.
      replace old with (old + PAGE_SIZE * Z.of_nat 0) at 1 by lia.
      destruct k as [|k]; [cbn; apply map_eq; intros p; apply Hm; lia|].
      replace (roll_back (S k) map_fail pt (old + PAGE_SIZE * Z.of_nat 0) dest) with
        (roll_back (S k) map_fail pt (old + PAGE_SIZE * Z.of_nat 0) (u64 (dest + PAGE_SIZE * Z.of_nat 0))).
      * apply (roll_back_restores (S k) 0 (S k)); [done|lia|lia].
      * destruct (small 0) as (_ & _ & Hu0); [lia|]. rewrite Hu0. f_equal. lia.
    + apply orb_false_iff in Hbad as [_ Hnone%bool_decide_eq_false].
      apply IH; [|lia]. apply (moved_step k pt); [done|lia| | | |].
      * by apply eq_None_not_Some.
      * rewrite lookup_insert_ne by done. apply lookup_delete_eq.
      * by rewrite lookup_insert_eq, Hf.
      * intros p ??. by rewrite lookup_insert_ne, lookup_delete_ne by done.
  - apply IH; [|lia]. assert (pt0 !! dst k = None) by (apply stale; [lia|done]).
    apply (moved_step k pt); [done|lia|done|by rewrite Hs|by rewrite Hd, Hf|done].
Qed.
End move.

(** ** Pages and addresses *)

Lemma land_page x : Z.land x (PAGE_SIZE - 1) = x mod PAGE_SIZE.
Proof. unfold PAGE_SIZE. change (4096 - 1) with (Z.ones 12). by rewrite Z.land_ones by lia. Qed.

Lemma page_down_add x k :
  0 <= x -> 0 <= k -> x + PAGE_SIZE * k < M64 -> page_down (x + PAGE_SIZE * k) = page_down x + PAGE_SIZE * k.
Proof.
  intros Hx Hk Hlt. unfold PAGE_SIZE in *. rewrite !page_down_spec by lia. unfold PAGE_SIZE.
  rewrite (Z.mul_comm 4096 k), Z.div_add by lia. lia.
Qed.

Lemma page_down_aligned x : 0 <= x < M64 -> x mod PAGE_SIZE = 0 -> page_down x = x.
Proof.
  intros Hx Hm. rewrite page_down_spec by done. unfold PAGE_SIZE in *. pose proof (Z.div_mod x 4096). lia.
Qed.

Lemma page_down_le x : 0 <= x < M64 -> page_down x <= x < page_down x + PAGE_SIZE.
Proof.
  intros Hx. rewrite page_down_spec by done. unfold PAGE_SIZE.
  pose proof (Z.div_mod x 4096). pose proof (Z.mod_pos_bound x 4096). lia.
Qed.

Lemma canonical_low a : a < USER_LIMIT -> canonical a = true.
Proof. unfold canonical, USER_LIMIT. intros. apply orb_true_iff. left. by apply Z.ltb_lt. Qed.

Lemma unmap_pages_spec n pt rel a :
  a mod PAGE_SIZE = 0 -> 0 <= a -> a + PAGE_SIZE * Z.of_nat n <= USER_LIMIT ->
  exists pt' rel', unmap_pages n pt rel a = Ret (pt', rel') /\
    forall p, p < a \/ a + PAGE_SIZE * Z.of_nat n <= p -> pt' !! p = pt !! p.
Proof.
  revert pt rel a. unfold USER_LIMIT. induction n as [|n IH]; intros pt rel a Ha H0 Hlim; [by eexists _, _|].
  cbn [unmap_pages]. unfold PAGE_SIZE in Hlim. rewrite canonical_low by (unfold USER_LIMIT; lia). cbn [negb].
  rewrite page_down_aligned by (done || lia).
  assert (Hnext : (a + PAGE_SIZE) mod PAGE_SIZE = 0) by (unfold PAGE_SIZE in *; rewrite <- Ha; rewrite <- (Z.mod_add a 1 4096) by lia; f_equal; lia).
  destruct (pt !! a) as [f|].
  - destruct (IH (delete a pt) (f :: rel) (a + PAGE_SIZE)) as (pt' & rel' & -> & Hp); [done|unfold PAGE_SIZE; lia..|].
    eexists _, _. split; [done|]. intros p Hout. unfold PAGE_SIZE in *. rewrite Hp by lia. apply lookup_delete_ne. lia.
  - destruct (IH pt rel (a + PAGE_SIZE)) as (pt' & rel' & -> & Hp); [done|unfold PAGE_SIZE; lia..|].
    eexists _, _. split; [done|]. intros p Hout. unfold PAGE_SIZE in *. apply Hp. lia.
Qed.

(** ** One region of the list *)

Lemma maps_app l l' a x : maps (l ++ l') a x <-> maps l a x \/ maps l' a x.
Proof. unfold maps. setoid_rewrite elem_of_app. naive_solver. Qed.

Lemma wf_middle l1 v l2 :
  vmas_wf (l1 ++ v :: l2) <->
  vmas_wf (l1 ++ l2) /\ vma_ok v /\ Forall (fun w => below w v) l1 /\ Forall (below v) l2.
Proof.
  induction l1 as [|w l1 IH]; cbn [app].
  - rewrite vmas_wf_cons, Forall_nil. tauto.
  - rewrite !vmas_wf_cons, IH, !Forall_app, !Forall_cons. split; [tauto|]. intros ((? & [? ?] & ?) & ? & [? ?] & ?).
    split_and!; done.
Qed.

Lemma find_start_split l a v :
  vmas_wf l -> find_start l a = Some v ->
  exists l1 l2, l = l1 ++ v :: l2 /\ start v = a /\
    Forall (fun w => start w <> a) l1 /\ Forall (fun w => start w <> a) l2.
Proof.
  induction l as [|w l IH]; [done|]. intros (Hw & Hb & Hl)%vmas_wf_cons. unfold find_start. cbn [List.find].
  destruct (Z.eqb_spec (start w) a) as [<-|Hne].
  - intros [= <-]. exists [], l. split_and!; [done..|constructor|]. eapply Forall_impl; [exact Hb|].
    unfold below, vma_ok in *. intros; lia.
  - intros Hf. destruct (IH Hl Hf) as (l1 & l2 & -> & ? & ? & ?). exists (w :: l1), l2. split_and!; try done.
    by apply Forall_cons.
Qed.

Lemma set_end_at_middle l1 v l2 a e :
  Forall (fun w => start w <> a) l1 -> start v = a -> set_end_at (l1 ++ v :: l2) a e = l1 ++ set_end v e :: l2.
Proof.
  intros Hl <-. induction Hl as [|w l1 Hw _ IH]; cbn; [by rewrite Z.eqb_refl|].
  rewrite (proj2 (Z.eqb_neq _ _) Hw). by rewrite IH.
Qed.

Lemma filter_middle l1 v l2 a :
  Forall (fun w => start w <> a) l1 -> start v = a -> Forall (fun w => start w <> a) l2 ->
  List.filter (fun w => negb (start w =? a)) (l1 ++ v :: l2) = l1 ++ l2.
Proof.
  assert (Hid : forall l, Forall (fun w => start w <> a) l -> List.filter (fun w => negb (start w =? a)) l = l).
  { induction 1 as [|w l Hw _ IH]; [done|]. cbn. rewrite (proj2 (Z.eqb_neq _ _) Hw). cbn. by rewrite IH. }
  intros H1 <- H2. rewrite List.filter_app. cbn. rewrite Z.eqb_refl. cbn. by rewrite !Hid.
Qed.

Lemma existsb_free l s e : existsb (meets s e) l = false <-> free l s e.
Proof.
  unfold free. induction l as [|v l IH]; cbn; [by split|]. rewrite orb_false_iff, IH, Forall_cons. unfold meets.
  assert ((start v <? e) && (s <? end_ v) = false <-> end_ v <= s \/ e <= start v) as -> by lia. done.
Qed.

(** The view of a list in which one region is replaced by one that maps
    [s, e) with the same attributes. *)
Definition resized (l l' : list Vma) (v : Vma) (s e : Z) : Prop :=
  forall a, view l' a = if decide (s <= a < e) then Some (attrs v)
                        else if decide (start v <= a < end_ v) then None else view l a.

Lemma resized_maps l1 v l2 l' s e :
  vmas_wf (l1 ++ v :: l2) -> vmas_wf l' ->
  (forall a x, maps l' a x <-> (s <= a < e /\ attrs v = x) \/ maps (l1 ++ l2) a x) ->
  resized (l1 ++ v :: l2) l' v s e.
Proof.
  intros Hl Hl' Hm a. assert (Hl2 : vmas_wf (l1 ++ l2)) by by apply wf_middle in Hl as [? _].
  assert (Hv : forall x, maps (l1 ++ v :: l2) a x <-> (start v <= a < end_ v /\ attrs v = x) \/ maps (l1 ++ l2) a x)
    by (intros x; rewrite !maps_app, maps_cons; tauto).
  case_decide; [apply view_maps; [done|]; rewrite Hm; auto|]. case_decide.
  - apply view_none; [done|]. intros x. rewrite Hm. intros [[? _]|Hx]; [lia|].
    destruct Hx as (w & Hw & Hc & _). apply wf_middle in Hl as (_ & Hok & Hb1 & Hb2).
    rewrite Forall_forall in Hb1, Hb2. unfold below in *.
    apply elem_of_app in Hw as [Hw|Hw]; [specialize (Hb1 w Hw)|specialize (Hb2 w Hw)]; lia.
  - apply view_ext; [done..|]. intros x. rewrite Hm, Hv. naive_solver lia.
Qed.

Lemma resize_in_place l1 v l2 e :
  vmas_wf (l1 ++ v :: l2) -> start v < e <= ADDR_TOP -> Forall (fun w => e <= start w) l2 ->
  vmas_wf (l1 ++ set_end v e :: l2) /\ resized (l1 ++ v :: l2) (l1 ++ set_end v e :: l2) v (start v) e.
Proof.
  intros Hl He Hb. pose proof Hl as (Hl12 & Hv & Hb1 & Hb2)%wf_middle. unfold vma_ok in Hv.
  assert (Hwf : vmas_wf (l1 ++ set_end v e :: l2)).
  { apply wf_middle. split_and!; [done|unfold vma_ok; cbn; lia|exact Hb1|exact Hb]. }
  split; [done|]. apply resized_maps; [done..|]. intros a x. rewrite !maps_app, maps_cons.
  change (attrs (set_end v e)) with (attrs v). cbn [start end_ set_end]. tauto.
Qed.

Lemma relocate l1 v l2 d sz :
  vmas_wf (l1 ++ v :: l2) -> 0 <= d -> 0 < sz -> d + sz <= ADDR_TOP -> free (l1 ++ v :: l2) d (d + sz) ->
  let l' := insert_vma_locked (l1 ++ l2)
              (mkVma d (d + sz) (flags v) (name v) (file_handle v) (file_offset v) (is_shared v) (shm_id v)) in
  vmas_wf l' /\ resized (l1 ++ v :: l2) l' v d (d + sz).
Proof.
  intros Hl Hd Hsz Htop Hf l'. pose proof Hl as (Hl12 & Hv & _)%wf_middle.
  unfold free in Hf. rewrite Forall_app, Forall_cons in Hf. destruct Hf as (Hf1 & _ & Hf2).
  destruct (insert_wf (l1 ++ l2) (mkVma d (d + sz) (flags v) (name v) (file_handle v) (file_offset v) (is_shared v)
             (shm_id v)) Hl12) as [Hwf Hm]; [unfold vma_ok; cbn; lia|apply Forall_app; done|].
  split; [done|]. apply resized_maps; [done..|]. intros a x. unfold l'. rewrite Hm. done.
Qed.

(** The outcome of a successful call: the region of [v] is now at [r], with
    [size] bytes and the attributes it had; no other address changes; and the
    pages that were in the page table are there at their new place. *)
Definition remapped (m m' : Mem) (v : Vma) (r size : Z) : Prop :=
  vmas_wf (vmas m') /\ resized (vmas m) (vmas m') v r (r + size) /\
  (r = start v \/ free (vmas m) r (r + size)) /\
  forall k : nat, PAGE_SIZE * Z.of_nat k < end_ v - start v -> PAGE_SIZE * Z.of_nat k < size ->
    pages m' !! page_down (r + PAGE_SIZE * Z.of_nat k) = pages m !! (start v + PAGE_SIZE * Z.of_nat k).

Definition failed (m m' : Mem) (r : Z) : Prop := m' = m /\ exists e, r = Errno.ret e.

(** What the call relies on: regions lie in user space, the page table of the
    region can be written, and free addresses have no pages in it. *)
Record remap_pre (map_fail : Z -> bool) (m : Mem) (v : Vma) (new_size : Z) : Prop := {
  pre_wf : vmas_wf (vmas m);
  pre_start : find_start (vmas m) (start v) = Some v;
  pre_user : end_ v <= USER_LIMIT;
  pre_aligned : start v mod PAGE_SIZE = 0 /\ end_ v mod PAGE_SIZE = 0 /\ new_size mod PAGE_SIZE = 0;
  pre_size : 0 < new_size < M64;
  pre_src : forall k : nat, PAGE_SIZE * Z.of_nat k < end_ v - start v ->
    map_fail (start v + PAGE_SIZE * Z.of_nat k) = false;
  pre_stale : forall d (k : nat), 0 <= d -> d + new_size <= USER_LIMIT -> free (vmas m) d (d + new_size) ->
    PAGE_SIZE * Z.of_nat k < new_size ->
    pages m !! page_down (d + PAGE_SIZE * Z.of_nat k) = None;
}.

Lemma pages_count x : 0 <= x -> x mod PAGE_SIZE = 0 -> PAGE_SIZE * Z.of_nat (Z.to_nat (x / PAGE_SIZE)) = x.
Proof.
  intros Hx Hm. unfold PAGE_SIZE in *. pose proof (Z.div_mod x 4096). pose proof (Z.div_pos x 4096). lia.
Qed.

Lemma mod_sub x y : x mod PAGE_SIZE = 0 -> y mod PAGE_SIZE = 0 -> (x - y) mod PAGE_SIZE = 0.
Proof. unfold PAGE_SIZE. intros Hx Hy. by rewrite Zminus_mod, Hx, Hy. Qed.

Section remap.
Context {map_fail : Z -> bool} {m : Mem} {v : Vma} {new_size : Z}.
Context (pre : remap_pre map_fail m v new_size).

Lemma pre_split : exists l1 l2, vmas m = l1 ++ v :: l2 /\
  Forall (fun w => start w <> start v) l1 /\ Forall (fun w => start w <> start v) l2 /\ vma_ok v.
Proof.
  destruct (find_start_split _ _ _ (pre_wf _ _ _ _ pre) (pre_start _ _ _ _ pre)) as (l1 & l2 & Hl & _ & H1 & H2).
  exists l1, l2. split_and!; [done..|]. pose proof (pre_wf _ _ _ _ pre) as Hwf. rewrite Hl in Hwf.
  by apply wf_middle in Hwf as (_ & ? & _).
Qed.

(** The pages of the region move to a free place, or nothing changes. *)
Lemma move_to dest (n := Z.to_nat ((end_ v - start v) / PAGE_SIZE)) :
  0 <= dest -> dest + new_size <= USER_LIMIT -> end_ v - start v <= new_size -> free (vmas m) dest (dest + new_size) ->
  exists ok pt, move_pages n 0 map_fail (pages m) (released m) (start v) dest = Ret (ok, pt, released m) /\
    if (ok : bool)
    then forall k : nat, PAGE_SIZE * Z.of_nat k < end_ v - start v ->
           pt !! page_down (dest + PAGE_SIZE * Z.of_nat k) = pages m !! (start v + PAGE_SIZE * Z.of_nat k)
    else pt = pages m.
Proof.
  intros Hd Hlim Hsz Hfree. destruct pre_split as (l1 & l2 & Hl & _ & _ & Hv). destruct pre as [_ _ Hu (Ha & Ha' & _) Hn Hsrc Hst].
  unfold vma_ok in Hv. unfold USER_LIMIT in *.
  assert (Hcount : PAGE_SIZE * Z.of_nat n = end_ v - start v) by (apply pages_count; [lia|by apply mod_sub]).
  assert (Hlt : forall k : nat, (k < n)%nat <-> PAGE_SIZE * Z.of_nat k < end_ v - start v) by (unfold PAGE_SIZE in *; lia).
  assert (Hs : forall k : nat, (k < n)%nat -> src (start v) k = start v + PAGE_SIZE * Z.of_nat k).
  { intros k Hk%Hlt. unfold src. rewrite page_down_add, page_down_aligned by (done || unfold PAGE_SIZE in *; lia). done. }
  assert (Hdisj : end_ v <= dest \/ dest + new_size <= start v).
  { rewrite Hl in Hfree. unfold free in Hfree. rewrite Forall_app, Forall_cons in Hfree. by destruct Hfree as (_ & ? & _). }
  assert (Hdd : forall k : nat, (k < n)%nat -> dst dest k = page_down dest + PAGE_SIZE * Z.of_nat k).
  { intros k Hk%Hlt. unfold dst. apply page_down_add; unfold PAGE_SIZE in *; lia. }
  assert (Hpd : page_down dest <= dest < page_down dest + PAGE_SIZE) by (apply page_down_le; lia).
  assert (Hmod : (page_down dest) mod PAGE_SIZE = 0) by (rewrite page_down_spec by lia; by apply Z.mod_mul).
  destruct (move_pages_spec map_fail (start v) dest n (pages m)) with (m := n) (k := 0%nat) (pt := pages m)
    (rel := released m) as (ok & pt & Hmv & Hok).
  - intros i j Hi Hj. rewrite !Hs by done. unfold PAGE_SIZE. lia.
  - intros i j Hi Hj. rewrite !Hdd by done. unfold PAGE_SIZE. lia.
  - intros i j Hi Hj. rewrite Hs, Hdd by done. apply Hlt in Hi, Hj. unfold PAGE_SIZE in *.
    pose proof (Z.div_mod (page_down dest) 4096). pose proof (Z.div_mod (start v) 4096).
    pose proof (Z.div_mod (end_ v) 4096). lia.
  - intros k Hk%Hlt. split_and!; [apply canonical_low; unfold USER_LIMIT; lia..|].
    apply Z.mod_small. unfold PAGE_SIZE in *. lia.
  - intros k Hk. rewrite Hs by done. apply Hsrc. by apply Hlt.
  - intros k Hk _. apply Hst; [done|lia|done|]. apply Hlt in Hk. lia.
  - split; [lia|done].
  - done.
  - exists ok, pt. split; [done|]. destruct ok; [|done]. destruct Hok as [Hin _]. intros k Hk.
    destruct (Hin k) as (_ & Hkd & _); [apply Hlt in Hk; lia|]. unfold dst in Hkd. rewrite Hkd, Hs by by apply Hlt. done.
Qed.

Lemma dest_spec fixed old_end new_address :
  0 <= old_end -> 0 <= new_address -> (fixed = true -> new_address + new_size <= MAX_ADDR) ->
  exists d, mremap_dest (S (length (vmas m))) (vmas m) fixed old_end new_size new_address = Ret d /\
    match d with
    | inl d => 0 <= d /\ d + new_size <= MAX_ADDR /\ free (vmas m) d (d + new_size)
    | inr r => exists e, r = Errno.ret e
    end.
Proof.
  intros Ho Hn Hfix. destruct pre as [Hwf _ _ _ Hsz _ _]. unfold mremap_dest. destruct fixed.
  - specialize (Hfix eq_refl). unfold MAX_ADDR in *. destruct (negb _); [by eexists; split; [done|eexists]|]. unfold u64. rewrite Z.mod_small by lia.
    destruct (existsb _ _) eqn:Hex; [by eexists; split; [done|eexists]|]. apply existsb_free in Hex.
    by exists (inl new_address).
  - destruct (find_free_first_fit (vmas m) (if new_address =? 0 then old_end else new_address) new_size MAX_ADDR Hwf)
      as (r & -> & Hff); [lia|unfold MAX_ADDR; lia|case_match; lia|].
    destruct r as [d|]; [|by eexists; split; [done|eexists]]. destruct Hff as (? & ? & ? & _).
    exists (inl d). split; [done|]. split; [case_match; lia|done].
Qed.

Lemma move_spec mapper fixed new_address :
  0 <= new_address -> (fixed = true -> new_address + new_size <= MAX_ADDR) -> end_ v - start v <= new_size ->
  exists r m', mremap_move (S (length (vmas m))) mapper map_fail m v fixed (end_ v - start v) new_size new_address
               = Ret (r, m') /\ (failed m m' r \/ remapped m m' v r new_size).
Proof.
  intros Hn Hfix Hsz. destruct pre_split as (l1 & l2 & Hl & H1 & H2 & Hv). unfold mremap_move.
  destruct (dest_spec fixed (u64 (start v + (end_ v - start v))) new_address) as (d & -> & Hd);
    [apply u64_range|done|done|]. destruct d as [d|r]; [|exists r, m; split; [done|by left]].
  destruct Hd as (H0 & Hmax & Hfree). destruct mapper; cbn [negb]; [|eexists _, m; split; [done|left; split; eauto]].
  assert (Hlim : d + new_size <= USER_LIMIT) by (unfold MAX_ADDR, USER_LIMIT in *; lia).
  destruct (move_to d H0 Hlim Hsz Hfree) as (ok & pt & -> & Hok). destruct ok.
  - eexists d, _. split; [done|]. right. pose proof (pre_size _ _ _ _ pre) as Hps. pose proof (pre_wf _ _ _ _ pre) as Hwf.
    cbn [vmas set_vmas]. unfold u64. rewrite Z.mod_small by (unfold USER_LIMIT in *; lia).
    rewrite Hl, filter_middle by done. rewrite Hl in Hwf, Hfree.
    destruct (relocate l1 v l2 d new_size Hwf) as [Hw Hr]; [lia..|unfold ADDR_TOP, USER_LIMIT, PAGE_SIZE in *; lia|done|].
    split_and!; [exact Hw|cbn [vmas]; rewrite Hl; exact Hr|right; by rewrite Hl|]. intros k Hk _. by apply Hok.
  - eexists _, _. split; [done|]. left. subst pt. split; [by destruct m|eauto].
Qed.

Lemma shrink_spec mapper :
  new_size < end_ v - start v ->
  exists pt rel, (if mapper : bool
      then unmap_pages (Z.to_nat ((end_ v - (start v + new_size)) / PAGE_SIZE)) (pages m) (released m) (start v + new_size)
      else Ret (pages m, released m)) = Ret (pt, rel) /\
    remapped m (set_vmas (set_pages m pt rel) (set_end_at (vmas m) (start v) (start v + new_size))) v (start v) new_size.
Proof.
  intros Hsz. destruct pre_split as (l1 & l2 & Hl & H1 & H2 & Hv). unfold vma_ok in Hv.
  destruct pre as [Hwf _ Hu (Ha & Ha' & Ha'') Hps _ _].
  assert (Hal : (start v + new_size) mod PAGE_SIZE = 0) by (unfold PAGE_SIZE in *; by rewrite Zplus_mod, Ha, Ha'').
  assert (Hpt : exists pt rel, (if mapper : bool
      then unmap_pages (Z.to_nat ((end_ v - (start v + new_size)) / PAGE_SIZE)) (pages m) (released m) (start v + new_size)
      else Ret (pages m, released m)) = Ret (pt, rel) /\ forall p, p < start v + new_size -> pt !! p = pages m !! p).
  { destruct mapper; [|by eexists _, _].
    destruct (unmap_pages_spec (Z.to_nat ((end_ v - (start v + new_size)) / PAGE_SIZE)) (pages m) (released m) (start v + new_size))
      as (pt & rel & -> & Hp); [done|lia|rewrite pages_count; [lia|lia|by apply mod_sub]|].
    eexists _, _. split; [done|]. intros p Hp'. apply Hp. by left. }
  destruct Hpt as (pt & rel & -> & Hp). eexists _, _. split; [done|]. rewrite Hl in *.
  pose proof Hwf as (_ & _ & _ & Hb2)%wf_middle.
  destruct (resize_in_place l1 v l2 (start v + new_size) Hwf) as [Hw Hr];
    [unfold ADDR_TOP, USER_LIMIT, PAGE_SIZE in *; lia|eapply Forall_impl; [exact Hb2|]; unfold below; intros; lia|].
  unfold remapped. cbn [vmas pages set_vmas set_pages]. rewrite Hl, set_end_at_middle by done.
  split_and!; [exact Hw|exact Hr|by left|]. intros k Hk1 Hk2.
  rewrite page_down_add, page_down_aligned by (done || unfold USER_LIMIT, PAGE_SIZE in *; lia). apply Hp. lia.
Qed.

Lemma grow_spec :
  end_ v - start v <= new_size -> start v + new_size <= MAX_ADDR ->
  existsb (meets (end_ v) (start v + new_size)) (vmas m) = false ->
  remapped m (set_vmas m (set_end_at (vmas m) (start v) (start v + new_size))) v (start v) new_size.
Proof.
  intros Hsz Hmax Hfree%existsb_free. destruct pre_split as (l1 & l2 & Hl & H1 & H2 & Hv). unfold vma_ok in Hv.
  destruct pre as [Hwf _ Hu (Ha & Ha' & Ha'') Hps _ _]. rewrite Hl in *. pose proof Hwf as (_ & _ & _ & Hb2)%wf_middle.
  unfold free in Hfree. rewrite Forall_app, Forall_cons in Hfree. destruct Hfree as (_ & _ & Hf2).
  destruct (resize_in_place l1 v l2 (start v + new_size) Hwf) as [Hw Hr].
  { unfold ADDR_TOP, MAX_ADDR, PAGE_SIZE in *. lia. }
  { rewrite Forall_forall in Hb2, Hf2. apply Forall_forall. intros w Hw. specialize (Hb2 w Hw). specialize (Hf2 w Hw).
    unfold below in Hb2. assert (Hok : vma_ok w).
    { destruct Hwf as [Hok _]. rewrite Forall_forall in Hok. apply Hok. apply elem_of_app. right. by apply elem_of_cons; right. }
    unfold vma_ok in Hok. lia. }
  unfold remapped. cbn [vmas pages set_vmas]. rewrite Hl, set_end_at_middle by done.
  split_and!; [exact Hw|exact Hr|by left|]. intros k Hk1 Hk2.
  by rewrite page_down_add, page_down_aligned by (done || unfold USER_LIMIT, PAGE_SIZE in *; lia).
Qed.
End remap.

Lemma remapped_same m v :
  vmas_wf (vmas m) -> find_start (vmas m) (start v) = Some v -> start v mod PAGE_SIZE = 0 -> end_ v <= USER_LIMIT ->
  remapped m m v (start v) (end_ v - start v).
Proof.
  intros Hwf Hf Ha Hu. destruct (find_start_split _ _ _ Hwf Hf) as (l1 & l2 & Hl & _ & _ & _).
  unfold remapped. rewrite Hl in *. pose proof Hwf as (_ & Hv & _ & _)%wf_middle. unfold vma_ok in Hv.
  split_and!; [done| |by left|].
  - replace (start v + (end_ v - start v)) with (end_ v) by lia. apply resized_maps; [done..|].
    intros a x. rewrite !maps_app, maps_cons. tauto.
  - intros k Hk _.
    by rewrite page_down_add, page_down_aligned by (done || unfold USER_LIMIT, PAGE_SIZE in *; lia).
Qed.

Lemma resize_spec map_fail m v new_size mapper fixed may_move new_address :
  remap_pre map_fail m v new_size -> 0 <= new_address -> start v + new_size < M64 ->
  (fixed = true -> new_address + new_size <= MAX_ADDR) ->
  exists r m',
    mremap_resize (S (length (vmas m))) mapper map_fail m v fixed may_move (end_ v - start v) new_size new_address
    = Ret (r, m') /\ (failed m m' r \/ remapped m m' v r new_size).
Proof.
  intros pre Hna Hnw Hfix. destruct (pre_split pre) as (_ & _ & _ & _ & _ & Hv). unfold vma_ok, ADDR_TOP, PAGE_SIZE in Hv.
  pose proof pre as [Hwf Hst Hu (Ha & _ & _) Hps _ _]. unfold USER_LIMIT in Hu. unfold mremap_resize.
  assert (Hoe : u64 (start v + (end_ v - start v)) = end_ v) by (unfold u64; rewrite Z.mod_small; lia). rewrite Hoe.
  assert (Hne' : u64 (start v + new_size) = start v + new_size) by (unfold u64; rewrite Z.mod_small; lia).
  destruct (Z.eqb_spec new_size (end_ v - start v)) as [He|Hne]; cbn [andb].
  - destruct fixed; cbn [negb].
    + rewrite (proj2 (Z.ltb_ge new_size _)), (proj2 (Z.ltb_ge _ new_size)) by lia. cbn [andb].
      apply (move_spec pre); [done..|lia].
    + eexists _, m. split; [done|]. right. rewrite He. by apply remapped_same.
  - destruct (Z.ltb_spec new_size (end_ v - start v)) as [Hlt|Hge].
    + rewrite Hne'. destruct (shrink_spec pre mapper Hlt) as (pt & rel & -> & Hr). eauto.
    + destruct (Z.ltb_spec (end_ v - start v) new_size) as [Hgt|]; [|lia]. cbn [andb].
      destruct (_ || _) eqn:Hb; cbn [negb].
      * destruct may_move; cbn [negb]; [apply (move_spec pre); [done..|lia]|].
        eexists _, m. split; [done|]. left. split; eauto.
      * apply orb_false_iff in Hb as [Hmax%Z.ltb_ge Hex]. eexists _, _. split; [done|]. right.
        rewrite Hne' in *. apply (grow_spec pre); [lia|done..].
Qed.

(** What a call of [mremap] relies on: regions in user space, sizes that do
    not wrap around, a fixed destination below the limit, a page table that can
    be written where the region is, and no pages in it at free addresses. *)
Record mremap_args (map_fail : Z -> bool) (m : Mem) (old_address old_size new_size mflags new_address : Z) : Prop := {
  args_user : Forall (fun v => end_ v <= USER_LIMIT) (vmas m);
  args_range : 0 <= old_address /\ 0 <= old_size /\ 0 <= new_size /\ old_address + new_size < M64 /\ 0 <= new_address;
  args_fixed : Z.land mflags MREMAP_FIXED <> 0 -> new_address + new_size <= MAX_ADDR;
  args_src (k : nat) : PAGE_SIZE * Z.of_nat k < old_size ->
    map_fail (old_address + PAGE_SIZE * Z.of_nat k) = false;
  args_free d (k : nat) : 0 <= d -> d + new_size <= USER_LIMIT -> free (vmas m) d (d + new_size) ->
    PAGE_SIZE * Z.of_nat k < new_size -> pages m !! page_down (d + PAGE_SIZE * Z.of_nat k) = None;
}.

Lemma mremap_spec mapper map_fail m old_address old_size new_size mflags new_address :
  vmas_wf (vmas m) -> mremap_args map_fail m old_address old_size new_size mflags new_address ->
  exists r m',
    sys_mremap (S (length (vmas m))) mapper map_fail m old_address old_size new_size mflags new_address = Ret (r, m') /\
    (failed m m' r \/
     exists v, find_start (vmas m) old_address = Some v /\ end_ v = old_address + old_size /\
       remapped m m' v r new_size).
Proof.
  intros Hwf [Hus (Ho & Hos & Hns & Hnw & Hna) Hfix Hsrc Hst]. unfold sys_mremap. rewrite !land_page.
  assert (Hfail : forall e, exists r m', Ret (Errno.ret e, m) = Ret (r, m') /\ (failed m m' r \/
     exists v, find_start (vmas m) old_address = Some v /\ end_ v = old_address + old_size /\ remapped m m' v r new_size))
    by (intros e; eexists _, m; split; [done|]; left; split; eauto).
  destruct (Z.eqb_spec (old_address mod PAGE_SIZE) 0) as [Ha|]; cbn [negb]; [|apply Hfail].
  destruct (_ || _) eqn:H1; [apply Hfail|]. destruct ((new_size =? 0) || _) eqn:H2; [apply Hfail|].
  destruct (negb (Z.land mflags (Z.lnot _) =? 0)); [apply Hfail|]. destruct (_ && _); [apply Hfail|].
  destruct (find_start (vmas m) old_address) as [v|] eqn:Hf; [|apply Hfail].
  destruct (Z.eqb_spec (u64 (end_ v - start v)) old_size) as [Hsz|]; cbn [negb]; [|apply Hfail].
  destruct (find_start_split _ _ _ Hwf Hf) as (l1 & l2 & Hl & Hsv & _ & _).
  assert (Hv : vma_ok v /\ end_ v <= USER_LIMIT).
  { pose proof Hwf as Hwf'. rewrite Hl in Hwf', Hus. apply wf_middle in Hwf' as (_ & ? & _).
    rewrite Forall_app, Forall_cons in Hus. by destruct Hus as (_ & ? & _). }
  destruct Hv as [Hv Hu]. unfold vma_ok, ADDR_TOP, PAGE_SIZE in Hv.
  assert (Hos' : old_size = end_ v - start v) by (rewrite <- Hsz; apply Z.mod_small; lia).
  clear Hsz. subst old_address old_size. apply orb_false_iff in H1 as [_ H1%negb_false_iff%Z.eqb_eq].
  apply orb_false_iff in H2 as [Hz%Z.eqb_neq H2%negb_false_iff%Z.eqb_eq].
  destruct (resize_spec map_fail m v new_size mapper (negb (Z.land mflags MREMAP_FIXED =? 0))
    (negb (Z.land mflags MREMAP_MAYMOVE =? 0)) new_address) as (r & m' & Hr & Hout).
  - split; [done..| |lia|done|done]. split_and!; [done| |done].
    replace (end_ v) with (start v - (start v - end_ v)) by lia. apply mod_sub; [done|].
    replace (start v - end_ v) with (0 - (end_ v - start v)) by lia. by apply mod_sub.
  - done.
  - done.
  - intros Hb%negb_true_iff%Z.eqb_neq. by apply Hfix.
  - exists r, m'. split; [exact Hr|]. destruct Hout as [?|?]; [by left|]. right. exists v. split_and!; [done|lia|done].
Qed.


(** ** A fixed destination is not checked *)

Lemma fixed_call fuel map_fail m v new_address (size := end_ v - start v) :
  vmas_wf (vmas m) -> find_start (vmas m) (start v) = Some v -> Forall (fun w => end_ w <= USER_LIMIT) (vmas m) ->
  start v mod PAGE_SIZE = 0 -> end_ v mod PAGE_SIZE = 0 -> new_address mod PAGE_SIZE = 0 ->
  USER_LIMIT <= new_address -> new_address + size < M64 ->
  sys_mremap fuel true map_fail m (start v) size size 3 new_address =
  match move_pages (Z.to_nat (size / PAGE_SIZE)) 0 map_fail (pages m) (released m) (start v) new_address with
  | Panic => Panic
  | NoFuel => NoFuel
  | Ret (false, pt, rel) => Ret (Errno.ret Errno.ENOMEM, set_pages m pt rel)
  | Ret (true, pt, rel) =>
      Ret (new_address,
           set_vmas (set_pages m pt rel)
             (insert_vma_locked (List.filter (fun w => negb (start w =? start v)) (vmas m))
                (mkVma new_address (u64 (new_address + size)) (flags v) (name v) (file_handle v)
                   (file_offset v) (is_shared v) (shm_id v))))
  end.
Proof.
  intros Hwf Hf Hus Ha He Hna Hlim Hw. unfold sys_mremap, size in *. rewrite !land_page, Ha, mod_sub, Hf by done.
  destruct (find_start_split _ _ _ Hwf Hf) as (l1 & l2 & Hl & _ & _ & _).
  assert (Hv : vma_ok v) by (rewrite Hl in Hwf; by apply wf_middle in Hwf as (_ & ? & _)).
  unfold vma_ok, ADDR_TOP, PAGE_SIZE, USER_LIMIT in Hv, Hlim. rewrite (proj2 (Z.eqb_neq (end_ v - start v) 0)) by lia.
  cbn -[mremap_resize]. unfold u64 at 1. rewrite (Z.mod_small (end_ v - start v)), Z.eqb_refl by lia.
  cbn -[mremap_resize]. unfold mremap_resize. rewrite Z.eqb_refl, Z.ltb_irrefl. cbn -[mremap_move].
  unfold mremap_move, mremap_dest. rewrite land_page, Hna. cbn -[move_pages]. unfold u64 at 1. rewrite Z.mod_small by lia.
  rewrite (proj2 (existsb_free _ _ _)); [done|]. eapply Forall_impl; [exact Hus|]. unfold USER_LIMIT. cbn. intros w ?. lia.
Qed.

(** With [MREMAP_FIXED] the destination is not compared with the limit of
    user space. An address that is not canonical panics the kernel; one in the
    kernel's half that has no page there gets the caller's frame in the page
    table at that kernel address. *)
Theorem mremap_fixed_unchecked fuel map_fail m v frame new_address :
  vmas_wf (vmas m) -> find_start (vmas m) (start v) = Some v -> Forall (fun w => end_ w <= USER_LIMIT) (vmas m) ->
  start v mod PAGE_SIZE = 0 -> end_ v = start v + PAGE_SIZE -> pages m !! start v = Some frame ->
  new_address mod PAGE_SIZE = 0 -> USER_LIMIT <= new_address < ADDR_TOP ->
  map_fail new_address = false -> pages m !! new_address = None ->
  if canonical new_address
  then exists m', sys_mremap fuel true map_fail m (start v) PAGE_SIZE PAGE_SIZE 3 new_address = Ret (new_address, m') /\
         pages m' !! new_address = Some frame
  else sys_mremap fuel true map_fail m (start v) PAGE_SIZE PAGE_SIZE 3 new_address = Panic.
Proof.
  intros Hwf Hf Hus Ha He Hp Hna Hlim Hmf Hnone.
  assert (Hv : vma_ok v /\ end_ v <= USER_LIMIT).
  { destruct (find_start_split _ _ _ Hwf Hf) as (l1 & l2 & Hl & _). rewrite Hl in Hwf, Hus.
    apply wf_middle in Hwf as (_ & ? & _). rewrite Forall_app, Forall_cons in Hus. by destruct Hus as (_ & ? & _). }
  destruct Hv as [Hv Hu]. unfold vma_ok, ADDR_TOP, USER_LIMIT in *.
  assert (Hsz : end_ v - start v = PAGE_SIZE) by lia.
  pose proof (fixed_call fuel map_fail m v new_address Hwf Hf Hus Ha) as Hc. rewrite Hsz in Hc. rewrite Hc; clear Hc.
  - change (Z.to_nat (PAGE_SIZE / PAGE_SIZE)) with 1%nat. cbn [move_pages]. change (Z.of_nat 0) with 0.
    unfold PAGE_SIZE in *. rewrite Z.mul_0_r, !Z.add_0_r. rewrite (u64_small new_address) by (unfold is_u64; lia).
    rewrite (canonical_low (start v)) by (unfold USER_LIMIT; lia). cbn [negb orb].
    destruct (canonical new_address); cbn [negb]; [|done].
    rewrite (page_down_aligned (start v)), (page_down_aligned new_address), Hp by (done || lia). unfold map_to at 1.
    rewrite Hmf, lookup_delete_ne, Hnone by lia. rewrite bool_decide_false by apply is_Some_None. cbn [orb].
    eexists. split; [reflexivity|]. apply lookup_insert_eq.
  - unfold PAGE_SIZE in *. rewrite He. rewrite <- Ha. rewrite <- (Z.mod_add (start v) 1 4096) by lia. f_equal.
  - done.
  - unfold USER_LIMIT. lia.
  - unfold PAGE_SIZE in *. lia.
Qed.

(** ** Every run *)

(** [mremap] keeps the regions well formed whatever is in the page table and
    whether or not it can be written, as long as its ranges do not wrap. *)
Record mremap_range (old_address new_size mflags new_address : Z) : Prop := {
  range_args : 0 <= old_address /\ 0 <= new_size /\ old_address + new_size < M64 /\ 0 <= new_address;
  range_fixed : Z.land mflags MREMAP_FIXED <> 0 -> new_address + new_size <= ADDR_TOP;
}.

Lemma dest_free l fixed old_end new_size new_address d :
  vmas_wf l -> 0 < new_size -> 0 <= old_end -> 0 <= new_address ->
  (fixed = true -> new_address + new_size <= ADDR_TOP) ->
  mremap_dest (S (length l)) l fixed old_end new_size new_address = Ret (inl d) ->
  0 <= d /\ d + new_size <= ADDR_TOP /\ free l d (d + new_size).
Proof.
  intros Hwf Hsz Ho Hn Hfix. unfold mremap_dest. destruct fixed.
  - specialize (Hfix eq_refl). destruct (negb _); [done|]. destruct (existsb _ _) eqn:Hex; [done|].
    intros [= <-]. apply existsb_free in Hex.
    rewrite u64_small in Hex by (unfold is_u64, ADDR_TOP, PAGE_SIZE in *; lia). done.
  - destruct (find_free_first_fit l (if new_address =? 0 then old_end else new_address) new_size MAX_ADDR Hwf)
      as (r & -> & Hff); [lia|unfold MAX_ADDR; lia|case_match; lia|].
    destruct r as [a|]; [|done]. intros [= <-]. destruct Hff as (? & ? & ? & _).
    unfold MAX_ADDR, ADDR_TOP, PAGE_SIZE in *. split_and!; [case_match; lia|lia|done].
Qed.

Lemma mremap_move_wf mapper map_fail m v fixed new_size new_address r m' :
  vmas_wf (vmas m) -> find_start (vmas m) (start v) = Some v -> 0 < new_size -> 0 <= new_address ->
  (fixed = true -> new_address + new_size <= ADDR_TOP) ->
  mremap_move (S (length (vmas m))) mapper map_fail m v fixed (end_ v - start v) new_size new_address = Ret (r, m') ->
  vmas_wf (vmas m').
Proof.
  intros Hwf Hf Hsz Hn Hfix. unfold mremap_move. destruct (mremap_dest _ _ _ _ _ _) as [[d|e]| |] eqn:Hd; [|by intros [= _ <-]|done..].
  apply dest_free in Hd as (H0 & Htop & Hfree); [|done..|apply u64_range|done|done].
  destruct (negb mapper); [by intros [= _ <-]|]. destruct (move_pages _ _ _ _ _ _ _) as [[[[] pt] rel]| |]; [|by intros [= _ <-]|done..].
  intros [= _ <-]. destruct (find_start_split _ _ _ Hwf Hf) as (l1 & l2 & Hl & _ & H1 & H2). cbn [vmas set_vmas].
  rewrite u64_small by (unfold is_u64, ADDR_TOP, PAGE_SIZE in *; lia). rewrite Hl, filter_middle by done.
  rewrite Hl in Hwf, Hfree. by apply (relocate l1 v l2 d new_size).
Qed.

(** The end of a region moves to one that meets no other region. *)
Lemma set_end_at_wf l v e :
  vmas_wf l -> find_start l (start v) = Some v -> start v < e <= ADDR_TOP -> e <= end_ v \/ free l (end_ v) e ->
  vmas_wf (set_end_at l (start v) e).
Proof.
  intros Hwf Hf He Hfree. destruct (find_start_split _ _ _ Hwf Hf) as (l1 & l2 & -> & _ & H1 & _).
  rewrite set_end_at_middle by done. pose proof Hwf as (H12 & Hv & Hb1 & Hb2)%wf_middle. unfold vma_ok in Hv.
  apply resize_in_place; [done..|]. destruct Hfree as [Hle|Hfree].
  { eapply Forall_impl; [exact Hb2|]. unfold below. intros; lia. }
  unfold free in Hfree. rewrite Forall_app, Forall_cons in Hfree. destruct Hfree as (_ & _ & Hf2). destruct Hwf as [Hok _]. rewrite Forall_app, Forall_cons in Hok.
  destruct Hok as (_ & _ & Hok). rewrite Forall_forall in Hb2, Hf2, Hok. apply Forall_forall. intros w Hw.
  specialize (Hb2 w Hw). specialize (Hf2 w Hw). specialize (Hok w Hw). unfold below, vma_ok in *. lia.
Qed.

Lemma mremap_wf mapper map_fail m old_address old_size new_size mflags new_address r m' :
  vmas_wf (vmas m) -> mremap_range old_address new_size mflags new_address ->
  sys_mremap (S (length (vmas m))) mapper map_fail m old_address old_size new_size mflags new_address = Ret (r, m') ->
  vmas_wf (vmas m').
Proof.
  intros Hwf [(Ho & Hns & Hnw & Hna) Hfix]. unfold sys_mremap. destruct (negb _); [by intros [= _ <-]|].
  destruct (_ || _); [by intros [= _ <-]|]. destruct (_ || _) eqn:Hz; [by intros [= _ <-]|].
  apply orb_false_iff in Hz as [Hz%Z.eqb_neq _].
  destruct (negb _); [by intros [= _ <-]|]. destruct (_ && _); [by intros [= _ <-]|].
  destruct (find_start (vmas m) old_address) as [v|] eqn:Hf; [|by intros [= _ <-]].
  destruct (find_start_split _ _ _ Hwf Hf) as (l1 & l2 & Hl & Hsv & _ & _).
  assert (Hv : vma_ok v) by (rewrite Hl in Hwf; by apply wf_middle in Hwf as (_ & ? & _)).
  pose proof Hv as Hv'. unfold vma_ok, ADDR_TOP, PAGE_SIZE in Hv'. subst old_address.
  destruct (Z.eqb_spec (u64 (end_ v - start v)) old_size) as [Hsz|]; cbn [negb]; [|by intros [= _ <-]].
  rewrite u64_small in Hsz by (unfold is_u64; lia). subst old_size. unfold mremap_resize.
  rewrite (u64_small (start v + (end_ v - start v))) by (unfold is_u64; lia).
  replace (start v + (end_ v - start v)) with (end_ v) by lia.
  rewrite (u64_small (start v + new_size)) by (unfold is_u64; lia).
  destruct (_ && _); [by intros [= _ <-]|]. destruct (Z.ltb_spec new_size (end_ v - start v)) as [Hlt|Hge].
  - destruct (if mapper then _ else _) as [[pt rel]| |]; [|done..]. intros [= _ <-]. cbn [vmas set_vmas].
    apply set_end_at_wf; [done|done|unfold ADDR_TOP, PAGE_SIZE; lia|left; lia].
  - destruct (_ && negb (_ || _)) eqn:Hg.
    + intros [= _ <-]. cbn [vmas set_vmas]. apply andb_true_iff in Hg as [_ Hg%negb_true_iff].
      apply orb_false_iff in Hg as [Hmax%Z.ltb_ge Hex%existsb_free]. apply set_end_at_wf; [done|done| |by right].
      unfold MAX_ADDR, ADDR_TOP, PAGE_SIZE in *. lia.
    + clear Hg. destruct (_ && _); [by intros [= _ <-]|]. apply mremap_move_wf; [done..|lia|done|].
      intros Hb%negb_true_iff%Z.eqb_neq. by apply Hfix.
Qed.

(** The calls of a process whose break grows into free addresses and whose
    [munmap] and [mremap] ranges do not wrap around. *)
Inductive space_step (m : Mem) : Mem -> Prop :=
| step_brk addr :
    (brk m < addr -> 0 <= brk m /\ addr <= ADDR_TOP /\ free (vmas m) (brk m) addr) ->
    space_step m (sys_brk m addr).2
| step_mmap can_allocate addr len prot mflags fd offset r m' :
    0 <= addr < M64 -> 0 <= len < M64 ->
    sys_mmap (S (length (vmas m))) can_allocate m addr len prot mflags fd offset = Ret (r, m') ->
    space_step m m'
| step_munmap addr len : 0 <= addr -> 0 <= len -> addr + len < M64 -> space_step m (sys_munmap m addr len).2
| step_mprotect addr len prot : space_step m (sys_mprotect m addr len prot).2
| step_mremap mapper map_fail old_address old_size new_size mflags new_address r m' :
    mremap_range old_address new_size mflags new_address ->
    sys_mremap (S (length (vmas m))) mapper map_fail m old_address old_size new_size mflags new_address = Ret (r, m') ->
    space_step m m'.

Lemma space_step_wf m m' : vmas_wf (vmas m) -> space_step m m' -> vmas_wf (vmas m').
Proof.
  intros Hwf [addr Hb|ca addr len prot mflags fd offset r m1 Ha Hl Hs|addr len Ha Hl Hw|addr len prot|
    mapper map_fail old_address old_size new_size mflags new_address r m1 Hargs Hs].
  - unfold sys_brk. destruct (addr =? 0); [done|]. destruct (Z.ltb_spec (brk m) addr) as [Hlt|]; [|done].
    destruct (Hb Hlt) as (H0 & Htop & Hf). cbn [snd set_brk vmas set_vmas]. apply insert_wf; [done| |done].
    unfold vma_ok. cbn. lia.
  - destruct (mmap_spec ca m addr len prot mflags fd offset Hwf Ha Hl) as (r' & m2 & Hs' & Hwf' & _).
    rewrite Hs in Hs'. by injection Hs' as _ <-.
  - cbn. unfold u64. rewrite Z.mod_small by lia. apply remove_wf; [done|lia].
  - cbn. apply (protect_wf (page_down addr) (page_up (u64 (addr + len))) (prot_flags prot)). done.
  - by apply (mremap_wf mapper map_fail m old_address old_size new_size mflags new_address r m1).
Qed.

(** C16. Through any sequence of [brk], [mmap], [munmap], [mprotect] and
    [mremap] calls that return, with any arguments except three, the list of
    regions keeps its type: every region is non-empty and ends below the last
    page, and the list is ordered with no two regions overlapping, so that each
    address has at most one region and the first one found is it. The
    exceptions: a break that grows over a mapping or into the last page, a
    [munmap] range that wraps around, and an [mremap] whose new size or fixed
    destination makes the new range wrap. The page table is arbitrary, and
    [mremap] may fail on it at any page. *)
Theorem address_space_typed m m' :
  vmas_wf (vmas m) -> rtc space_step m m' ->
  vmas_wf (vmas m') /\
  forall a v w, v ∈ vmas m' -> w ∈ vmas m' -> start v <= a < end_ v -> start w <= a < end_ w ->
    v = w /\ find_vma (vmas m') a = Some v.
Proof.
  intros Hwf Hr. assert (Hwf' : vmas_wf (vmas m')).
  { induction Hr as [|x y z Hxy _ IH]; [done|]. apply IH. by eapply space_step_wf. }
  split; [done|]. intros a v w Hv Hw Ha Ha'. split; [by apply (vma_unique (vmas m') a)|].
  destruct (find_vma (vmas m') a) as [u|] eqn:Hu; [|by eapply find_vma_none in Hu].
  apply find_vma_sound in Hu as [Hu Hc]. f_equal. by apply (vma_unique (vmas m') a).
Qed.

(** ** Examples *)


(** The page is where the region went. *)
Lemma mremap_moves_page :
  match sys_mremap 3 true (fun _ => false) two_regions 0x400000 0x2000 0x3000 1 0 with
  | Ret (r, m') => r = 0x403000 /\ pages m' = {[0x403000 := 77]}
  | _ => False
  end.
Proof. vm_compute. split; reflexivity. Qed.

(** A size that wraps around is accepted and leaves a region that ends below
    its start. *)
Lemma mremap_wrap_inverts :
  match sys_mremap 3 true (fun _ => false) two_regions 0x402000 0x1000 (M64 - 0x400000) 0 0 with
  | Ret (r, m') => r = 0x402000 /\ end_ <$> find_start (vmas m') 0x402000 = Some 0x2000
  | _ => False
  end.
Proof. vm_compute. split; reflexivity. Qed.

(** A page left behind at the destination is moved into the source when the
    move is undone. *)
Lemma mremap_undo_moves_stale :
  let m := mkMem 0 [mkVma 0x10000 0x12000 user_flags "mmap"%string None 0 false None]
             {[0x11000 := 5; 0x20000 := 9]} [] in
  match sys_mremap 2 true (fun p => p =? 0x21000) m 0x10000 0x2000 0x2000 3 0x20000 with
  | Ret (r, m') => r = Errno.ret Errno.ENOMEM /\ pages m' !! 0x10000 = Some 9
  | _ => False
  end.
Proof. vm_compute. split; reflexivity. Qed.

Lemma mremap_fixed_unchecked_witness :
  sys_mremap 1 true (fun _ => false)
    (mkMem 0 [mkVma 0x400000 0x401000 user_flags "elf_phdr"%string None 0 false None] {[0x400000 := 77]} [])
    0x400000 PAGE_SIZE PAGE_SIZE 3 0x800000000000 = Panic.
Proof.
  apply (mremap_fixed_unchecked 1 (fun _ => false)
    (mkMem 0 [mkVma 0x400000 0x401000 user_flags "elf_phdr"%string None 0 false None] {[0x400000 := 77]} [])
    (mkVma 0x400000 0x401000 user_flags "elf_phdr"%string None 0 false None) 77 0x800000000000).
  - split; repeat constructor; cbn; unfold ADDR_TOP, PAGE_SIZE; lia.
  - reflexivity.
  - repeat constructor. cbn. unfold USER_LIMIT. lia.
  - reflexivity.
  - reflexivity.
  - reflexivity.
  - reflexivity.
  - unfold USER_LIMIT, ADDR_TOP, PAGE_SIZE. lia.
  - reflexivity.
  - reflexivity.
Defined.

(** Half a page is unmapped: the first region is split. *)
Lemma address_space_typed_witness :
  exists m', rtc space_step two_regions m' /\ vmas_wf (vmas m') /\ length (vmas m') = 3%nat.
Proof.
  exists (sys_munmap two_regions 0x401000 0x800).2.
  assert (Hr : rtc space_step two_regions (sys_munmap two_regions 0x401000 0x800).2)
    by (apply rtc_once, step_munmap; lia).
  split; [exact Hr|]. split; [apply (address_space_typed two_regions _ two_regions_wf Hr)|vm_compute; reflexivity].
Defined.
