(* ===== verification/Landlock.v ===== *)
(** * Landlock

    Model of the rule sets of [crates/syscalls/src/landlock.rs] and of the
    three system calls and the hook of [kernel/src/syscalls/landlock.rs], by
    which a process gives up access to parts of the file tree. Paths are lists
    of bytes. *)

From S2P Require Import Prelude UserAccess FdTable MqQueue.

Definition LANDLOCK_ABI_VERSION : Z := 2.

(** The thirteen rights from [EXECUTE] to [MAKE_SYM]. *)
Definition SUPPORTED_FS_ACCESS : Z := 0x1FFF.
Definition LANDLOCK_RULE_PATH_BENEATH : Z := 1.

Record LandlockPathRule := mkRule { path_prefix : list Z; allowed_access : Z; handled_access : Z }.

Record LandlockRuleset := mkRuleset {
  rules : list LandlockPathRule;
  handled_access_fs : Z;
  locked : bool;
}.

Record LandlockState := mkLandlock { rulesets : list LandlockRuleset; active : bool }.

(** [str::starts_with] and [str::trim_end_matches('/')]. *)
Fixpoint starts_with (path prefix : list Z) : bool :=
  match prefix, path with
  | [], _ => true
  | _ :: _, [] => false
  | a :: prefix, b :: path => (a =? b) && starts_with path prefix
  end.

Fixpoint trim_end (path : list Z) : list Z :=
  match path with
  | [] => []
  | b :: path =>
      match trim_end path with
      | [] => if b =? 47 then [] else [b]
      | rest => b :: rest
      end
  end.

Module LandlockRuleset.

Definition matches (path : list Z) (r : LandlockPathRule) : bool :=
  starts_with path (path_prefix r) || bool_decide (path = trim_end (path_prefix r)).

(** The loop over the rules with the best match so far and its length. *)
Fixpoint best_match (rules : list LandlockPathRule) (path : list Z) (best : option LandlockPathRule)
    (best_len : nat) : option LandlockPathRule :=
  match rules with
  | [] => best
  | r :: rules =>
      if matches path r && (best_len <? length (path_prefix r))%nat
      then best_match rules path (Some r) (length (path_prefix r))
      else best_match rules path best best_len
  end.

Definition check_access (s : LandlockRuleset) (path : list Z) (access : Z) : bool :=
  let requested := Z.land access (handled_access_fs s) in
  if requested =? 0 then true
  else match best_match (rules s) path None 0 with
       | Some r => Z.land requested (allowed_access r) =? requested
       | None => requested =? 0
       end.

Definition add_rule (s : LandlockRuleset) (path : list Z) (allowed : Z) : Result unit * LandlockRuleset :=
  if locked s then (Err Errno.EPERM, s)
  else (Ok tt, mkRuleset (rules s ++ [mkRule path allowed (handled_access_fs s)]) (handled_access_fs s) (locked s)).

Definition lock (s : LandlockRuleset) : LandlockRuleset := mkRuleset (rules s) (handled_access_fs s) true.

End LandlockRuleset.

Module LandlockState.

Definition check_access (st : LandlockState) (path : list Z) (access : Z) : bool :=
  if negb (active st) || bool_decide (rulesets st = []) then true
  else forallb (fun s => LandlockRuleset.check_access s path access) (rulesets st).

End LandlockState.

(** ** System calls *)

(** What the calls use of the current process. [node] gives the name of a file
    descriptor's node and whether it is a directory. *)
Record LlProc := mkLlProc {
  landlock : LandlockState;
  landlock_fds : gmap Z LandlockRuleset;
  ll_files : ProcessFiles;
  dir_fds : gmap Z (list Z);
  node : Z -> list Z * bool;
}.

Definition set_landlock (p : LlProc) (l : LandlockState) (fds : gmap Z LandlockRuleset) : LlProc :=
  mkLlProc l fds (ll_files p) (dir_fds p) (node p).

(** The number of the new rule set is the length of the descriptor table; the
    slot is pushed onto a copy of the table only. *)
Definition sys_landlock_create_ruleset (m : UserMem) (cur : option LlProc) (user_attr : Z) (size : nat) (flags : Z)
    : Z * option LlProc :=
  if negb (Z.land flags (Z.lnot 1) =? 0) then (Errno.ret Errno.EINVAL, cur)
  else if negb (Z.land flags 1 =? 0) then (LANDLOCK_ABI_VERSION, cur)
  else if (size <? 8)%nat then (Errno.ret Errno.EINVAL, cur)
  else
    match copy_from_user m user_attr (Nat.min size 16) with
    | None => (Errno.ret Errno.EFAULT, cur)
    | Some attr =>
        let handled := le_value (slice 0 8 attr) in
        if negb (Z.land handled (not64 SUPPORTED_FS_ACCESS) =? 0) then (Errno.ret Errno.EOPNOTSUPP, cur)
        else
          match cur with
          | None => (Errno.ret Errno.ESRCH, cur)
          | Some p =>
              let fd := Z.of_nat (length (fd_table (ll_files p))) in
              (fd, Some (set_landlock p (mkLandlock (rulesets (landlock p)) true)
                           (<[fd := mkRuleset [] handled false]> (landlock_fds p))))
          end
    end.

(** The path a descriptor stands for. *)
Definition rule_path (p : LlProc) (parent_fd : Z) : Result (list Z) :=
  match dir_fds p !! u64 parent_fd with
  | Some path => Ok path
  | None =>
      match fd_get (ll_files p) (u64 parent_fd) with
      | Some (File n _) => Ok (if (node p n).2 then 47 :: (node p n).1 else [47])
      | _ => Err Errno.EBADF
      end
  end.

(** The error of a locked rule set is dropped. *)
Definition sys_landlock_add_rule (m : UserMem) (cur : option LlProc) (ruleset_fd rule_type user_attr : Z)
    : Z * option LlProc :=
  if negb (rule_type =? LANDLOCK_RULE_PATH_BENEATH) then (Errno.ret Errno.EINVAL, cur)
  else if user_attr =? 0 then (Errno.ret Errno.EFAULT, cur)
  else
    match copy_from_user m user_attr 16 with
    | None => (Errno.ret Errno.EFAULT, cur)
    | Some attr =>
        let allowed := le_value (slice 0 8 attr) in
        let parent_fd := i32 (le_value (slice 8 4 attr)) in
        if negb (Z.land allowed (not64 SUPPORTED_FS_ACCESS) =? 0) then (Errno.ret Errno.EOPNOTSUPP, cur)
        else
          match cur with
          | None => (Errno.ret Errno.ESRCH, cur)
          | Some p =>
              match rule_path p parent_fd with
              | Err e => (Errno.ret e, cur)
              | Ok path =>
                  match landlock_fds p !! ruleset_fd with
                  | None => (Errno.ret Errno.EBADF, cur)
                  | Some s =>
                      let '(_, s') := LandlockRuleset.add_rule s path allowed in
                      (0, Some (set_landlock p (landlock p) (<[ruleset_fd := s']> (landlock_fds p))))
                  end
              end
          end
    end.

Definition sys_landlock_restrict_self (cur : option LlProc) (ruleset_fd flags : Z) : Z * option LlProc :=
  if negb (flags =? 0) then (Errno.ret Errno.EINVAL, cur)
  else
    match cur with
    | None => (Errno.ret Errno.ESRCH, cur)
    | Some p =>
        match landlock_fds p !! ruleset_fd with
        | None => (Errno.ret Errno.EBADF, cur)
        | Some s =>
            let s' := LandlockRuleset.lock s in
            (0, Some (set_landlock p (mkLandlock (rulesets (landlock p) ++ [s']) true)
                        (<[ruleset_fd := s']> (landlock_fds p))))
        end
    end.

Definition check_fs_access (cur : option LlProc) (path : list Z) (access : Z) : bool :=
  match cur with
  | None => true
  | Some p => LandlockState.check_access (landlock p) path access
  end.

(** ** What a rule set allows *)

Lemma starts_with_spec path prefix : starts_with path prefix = true <-> exists rest, path = prefix ++ rest.
Proof.
  revert path. induction prefix as [|a prefix IH]; intros path; [split; [intros _; by exists path|by destruct path]|].
  destruct path as [|b path]; cbn; [split; [done|by intros [? ?]]|].
  rewrite andb_true_iff, Z.eqb_eq, IH. split; [intros [-> [rest ->]]; by exists rest|].
  intros [rest [= -> ->]]. split; [done|by exists rest].
Qed.

(** The rule that decides: it matches, no matching rule is longer, and of the
    longest it is the first. *)
Definition decides (rules : list LandlockPathRule) (path : list Z) (r : LandlockPathRule) : Prop :=
  exists l1 l2, rules = l1 ++ r :: l2 /\ LandlockRuleset.matches path r = true /\ path_prefix r <> [] /\
    Forall (fun x => LandlockRuleset.matches path x = true -> (length (path_prefix x) < length (path_prefix r))%nat) l1 /\
    Forall (fun x => LandlockRuleset.matches path x = true -> (length (path_prefix x) <= length (path_prefix r))%nat) l2.

Lemma best_match_spec rules path best n :
  match LandlockRuleset.best_match rules path best n with
  | None => best = None /\
      Forall (fun x => LandlockRuleset.matches path x = true -> (length (path_prefix x) <= n)%nat) rules
  | Some r =>
      (best = Some r /\
       Forall (fun x => LandlockRuleset.matches path x = true -> (length (path_prefix x) <= n)%nat) rules) \/
      (n < length (path_prefix r))%nat /\ decides rules path r
  end.
Proof.
  revert best n. induction rules as [|x rules IH]; intros best n; cbn [LandlockRuleset.best_match].
  { destruct best; [left|]; done. }
  destruct (LandlockRuleset.matches path x) eqn:Hm; cbn [andb].
  - destruct (Nat.ltb_spec n (length (path_prefix x))) as [Hlt|Hge].
    + specialize (IH (Some x) (length (path_prefix x))).
      destruct (LandlockRuleset.best_match rules path (Some x) _) as [r|]; [|by destruct IH].
      right. destruct IH as [[[= <-] Hf]|[Hlen (l1 & l2 & -> & Hr & Hne & H1 & H2)]].
      * split; [done|]. exists [], rules. split_and!; [done|done|intros Hn; rewrite Hn in Hlt; cbn in Hlt; lia|constructor|done].
      * split; [lia|]. exists (x :: l1), l2. split_and!; [done..| |done]. apply Forall_cons. split; [intros _; lia|done].
    + specialize (IH best n). destruct (LandlockRuleset.best_match rules path best n) as [r|].
      * destruct IH as [[-> Hf]|[Hlen (l1 & l2 & -> & Hr & Hne & H1 & H2)]].
        -- left. split; [done|]. apply Forall_cons. by split.
        -- right. split; [done|]. exists (x :: l1), l2. split_and!; [done..| |done]. apply Forall_cons. split; [intros _; lia|done].
      * destruct IH as [-> Hf]. split; [done|]. apply Forall_cons. by split.
  - specialize (IH best n). destruct (LandlockRuleset.best_match rules path best n) as [r|].
    + destruct IH as [[-> Hf]|[Hlen (l1 & l2 & -> & Hr & Hne & H1 & H2)]].
      * left. split; [done|]. apply Forall_cons. split; [congruence|done].
      * right. split; [done|]. exists (x :: l1), l2. split_and!; [done..| |done]. apply Forall_cons. split; [congruence|done].
    + destruct IH as [-> Hf]. split; [done|]. apply Forall_cons. split; [congruence|done].
Qed.

(** A rule set decides by the longest matching prefix: rights it does not
    handle are always granted; of those it handles, a request is granted
    exactly when a rule with a non-empty prefix matches and the first of the
    longest such rules allows every requested right; and there is at most one
    such rule. *)
Theorem landlock_longest_prefix s path access :
  (LandlockRuleset.check_access s path access = true <->
   Z.land access (handled_access_fs s) = 0 \/
   exists r, decides (rules s) path r /\
     Z.land (Z.land access (handled_access_fs s)) (allowed_access r) = Z.land access (handled_access_fs s)) /\
  (forall r r', decides (rules s) path r -> decides (rules s) path r' -> r = r').
Proof.
  assert (Huniq : forall r r', decides (rules s) path r -> decides (rules s) path r' -> r = r').
  { intros r r' (l1 & l2 & Hl & Hr & _ & H1 & H2) (k1 & k2 & Hk & Hr' & _ & K1 & K2). rewrite Hl in Hk.
    apply app_eq_inv in Hk as [(k & -> & Hk)|(k & -> & Hk)]; destruct k as [|x k]; injection Hk as Hx Hk2; try done.
    - subst x k2. rewrite Forall_forall in H1, K2.
      specialize (H1 r' ltac:(apply elem_of_app; right; apply elem_of_cons; by left) Hr').
      specialize (K2 r ltac:(apply elem_of_app; right; apply elem_of_cons; by left) Hr). lia.
    - subst x l2. rewrite Forall_forall in K1, H2.
      specialize (K1 r ltac:(apply elem_of_app; right; apply elem_of_cons; by left) Hr).
      specialize (H2 r' ltac:(apply elem_of_app; right; apply elem_of_cons; by left) Hr'). lia. }
  split; [|exact Huniq]. unfold LandlockRuleset.check_access.
  destruct (Z.eqb_spec (Z.land access (handled_access_fs s)) 0) as [|Hne]; [split; auto|].
  pose proof (best_match_spec (rules s) path None 0) as Hb.
  destruct (LandlockRuleset.best_match (rules s) path None 0) as [r|].
  - destruct Hb as [[? _]|[_ Hd]]; [done|]. rewrite Z.eqb_eq. split; [eauto|]. intros [?|(r' & Hd' & He)]; [done|].
    by rewrite (Huniq r r' Hd Hd').
  - destruct Hb as [_ Hf]. split; [done|]. intros [?|(r & (l1 & l2 & Hl & Hm & Hnil & _) & _)]; [done|].
    rewrite Hl, Forall_app, Forall_cons in Hf. destruct Hf as (_ & Hf & _). specialize (Hf Hm).
    destruct (path_prefix r); [done|cbn in Hf; lia].
Qed.

(** ** Restrictions only grow *)

Inductive ll_step (m : UserMem) (p : LlProc) : LlProc -> Prop :=
| ll_create a n f r p' : sys_landlock_create_ruleset m (Some p) a n f = (r, Some p') -> ll_step m p p'
| ll_add fd t a r p' : sys_landlock_add_rule m (Some p) fd t a = (r, Some p') -> ll_step m p p'
| ll_restrict fd f r p' : sys_landlock_restrict_self (Some p) fd f = (r, Some p') -> ll_step m p p'.

(** Rule sets are in force only if the state is active, and those in force are
    kept, in order. *)
Definition ll_inv (p p' : LlProc) : Prop :=
  (rulesets (landlock p') <> [] -> active (landlock p') = true) /\
  exists more, rulesets (landlock p') = rulesets (landlock p) ++ more.

Lemma ll_step_inv m p p' :
  (rulesets (landlock p) <> [] -> active (landlock p) = true) -> ll_step m p p' -> ll_inv p p'.
Proof.
  assert (Hsame : forall q, landlock q = landlock p \/ landlock q = mkLandlock (rulesets (landlock p)) true ->
    (rulesets (landlock p) <> [] -> active (landlock p) = true) -> ll_inv p q).
  { intros q Hq Ha. unfold ll_inv. destruct Hq as [-> | ->]; (split; [done|exists []; by rewrite app_nil_r]). }
  intros Ha [a n f r q Hs|fd t a r q Hs|fd f r q Hs].
  - apply Hsame; [|done]. unfold sys_landlock_create_ruleset in Hs. repeat (case_match; [by injection Hs as _ <-; left|]).
    destruct (copy_from_user _ _ _); [|by injection Hs as _ <-; left].
    case_match; injection Hs as _ <-; [by left|by right].
  - apply Hsame; [left|done]. unfold sys_landlock_add_rule in Hs. repeat (case_match; [by injection Hs as _ <-|]).
    destruct (copy_from_user _ _ _); [|by injection Hs as _ <-].
    case_match; [by injection Hs as _ <-|]. destruct (rule_path _ _); [|by injection Hs as _ <-].
    destruct (landlock_fds p !! fd) as [s|]; [|by injection Hs as _ <-].
    destruct (LandlockRuleset.add_rule _ _ _). by injection Hs as _ <-.
  - unfold sys_landlock_restrict_self in Hs. case_match; [injection Hs as _ <-; by apply Hsame; [left|]|].
    destruct (landlock_fds p !! fd) as [s|]; injection Hs as _ <-; [|by apply Hsame; [left|]].
    split; [done|]. cbn. by eexists.
Qed.

Lemma ll_check p path access :
  (rulesets (landlock p) <> [] -> active (landlock p) = true) ->
  check_fs_access (Some p) path access =
  forallb (fun s => LandlockRuleset.check_access s path access) (rulesets (landlock p)).
Proof.
  intros Ha. unfold check_fs_access, LandlockState.check_access. destruct (rulesets (landlock p)) as [|s l].
  - by rewrite orb_true_r.
  - by rewrite Ha.
Qed.

(** C32. A process can only give access up. Whatever Landlock calls it makes,
    an access that is granted afterwards was granted before; and enforcing a
    rule set leaves exactly the accesses that were granted before and that the
    rule set grants too. *)
Theorem landlock_only_tightens m p p' :
  (rulesets (landlock p) <> [] -> active (landlock p) = true) -> rtc (ll_step m) p p' ->
  (forall path access, check_fs_access (Some p') path access = true -> check_fs_access (Some p) path access = true) /\
  (forall fd s p'', landlock_fds p' !! fd = Some s -> sys_landlock_restrict_self (Some p') fd 0 = (0, Some p'') ->
     forall path access, check_fs_access (Some p'') path access =
       check_fs_access (Some p') path access && LandlockRuleset.check_access s path access).
Proof.
  intros Ha Hr.
  assert (Hinv : (rulesets (landlock p') <> [] -> active (landlock p') = true) /\
                 exists more, rulesets (landlock p') = rulesets (landlock p) ++ more).
  { induction Hr as [p|p q p' Hs _ IH]; [split; [done|exists []; by rewrite app_nil_r]|].
    destruct (ll_step_inv m p q Ha Hs) as [Hq [l1 E1]]. destruct (IH Hq) as [Hp' [l2 E2]]. split; [done|].
    exists (l1 ++ l2). by rewrite E2, E1, <- app_assoc. }
  destruct Hinv as [Ha' [more Hm]]. split.
  - intros path access. rewrite !ll_check by done. rewrite Hm, forallb_app. by intros [? _]%andb_true_iff.
  - intros fd s p'' Hs. unfold sys_landlock_restrict_self. cbn [Z.eqb negb]. rewrite Hs. intros [= <-] path access.
    rewrite !ll_check by done. cbn [set_landlock landlock rulesets]. rewrite forallb_app. cbn. by rewrite andb_true_r.
Qed.

(** A process with one rule set: reading below [/a] only. *)
Definition ll_proc : LlProc :=
  mkLlProc (mkLandlock [] false) {[3 := mkRuleset [mkRule [47; 97] 4 6] 6 false]} (mkFiles [] []) ∅ (fun _ => ([], false)).

Lemma landlock_only_tightens_witness :
  exists p', sys_landlock_restrict_self (Some ll_proc) 3 0 = (0, Some p') /\
    check_fs_access (Some p') [47; 97; 47; 98] 4 = true /\ check_fs_access (Some p') [47; 97; 47; 98] 2 = false.
Proof.
  destruct (landlock_only_tightens ∅ ll_proc ll_proc) as [_ H]; [done|apply rtc_refl|].
  eexists. split; [reflexivity|].
  split; rewrite (H 3 (mkRuleset [mkRule [47; 97] 4 6] 6 false) _ eq_refl eq_refl); vm_compute; reflexivity.
Defined.

(** A prefix is not a directory: a rule for [/a] covers [/ab] as well. *)
Lemma landlock_prefix_not_component :
  LandlockRuleset.check_access (mkRuleset [mkRule [47; 97] 4 4] 4 true) [47; 97; 98] 4 = true.
Proof. reflexivity. Qed.

(** Two rule sets created one after the other have the same number, and the
    second replaces the first. *)
Lemma landlock_create_reuses m p a attr :
  copy_from_user m a 16 = Some attr -> Z.land (le_value (slice 0 8 attr)) (not64 SUPPORTED_FS_ACCESS) = 0 ->
  exists p1 p2 fd, sys_landlock_create_ruleset m (Some p) a 16 0 = (fd, Some p1) /\
    sys_landlock_create_ruleset m (Some p1) a 16 0 = (fd, Some p2).
Proof.
  intros Hc Hb. unfold sys_landlock_create_ruleset. cbn -[SUPPORTED_FS_ACCESS not64 le_value slice copy_from_user].
  rewrite Hc, Hb. by eexists _, _, _.
Qed.

(** The error for a locked rule set does not reach the caller. *)
Lemma landlock_locked_add_succeeds m p fd a attr s path :
  landlock_fds p !! fd = Some s -> locked s = true -> a <> 0 -> copy_from_user m a 16 = Some attr ->
  Z.land (le_value (slice 0 8 attr)) (not64 SUPPORTED_FS_ACCESS) = 0 ->
  rule_path p (i32 (le_value (slice 8 4 attr))) = Ok path ->
  sys_landlock_add_rule m (Some p) fd LANDLOCK_RULE_PATH_BENEATH a =
  (0, Some (set_landlock p (landlock p) (<[fd := s]> (landlock_fds p)))).
Proof.
  intros Hs Hl Ha Hc Hb Hp. unfold sys_landlock_add_rule. cbn [Z.eqb negb].
  rewrite (proj2 (Z.eqb_neq a 0)), Hc, Hb by done. cbn [Z.eqb negb]. rewrite Hp, Hs. unfold LandlockRuleset.add_rule.
  by rewrite Hl.
Qed.
