(* ===== verification/Sched.v ===== *)
(** * The scheduler

    Model of [kernel/src/task/scheduler/]: the queues of each processor and
    the global ones ([mod.rs]), blocking and waking ([spawn.rs]), what a
    context switch does to the queues ([prepare_switch] and
    [route_switching_old] of [switch.rs]) and the timer tick ([tick.rs]).
    The stack switch itself is assembly and not modelled; locks that are only
    tried are parameters. The heap of runnable threads is the standard
    library's [BinaryHeap], which promises a least element but not which of
    several: it is a parameter with that promise. *)

From stdpp Require Import gmap.
From S2P Require Import Prelude.

Inductive ThreadStatus := Ready | Running | Blocked | Exited.

#[export] Instance ThreadStatus_eq_dec : EqDecision ThreadStatus.
Proof. solve_decision. Defined.

Record Thread := mkThread {
  tid : Z;
  status : ThreadStatus;
  process : option Z;
  priority : Z;
  sleep_until : option Z;
  futex_wake_addr : option Z;
  pipe_block_key : option Z;
  first_switch_pending : bool;
  pass : Z;
  stride : Z;
  policy : Z;
  rt_priority : Z;
  rr_time_slice : Z;
  sched_class : Z;
  affinity_mask : Z;
}.

Definition set_status (t : Thread) (x : ThreadStatus) : Thread :=
  mkThread (tid t) x (process t) (priority t) (sleep_until t) (futex_wake_addr t) (pipe_block_key t)
    (first_switch_pending t) (pass t) (stride t) (policy t) (rt_priority t) (rr_time_slice t)
    (sched_class t) (affinity_mask t).

(** The three reasons to be blocked. *)
Definition set_block (t : Thread) (sleep futex pipe : option Z) : Thread :=
  mkThread (tid t) (status t) (process t) (priority t) sleep futex pipe
    (first_switch_pending t) (pass t) (stride t) (policy t) (rt_priority t) (rr_time_slice t)
    (sched_class t) (affinity_mask t).

Definition set_pass (t : Thread) (first : bool) (p : Z) : Thread :=
  mkThread (tid t) (status t) (process t) (priority t) (sleep_until t) (futex_wake_addr t) (pipe_block_key t)
    first p (stride t) (policy t) (rt_priority t) (rr_time_slice t) (sched_class t) (affinity_mask t).

Definition set_slice (t : Thread) (n : Z) : Thread :=
  mkThread (tid t) (status t) (process t) (priority t) (sleep_until t) (futex_wake_addr t) (pipe_block_key t)
    (first_switch_pending t) (pass t) (stride t) (policy t) (rt_priority t) n (sched_class t) (affinity_mask t).

Definition SCHED_FIFO : Z := 1.
Definition SCHED_RR : Z := 2.
Definition MAX_CPUS : nat := 8.

Definition is_realtime (class : Z) : bool := (class =? SCHED_FIFO) || (class =? SCHED_RR).
Definition should_preempt (current candidate : Z) : bool := is_realtime candidate && negb (is_realtime current).

(** [affinity_mask & (1 << cpu) != 0] *)
Definition affine (t : Thread) (cpu : nat) : bool :=
  negb (Z.land (affinity_mask t) (Z.shiftl 1 (Z.of_nat cpu)) =? 0).

Record PerCpuScheduler := mkCpu {
  stride_heap : list Thread;
  ready_queues : list (list Thread);
  ready_queues_dirty : bool;
  current_thread : option Thread;
  switching_old : option Thread;
  idle : option Thread;
  idle_id : option Z;
}.

(** [PER_CPU], [GLOBAL] and [CURRENT_PROCESS], and the processor time charged to
    each process; [reaped] are the threads whose exit has been cleaned up (what
    that does to the process is outside the scheduler). *)
Record Sched := mkSched {
  per_cpu : list PerCpuScheduler;
  pending_queue : list Thread;
  sleep_queue : list Thread;
  block_queue : list Thread;
  futex_queue : list Thread;
  current_process : option Z;
  utime : gmap Z Z;
  reaped : list Thread;
}.

(** Which locks a [try_lock] gets. *)
Record Locks := mkLocks { pending_free : bool; cpu_free : nat -> bool; proc_free : bool; sleep_free : bool }.

Definition new_cpu : PerCpuScheduler := mkCpu [] (replicate 8 []) false None None None None.

Definition cpu_of (s : Sched) (i : nat) : PerCpuScheduler := default new_cpu (per_cpu s !! i).

Definition set_cpu (s : Sched) (i : nat) (c : PerCpuScheduler) : Sched :=
  mkSched (<[i := c]> (per_cpu s)) (pending_queue s) (sleep_queue s) (block_queue s) (futex_queue s)
    (current_process s) (utime s) (reaped s).

Definition set_runnable (c : PerCpuScheduler) (h : list Thread) (q : list (list Thread)) (d : bool) : PerCpuScheduler :=
  mkCpu h q d (current_thread c) (switching_old c) (idle c) (idle_id c).

Definition set_threads (c : PerCpuScheduler) (cur old idl : option Thread) : PerCpuScheduler :=
  mkCpu (stride_heap c) (ready_queues c) (ready_queues_dirty c) cur old idl (idle_id c).

Definition set_pending (s : Sched) (q : list Thread) : Sched :=
  mkSched (per_cpu s) q (sleep_queue s) (block_queue s) (futex_queue s) (current_process s) (utime s) (reaped s).

Definition set_waiting (s : Sched) (sl bl fu : list Thread) : Sched :=
  mkSched (per_cpu s) (pending_queue s) sl bl fu (current_process s) (utime s) (reaped s).

(** ** The queues of a processor *)

(** Move everything in the queues to the heap, if they are marked. *)
Definition flush_ready_queues (c : PerCpuScheduler) : PerCpuScheduler :=
  if ready_queues_dirty c
  then set_runnable c (stride_heap c ++ concat (ready_queues c)) (replicate (length (ready_queues c)) []) false
  else c.

(** [ready_queues[min(priority, 7)].push_back(t)], and the mark. *)
Definition push_ready (c : PerCpuScheduler) (t : Thread) : PerCpuScheduler :=
  set_runnable c (stride_heap c) (alter (fun q => q ++ [t]) (Z.to_nat (Z.min (priority t) 7)) (ready_queues c)) true.

Definition push_thread (c : PerCpuScheduler) (t : Thread) : PerCpuScheduler :=
  set_runnable c (t :: stride_heap c) (ready_queues c) (ready_queues_dirty c).

(** Take up to [max_wake] matching threads off a queue: the ones taken, ready,
    and the queue that stays. *)
Fixpoint drain (matches : Thread -> bool) (clear : Thread -> Thread) (max_wake : Z) (q : list Thread)
    : list Thread * list Thread :=
  match q with
  | [] => ([], [])
  | t :: q =>
      if (0 <? max_wake) && matches t
      then let '(w, r) := drain matches clear (max_wake - 1) q in (set_status (clear t) Ready :: w, r)
      else let '(w, r) := drain matches clear max_wake q in (w, t :: r)
  end.

Definition drain_wake (c : PerCpuScheduler) (q : list Thread) (max_wake : Z) (matches : Thread -> bool)
    (clear : Thread -> Thread) : Z * PerCpuScheduler * list Thread :=
  let '(woken, rest) := drain matches clear max_wake q in
  (Z.of_nat (length woken), foldl push_ready c woken, rest).

(** ** Picking a thread *)

(** The places of the queues from level 7 down, each from its front. *)
Definition places (qs : list (list Thread)) : list (nat * nat * Thread) :=
  concat (reverse (imap (fun level q => imap (fun idx t => (level, idx, t)) q) qs)).

(** The real-time thread that dominates the others. *)
Definition rt_dominates (best : option (nat * nat * Thread)) (t : Thread) : bool :=
  match best with
  | None => true
  | Some (_, _, b) =>
      if (policy t =? 1) && negb (policy b =? 1) then true
      else if policy t =? policy b then rt_priority b <? rt_priority t
      else false
  end.

Definition rt_better (b : option (nat * nat * Thread)) (t : Thread) : bool :=
  match b with None => true | Some (_, _, b) => rt_priority b <? rt_priority t end.

Definition rt_best (better : option (nat * nat * Thread) -> Thread -> bool) (cpu : nat) (qs : list (list Thread))
    : option (nat * nat * Thread) :=
  foldl (fun best p => let '(level, idx, t) := p in
           if (policy t =? 0) || negb (affine t cpu) then best
           else if better best t then Some p else best) None (places qs).

(** The thread, and the queues without it. *)
Definition rt_take (better : option (nat * nat * Thread) -> Thread -> bool) (cpu : nat) (qs : list (list Thread))
    : option (Thread * list (list Thread)) :=
  '(level, idx, t) ← rt_best better cpu qs;
  Some (t, alter (delete idx) level qs).

Class HeapPop (pop : list Thread -> option (Thread * list Thread)) := {
  pop_none l : pop l = None -> l = [];
  pop_some l t r : pop l = Some (t, r) -> l ≡ₚ t :: r /\ Forall (fun u => pass t <= pass u) r;
}.

Section scheduler.
Context (pop : list Thread -> option (Thread * list Thread)).

(** Try the other processors in turn. A thread popped from another heap that
    may not run here is neither returned nor put back. *)
Fixpoint steal (lk : Locks) (me cpu : nat) (others : list nat) (s : Sched) : option Thread * Sched :=
  match others with
  | [] => (None, s)
  | i :: others =>
      if (i =? cpu)%nat || (i =? me)%nat || negb (cpu_free lk i) then steal lk me cpu others s
      else
        let c := flush_ready_queues (cpu_of s i) in
        match rt_take rt_better cpu (ready_queues c) with
        | Some (t, qs) => (Some t, set_cpu s i (set_runnable c (stride_heap c) qs (ready_queues_dirty c)))
        | None =>
            match pop (stride_heap c) with
            | Some (t, h) =>
                let s' := set_cpu s i (set_runnable c h (ready_queues c) (ready_queues_dirty c)) in
                if affine t cpu then (Some t, s') else steal lk me cpu others s'
            | None => steal lk me cpu others (set_cpu s i c)
            end
        end
  end.

(** [pick_next] of scheduler [me] on processor [cpu]. *)
Definition pick_next (lk : Locks) (me cpu : nat) (s : Sched) : option Thread * Sched :=
  let c := flush_ready_queues (cpu_of s me) in
  let s := set_cpu s me c in
  match (if pending_free lk then pending_queue s else []) with
  | t :: q => (Some t, set_pending s q)
  | [] =>
      match rt_take rt_dominates cpu (ready_queues c) with
      | Some (t, qs) => (Some t, set_cpu s me (set_runnable c (stride_heap c) qs (ready_queues_dirty c)))
      | None =>
          match pop (stride_heap c) with
          | Some (t, h) =>
              if affine t cpu
              then (Some t, set_cpu s me (set_runnable c h (ready_queues c) (ready_queues_dirty c)))
              else steal lk me cpu (seq 0 MAX_CPUS)
                     (set_cpu s me (set_runnable c (t :: h) (ready_queues c) (ready_queues_dirty c)))
          | None => steal lk me cpu (seq 0 MAX_CPUS) s
          end
      end
  end.

(** ** Switching *)

(** Where a thread goes that is switched away from. *)
Definition route_outgoing (s : Sched) (me : nat) (t : Thread) : Sched :=
  if bool_decide (is_Some (sleep_until t))
  then set_waiting s (sleep_queue s ++ [t]) (block_queue s) (futex_queue s)
  else if bool_decide (is_Some (futex_wake_addr t))
  then set_waiting s (sleep_queue s) (block_queue s) (futex_queue s ++ [t])
  else if bool_decide (is_Some (pipe_block_key t))
  then set_waiting s (sleep_queue s) (block_queue s ++ [t]) (futex_queue s)
  else if negb (bool_decide (status t = Exited))
  then set_cpu s me (push_ready (cpu_of s me) (set_status t Ready))
  else mkSched (per_cpu s) (pending_queue s) (sleep_queue s) (block_queue s) (futex_queue s)
         (current_process s) (utime s) (t :: reaped s).

Definition route_switching_old (s : Sched) (me : nat) : Sched :=
  let c := cpu_of s me in
  match switching_old c with
  | None => s
  | Some t => route_outgoing (set_cpu s me (set_threads c (current_thread c) None (idle c))) me t
  end.

(** Whether the idle thread runs when nothing else can. *)
Definition want_idle (cur : option Thread) : bool :=
  match cur with
  | None => true
  | Some t =>
      match status t with
      | Exited => true
      | Blocked => bool_decide (is_Some (futex_wake_addr t)) || bool_decide (is_Some (pipe_block_key t))
      | _ => false
      end
  end.

(** The incoming thread becomes current, the outgoing one is parked, put back
    as idle, or routed at once for a new child. *)
Definition switch_to (s : Sched) (me : nat) (next : Thread) : Sched :=
  let child_first := first_switch_pending next in
  let next' := set_pass (set_status next Running) false (pass next) in
  let c := cpu_of s me in
  match current_thread c with
  | None => set_cpu s me (set_threads c (Some next') None (idle c))
  | Some old =>
      if bool_decide (status old = Exited)
      then set_cpu s me (set_threads c (Some next') (Some old) (idle c))
      else
        let old' := set_pass old (first_switch_pending old) (u64 (pass old + stride old)) in
        if bool_decide (idle_id c = Some (tid old))
        then set_cpu s me (set_threads c (Some next') (switching_old c) (Some old'))
        else if child_first
        then
          let s' := route_outgoing (set_cpu s me (set_threads c None (switching_old c) (idle c))) me old' in
          set_cpu s' me (set_threads (cpu_of s' me) (Some next') (switching_old (cpu_of s' me)) (idle (cpu_of s' me)))
        else set_cpu s me (set_threads c (Some next') (Some old') (idle c))
  end.

(** [true] when there is a switch to make. *)
Definition prepare_switch (lk : Locks) (me : nat) (s : Sched) : bool * Sched :=
  let s := route_switching_old s me in
  let '(picked, s) := pick_next lk me me s in
  let c := cpu_of s me in
  let '(next, s) := match picked with
                    | Some t => (Some t, s)
                    | None => if want_idle (current_thread c)
                              then (idle c, set_cpu s me (set_threads c (current_thread c) (switching_old c) None))
                              else (None, s)
                    end in
  match next with
  | None => (false, s)
  | Some next =>
      let c := cpu_of s me in
      let back := set_cpu s me (push_ready c next) in
      if negb (first_switch_pending next) &&
         match current_thread c with
         | Some cur => bool_decide (status cur = Running) && should_preempt (sched_class next) (sched_class cur)
         | None => false
         end
      then (false, back)
      else
        match process next with
        | Some p =>
            if negb (proc_free lk) then (false, back)
            else (true, switch_to (mkSched (per_cpu s) (pending_queue s) (sleep_queue s) (block_queue s)
                                     (futex_queue s) (Some p) (utime s) (reaped s)) me next)
        | None => (true, switch_to s me next)
        end
  end.

(** [try_schedule] up to the switch: whether there is one. *)
Definition try_schedule (quiesce : bool) (lk : Locks) (me : nat) (s : Sched) : bool * Sched :=
  if quiesce || negb (cpu_free lk me) then (false, s)
  else match current_thread (cpu_of s me) with
       | None => (false, s)
       | Some _ => prepare_switch lk me s
       end.

Definition with_current (s : Sched) (me : nat) (f : Thread -> Thread) : Sched :=
  let c := cpu_of s me in
  set_cpu s me (set_threads c (f <$> current_thread c) (switching_old c) (idle c)).

(** The branch of [schedule] without a switch: whether the current thread goes
    on running. [sig] is [check_signal_interrupt()]. *)
Definition schedule_resume (now : Z) (sig : bool) (s : Sched) (me : nat) : bool * Sched :=
  match current_thread (cpu_of s me) with
  | None => (false, s)
  | Some cur =>
      match status cur, sleep_until cur with
      | Running, _ => (true, s)
      | Blocked, Some t =>
          if (t <=? now) || sig
          then (true, with_current s me (fun c => set_block (set_status c Running) None (futex_wake_addr c) (pipe_block_key c)))
          else (false, s)
      | _, _ => (false, s)
      end
  end.

(** One turn of the loop of [schedule]: switch, return, or halt and try again. *)
Inductive Turn := Switched | Returned | Halted.

Definition schedule_turn (quiesce : bool) (lk : Locks) (now : Z) (sig : bool) (me : nat) (s : Sched) : Turn * Sched :=
  if quiesce then (Halted, s)
  else
    let '(sw, s) := prepare_switch lk me s in
    if sw then (Switched, s)
    else let '(back, s) := schedule_resume now sig s me in (if back then Returned else Halted, s).

(** ** Spawning, blocking and waking *)

Definition spawn_thread (s : Sched) (t : Thread) : Sched := set_pending s (pending_queue s ++ [t]).

(** The marks [block_on_pipe] and [sleep_until_tick] make before [schedule]. *)
Definition block_on_pipe (s : Sched) (me : nat) (k : Z) : Sched :=
  with_current s me (fun t => set_block (set_status t Blocked) (sleep_until t) (futex_wake_addr t) (Some k)).

Definition sleep_until_tick (s : Sched) (me : nat) (target : Z) : Sched :=
  with_current s me (fun t => set_block (set_status t Blocked) (Some target) (futex_wake_addr t) (pipe_block_key t)).

Definition U32_MAX : Z := 2 ^ 32 - 1.

Definition clear_pipe (t : Thread) : Thread := set_block t (sleep_until t) (futex_wake_addr t) None.
Definition clear_futex (t : Thread) : Thread := set_block t (sleep_until t) None (pipe_block_key t).
Definition of_process (pid : Z) (t : Thread) : bool :=
  match process t with Some p => p =? pid | None => false end.

Definition wake_block_queue (s : Sched) (me : nat) (n : Z) (matches : Thread -> bool) : Z * Sched :=
  let '(woken, c, q) := drain_wake (cpu_of s me) (block_queue s) n matches clear_pipe in
  (woken, set_cpu (set_waiting s (sleep_queue s) q (futex_queue s)) me c).

Definition wake_futex_queue (s : Sched) (me : nat) (n : Z) (matches : Thread -> bool) : Z * Sched :=
  let '(woken, c, q) := drain_wake (cpu_of s me) (futex_queue s) n matches clear_futex in
  (woken, set_cpu (set_waiting s (sleep_queue s) (block_queue s) q) me c).

Definition wake_pipe (s : Sched) (me : nat) (k : Z) : Sched :=
  snd (wake_block_queue s me U32_MAX (fun t => bool_decide (pipe_block_key t = Some k))).

Definition wake_futex (s : Sched) (me : nat) (uaddr max_wake : Z) : Z * Sched :=
  wake_futex_queue s me max_wake (fun t => bool_decide (futex_wake_addr t = Some uaddr)).

Definition wake_process_futex (s : Sched) (me : nat) (pid : Z) : Z * Sched :=
  wake_futex_queue s me U32_MAX (of_process pid).

Definition wake_process_blocked (s : Sched) (me : nat) (pid : Z) : Z * Sched :=
  wake_block_queue s me U32_MAX (of_process pid).

(** [yield_now] on processor [cpu] always works on scheduler 0, and puts back
    what it picked. *)
Definition yield_now (lk : Locks) (cpu : nat) (s : Sched) : Sched :=
  if negb (cpu_free lk 0) then s
  else match current_thread (cpu_of s 0) with
       | None => s
       | Some _ =>
           match pick_next lk 0 cpu (with_current s 0 (fun t => set_status t Ready)) with
           | (Some t, s) => set_cpu s 0 (push_ready (cpu_of s 0) (set_status t Ready))
           | (None, s) => s
           end
       end.

(** ** The timer tick *)

(** Due sleepers, and those with a signal that [sig] reports for their
    process, become ready. *)
Definition tick_wakes (now : Z) (sig : Z -> bool) (t : Thread) : bool :=
  match sleep_until t with Some w => w <=? now | None => false end ||
  match process t with Some p => sig p | None => false end.

Definition run_tick_inner (lk : Locks) (now : Z) (sig : Z -> bool) (me : nat) (s : Sched) : Sched :=
  let s := if sleep_free lk
           then let '(woken, rest) := drain (tick_wakes now sig)
                                        (fun t => set_block t None (futex_wake_addr t) (pipe_block_key t))
                                        (Z.of_nat (length (sleep_queue s))) (sleep_queue s) in
                set_cpu (set_waiting s rest (block_queue s) (futex_queue s)) me (foldl push_ready (cpu_of s me) woken)
           else s in
  match current_thread (cpu_of s me) ≫= process with
  | Some p => mkSched (per_cpu s) (pending_queue s) (sleep_queue s) (block_queue s) (futex_queue s)
                (current_process s) (<[p := u64 (default 0 (utime s !! p) + 1)]> (utime s)) (reaped s)
  | None => s
  end.

(** The round-robin quantum of the current thread: whether it ran out. *)
Definition rr_tick (t : Thread) : bool * Thread :=
  if (policy t =? 2) && (0 <? rr_time_slice t)
  then if rr_time_slice t - 1 =? 0 then (true, set_slice t 4) else (false, set_slice t (rr_time_slice t - 1))
  else (false, t).

Definition need_resched (lk : Locks) (expired : bool) (s : Sched) (c : PerCpuScheduler) : bool :=
  expired || (pending_free lk && negb (bool_decide (pending_queue s = []))) ||
  negb (bool_decide (stride_heap c = [])) ||
  (ready_queues_dirty c && existsb (fun q => negb (bool_decide (q = []))) (ready_queues c)).

(** [load_balance]: [lk] are the locks of the count, [lk'] those of the move. *)
Fixpoint balance_to (lk : Locks) (cpu : nat) (counts : list nat) (avg : nat) (targets : list nat) (s : Sched) : Sched :=
  match targets with
  | [] => s
  | i :: targets =>
      if (i =? cpu)%nat || (avg <=? default 0%nat (counts !! i))%nat || negb (cpu_free lk i)
      then balance_to lk cpu counts avg targets s
      else match pop (stride_heap (cpu_of s cpu)) with
           | None => balance_to lk cpu counts avg targets s
           | Some (t, h) =>
               let c := cpu_of s cpu in
               let here h := set_cpu s cpu (set_runnable c h (ready_queues c) (ready_queues_dirty c)) in
               if is_realtime (sched_class t) then here (t :: h)
               else if affine t i
               then let o := cpu_of s i in
                    set_cpu (here h) i (set_runnable o (t :: stride_heap o) (ready_queues o) true)
               else here (t :: h)
           end
  end.

Definition load_balance (lk lk' : Locks) (cpu : nat) (s : Sched) : Sched :=
  let counts := (fun i => if cpu_free lk i then length (stride_heap (cpu_of s i)) else 0%nat) <$> seq 0 MAX_CPUS in
  let total := sum_list counts in
  if (total <? 2)%nat then s
  else
    let avg := (total / MAX_CPUS)%nat in
    if negb (cpu_free lk' cpu) then s
    else if (avg + 2 <? length (stride_heap (cpu_of s cpu)))%nat
    then balance_to lk' cpu counts avg (seq 0 MAX_CPUS) s
    else s.

(** The first two phases of [tick]; the timers it also advances belong to
    other components. *)
Definition tick (quiesce : bool) (lk lk' lk'' : Locks) (now : Z) (sig : Z -> bool) (me : nat) (s : Sched) : Sched :=
  if negb (cpu_free lk me) then s
  else
    let expired := match current_thread (cpu_of s me) with Some t => fst (rr_tick t) | None => false end in
    let s := with_current s me (fun t => snd (rr_tick t)) in
    let again := need_resched lk expired s (cpu_of s me) in
    let s := run_tick_inner lk now sig me s in
    if again then snd (try_schedule quiesce lk' me s)
    else if now mod 10 =? 0 then load_balance lk' lk'' me s else s.
End scheduler.
