(* ===== verification/SchedSound.v ===== *)
(** * The scheduler loses no thread

    Every operation of [Sched] moves threads between queues. Threads are
    counted by their identity and affinity; each operation keeps every count,
    except that stealing discards threads pinned elsewhere. *)

From stdpp Require Import gmap.
From S2P Require Import Prelude Sched.

Definition key (t : Thread) : Z * Z := (tid t, affinity_mask t).

(** How often a thread with key [k] is in a list. *)
Fixpoint occ (k : Z * Z) (l : list Thread) : nat :=
  match l with
  | [] => 0
  | t :: l => (if bool_decide (key t = k) then 1 else 0) + occ k l
  end.

Definition olist (o : option Thread) : list Thread := match o with Some t => [t] | None => [] end.

Definition cpu_threads (c : PerCpuScheduler) : list Thread :=
  stride_heap c ++ concat (ready_queues c) ++ olist (current_thread c) ++ olist (switching_old c) ++ olist (idle c).

(** Every thread the scheduler knows. *)
Definition threads (s : Sched) : list Thread :=
  concat (cpu_threads <$> per_cpu s) ++ pending_queue s ++ sleep_queue s ++ block_queue s ++ futex_queue s ++ reaped s.

(** Eight queues, unmarked only when empty; the idle slot holds the idle thread. *)
Definition cpu_wf (c : PerCpuScheduler) : Prop :=
  length (ready_queues c) = 8%nat /\
  (ready_queues_dirty c = false -> Forall (fun q => q = []) (ready_queues c)) /\
  (forall t, idle c = Some t -> idle_id c = Some (tid t)).

Definition sched_wf (s : Sched) : Prop := length (per_cpu s) = MAX_CPUS /\ Forall cpu_wf (per_cpu s).

Lemma occ_app k l l' : occ k (l ++ l') = (occ k l + occ k l')%nat.
Proof. induction l; simpl; lia. Qed.

Lemma occ_perm k l l' : l ≡ₚ l' -> occ k l = occ k l'.
Proof. induction 1; simpl; lia. Qed.

Lemma occ_concat_alter k f i (qs : list (list Thread)) q :
  qs !! i = Some q ->
  (occ k (concat (alter f i qs)) + occ k q = occ k (concat qs) + occ k (f q))%nat.
Proof.
  revert i. induction qs as [|q' qs IH]; intros [|i] H; simplify_eq/=; rewrite ?occ_app; [lia|].
  specialize (IH i H). lia.
Qed.

Lemma occ_concat_insert k i (c c' : PerCpuScheduler) l :
  l !! i = Some c ->
  (occ k (concat (cpu_threads <$> <[i := c']> l)) + occ k (cpu_threads c)
   = occ k (concat (cpu_threads <$> l)) + occ k (cpu_threads c'))%nat.
Proof.
  revert i. induction l as [|d l IH]; intros [|i] H; simplify_eq/=; rewrite ?occ_app; [lia|].
  specialize (IH i H). lia.
Qed.

Lemma sched_wf_cpu s i : sched_wf s -> (i < MAX_CPUS)%nat -> per_cpu s !! i = Some (cpu_of s i) /\ cpu_wf (cpu_of s i).
Proof.
  intros [Hl Hf] Hi. unfold cpu_of. destruct (lookup_lt_is_Some_2 (per_cpu s) i) as [c Hc]; [lia|].
  rewrite Hc. split; [done|]. exact (Forall_lookup_1 _ _ _ _ Hf Hc).
Qed.

Lemma cpu_of_set s i c : sched_wf s -> (i < MAX_CPUS)%nat -> cpu_of (set_cpu s i c) i = c.
Proof. intros [Hl _] Hi. unfold cpu_of, set_cpu; simpl. rewrite list_lookup_insert_eq; [done|lia]. Qed.

Lemma cpu_of_set_ne s i j c : i <> j -> cpu_of (set_cpu s i c) j = cpu_of s j.
Proof. intros Hne. unfold cpu_of, set_cpu; simpl. by rewrite list_lookup_insert_ne. Qed.

Lemma set_cpu_wf s i c : sched_wf s -> cpu_wf c -> sched_wf (set_cpu s i c).
Proof. intros [Hl Hf] Hc. split; simpl; [by rewrite length_insert|]. by apply Forall_insert. Qed.

Lemma set_cpu_occ k s i c :
  sched_wf s -> (i < MAX_CPUS)%nat ->
  (occ k (threads (set_cpu s i c)) + occ k (cpu_threads (cpu_of s i))
   = occ k (threads s) + occ k (cpu_threads c))%nat.
Proof.
  intros Hs Hi. destruct (sched_wf_cpu s i Hs Hi) as [Hc _].
  unfold threads. simpl. rewrite !occ_app. pose proof (occ_concat_insert k i _ c _ Hc). lia.
Qed.

(** ** A processor's own operations *)

Lemma concat_empties n : concat (replicate n (@nil Thread)) = [].
Proof. by induction n. Qed.

Lemma concat_all_empty (qs : list (list Thread)) : Forall (fun q => q = []) qs -> concat qs = [].
Proof. by induction 1 as [|q qs -> _ IH]. Qed.

Lemma flush_wf c : cpu_wf c -> cpu_wf (flush_ready_queues c).
Proof.
  intros (Hl & Hd & Hi). unfold flush_ready_queues. destruct (ready_queues_dirty c) eqn:E; [|by split_and!; auto].
  split; [by simpl; rewrite length_replicate|]. split; [|done]. intros _. apply Forall_replicate. done.
Qed.

Lemma flush_empty c : cpu_wf c -> Forall (fun q => q = []) (ready_queues (flush_ready_queues c)).
Proof.
  intros (Hl & Hd & Hi). unfold flush_ready_queues. destruct (ready_queues_dirty c) eqn:E; [|by auto].
  by apply Forall_replicate.
Qed.

Lemma flush_occ k c : occ k (cpu_threads (flush_ready_queues c)) = occ k (cpu_threads c).
Proof.
  unfold flush_ready_queues. destruct (ready_queues_dirty c); [|done].
  unfold cpu_threads; simpl. rewrite concat_empties, !occ_app. simpl. lia.
Qed.

Lemma flush_heap c :
  cpu_wf c -> stride_heap (flush_ready_queues c) = stride_heap c ++ concat (ready_queues c).
Proof.
  intros (_ & Hd & _). unfold flush_ready_queues. destruct (ready_queues_dirty c); [done|].
  by rewrite (concat_all_empty _ (Hd eq_refl)), app_nil_r.
Qed.

Lemma flush_slots c :
  current_thread (flush_ready_queues c) = current_thread c /\
  switching_old (flush_ready_queues c) = switching_old c /\
  idle (flush_ready_queues c) = idle c /\ idle_id (flush_ready_queues c) = idle_id c.
Proof. unfold flush_ready_queues. by destruct (ready_queues_dirty c). Qed.

Lemma push_ready_wf c t : cpu_wf c -> cpu_wf (push_ready c t).
Proof. intros (Hl & Hd & Hi). split; [by simpl; rewrite length_alter|]. by split. Qed.

Lemma push_ready_occ k c t : cpu_wf c -> occ k (cpu_threads (push_ready c t)) = (occ k [t] + occ k (cpu_threads c))%nat.
Proof.
  intros (Hl & _ & _). unfold cpu_threads, push_ready; simpl. rewrite !occ_app.
  destruct (lookup_lt_is_Some_2 (ready_queues c) (Z.to_nat (Z.min (priority t) 7))) as [q Hq]; [lia|].
  pose proof (occ_concat_alter k (fun q => q ++ [t]) _ _ _ Hq) as H. cbv beta in H.
  rewrite occ_app in H. simpl in H. lia.
Qed.

Lemma push_all_wf l c : cpu_wf c -> cpu_wf (foldl push_ready c l).
Proof. revert c. induction l; simpl; auto using push_ready_wf. Qed.

Lemma push_all_occ k l c :
  cpu_wf c -> occ k (cpu_threads (foldl push_ready c l)) = (occ k l + occ k (cpu_threads c))%nat.
Proof.
  revert c. induction l as [|t l IH]; intros c Hc; [done|]. cbn [foldl].
  rewrite IH by (by apply push_ready_wf). rewrite push_ready_occ by done. simpl. lia.
Qed.

Lemma drain_occ k matches clear n q :
  (forall t, key (clear t) = key t) ->
  (occ k (fst (drain matches clear n q)) + occ k (snd (drain matches clear n q)) = occ k q)%nat.
Proof.
  intros Hk. revert n. induction q as [|t q IH]; intros n; [done|]. cbn [drain].
  destruct ((0 <? n) && matches t).
  - specialize (IH (n - 1)). destruct (drain _ _ _ q) as [w r]. simpl in *.
    replace (key (set_status (clear t) Ready)) with (key t) by (by rewrite <- (Hk t)). lia.
  - specialize (IH n). destruct (drain _ _ _ q) as [w r]. simpl in *. lia.
Qed.

(** ** Picking *)

Lemma places_empty qs : Forall (fun q => q = []) qs -> places qs = [].
Proof.
  intros H. unfold places. apply concat_nil_Forall, Forall_reverse, Forall_lookup_2.
  intros i x. rewrite list_lookup_imap. intros (q & Hq & ->)%fmap_Some.
  by rewrite (Forall_lookup_1 _ _ _ _ H Hq).
Qed.

Lemma rt_take_empty better cpu qs : Forall (fun q => q = []) qs -> rt_take better cpu qs = None.
Proof. intros H. unfold rt_take, rt_best. by rewrite (places_empty _ H). Qed.

Definition slots (c : PerCpuScheduler) := (current_thread c, switching_old c, idle c, idle_id c).

(** Going from [s] to [s'] takes out the thread of [o] and loses only threads
    that may not run on [cpu]; it leaves running, parked and idle threads. *)
Definition picks (cpu : nat) (s : Sched) (o : option Thread) (s' : Sched) : Prop :=
  (sched_wf s' /\ reaped s' = reaped s) /\
  (forall i, (i < MAX_CPUS)%nat -> slots (cpu_of s' i) = slots (cpu_of s i)) /\
  exists lost, Forall (fun t => affine t cpu = false) lost /\
    forall k, occ k (threads s) = (occ k (olist o) + occ k (threads s') + occ k lost)%nat.

Lemma picks_refl cpu s : sched_wf s -> picks cpu s None s.
Proof. intros Hs. split; [done|]. split; [done|]. exists []. split; [done|]. intros k. simpl. lia. Qed.

Lemma picks_trans cpu s o s1 s' : picks cpu s None s1 -> picks cpu s1 o s' -> picks cpu s o s'.
Proof.
  intros ((_ & Hr) & Hs & l1 & Hl1 & H1) ((Hwf & Hr') & Hs' & l2 & Hl2 & H2).
  split; [split; congruence|]. split.
  - intros i Hi. by rewrite Hs', Hs.
  - exists (l1 ++ l2). split; [by apply Forall_app|]. intros k.
    rewrite H1, H2, occ_app. simpl. lia.
Qed.

Lemma picks_cpu cpu s i c o lost :
  sched_wf s -> (i < MAX_CPUS)%nat -> cpu_wf c -> slots c = slots (cpu_of s i) ->
  Forall (fun t => affine t cpu = false) lost ->
  (forall k, occ k (cpu_threads (cpu_of s i)) = (occ k (olist o) + occ k (cpu_threads c) + occ k lost)%nat) ->
  picks cpu s o (set_cpu s i c).
Proof.
  intros Hs Hi Hc Hsl Hl Ho. split; [split; [by apply set_cpu_wf|done]|]. split.
  - intros j Hj. destruct (decide (i = j)) as [->|]; [by rewrite cpu_of_set|by rewrite cpu_of_set_ne].
  - exists lost. split; [done|]. intros k. pose proof (set_cpu_occ k s i c Hs Hi). specialize (Ho k). lia.
Qed.

Lemma picks_flush cpu s i :
  sched_wf s -> (i < MAX_CPUS)%nat -> picks cpu s None (set_cpu s i (flush_ready_queues (cpu_of s i))).
Proof.
  intros Hs Hi. destruct (sched_wf_cpu s i Hs Hi) as [_ Hc]. destruct (flush_slots (cpu_of s i)) as (H1 & H2 & H3 & H4).
  apply (picks_cpu _ _ _ _ _ []); auto using flush_wf.
  - unfold slots. congruence.
  - intros k. rewrite flush_occ. simpl. lia.
Qed.

Lemma set_cpu_twice s i c c' : set_cpu (set_cpu s i c) i c' = set_cpu s i c'.
Proof. unfold set_cpu. simpl. by rewrite list_insert_insert_eq. Qed.

Section sound.
Context (pop : list Thread -> option (Thread * list Thread)) `{!HeapPop pop}.

(** A pop from a heap takes out the thread or loses it. *)
Lemma picks_pop cpu s i t h o lost :
  sched_wf s -> (i < MAX_CPUS)%nat -> pop (stride_heap (cpu_of s i)) = Some (t, h) ->
  Forall (fun t => affine t cpu = false) lost -> (forall k, occ k [t] = (occ k (olist o) + occ k lost)%nat) ->
  picks cpu s o (set_cpu s i (set_runnable (cpu_of s i) h (ready_queues (cpu_of s i)) (ready_queues_dirty (cpu_of s i)))).
Proof.
  intros Hs Hi Hp Hl Ho. destruct (sched_wf_cpu s i Hs Hi) as [_ Hc].
  destruct (pop_some _ _ _ Hp) as [Hperm _]. apply (picks_cpu _ _ _ _ _ lost); [done..|].
  intros k. unfold cpu_threads; simpl. rewrite !occ_app. rewrite (occ_perm k _ _ Hperm).
  specialize (Ho k). simpl in *. lia.
Qed.

Lemma steal_picks lk me cpu others s o s' :
  sched_wf s -> Forall (fun i => (i < MAX_CPUS)%nat) others ->
  steal pop lk me cpu others s = (o, s') -> picks cpu s o s'.
Proof.
  intros Hs Ho. revert s Hs. induction Ho as [|i others Hi Ho IH]; intros s Hs E; cbn [steal] in E.
  { simplify_eq. by apply picks_refl. }
  destruct ((i =? cpu)%nat || (i =? me)%nat || negb (cpu_free lk i)); [by apply IH|].
  destruct (sched_wf_cpu s i Hs Hi) as [_ Hc].
  rewrite rt_take_empty in E by (by apply flush_empty).
  pose proof (picks_flush cpu s i Hs Hi) as Hf. eapply picks_trans; [exact Hf|].
  destruct Hf as [[Hs1 _] _].
  pose proof (cpu_of_set s i (flush_ready_queues (cpu_of s i)) Hs Hi) as Hci.
  destruct (pop _) as [[t h]|] eqn:Ep; [|by apply IH].
  rewrite <- Hci in Ep. destruct (affine t cpu) eqn:Ea.
  - simplify_eq. assert (Ho' : forall k, occ k [t] = (occ k (olist (Some t)) + occ k [])%nat) by (intros k; simpl; lia).
    pose proof (picks_pop cpu _ i t h (Some t) [] Hs1 Hi Ep (List.Forall_nil _) Ho') as H.
    by rewrite Hci, set_cpu_twice in H.
  - eapply picks_trans; [apply (picks_pop cpu _ i t h None [t]); auto|].
    rewrite Hci, set_cpu_twice. apply IH; [|done].
    apply set_cpu_wf; [done|]. apply (flush_wf _ Hc).
Qed.

Lemma seq_cpus : Forall (fun i => (i < MAX_CPUS)%nat) (seq 0 MAX_CPUS).
Proof. apply Forall_seq. lia. Qed.

Lemma pick_next_picks lk me cpu s o s' :
  sched_wf s -> (me < MAX_CPUS)%nat -> pick_next pop lk me cpu s = (o, s') -> picks cpu s o s'.
Proof.
  intros Hs Hm E. unfold pick_next in E. destruct (sched_wf_cpu s me Hs Hm) as [_ Hc].
  pose proof (picks_flush cpu s me Hs Hm) as Hf. eapply picks_trans; [exact Hf|]. destruct Hf as [[Hs1 _] _].
  pose proof (cpu_of_set s me (flush_ready_queues (cpu_of s me)) Hs Hm) as Hcm.
  set (s1 := set_cpu s me _) in *.
  destruct (if pending_free lk then pending_queue s1 else []) as [|t q] eqn:Eq.
  - rewrite rt_take_empty in E by (by apply flush_empty). rewrite <- Hcm in E.
    destruct (pop _) as [[t h]|] eqn:Ep; [|eapply steal_picks; eauto using seq_cpus].
    destruct (affine t cpu) eqn:Ea.
    + simplify_eq. apply (picks_pop cpu _ me t h (Some t) []); auto.
    + eapply picks_trans; [|eapply steal_picks; [|apply seq_cpus|exact E]].
      * destruct (pop_some _ _ _ Ep) as [Hp _].
        apply (picks_cpu _ _ _ _ _ []); auto; [by rewrite Hcm; apply (flush_wf _ Hc)|].
        intros k. unfold cpu_threads; simpl. rewrite !occ_app, (occ_perm k _ _ Hp). simpl. lia.
      * apply set_cpu_wf; [done|]. rewrite Hcm. apply (flush_wf _ Hc).
  - simplify_eq. destruct (pending_free lk); [|done]. split; [done|]. split; [done|].
    exists []. split; [done|]. intros k. unfold threads; simpl. simpl in Eq. rewrite !occ_app, Eq. simpl. lia.
Qed.

(** ** Conservation *)

Lemma occ_count k l : occ k l = count_occ (fun x y => decide (x = y)) (key <$> l) k.
Proof.
  induction l as [|t l IH]; [done|]. cbn [occ fmap list_fmap count_occ]. rewrite IH.
  destruct (decide (key t = k)); [by rewrite bool_decide_true|by rewrite bool_decide_false].
Qed.

Lemma occ_keys (l l' : list Thread) : (forall k, occ k l = occ k l') -> key <$> l ≡ₚ key <$> l'.
Proof.
  intros H. apply (Permutation_count_occ (fun x y => decide (x = y))). intros k. by rewrite <- !occ_count.
Qed.

Lemma occ_pos k l : (0 < occ k l)%nat -> exists t, t ∈ l /\ key t = k.
Proof.
  induction l as [|t l IH]; simpl; [lia|]. case_bool_decide as Hk; [by eexists; split; [left|]|].
  intros (u & Hu & Hku)%IH. exists u. split; [by right|done].
Qed.

Lemma tids_keys (l : list Thread) : tid <$> l = fst <$> (key <$> l).
Proof. by rewrite <- list_fmap_compose. Qed.

Lemma occ_tids (l l' : list Thread) : (forall k, occ k l = occ k l') -> tid <$> l ≡ₚ tid <$> l'.
Proof. intros H%occ_keys. by rewrite !tids_keys, H. Qed.

(** May run on every processor. *)
Definition anywhere (t : Thread) : Prop := forall i, (i < MAX_CPUS)%nat -> affine t i = true.

Lemma anywhere_key t u : key t = key u -> anywhere t -> anywhere u.
Proof. unfold key, anywhere, affine. intros [= _ ->]. done. Qed.

Lemma occ_anywhere l l' : (forall k, occ k l = occ k l') -> Forall anywhere l -> Forall anywhere l'.
Proof.
  intros H Hl. apply Forall_forall. intros t Ht.
  destruct (occ_pos (key t) l) as (u & Hu & Hk).
  - rewrite H. clear -Ht. induction Ht; simpl; [rewrite bool_decide_true by done; lia|lia].
  - eapply anywhere_key; [exact Hk|]. by eapply Forall_forall in Hl.
Qed.

(** The states the scheduler keeps: well formed, no thread in two places, all
    allowed everywhere, and only exited threads cleaned up. *)
Definition good (s : Sched) : Prop :=
  sched_wf s /\ NoDup (tid <$> threads s) /\ Forall anywhere (threads s) /\
  Forall (fun t => status t = Exited) (reaped s).

(** [s'] has the threads of [s] and those of [new]. *)
Definition gains (s : Sched) (new : list Thread) (s' : Sched) : Prop :=
  sched_wf s' /\ (Forall (fun t => status t = Exited) (reaped s) -> Forall (fun t => status t = Exited) (reaped s')) /\
  forall k, occ k (threads s') = (occ k new + occ k (threads s))%nat.

Lemma gains_good s s' : good s -> gains s [] s' -> good s'.
Proof.
  intros (Hw & Hn & Ha & Hr) (Hw' & Hr' & Ho). assert (Ho' : forall k, occ k (threads s) = occ k (threads s')).
  { intros k. by rewrite Ho. }
  split_and!; [done| |by eapply occ_anywhere|by auto]. by rewrite <- (occ_tids _ _ Ho').
Qed.

Lemma gains_trans s s1 s' a b : gains s a s1 -> gains s1 b s' -> gains s (b ++ a) s'.
Proof.
  intros (_ & Hr & H) (Hw & Hr' & H'). split_and!; [done|by auto|]. intros k. rewrite H', H, occ_app. lia.
Qed.

Lemma set_cpu_gains s i c new :
  sched_wf s -> (i < MAX_CPUS)%nat -> cpu_wf c ->
  (forall k, occ k (cpu_threads c) = (occ k new + occ k (cpu_threads (cpu_of s i)))%nat) ->
  gains s new (set_cpu s i c).
Proof.
  intros Hs Hi Hc Ho. split_and!; [by apply set_cpu_wf|done|]. intros k.
  pose proof (set_cpu_occ k s i c Hs Hi). specialize (Ho k). lia.
Qed.

Lemma push_gains s i t : sched_wf s -> (i < MAX_CPUS)%nat -> gains s [t] (set_cpu s i (push_ready (cpu_of s i) t)).
Proof.
  intros Hs Hi. destruct (sched_wf_cpu s i Hs Hi) as [_ Hc].
  apply set_cpu_gains; auto using push_ready_wf. intros k. by apply push_ready_occ.
Qed.

Lemma route_gains s me t :
  sched_wf s -> (me < MAX_CPUS)%nat ->
  gains s [t] (route_outgoing s me t) /\ slots (cpu_of (route_outgoing s me t) me) = slots (cpu_of s me).
Proof.
  intros Hs Hm. unfold route_outgoing.
  assert (Hw : forall sl bl fu, sched_wf (set_waiting s sl bl fu)) by (intros; exact Hs).
  repeat case_bool_decide; simpl.
  1-3: split; [|done]; split_and!; [by apply Hw|done|]; intros k; unfold threads; simpl; rewrite !occ_app; simpl; lia.
  - split; [|done]. split_and!; [exact Hs|by constructor|]. intros k. unfold threads; simpl. rewrite !occ_app. simpl. lia.
  - split; [|by rewrite cpu_of_set]. exact (push_gains s me (set_status t Ready) Hs Hm).
Qed.

Lemma route_old_gains s me :
  sched_wf s -> (me < MAX_CPUS)%nat ->
  gains s [] (route_switching_old s me) /\
  slots (cpu_of (route_switching_old s me) me)
  = (current_thread (cpu_of s me), None, idle (cpu_of s me), idle_id (cpu_of s me)).
Proof.
  intros Hs Hm. destruct (sched_wf_cpu s me Hs Hm) as [_ Hc]. unfold route_switching_old.
  destruct (switching_old _) as [t|] eqn:E.
  - set (s1 := set_cpu _ _ _). assert (Hs1 : sched_wf s1) by (by apply set_cpu_wf).
    destruct (route_gains s1 me t Hs1 Hm) as [(Hw & Hr & Ho) Hsl]. rewrite Hsl. unfold s1. rewrite cpu_of_set by done.
    split; [|done]. split_and!; [done|exact Hr|]. intros k. rewrite Ho.
    pose proof (set_cpu_occ k s me (set_threads (cpu_of s me) (current_thread (cpu_of s me)) None (idle (cpu_of s me))) Hs Hm) as H.
    fold s1 in H. unfold cpu_threads in H. rewrite E in H. simpl in H. rewrite !occ_app in H. simpl in *. lia.
  - split; [by split_and!|]. unfold slots. by rewrite E.
Qed.

(** A thread in the idle slot is not also current. *)
Lemma nodup_idle s me old i :
  good s -> (me < MAX_CPUS)%nat -> current_thread (cpu_of s me) = Some old -> idle (cpu_of s me) = Some i ->
  tid old <> tid i.
Proof.
  intros (Hs & Hn & _) Hm Ec Ei Heq. destruct (sched_wf_cpu s me Hs Hm) as [Hl _].
  unfold threads in Hn. rewrite fmap_app in Hn. apply NoDup_app in Hn as [Hn _].
  rewrite <- (take_drop_middle _ _ _ Hl) in Hn.
  rewrite fmap_app, fmap_cons, concat_app in Hn. simpl in Hn. rewrite !fmap_app in Hn.
  apply NoDup_app in Hn as (_ & _ & Hn). apply NoDup_app in Hn as (Hn & _ & _).
  unfold cpu_threads in Hn. rewrite Ec, Ei, !fmap_app in Hn. simpl in Hn.
  do 2 apply NoDup_app in Hn as (_ & _ & Hn). apply NoDup_cons in Hn as [Hn _].
  apply Hn. rewrite elem_of_app, list_elem_of_singleton. by right.
Qed.
End sound.
