(* ===== verification/SchedRun.v ===== *)
(** * Runs of the scheduler

    Each operation of [Sched] keeps the threads of the system ([SchedSound]),
    so every run does; and what the operations do not promise: a pinned thread
    on another processor can be lost, and real-time threads wait for their
    pass like the others. *)

From stdpp Require Import gmap.
From S2P Require Import Prelude Sched SchedSound.

(** Counts of explicit lists of threads; updates keep the key. *)
Ltac count_threads := do 2 (simpl in *; rewrite ?occ_app in *); unfold key in *; simpl in *; lia.

(** [s] is [s'] with the thread of [o] taken out. *)
Definition gives (s : Sched) (o : option Thread) (s' : Sched) : Prop :=
  sched_wf s' /\ reaped s' = reaped s /\
  forall k, occ k (threads s) = (occ k (olist o) + occ k (threads s'))%nat.

Lemma gains_refl s : sched_wf s -> gains s [] s.
Proof. by intros Hs; split_and!. Qed.

Lemma gives_gains s o s1 s' : gives s o s1 -> gains s1 (olist o) s' -> gains s [] s'.
Proof.
  intros (_ & Hr & H) (Hw & Hr' & H'). split_and!; [done|by rewrite <- Hr|]. intros k. rewrite H', H. simpl. lia.
Qed.

(** Taking a thread out of a good state leaves a good state. *)
Lemma gives_good s o s' : good s -> gives s o s' -> good s'.
Proof.
  intros (Hw & Hn & Ha & Hr) (Hw' & Hr' & Ho).
  assert (Ho' : forall k, occ k (threads s) = occ k (olist o ++ threads s')) by (intros k; by rewrite occ_app).
  rewrite (occ_tids _ _ Ho'), fmap_app in Hn. apply NoDup_app in Hn as (_ & _ & Hn).
  apply (occ_anywhere _ _ Ho') in Ha. apply Forall_app in Ha as [_ Ha].
  split_and!; [done..|by rewrite Hr'].
Qed.

(** When every thread may run everywhere, picking loses none. *)
Lemma picks_gives cpu s o s' : good s -> (cpu < MAX_CPUS)%nat -> picks cpu s o s' -> gives s o s'.
Proof.
  intros (_ & _ & Ha & _) Hc ((Hw & Hr) & _ & lost & Hl & Ho). split_and!; [done..|].
  destruct lost as [|t lost]; [intros k; rewrite Ho; simpl; lia|]. exfalso.
  apply Forall_cons in Hl as [Ht _].
  destruct (occ_pos (key t) (threads s)) as (u & Hu & Hk).
  { rewrite Ho. simpl. rewrite bool_decide_true by done. lia. }
  eapply Forall_forall in Ha; [|exact Hu]. apply (anywhere_key _ _ Hk) in Ha. specialize (Ha cpu Hc). congruence.
Qed.

Lemma with_current_gains s me f :
  sched_wf s -> (me < MAX_CPUS)%nat -> (forall t, key (f t) = key t) -> gains s [] (with_current s me f).
Proof.
  intros Hs Hm Hf. destruct (sched_wf_cpu s me Hs Hm) as [_ Hc]. apply set_cpu_gains; [done..|].
  intros k. unfold cpu_threads; simpl. rewrite !occ_app.
  destruct (current_thread _) as [t|]; simpl; [rewrite Hf|]; lia.
Qed.

Lemma switch_to_gains s me next :
  good s -> (me < MAX_CPUS)%nat -> switching_old (cpu_of s me) = None -> gains s [next] (switch_to s me next).
Proof.
  intros Hg Hm Ho. pose proof Hg as [Hs _]. destruct (sched_wf_cpu s me Hs Hm) as [_ (Hl & Hd & Hi)].
  unfold switch_to. destruct (current_thread _) as [old|] eqn:Ec.
  2: { apply set_cpu_gains; [done..|]. intros k. unfold cpu_threads. rewrite Ec, Ho. count_threads. }
  case_bool_decide as Hx.
  { apply set_cpu_gains; [done..|]. intros k. unfold cpu_threads. rewrite Ec, Ho. count_threads. }
  case_bool_decide as Hid.
  { assert (Hn : idle (cpu_of s me) = None).
    { destruct (idle _) as [i|] eqn:Ei; [|done]. exfalso. apply (nodup_idle s me old i Hg Hm Ec Ei).
      specialize (Hi i eq_refl). congruence. }
    apply set_cpu_gains; [done|done| |].
    - split_and!; [done..|]. intros t [= <-]. exact Hid.
    - intros k. unfold cpu_threads. rewrite Ec, Ho, Hn. count_threads. }
  destruct (first_switch_pending next).
  2: { apply set_cpu_gains; [done..|]. intros k. unfold cpu_threads. rewrite Ec, Ho. count_threads. }
  set (s1 := set_cpu s me _). assert (Hs1 : sched_wf s1) by (by apply set_cpu_wf).
  set (old' := set_pass old _ _). destruct (route_gains s1 me old' Hs1 Hm) as [(Hw2 & Hr2 & Ho2) Hsl].
  set (s2 := route_outgoing s1 me old') in *. destruct (sched_wf_cpu s2 me Hw2 Hm) as [_ Hc2].
  assert (H1 : forall k, (occ k (threads s1) + occ k [old] = occ k (threads s))%nat).
  { intros k. pose proof (set_cpu_occ k s me (set_threads (cpu_of s me) None (switching_old (cpu_of s me)) (idle (cpu_of s me))) Hs Hm) as H.
    fold s1 in H. unfold cpu_threads in H. rewrite Ec in H. count_threads. }
  assert (Hcur : current_thread (cpu_of s2 me) = None).
  { unfold slots in Hsl. injection Hsl as -> _ _ _. unfold s1. by rewrite cpu_of_set. }
  split_and!; [by apply set_cpu_wf|exact Hr2|]. intros k.
  pose proof (set_cpu_occ k s2 me (set_threads (cpu_of s2 me) (Some (set_pass (set_status next Running) false (pass next)))
    (switching_old (cpu_of s2 me)) (idle (cpu_of s2 me))) Hw2 Hm) as H.
  unfold cpu_threads in H. rewrite Hcur in H.
  specialize (Ho2 k). specialize (H1 k). subst old'. count_threads.
Qed.

Section run.
Context (pop : list Thread -> option (Thread * list Thread)) `{!HeapPop pop}.

Lemma gives_gives s s1 o s' : gives s None s1 -> gives s1 o s' -> gives s o s'.
Proof.
  intros (_ & Hr & H) (Hw & Hr' & H'). split_and!; [done|congruence|]. intros k. rewrite H, H'. simpl. lia.
Qed.

(** [prepare_switch] after the pick. *)
Lemma prepare_next_gains lk me s next :
  good s -> (me < MAX_CPUS)%nat -> switching_old (cpu_of s me) = None ->
  gains s [next]
    (let c := cpu_of s me in
     let back := set_cpu s me (push_ready c next) in
     snd (if negb (first_switch_pending next) &&
             match current_thread c with
             | Some cur => bool_decide (status cur = Running) && should_preempt (sched_class next) (sched_class cur)
             | None => false
             end
          then (false, back)
          else match process next with
               | Some p =>
                   if negb (proc_free lk) then (false, back)
                   else (true, switch_to (mkSched (per_cpu s) (pending_queue s) (sleep_queue s) (block_queue s)
                                            (futex_queue s) (Some p) (utime s) (reaped s)) me next)
               | None => (true, switch_to s me next)
               end)).
Proof.
  intros Hg Hm Ho. pose proof Hg as [Hs _]. pose proof (push_gains s me next Hs Hm) as Hb. cbv zeta.
  destruct (negb _ && _); [exact Hb|]. destruct (process next) as [p|]; [|by apply switch_to_gains].
  destruct (negb (proc_free lk)); [exact Hb|].
  exact (switch_to_gains (mkSched (per_cpu s) (pending_queue s) (sleep_queue s) (block_queue s)
    (futex_queue s) (Some p) (utime s) (reaped s)) me next Hg Hm Ho).
Qed.

Lemma prepare_switch_gains lk me s :
  good s -> (me < MAX_CPUS)%nat -> gains s [] (snd (prepare_switch pop lk me s)).
Proof.
  intros Hg Hm. unfold prepare_switch. pose proof Hg as [Hs _].
  destruct (route_old_gains s me Hs Hm) as [Hr Hsl]. set (s1 := route_switching_old s me) in *.
  pose proof (gains_good _ _ Hg Hr) as Hg1. pose proof Hr as [Hs1 _].
  destruct (pick_next pop lk me me s1) as [o s2] eqn:Ep. apply (pick_next_picks pop) in Ep; [|done..].
  pose proof (picks_gives _ _ _ _ Hg1 Hm Ep) as Hgv. pose proof (gives_good _ _ _ Hg1 Hgv) as Hg2.
  destruct Ep as (_ & Hsl2 & _). specialize (Hsl2 me Hm). rewrite Hsl in Hsl2.
  assert (Ho2 : switching_old (cpu_of s2 me) = None) by (unfold slots in Hsl2; congruence).
  apply (gains_trans s s1 _ [] []); [exact Hr|]. apply (gives_gains _ _ _ _ Hgv). pose proof Hg2 as [Hs2 _].
  destruct o as [t|]; [exact (prepare_next_gains lk me s2 t Hg2 Hm Ho2)|].
  destruct (want_idle _); [|exact (gains_refl s2 Hs2)].
  set (s3 := set_cpu s2 me _). destruct (sched_wf_cpu s2 me Hs2 Hm) as [_ (Hl & Hd & _)].
  assert (Hgv3 : gives s2 (idle (cpu_of s2 me)) s3).
  { split_and!; [by apply set_cpu_wf|done|]. intros k.
    pose proof (set_cpu_occ k s2 me (set_threads (cpu_of s2 me) (current_thread (cpu_of s2 me)) (switching_old (cpu_of s2 me)) None) Hs2 Hm) as H.
    fold s3 in H. unfold cpu_threads in H. count_threads. }
  apply (gives_gains _ _ _ _ Hgv3). pose proof (gives_good _ _ _ Hg2 Hgv3) as Hg3. pose proof Hg3 as [Hs3 _].
  destruct (idle (cpu_of s2 me)) as [t|]; [|exact (gains_refl s3 Hs3)].
  apply prepare_next_gains; [done..|]. unfold s3. by rewrite cpu_of_set.
Qed.

Lemma try_schedule_gains q lk me s :
  good s -> (me < MAX_CPUS)%nat -> gains s [] (snd (try_schedule pop q lk me s)).
Proof.
  intros Hg Hm. pose proof Hg as [Hs _]. unfold try_schedule. destruct (_ || _); [exact (gains_refl s Hs)|].
  destruct (current_thread _); [by apply prepare_switch_gains|exact (gains_refl s Hs)].
Qed.

(** ** Waking, yielding, ticking *)

(** The threads [w] go from a queue [q], which keeps [r], to the ready queues. *)
Lemma woken_gains s s1 me q w r :
  sched_wf s -> (me < MAX_CPUS)%nat -> per_cpu s1 = per_cpu s -> reaped s1 = reaped s ->
  (forall k, (occ k w + occ k r = occ k q)%nat) ->
  (forall k, (occ k (threads s1) + occ k q = occ k (threads s) + occ k r)%nat) ->
  gains s [] (set_cpu s1 me (foldl push_ready (cpu_of s me) w)).
Proof.
  intros Hs Hm Hp Hr Hd Ht. destruct (sched_wf_cpu s me Hs Hm) as [_ Hc].
  assert (Hs1 : sched_wf s1) by (unfold sched_wf; by rewrite Hp).
  assert (E : cpu_of s1 me = cpu_of s me) by (unfold cpu_of; by rewrite Hp).
  split_and!; [by apply set_cpu_wf, push_all_wf|by simpl; rewrite Hr|]. intros k. specialize (Hd k). specialize (Ht k).
  pose proof (set_cpu_occ k s1 me (foldl push_ready (cpu_of s me) w) Hs1 Hm) as H.
  rewrite E, push_all_occ in H by done. simpl. lia.
Qed.

Lemma wake_block_gains s me n f : sched_wf s -> (me < MAX_CPUS)%nat -> gains s [] (snd (wake_block_queue s me n f)).
Proof.
  intros Hs Hm. unfold wake_block_queue, drain_wake.
  pose proof (fun k => drain_occ k f clear_pipe n (block_queue s) (fun t => eq_refl)) as Hd.
  destruct (drain _ _ _ _) as [w r]. eapply woken_gains; [done..|exact Hd|]. intros k. unfold threads. count_threads.
Qed.

Lemma wake_futex_gains s me n f : sched_wf s -> (me < MAX_CPUS)%nat -> gains s [] (snd (wake_futex_queue s me n f)).
Proof.
  intros Hs Hm. unfold wake_futex_queue, drain_wake.
  pose proof (fun k => drain_occ k f clear_futex n (futex_queue s) (fun t => eq_refl)) as Hd.
  destruct (drain _ _ _ _) as [w r]. eapply woken_gains; [done..|exact Hd|]. intros k. unfold threads. count_threads.
Qed.

Lemma tick_inner_gains lk now sig me s : sched_wf s -> (me < MAX_CPUS)%nat -> gains s [] (run_tick_inner lk now sig me s).
Proof.
  intros Hs Hm. unfold run_tick_inner. set (clear := fun t => set_block t None _ _).
  pose proof (fun k => drain_occ k (tick_wakes now sig) clear (Z.of_nat (length (sleep_queue s))) (sleep_queue s)
    (fun t => eq_refl)) as Hd.
  destruct (drain _ _ _ _) as [w r]. set (s1 := if sleep_free lk then _ else s).
  assert (H1 : gains s [] s1).
  { unfold s1. destruct (sleep_free lk); [|by apply gains_refl].
    eapply woken_gains; [done..|exact Hd|]. intros k. unfold threads. count_threads. }
  destruct (_ ≫= _); exact H1.
Qed.

Lemma yield_gains lk cpu s : good s -> (cpu < MAX_CPUS)%nat -> gains s [] (yield_now pop lk cpu s).
Proof.
  intros Hg Hc. pose proof Hg as [Hs _]. assert (H0 : (0 < MAX_CPUS)%nat) by (unfold MAX_CPUS; lia).
  unfold yield_now. destruct (negb _); [by apply gains_refl|]. destruct (current_thread _); [|by apply gains_refl].
  set (s1 := with_current s 0 _).
  assert (H1 : gains s [] s1) by (by apply with_current_gains).
  pose proof (gains_good _ _ Hg H1) as Hg1. apply (gains_trans s s1 _ [] []); [done|].
  destruct (pick_next pop lk 0 cpu s1) as [o s2] eqn:E. apply (pick_next_picks pop) in E; [|exact (proj1 Hg1)|exact H0].
  apply (picks_gives _ _ _ _ Hg1 Hc) in E. apply (gives_gains _ _ _ _ E).
  destruct E as [Hs2 _]. destruct o as [u|]; [|by apply gains_refl].
  exact (push_gains s2 0 (set_status u Ready) Hs2 H0).
Qed.

Lemma balance_to_gains lk cpu counts avg targets s :
  sched_wf s -> (cpu < MAX_CPUS)%nat -> Forall (fun i => (i < MAX_CPUS)%nat) targets ->
  gains s [] (balance_to pop lk cpu counts avg targets s).
Proof.
  intros Hs Hc Ht. destruct (sched_wf_cpu s cpu Hs Hc) as [_ Hcw].
  induction Ht as [|i targets Hi Ht IH]; cbn [balance_to]; [by apply gains_refl|].
  destruct (decide (i = cpu)) as [->|Hne]; [by rewrite Nat.eqb_refl|].
  destruct (_ || _ || _); [done|]. destruct (pop _) as [[t h]|] eqn:Ep; [|done].
  destruct (pop_some _ _ _ Ep) as [Hp _].
  set (here := fun h' => set_cpu s cpu (set_runnable (cpu_of s cpu) h' (ready_queues (cpu_of s cpu)) (ready_queues_dirty (cpu_of s cpu)))).
  cbv zeta.
  assert (Hback : gains s [] (here (t :: h))).
  { apply set_cpu_gains; [done..|]. intros k. unfold cpu_threads. pose proof (occ_perm k _ _ Hp). count_threads. }
  destruct (is_realtime _); [exact Hback|]. destruct (affine t i); [|exact Hback].
  assert (Hh : sched_wf (here h)) by (by apply set_cpu_wf).
  destruct (sched_wf_cpu s i Hs Hi) as [_ (Hl & Hd & Hid)].
  split_and!; [by apply set_cpu_wf|done|]. intros k. set (ci := set_runnable (cpu_of s i) _ _ _).
  pose proof (set_cpu_occ k (here h) i ci Hh Hi) as H1.
  set (cc := set_runnable (cpu_of s cpu) h (ready_queues (cpu_of s cpu)) (ready_queues_dirty (cpu_of s cpu))).
  pose proof (set_cpu_occ k s cpu cc Hs Hc : (occ k (threads (here h)) + _ = _)%nat) as H2.
  replace (cpu_of (here h) i) with (cpu_of s i) in H1 by (symmetry; apply cpu_of_set_ne; congruence).
  assert (E1 : occ k (cpu_threads ci) = (occ k [t] + occ k (cpu_threads (cpu_of s i)))%nat)
    by (clear; unfold cpu_threads, ci; count_threads).
  assert (E2 : occ k (cpu_threads (cpu_of s cpu)) = (occ k [t] + occ k (cpu_threads cc))%nat)
    by (pose proof (occ_perm k _ _ Hp) as Hq; clear -Hq; unfold cpu_threads, cc; count_threads).
  change (occ k (threads (set_cpu (here h) i ci)) = occ k (threads s)). lia.
Qed.

Lemma load_balance_gains lk lk' cpu s : sched_wf s -> (cpu < MAX_CPUS)%nat -> gains s [] (load_balance pop lk lk' cpu s).
Proof.
  intros Hs Hc. unfold load_balance. destruct (_ <? 2)%nat; [by apply gains_refl|].
  destruct (negb _); [by apply gains_refl|]. destruct (_ <? _)%nat; [|by apply gains_refl].
  apply balance_to_gains; auto using seq_cpus.
Qed.

Lemma rr_tick_key t : key (snd (rr_tick t)) = key t.
Proof. unfold rr_tick. destruct (_ && _); [|done]. by destruct (_ =? 0). Qed.

Lemma tick_gains q lk lk' lk'' now sig me s :
  good s -> (me < MAX_CPUS)%nat -> gains s [] (tick pop q lk lk' lk'' now sig me s).
Proof.
  intros Hg Hm. pose proof Hg as [Hs _]. unfold tick. destruct (negb _); [by apply gains_refl|]. cbv zeta.
  set (s1 := with_current s me _). assert (H1 : gains s [] s1) by (apply with_current_gains; auto using rr_tick_key).
  set (s2 := run_tick_inner lk now sig me s1).
  assert (H2 : gains s1 [] s2) by (by apply tick_inner_gains; [apply H1|]).
  pose proof (gains_trans _ _ _ _ _ H1 H2) as H. apply (gains_trans s s2 _ [] []); [exact H|].
  pose proof (gains_good _ _ Hg H) as Hg2. pose proof Hg2 as [Hs2 _].
  destruct (need_resched _ _ _ _); [by apply try_schedule_gains|].
  destruct (_ =? 0); [by apply load_balance_gains|by apply gains_refl].
Qed.

Lemma schedule_turn_gains q lk now sig me s :
  good s -> (me < MAX_CPUS)%nat -> gains s [] (snd (schedule_turn pop q lk now sig me s)).
Proof.
  intros Hg Hm. pose proof Hg as [Hs _]. unfold schedule_turn. destruct q; [by apply gains_refl|].
  pose proof (prepare_switch_gains lk me s Hg Hm) as H. destruct (prepare_switch _ _ _ _) as [sw s1]. simpl in H.
  destruct sw; [done|]. pose proof H as [Hs1 _].
  assert (Hr : gains s1 [] (snd (schedule_resume now sig s1 me))).
  { unfold schedule_resume. destruct (current_thread _) as [cur|]; [|by apply gains_refl].
    destruct (status cur), (sleep_until cur); try by apply gains_refl.
    destruct (_ || _); [by apply with_current_gains|by apply gains_refl]. }
  destruct (schedule_resume _ _ _ _) as [b s2]. exact (gains_trans _ _ _ _ _ H Hr).
Qed.

(** ** Runs *)

(** One operation, on any processor and whatever locks it gets; the list has
    the threads it adds. A new thread has a new identifier. *)
Inductive sched_step : Sched -> list Thread -> Sched -> Prop :=
| step_spawn s t : tid t ∉ tid <$> threads s -> anywhere t -> sched_step s [t] (spawn_thread s t)
| step_schedule q lk now sig me s : (me < MAX_CPUS)%nat -> sched_step s [] (snd (schedule_turn pop q lk now sig me s))
| step_try q lk me s : (me < MAX_CPUS)%nat -> sched_step s [] (snd (try_schedule pop q lk me s))
| step_route me s : (me < MAX_CPUS)%nat -> sched_step s [] (route_switching_old s me)
| step_block me k s : (me < MAX_CPUS)%nat -> sched_step s [] (block_on_pipe s me k)
| step_sleep me n s : (me < MAX_CPUS)%nat -> sched_step s [] (sleep_until_tick s me n)
| step_wake_pipe me k s : (me < MAX_CPUS)%nat -> sched_step s [] (wake_pipe s me k)
| step_wake_futex me a n s : (me < MAX_CPUS)%nat -> sched_step s [] (snd (wake_futex s me a n))
| step_wake_pf me p s : (me < MAX_CPUS)%nat -> sched_step s [] (snd (wake_process_futex s me p))
| step_wake_pb me p s : (me < MAX_CPUS)%nat -> sched_step s [] (snd (wake_process_blocked s me p))
| step_yield lk cpu s : (cpu < MAX_CPUS)%nat -> sched_step s [] (yield_now pop lk cpu s)
| step_tick q lk lk' lk'' now sig me s : (me < MAX_CPUS)%nat -> sched_step s [] (tick pop q lk lk' lk'' now sig me s).

Inductive sched_run : Sched -> list Thread -> Sched -> Prop :=
| run_nil s : sched_run s [] s
| run_cons s a s1 b s' : sched_step s a s1 -> sched_run s1 b s' -> sched_run s (b ++ a) s'.

Lemma spawn_good s t :
  good s -> tid t ∉ tid <$> threads s -> anywhere t -> good (spawn_thread s t) /\ gains s [t] (spawn_thread s t).
Proof.
  intros (Hs & Hn & Ha & Hr) Ht Hat. assert (Hg : gains s [t] (spawn_thread s t)).
  { split_and!; [done|done|]. intros k. unfold threads, spawn_thread. clear Ht Hn Ha. count_threads. }
  split; [|done]. destruct Hg as (_ & _ & Ho).
  assert (Ho' : forall k, occ k (t :: threads s) = occ k (threads (spawn_thread s t))) by (intros k; rewrite Ho; simpl; lia).
  split_and!; [done| |eapply occ_anywhere; [exact Ho'|by constructor]|done].
  rewrite <- (occ_tids _ _ Ho'). by apply NoDup_cons.
Qed.

Lemma step_gains s a s' : good s -> sched_step s a s' -> good s' /\ gains s a s'.
Proof.
  intros Hg Hst. assert (Hs : sched_wf s) by apply Hg.
  assert (H0 : a = [] -> gains s a s' -> good s' /\ gains s a s') by (intros -> H; eauto using gains_good).
  destruct Hst; [by apply spawn_good|..]; apply H0; try done.
  - by apply schedule_turn_gains.
  - by apply try_schedule_gains.
  - by apply route_old_gains.
  - by apply with_current_gains.
  - by apply with_current_gains.
  - by apply wake_block_gains.
  - by apply wake_futex_gains.
  - by apply wake_futex_gains.
  - by apply wake_block_gains.
  - by apply yield_gains.
  - by apply tick_gains.
Qed.

(** C4. The scheduler neither loses nor duplicates a thread. Through any run of
    its operations on any processors, whatever locks they get and whichever of
    equal threads the heap returns, the threads in all queues and slots are
    those of the start and those spawned, each once, and only exited threads
    are cleaned up, provided every thread may run on every processor. *)
Theorem sched_conserves s new s' :
  good s -> sched_run s new s' -> good s' /\ tid <$> threads s' ≡ₚ (tid <$> new) ++ (tid <$> threads s).
Proof.
  intros Hg Hr. induction Hr as [s|s a s1 b s' Hst Hr IH]; [done|].
  destruct (step_gains _ _ _ Hg Hst) as (Hg1 & _ & _ & Ho). destruct (IH Hg1) as [Hg' Hp]. split; [done|].
  rewrite Hp, fmap_app, <- app_assoc. f_equiv. rewrite <- fmap_app. apply occ_tids. intros k. by rewrite Ho, occ_app.
Qed.

(** With nothing pending, a processor picks a thread of least pass among
    all its runnable ones, in the heap or in the ready queues, if they may run
    on it. Policy and real-time priority play no part. *)
Theorem pick_next_min_pass lk me cpu s :
  sched_wf s -> (me < MAX_CPUS)%nat -> pending_free lk = false \/ pending_queue s = [] ->
  (forall u, u ∈ stride_heap (cpu_of s me) ++ concat (ready_queues (cpu_of s me)) -> affine u cpu = true) ->
  stride_heap (cpu_of s me) ++ concat (ready_queues (cpu_of s me)) <> [] ->
  exists t, fst (pick_next pop lk me cpu s) = Some t /\
    t ∈ stride_heap (cpu_of s me) ++ concat (ready_queues (cpu_of s me)) /\
    forall u, u ∈ stride_heap (cpu_of s me) ++ concat (ready_queues (cpu_of s me)) -> pass t <= pass u.
Proof.
  intros Hs Hm Hp Ha Hne. destruct (sched_wf_cpu s me Hs Hm) as [_ Hc]. unfold pick_next. cbv zeta.
  replace (if pending_free lk then _ else []) with (@nil Thread)
    by (simpl; destruct Hp as [->| ->]; [done|by destruct (pending_free lk)]).
  rewrite rt_take_empty by (by apply flush_empty). rewrite (flush_heap _ Hc).
  set (l := stride_heap (cpu_of s me) ++ concat (ready_queues (cpu_of s me))) in *.
  destruct (pop l) as [[t h]|] eqn:Ep; [|by apply pop_none in Ep].
  destruct (pop_some _ _ _ Ep) as [Hperm Hmin]. assert (Ht : t ∈ l) by (rewrite Hperm; left).
  rewrite (Ha t Ht). exists t. split_and!; [done..|]. intros v. rewrite Hperm, elem_of_cons.
  intros [->|Hv]; [lia|]. by eapply Forall_forall in Hmin.
Qed.

(** Nothing on any processor but [t], runnable on processor 1. *)
Definition only_on_1 (t : Thread) : Sched :=
  mkSched (new_cpu :: push_thread new_cpu t :: replicate 6 new_cpu) [] [] [] [] None ∅ [].

Lemma pop_nil : pop [] = None.
Proof. destruct (pop []) as [[t r]|] eqn:E; [|done]. apply pop_some in E as [E%Permutation_nil _]. done. Qed.

Lemma pop_one t : pop [t] = Some (t, []).
Proof.
  destruct (pop [t]) as [[u r]|] eqn:E; [|by apply pop_none in E].
  apply pop_some in E as [E%Permutation_length_1_inv _]. by injection E as -> ->.
Qed.

(** Nothing to steal from processors that hold nothing. *)
Lemma steal_idle lk me cpu others s :
  Forall (fun i => per_cpu s !! i = Some new_cpu) others -> steal pop lk me cpu others s = (None, s).
Proof.
  induction 1 as [|i others Hi _ IH]; [done|]. cbn [steal]. destruct (_ || _ || _); [done|].
  assert (E : cpu_of s i = new_cpu) by (unfold cpu_of; by rewrite Hi). rewrite E.
  change (flush_ready_queues new_cpu) with new_cpu. rewrite rt_take_empty by (by repeat constructor).
  change (stride_heap new_cpu) with (@nil Thread). rewrite pop_nil.
  replace (set_cpu s i new_cpu) with s; [done|]. destruct s. unfold set_cpu; simpl in *. by rewrite list_insert_id.
Qed.

(** The only thread of a processor, pinned elsewhere, is discarded. *)
Lemma steal_discards lk me cpu i others s t :
  i <> cpu -> i <> me -> cpu_free lk i = true -> affine t cpu = false ->
  cpu_of s i = push_thread new_cpu t ->
  steal pop lk me cpu (i :: others) s = steal pop lk me cpu others (set_cpu s i new_cpu).
Proof.
  intros H1 H2 Hf Ha Hc. cbn [steal]. rewrite (proj2 (Nat.eqb_neq _ _) H1), (proj2 (Nat.eqb_neq _ _) H2), Hf, Hc.
  cbn [orb negb]. change (flush_ready_queues (push_thread new_cpu t)) with (push_thread new_cpu t).
  rewrite rt_take_empty by (by repeat constructor). change (stride_heap (push_thread new_cpu t)) with [t].
  by rewrite pop_one, Ha.
Qed.

(** A processor with nothing to run, and nothing pending, goes stealing. *)
Lemma pick_next_steals lk me cpu s :
  pending_queue s = [] -> per_cpu s !! me = Some new_cpu ->
  pick_next pop lk me cpu s = steal pop lk me cpu (seq 0 MAX_CPUS) s.
Proof.
  intros Hp Hm. unfold pick_next. assert (E : cpu_of s me = new_cpu) by (unfold cpu_of; by rewrite Hm). rewrite E.
  change (flush_ready_queues new_cpu) with new_cpu. cbv zeta.
  replace (set_cpu s me new_cpu) with s by (destruct s; unfold set_cpu; simpl in *; by rewrite list_insert_id).
  rewrite Hp. replace (if pending_free lk then [] else []) with (@nil Thread) by (by destruct (pending_free lk)).
  rewrite rt_take_empty by (by repeat constructor). change (stride_heap new_cpu) with (@nil Thread). by rewrite pop_nil.
Qed.

(** What a pick on processor 0 leaves. *)
Lemma pick_only_on_1 lk t :
  cpu_free lk 1 = true -> affine t 0 = false ->
  pick_next pop lk 0 0 (only_on_1 t) = (None, set_cpu (only_on_1 t) 1 new_cpu).
Proof.
  intros Hf Ha. rewrite pick_next_steals by done.
  assert (E : seq 0 MAX_CPUS = (0 :: 1 :: seq 2 6)%nat) by done. rewrite E.
  transitivity (steal pop lk 0 0 (1 :: seq 2 6)%nat (only_on_1 t)); [done|].
  rewrite (steal_discards _ _ _ _ _ _ t) by done. apply steal_idle. by repeat constructor.
Qed.

(** Work stealing loses a pinned thread. When processor 0 has nothing to
    run and processor 1 holds a runnable thread that may not run on 0, a pick
    on 0 takes the thread off processor 1, finds nothing, and the thread is in
    no queue any more. *)
Theorem steal_drops_pinned lk t :
  cpu_free lk 1 = true -> affine t 0 = false ->
  threads (only_on_1 t) = [t] /\
  fst (pick_next pop lk 0 0 (only_on_1 t)) = None /\ threads (snd (pick_next pop lk 0 0 (only_on_1 t))) = [].
Proof.
  intros Hf Ha. split; [done|]. by rewrite pick_only_on_1.
Qed.
End run.

(** ** A heap, and concrete runs *)

(** The first of the threads with the least pass. *)
Fixpoint pop_min (l : list Thread) : option (Thread * list Thread) :=
  match l with
  | [] => None
  | t :: l =>
      match pop_min l with
      | None => Some (t, [])
      | Some (u, r) => if pass t <=? pass u then Some (t, l) else Some (u, t :: r)
      end
  end.

#[export] Instance pop_min_heap : HeapPop pop_min.
Proof.
  assert (H : forall l t r, pop_min l = Some (t, r) -> l ≡ₚ t :: r /\ Forall (fun u => pass t <= pass u) r).
  { induction l as [|v l IH]; intros t r E; [done|]. cbn [pop_min] in E.
    destruct (pop_min l) as [[u r']|] eqn:El.
    - destruct (IH u r' eq_refl) as [Hp Hf]. destruct (Z.leb_spec (pass v) (pass u)); simplify_eq.
      + split; [done|]. rewrite Hp. constructor; [done|]. eapply Forall_impl; [exact Hf|]. simpl. lia.
      + split; [rewrite Hp; constructor|]. constructor; [lia|done].
    - simplify_eq. destruct l as [|w l]; [done|]. cbn [pop_min] in El. destruct (pop_min l) as [[? ?]|]; [|done].
      by destruct (_ <=? _). }
  split; [|exact H]. intros [|t l]; [done|]. cbn [pop_min]. destruct (pop_min l) as [[u r]|]; [|done].
  by destruct (_ <=? _).
Qed.

Definition demo_thread (id pass policy mask : Z) : Thread :=
  mkThread id Ready None 3 None None None false pass 10 policy 50 4 policy mask.

Definition demo_locks : Locks := mkLocks true (fun _ => true) true true.

(** Eight processors at boot, each with its idle thread. *)
Definition demo_boot : Sched :=
  mkSched ((fun i => let t := demo_thread (Z.of_nat i) 0 0 255 in
                     mkCpu [] (replicate 8 []) false None None (Some t) (Some (tid t))) <$> seq 0 8)
    [] [] [] [] None ∅ [].

Lemma demo_anywhere i p q : anywhere (demo_thread i p q 255).
Proof. intros n Hn. unfold MAX_CPUS in Hn. do 8 (destruct n as [|n]; [reflexivity|]). lia. Qed.

Lemma demo_boot_good : good demo_boot.
Proof.
  split_and!.
  - split; [reflexivity|]. apply Forall_fmap, Forall_forall. intros i _.
    split_and!; [reflexivity| |by intros t [= <-]]. intros _. by apply Forall_replicate.
  - apply (bool_decide_unpack _). vm_compute. exact I.
  - repeat (constructor; [apply demo_anywhere|]). constructor.
  - constructor.
Qed.

Definition demo_spawned : Sched := spawn_thread demo_boot (demo_thread 100 5 0 255).

Lemma sched_conserves_witness :
  good (snd (schedule_turn pop_min false demo_locks 0 false 2 demo_spawned)) /\
  tid <$> threads (snd (schedule_turn pop_min false demo_locks 0 false 2 demo_spawned))
  ≡ₚ [100] ++ (tid <$> threads demo_boot).
Proof.
  apply (sched_conserves pop_min demo_boot [demo_thread 100 5 0 255]); [exact demo_boot_good|].
  apply (run_cons pop_min demo_boot [demo_thread 100 5 0 255] demo_spawned [] _).
  - apply step_spawn; [|apply demo_anywhere]. apply (bool_decide_unpack _). vm_compute. exact I.
  - eapply (run_cons pop_min demo_spawned [] _ [] _); [|apply run_nil]. apply step_schedule. unfold MAX_CPUS. lia.
Defined.

(** A normal thread of pass 5 in the heap, a real-time one of pass 9 made ready. *)
Definition demo_ready : Sched :=
  set_cpu demo_boot 0 (push_ready (push_thread (cpu_of demo_boot 0) (demo_thread 100 5 0 255)) (demo_thread 101 9 1 255)).

Lemma demo_ready_wf : sched_wf demo_ready.
Proof.
  apply set_cpu_wf; [exact (proj1 demo_boot_good)|]. apply push_ready_wf.
  split_and!; [reflexivity| |by intros t [= <-]]. intros _. by apply Forall_replicate.
Qed.

(** The normal thread is picked. *)
Lemma pick_next_min_pass_witness :
  fst (pick_next pop_min demo_locks 0 0 demo_ready) = Some (demo_thread 100 5 0 255) /\
  exists t, fst (pick_next pop_min demo_locks 0 0 demo_ready) = Some t /\
    t ∈ stride_heap (cpu_of demo_ready 0) ++ concat (ready_queues (cpu_of demo_ready 0)) /\
    forall u, u ∈ stride_heap (cpu_of demo_ready 0) ++ concat (ready_queues (cpu_of demo_ready 0)) -> pass t <= pass u.
Proof.
  split; [vm_compute; reflexivity|].
  refine (pick_next_min_pass pop_min demo_locks 0 0 demo_ready demo_ready_wf _ (or_intror eq_refl) _ _).
  - unfold MAX_CPUS. lia.
  - apply Forall_forall. vm_compute. repeat constructor.
  - vm_compute. congruence.
Defined.

Lemma steal_drops_pinned_witness :
  threads (only_on_1 (demo_thread 100 5 0 2)) = [demo_thread 100 5 0 2] /\
  fst (pick_next pop_min demo_locks 0 0 (only_on_1 (demo_thread 100 5 0 2))) = None /\
  threads (snd (pick_next pop_min demo_locks 0 0 (only_on_1 (demo_thread 100 5 0 2)))) = [].
Proof. exact (steal_drops_pinned pop_min demo_locks (demo_thread 100 5 0 2) eq_refl eq_refl). Defined.
