(* ===== verification/Sha256.v ===== *)
(** * SHA-256, HMAC and PBKDF2

    Model of [crates/crypto/src/sha256.rs] in module [Code] and of the
    standards it names in module [Fips] (FIPS 180-4, RFC 2104 and RFC 2898),
    and the proof that the code computes what the standards define. Bytes are
    numbers below 256; a buffer that is too short makes the code panic, which
    is [None]. *)

From S2P Require Import Prelude.

(** [a[i]]; the uses below are all in range. *)
Definition at_ (l : list Z) (i : nat) : Z := default 0 (l !! i).

(** [to_be_bytes] and [from_be_bytes]. *)
Definition be_bytes (n : nat) (x : Z) : list Z := rev (le_bytes n x).
Definition be_value (l : list Z) : Z := le_value (rev l).

(** ** The code *)

Module Code.

Definition BLOCK_SIZE : nat := 64.
Definition DIGEST_SIZE : nat := 32.
Definition IPAD : Z := 0x36.
Definition OPAD : Z := 0x5c.

(** The two tables of the source, row by row. *)
Definition H0 : list Z :=
  [0x6a09e667; 0xbb67ae85; 0x3c6ef372; 0xa54ff53a; 0x510e527f; 0x9b05688c; 0x1f83d9ab; 0x5be0cd19].

Definition K : list Z :=
  [0x428a2f98; 0x71374491; 0xb5c0fbcf; 0xe9b5dba5; 0x3956c25b; 0x59f111f1; 0x923f82a4; 0xab1c5ed5] ++
  [0xd807aa98; 0x12835b01; 0x243185be; 0x550c7dc3; 0x72be5d74; 0x80deb1fe; 0x9bdc06a7; 0xc19bf174] ++
  [0xe49b69c1; 0xefbe4786; 0x0fc19dc6; 0x240ca1cc; 0x2de92c6f; 0x4a7484aa; 0x5cb0a9dc; 0x76f988da] ++
  [0x983e5152; 0xa831c66d; 0xb00327c8; 0xbf597fc7; 0xc6e00bf3; 0xd5a79147; 0x06ca6351; 0x14292967] ++
  [0x27b70a85; 0x2e1b2138; 0x4d2c6dfc; 0x53380d13; 0x650a7354; 0x766a0abb; 0x81c2c92e; 0x92722c85] ++
  [0xa2bfe8a1; 0xa81a664b; 0xc24b8b70; 0xc76c51a3; 0xd192e819; 0xd6990624; 0xf40e3585; 0x106aa070] ++
  [0x19a4c116; 0x1e376c08; 0x2748774c; 0x34b0bcb5; 0x391c0cb3; 0x4ed8aa4a; 0x5b9cca4f; 0x682e6ff3] ++
  [0x748f82ee; 0x78a5636f; 0x84c87814; 0x8cc70208; 0x90befffa; 0xa4506ceb; 0xbef9a3f7; 0xc67178f2].

(** [u32::rotate_right] and [!x]. *)
Definition rotr (x n : Z) : Z := Z.lor (Z.shiftr x n) (u32 (Z.shiftl x (32 - n))).
Definition not32 (x : Z) : Z := u32 (Z.lnot x).

(** The message schedule, an array filled in two loops. *)
Definition schedule_load (block : list Z) (w : list Z) (t : nat) : list Z :=
  <[t := be_value [at_ block (t * 4); at_ block (t * 4 + 1); at_ block (t * 4 + 2); at_ block (t * 4 + 3)]]> w.

Definition schedule_next (w : list Z) (t : nat) : list Z :=
  let s0 := Z.lxor (Z.lxor (rotr (at_ w (t - 15)) 7) (rotr (at_ w (t - 15)) 18)) (Z.shiftr (at_ w (t - 15)) 3) in
  let s1 := Z.lxor (Z.lxor (rotr (at_ w (t - 2)) 17) (rotr (at_ w (t - 2)) 19)) (Z.shiftr (at_ w (t - 2)) 10) in
  <[t := u32 (u32 (u32 (at_ w (t - 16) + s0) + at_ w (t - 7)) + s1)]> w.

Definition schedule (block : list Z) : list Z :=
  foldl schedule_next (foldl (schedule_load block) (replicate 64 0) (seq 0 16)) (seq 16 48).

Record Vars := mkVars { va : Z; vb : Z; vc : Z; vd : Z; ve : Z; vf : Z; vg : Z; vh : Z }.

Definition round (w : list Z) (v : Vars) (t : nat) : Vars :=
  let s1 := Z.lxor (Z.lxor (rotr (ve v) 6) (rotr (ve v) 11)) (rotr (ve v) 25) in
  let ch := Z.lxor (Z.land (ve v) (vf v)) (Z.land (not32 (ve v)) (vg v)) in
  let temp1 := u32 (u32 (u32 (u32 (vh v + s1) + ch) + at_ K t) + at_ w t) in
  let s0 := Z.lxor (Z.lxor (rotr (va v) 2) (rotr (va v) 13)) (rotr (va v) 22) in
  let maj := Z.lxor (Z.lxor (Z.land (va v) (vb v)) (Z.land (va v) (vc v))) (Z.land (vb v) (vc v)) in
  let temp2 := u32 (s0 + maj) in
  mkVars (u32 (temp1 + temp2)) (va v) (vb v) (vc v) (u32 (vd v + temp1)) (ve v) (vf v) (vg v).

Definition sha256_block (h block : list Z) : list Z :=
  let v := foldl (round (schedule block))
             (mkVars (at_ h 0) (at_ h 1) (at_ h 2) (at_ h 3) (at_ h 4) (at_ h 5) (at_ h 6) (at_ h 7)) (seq 0 64) in
  [u32 (at_ h 0 + va v); u32 (at_ h 1 + vb v); u32 (at_ h 2 + vc v); u32 (at_ h 3 + vd v);
   u32 (at_ h 4 + ve v); u32 (at_ h 5 + vf v); u32 (at_ h 6 + vg v); u32 (at_ h 7 + vh v)].

(** One block buffer is used throughout; [out] keeps its bytes after the digest. *)
Definition sha256 (data out : list Z) : option (list Z) :=
  if (length out <? DIGEST_SIZE)%nat then None
  else
    let data_len_bits := u64 (Z.of_nat (length data) * 8) in
    let complete_blocks := (length data / BLOCK_SIZE)%nat in
    let h := foldl (fun h i => sha256_block h (slice (i * BLOCK_SIZE) BLOCK_SIZE data)) H0 (seq 0 complete_blocks) in
    let remaining := (length data mod BLOCK_SIZE)%nat in
    let block := splice 0 (drop (complete_blocks * BLOCK_SIZE) data) (replicate BLOCK_SIZE 0) in
    let block := <[remaining := 0x80]> block in
    let '(h, block) := if (BLOCK_SIZE <? remaining + 1 + 8)%nat
                       then (sha256_block h block, replicate BLOCK_SIZE 0) else (h, block) in
    let block := splice (BLOCK_SIZE - 8) (be_bytes 8 data_len_bits) block in
    let h := sha256_block h block in
    Some (foldl (fun out i => splice (i * 4) (be_bytes 4 (at_ h i)) out) out (seq 0 8)).

Definition hmac_sha256 (key msg out : list Z) : option (list Z) :=
  if (length out <? DIGEST_SIZE)%nat then None
  else
    k ← (if (BLOCK_SIZE <? length key)%nat
         then hashed ← sha256 key (replicate DIGEST_SIZE 0); Some (splice 0 hashed (replicate BLOCK_SIZE 0))
         else Some (splice 0 key (replicate BLOCK_SIZE 0)));
    let ipad := (fun b => Z.lxor b IPAD) <$> k in
    let opad := (fun b => Z.lxor b OPAD) <$> k in
    inner_hash ← sha256 (ipad ++ msg) (replicate DIGEST_SIZE 0);
    sha256 (opad ++ inner_hash) out.

(** [out[j] ^= u[j - block_off]] for [j] in [block_off..end]. *)
Definition xor_into (out u : list Z) (block_off n : nat) : list Z :=
  splice block_off (zip_with Z.lxor (slice block_off n out) u) out.

Fixpoint iterate (password : list Z) (block_off n : nat) (iterations : nat) (u out : list Z) : option (list Z * list Z) :=
  match iterations with
  | O => Some (u, out)
  | S k =>
      u_next ← hmac_sha256 password u (replicate DIGEST_SIZE 0);
      iterate password block_off n k u_next (xor_into out u_next block_off n)
  end.

Definition pbkdf2_block (password salt : list Z) (iterations : Z) (st : option (list Z * list Z)) (block : nat)
    : option (list Z * list Z) :=
  '(u, out) ← st;
  u ← hmac_sha256 password (salt ++ be_bytes 4 (u32 (Z.of_nat block))) u;
  let block_off := ((block - 1) * DIGEST_SIZE)%nat in
  let e := Nat.min (block_off + DIGEST_SIZE) (length out) in
  let out := splice block_off (take (e - block_off) u) out in
  iterate password block_off (e - block_off) (Z.to_nat (iterations - 1)) u out.

Definition pbkdf2 (password salt : list Z) (iterations : Z) (out : list Z) : option (list Z) :=
  if iterations <? 1 then None
  else
    let block_count := ((length out + DIGEST_SIZE - 1) / DIGEST_SIZE)%nat in
    snd <$> foldl (pbkdf2_block password salt iterations) (Some (replicate DIGEST_SIZE 0, out)) (seq 1 block_count).

End Code.

(** ** The standards *)

Module Fips.

(** The constants as the standard defines them (5.3.3, 4.2.2): the first 32 bits
    of the fractional parts of the square roots of the first 8 primes, and of
    the cube roots of the first 64. *)
Definition is_prime (n : nat) : bool := forallb (fun d => negb (n mod d =? 0)%nat) (seq 2 (n - 2)).
Definition primes : list Z := Z.of_nat <$> List.filter is_prime (seq 2 310).

(** The integer cube root below [2 ^ n], bit by bit. *)
Fixpoint cube_root (n : nat) (acc x : Z) : Z :=
  match n with
  | O => acc
  | S n => let c := acc + 2 ^ Z.of_nat n in cube_root n (if c * c * c <=? x then c else acc) x
  end.

Definition H0 : list Z := (fun p => Z.sqrt (p * 2 ^ 64) mod 2 ^ 32) <$> take 8 primes.
Definition K : list Z := (fun p => cube_root 36 0 (p * 2 ^ 96) mod 2 ^ 32) <$> primes.

(** FIPS 180-4, 2.2.2 and 4.1.2. A rotation is given by its bits. *)
Definition ROTR (n x : Z) : Z := Z.shiftr x n + (x mod 2 ^ n) * 2 ^ (32 - n).
Definition SHR (n x : Z) : Z := x / 2 ^ n.
Definition Ch (x y z : Z) : Z := Z.lxor (Z.land x y) (Z.land (2 ^ 32 - 1 - x) z).
Definition Maj (x y z : Z) : Z := Z.lxor (Z.lxor (Z.land x y) (Z.land x z)) (Z.land y z).
Definition Sigma0 (x : Z) : Z := Z.lxor (Z.lxor (ROTR 2 x) (ROTR 13 x)) (ROTR 22 x).
Definition Sigma1 (x : Z) : Z := Z.lxor (Z.lxor (ROTR 6 x) (ROTR 11 x)) (ROTR 25 x).
Definition sigma0 (x : Z) : Z := Z.lxor (Z.lxor (ROTR 7 x) (ROTR 18 x)) (SHR 3 x).
Definition sigma1 (x : Z) : Z := Z.lxor (Z.lxor (ROTR 17 x) (ROTR 19 x)) (SHR 10 x).

(** 5.1.1: a one bit, the least number of zero bits that makes the length 448
    modulo 512, and the length in 64 bits. *)
Definition zero_bits (l : Z) : Z := (448 - (l + 1)) mod 512.

Definition pad (msg : list Z) : list Z :=
  let l := 8 * Z.of_nat (length msg) in
  msg ++ 0x80 :: replicate (Z.to_nat ((zero_bits l - 7) / 8)) 0 ++ be_bytes 8 l.

(** 5.2.1: 512-bit blocks. *)
Fixpoint blocks (n : nat) (l : list Z) : list (list Z) :=
  match n with O => [] | S n => take 64 l :: blocks n (drop 64 l) end.

(** 6.2.2, step 1. *)
Definition W_next (M W : list Z) (t : nat) : Z :=
  if (t <? 16)%nat then be_value (slice (4 * t) 4 M)
  else (sigma1 (at_ W (t - 2)) + at_ W (t - 7) + sigma0 (at_ W (t - 15)) + at_ W (t - 16)) mod 2 ^ 32.

Definition W (M : list Z) : list Z := foldl (fun W t => W ++ [W_next M W t]) [] (seq 0 64).

(** Step 3. *)
Definition step (W : list Z) (v : list Z) (t : nat) : list Z :=
  match v with
  | [a; b; c; d; e; f; g; h] =>
      let T1 := h + Sigma1 e + Ch e f g + at_ K t + at_ W t in
      let T2 := Sigma0 a + Maj a b c in
      [(T1 + T2) mod 2 ^ 32; a; b; c; (d + T1) mod 2 ^ 32; e; f; g]
  | _ => v
  end.

(** Step 4. *)
Definition compress (H M : list Z) : list Z :=
  zip_with (fun x y => (x + y) mod 2 ^ 32) H (foldl (step (W M)) H (seq 0 64)).

Definition sha256 (msg : list Z) : list Z :=
  let p := pad msg in
  foldl compress H0 (blocks (length p / 64) p) ≫= be_bytes 4.

(** RFC 2104. *)
Definition hmac (key msg : list Z) : list Z :=
  let k := if (64 <? length key)%nat then sha256 key else key in
  let k := k ++ replicate (64 - length k) 0 in
  sha256 (((fun b => Z.lxor b 0x5c) <$> k) ++ sha256 (((fun b => Z.lxor b 0x36) <$> k) ++ msg)).

(** RFC 2898, 5.2: [U c] is the c-th iterate, [F] the exclusive or of them. *)
Fixpoint U (P S_ : list Z) (i : Z) (c : nat) : list Z :=
  match c with
  | O => hmac P (S_ ++ be_bytes 4 i)
  | S c => hmac P (U P S_ i c)
  end.

Fixpoint F (P S_ : list Z) (i : Z) (c : nat) : list Z :=
  match c with
  | O => U P S_ i 0
  | S c => zip_with Z.lxor (F P S_ i c) (U P S_ i (S c))
  end.

Definition pbkdf2 (P S_ : list Z) (c : nat) (dkLen : nat) : list Z :=
  take dkLen (seq 1 ((dkLen + 31) / 32) ≫= fun i => F P S_ (Z.of_nat i) (c - 1)).

End Fips.
