(* ===== verification/Sha256Sound.v ===== *)
(** * SHA-256, HMAC and PBKDF2: the code computes the standards

    Proofs that the functions of [Sha256.Code] are those of [Sha256.Fips]:
    words and rounds, the message schedule, the padding in one buffer, and the
    two constructions on top. *)

From S2P Require Import Prelude Sha256.

Local Ltac Zify.zify_post_hook ::= Z.to_euclidean_division_equations.

(** ** Words *)

Lemma lor_add a b m : 0 <= a < 2 ^ m -> 0 <= m -> Z.lor a (b * 2 ^ m) = a + b * 2 ^ m.
Proof.
  intros Ha Hm. rewrite <- (Z.shiftl_mul_pow2 b m) by done.
  assert (Hl : Z.land a (Z.shiftl b m) = 0).
  { apply Z.bits_inj'. intros i Hi. rewrite Z.land_spec, Z.testbit_0_l, Z.shiftl_spec by done.
    destruct (Z.lt_ge_cases i m); [by rewrite (Z.testbit_neg_r b) by lia; apply andb_false_r|].
    rewrite <- (Z.mod_small a (2 ^ m)) by done. by rewrite Z.mod_pow2_bits_high by lia. }
  by rewrite Z.add_nocarry_lxor, Z.lxor_lor by done.
Qed.

Lemma rotr_ROTR x n : is_u32 x -> 0 < n < 32 -> Code.rotr x n = Fips.ROTR n x.
Proof.
  intros [H0 H1] Hn. unfold Code.rotr, Fips.ROTR, u32.
  assert (E : M32 = 2 ^ n * 2 ^ (32 - n)) by (rewrite <- Z.pow_add_r by lia; by replace (n + (32 - n)) with 32 by lia).
  rewrite Z.shiftl_mul_pow2 by lia. rewrite E, Z.mul_mod_distr_r by lia.
  apply lor_add; [|lia]. rewrite Z.shiftr_div_pow2 by lia. split; [apply Z.div_pos; lia|].
  apply Z.div_lt_upper_bound; lia.
Qed.

Lemma ROTR_u32 x n : is_u32 x -> 0 < n < 32 -> is_u32 (Fips.ROTR n x).
Proof.
  intros [H0 H1] Hn. unfold Fips.ROTR, is_u32. rewrite Z.shiftr_div_pow2 by lia.
  assert (E : M32 = 2 ^ n * 2 ^ (32 - n)) by (rewrite <- Z.pow_add_r by lia; by replace (n + (32 - n)) with 32 by lia).
  assert (0 < 2 ^ n) by lia. assert (0 < 2 ^ (32 - n)) by lia.
  pose proof (Z.mod_pos_bound x (2 ^ n) ltac:(lia)). pose proof (Z.div_pos x (2 ^ n) ltac:(lia) ltac:(lia)).
  assert (x / 2 ^ n < 2 ^ (32 - n)) by (apply Z.div_lt_upper_bound; lia). nia.
Qed.

Lemma not32_sub x : is_u32 x -> Code.not32 x = 2 ^ 32 - 1 - x.
Proof. intros H. unfold is_u32, Code.not32, u32, Z.lnot in *. lia. Qed.

Lemma be_value_u32 l : length l = 4%nat -> bytes l -> is_u32 (be_value l).
Proof.
  intros Hl Hb. destruct l as [|a [|b [|c [|d [|? ?]]]]]; try done.
  rewrite !Forall_cons in Hb. unfold be_value, is_u8, is_u32 in *. simpl. lia.
Qed.

(** Sums modulo [2 ^ 32] may be reduced on the way or at the end. *)
Lemma u32_add_l x y z : u32 (u32 x + y + z) = u32 (x + y + z).
Proof. unfold u32. rewrite <- !Z.add_assoc. apply Z.add_mod_idemp_l. lia. Qed.

Lemma u32_sum3 a b c d : u32 (u32 (u32 (a + b) + c) + d) = u32 (a + b + c + d).
Proof. rewrite <- (Z.add_0_r (u32 (u32 _ + c) + d)), u32_add_l, Z.add_0_r. apply u32_add_l. Qed.

Lemma u32_sum4 a b c d e : u32 (u32 (u32 (u32 (a + b) + c) + d) + e) = u32 (a + b + c + d + e).
Proof. rewrite u32_sum3. rewrite <- (Z.add_assoc _ d e), u32_add_l. f_equal. lia. Qed.

Lemma u32_sum a b : u32 (u32 a + u32 b) = u32 (a + b).
Proof. symmetry. apply Z.add_mod. lia. Qed.

(** ** The tables *)

(** The tables of the source hold the constants of the standard. *)
Lemma H0_fips : Code.H0 = Fips.H0.
Proof. vm_compute. reflexivity. Qed.

Lemma K_fips : Code.K = Fips.K.
Proof. vm_compute. reflexivity. Qed.

(** ** Rounds *)

Definition vlist (v : Code.Vars) : list Z :=
  [Code.va v; Code.vb v; Code.vc v; Code.vd v; Code.ve v; Code.vf v; Code.vg v; Code.vh v].

Lemma at_u32 l t : Forall is_u32 l -> is_u32 (at_ l t).
Proof.
  intros H. unfold at_. destruct (l !! t) eqn:E; [exact (Forall_lookup_1 _ _ _ _ H E)|]. done.
Qed.

Lemma round_step w v t :
  Forall is_u32 (vlist v) ->
  vlist (Code.round w v t) = Fips.step w (vlist v) t /\ Forall is_u32 (vlist (Code.round w v t)).
Proof.
  intros H. pose proof H as Hv. unfold vlist in Hv. rewrite !Forall_cons in Hv.
  destruct Hv as (Ha & Hb & Hc & Hd & He & Hf & Hg & Hh & _). split.
  - destruct v as [a b c d e f g h]. simpl in *. unfold Code.round, vlist. rewrite K_fips. simpl.
    rewrite !rotr_ROTR by (done || lia). rewrite not32_sub by done.
    fold (Fips.Sigma1 e). fold (Fips.Sigma0 a). fold (Fips.Ch e f g). fold (Fips.Maj a b c).
    rewrite (u32_sum4 h (Fips.Sigma1 e) (Fips.Ch e f g) (at_ Fips.K t) (at_ w t)), u32_sum. rewrite (Z.add_comm d), <- (Z.add_0_r (u32 _ + d)), u32_add_l, Z.add_0_r, (Z.add_comm _ d).
    reflexivity.
  - unfold Code.round, vlist. rewrite K_fips. simpl. repeat (constructor; [first [apply u32_range|done]|]). constructor.
Qed.

Lemma rounds_steps w v l :
  Forall is_u32 (vlist v) -> vlist (foldl (Code.round w) v l) = foldl (Fips.step w) (vlist v) l.
Proof.
  revert v. induction l as [|t l IH]; intros v Hv; [done|]. simpl.
  destruct (round_step w v t Hv) as [E Hv']. by rewrite IH, E.
Qed.

(** ** The schedule *)

(** Filling an array from the front is appending to a list. *)
Lemma fill (P : list Z -> Prop) f g k m W :
  P W ->
  (forall W' t m', (length W <= t < length W + k)%nat -> length W' = t -> P W' ->
     f (W' ++ replicate (S m') 0) t = <[t := g W' t]> (W' ++ replicate (S m') 0) /\ P (W' ++ [g W' t])) ->
  let W' := foldl (fun W t => W ++ [g W t]) W (seq (length W) k) in
  foldl f (W ++ replicate (k + m) 0) (seq (length W) k) = W' ++ replicate m 0 /\ P W' /\ length W' = (length W + k)%nat.
Proof.
  revert W. induction k as [|k IH]; intros W HP Hf; [simpl; split_and!; [done..|lia]|].
  cbn [seq foldl Nat.add]. destruct (Hf W (length W) (k + m)%nat ltac:(lia) eq_refl HP) as [E HP1].
  change (S k + m)%nat with (S (k + m)). rewrite E. rewrite insert_app_r_alt by lia. rewrite Nat.sub_diag.
  change (replicate (S (k + m)) 0) with (0 :: replicate (k + m) 0). cbn [insert list_insert].
  replace (W ++ g W (length W) :: replicate (k + m) 0) with ((W ++ [g W (length W)]) ++ replicate (k + m) 0)
    by (by rewrite <- app_assoc).
  assert (El : S (length W) = length (W ++ [g W (length W)])) by (rewrite length_app; simpl; lia). rewrite El.
  destruct (IH (W ++ [g W (length W)]) HP1) as (E1 & E2 & E3).
  - intros W' t m' Ht. apply Hf. rewrite length_app in Ht. simpl in Ht. lia.
  - split_and!; [done..|]. rewrite E3, length_app. simpl. lia.
Qed.

Lemma at_app_zeros l m i : at_ (l ++ replicate m 0) i = at_ l i.
Proof.
  unfold at_. destruct (decide (i < length l)%nat); [by rewrite lookup_app_l|].
  rewrite lookup_app_r by lia. rewrite (lookup_ge_None_2 l) by lia. simpl.
  destruct (replicate m 0 !! (i - length l)%nat) eqn:E; [|done]. by apply lookup_replicate_1 in E as [-> _].
Qed.

Lemma slice_4 l i : (i + 4 <= length l)%nat -> slice i 4 l = [at_ l i; at_ l (i + 1); at_ l (i + 2); at_ l (i + 3)].
Proof.
  intros H. apply list_eq. intros j. rewrite lookup_slice. unfold at_.
  destruct (lookup_lt_is_Some_2 l (i + 0)) as [x0 E0]; [lia|]. destruct (lookup_lt_is_Some_2 l (i + 1)) as [x1 E1]; [lia|].
  destruct (lookup_lt_is_Some_2 l (i + 2)) as [x2 E2]; [lia|]. destruct (lookup_lt_is_Some_2 l (i + 3)) as [x3 E3]; [lia|].
  replace (l !! i) with (l !! (i + 0)%nat) by (f_equal; lia). rewrite E0, E1, E2, E3.
  do 4 (destruct j as [|j]; [by rewrite decide_True by lia|]). by rewrite decide_False by lia.
Qed.

Lemma schedule_W M :
  length M = 64%nat -> bytes M -> Code.schedule M = Fips.W M.
Proof.
  intros Hl Hb. unfold Code.schedule, Fips.W.
  destruct (fill (Forall is_u32) (Code.schedule_load M) (Fips.W_next M) 16 48 []) as (E1 & H1 & L1); [done| |].
  { intros W t m [_ Ht] _ HW. simpl in Ht. assert (E : (t * 4 = 4 * t)%nat) by lia.
    unfold Code.schedule_load, Fips.W_next. rewrite (proj2 (Nat.ltb_lt t 16)) by lia. rewrite E, <- slice_4 by lia.
    split; [done|]. apply Forall_app. split; [done|]. constructor; [|done].
    apply be_value_u32; [apply length_slice; lia|by apply Forall_slice]. }
  set (W1 := foldl _ [] (seq (length []) 16)) in *. change (length W1 = 16%nat) in L1.
  change (foldl (Code.schedule_load M) (replicate 64 0) (seq 0 16) = W1 ++ replicate 48 0) in E1. rewrite E1.
  destruct (fill (Forall is_u32) Code.schedule_next (Fips.W_next M) 48 0 W1 H1) as (E2 & _ & _).
  { intros W t m Ht HW Hu. rewrite L1 in Ht. unfold Code.schedule_next, Fips.W_next.
    rewrite (proj2 (Nat.ltb_ge t 16)) by lia. rewrite !at_app_zeros, !rotr_ROTR by (try apply at_u32; done || lia).
    rewrite !Z.shiftr_div_pow2 by lia. change (?x / 2 ^ 3) with (Fips.SHR 3 x). change (?x / 2 ^ 10) with (Fips.SHR 10 x).
    fold (Fips.sigma0 (at_ W (t - 15))). fold (Fips.sigma1 (at_ W (t - 2))).
    rewrite u32_sum3. split; [f_equal; unfold u32; f_equal; lia|]. apply Forall_app. split; [done|]. constructor; [apply u32_range|done]. }
  rewrite L1, app_nil_r, (eq_refl : (48 + 0 = 48)%nat) in E2. rewrite E2.
  assert (Es : seq 0 64 = seq 0 16 ++ seq 16 48) by reflexivity. rewrite Es, foldl_app. reflexivity.
Qed.

Definition words (h : list Z) : Prop := length h = 8%nat /\ Forall is_u32 h.

Lemma block_compress h M :
  words h -> length M = 64%nat -> bytes M ->
  Code.sha256_block h M = Fips.compress h M /\ words (Code.sha256_block h M).
Proof.
  intros [Hl Hh] HM Hb. split.
  - destruct h as [|a [|b [|c [|d [|e [|f [|g [|i [|? ?]]]]]]]]]; try done. clear Hl.
    unfold Code.sha256_block, Fips.compress. rewrite schedule_W by done.
    pose proof (rounds_steps (Fips.W M) (Code.mkVars a b c d e f g i) (seq 0 64) Hh) as E.
    change (vlist (Code.mkVars a b c d e f g i)) with [a; b; c; d; e; f; g; i] in E. rewrite <- E. reflexivity.
  - split; [done|]. unfold Code.sha256_block. repeat (constructor; [apply u32_range|]). constructor.
Qed.

#[local] Opaque Code.sha256_block Fips.compress.

(** ** Blocks and padding *)

Lemma hash_blocks h Ms :
  words h -> Forall (fun M => length M = 64%nat /\ bytes M) Ms ->
  foldl Code.sha256_block h Ms = foldl Fips.compress h Ms /\ words (foldl Code.sha256_block h Ms).
Proof.
  intros Hh HM. revert h Hh. induction HM as [|M Ms [Hl Hb] _ IH]; intros h Hh; [done|]. simpl.
  destruct (block_compress h M Hh Hl Hb) as [E Hw]. destruct (IH _ Hw) as [E' Hw'].
  split; [by rewrite E', E|done].
Qed.

Lemma foldl_map {A B C} (f : A -> B -> A) (g : C -> B) a l : foldl (fun a c => f a (g c)) a l = foldl f a (g <$> l).
Proof. revert a. induction l; simpl; auto. Qed.

Lemma blocks_split n m l :
  (64 * n <= length l)%nat ->
  Fips.blocks (n + m) l = ((fun i => slice (i * 64) 64 l) <$> seq 0 n) ++ Fips.blocks m (drop (64 * n) l).
Proof.
  revert l. induction n as [|n IH]; intros l Hl; [by rewrite Nat.mul_0_r, drop_0|].
  cbn [Nat.add Fips.blocks]. rewrite IH by (rewrite length_drop; lia).
  cbn [seq fmap list_fmap].
  rewrite <- (fmap_S_seq 0 n), <- list_fmap_compose. rewrite drop_drop. cbn [app]. f_equal.
  replace (64 + 64 * n)%nat with (64 * S n)%nat by lia. f_equal. apply list_fmap_ext. intros _ i _. unfold slice. simpl.
  rewrite drop_drop. do 2 f_equal.
Qed.

Lemma splice_front t n : (length t <= n)%nat -> splice 0 t (replicate n 0) = t ++ replicate (n - length t) 0.
Proof. intros H. unfold splice. simpl. by rewrite drop_replicate. Qed.

Lemma mark_block t :
  (length t < 64)%nat -> <[length t := 0x80]> (splice 0 t (replicate 64 0)) = t ++ 0x80 :: replicate (63 - length t) 0.
Proof.
  intros H. rewrite splice_front by lia. rewrite insert_app_r_alt by lia. rewrite Nat.sub_diag.
  by replace (64 - length t)%nat with (S (63 - length t)) by lia.
Qed.

Lemma length_block x d k :
  (length x + k = 64)%nat -> (length x <= 56)%nat -> length d = 8%nat ->
  splice 56 d (x ++ replicate k 0) = x ++ replicate (56 - length x) 0 ++ d.
Proof.
  intros Hk Hx Hd. unfold splice. rewrite Hd, take_app_ge, take_replicate by lia.
  rewrite drop_ge by (rewrite length_app, length_replicate; lia). rewrite app_nil_r, <- app_assoc.
  by replace ((56 - length x) `min` k)%nat with (56 - length x)%nat by lia.
Qed.

Lemma length_be_bytes n x : length (be_bytes n x) = n.
Proof. unfold be_bytes. by rewrite length_rev, length_le_bytes. Qed.

Lemma be_bytes_u8 n x : bytes (be_bytes n x).
Proof. unfold be_bytes. apply List.Forall_rev, le_bytes_u8. Qed.

Lemma zeros_u8 n : bytes (replicate n 0).
Proof. by apply Forall_replicate. Qed.

(** The zero bytes of the padding, by how much the last block holds. *)
Lemma pad_zeros (len r : nat) :
  (r < 64)%nat -> (exists q, len = 64 * q + r)%nat ->
  Z.to_nat ((Fips.zero_bits (8 * Z.of_nat len) - 7) / 8) = (if decide (r + 9 <= 64)%nat then 55 - r else 119 - r)%nat.
Proof. intros Hr [q ->]. unfold Fips.zero_bits. case_decide; lia. Qed.

(** What the code hashes after the complete blocks. *)
Definition tail_blocks (t : list Z) (bits : Z) : list (list Z) :=
  if decide (length t + 9 <= 64)%nat
  then [t ++ 0x80 :: replicate (55 - length t) 0 ++ be_bytes 8 bits]
  else [t ++ 0x80 :: replicate (63 - length t) 0; replicate 56 0 ++ be_bytes 8 bits].

Lemma pad_blocks data (q := (length data / 64)%nat) (t := drop (64 * q) data) :
  length t = (length data mod 64)%nat /\
  Fips.blocks (length (Fips.pad data) / 64) (Fips.pad data) =
  ((fun i => slice (i * 64) 64 data) <$> seq 0 q) ++ tail_blocks t (8 * Z.of_nat (length data)).
Proof.
  pose proof (Nat.div_mod_eq (length data) 64) as Hdm. fold q in Hdm.
  pose proof (Nat.mod_upper_bound (length data) 64 ltac:(lia)) as Hr.
  assert (Ht : length t = (length data mod 64)%nat) by (unfold t; rewrite length_drop; lia). split; [done|].
  assert (Hz := pad_zeros (length data) (length t) ltac:(lia) ltac:(exists q; lia)).
  assert (Hd : Fips.pad data = data ++ 0x80 :: replicate (if decide (length t + 9 <= 64)%nat then 55 - length t else 119 - length t) 0
                                 ++ be_bytes 8 (8 * Z.of_nat (length data))) by (unfold Fips.pad; by rewrite Hz).
  assert (Hq : (length (Fips.pad data) / 64 = q + if decide (length t + 9 <= 64)%nat then 1 else 2)%nat).
  { rewrite Hd, length_app. cbn [length]. rewrite length_app, length_replicate, length_be_bytes.
    case_decide; symmetry; apply (Nat.div_unique _ 64 _ 0); lia. }
  rewrite Hq, blocks_split by (rewrite Hd, length_app; lia). f_equal.
  - apply list_fmap_ext. intros j i Hi. apply list_elem_of_lookup_2, elem_of_seq in Hi. unfold slice. rewrite Hd.
    rewrite drop_app_le by lia. rewrite take_app_le; [done|]. rewrite length_drop. lia.
  - rewrite Hd, drop_app_le by lia. fold t. unfold tail_blocks. case_decide as Hc.
    + cbn [Fips.blocks]. rewrite take_ge; [done|].
      rewrite length_app. cbn [length]. rewrite length_app, length_replicate, length_be_bytes. lia.
    + replace (119 - length t)%nat with (63 - length t + 56)%nat by lia. rewrite replicate_add, <- app_assoc.
      change (0x80 :: ?a ++ ?b) with ((0x80 :: a) ++ b). rewrite app_assoc.
      assert (Hl : length (t ++ 0x80 :: replicate (63 - length t) 0) = 64%nat)
        by (rewrite length_app; cbn [length]; rewrite length_replicate; lia).
      cbn [Fips.blocks]. rewrite take_app_length', drop_app_length' by done.
      rewrite take_ge; [done|]. rewrite length_app, length_replicate, length_be_bytes. lia.
Qed.

#[local] Hint Resolve be_bytes_u8 zeros_u8 : word.

Lemma mark_u8 l : bytes l -> bytes (0x80 :: l).
Proof. intros H. by constructor. Qed.

Lemma tail_blocks_ok t bits :
  (length t < 64)%nat -> bytes t -> Forall (fun M => length M = 64%nat /\ bytes M) (tail_blocks t bits).
Proof.
  intros Ht Hb. unfold tail_blocks. case_decide; [apply Forall_singleton|apply Forall_cons; split; [|apply Forall_singleton]].
  - split; [|apply Forall_app_2, mark_u8, Forall_app_2; auto with word].
    rewrite length_app. cbn [length]. rewrite length_app, length_replicate, length_be_bytes. lia.
  - split; [|apply Forall_app_2, mark_u8; auto with word]. rewrite length_app. cbn [length]. rewrite length_replicate. lia.
  - split; [|apply Forall_app_2; auto with word]. rewrite length_app, length_replicate, length_be_bytes. lia.
Qed.

Lemma length_words l : length (l ≫= be_bytes 4) = (length l * 4)%nat.
Proof. induction l as [|x l IH]; [done|]. change (length (be_bytes 4 x ++ (l ≫= be_bytes 4)) = (length (x :: l) * 4)%nat).
  rewrite length_app, length_be_bytes, IH. simpl. lia. Qed.

(** The digest replaces the first 32 bytes of the buffer. *)
Lemma write_words h out n :
  (n <= length h)%nat -> (4 * n <= length out)%nat ->
  foldl (fun out i => splice (i * 4) (be_bytes 4 (at_ h i)) out) out (seq 0 n) = (take n h ≫= be_bytes 4) ++ drop (4 * n) out.
Proof.
  intros Hh Ho. induction n as [|n IH]; [done|]. rewrite seq_S, foldl_app, IH by lia. cbn [foldl Nat.add].
  destruct (lookup_lt_is_Some_2 h n) as [x Hx]; [lia|]. rewrite (take_S_r _ _ x) by done. rewrite bind_app.
  unfold at_. rewrite Hx. cbn [default mbind list_bind]. rewrite app_nil_r.
  assert (Hl : length (take n h ≫= be_bytes 4) = (n * 4)%nat) by (rewrite length_words, length_take; lia).
  unfold splice. rewrite take_app_length' by done. rewrite drop_app_ge by lia. rewrite length_be_bytes, Hl, drop_drop, <- app_assoc.
  do 3 f_equal. lia.
Qed.

(** ** SHA-256 *)

Lemma H0_words : words Fips.H0.
Proof.
  split; [vm_compute; reflexivity|]. unfold Fips.H0. apply Forall_fmap, Forall_forall. intros p _. apply (Z.mod_pos_bound _ (2 ^ 32)). lia.
Qed.

(** The blocks the code hashes are those of the padded message. *)
Lemma code_blocks data :
  8 * Z.of_nat (length data) < 2 ^ 64 ->
  let q := (length data / 64)%nat in
  let t := drop (q * 64) data in
  let h := foldl (fun h i => Code.sha256_block h (slice (i * 64) 64 data)) Fips.H0 (seq 0 q) in
  let block := <[(length data mod 64)%nat := 0x80]> (splice 0 t (replicate 64 0)) in
  let '(h, block) := if (64 <? length data mod 64 + 1 + 8)%nat
                     then (Code.sha256_block h block, replicate 64 0) else (h, block) in
  Code.sha256_block h (splice 56 (be_bytes 8 (u64 (Z.of_nat (length data) * 8))) block) =
  foldl Code.sha256_block Fips.H0 (Fips.blocks (length (Fips.pad data) / 64) (Fips.pad data)).
Proof.
  intros Hlen. cbv zeta. destruct (pad_blocks data) as [Ht ->]. rewrite (Nat.mul_comm (_ / 64) 64).
  set (q := (length data / 64)%nat) in *. set (t := drop (64 * q) data) in *.
  pose proof (Nat.mod_upper_bound (length data) 64 ltac:(lia)) as Hr. rewrite <- Ht in *.
  rewrite foldl_map, foldl_app, mark_block by lia. rewrite (u64_small (_ * 8)) by (unfold is_u64; lia).
  rewrite (Z.mul_comm _ 8). unfold tail_blocks. destruct (Nat.ltb_spec 64 (length t + 1 + 8)).
  - rewrite decide_False by lia. cbn [foldl]. f_equal.
  - rewrite decide_True by lia. cbn [foldl]. f_equal.
    assert (E : t ++ 0x80 :: replicate (63 - length t) 0 = (t ++ [0x80]) ++ replicate (63 - length t) 0)
      by (by rewrite <- app_assoc).
    rewrite E, length_block; rewrite ?length_app, ?length_be_bytes; simpl; try lia.
    rewrite <- app_assoc. simpl. by replace (56 - (length t + 1))%nat with (55 - length t)%nat by lia.
Qed.

Lemma blocks_ok data :
  bytes data -> Forall (fun M => length M = 64%nat /\ bytes M) (Fips.blocks (length (Fips.pad data) / 64) (Fips.pad data)).
Proof.
  intros Hb. destruct (pad_blocks data) as [Ht ->].
  pose proof (Nat.mod_upper_bound (length data) 64 ltac:(lia)). pose proof (Nat.div_mod_eq (length data) 64).
  apply Forall_app. split; [|apply tail_blocks_ok; [lia|by apply Forall_drop]].
  apply Forall_fmap, Forall_forall. intros i Hi%elem_of_seq. split; [apply length_slice; lia|by apply Forall_slice].
Qed.

Lemma sha256_spec data out :
  bytes data -> 8 * Z.of_nat (length data) < 2 ^ 64 -> (32 <= length out)%nat ->
  Code.sha256 data out = Some (Fips.sha256 data ++ drop 32 out).
Proof.
  intros Hb Hlen Hout. unfold Code.sha256. rewrite (proj2 (Nat.ltb_ge _ _)) by done. rewrite H0_fips. cbv zeta.
  pose proof (code_blocks data Hlen) as E. cbv zeta in E. destruct (hash_blocks Fips.H0 _ H0_words (blocks_ok data Hb)) as [E' [Hw _]].
  unfold Code.BLOCK_SIZE. change (64 - 8)%nat with 56%nat.
  destruct (if (64 <? _)%nat then _ else _) as [h block]. rewrite E.
  rewrite write_words by lia. rewrite take_ge by lia. rewrite E'. reflexivity.
Qed.

Lemma fips_sha256_ok data : bytes data -> length (Fips.sha256 data) = 32%nat /\ bytes (Fips.sha256 data).
Proof.
  intros Hb. unfold Fips.sha256. cbv zeta. destruct (hash_blocks Fips.H0 _ H0_words (blocks_ok data Hb)) as [E [Hw _]].
  rewrite E in Hw. revert Hw. generalize (foldl Fips.compress Fips.H0 (Fips.blocks (length (Fips.pad data) / 64) (Fips.pad data))).
  intros h Hh. destruct h as [|a [|b [|c [|d [|e [|f [|g [|i [|? ?]]]]]]]]]; try done.
  split; [by unfold mbind; cbn [list_bind]; rewrite !length_app, !length_be_bytes|].
  cbn [mbind list_bind]. repeat (apply Forall_app_2; [apply be_bytes_u8|]). constructor.
Qed.

(** ** HMAC *)

Lemma u8_lxor x y : is_u8 x -> is_u8 y -> is_u8 (Z.lxor x y).
Proof.
  unfold is_u8. intros Hx Hy. replace (Z.lxor x y) with (Z.lxor x y mod 2 ^ 8).
  - apply (Z.mod_pos_bound _ (2 ^ 8)). lia.
  - rewrite <- (Z.mod_small x (2 ^ 8)), <- (Z.mod_small y (2 ^ 8)) by lia.
    apply Z.bits_inj'. intros i Hi. destruct (Z.lt_ge_cases i 8).
    + by rewrite Z.mod_pow2_bits_low.
    + by rewrite Z.lxor_spec, !Z.mod_pow2_bits_high by lia.
Qed.

Lemma xor_u8 c l : is_u8 c -> bytes l -> bytes ((fun b => Z.lxor b c) <$> l).
Proof. intros Hc Hl. apply Forall_fmap. eapply Forall_impl; [exact Hl|]. intros b Hb. by apply u8_lxor. Qed.

(** The key of a block's length. *)
Definition block_key (key : list Z) : list Z :=
  let k := if (64 <? length key)%nat then Fips.sha256 key else key in k ++ replicate (64 - length k) 0.

Lemma block_key_ok key : bytes key -> length (block_key key) = 64%nat /\ bytes (block_key key).
Proof.
  intros Hk. unfold block_key. cbv zeta. destruct (fips_sha256_ok key Hk) as [Hl Hb].
  destruct (Nat.ltb_spec 64 (length key)); rewrite length_app, length_replicate;
    (split; [lia|]); apply Forall_app_2; auto using zeros_u8.
Qed.

(** A message that can be hashed with a block in front of it. *)
Definition short (l : list Z) : Prop := bytes l /\ 8 * Z.of_nat (64 + length l) < 2 ^ 64.

Lemma hmac_spec key msg out :
  short key -> short msg -> (32 <= length out)%nat ->
  Code.hmac_sha256 key msg out = Some (Fips.hmac key msg ++ drop 32 out) /\
  length (Fips.hmac key msg) = 32%nat /\ bytes (Fips.hmac key msg).
Proof.
  intros [Hk Lk] [Hm Lm] Ho. destruct (block_key_ok key Hk) as [Lb Hb].
  assert (Hi : bytes (((fun b => Z.lxor b 0x36) <$> block_key key) ++ msg)) by (by apply Forall_app_2; [apply xor_u8|]).
  destruct (fips_sha256_ok _ Hi) as [Li Bi].
  assert (Hh : bytes (((fun b => Z.lxor b 0x5c) <$> block_key key) ++ Fips.sha256 (((fun b => Z.lxor b 0x36) <$> block_key key) ++ msg)))
    by (by apply Forall_app_2; [apply xor_u8|]).
  split; [|exact (fips_sha256_ok _ Hh)].
  unfold Code.hmac_sha256. rewrite (proj2 (Nat.ltb_ge _ _)) by done.
  assert (Ek : (if (Code.BLOCK_SIZE <? length key)%nat
                then hashed ← Code.sha256 key (replicate Code.DIGEST_SIZE 0); Some (splice 0 hashed (replicate Code.BLOCK_SIZE 0))
                else Some (splice 0 key (replicate Code.BLOCK_SIZE 0))) = Some (block_key key)).
  { unfold block_key, Code.BLOCK_SIZE, Code.DIGEST_SIZE. destruct (Nat.ltb_spec 64 (length key)).
    - rewrite sha256_spec by (rewrite ?length_replicate; done || lia). rewrite drop_replicate, app_nil_r. cbn [mbind option_bind].
      destruct (fips_sha256_ok key Hk) as [Hl _]. by rewrite splice_front by lia.
    - by rewrite splice_front by lia. }
  rewrite Ek. cbn [mbind option_bind]. unfold Code.IPAD, Code.OPAD, Code.DIGEST_SIZE.
  rewrite (sha256_spec (_ ++ msg)) by (rewrite ?length_app, ?length_fmap, ?length_replicate, ?Lb; done || lia).
  rewrite drop_replicate, app_nil_r. cbn [mbind option_bind].
  rewrite sha256_spec by (rewrite ?length_app, ?length_fmap, ?Lb, ?Li; done || lia). reflexivity.
Qed.

(** ** PBKDF2 *)

Lemma zip_take {A B C} (f : A -> B -> C) n l k : zip_with f (take n l) k = take n (zip_with f l k).
Proof. revert l k. induction n as [|n IH]; intros [|x l] [|y k]; simpl; [done..|]. by rewrite IH. Qed.

Section pbkdf2.
Context (P S_ : list Z) (HP : short P) (HS : short (S_ ++ [0; 0; 0; 0])).

Lemma salt_short i : short (S_ ++ be_bytes 4 i).
Proof.
  destruct HS as [Hb Hl]. apply Forall_app in Hb as [Hb _]. rewrite length_app in Hl.
  split; [by apply Forall_app_2; [|apply be_bytes_u8]|]. rewrite length_app, length_be_bytes. exact Hl.
Qed.

Lemma digest_short l : length l = 32%nat -> bytes l -> short l.
Proof. intros Hl Hb. split; [done|]. rewrite Hl. lia. Qed.

Lemma U_ok i c : length (Fips.U P S_ i c) = 32%nat /\ bytes (Fips.U P S_ i c).
Proof.
  assert (H32 : (32 <= length (replicate 32 0))%nat) by (rewrite length_replicate; lia).
  induction c as [|c [Hl Hb]]; cbn [Fips.U].
  - apply (hmac_spec _ _ (replicate 32 0) HP (salt_short i) H32).
  - apply (hmac_spec _ _ (replicate 32 0) HP (digest_short _ Hl Hb) H32).
Qed.

Lemma length_F i c : length (Fips.F P S_ i c) = 32%nat.
Proof. induction c as [|c IH]; cbn [Fips.F]; [apply U_ok|]. rewrite length_zip_with, IH, (proj1 (U_ok i (S c))). done. Qed.

Lemma iterate_spec i k c n pre post :
  (n <= 32)%nat ->
  Code.iterate P (length pre) n k (Fips.U P S_ i c) (pre ++ take n (Fips.F P S_ i c) ++ post) =
  Some (Fips.U P S_ i (c + k), pre ++ take n (Fips.F P S_ i (c + k)) ++ post).
Proof.
  intros Hn. revert c. induction k as [|k IH]; intros c; [by rewrite Nat.add_0_r|]. cbn [Code.iterate].
  destruct (U_ok i c) as [Hl Hb].
  destruct (hmac_spec P (Fips.U P S_ i c) (replicate Code.DIGEST_SIZE 0) HP (digest_short _ Hl Hb)) as [-> _].
  { unfold Code.DIGEST_SIZE. rewrite length_replicate. lia. }
  unfold Code.DIGEST_SIZE. rewrite drop_replicate, app_nil_r. cbn [mbind option_bind].
  change (Fips.hmac P (Fips.U P S_ i c)) with (Fips.U P S_ i (S c)).
  assert (Hx : Code.xor_into (pre ++ take n (Fips.F P S_ i c) ++ post) (Fips.U P S_ i (S c)) (length pre) n =
               pre ++ take n (Fips.F P S_ i (S c)) ++ post).
  { assert (Ht : length (take n (Fips.F P S_ i c)) = n) by (rewrite length_take, length_F; lia).
    unfold Code.xor_into, slice, splice. rewrite take_app_length, drop_app_length. rewrite take_app_length' by done.
    rewrite zip_take. change (zip_with Z.lxor (Fips.F P S_ i c) (Fips.U P S_ i (S c))) with (Fips.F P S_ i (S c)).
    rewrite length_take, length_F, drop_app_ge by lia. do 2 f_equal.
    replace (length pre + n `min` 32 - length pre)%nat with n by lia. by rewrite drop_app_length'. }
  rewrite Hx, IH. by rewrite Nat.add_succ_r.
Qed.

(** The first [j] blocks of derived key. *)
Definition derived (c j : nat) : list Z := seq 1 j ≫= fun i => Fips.F P S_ (Z.of_nat i) c.

Lemma derived_S c j : derived c (S j) = derived c j ++ Fips.F P S_ (Z.of_nat (S j)) c.
Proof. unfold derived. rewrite seq_S, bind_app. csimpl. by rewrite app_nil_r. Qed.

Lemma length_derived c j : length (derived c j) = (32 * j)%nat.
Proof. induction j as [|j IH]; [done|]. rewrite derived_S, length_app, IH, length_F. lia. Qed.

(** One block of the loop, when the buffer is not yet full. *)
Lemma pbkdf2_block_spec c j u out :
  (32 * j < length out)%nat -> Z.of_nat (S j) < M32 -> length u = 32%nat -> 0 <= c ->
  exists u', length u' = 32%nat /\
  Code.pbkdf2_block P S_ (c + 1) (Some (u, take (length out) (derived (Z.to_nat c) j) ++ drop (32 * j) out)) (S j) =
  Some (u', take (length out) (derived (Z.to_nat c) (S j)) ++ drop (32 * S j) out).
Proof.
  intros Hj Hi Hu Hc. exists (Fips.U P S_ (Z.of_nat (S j)) (Z.to_nat c)). split; [apply U_ok|].
  unfold Code.pbkdf2_block. cbn [mbind option_bind].
  destruct (hmac_spec P (S_ ++ be_bytes 4 (u32 (Z.of_nat (S j)))) u HP (salt_short _)) as [-> _]; [lia|].
  rewrite (drop_ge u), app_nil_r by lia. cbn [mbind option_bind]. unfold u32. rewrite Z.mod_small by lia.
  change (Fips.hmac P (S_ ++ be_bytes 4 (Z.of_nat (S j)))) with (Fips.U P S_ (Z.of_nat (S j)) 0).
  unfold Code.DIGEST_SIZE. replace (S j - 1)%nat with j by lia.
  set (pre := derived (Z.to_nat c) j). assert (Hp : length pre = (32 * j)%nat) by apply length_derived.
  rewrite (take_ge pre) by lia. rewrite length_app, length_drop, Hp.
  set (n := Nat.min 32 (length out - 32 * j)).
  replace ((j * 32 + 32) `min` (32 * j + (length out - 32 * j)) - j * 32)%nat with n by lia.
  replace (j * 32)%nat with (length pre) by lia. replace (c + 1 - 1) with c by lia.
  assert (Hs : splice (length pre) (take n (Fips.U P S_ (Z.of_nat (S j)) 0)) (pre ++ drop (32 * j) out) =
               pre ++ take n (Fips.F P S_ (Z.of_nat (S j)) 0) ++ drop (32 * S j) out).
  { unfold splice. rewrite take_app_length, length_take, (proj1 (U_ok _ 0)), drop_app_ge by lia. do 2 f_equal.
    replace (length pre + n `min` 32 - length pre)%nat with n by lia. rewrite drop_drop.
    destruct (decide (n = 32)%nat); [f_equal; lia|]. rewrite !drop_ge by lia. done. }
  rewrite Hs, iterate_spec by lia. rewrite derived_S. fold pre. do 2 f_equal. rewrite take_app_ge by lia. rewrite Hp, <- app_assoc.
  do 2 f_equal. destruct (decide (n = 32)%nat); [rewrite !take_ge by (rewrite length_F; lia); done|]. f_equal. lia.
Qed.

Lemma pbkdf2_spec c out :
  1 <= c -> Z.of_nat (length out) <= 32 * (M32 - 1) ->
  Code.pbkdf2 P S_ c out = Some (Fips.pbkdf2 P S_ (Z.to_nat c) (length out)).
Proof.
  intros Hc Hlen. unfold Code.pbkdf2. rewrite (proj2 (Z.ltb_ge c 1)) by lia. unfold Code.DIGEST_SIZE.
  replace (length out + 32 - 1)%nat with (length out + 31)%nat by lia. set (m := ((length out + 31) / 32)%nat).
  assert (Hm : (32 * (m - 1) < length out \/ m = 0)%nat /\ (length out <= 32 * m)%nat).
  { pose proof (Nat.div_mod_eq (length out + 31) 32). pose proof (Nat.mod_upper_bound (length out + 31) 32 ltac:(lia)). lia. }
  assert (Hloop : forall j, (j <= m)%nat -> exists u, length u = 32%nat /\
    foldl (Code.pbkdf2_block P S_ c) (Some (replicate 32 0, out)) (seq 1 j) =
    Some (u, take (length out) (derived (Z.to_nat (c - 1)) j) ++ drop (32 * j) out)).
  { induction j as [|j IH]; intros Hj; [exists (replicate 32 0); split; [done|]; unfold derived; simpl; by rewrite take_nil|].
    destruct IH as (u & Hu & E); [lia|]. rewrite seq_S, foldl_app, E. cbn [foldl Nat.add].
    pose proof (pbkdf2_block_spec (c - 1) j u out ltac:(lia) ltac:(lia) Hu ltac:(lia)) as Hb.
    by replace (c - 1 + 1) with c in Hb by lia. }
  destruct (Hloop m ltac:(lia)) as (u & _ & ->). cbn [fmap option_fmap option_map snd]. f_equal.
  rewrite drop_ge, app_nil_r by lia. unfold Fips.pbkdf2. fold m. unfold derived. by replace (Z.to_nat (c - 1)) with (Z.to_nat c - 1)%nat by lia.
Qed.
End pbkdf2.

(** C9. The code is the standard: for every message of less than 2^61 bytes,
    [sha256] panics exactly when the buffer is shorter than a digest, and
    otherwise writes the FIPS 180-4 hash of the message to its first 32 bytes
    and leaves the others. The two tables of the source are part of it: the
    standard's constants are computed from the primes. *)
Theorem sha256_fips data out :
  bytes data -> 8 * Z.of_nat (length data) < 2 ^ 64 ->
  Code.sha256 data out = if decide (32 <= length out)%nat then Some (Fips.sha256 data ++ drop 32 out) else None.
Proof.
  intros Hb Hl. case_decide; [by apply sha256_spec|]. unfold Code.sha256. rewrite (proj2 (Nat.ltb_lt _ _)); [done|].
  unfold Code.DIGEST_SIZE. lia.
Qed.

(** The message "abc", with its published hash. *)
Lemma sha256_fips_witness :
  Code.sha256 [97; 98; 99] (replicate 33 7) = Some (Fips.sha256 [97; 98; 99] ++ [7]) /\
  Fips.sha256 [97; 98; 99] = be_bytes 32 0xba7816bf8f01cfea414140de5dae2223b00361a396177a9cb410ff61f20015ad.
Proof.
  split; [|vm_compute; reflexivity].
  exact (sha256_fips [97; 98; 99] (replicate 33 7) ltac:(repeat (constructor; [done|]); constructor) ltac:(done)).
Defined.

(** Key derivation is the standard too: for keys, messages and salts of
    ordinary length [hmac_sha256] writes the RFC 2104 code and [pbkdf2], for a
    positive number of iterations, fills its buffer, of any length RFC 2898
    allows, with the derived key. *)
Theorem hmac_pbkdf2_rfc key msg salt c mac out :
  short key -> short msg -> short (salt ++ [0; 0; 0; 0]) -> (32 <= length mac)%nat ->
  1 <= c -> Z.of_nat (length out) <= 32 * (M32 - 1) ->
  Code.hmac_sha256 key msg mac = Some (Fips.hmac key msg ++ drop 32 mac) /\
  Code.pbkdf2 key salt c out = Some (Fips.pbkdf2 key salt (Z.to_nat c) (length out)).
Proof. intros Hk Hm Hs Hl Hc Ho. split; [by apply hmac_spec|by apply pbkdf2_spec]. Qed.

(** RFC 4231, test case 1; two iterations into a buffer of 40 bytes. *)
Lemma hmac_pbkdf2_rfc_witness :
  Code.hmac_sha256 (replicate 20 0x0b) [72; 105; 32; 84; 104; 101; 114; 101] (replicate 32 0)
  = Some (be_bytes 32 0xb0344c61d8db38535ca8afceaf0bf12b881dc200c9833da726e9376c2e32cff7) /\
  Code.pbkdf2 (replicate 20 0x0b) [1; 2] 2 (replicate 40 0) = Some (Fips.pbkdf2 (replicate 20 0x0b) [1; 2] 2 40).
Proof.
  assert (Hk : short (replicate 20 0x0b)) by (split; [by apply Forall_replicate|done]).
  assert (Hm : short [72; 105; 32; 84; 104; 101; 114; 101]) by (split; [repeat (constructor; [done|]); constructor|done]).
  assert (Hs : short ([1; 2] ++ [0; 0; 0; 0])) by (split; [repeat (constructor; [done|]); constructor|done]).
  destruct (hmac_pbkdf2_rfc (replicate 20 0x0b) [72; 105; 32; 84; 104; 101; 114; 101] [1; 2] 2 (replicate 32 0) (replicate 40 0)
    Hk Hm Hs ltac:(done) ltac:(done) ltac:(done)) as [_ H].
  split; [vm_compute; reflexivity|exact H].
Defined.
