(* ===== verification/Kaslr.v ===== *)
(** * Kernel relocation

    Model of [kernel/src/kaslr_reloc.rs]: checking the relocation table,
    writing the relocated words, and building the page directory that maps the
    kernel at its random place while keeping it where it was. Memory is a
    function from the addresses of aligned 64-bit words; the addresses the
    linker defines are a record; a page table is a list of entries. Writing an
    entry is [PageTableEntry::set_frame] of the x86_64 crate, a parameter: the
    entry it stores, or its panic. The jump into the new address space is
    assembly and not modelled. *)

From stdpp Require Import functions.
From S2P Require Import Prelude.

Abbreviation Memory := (Z -> Z).

Record Elf64Rela := mkRela { r_offset : Z; r_info : Z; r_addend : Z }.

Definition get_type (r : Elf64Rela) : Z := Z.land (r_info r) 0xFFFFFFFF.
Definition R_X86_64_RELATIVE : Z := 8.
Definition SIZE_OF_RELA : Z := 24.

Record RelocationOutcome := mkOutcome { applied : Z; failed : Z }.
Definition succeeded (o : RelocationOutcome) : bool := (0 <? applied o) && (failed o =? 0).

Record ImageBounds := mkBounds { img_start : Z; img_end : Z; writable_start : Z; writable_end : Z }.

Inductive RelocReject :=
| UnsupportedType (v : Z)
| MisalignedOffset (v : Z)
| NonIncreasingOffset (v : Z)
| OutOfImageOffset (v : Z)
| ReadOnlyOffset (v : Z)
| OutOfImageAddend (v : Z)
| Overflow (v : Z).

(** [RelocReject::value], what the boot log shows. *)
Definition reject_value (r : RelocReject) : Z :=
  match r with
  | UnsupportedType v | MisalignedOffset v | NonIncreasingOffset v | OutOfImageOffset v
  | ReadOnlyOffset v | OutOfImageAddend v | Overflow v => v
  end.

Inductive TableShape := Empty | Malformed (bytes : Z) | Entries (n : nat).

Definition table_shape (rela_bytes : Z) : TableShape :=
  if rela_bytes =? 0 then Empty
  else if negb (rela_bytes mod SIZE_OF_RELA =? 0) then Malformed rela_bytes
  else Entries (Z.to_nat (rela_bytes / SIZE_OF_RELA)).

Definition reject_entry (rel : Elf64Rela) (slide : Z) (b : ImageBounds) (prev_offset : option Z) : option RelocReject :=
  let ty := get_type rel in
  if negb (ty =? R_X86_64_RELATIVE) then Some (UnsupportedType ty)
  else
    let off := r_offset rel in
    if negb (off mod 8 =? 0) then Some (MisalignedOffset off)
    else if match prev_offset with Some prev => off <=? prev | None => false end then Some (NonIncreasingOffset off)
    else if (off <? img_start b) || (M64 <=? off + 8) || (img_end b <? off + 8) then Some (OutOfImageOffset off)
    else if (off <? writable_start b) || (writable_end b <=? off) then Some (ReadOnlyOffset off)
    else
      let addend := u64 (r_addend rel) in
      if M64 <=? addend + slide then Some (Overflow addend)
      else if (addend <? img_start b) || (img_end b <? addend) then Some (OutOfImageAddend addend)
      else None.

(** Entry [i] of the table at [base], three words. The addend is read as a
    signed number. *)
Definition entry_at (m : Memory) (base : Z) (i : nat) : Elf64Rela :=
  let a := u64 (base + Z.of_nat i * SIZE_OF_RELA) in
  mkRela (m a) (m (u64 (a + 8))) (i64 (m (u64 (a + 16)))).

(** The symbols of the linker script. *)
Record Symbols := mkSymbols { rela_start : Z; rela_end : Z; bounds : ImageBounds }.

(** The checking loop: accepted, rejected, the first reason and the last
    accepted offset. *)
Record Check_ := mkCheck { accepted : Z; rejected : Z; first_reject : option RelocReject; prev_offset : option Z }.

Definition check_step (m : Memory) (base slide : Z) (b : ImageBounds) (c : Check_) (i : nat) : Check_ :=
  let rel := entry_at m base i in
  match reject_entry rel slide b (prev_offset c) with
  | None => mkCheck (accepted c + 1) (rejected c) (first_reject c) (Some (r_offset rel))
  | Some reason => mkCheck (accepted c) (rejected c + 1)
                     (match first_reject c with None => Some reason | r => r end) (prev_offset c)
  end.

Definition check_table (m : Memory) (base slide : Z) (b : ImageBounds) (count : nat) : Check_ :=
  foldl (check_step m base slide b) (mkCheck 0 0 None None) (seq 0 count).

(** The writing loop goes from the last entry to the first and reads each
    entry from the memory it is changing. *)
Fixpoint apply_relocations_write_pass (m : Memory) (base : Z) (i : nat) (slide n : Z) : Z * Memory :=
  match i with
  | O => (n, m)
  | S i =>
      let e := entry_at m base i in
      if negb (Z.land (r_info e) 0xFFFFFFFF =? R_X86_64_RELATIVE)
      then apply_relocations_write_pass m base i slide n
      else apply_relocations_write_pass (<[r_offset e := u64 (u64 (r_addend e) + slide)]> m) base i slide (n + 1)
  end.

(** The outcome, [KASLR_APPLIED] and the memory. *)
Definition apply_kaslr_relocations (sy : Symbols) (slide : Z) (done_ : bool) (m : Memory)
    : RelocationOutcome * bool * Memory :=
  if done_ then (mkOutcome 0 1, true, m)
  else
    match table_shape (Z.max 0 (rela_end sy - rela_start sy)) with
    | Empty => (mkOutcome 0 0, false, m)
    | Malformed _ => (mkOutcome 0 1, false, m)
    | Entries count =>
        let c := check_table m (rela_start sy) slide (bounds sy) count in
        match first_reject c with
        | Some _ => (mkOutcome 0 (rejected c), false, m)
        | None =>
            let '(n, m') := apply_relocations_write_pass m (rela_start sy) count slide 0 in
            (mkOutcome n (Z.max 0 (accepted c - n)), true, m')
        end
    end.

(** ** Spans and page directory indices *)

Definition LINK_BASE : Z := 0xFFFFFFFF80000000.
Definition MAP_PAGE : Z := 2 * 1024 * 1024.
Definition KERNEL_SPAN_CEILING : Z := 1024 * 1024 * 1024.

Definition kernel_span_bytes (sy : Symbols) : Z := Z.max 0 (img_end (bounds sy) - img_start (bounds sy)).
Definition kernel_map_pages (size_bytes : Z) : nat := Z.to_nat ((size_bytes + MAP_PAGE - 1) / MAP_PAGE).
Definition kernel_base_pd_index : nat := Z.to_nat (Z.land (Z.shiftr LINK_BASE 21) 0x1FF).
Definition pd_destination_index (pd_index_shift page : nat) : nat :=
  ((kernel_base_pd_index + pd_index_shift + page) mod 512)%nat.
Definition pd_shift_aliases (pd_index_shift pages : nat) : bool :=
  (512 <? kernel_base_pd_index + pd_index_shift + pages)%nat.
Definition pd_shift_conflicts (pd_index_shift pages : nat) : bool :=
  (pd_index_shift <? pages)%nat || pd_shift_aliases pd_index_shift pages.

Record SegmentAddr := mkSegment { vaddr_start : Z; vaddr_end : Z }.
Record ElfSegmentSpan := mkSpan { low : Z; high : Z }.

Definition from_segments (segments : list SegmentAddr) : ElfSegmentSpan :=
  let '(l, h) := foldl (fun '(l, h) s =>
                          if vaddr_end s <=? vaddr_start s then (l, h)
                          else (Z.min l (vaddr_start s), Z.max h (vaddr_end s))) (M64 - 1, 0) segments in
  if l =? M64 - 1 then mkSpan 0 0 else mkSpan l h.

Definition span_bytes (s : ElfSegmentSpan) : Z := Z.max 0 (high s - low s).
Definition span_pages (s : ElfSegmentSpan) : nat := kernel_map_pages (span_bytes s).

(** [page_aliasing], the model for the tests. *)
Definition alias_entries (pages pd_index_shift : nat) : list (nat * nat) :=
  (fun i => ((511 + i) mod 512, (511 + pd_index_shift + i) mod 512)%nat) <$> seq 0 pages.

(** ** The page tables *)

(** An entry: unused, or a frame and flags. *)
Abbreviation Entry := (option (Z * Z)).
Abbreviation PageTable := (list Entry).

Definition PRESENT : Z := 1.
Definition WRITABLE : Z := 2.
Definition HUGE_PAGE : Z := 128.
Definition huge_flags : Z := PRESENT + WRITABLE + HUGE_PAGE.

(** [PDPT[510]]: a page of 1 GiB, a page directory, or neither, when [frame()]
    is an error. *)
Inductive KernelPdpte := Huge (phys : Z) | Directory (pd : PageTable) | NotPresent.

Section SetFrame.
Context (set_frame : Z -> Z -> option (Z * Z)).

(** [PhysAddr::new] panics above 52 bits; the frame is aligned to 4 KiB. *)
Definition huge_entry (phys : Z) (i : nat) : option (Z * Z) :=
  let page_phys := phys + Z.of_nat i * MAP_PAGE in
  if 2 ^ 52 <=? page_phys then None else set_frame (page_phys / 4096 * 4096) huge_flags.

(** The loop of the huge case. *)
Fixpoint fill_huge (phys : Z) (shift : nat) (idx : list nat) (pd : PageTable) : option PageTable :=
  match idx with
  | [] => Some pd
  | i :: idx =>
      e ← huge_entry phys i;
      fill_huge phys shift idx
        (<[((kernel_base_pd_index + i) mod 512)%nat := Some e]> (<[pd_destination_index shift i := Some e]> pd))
  end.

(** The loop of the other case. *)
Definition copy_step (old_pd : PageTable) (shift : nat) (pd : PageTable) (i : nat) : PageTable :=
  let src := ((kernel_base_pd_index + i) mod 512)%nat in
  match old_pd !! src with
  | Some (Some e) => <[src := Some e]> (<[pd_destination_index shift i := Some e]> pd)
  | _ => pd
  end.

(** The entry of the trampoline's page. *)
Definition trampoline_entry (k : KernelPdpte) (trampoline_virt : Z) : option Entry :=
  match k with
  | Huge phys => Some <$> huge_entry phys (Z.to_nat ((trampoline_virt - LINK_BASE) / MAP_PAGE))
  | Directory old_pd =>
      let rel := Z.to_nat (Z.land (Z.shiftr (trampoline_virt - LINK_BASE) 21) 0x1FF) in
      old_pd !! ((kernel_base_pd_index + rel) mod 512)%nat
  | NotPresent => None
  end.

Definition map_trampoline (k : KernelPdpte) (shift : nat) (trampoline_virt : Z) (pd : PageTable) : option PageTable :=
  let rel := Z.to_nat (Z.land (Z.shiftr (trampoline_virt - LINK_BASE) 21) 0x1FF) in
  e ← trampoline_entry k trampoline_virt;
  Some (match e with
        | None => pd
        | Some e => <[pd_destination_index shift rel := Some e]> (<[((kernel_base_pd_index + rel) mod 512)%nat := Some e]> pd)
        end).

(** [KERNEL_SLIDE], [KASLR_APPLIED] and memory. *)
Record Kaslr := mkKaslr { kernel_slide : Z; kaslr_applied : bool; memory : Memory }.

(** [init_kaslr] of [kaslr.rs] chooses the slide from the time stamp counter. *)
Definition init_kaslr (tsc : Z) (k : Kaslr) : Kaslr :=
  if kaslr_applied k then k
  else mkKaslr (Z.lor (Z.land tsc 0x3FE00000) 0x200000) (kaslr_applied k) (memory k).

(** The tables before: the top level, the third level behind its entry 511
    (none, when [frame()] of the entry is an error) and the kernel's entry in it. *)
Record Tables := mkTables { pml4 : PageTable; pdpt : option PageTable; kernel_entry : KernelPdpte }.

Inductive Activation :=
| Panics
| Returns (k : Kaslr)
| Jumps (k : Kaslr) (new_pml4 new_pdpt new_pd : PageTable).

(** The new directory before the trampoline; the huge case fills it first. *)
Definition fill_directory (k : KernelPdpte) (shift pages : nat) : option PageTable :=
  match k with
  | Huge phys => fill_huge phys shift (seq 0 pages) (replicate 512 None)
  | _ => Some (replicate 512 None)
  end.

Definition copy_directory (k : KernelPdpte) (shift pages : nat) (pd : PageTable) : option PageTable :=
  match k with
  | Huge _ => Some pd
  | Directory old_pd => Some (foldl (copy_step old_pd shift) pd (seq 0 pages))
  | NotPresent => None
  end.

(** The frames are those the allocator gives for the three new tables. *)
Definition activate_kaslr_mapping (sy : Symbols) (trampoline_virt : Z) (old : Tables)
    (pml4_frame pdpt_frame pd_frame : option Z) (k : Kaslr) : Activation :=
  let slide := kernel_slide k in
  let abandon (applied : bool) := Returns (mkKaslr 0 applied (memory k)) in
  let shift := Z.to_nat (Z.shiftr slide 21) in
  let span := kernel_span_bytes sy in
  let pages := kernel_map_pages span in
  if slide =? 0 then Returns k
  else
    match pml4_frame, pdpt_frame, pdpt old, pd_frame with
    | Some _, Some pdpt_f, Some old_pdpt, Some pd_f =>
        if match kernel_entry old with Huge _ => (span =? 0) || (KERNEL_SPAN_CEILING <? span) | _ => false end
        then abandon (kaslr_applied k)
        else
          match fill_directory (kernel_entry old) shift pages with
          | None => Panics
          | Some pd =>
              if pd_shift_conflicts shift pages then abandon (kaslr_applied k)
              else
                match pd ← copy_directory (kernel_entry old) shift pages pd;
                      pd ← map_trampoline (kernel_entry old) shift trampoline_virt pd;
                      e3 ← set_frame pd_f (PRESENT + WRITABLE);
                      e4 ← set_frame pdpt_f (PRESENT + WRITABLE);
                      Some (pd, e3, e4) with
                | None => Panics
                | Some (pd, e3, e4) =>
                    let new_pdpt := <[510%nat := Some e3]> old_pdpt in
                    let new_pml4 := <[510%nat := default None (pml4 old !! 511%nat)]> (<[511%nat := Some e4]> (pml4 old)) in
                    let '(outcome, applied, m) := apply_kaslr_relocations sy slide (kaslr_applied k) (memory k) in
                    if succeeded outcome then Jumps (mkKaslr slide applied m) new_pml4 new_pdpt pd
                    else Returns (mkKaslr 0 applied m)
                end
          end
    | _, _, _, _ => Panics
    end.

End SetFrame.
