(* ===== verification/KaslrSound.v ===== *)
(** * Kernel relocation: correctness

    A relocation table is applied completely or not at all ([Kaslr]), and when
    the kernel jumps, its pages are mapped both where they were and where they
    go, and its words are relocated. *)

From stdpp Require Import functions.
From S2P Require Import Prelude Kaslr.

Local Ltac Zify.zify_post_hook ::= Z.to_euclidean_division_equations.

(** ** The table *)

(** An entry that may be applied. *)
Definition entry_ok (slide : Z) (b : ImageBounds) (r : Elf64Rela) : Prop :=
  get_type r = R_X86_64_RELATIVE /\ r_offset r mod 8 = 0 /\
  img_start b <= r_offset r /\ r_offset r + 8 <= img_end b /\
  writable_start b <= r_offset r < writable_end b /\
  img_start b <= u64 (r_addend r) <= img_end b /\ u64 (r_addend r) + slide < M64.

Definition table_ok (m : Memory) (base slide : Z) (b : ImageBounds) (count : nat) : Prop :=
  (forall i, (i < count)%nat -> entry_ok slide b (entry_at m base i)) /\
  (forall i j, (i < j < count)%nat -> r_offset (entry_at m base i) < r_offset (entry_at m base j)).

Lemma reject_entry_None r slide b prev :
  img_end b < M64 ->
  reject_entry r slide b prev = None <->
  entry_ok slide b r /\ match prev with Some p => p < r_offset r | None => True end.
Proof.
  intros Hb. unfold reject_entry, entry_ok. cbv zeta.
  destruct (Z.eqb_spec (get_type r) R_X86_64_RELATIVE); cbn [negb]; [|naive_solver].
  destruct (Z.eqb_spec (r_offset r mod 8) 0); cbn [negb]; [|naive_solver].
  assert (Hp : (match prev with Some p => r_offset r <=? p | None => false end) = false <->
               match prev with Some p => p < r_offset r | None => True end) by (destruct prev; [lia|done]).
  destruct (match prev with Some p => r_offset r <=? p | None => false end); [naive_solver|].
  destruct (_ || _ || _) eqn:E1; [split; [done|lia]|].
  destruct (_ || _) eqn:E2 in |- *; [split; [done|lia]|].
  destruct (Z.leb_spec M64 (u64 (r_addend r) + slide)); [split; [done|lia]|].
  destruct (_ || _) eqn:E3 in |- *; [split; [done|lia]|].
  split; [|done]. intros _. split; [|by apply Hp]. lia.
Qed.

(** What the checking loop knows after [n] entries. *)
Definition checked (m : Memory) (base slide : Z) (b : ImageBounds) (n : nat) (c : Check_) : Prop :=
  0 <= accepted c /\ 0 <= rejected c /\
  match first_reject c with
  | Some _ => ~ table_ok m base slide b n /\ 0 < rejected c
  | None => table_ok m base slide b n /\ accepted c = Z.of_nat n /\
            prev_offset c = match n with O => None | S k => Some (r_offset (entry_at m base k)) end
  end.

Lemma table_ok_S m base slide b n :
  table_ok m base slide b (S n) <->
  table_ok m base slide b n /\ entry_ok slide b (entry_at m base n) /\
  match n with O => True | S k => r_offset (entry_at m base k) < r_offset (entry_at m base n) end.
Proof.
  split.
  - intros [H1 H2]. split_and!; [split|apply H1; lia|].
    + intros i Hi. apply H1. lia.
    + intros i j Hij. apply H2. lia.
    + destruct n; [done|]. apply H2. lia.
  - intros ([H1 H2] & Hn & Hk). split.
    + intros i Hi. destruct (decide (i = n)) as [->|]; [done|]. apply H1. lia.
    + intros i j Hij. destruct (decide (j = n)) as [->|]; [|apply H2; lia].
      destruct n as [|k]; [lia|]. destruct (decide (i = k)) as [->|]; [done|].
      specialize (H2 i k ltac:(lia)). lia.
Qed.

Lemma check_table_spec m base slide b n :
  img_end b < M64 -> checked m base slide b n (check_table m base slide b n).
Proof.
  intros Hb. unfold check_table. induction n as [|n (Ha & Hr & IH)].
  { unfold checked; simpl. split_and!; try lia; [|done]. split; intros; lia. }
  rewrite seq_S, foldl_app. cbn [foldl Nat.add]. set (c := foldl _ _ _) in *. unfold check_step, checked.
  pose proof (reject_entry_None (entry_at m base n) slide b (prev_offset c) Hb) as He.
  destruct (reject_entry _ _ _ _) as [reason|]; simpl; (split; [lia|]; split; [lia|]).
  - assert (Hnot : first_reject c = None -> ~ (entry_ok slide b (entry_at m base n) /\
              match n with O => True | S k => r_offset (entry_at m base k) < r_offset (entry_at m base n) end)).
    { intros E. rewrite E in IH. destruct IH as (_ & _ & Hp). rewrite Hp in He. destruct n; intros H; apply He in H; done. }
    destruct (first_reject c) eqn:E; rewrite table_ok_S.
    + split; [tauto|lia].
    + specialize (Hnot eq_refl). split; [tauto|lia].
  - assert (H' : entry_ok slide b (entry_at m base n) /\ match prev_offset c with Some p => p < r_offset (entry_at m base n) | None => True end)
      by tauto.
    destruct (first_reject c) eqn:E; rewrite table_ok_S; [tauto|]. destruct IH as (Ht & Hn & Hp). rewrite Hp in H'.
    split; [|split; [lia|done]]. destruct n; tauto.
Qed.

(** ** Writing *)

(** The linker's layout: the table is made of aligned words, below the top of
    the address space and outside the sections that are relocated. *)
Definition layout_ok (sy : Symbols) : Prop :=
  rela_start sy mod 8 = 0 /\ 0 <= rela_start sy /\ rela_end sy < M64 /\ img_end (bounds sy) < M64 /\
  forall a, rela_start sy <= a < rela_end sy -> ~ (writable_start (bounds sy) <= a < writable_end (bounds sy)).

Definition relocated (slide : Z) (r : Elf64Rela) : Z := u64 (r_addend r) + slide.

Lemma entry_at_outside sy (m m' : Memory) i count :
  layout_ok sy -> rela_start sy + 24 * Z.of_nat count <= rela_end sy -> (i < count)%nat ->
  (forall a, ~ (writable_start (bounds sy) <= a < writable_end (bounds sy)) -> m' a = m a) ->
  entry_at m' (rela_start sy) i = entry_at m (rela_start sy) i.
Proof.
  intros (_ & H0 & H1 & _ & Hd) Hc Hi Hm. unfold entry_at, SIZE_OF_RELA, u64. cbv zeta.
  assert (Hin : forall k, 0 <= k < 24 -> (rela_start sy + Z.of_nat i * 24 + k) mod M64 = rela_start sy + Z.of_nat i * 24 + k).
  { intros k Hk. apply Z.mod_small. lia. }
  pose proof (Hin 0 ltac:(lia)) as E0. rewrite Z.add_0_r in E0. rewrite E0, !Hin by lia.
  rewrite !Hm; [done|..]; apply Hd; lia.
Qed.

Lemma write_pass_spec sy m0 slide count n i m :
  layout_ok sy -> rela_start sy + 24 * Z.of_nat count <= rela_end sy ->
  table_ok m0 (rela_start sy) slide (bounds sy) count -> 0 <= slide -> (i <= count)%nat ->
  (forall a, ~ (writable_start (bounds sy) <= a < writable_end (bounds sy)) -> m a = m0 a) ->
  exists m', apply_relocations_write_pass m (rela_start sy) i slide n = (n + Z.of_nat i, m') /\
    (forall j, (j < i)%nat -> m' (r_offset (entry_at m0 (rela_start sy) j)) = relocated slide (entry_at m0 (rela_start sy) j)) /\
    (forall a, (forall j, (j < i)%nat -> r_offset (entry_at m0 (rela_start sy) j) <> a) -> m' a = m a).
Proof.
  intros HL Hc [Hok Hinc] Hs. revert n m. induction i as [|i IH]; intros n m Hi Hm.
  { exists m. split_and!; [simpl; f_equal; lia|intros; lia|done]. }
  cbn [apply_relocations_write_pass]. cbv zeta. rewrite (entry_at_outside sy m0 m i count) by (done || lia).
  destruct (Hok i ltac:(lia)) as (Hty & _ & _ & _ & Hw & Had & Hov). set (e := entry_at m0 (rela_start sy) i) in *.
  unfold get_type in Hty. rewrite Hty. cbn [Z.eqb negb R_X86_64_RELATIVE].
  assert (Hv : u64 (u64 (r_addend e) + slide) = relocated slide e).
  { apply u64_small. pose proof (u64_range (r_addend e)). unfold is_u64, relocated in *. lia. }
  rewrite Hv. destruct (IH (n + 1) (<[r_offset e := relocated slide e]> m) ltac:(lia)) as (m' & E & H1 & H2).
  { intros a Ha. rewrite fn_lookup_insert_ne; [by apply Hm|]. intros <-. tauto. }
  assert (Hi' : m' (r_offset e) = relocated slide e).
  { rewrite H2; [by rewrite fn_lookup_insert|]. intros j Hj. specialize (Hinc j i ltac:(lia)). unfold e. lia. }
  exists m'. split_and!; [rewrite E; f_equal; lia| |].
  - intros j Hj. destruct (decide (j = i)) as [->|]; [exact Hi'|]. apply H1. lia.
  - intros a Ha. rewrite H2 by (intros j Hj; apply Ha; lia). rewrite fn_lookup_insert_ne; [done|]. apply Ha. lia.
Qed.

(** The table of the image. *)
Definition relocatable (sy : Symbols) (slide : Z) (m : Memory) (count : nat) : Prop :=
  (0 < count)%nat /\ rela_end sy - rela_start sy = 24 * Z.of_nat count /\
  table_ok m (rela_start sy) slide (bounds sy) count.

(** Every word the table names is relocated, and nothing else changes. *)
Definition slid (sy : Symbols) (slide : Z) (m m' : Memory) (count : nat) : Prop :=
  (forall i, (i < count)%nat ->
     m' (r_offset (entry_at m (rela_start sy) i)) = relocated slide (entry_at m (rela_start sy) i)) /\
  (forall a, (forall i, (i < count)%nat -> r_offset (entry_at m (rela_start sy) i) <> a) -> m' a = m a).

Lemma table_shape_spec n :
  0 <= n ->
  match table_shape n with
  | Empty => n = 0
  | Malformed _ => n mod 24 <> 0
  | Entries count => (0 < count)%nat /\ n = 24 * Z.of_nat count
  end.
Proof.
  intros Hn. unfold table_shape, SIZE_OF_RELA. destruct (Z.eqb_spec n 0); [done|].
  destruct (Z.eqb_spec (n mod 24) 0); cbn [negb]; [|done]. lia.
Qed.

Lemma apply_spec sy slide d m :
  layout_ok sy -> 0 <= slide ->
  exists o d' m', apply_kaslr_relocations sy slide d m = (o, d', m') /\
  ((succeeded o = true /\ d = false /\ d' = true /\ exists count, relocatable sy slide m count /\ slid sy slide m m' count) \/
   (succeeded o = false /\ d' = d /\ m' = m /\ (d = true \/ forall count, ~ relocatable sy slide m count))).
Proof.
  intros HL Hs. unfold apply_kaslr_relocations. destruct d; [by do 3 eexists; split; [done|]; right; auto|].
  pose proof (table_shape_spec (Z.max 0 (rela_end sy - rela_start sy)) ltac:(lia)) as Hsh.
  assert (Hno : forall o, succeeded o = false -> (forall count, ~ relocatable sy slide m count) ->
    exists o' d' m', (o, false, m) = (o', d', m') /\
    ((succeeded o' = true /\ false = false /\ d' = true /\ exists count, relocatable sy slide m count /\ slid sy slide m m' count) \/
     (succeeded o' = false /\ d' = false /\ m' = m /\ (false = true \/ forall count, ~ relocatable sy slide m count)))).
  { intros o Ho Hn. do 3 eexists. split; [done|]. right. auto. }
  destruct (table_shape _) as [|by_|count].
  - apply Hno; [done|]. intros count (Hc & He & _). lia.
  - apply Hno; [done|]. intros count (Hc & He & _). lia.
  - pose proof (check_table_spec m (rela_start sy) slide (bounds sy) count ltac:(apply HL)) as (_ & _ & Hc).
    set (c := check_table _ _ _ _ _) in *. destruct (first_reject c).
    + destruct Hc as [Hn Hr]. apply Hno.
      * unfold succeeded; simpl. done.
      * intros count' (_ & He & Ht). assert (count' = count) as -> by lia. done.
    + destruct Hc as (Ht & Ha & _). destruct Hsh as [Hpos Hlen].
      destruct (write_pass_spec sy m slide count 0 count m HL ltac:(lia) Ht Hs ltac:(lia) ltac:(done)) as (m' & E & H1 & H2).
      rewrite E. do 3 eexists. split; [done|]. left. split_and!; [|done|done|exists count; split; [split_and!; [lia|lia|done]|done]].
      unfold succeeded; simpl. rewrite Ha. lia.
Qed.

(** ** Mapping *)

Section mapping.
Context (set_frame : Z -> Z -> option (Z * Z)).

(** The kernel's entries: for a page of 1 GiB what [set_frame] makes of its
    parts. *)
Definition old_entry (k : KernelPdpte) (i : nat) : Entry :=
  match k with Huge phys => huge_entry set_frame phys i | Directory pd => default None (pd !! i) | NotPresent => None end.

(** The first [n] pages are where they were and [shift] entries higher. *)
Definition mapped (old : nat -> Entry) (shift n : nat) (pd : PageTable) : Prop :=
  length pd = 512%nat /\
  forall j, (j < 512)%nat ->
    pd !! j = Some (if decide (j < n)%nat then old j
                    else if decide (shift <= j < shift + n)%nat then old (j - shift)%nat else None).

Definition place (e : Entry) (shift i : nat) (pd : PageTable) : PageTable := <[i := e]> (<[(shift + i)%nat := e]> pd).

Lemma mapped_nil old shift : mapped old shift 0 (replicate 512 None).
Proof.
  split; [by rewrite length_replicate|]. intros j Hj. rewrite lookup_replicate_2 by done.
  rewrite decide_False by lia. by rewrite decide_False by lia.
Qed.

Lemma lookup_place e shift i pd j :
  length pd = 512%nat -> (i < 512)%nat -> (shift + i < 512)%nat ->
  place e shift i pd !! j = if decide (j = i \/ j = shift + i)%nat then Some e else pd !! j.
Proof.
  intros Hl Hi Hs. unfold place. destruct (decide (j = i)) as [->|].
  { rewrite decide_True by lia. apply list_lookup_insert_eq. rewrite length_insert. lia. }
  rewrite list_lookup_insert_ne by done. destruct (decide (j = shift + i)%nat) as [->|].
  { rewrite decide_True by lia. apply list_lookup_insert_eq. lia. }
  rewrite decide_False by lia. by rewrite list_lookup_insert_ne.
Qed.

Lemma length_place e shift i pd : length (place e shift i pd) = length pd.
Proof. unfold place. by rewrite !length_insert. Qed.

(** Placing the next page, or an earlier one again. *)
Lemma mapped_place old shift n i pd :
  mapped old shift n pd -> (i <= n)%nat -> (i < shift)%nat -> (n <= shift)%nat -> (shift + i < 512)%nat ->
  mapped old shift (if decide (i = n) then S n else n) (place (old i) shift i pd).
Proof.
  intros [Hl Hm] Hin His Hns Hb. split; [by rewrite length_place|]. intros j Hj. rewrite lookup_place by lia.
  case_decide as Hd.
  - destruct Hd as [->| ->].
    + rewrite decide_True by (case_decide; lia). done.
    + rewrite decide_False by (case_decide; lia). rewrite decide_True by (case_decide; lia).
      by replace (shift + i - shift)%nat with i by lia.
  - rewrite Hm by done. f_equal. repeat case_decide; subst; try lia; done.
Qed.

(** A page that was not mapped is not placed. *)
Lemma mapped_skip old shift n pd : mapped old shift n pd -> old n = None -> (n < shift)%nat -> mapped old shift (S n) pd.
Proof.
  intros [Hl Hm] Hn Hns. split; [done|]. intros j Hj. rewrite Hm by done. f_equal.
  destruct (decide (j = n)) as [->|]; [repeat case_decide; try lia; done|].
  destruct (decide (j = shift + n)%nat) as [->|].
  { replace (shift + n - shift)%nat with n by lia. repeat case_decide; try lia; done. }
  repeat case_decide; try lia; done.
Qed.

Lemma base_index : kernel_base_pd_index = 0%nat.
Proof. reflexivity. Qed.

Lemma dest_small shift i : (shift + i < 512)%nat -> pd_destination_index shift i = (shift + i)%nat.
Proof. intros H. unfold pd_destination_index. rewrite base_index. by apply Nat.mod_small. Qed.

Lemma src_small i : (i < 512)%nat -> ((kernel_base_pd_index + i) mod 512)%nat = i.
Proof. intros H. rewrite base_index. by apply Nat.mod_small. Qed.

Lemma no_conflict shift pages :
  pd_shift_conflicts shift pages = false <-> (pages <= shift)%nat /\ (shift + pages <= 512)%nat.
Proof. unfold pd_shift_conflicts, pd_shift_aliases. rewrite base_index. rewrite orb_false_iff, !Nat.ltb_ge. lia. Qed.

Lemma copy_mapped pd0 shift n :
  length pd0 = 512%nat -> (n <= shift)%nat -> (shift + n <= 512)%nat ->
  mapped (old_entry (Directory pd0)) shift n (foldl (copy_step pd0 shift) (replicate 512 None) (seq 0 n)).
Proof.
  intros Hl. induction n as [|n IH]; intros H1 H2; [apply mapped_nil|].
  rewrite seq_S, foldl_app. cbn [foldl Nat.add]. specialize (IH ltac:(lia) ltac:(lia)). set (pd := foldl _ _ _) in *.
  unfold copy_step. cbv zeta. rewrite src_small, dest_small by lia.
  destruct (lookup_lt_is_Some_2 pd0 n) as [e He]; [lia|].
  assert (Ho : old_entry (Directory pd0) n = e) by (simpl; by rewrite He). rewrite He.
  destruct e as [e|]; [|apply mapped_skip; [done|done|lia]].
  pose proof (mapped_place _ shift n n pd IH ltac:(lia) ltac:(lia) ltac:(lia) ltac:(lia)) as H.
  rewrite decide_True in H by done. rewrite Ho in H. exact H.
Qed.

Lemma fill_huge_app phys shift l1 l2 pd :
  fill_huge set_frame phys shift (l1 ++ l2) pd = pd' ← fill_huge set_frame phys shift l1 pd; fill_huge set_frame phys shift l2 pd'.
Proof. revert pd. induction l1 as [|i l1 IH]; intros pd; [done|]. cbn [app fill_huge]. destruct (huge_entry set_frame phys i); [apply IH|done]. Qed.

Lemma fill_mapped phys shift n :
  (n <= shift)%nat -> (shift + n <= 512)%nat -> forall pd,
  fill_huge set_frame phys shift (seq 0 n) (replicate 512 None) = Some pd -> mapped (old_entry (Huge phys)) shift n pd.
Proof.
  induction n as [|n IH]; intros H1 H2 pd; [intros [= <-]; apply mapped_nil|].
  rewrite seq_S, fill_huge_app. destruct (fill_huge set_frame phys shift (seq 0 n) _) as [pd1|]; [|done].
  specialize (IH ltac:(lia) ltac:(lia) _ eq_refl). cbn [mbind option_bind fill_huge Nat.add].
  destruct (huge_entry set_frame phys n) as [e|] eqn:He; [|done]. cbn [mbind option_bind].
  rewrite dest_small, src_small by lia. intros [= <-].
  pose proof (mapped_place _ shift n n pd1 IH ltac:(lia) ltac:(lia) ltac:(lia) ltac:(lia)) as H.
  rewrite decide_True in H by done. simpl in H. rewrite He in H. exact H.
Qed.

(** The page of the trampoline, one of the kernel's. *)
Lemma trampoline_mapped k shift pages tv pd pd' :
  (pages <= shift)%nat -> (shift + pages <= 512)%nat ->
  0 <= tv - LINK_BASE < Z.of_nat pages * MAP_PAGE ->
  match k with Directory pd0 => length pd0 = 512%nat | _ => True end ->
  mapped (old_entry k) shift pages pd -> map_trampoline set_frame k shift tv pd = Some pd' -> mapped (old_entry k) shift pages pd'.
Proof.
  intros H1 H2 Ht Hk Hm E. unfold map_trampoline in E. cbv zeta in E.
  set (i := Z.to_nat ((tv - LINK_BASE) / MAP_PAGE)).
  assert (Hi : (i < pages)%nat) by (unfold i, MAP_PAGE in *; lia).
  assert (Hrel : Z.to_nat (Z.land (Z.shiftr (tv - LINK_BASE) 21) 0x1FF) = i).
  { change 0x1FF with (Z.ones 9). rewrite Z.land_ones, Z.shiftr_div_pow2 by lia. change (2 ^ 21) with MAP_PAGE.
    change (2 ^ 9) with 512. unfold i. rewrite Z.mod_small; [done|]. unfold MAP_PAGE in *. lia. }
  assert (Hold : forall e, trampoline_entry set_frame k tv = Some e -> e = old_entry k i).
  { intros e. unfold trampoline_entry. destruct k as [phys|pd0|]; cbn [old_entry].
    - fold i. destruct (huge_entry set_frame phys i); [|done]. by intros [= <-].
    - cbv zeta. rewrite Hrel, src_small by lia. by intros ->.
    - done. }
  rewrite Hrel, src_small, dest_small in E by lia.
  destruct (trampoline_entry set_frame k tv) as [e|]; [|done]. specialize (Hold e eq_refl). injection E as <-.
  destruct e as [e|]; [|done]. pose proof (mapped_place _ shift pages i pd Hm ltac:(lia) ltac:(lia) H1 ltac:(lia)) as H.
  rewrite decide_False, <- Hold in H by lia. unfold place in H. by rewrite list_insert_insert_ne in H by lia.
Qed.

End mapping.

(** ** Activation *)

(** The index of a page directory that translates an address. *)
Definition pd_index (v : Z) : nat := Z.to_nat (Z.land (Z.shiftr v 21) 0x1FF).

Lemma pd_index_link x : 0 <= x < 2 ^ 30 -> pd_index (LINK_BASE + x) = Z.to_nat (x / MAP_PAGE).
Proof.
  intros Hx. unfold pd_index. change 0x1FF with (Z.ones 9). rewrite Z.land_ones, Z.shiftr_div_pow2 by lia.
  f_equal. unfold LINK_BASE, MAP_PAGE. change (2 ^ 21) with 2097152. change (2 ^ 9) with 512. lia.
Qed.

Lemma mapped_translates old shift pages pd x slide :
  mapped old shift pages pd -> (pages <= shift)%nat -> (shift + pages <= 512)%nat ->
  slide = Z.of_nat shift * MAP_PAGE -> 0 <= x < Z.of_nat pages * MAP_PAGE ->
  pd !! pd_index (LINK_BASE + x) = Some (old (pd_index (LINK_BASE + x))) /\
  pd !! pd_index (LINK_BASE + x + slide) = Some (old (pd_index (LINK_BASE + x))).
Proof.
  intros [_ Hm] H1 H2 Hs Hx. rewrite <- Z.add_assoc.
  rewrite !pd_index_link by (change (2 ^ 30) with (512 * MAP_PAGE); unfold MAP_PAGE in *; lia).
  set (i := Z.to_nat (x / MAP_PAGE)). assert (Hi : (i < pages)%nat) by (unfold i, MAP_PAGE in *; lia).
  assert (E : Z.to_nat ((x + slide) / MAP_PAGE) = (shift + i)%nat) by (subst slide; unfold i, MAP_PAGE in *; lia).
  rewrite E. split; rewrite Hm by lia.
  - by rewrite decide_True by lia.
  - rewrite decide_False, decide_True by lia. by replace (shift + i - shift)%nat with i by lia.
Qed.

(** The slides that [init_kaslr] chooses. *)
Definition good_slide (slide : Z) : Prop := slide = 0 \/ exists n, 0 <= n < 256 /\ slide = (2 * n + 1) * MAP_PAGE.

(** The slide takes eight bits of the counter. *)
Lemma init_slide tsc :
  Z.lor (Z.land tsc 0x3FE00000) 0x200000 = (2 * Z.land (Z.shiftr tsc 22) (Z.ones 8) + 1) * MAP_PAGE.
Proof.
  set (n := Z.land (Z.shiftr tsc 22) (Z.ones 8)).
  replace ((2 * n + 1) * MAP_PAGE) with (0x200000 + n * 2 ^ 22) by (unfold MAP_PAGE; lia).
  rewrite <- Z.shiftl_mul_pow2 by lia.
  assert (Hl : Z.land 0x200000 (Z.shiftl n 22) = 0).
  { apply Z.bits_inj'. intros i Hi. rewrite Z.land_spec, Z.shiftl_spec, Z.testbit_0_l by done.
    destruct (Z.lt_ge_cases i 22); [by rewrite (Z.testbit_neg_r _ (i - 22)), andb_false_r by lia|].
    by rewrite Z.bits_above_log2 by (cbn; lia). }
  rewrite Z.add_nocarry_lxor, Z.lxor_lor by exact Hl.
  apply Z.bits_inj'. intros i Hi. rewrite !Z.lor_spec, Z.land_spec, Z.shiftl_spec by done.
  change 0x3FE00000 with (Z.shiftl (Z.ones 9) 21). change 0x200000 with (Z.shiftl 1 21). rewrite !Z.shiftl_spec by done.
  unfold n. destruct (decide (i = 21)) as [->|]; [cbn; by rewrite orb_true_r|].
  assert (H1 : Z.testbit 1 (i - 21) = false).
  { destruct (Z.lt_ge_cases i 21); [by apply Z.testbit_neg_r; lia|]. apply Z.bits_above_log2; [lia|cbn; lia]. }
  rewrite H1, orb_false_l, orb_false_r. destruct (Z.lt_ge_cases i 22).
  { rewrite (Z.testbit_neg_r _ (i - 22)), (Z.testbit_neg_r _ (i - 21)) by lia. by rewrite andb_false_r. }
  rewrite Z.land_spec, Z.shiftr_spec by lia. replace (i - 22 + 22) with i by lia. f_equal.
  destruct (Z.lt_ge_cases i 30); [by rewrite !Z.ones_spec_low by lia|by rewrite !Z.ones_spec_high by lia].
Qed.

(** Relocation is all or nothing. It succeeds exactly when it has not been
    done before and the table is a positive whole number of entries, all
    acceptable and in ascending order; then every word the table names holds
    its link-time address plus the slide, without overflow, and no other word
    changes. Otherwise no word changes, and it can be tried again exactly if
    it could before. *)
Theorem kaslr_all_or_nothing sy slide d m :
  layout_ok sy -> 0 <= slide ->
  let '(o, d', m') := apply_kaslr_relocations sy slide d m in
  (succeeded o = true <-> d = false /\ exists count, relocatable sy slide m count) /\
  (succeeded o = true -> d' = true /\ exists count, relocatable sy slide m count /\ slid sy slide m m' count) /\
  (succeeded o = false -> d' = d /\ m' = m).
Proof.
  intros HL Hs. destruct (apply_spec sy slide d m HL Hs) as (o & d' & m' & -> & [(Ho & Hd & Hd' & c & Hc & Hm)|(Ho & Hd & Hm & Hn)]).
  - rewrite Ho. split_and!; [|eauto|done]. split; [eauto|done].
  - rewrite Ho. split_and!; [|done|done]. split; [done|]. intros [-> [c Hc]]. destruct Hn as [?|Hn]; [done|]. by destruct (Hn c).
Qed.

Lemma link_tables (old : Tables) old_pdpt (q2 q3 : Z) :
  pdpt old = Some old_pdpt -> length (pml4 old) = 512%nat -> length old_pdpt = 512%nat ->
  let p3 := <[510%nat := Some (q3, PRESENT + WRITABLE)]> old_pdpt in
  let p4 := <[510%nat := default None (pml4 old !! 511%nat)]> (<[511%nat := Some (q2, PRESENT + WRITABLE)]> (pml4 old)) in
  p3 !! 510%nat = Some (Some (q3, PRESENT + WRITABLE)) /\
  p4 !! 511%nat = Some (Some (q2, PRESENT + WRITABLE)) /\
  p4 !! 510%nat = pml4 old !! 511%nat /\
  (forall j old_pdpt, pdpt old = Some old_pdpt -> j <> 510%nat -> p3 !! j = old_pdpt !! j) /\
  (forall j, j <> 510%nat -> j <> 511%nat -> p4 !! j = pml4 old !! j).
Proof.
  intros Hp H4 H3. cbv zeta. destruct (lookup_lt_is_Some_2 (pml4 old) 511) as [e He]; [lia|]. rewrite He.
  split_and!.
  - by rewrite list_lookup_insert_eq by lia.
  - rewrite list_lookup_insert_ne, list_lookup_insert_eq by lia. done.
  - by rewrite list_lookup_insert_eq by (rewrite length_insert; lia).
  - intros j t Ht Hj. rewrite Hp in Ht. injection Ht as <-. by rewrite list_lookup_insert_ne.
  - intros j Hj Hj'. by rewrite !list_lookup_insert_ne.
Qed.

Section activation.
Context (set_frame : Z -> Z -> option (Z * Z)).

(** Why activation panics: the allocator gave no frame, the kernel's tables are
    not there, its physical pages end above what an address can be, or
    [set_frame] refuses an entry for a page of 2 MiB. *)
Definition activation_panics (old : Tables) (pages : nat) (f1 f2 f3 : option Z) : Prop :=
  f1 = None \/ f2 = None \/ f3 = None \/ pdpt old = None \/ kernel_entry old = NotPresent \/
  exists phys, kernel_entry old = Huge phys /\
    (2 ^ 52 <= phys + Z.of_nat pages * MAP_PAGE \/ exists f, set_frame f huge_flags = None).

Lemma huge_entry_None phys i n : huge_entry set_frame phys i = None -> (i < n)%nat ->
  2 ^ 52 <= phys + Z.of_nat n * MAP_PAGE \/ exists f, set_frame f huge_flags = None.
Proof.
  unfold huge_entry. cbv zeta. destruct (Z.leb_spec (2 ^ 52) (phys + Z.of_nat i * MAP_PAGE)); [|by eauto].
  intros _ Hi. left. unfold MAP_PAGE in *. lia.
Qed.

Lemma fill_huge_None phys shift l pd n :
  fill_huge set_frame phys shift l pd = None -> Forall (fun i => (i < n)%nat) l ->
  2 ^ 52 <= phys + Z.of_nat n * MAP_PAGE \/ exists f, set_frame f huge_flags = None.
Proof.
  intros E Hl. revert pd E. induction Hl as [|i l Hi _ IH]; intros pd E; [done|]. cbn [fill_huge] in E.
  destruct (huge_entry set_frame phys i) eqn:Ei; [eauto|]. by eapply huge_entry_None.
Qed.

Lemma map_trampoline_None k shift tv pd pages :
  map_trampoline set_frame k shift tv pd = None -> 0 <= tv - LINK_BASE < Z.of_nat pages * MAP_PAGE ->
  match k with Directory pd0 => length pd0 = 512%nat | _ => True end ->
  k = NotPresent \/ exists phys, k = Huge phys /\
    (2 ^ 52 <= phys + Z.of_nat pages * MAP_PAGE \/ exists f, set_frame f huge_flags = None).
Proof.
  intros E Ht Hk. unfold map_trampoline, trampoline_entry in E. cbv zeta in E. destruct k as [phys|pd0|]; [| |by left].
  - right. exists phys. split; [done|]. destruct (huge_entry set_frame phys _) eqn:Ei; [done|]. eapply huge_entry_None; [exact Ei|].
    unfold MAP_PAGE in *. lia.
  - destruct (lookup_lt_is_Some_2 pd0 ((kernel_base_pd_index + Z.to_nat (Z.land (Z.shiftr (tv - LINK_BASE) 21) 0x1FF)) mod 512)%nat) as [e He].
    { rewrite Hk. apply Nat.mod_upper_bound. lia. }
    by rewrite He in E.
Qed.

(** The tables and symbols the boot loader leaves. *)
Definition boot_ok (sy : Symbols) (tv : Z) (old : Tables) (slide : Z) : Prop :=
  layout_ok sy /\ good_slide slide /\ length (pml4 old) = 512%nat /\
  (forall old_pdpt, pdpt old = Some old_pdpt -> length old_pdpt = 512%nat) /\
  match kernel_entry old with Directory pd0 => length pd0 = 512%nat | _ => True end /\
  0 <= tv - LINK_BASE < Z.of_nat (kernel_map_pages (kernel_span_bytes sy)) * MAP_PAGE.

(** The address space the kernel jumps into: every page of the image at its
    old address and at its old address plus the slide, the new tables linked,
    and the rest of the upper tables as before. *)
Definition new_space (sy : Symbols) (old : Tables) (slide : Z) (f2 f3 : option Z) (p4 p3 pd : PageTable) : Prop :=
  (forall x, 0 <= x < Z.of_nat (kernel_map_pages (kernel_span_bytes sy)) * MAP_PAGE ->
     pd !! pd_index (LINK_BASE + x) = Some (old_entry set_frame (kernel_entry old) (pd_index (LINK_BASE + x))) /\
     pd !! pd_index (LINK_BASE + x + slide) = Some (old_entry set_frame (kernel_entry old) (pd_index (LINK_BASE + x)))) /\
  p3 !! 510%nat = Some ((fun f => (f, PRESENT + WRITABLE)) <$> f3) /\
  p4 !! 511%nat = Some ((fun f => (f, PRESENT + WRITABLE)) <$> f2) /\
  p4 !! 510%nat = pml4 old !! 511%nat /\
  (forall j old_pdpt, pdpt old = Some old_pdpt -> j <> 510%nat -> p3 !! j = old_pdpt !! j) /\
  (forall j, j <> 510%nat -> j <> 511%nat -> p4 !! j = pml4 old !! j).

(** What the directory holds once it is built. *)
Lemma directory_built k shift pages tv pd0 pd1 pd :
  (pages <= shift)%nat -> (shift + pages <= 512)%nat -> 0 <= tv - LINK_BASE < Z.of_nat pages * MAP_PAGE ->
  match k with Directory pd0 => length pd0 = 512%nat | _ => True end ->
  fill_directory set_frame k shift pages = Some pd0 -> copy_directory k shift pages pd0 = Some pd1 ->
  map_trampoline set_frame k shift tv pd1 = Some pd -> mapped (old_entry set_frame k) shift pages pd.
Proof.
  intros H1 H2 Ht Hk Ef Ec. apply trampoline_mapped; [done..|].
  unfold fill_directory, copy_directory in *. destruct k; simplify_eq; [by apply fill_mapped|by apply copy_mapped].
Qed.
End activation.

(** What the x86_64 crate documents of [set_frame]: without the flag of huge
    pages the entry gets the frame and the flags. *)
Definition stores_frames (set_frame : Z -> Z -> option (Z * Z)) : Prop :=
  forall f flags, Z.land flags HUGE_PAGE = 0 -> set_frame f flags = Some (f, flags).

(** C24. Activating the mapping is safe for every relocation table and slide
    that [init_kaslr] can choose, once the linker has laid out the image (the
    table outside the words it names, everything below 2^64) and the boot loader
    has left tables of 512 entries with the trampoline inside the image. Writing
    a page table entry is a parameter: the x86_64 crate documents it without the
    flag of huge pages only. Activation panics only without a frame from the
    allocator, without the kernel's tables, at a physical address above 52 bits,
    or when [set_frame] refuses a huge page. It returns with no word changed, the
    slide 0 and the guard as it was. Or it jumps: the words are relocated by the
    slide, and the page directory maps every page of the image both at its old
    place and at the slid one. *)
Theorem kaslr_activation set_frame sy tv old f1 f2 f3 k :
  stores_frames set_frame -> boot_ok sy tv old (kernel_slide k) ->
  match activate_kaslr_mapping set_frame sy tv old f1 f2 f3 k with
  | Panics => activation_panics set_frame old (kernel_map_pages (kernel_span_bytes sy)) f1 f2 f3
  | Returns k' => kernel_slide k' = 0 /\ memory k' = memory k /\ kaslr_applied k' = kaslr_applied k
  | Jumps k' p4 p3 pd =>
      kernel_slide k' = kernel_slide k /\ kaslr_applied k = false /\ kaslr_applied k' = true /\
      (exists count, relocatable sy (kernel_slide k) (memory k) count /\
         slid sy (kernel_slide k) (memory k) (memory k') count) /\
      new_space set_frame sy old (kernel_slide k) f2 f3 p4 p3 pd
  end.
Proof.
  intros Hset (HL & Hg & H4 & H3 & Hk & Ht). unfold activate_kaslr_mapping. cbv zeta.
  set (pages := kernel_map_pages (kernel_span_bytes sy)) in *. set (slide := kernel_slide k) in *.
  destruct (Z.eqb_spec slide 0) as [E0|E0]; [done|].
  assert (Hs : slide = Z.of_nat (Z.to_nat (Z.shiftr slide 21)) * MAP_PAGE /\ 0 <= slide).
  { destruct Hg as [|(n & Hn & Hs)]; [done|]. rewrite Z.shiftr_div_pow2, Hs by lia. change (2 ^ 21) with MAP_PAGE. unfold MAP_PAGE. lia. }
  destruct Hs as [Hs Hs0]. set (shift := Z.to_nat (Z.shiftr slide 21)) in *. unfold activation_panics.
  destruct f1 as [q1|], f2 as [q2|], (pdpt old) as [old_pdpt|] eqn:Hp, f3 as [q3|]; try tauto.
  destruct (match kernel_entry old with Huge _ => _ | _ => false end); [done|].
  destruct (fill_directory set_frame (kernel_entry old) shift pages) as [pd0|] eqn:Ef.
  2: { unfold fill_directory in Ef. destruct (kernel_entry old) as [phys| |]; [|done..].
       do 5 right. exists phys. split; [done|]. eapply fill_huge_None; [exact Ef|]. apply Forall_seq. lia. }
  destruct (pd_shift_conflicts shift pages) eqn:Ec; [done|]. apply no_conflict in Ec as [Hc1 Hc2].
  destruct (copy_directory (kernel_entry old) shift pages pd0) as [pd1|] eqn:Ecp.
  2: { unfold copy_directory in Ecp. destruct (kernel_entry old); try done. do 4 right. by left. }
  cbn [mbind option_bind]. destruct (map_trampoline set_frame _ _ _ _) as [pd|] eqn:Et.
  2: { destruct (map_trampoline_None _ _ _ _ _ _ Et Ht Hk) as [Hn|Hh]; [do 4 right; by left|]. by do 5 right. }
  cbn [mbind option_bind]. rewrite !Hset by done. cbn [mbind option_bind].
  pose proof (directory_built set_frame _ _ _ _ _ _ _ Hc1 Hc2 Ht Hk Ef Ecp Et) as Hm.
  destruct (apply_spec sy slide (kaslr_applied k) (memory k) HL Hs0) as (o & d' & m' & -> & [(-> & Hd & -> & Hr)|(-> & -> & -> & _)]); [|done].
  split_and!; [done..|]. split; [|exact (link_tables old old_pdpt q2 q3 Hp H4 (H3 old_pdpt eq_refl))].
  intros x Hx. by apply (mapped_translates _ shift pages).
Qed.

(** The slide is bounded: from every value of the time stamp counter
    [init_kaslr] chooses an odd multiple of 2 MiB below 1 GiB, and each of
    these 256 places can be chosen. *)
Theorem kaslr_slide_bounds k :
  kaslr_applied k = false ->
  (forall tsc, exists n, 0 <= n < 256 /\ kernel_slide (init_kaslr tsc k) = (2 * n + 1) * MAP_PAGE) /\
  (forall n, 0 <= n < 256 -> exists tsc, 0 <= tsc < M64 /\ kernel_slide (init_kaslr tsc k) = (2 * n + 1) * MAP_PAGE).
Proof.
  intros Hk. unfold init_kaslr. rewrite Hk. cbn [kernel_slide]. split.
  - intros tsc. eexists. split; [|apply init_slide]. rewrite Z.land_ones by lia. apply (Z.mod_pos_bound _ (2 ^ 8)). lia.
  - intros n Hn. exists (n * 2 ^ 22). split; [lia|]. rewrite init_slide, Z.shiftr_div_pow2, Z.div_mul, Z.land_ones by lia.
    by rewrite Z.mod_small by lia.
Qed.

(** ** An image *)

(** One entry, at [0x1000]: the word at [0x2000] is to hold [0x1500] plus the
    slide. *)
Definition image_memory : Memory := <[0x1000 := 0x2000]> (<[0x1008 := 8]> (<[0x1010 := 0x1500]> (fun _ => 0))).
Definition image_symbols : Symbols := mkSymbols 0x1000 0x1018 (mkBounds 0x1000 0x4000 0x2000 0x3000).
Definition image_tables : Tables :=
  mkTables (replicate 512 None) (Some (replicate 512 None)) (Directory (<[0%nat := Some (0x100000, huge_flags)]> (replicate 512 None))).

(** [set_frame] that refuses huge pages. *)
Definition no_huge_frames (f flags : Z) : option (Z * Z) :=
  if Z.land flags HUGE_PAGE =? 0 then Some (f, flags) else None.

Lemma no_huge_frames_stores : stores_frames no_huge_frames.
Proof. intros f flags Hf. unfold no_huge_frames. by rewrite Hf. Qed.

Lemma image_layout : layout_ok image_symbols.
Proof. unfold layout_ok. cbn. split_and!; lia. Qed.

Lemma kaslr_all_or_nothing_witness :
  let '(o, d', m') := apply_kaslr_relocations image_symbols 0x600000 false image_memory in
  succeeded o = true /\ d' = true /\ m' 0x2000 = 0x601500 /\
  exists count, relocatable image_symbols 0x600000 image_memory count /\ slid image_symbols 0x600000 image_memory m' count.
Proof.
  pose proof (kaslr_all_or_nothing image_symbols 0x600000 false image_memory image_layout ltac:(lia)) as H.
  assert (Ho : succeeded (apply_kaslr_relocations image_symbols 0x600000 false image_memory).1.1 = true) by (vm_compute; reflexivity).
  assert (Hm : (apply_kaslr_relocations image_symbols 0x600000 false image_memory).2 0x2000 = 0x601500) by (vm_compute; reflexivity).
  destruct (apply_kaslr_relocations image_symbols 0x600000 false image_memory) as [[o d'] m']. cbn [fst snd] in Ho, Hm.
  destruct H as (_ & H & _). destruct (H Ho) as [Hd He]. auto.
Defined.

Lemma kaslr_activation_witness :
  match activate_kaslr_mapping no_huge_frames image_symbols (LINK_BASE + 0x100) image_tables (Some 0x5000) (Some 0x6000) (Some 0x7000)
          (mkKaslr 0x600000 false image_memory) with
  | Jumps k' p4 p3 pd =>
      kernel_slide k' = 0x600000 /\
      new_space no_huge_frames image_symbols image_tables 0x600000 (Some 0x6000) (Some 0x7000) p4 p3 pd
  | _ => False
  end.
Proof.
  pose proof (kaslr_activation no_huge_frames image_symbols (LINK_BASE + 0x100) image_tables (Some 0x5000) (Some 0x6000) (Some 0x7000)
                (mkKaslr 0x600000 false image_memory) no_huge_frames_stores) as H.
  assert (Hj : match activate_kaslr_mapping no_huge_frames image_symbols (LINK_BASE + 0x100) image_tables (Some 0x5000) (Some 0x6000) (Some 0x7000)
                 (mkKaslr 0x600000 false image_memory) with Jumps _ _ _ _ => true | _ => false end = true) by (vm_compute; reflexivity).
  destruct (activate_kaslr_mapping _ _ _ _ _ _ _ _); [discriminate Hj..|]. destruct H as (H1 & _ & _ & _ & H2); [|auto].
  split_and!; [exact image_layout|right; exists 1; split; [lia|reflexivity]|reflexivity| |reflexivity| |reflexivity].
  - intros p Hp. injection Hp as <-. reflexivity.
  - vm_compute. discriminate.
Defined.

(** When [set_frame] refuses huge pages, a kernel that the boot loader has mapped
    with a page of 1 GiB panics at the first entry. *)
Example huge_mapping_panics :
  activate_kaslr_mapping no_huge_frames image_symbols (LINK_BASE + 0x100)
    (mkTables (replicate 512 None) (Some (replicate 512 None)) (Huge 0x100000))
    (Some 0x5000) (Some 0x6000) (Some 0x7000) (mkKaslr 0x600000 false image_memory) = Panics.
Proof. vm_compute. reflexivity. Qed.

Lemma kaslr_slide_bounds_witness :
  exists tsc, 0 <= tsc < M64 /\ kernel_slide (init_kaslr tsc (mkKaslr 0 false image_memory)) = 511 * MAP_PAGE.
Proof.
  destruct (kaslr_slide_bounds (mkKaslr 0 false image_memory) eq_refl) as [_ H].
  destruct (H 255 ltac:(lia)) as (tsc & Ht & E). exists tsc. split; [exact Ht|]. rewrite E. reflexivity.
Defined.

(** Without the linker's layout the write pass is not safe: the second entry
    of this table names the first one's offset. Both are accepted, and the
    first is then applied at an address that was never checked. *)
Example write_pass_inside_table :
  let m : Memory := <[0x1000 := 0xFF8]> (<[0x1008 := 8]> (<[0x1010 := 0x1500]>
                    (<[0x1018 := 0x1000]> (<[0x1020 := 8]> (<[0x1028 := 0x1600]> (fun _ => 0)))))) in
  let sy := mkSymbols 0x1000 0x1030 (mkBounds 0xF00 0x4000 0xF00 0x3000) in
  let '(o, _, m') := apply_kaslr_relocations sy 0x200000 false m in
  succeeded o = true /\ m' 0xFF8 = 0 /\ m' 0x201600 = 0x201500 /\ img_end (bounds sy) < 0x201600.
Proof. vm_compute. auto. Qed.
