(* ===== verification/Reno.v ===== *)
(** * TCP congestion control

    Model of [crates/net/src/tcp_congestion.rs], the table of congestion states
    that the socket calls consult, of the sending path of
    [kernel/src/syscalls/net_helpers.rs] that consults it, and of
    [crates/net/src/congestion.rs], a second Reno state that nothing uses.
    Sums and products wrap at their width except where the code saturates; a
    division by zero is a panic, [None]. *)

From stdpp Require Import gmap.
From S2P Require Import Prelude.

Definition DEFAULT_MSS : Z := 1460.
Definition INITIAL_CWND_SEGMENTS : Z := 10.
Definition MAX_CWND_BYTES : Z := 10000 * DEFAULT_MSS.
Definition DUP_ACK_THRESHOLD : Z := 3.
Definition ALPHA : Z := 8.
Definition BETA : Z := 4.
Definition INITIAL_RTO_MS : Z := 1000.

Definition saturating_add32 (a b : Z) : Z := Z.min (M32 - 1) (a + b).
Definition saturating_add64 (a b : Z) : Z := Z.min (M64 - 1) (a + b).
Definition saturating_mul64 (a b : Z) : Z := Z.min (M64 - 1) (a * b).
Definition saturating_sub (a b : Z) : Z := Z.max 0 (a - b).

Record TcpCongestionState := mkConn {
  cwnd : Z; ssthresh : Z; mss : Z;
  srtt_us : Z; rttvar_us : Z; rto_ms : Z; rtt_sample_pending : bool;
  dup_ack_count : Z; bytes_in_flight : Z; in_recovery : bool; rto_count : Z }.

(** [TcpCongestionState::new] *)
Definition new_conn (m : Z) : TcpCongestionState :=
  mkConn (u32 (m * INITIAL_CWND_SEGMENTS)) (M32 - 1) m 0 0 INITIAL_RTO_MS false 0 0 false 0.

(** [TcpCongestionState::send_budget] *)
Definition conn_budget (s : TcpCongestionState) : Z := saturating_sub (cwnd s) (bytes_in_flight s).

Definition set_window (c t : Z) (s : TcpCongestionState) : TcpCongestionState :=
  mkConn c t (mss s) (srtt_us s) (rttvar_us s) (rto_ms s) (rtt_sample_pending s)
    (dup_ack_count s) (bytes_in_flight s) (in_recovery s) (rto_count s).
Definition set_rtt (srtt var rto : Z) (pending : bool) (n : Z) (s : TcpCongestionState) : TcpCongestionState :=
  mkConn (cwnd s) (ssthresh s) (mss s) srtt var rto pending
    (dup_ack_count s) (bytes_in_flight s) (in_recovery s) n.
Definition set_loss (dups flight : Z) (rec : bool) (s : TcpCongestionState) : TcpCongestionState :=
  mkConn (cwnd s) (ssthresh s) (mss s) (srtt_us s) (rttvar_us s) (rto_ms s) (rtt_sample_pending s)
    dups flight rec (rto_count s).

(** [update_rtt] *)
Definition update_rtt (s : TcpCongestionState) (rtt_ms : Z) : TcpCongestionState :=
  let rtt_us := saturating_mul64 (Z.min rtt_ms 30000) 1000 in
  let '(srtt, var) :=
    if srtt_us s =? 0 then (rtt_us, rtt_us / 2)
    else
      let diff := if srtt_us s <? rtt_us then rtt_us - srtt_us s else srtt_us s - rtt_us in
      (u64 (u64 ((ALPHA - 1) * srtt_us s) + rtt_us) / ALPHA, u64 (u64 ((BETA - 1) * rttvar_us s) + diff) / BETA) in
  let rto_us := saturating_add64 srtt (u64 (4 * var)) in
  set_rtt srtt var (Z.min (Z.max (rto_us / 1000) 200) 60000) (rtt_sample_pending s) 0 s.

(** The body of [on_send]. *)
Definition conn_send (s : TcpCongestionState) (n : Z) : TcpCongestionState :=
  set_rtt (srtt_us s) (rttvar_us s) (rto_ms s) true (rto_count s)
    (set_loss (dup_ack_count s) (saturating_add32 (bytes_in_flight s) n) (in_recovery s) s).

(** The body of [on_ack]. *)
Definition conn_ack (s : TcpCongestionState) (bytes_acked : Z) (rtt_sample_ms : option Z) : option TcpCongestionState :=
  let s := match rtt_sample_ms with
           | Some r => let s := update_rtt s r in set_rtt (srtt_us s) (rttvar_us s) (rto_ms s) false (rto_count s) s
           | None => s
           end in
  let s := set_loss 0 (saturating_sub (bytes_in_flight s) bytes_acked) (in_recovery s) s in
  if in_recovery s then
    if bytes_in_flight s <=? ssthresh s
    then Some (set_window (ssthresh s) (ssthresh s) (set_loss 0 (bytes_in_flight s) false s))
    else Some (set_window (saturating_add32 (cwnd s) (mss s)) (ssthresh s) s)
  else if cwnd s <? ssthresh s then
    Some (set_window (Z.min (u32 (cwnd s + mss s)) MAX_CWND_BYTES) (ssthresh s) s)
  else if cwnd s =? 0 then None
  else
    let inc := u32 (mss s * mss s) / cwnd s in
    Some (set_window (Z.min (u32 (cwnd s + Z.max inc 1)) MAX_CWND_BYTES) (ssthresh s) s).

(** The body of [on_dup_ack]. *)
Definition conn_dup_ack (s : TcpCongestionState) : bool * TcpCongestionState :=
  let s := set_loss (u32 (dup_ack_count s + 1)) (bytes_in_flight s) (in_recovery s) s in
  (DUP_ACK_THRESHOLD <=? dup_ack_count s, s).

(** The body of [enter_fast_recovery]. *)
Definition conn_recovery (s : TcpCongestionState) : TcpCongestionState :=
  let t := Z.max (cwnd s / 2) (u32 (mss s * 2)) in
  set_window (u32 (t + u32 (3 * mss s))) t (set_loss 0 (bytes_in_flight s) true s).

(** The body of [on_timeout]. *)
Definition conn_timeout (s : TcpCongestionState) : TcpCongestionState :=
  let t := Z.max (cwnd s / 2) (u32 (mss s * 2)) in
  let s := set_window (mss s) t (set_loss 0 (bytes_in_flight s) false s) in
  let n := u32 (rto_count s + 1) in
  let rto := if 1 <? n then Z.min (saturating_mul64 (rto_ms s) 2) 60000 else rto_ms s in
  set_rtt (srtt_us s) (rttvar_us s) rto (rtt_sample_pending s) n s.

(** ** The table *)

(** [CONN_STATES] *)
Abbreviation Conns := (gmap Z TcpCongestionState).

Definition send_budget (handle_id : Z) (t : Conns) : Z :=
  match t !! handle_id with Some s => conn_budget s | None => u32 (DEFAULT_MSS * INITIAL_CWND_SEGMENTS) end.

Definition on_send (handle_id n : Z) (t : Conns) : Conns := alter (fun s => conn_send s n) handle_id t.

Definition on_ack (handle_id bytes_acked : Z) (rtt_sample_ms : option Z) (t : Conns) : option Conns :=
  match t !! handle_id with
  | Some s => s' ← conn_ack s bytes_acked rtt_sample_ms; Some (<[handle_id := s']> t)
  | None => Some t
  end.

Definition on_dup_ack (handle_id : Z) (t : Conns) : bool * Conns :=
  match t !! handle_id with
  | Some s => let '(b, s') := conn_dup_ack s in (b, <[handle_id := s']> t)
  | None => (false, t)
  end.

Definition enter_fast_recovery (handle_id : Z) (t : Conns) : Conns := alter conn_recovery handle_id t.

Definition on_timeout (handle_id : Z) (t : Conns) : Z * Conns :=
  match t !! handle_id with
  | Some s => let s' := conn_timeout s in (rto_ms s', <[handle_id := s']> t)
  | None => (INITIAL_RTO_MS, t)
  end.

Definition create (handle_id m : Z) (t : Conns) : Conns := <[handle_id := new_conn m]> t.
Definition remove (handle_id : Z) (t : Conns) : Conns := delete handle_id t.

(** ** The sending path *)

(** A TCP socket of smoltcp as [sendto_internal] sees it: [may_send], and the
    length of the free slice that [send] offers, or its error. *)
Record TcpSocket := mkSocket { may_send : bool; send_slice : option Z }.

(** The TCP case of [sendto_internal]. [sock] is [None] when the handle is not
    a TCP socket. The results: what is returned, how many bytes were put into
    the socket's buffer, and the table. *)
Definition sendto_tcp (handle_id len : Z) (sock : option TcpSocket) (t : Conns) : Z * Z * Conns :=
  let budget := send_budget handle_id t in
  if budget =? 0 then (u64 Errno.EAGAIN, 0, t)
  else
    let send_len := Z.min len budget in
    match sock with
    | None => (u64 Errno.EIO, 0, t)
    | Some s =>
        if may_send s then
          match send_slice s with
          | Some room => (send_len, Z.min room send_len, on_send handle_id (u32 send_len) t)
          | None => (send_len, 0, t)
          end
        else (send_len, 0, t)
    end.

(** ** The other Reno state *)

Definition MSS : Z := 1460.
Definition INITIAL_CWND : Z := 10 * MSS.

Record TcpReno := mkReno { r_cwnd : Z; r_ssthresh : Z; recovery : bool; dup_acks : Z }.

Definition reno_new : TcpReno := mkReno INITIAL_CWND (M32 - 1) false 0.

Definition reno_on_ack (s : TcpReno) (bytes_acked : Z) : option TcpReno :=
  if r_cwnd s <? r_ssthresh s then Some (mkReno (u32 (r_cwnd s + bytes_acked)) (r_ssthresh s) (recovery s) (dup_acks s))
  else if r_cwnd s =? 0 then None
  else Some (mkReno (u32 (r_cwnd s + u32 (bytes_acked * bytes_acked) / r_cwnd s)) (r_ssthresh s) (recovery s) (dup_acks s)).

Definition on_triple_dup_ack (s : TcpReno) : TcpReno :=
  let t := Z.max (r_cwnd s / 2) (2 * MSS) in mkReno (u32 (t + 3 * MSS)) t true 0.
Definition on_rto (s : TcpReno) : TcpReno := mkReno MSS (Z.max (r_cwnd s / 2) (2 * MSS)) false 0.
Definition on_exit_recovery (s : TcpReno) : TcpReno := mkReno (r_ssthresh s) (r_ssthresh s) false (dup_acks s).

(** ** Invariant *)

(** A connection whose segment size is that of a TCP option, 1 to 65535. *)
Definition conn_ok (s : TcpCongestionState) : Prop :=
  1 <= mss s < M16 /\ mss s <= cwnd s < M32 /\ 2 * mss s <= ssthresh s < M32 /\
  (if in_recovery s then ssthresh s + 3 * mss s <= cwnd s else cwnd s <= 2 ^ 31) /\
  (in_recovery s = true -> ssthresh s <= 2 ^ 31) /\
  200 <= rto_ms s <= 60000 /\ 0 <= srtt_us s <= 30000000 /\ 0 <= rttvar_us s <= 30000000 /\
  is_u32 (bytes_in_flight s) /\ is_u32 (dup_ack_count s) /\ is_u32 (rto_count s).

Local Ltac Zify.zify_post_hook ::= Z.to_euclidean_division_equations.

Lemma u32_small x : is_u32 x -> u32 x = x.
Proof. apply Z.mod_small. Qed.

Lemma new_conn_ok m : 1 <= m < M16 -> conn_ok (new_conn m).
Proof.
  intros Hm. unfold conn_ok, new_conn, INITIAL_CWND_SEGMENTS, INITIAL_RTO_MS. simpl.
  rewrite u32_small by (unfold is_u32; lia). unfold is_u32. lia.
Qed.

Lemma conn_send_ok s n : conn_ok s -> is_u32 n -> conn_ok (conn_send s n).
Proof.
  intros (Hm & Hc & Ht & Hr & Hr' & Ho & Hs & Hv & Hf & Hd & Hn) Hb. unfold conn_ok. simpl. split_and!; try (done || lia).
  all: unfold saturating_add32, is_u32 in *; lia.
Qed.

(** The estimator without wrap-around or saturation. *)
Lemma update_rtt_exact s r :
  0 <= srtt_us s <= 30000000 -> 0 <= rttvar_us s <= 30000000 -> 0 <= r ->
  let x := 1000 * Z.min r 30000 in
  let s' := update_rtt s r in
  srtt_us s' = (if srtt_us s =? 0 then x else (7 * srtt_us s + x) / 8) /\
  rttvar_us s' = (if srtt_us s =? 0 then x / 2 else (3 * rttvar_us s + Z.abs (x - srtt_us s)) / 4) /\
  rto_ms s' = Z.min (Z.max ((srtt_us s' + 4 * rttvar_us s') / 1000) 200) 60000.
Proof.
  intros Hs Hv Hr. cbv zeta. unfold update_rtt. cbv zeta.
  assert (E : saturating_mul64 (Z.min r 30000) 1000 = 1000 * Z.min r 30000) by (unfold saturating_mul64; lia). rewrite E.
  set (x := 1000 * Z.min r 30000) in *. assert (Hx : 0 <= x <= 30000000) by lia.
  assert (Hd : (if srtt_us s <? x then x - srtt_us s else srtt_us s - x) = Z.abs (x - srtt_us s))
    by (destruct (Z.ltb_spec (srtt_us s) x); lia).
  rewrite Hd. unfold saturating_add64, ALPHA, BETA.
  assert (H7 : u64 (u64 ((8 - 1) * srtt_us s) + x) = 7 * srtt_us s + x)
    by (rewrite (u64_small ((8 - 1) * _)), u64_small by (unfold is_u64; lia); lia).
  assert (H3 : u64 (u64 ((4 - 1) * rttvar_us s) + Z.abs (x - srtt_us s)) = 3 * rttvar_us s + Z.abs (x - srtt_us s))
    by (rewrite (u64_small ((4 - 1) * _)), u64_small by (unfold is_u64; lia); lia).
  rewrite H7, H3. destruct (srtt_us s =? 0); cbn [srtt_us rttvar_us rto_ms set_rtt]; (split; [done|]; split; [done|]).
  all: rewrite (u64_small (4 * _)) by (unfold is_u64; lia); rewrite (Z.min_r (M64 - 1)) by lia; reflexivity.
Qed.

Lemma update_rtt_window s r :
  let s' := update_rtt s r in
  cwnd s' = cwnd s /\ ssthresh s' = ssthresh s /\ mss s' = mss s /\ in_recovery s' = in_recovery s /\
  bytes_in_flight s' = bytes_in_flight s /\ dup_ack_count s' = dup_ack_count s /\ rto_count s' = 0.
Proof. unfold update_rtt. cbv zeta. by destruct (srtt_us s =? 0). Qed.

Lemma update_rtt_ok s r : conn_ok s -> 0 <= r -> conn_ok (update_rtt s r).
Proof.
  intros (Hm & Hc & Ht & Hr & Hr' & Ho & Hs & Hv & Hf & Hd & Hn) Hr0.
  destruct (update_rtt_exact s r Hs Hv Hr0) as (E1 & E2 & E3). unfold conn_ok.
  destruct (update_rtt_window s r) as (-> & -> & -> & -> & -> & -> & E4).
  rewrite E4. clear E4. set (x := 1000 * Z.min r 30000) in *. assert (Hx : 0 <= x <= 30000000) by lia.
  assert (H1 : 0 <= srtt_us (update_rtt s r) <= 30000000) by (rewrite E1; destruct (srtt_us s =? 0); lia).
  assert (H2 : 0 <= rttvar_us (update_rtt s r) <= 30000000) by (rewrite E2; destruct (srtt_us s =? 0); lia).
  split_and!; try (done || lia).
Qed.

(** The window after an acknowledgement outside recovery, without wrap-around. *)
Definition grown (s : TcpCongestionState) : Z :=
  Z.min MAX_CWND_BYTES (cwnd s + (if cwnd s <? ssthresh s then mss s else Z.max 1 (mss s * mss s / cwnd s))).

Lemma conn_ack_window s n : conn_ok s -> is_u32 n -> exists s', conn_ack s n None = Some s' /\ conn_ok s' /\
  (in_recovery s = false -> cwnd s' = grown s /\ in_recovery s' = false).
Proof.
  intros (Hm & Hc & Ht & Hr & Hr' & Ho & Hs & Hv & Hf & Hd & Hn) Hb. unfold conn_ack. cbv zeta.
  cbn [set_loss in_recovery bytes_in_flight ssthresh cwnd mss].
  assert (Hf' : is_u32 (saturating_sub (bytes_in_flight s) n)) by (unfold saturating_sub, is_u32 in *; lia).
  unfold grown. set (f := saturating_sub _ _) in *. unfold MAX_CWND_BYTES, DEFAULT_MSS, saturating_add32.
  destruct (in_recovery s); [specialize (Hr' eq_refl); destruct (f <=? ssthresh s); (eexists; split; [done|]; split; [|done])|].
  1,2: unfold conn_ok; cbn; split_and!; try (done || lia).
  destruct (Z.ltb_spec (cwnd s) (ssthresh s)).
  { rewrite u32_small by (unfold is_u32; lia). eexists. split; [done|]. split; [|cbn; split; [lia|done]].
    unfold conn_ok; cbn. split_and!; (done || lia). }
  destruct (Z.eqb_spec (cwnd s) 0); [lia|].
  assert (Hq : 0 <= mss s * mss s < M32) by nia. assert (Hi : 0 <= mss s * mss s / cwnd s <= mss s).
  { split; [apply Z.div_pos; lia|]. apply Z.div_le_upper_bound; nia. }
  rewrite (u32_small (mss s * mss s)) by exact Hq. rewrite u32_small by (unfold is_u32; lia).
  eexists. split; [done|]. split; [|cbn; split; [lia|done]]. unfold conn_ok; cbn. split_and!; (done || lia).
Qed.

Lemma conn_ack_ok s n o :
  conn_ok s -> is_u32 n -> match o with Some r => 0 <= r | None => True end ->
  exists s', conn_ack s n o = Some s' /\ conn_ok s' /\ (in_recovery s = false -> cwnd s' = grown s /\ in_recovery s' = false).
Proof.
  intros Hs Hn Ho. destruct o as [r|]; [|by apply conn_ack_window].
  pose proof (update_rtt_ok s r Hs Ho) as Hs'. destruct (update_rtt_window s r) as (E1 & E2 & E3 & E4 & _).
  set (s1 := set_rtt (srtt_us (update_rtt s r)) (rttvar_us (update_rtt s r)) (rto_ms (update_rtt s r)) false
               (rto_count (update_rtt s r)) (update_rtt s r)).
  destruct (conn_ack_window s1 n) as (s' & E & Hok & Hg); [exact Hs'|done|].
  exists s'. split; [exact E|]. split; [done|]. intros Hr. change (in_recovery s1) with (in_recovery (update_rtt s r)) in Hg.
  rewrite E4 in Hg. destruct (Hg Hr) as [-> ->]. split; [|done]. unfold grown, s1. cbn. by rewrite E1, E2, E3.
Qed.

Lemma conn_dup_ack_ok s : conn_ok s -> conn_ok (conn_dup_ack s).2.
Proof.
  intros (Hm & Hc & Ht & Hr & Hr' & Ho & Hs & Hv & Hf & Hd & Hn). unfold conn_ok; cbn. split_and!; try (done || lia). apply u32_range.
Qed.

(** Half the window, and at least two segments. *)
Lemma halved s : conn_ok s ->
  2 * mss s <= Z.max (cwnd s / 2) (u32 (mss s * 2)) <= 2 ^ 31 - 1 /\ u32 (mss s * 2) = 2 * mss s.
Proof. intros (Hm & Hc & _). rewrite u32_small by (unfold is_u32; lia). lia. Qed.

Lemma conn_recovery_ok s : conn_ok s -> conn_ok (conn_recovery s).
Proof.
  intros H. destruct (halved s H) as [Ht _]. destruct H as (Hm & Hc & _ & _ & _ & Ho & Hs & Hv & Hf & Hd & Hn).
  unfold conn_recovery. set (t := Z.max _ _) in *. rewrite (u32_small (3 * mss s)), u32_small by (unfold is_u32; lia).
  unfold conn_ok; cbn. split_and!; (done || lia).
Qed.

Lemma conn_timeout_ok s : conn_ok s -> conn_ok (conn_timeout s) /\ rto_ms s <= rto_ms (conn_timeout s).
Proof.
  intros H. destruct (halved s H) as [Ht _]. destruct H as (Hm & Hc & _ & _ & _ & Ho & Hs & Hv & Hf & Hd & Hn).
  unfold conn_timeout. set (t := Z.max _ _) in *. cbn [rto_count set_window set_loss rto_ms].
  assert (Hrto : rto_ms s <= (if 1 <? u32 (rto_count s + 1) then Z.min (saturating_mul64 (rto_ms s) 2) 60000 else rto_ms s) <= 60000).
  { unfold saturating_mul64. destruct (1 <? _); lia. }
  split; [|exact (proj1 Hrto)]. unfold conn_ok; cbn. split_and!; try (done || lia). apply u32_range.
Qed.

(** ** Traces *)

Inductive Event :=
| Create (h m : Z)
| Remove (h : Z)
| Send (h n : Z)
| Ack (h n : Z) (rtt : option Z)
| DupAck (h : Z)
| FastRecovery (h : Z)
| Timeout (h : Z).

Definition event_ok (e : Event) : Prop :=
  match e with
  | Create _ m => 1 <= m < M16
  | Send _ n => is_u32 n
  | Ack _ n o => is_u32 n /\ match o with Some r => 0 <= r | None => True end
  | _ => True
  end.

Definition event (e : Event) (t : Conns) : option Conns :=
  match e with
  | Create h m => Some (create h m t)
  | Remove h => Some (remove h t)
  | Send h n => Some (on_send h n t)
  | Ack h n o => on_ack h n o t
  | DupAck h => Some (on_dup_ack h t).2
  | FastRecovery h => Some (enter_fast_recovery h t)
  | Timeout h => Some (on_timeout h t).2
  end.

Fixpoint events (l : list Event) (t : Conns) : option Conns :=
  match l with [] => Some t | e :: l => t ← event e t; events l t end.

Definition conns_ok (t : Conns) : Prop := map_Forall (fun _ s => conn_ok s) t.

Lemma conns_alter (f : TcpCongestionState -> TcpCongestionState) h t :
  (forall s, conn_ok s -> conn_ok (f s)) -> conns_ok t -> conns_ok (alter f h t).
Proof. intros Hf Ht k s. rewrite lookup_alter_Some. intros [(<- & s0 & H0 & ->)|[_ H0]]; eauto. Qed.

Lemma event_conns e t : event_ok e -> conns_ok t -> exists t', event e t = Some t' /\ conns_ok t'.
Proof.
  intros He Ht. destruct e as [h m|h|h n|h n o|h|h|h]; cbn [event event_ok] in *.
  - eexists. split; [done|]. apply map_Forall_insert_2; [by apply new_conn_ok|done].
  - eexists. split; [done|]. by apply map_Forall_delete.
  - eexists. split; [done|]. apply conns_alter; [|done]. intros s Hs. by apply conn_send_ok.
  - unfold on_ack. destruct (t !! h) as [s|] eqn:E; [|eauto]. destruct He as [Hn Ho].
    destruct (conn_ack_ok s n o (Ht h s E) Hn Ho) as (s' & -> & Hs' & _). eexists. split; [done|]. by apply map_Forall_insert_2.
  - eexists. split; [done|]. unfold on_dup_ack. destruct (t !! h) as [s|] eqn:E; [|done].
    pose proof (conn_dup_ack_ok s (Ht h s E)) as Hs. destruct (conn_dup_ack s). by apply map_Forall_insert_2.
  - eexists. split; [done|]. apply conns_alter; [apply conn_recovery_ok|done].
  - eexists. split; [done|]. unfold on_timeout. destruct (t !! h) as [s|] eqn:E; [|done].
    apply map_Forall_insert_2; [|done]. by apply conn_timeout_ok, (Ht h).
Qed.

Lemma events_conns l t : Forall event_ok l -> conns_ok t -> exists t', events l t = Some t' /\ conns_ok t'.
Proof.
  intros Hl. revert t. induction Hl as [|e l He _ IH]; intros t Ht; [by exists t|].
  destruct (event_conns e t He Ht) as (t' & E & Ht'). cbn [events]. rewrite E. by apply IH.
Qed.

(** The congestion state stays in its bounds under every sequence of
    operations, with segment sizes that fit a TCP option. No operation divides
    by zero. In every state reached the window is at least one segment and
    fits 32 bits, and outside recovery it is at most 2 GiB; the retransmission
    timeout is between 200 ms and 60 s; the round-trip estimates are at most
    30 s; no more than the window can be sent; and a further acknowledgement
    outside recovery gives exactly the window of slow start or congestion
    avoidance, with no wrap-around, capped at the maximum. *)
Theorem reno_bounds l :
  Forall event_ok l ->
  exists t, events l ∅ = Some t /\
  forall h s, t !! h = Some s ->
    mss s <= cwnd s < M32 /\ (in_recovery s = false -> cwnd s <= 2 ^ 31) /\ 200 <= rto_ms s <= 60000 /\
    0 <= srtt_us s <= 30000000 /\ 0 <= rttvar_us s <= 30000000 /\ 0 <= send_budget h t <= cwnd s /\
    forall n, is_u32 n -> exists t' s', on_ack h n None t = Some t' /\ t' !! h = Some s' /\
      (in_recovery s = false -> cwnd s' = grown s).
Proof.
  intros Hl. destruct (events_conns l ∅ Hl) as (t & E & Ht); [apply map_Forall_empty|]. exists t. split; [exact E|].
  intros h s Hs. pose proof (Ht h s Hs) as Hok. pose proof Hok as (Hm & Hc & _ & Hr & _ & Ho & Hrt & Hv & Hf & _).
  split_and!; try lia; [by intros H; rewrite H in Hr| | |].
  1,2: unfold send_budget, conn_budget, saturating_sub, is_u32 in *; rewrite Hs; lia.
  intros n Hn. unfold on_ack. rewrite Hs. destruct (conn_ack_ok s n None Hok Hn I) as (s' & -> & _ & Hg).
  do 2 eexists. split; [done|]. rewrite lookup_insert_eq. split; [done|]. intros H. by apply Hg.
Qed.

Lemma reno_bounds_witness :
  exists t, events [Create 1 1460; Send 1 14600; Ack 1 1460 (Some 40); DupAck 1; FastRecovery 1; Ack 1 1460 None; Timeout 1;
                    Ack 1 8000 (Some 90)] ∅ = Some t /\
  forall h s, t !! h = Some s -> mss s <= cwnd s.
Proof.
  destruct (reno_bounds [Create 1 1460; Send 1 14600; Ack 1 1460 (Some 40); DupAck 1; FastRecovery 1; Ack 1 1460 None; Timeout 1;
                    Ack 1 8000 (Some 90)]) as (t & E & H).
  - repeat constructor; cbn; unfold is_u32; lia.
  - exists t. split; [exact E|]. intros h s Hs. apply (H h s Hs).
Defined.

(** ** What the kernel does with it *)

Lemma conn_send_budget s n : is_u32 (cwnd s) -> 0 <= n -> conn_budget (conn_send s n) = saturating_sub (conn_budget s) n.
Proof. intros Hc Hn. unfold conn_budget, conn_send, saturating_sub, saturating_add32, is_u32 in *. cbn. lia. Qed.

(** Everything a sequence of sends on one connection puts into the socket's
    buffer. *)
Fixpoint sent (h : Z) (l : list (Z * option TcpSocket)) (t : Conns) : Z :=
  match l with
  | [] => 0
  | (len, sock) :: l => let '(_, n, t) := sendto_tcp h len sock t in n + sent h l t
  end.

Lemma sent_budget h l t s :
  Forall (fun x => 0 <= x.1) l -> t !! h = Some s -> is_u32 (cwnd s) -> is_u32 (bytes_in_flight s) -> sent h l t <= conn_budget s.
Proof.
  intros Hl. revert t s. induction Hl as [|[len sock] l Hlen _ IH]; intros t s Hs Hc Hf; cbn [sent].
  { unfold conn_budget, saturating_sub. lia. }
  unfold sendto_tcp. cbv zeta. unfold send_budget. rewrite Hs.
  destruct (conn_budget s =? 0); [by apply IH|]. destruct sock as [[m o]|]; [|by apply IH].
  destruct m; cbn [may_send send_slice]; [|by apply IH]. destruct o as [room|]; [|by apply IH].
  assert (Hb : 0 <= conn_budget s < M32) by (unfold conn_budget, saturating_sub, is_u32 in *; lia). cbn [fst] in Hlen.
  set (n := Z.min len (conn_budget s)). assert (Hn : 0 <= n <= conn_budget s) by lia. rewrite u32_small by (unfold is_u32; lia).
  specialize (IH (on_send h n t) (conn_send s n)). rewrite (conn_send_budget s n Hc ltac:(lia)) in IH.
  enough (sent h l (on_send h n t) <= saturating_sub (conn_budget s) n) by (unfold saturating_sub in *; lia).
  apply IH; [|done|].
  - unfold on_send. by rewrite lookup_alter_eq, Hs.
  - cbn. unfold saturating_add32, is_u32 in *. lia.
Qed.

(** The kernel calls only [create], [send_budget], [on_send] and [remove]; the
    bytes in flight are never acknowledged, so a connection sends at most its
    initial window in its life. *)
Lemma connection_stalls h l t :
  Forall (fun x => 0 <= x.1) l -> sent h l (create h DEFAULT_MSS t) <= 14600.
Proof.
  intros Hl. unfold create. apply (sent_budget h l _ (new_conn DEFAULT_MSS)); [done|apply lookup_insert_eq|by vm_compute..].
Qed.

(** A socket that takes nothing is reported as having taken everything. *)
Example send_reports_unsent :
  sendto_tcp 1 100 (Some (mkSocket false None)) ∅ = (100, 0, ∅) /\
  (sendto_tcp 1 100 (Some (mkSocket true (Some 10))) ∅).1 = (100, 10).
Proof. split; reflexivity. Qed.

(** Without the bound on the segment size: with size 0 an acknowledgement
    after a timeout divides by zero. *)
Example zero_mss_panics : events [Create 1 0; Timeout 1; Ack 1 0 None] ∅ = None.
Proof. vm_compute. reflexivity. Qed.

(** The inflation during recovery is not capped by [MAX_CWND_BYTES]. *)
Example recovery_exceeds_cap :
  (cwnd <$> conn_ack (mkConn MAX_CWND_BYTES 2920 1460 0 0 1000 false 0 100000 true 0) 0 None) = Some (MAX_CWND_BYTES + 1460).
Proof. reflexivity. Qed.

(** [congestion.rs] promises a window of at least one segment and a threshold
    that never increases. Neither holds: slow start wraps, and after a timeout
    the threshold follows the window up. *)
Example reno_window_wraps : (r_cwnd <$> reno_on_ack reno_new (M32 - INITIAL_CWND)) = Some 0.
Proof. reflexivity. Qed.

Example reno_threshold_rises :
  let s := on_rto (mkReno 2 2 false 0) in
  r_ssthresh s = 2920 /\ (s' ← reno_on_ack s 100000; Some (r_ssthresh (on_rto s'))) = Some 50730.
Proof. split; reflexivity. Qed.
