(* ===== verification/Creds.v ===== *)
(** * Credentials, process groups and resource limits

    Model of [kernel/src/syscalls/process_creds.rs], of [has_capability] and
    [get_current_process] of [helpers.rs], and of the credential operations of
    [kernel/src/task/process.rs]. The locks are [IrqSafeMutex]es of
    [crates/hal/src/sync/mod.rs], not reentrant: taking one that this CPU holds
    is a panic. So a call is a function of the world that gives a result or
    panics, and the world has the locks held. An [Arc<Process>] is the number
    of the process. Other CPUs are not modelled, except that the global
    [CURRENT_PROCESS] and this CPU's process are two things. *)

From stdpp Require Import functions.
From S2P Require Import Prelude UserAccess.

Inductive Lock :=
| LCurrent | LTable
| LCreds (p : Z) | LIdentity (p : Z) | LLimits (p : Z) | LGroups (p : Z) | LChildren (p : Z) | LMemory (p : Z) | LUmask (p : Z).

#[global] Instance Lock_eq_dec : EqDecision Lock.
Proof. solve_decision. Defined.

Definition CAP_SETUID : Z := Z.shiftl 1 6.
Definition CAP_SETGID : Z := Z.shiftl 1 7.
Definition CAP_SETPCAP : Z := Z.shiftl 1 8.
Definition CAP_SYS_ADMIN : Z := Z.shiftl 1 21.

Record Credentials := mkCreds {
  uid : Z; gid : Z; euid : Z; egid : Z; suid : Z; sgid : Z; fsuid : Z; fsgid : Z;
  cap_effective : Z; cap_permitted : Z; cap_inheritable : Z; c_umask : Z }.

Record ProcessIdentity := mkIdentity { pgid : Z; session : Z; is_group_leader : bool }.

(** Sixteen of each. *)
Record ResourceLimits := mkLimits { rlim_cur : list Z; rlim_max : list Z }.

(** The fields of [Process] that these calls use; a mapping is its bounds. *)
Record Process := mkProcess {
  children : list Z; creds : Credentials; identity : ProcessIdentity; limits : ResourceLimits;
  groups : list Z; p_umask : Z; utime : Z; stime : Z; cutime : Z; cstime : Z; vmas : list (Z * Z) }.

(** [cpu_process] is the process of this CPU's current thread, if there is one
    and the scheduler's lock is free. *)
Record World := mkWorld {
  held : list Lock; current_process : option Z; cpu_process : option Z; process_table : list Z;
  procs : Z -> Process; umem : UserMem }.

Definition set_held (h : list Lock) (w : World) : World :=
  mkWorld h (current_process w) (cpu_process w) (process_table w) (procs w) (umem w).
Definition set_procs (f : Z -> Process) (w : World) : World :=
  mkWorld (held w) (current_process w) (cpu_process w) (process_table w) f (umem w).
Definition set_umem (m : UserMem) (w : World) : World :=
  mkWorld (held w) (current_process w) (cpu_process w) (process_table w) (procs w) m.

Definition with_creds (c : Credentials) (q : Process) : Process :=
  mkProcess (children q) c (identity q) (limits q) (groups q) (p_umask q) (utime q) (stime q) (cutime q) (cstime q) (vmas q).
Definition with_identity (i : ProcessIdentity) (q : Process) : Process :=
  mkProcess (children q) (creds q) i (limits q) (groups q) (p_umask q) (utime q) (stime q) (cutime q) (cstime q) (vmas q).
Definition with_limits (l : ResourceLimits) (q : Process) : Process :=
  mkProcess (children q) (creds q) (identity q) l (groups q) (p_umask q) (utime q) (stime q) (cutime q) (cstime q) (vmas q).
Definition with_groups (g : list Z) (q : Process) : Process :=
  mkProcess (children q) (creds q) (identity q) (limits q) g (p_umask q) (utime q) (stime q) (cutime q) (cstime q) (vmas q).
Definition with_umask (u : Z) (q : Process) : Process :=
  mkProcess (children q) (creds q) (identity q) (limits q) (groups q) u (utime q) (stime q) (cutime q) (cstime q) (vmas q).

(** ** Calls *)

(** [None] is a panic. *)
Definition Sys (A : Type) : Type := World -> option (A * World).

Definition ret {A} (a : A) : Sys A := fun w => Some (a, w).
#[global] Instance Sys_bind : MBind Sys := fun A B f m w => match m w with Some (a, w) => f a w | None => None end.

Definition gets {A} (f : World -> A) : Sys A := fun w => Some (f w, w).
Definition modify (f : World -> World) : Sys unit := fun w => Some (tt, f w).
Definition err (e : Z) : Sys Z := ret (u64 e).

(** A guard held during [m]; [IrqSafeMutex::lock] and the guard's [drop]. *)
Definition with_lock {A} (l : Lock) (m : Sys A) : Sys A := fun w =>
  if decide (l ∈ held w) then None
  else match m (set_held (l :: held w) w) with
       | Some (a, w') => Some (a, set_held (held w) w')
       | None => None
       end.

(** Reading and changing a process under a lock of it. *)
Definition read {A} (l : Z -> Lock) (p : Z) (f : Process -> A) : Sys A := with_lock (l p) (gets (fun w => f (procs w p))).
Definition update (p : Z) (f : Process -> Process) : Sys unit :=
  modify (fun w => set_procs (<[p := f (procs w p)]> (procs w)) w).

Definition set_creds (p : Z) (f : Credentials -> Credentials) : Sys unit := update p (fun q => with_creds (f (creds q)) q).

Definition from_user (ptr : Z) (n : nat) : Sys (option (list Z)) := gets (fun w => copy_from_user (umem w) ptr n).
Definition to_user (ptr : Z) (l : list Z) : Sys bool := fun w =>
  let '(b, m) := copy_to_user (umem w) ptr l in Some (b, set_umem m w).

(** [helpers.rs] *)
Definition get_current_process : Sys (option Z) :=
  c ← gets cpu_process;
  match c with Some p => ret (Some p) | None => with_lock LCurrent (gets current_process) end.

Definition has_capability (cap_bit : Z) : Sys bool :=
  o ← get_current_process;
  match o with
  | Some p => read LCreds p (fun q => (euid (creds q) =? 0) || negb (Z.land (cap_effective (creds q)) cap_bit =? 0))
  | None => ret false
  end.

(** The log line is output; the process is looked up for it. *)
Definition audit_log : Sys unit := _ ← get_current_process; ret tt.

(** [CURRENT_PROCESS.lock()] cloned, the guard dropped. *)
Definition clone_current : Sys (option Z) := with_lock LCurrent (gets current_process).

(** [PROCESS_TABLE.lock().get(&pid)] *)
Definition in_table (pid : Z) : Sys bool := gets (fun w => bool_decide (pid ∈ process_table w)).

(** ** Groups and sessions *)

Definition sys_setpgid (pid pgid_ : Z) : Sys Z :=
  o ← clone_current;
  match o with
  | None => err Errno.ESRCH
  | Some current =>
      let target := if pid =? 0 then current else pid in
      if 2147483647 <? pgid_ then err Errno.EINVAL
      else
        found ← with_lock LTable (in_table target);
        if negb found then err Errno.ESRCH
        else
          s ← read LIdentity target (fun q => session (identity q));
          if s =? target then err Errno.EPERM
          else
            denied ← (if target =? current then ret false
                      else
                        is_child ← read LChildren current (fun q => bool_decide (target ∈ children q));
                        if is_child : bool then ret false
                        else cap ← has_capability CAP_SYS_ADMIN; ret (negb cap));
            if denied : bool then err Errno.EPERM
            else
              let new_pgid := if pgid_ =? 0 then target else pgid_ in
              e ← (if new_pgid =? target then ret None
                   else with_lock LTable (
                     found ← in_table new_pgid;
                     if negb found then ret (Some Errno.ESRCH)
                     else
                       gl ← read LIdentity new_pgid (fun q => session (identity q));
                       cs ← read LIdentity current (fun q => session (identity q));
                       ret (if gl =? cs then None else Some Errno.EPERM)));
              match e : option Z with
              | Some e => err e
              | None =>
                  _ ← with_lock (LIdentity target)
                        (update target (fun q => with_identity (mkIdentity new_pgid (session (identity q)) (is_group_leader (identity q))) q));
                  ret 0
              end
  end.

Definition sys_getpgid (pid : Z) : Sys Z :=
  o ← (if pid =? 0 then clone_current else ret (Some pid));
  match o with
  | None => err Errno.ESRCH
  | Some target => with_lock LTable (
      found ← in_table target;
      if found : bool then read LIdentity target (fun q => pgid (identity q)) else err Errno.ESRCH)
  end.

Definition sys_getpgrp : Sys Z := sys_getpgid 0.

Definition sys_setsid : Sys Z :=
  with_lock LCurrent (
    o ← gets current_process;
    match o with
    | None => err Errno.ESRCH
    | Some p => with_lock (LIdentity p) (
        i ← gets (fun w => identity (procs w p));
        if (session i =? p) || is_group_leader i then err Errno.EPERM
        else _ ← update p (with_identity (mkIdentity p p true)); ret p)
    end).

Definition sys_getsid (pid : Z) : Sys Z :=
  o ← with_lock LCurrent (
        o ← gets current_process;
        match o with
        | None => ret None
        | Some p => s ← read LIdentity p (fun q => session (identity q)); ret (Some (if pid =? 0 then p else pid, s))
        end);
  match o with
  | None => err Errno.ESRCH
  | Some (target, s) => with_lock LTable (
      found ← in_table target;
      if negb found then err Errno.ESRCH
      else
        s' ← read LIdentity target (fun q => session (identity q));
        if negb (s' =? s) then err Errno.EPERM else read LIdentity target (fun q => session (identity q)))
  end.

(** ** Resource limits *)

(** [RLimit] in memory. *)
Definition rlimit_bytes (c m : Z) : list Z := le_bytes 8 (u64 c) ++ le_bytes 8 (u64 m).
Definition rlimit_of (l : list Z) : Z * Z := (i64 (le_value (take 8 l)), i64 (le_value (drop 8 l))).

(** An index below 16 of the arrays. *)
Definition limit_at (l : list Z) (resource : Z) : Z := default 0 (l !! Z.to_nat resource).
Definition set_limit (resource c m : Z) (l : ResourceLimits) : ResourceLimits :=
  mkLimits (<[Z.to_nat resource := c]> (rlim_cur l)) (<[Z.to_nat resource := m]> (rlim_max l)).

Definition sys_getrlimit (resource rlim_ptr : Z) : Sys Z :=
  if (16 <=? resource) || (rlim_ptr =? 0) then err Errno.EINVAL
  else with_lock LCurrent (
    o ← gets current_process;
    match o with
    | None => err Errno.ESRCH
    | Some p => with_lock (LLimits p) (
        l ← gets (fun w => limits (procs w p));
        ok ← to_user rlim_ptr (rlimit_bytes (limit_at (rlim_cur l) resource) (limit_at (rlim_max l) resource));
        if negb ok then err Errno.EFAULT else ret 0)
    end).

Definition sys_setrlimit (resource rlim_ptr : Z) : Sys Z :=
  if (16 <=? resource) || (rlim_ptr =? 0) then err Errno.EINVAL
  else
    o ← from_user rlim_ptr 16;
    match o with
    | None => err Errno.EFAULT
    | Some b =>
        let '(c, m) := rlimit_of b in
        if m <? c then err Errno.EINVAL
        else with_lock LCurrent (
          o ← gets current_process;
          match o with
          | None => err Errno.ESRCH
          | Some p =>
              e ← read LCreds p (fun q => euid (creds q));
              denied ← (if e =? 0 then ret false
                        else read LLimits p (fun q => limit_at (rlim_max (limits q)) resource <? m));
              if denied : bool then err Errno.EPERM
              else
                _ ← with_lock (LLimits p) (update p (fun q => with_limits (set_limit resource c m (limits q)) q));
                ret 0
          end)
    end.

Definition sys_prlimit64 (pid resource new_rlim_ptr old_rlim_ptr : Z) : Sys Z :=
  if 16 <=? resource then err Errno.EINVAL
  else
    o ← clone_current;
    match o with
    | None => err Errno.ESRCH
    | Some current =>
        t ← (if (pid =? 0) || (pid =? current) then ret (inl current)
             else
               cap ← has_capability CAP_SYS_ADMIN;
               if negb cap then ret (inr Errno.EPERM)
               else with_lock LTable (found ← in_table pid; ret (if found : bool then inl pid else inr Errno.ESRCH)));
        match t : Z + Z with
        | inr e => err e
        | inl target =>
            ok ← (if old_rlim_ptr =? 0 then ret true
                  else
                    l ← read LLimits target limits;
                    to_user old_rlim_ptr (rlimit_bytes (limit_at (rlim_cur l) resource) (limit_at (rlim_max l) resource)));
            if negb ok then err Errno.EFAULT
            else if new_rlim_ptr =? 0 then ret 0
            else
              o ← from_user new_rlim_ptr 16;
              match o with
              | None => err Errno.EFAULT
              | Some b =>
                  let '(c, m) := rlimit_of b in
                  if m <? c then err Errno.EINVAL
                  else
                    e ← read LCreds target (fun q => euid (creds q));
                    with_lock (LLimits target) (
                      l ← gets (fun w => limits (procs w target));
                      if negb (e =? 0) && (limit_at (rlim_max l) resource <? m) then err Errno.EPERM
                      else _ ← update target (fun q => with_limits (set_limit resource c m (limits q)) q); ret 0)
              end
        end
    end.

(** ** Ids *)

(** [sys_getuid], [sys_getgid], [sys_geteuid], [sys_getegid]: the four differ
    in the field. *)
Definition get_id (f : Credentials -> Z) : Sys Z :=
  with_lock LCurrent (
    o ← gets current_process;
    match o with Some p => read LCreds p (fun q => f (creds q)) | None => ret 0 end).

Definition sys_getuid : Sys Z := get_id uid.
Definition sys_getgid : Sys Z := get_id gid.
Definition sys_geteuid : Sys Z := get_id euid.
Definition sys_getegid : Sys Z := get_id egid.

Definition set_uid (x : Z) (c : Credentials) : Credentials :=
  mkCreds x (gid c) (euid c) (egid c) (suid c) (sgid c) (fsuid c) (fsgid c) (cap_effective c) (cap_permitted c) (cap_inheritable c) (c_umask c).
Definition set_euid (x : Z) (c : Credentials) : Credentials :=
  mkCreds (uid c) (gid c) x (egid c) (suid c) (sgid c) (fsuid c) (fsgid c) (cap_effective c) (cap_permitted c) (cap_inheritable c) (c_umask c).
Definition set_suid (x : Z) (c : Credentials) : Credentials :=
  mkCreds (uid c) (gid c) (euid c) (egid c) x (sgid c) (fsuid c) (fsgid c) (cap_effective c) (cap_permitted c) (cap_inheritable c) (c_umask c).
Definition set_fsuid (x : Z) (c : Credentials) : Credentials :=
  mkCreds (uid c) (gid c) (euid c) (egid c) (suid c) (sgid c) x (fsgid c) (cap_effective c) (cap_permitted c) (cap_inheritable c) (c_umask c).
Definition set_gid (x : Z) (c : Credentials) : Credentials :=
  mkCreds (uid c) x (euid c) (egid c) (suid c) (sgid c) (fsuid c) (fsgid c) (cap_effective c) (cap_permitted c) (cap_inheritable c) (c_umask c).
Definition set_egid (x : Z) (c : Credentials) : Credentials :=
  mkCreds (uid c) (gid c) (euid c) x (suid c) (sgid c) (fsuid c) (fsgid c) (cap_effective c) (cap_permitted c) (cap_inheritable c) (c_umask c).
Definition set_sgid (x : Z) (c : Credentials) : Credentials :=
  mkCreds (uid c) (gid c) (euid c) (egid c) (suid c) x (fsuid c) (fsgid c) (cap_effective c) (cap_permitted c) (cap_inheritable c) (c_umask c).
Definition set_fsgid (x : Z) (c : Credentials) : Credentials :=
  mkCreds (uid c) (gid c) (euid c) (egid c) (suid c) (sgid c) (fsuid c) x (cap_effective c) (cap_permitted c) (cap_inheritable c) (c_umask c).
Definition set_caps (eff perm inh : Z) (c : Credentials) : Credentials :=
  mkCreds (uid c) (gid c) (euid c) (egid c) (suid c) (sgid c) (fsuid c) (fsgid c) eff perm inh (c_umask c).

Definition sys_setuid (uid_ : Z) : Sys Z :=
  with_lock LCurrent (
    o ← gets current_process;
    match o with
    | None => err Errno.ESRCH
    | Some p =>
        e ← read LCreds p (fun q => euid (creds q));
        privileged ← (if e =? 0 then ret true else has_capability CAP_SETUID);
        if privileged : bool then
          _ ← with_lock (LCreds p) (set_creds p (fun c => set_euid (u32 uid_) (set_uid (u32 uid_) c))); ret 0
        else if e =? u32 uid_ then
          _ ← with_lock (LCreds p) (set_creds p (set_uid (u32 uid_))); ret 0
        else _ ← audit_log; err Errno.EPERM
    end).

Definition sys_setgid (gid_ : Z) : Sys Z :=
  with_lock LCurrent (
    o ← gets current_process;
    match o with
    | None => err Errno.ESRCH
    | Some p =>
        e ← read LCreds p (fun q => egid (creds q));
        privileged ← (if e =? 0 then ret true else has_capability CAP_SETGID);
        if privileged : bool then
          _ ← with_lock (LCreds p) (set_creds p (fun c => set_egid (u32 gid_) (set_gid (u32 gid_) c))); ret 0
        else if e =? u32 gid_ then
          _ ← with_lock (LCreds p) (set_creds p (set_gid (u32 gid_))); ret 0
        else _ ← audit_log; err Errno.EPERM
    end).

Definition NO_CHANGE : Z := 0xFFFFFFFF.

(** An id that an unprivileged process may not take. *)
Definition foreign (x a b c : Z) : bool :=
  negb (x =? NO_CHANGE) && negb (x =? a) && negb (x =? b) && negb (x =? c).

Definition sys_setresuid (ruid_ euid_ suid_ : Z) : Sys Z :=
  o ← get_current_process;
  match o with
  | None => err Errno.ESRCH
  | Some p => with_lock (LCreds p) (
      cap ← has_capability CAP_SETUID;
      c ← gets (fun w => creds (procs w p));
      if negb cap && (foreign ruid_ (uid c) (euid c) (suid c) || foreign euid_ (uid c) (euid c) (suid c) ||
                      foreign suid_ (uid c) (euid c) (suid c))
      then err Errno.EPERM
      else
        _ ← set_creds p (fun c => if ruid_ =? NO_CHANGE then c else set_uid ruid_ c);
        _ ← set_creds p (fun c => if euid_ =? NO_CHANGE then c else set_euid euid_ c);
        _ ← set_creds p (fun c => if suid_ =? NO_CHANGE then c else set_suid suid_ c);
        _ ← set_creds p (fun c => set_fsuid (euid c) c);
        ret 0)
  end.

Definition sys_setresgid (rgid_ egid_ sgid_ : Z) : Sys Z :=
  o ← get_current_process;
  match o with
  | None => err Errno.ESRCH
  | Some p => with_lock (LCreds p) (
      cap ← has_capability CAP_SETGID;
      c ← gets (fun w => creds (procs w p));
      if negb cap && (foreign rgid_ (gid c) (egid c) (sgid c) || foreign egid_ (gid c) (egid c) (sgid c) ||
                      foreign sgid_ (gid c) (egid c) (sgid c))
      then err Errno.EPERM
      else
        _ ← set_creds p (fun c => if rgid_ =? NO_CHANGE then c else set_gid rgid_ c);
        _ ← set_creds p (fun c => if egid_ =? NO_CHANGE then c else set_egid egid_ c);
        _ ← set_creds p (fun c => if sgid_ =? NO_CHANGE then c else set_sgid sgid_ c);
        _ ← set_creds p (fun c => set_fsgid (egid c) c);
        ret 0)
  end.

(** The loop of [sys_getresuid] and [sys_getresgid]: null pointers are
    skipped, and it stops at a fault. *)
Fixpoint put_ids (l : list (Z * Z)) : Sys Z :=
  match l with
  | [] => ret 0
  | (v, ptr) :: l =>
      if ptr =? 0 then put_ids l
      else ok ← to_user ptr (le_bytes 4 v); if negb ok then err Errno.EFAULT else put_ids l
  end.

Definition sys_getresuid (ruid_ptr euid_ptr suid_ptr : Z) : Sys Z :=
  o ← get_current_process;
  match o with
  | None => err Errno.ESRCH
  | Some p => with_lock (LCreds p) (
      c ← gets (fun w => creds (procs w p));
      put_ids [(uid c, ruid_ptr); (euid c, euid_ptr); (suid c, suid_ptr)])
  end.

Definition sys_getresgid (rgid_ptr egid_ptr sgid_ptr : Z) : Sys Z :=
  o ← get_current_process;
  match o with
  | None => err Errno.ESRCH
  | Some p => with_lock (LCreds p) (
      c ← gets (fun w => creds (procs w p));
      put_ids [(gid c, rgid_ptr); (egid c, egid_ptr); (sgid c, sgid_ptr)])
  end.

(** ** Capabilities *)

Definition CAP_VERSION : Z := 0x19980330.

Definition sys_capget (hdrp datap : Z) : Sys Z :=
  if hdrp =? 0 then err Errno.EFAULT
  else
    h ← from_user hdrp 8;
    match h with
    | None => err Errno.EFAULT
    | Some header =>
        if negb (le_value (take 4 header) =? CAP_VERSION) then err Errno.EINVAL
        else if datap =? 0 then err Errno.EFAULT
        else with_lock LCurrent (
          o ← gets current_process;
          match o with
          | None => err Errno.ESRCH
          | Some p =>
              c ← read LCreds p creds;
              ok ← to_user datap (le_bytes 4 (cap_effective c) ++ le_bytes 4 (cap_permitted c) ++ le_bytes 4 (cap_inheritable c));
              if negb ok then err Errno.EFAULT else ret 0
          end)
    end.

Definition sys_capset (hdrp datap : Z) : Sys Z :=
  if (hdrp =? 0) || (datap =? 0) then err Errno.EFAULT
  else
    h ← from_user hdrp 8;
    match h with
    | None => err Errno.EFAULT
    | Some header =>
        if negb (le_value (take 4 header) =? CAP_VERSION) then err Errno.EINVAL
        else
          d ← from_user datap 12;
          match d with
          | None => err Errno.EFAULT
          | Some caps => with_lock LCurrent (
              o ← gets current_process;
              match o with
              | None => err Errno.ESRCH
              | Some p =>
                  e ← read LCreds p (fun q => euid (creds q));
                  allowed ← (if e =? 0 then ret true else has_capability CAP_SETPCAP);
                  if negb allowed then err Errno.EPERM
                  else
                    _ ← with_lock (LCreds p) (set_creds p
                          (set_caps (le_value (slice 0 4 caps)) (le_value (slice 4 4 caps)) (le_value (slice 8 4 caps))));
                    ret 0
              end)
          end
    end.

(** ** Supplementary groups *)

(** [size] is an [i32]. *)
Definition sys_getgroups (size list_ : Z) : Sys Z :=
  o ← get_current_process;
  match o with
  | None => err Errno.ESRCH
  | Some p => with_lock (LGroups p) (
      g ← gets (fun w => groups (procs w p));
      let n := Z.of_nat (length g) in
      if size <? 0 then err Errno.EINVAL
      else if size =? 0 then ret n
      else if size <? n then err Errno.EINVAL
      else if n =? 0 then ret 0
      else ok ← to_user list_ (g ≫= le_bytes 4); if negb ok then err Errno.EFAULT else ret n)
  end.

(** [chunks_exact(4)], each a [u32]. *)
Fixpoint u32_chunks (n : nat) (l : list Z) : list Z :=
  match n with O => [] | S n => le_value (take 4 l) :: u32_chunks n (drop 4 l) end.

(** [size] is an [i64]. *)
Definition sys_setgroups (size list_ : Z) : Sys Z :=
  cap ← has_capability CAP_SETGID;
  if negb cap then err Errno.EPERM
  else if (size <? 0) || (65536 <? size) then err Errno.EINVAL
  else
    let count := Z.to_nat size in
    g ← (if (0 <? count)%nat
         then raw ← from_user list_ (4 * count); ret (u32_chunks count <$> raw)
         else ret (Some []));
    match g with
    | None => err Errno.EFAULT
    | Some groups_new =>
        o ← get_current_process;
        match o with
        | None => err Errno.ESRCH
        | Some p => _ ← with_lock (LGroups p) (update p (with_groups groups_new)); ret 0
        end
    end.

(** ** Usage *)

(** [Rusage] in memory: the two times, the size and thirteen zeros. *)
Definition rusage_bytes (ut st maxrss : Z) : list Z :=
  let timeval t := le_bytes 8 (u64 (t / 100)) ++ le_bytes 8 (u64 ((t mod 100) * 10000)) in
  timeval ut ++ timeval st ++ le_bytes 8 (u64 maxrss) ++ replicate 104 0.

Definition vsize_kb (l : list (Z * Z)) : Z := foldl (fun n v => u64 (n + u64 (v.2 - v.1) / 1024)) 0 l.

Definition sys_getrusage (who rusage_ptr : Z) : Sys Z :=
  if rusage_ptr =? 0 then err Errno.EINVAL
  else
    r ← with_lock LCurrent (
          o ← gets current_process;
          match o with
          | None => ret (inr Errno.ESRCH)
          | Some p =>
              q ← gets (fun w => procs w p);
              if who =? 0 then
                kb ← read LMemory p (fun q => vsize_kb (vmas q));
                ret (inl (rusage_bytes (utime q) (stime q) kb))
              else if who =? 1 then ret (inl (rusage_bytes (cutime q) (cstime q) 0))
              else ret (inr Errno.EINVAL)
          end);
    match r : list Z + Z with
    | inr e => err e
    | inl b => ok ← to_user rusage_ptr b; if negb ok then err Errno.EFAULT else ret 0
    end.

(** ** Credentials of a process *)

(** [Process::credentials], [Process::set_credentials] and
    [Process::clone_credentials_from]. *)
Definition credentials (p : Z) : Sys Credentials := read LCreds p creds.

Definition set_credentials (p : Z) (cred : Credentials) : Sys unit :=
  with_lock (LCreds p) (set_creds p (fun c =>
    set_caps (cap_effective cred) (cap_permitted c) (cap_inheritable c)
      (set_suid (suid cred) (set_egid (egid cred) (set_euid (euid cred) c))))).

Definition clone_credentials_from (p parent : Z) : Sys unit :=
  with_lock (LCreds parent) (
    pc ← gets (fun w => creds (procs w parent));
    with_lock (LCreds p) (
      _ ← set_creds p (fun c =>
        mkCreds (uid pc) (gid pc) (euid pc) (egid pc) (suid pc) (sgid pc) (fsuid pc) (fsgid pc)
          (cap_effective pc) (cap_permitted pc) (cap_inheritable pc) (c_umask c));
      _ ← with_lock (LUmask parent) (
            u ← gets (fun w => p_umask (procs w parent));
            with_lock (LUmask p) (update p (with_umask u)));
      with_lock (LGroups parent) (
        g ← gets (fun w => groups (procs w parent));
        with_lock (LGroups p) (update p (with_groups g))))).

(** ** The calls *)

Inductive Call :=
| Setpgid (pid pgid : Z) | Getpgid (pid : Z) | Getpgrp | Setsid | Getsid (pid : Z)
| Getrlimit (r ptr : Z) | Setrlimit (r ptr : Z) | Prlimit64 (pid r new old : Z)
| Getuid | Getgid | Geteuid | Getegid | Setuid (u : Z) | Setgid (g : Z)
| Setresuid (r e s : Z) | Setresgid (r e s : Z) | Getresuid (r e s : Z) | Getresgid (r e s : Z)
| Capget (h d : Z) | Capset (h d : Z) | Getgroups (n l : Z) | Setgroups (n l : Z) | Getrusage (who ptr : Z).

Definition call (c : Call) : Sys Z :=
  match c with
  | Setpgid pid g => sys_setpgid pid g
  | Getpgid pid => sys_getpgid pid
  | Getpgrp => sys_getpgrp
  | Setsid => sys_setsid
  | Getsid pid => sys_getsid pid
  | Getrlimit r ptr => sys_getrlimit r ptr
  | Setrlimit r ptr => sys_setrlimit r ptr
  | Prlimit64 pid r n o => sys_prlimit64 pid r n o
  | Getuid => sys_getuid
  | Getgid => sys_getgid
  | Geteuid => sys_geteuid
  | Getegid => sys_getegid
  | Setuid u => sys_setuid u
  | Setgid g => sys_setgid g
  | Setresuid r e s => sys_setresuid r e s
  | Setresgid r e s => sys_setresgid r e s
  | Getresuid r e s => sys_getresuid r e s
  | Getresgid r e s => sys_getresgid r e s
  | Capget h d => sys_capget h d
  | Capset h d => sys_capset h d
  | Getgroups n l => sys_getgroups n l
  | Setgroups n l => sys_setgroups n l
  | Getrusage who ptr => sys_getrusage who ptr
  end.
