(* ===== verification/CredsSound.v ===== *)
(** * Credentials: locks and confinement

    Which of the calls of [Creds] return, and what an unprivileged process can
    change with them. *)

From stdpp Require Import functions.
From S2P Require Import Prelude UserAccess Creds.

(** ** Weakest preconditions *)

(** [m] does not panic in [w], and ends as [Q] says. *)
Definition wp {A} (m : Sys A) (Q : A -> World -> Prop) (w : World) : Prop :=
  match m w with Some (a, w') => Q a w' | None => False end.

Lemma wp_ret {A} (a : A) Q w : Q a w -> wp (ret a) Q w.
Proof. done. Qed.

Lemma wp_err e Q w : Q (u64 e) w -> wp (err e) Q w.
Proof. done. Qed.

Lemma wp_bind {A B} (m : Sys A) (f : A -> Sys B) Q w : wp m (fun a => wp (f a) Q) w -> wp (m ≫= f) Q w.
Proof. unfold wp, mbind, Sys_bind. by destruct (m w) as [[a w']|]. Qed.

Lemma wp_gets {A} (f : World -> A) Q w : Q (f w) w -> wp (gets f) Q w.
Proof. done. Qed.

Lemma wp_with_lock {A} l (m : Sys A) Q w :
  l ∉ held w -> wp m (fun a w' => Q a (set_held (held w) w')) (set_held (l :: held w) w) -> wp (with_lock l m) Q w.
Proof. unfold wp, with_lock. intros Hl. rewrite decide_False by done. by destruct (m _) as [[a w']|]. Qed.

Lemma wp_read {A} l p (f : Process -> A) Q w : l p ∉ held w -> Q (f (procs w p)) (set_held (held w) w) -> wp (read l p f) Q w.
Proof. intros Hl HQ. apply wp_with_lock; [done|]. by apply wp_gets. Qed.

Lemma wp_update p f Q w : Q tt (set_procs (<[p := f (procs w p)]> (procs w)) w) -> wp (update p f) Q w.
Proof. done. Qed.

Lemma wp_to_user ptr l Q w : (forall b m, Q b (set_umem m w)) -> wp (to_user ptr l) Q w.
Proof. intros HQ. unfold wp, to_user. by destruct (copy_to_user _ _ _). Qed.

Lemma wp_mono {A} (m : Sys A) (Q R : A -> World -> Prop) w : wp m Q w -> (forall a w', Q a w' -> R a w') -> wp m R w.
Proof. unfold wp. destruct (m w) as [[a w']|]; auto. Qed.

(** ** What a call may do *)

(** A call of process [p], with no lock held. *)
Definition in_call (p : Z) (w : World) : Prop := held w = [] /\ current_process w = Some p /\ cpu_process w = Some p.

(** Everything but the processes and user memory. *)
Definition same_frame (w w' : World) : Prop :=
  held w' = held w /\ current_process w' = current_process w /\ cpu_process w' = cpu_process w /\ process_table w' = process_table w.

Ltac free_lock := cbn [held set_held set_procs set_umem]; rewrite ?not_elem_of_cons; split_and?; first [discriminate | apply not_elem_of_nil].

(** One step of a call: a rule for its head, or the cases of its branch. *)
Ltac wp_step :=
  match goal with
  | |- wp (ret _) _ _ => apply wp_ret
  | |- wp (err _) _ _ => apply wp_err
  | |- wp (_ ≫= _) _ _ => apply wp_bind
  | |- wp (gets _) _ _ => apply wp_gets
  | |- wp (read _ _ _) _ _ => apply wp_read; [free_lock|]
  | |- wp (with_lock _ _) _ _ => apply wp_with_lock; [free_lock|]
  | |- wp (update _ _) _ _ => apply wp_update
  | |- wp (to_user _ _) _ _ => apply wp_to_user; intros ? ?
  | |- wp (if ?b then _ else _) _ _ => destruct b eqn:?
  | |- wp (match ?x with Some _ => _ | None => _ end) _ _ => destruct x eqn:?
  | |- wp (match ?x with inl _ => _ | inr _ => _ end) _ _ => destruct x eqn:?
  | |- wp (let '(_, _) := ?x in _) _ _ => destruct x eqn:?
  | |- wp clone_current _ _ => unfold clone_current
  | |- wp (in_table _) _ _ => unfold in_table
  | |- wp (from_user _ _) _ _ => unfold from_user
  | |- wp (set_creds _ _) _ _ => unfold set_creds
  | |- wp get_current_process _ _ => unfold get_current_process
  | |- wp (has_capability _) _ _ => unfold has_capability
  | |- wp audit_log _ _ => unfold audit_log
  | |- wp (get_id _) _ _ => unfold get_id
  end;
  cbn [held current_process cpu_process process_table procs umem set_held set_procs set_umem] in *.

Lemma wp_put_ids l Q w : (forall v m, Q v (set_umem m w)) -> wp (put_ids l) Q w.
Proof.
  intros HQ. assert (Hm : forall m, wp (put_ids l) Q (set_umem m w)).
  { induction l as [|[v ptr] l IH]; intros m; cbn [put_ids]; [apply HQ|]. destruct (ptr =? 0); [apply IH|].
    apply wp_bind, wp_to_user. intros b m'. destruct (negb b); [apply HQ|apply IH]. }
  specialize (Hm (umem w)). by destruct w.
Qed.

(** Of the calls, two take the lock on the credentials and then ask for a
    capability. *)
Definition sets_res (c : Call) : bool := match c with Setresuid _ _ _ | Setresgid _ _ _ => true | _ => false end.

Lemma call_returns p c w : in_call p w -> sets_res c = false -> wp (call c) (fun _ w' => same_frame w w') w.
Proof.
  destruct w as [h cur cpu tbl pr um]. intros (Hh & Hc & Hp) Hs. cbn in Hh, Hc, Hp. subst.
  destruct c; try discriminate Hs; cbn [call];
    unfold sys_setpgid, sys_getpgrp, sys_getpgid, sys_setsid, sys_getsid, sys_getrlimit, sys_setrlimit, sys_prlimit64,
      sys_getuid, sys_getgid, sys_geteuid, sys_getegid, sys_setuid, sys_setgid, sys_getresuid, sys_getresgid, sys_capget,
      sys_capset, sys_getgroups, sys_setgroups, sys_getrusage; cbv zeta; repeat wp_step; try done.
  all: apply wp_put_ids; intros; done.
Qed.

Lemma get_current w p : cpu_process w = Some p -> get_current_process w = Some (Some p, w).
Proof. intros H. unfold get_current_process, gets, mbind, Sys_bind. by rewrite H. Qed.

Lemma capability_panics p cap w : cpu_process w = Some p -> LCreds p ∈ held w -> has_capability cap w = None.
Proof.
  intros Hc Hl. unfold has_capability. unfold mbind at 1, Sys_bind. rewrite (get_current w p Hc).
  unfold read, with_lock. by rewrite decide_True.
Qed.

Lemma bind_current {A} w p (k : option Z -> Sys A) : cpu_process w = Some p -> (get_current_process ≫= k) w = k (Some p) w.
Proof. intros H. unfold mbind at 1, Sys_bind. by rewrite (get_current w p H). Qed.

Lemma guarded_capability {A} p cap (f : bool -> Sys A) w :
  cpu_process w = Some p -> with_lock (LCreds p) (has_capability cap ≫= f) w = None.
Proof.
  intros Hc. unfold with_lock. destruct (decide _); [done|]. unfold mbind at 1, Sys_bind.
  by rewrite (capability_panics p) by (done || left).
Qed.

Lemma setres_panics p c w : in_call p w -> sets_res c = true -> call c w = None.
Proof.
  intros (_ & _ & Hc) Hs. destruct c; try discriminate Hs; cbn [call]; unfold sys_setresuid, sys_setresgid.
  all: rewrite (bind_current w p _ Hc); by apply guarded_capability.
Qed.

(** The calls and their locks. In a call of a process on its CPU, with no
    lock held, whatever the credentials, limits and arguments: each of the
    calls returns and has released every lock it took, and [current_process]
    and the process table are as before; except [setresuid] and [setresgid],
    which always panic, since they hold the credentials when they ask for the
    capability. *)
Theorem creds_locks p c w :
  in_call p w ->
  if sets_res c then call c w = None
  else exists r w', call c w = Some (r, w') /\ same_frame w w'.
Proof.
  intros Hw. destruct (sets_res c) eqn:Hs; [by apply (setres_panics p)|].
  pose proof (call_returns p c w Hw Hs) as H. unfold wp in H. destruct (call c w) as [[r w']|]; [eauto|done].
Qed.

(** ** Confinement *)

Definition powers : list Z := [CAP_SETUID; CAP_SETGID; CAP_SETPCAP; CAP_SYS_ADMIN].

(** Not the superuser, not in its group, and without the capabilities. *)
Definition unprivileged (c : Credentials) : Prop :=
  euid c <> 0 /\ egid c <> 0 /\ Forall (fun cap => Z.land (cap_effective c) cap = 0) powers.

(** The real ids may become the effective ones; the rest is the same. *)
Definition own_creds (c c' : Credentials) : Prop :=
  set_uid (uid c) (set_gid (gid c) c') = c /\ (uid c' = uid c \/ uid c' = euid c) /\ (gid c' = gid c \/ gid c' = egid c).

(** Hard limits do not rise. *)
Definition lowered (l l' : ResourceLimits) : Prop :=
  length (rlim_max l') = length (rlim_max l) /\ length (rlim_cur l') = length (rlim_cur l) /\
  forall i m', rlim_max l' !! i = Some m' -> exists m, rlim_max l !! i = Some m /\ m' <= m.

(** What calls of [p], whose children are [kids], may do to process [q]. *)
Definition confined (p : Z) (kids : list Z) (q : Z) (a b : Process) : Prop :=
  children b = children a /\ groups b = groups a /\ p_umask b = p_umask a /\
  if decide (q = p) then
    own_creds (creds a) (creds b) /\ lowered (limits a) (limits b) /\
    (session (identity b) = session (identity a) \/ session (identity b) = p)
  else
    creds b = creds a /\ limits b = limits a /\ session (identity b) = session (identity a) /\
    (identity b = identity a \/ q ∈ kids).

Lemma own_creds_refl c : own_creds c c.
Proof. split_and!; [by destruct c|auto..]. Qed.

Lemma lowered_refl l : lowered l l.
Proof. split_and!; [done..|]. intros i m H. exists m. split; [done|lia]. Qed.

Lemma confined_refl p kids q a : confined p kids q a a.
Proof. split_and!; [done..|]. destruct (decide _); split_and!; auto using own_creds_refl, lowered_refl. Qed.

Lemma own_creds_euid c c' : own_creds c c' -> euid c' = euid c /\ egid c' = egid c /\ cap_effective c' = cap_effective c.
Proof. intros [<- _]. by destruct c'. Qed.

Lemma own_creds_trans c1 c2 c3 : own_creds c1 c2 -> own_creds c2 c3 -> own_creds c1 c3.
Proof.
  intros H1 H2. pose proof (own_creds_euid _ _ H1) as (E1 & E2 & _). destruct H1 as (F1 & U1 & G1), H2 as (F2 & U2 & G2).
  split_and!; [|rewrite E1 in U2; destruct U2; subst; intuition congruence|rewrite E2 in G2; destruct G2; intuition congruence].
  transitivity (set_uid (uid c1) (set_gid (gid c1) c2)); [|done]. rewrite <- F2. by destruct c3.
Qed.

Lemma lowered_trans l1 l2 l3 : lowered l1 l2 -> lowered l2 l3 -> lowered l1 l3.
Proof.
  intros (A1 & B1 & H1) (A2 & B2 & H2). split_and!; [congruence..|]. intros i m3 H.
  destruct (H2 _ _ H) as (m2 & E2 & ?). destruct (H1 _ _ E2) as (m1 & E1 & ?). exists m1. split; [done|lia].
Qed.

Lemma confined_trans p kids q a b c : confined p kids q a b -> confined p kids q b c -> confined p kids q a c.
Proof.
  intros (A1 & B1 & C1 & H1) (A2 & B2 & C2 & H2). split_and!; [congruence..|].
  destruct (decide (q = p)).
  - destruct H1 as (? & ? & S1), H2 as (? & ? & S2). split_and!; [by eapply own_creds_trans|by eapply lowered_trans|].
    destruct S2 as [->|]; auto.
  - destruct H1 as (? & ? & ? & I1), H2 as (? & ? & ? & I2). split_and!; [congruence..|]. destruct I1, I2; auto. left. congruence.
Qed.

(** The frame, and every process. *)
Definition step_ok (p : Z) (w w' : World) : Prop :=
  same_frame w w' /\ forall q, confined p (children (procs w p)) q (procs w q) (procs w' q).

Lemma confined_insert p kids (pr : Z -> Process) t b :
  confined p kids t (pr t) b -> forall q, confined p kids q (pr q) ((<[t := b]> pr : Z -> Process) q).
Proof.
  intros Hb q. destruct (decide (t = q)) as [<-|]; [by rewrite fn_lookup_insert|].
  rewrite fn_lookup_insert_ne by done. apply confined_refl.
Qed.

Lemma set_limit_lowered r c m l : (limit_at (rlim_max l) r <? m) = false -> lowered l (set_limit r c m l).
Proof.
  intros Hm. split_and!; [apply length_insert..|]. intros i m'. cbn [rlim_max set_limit]. unfold limit_at in Hm.
  destruct (decide (i = Z.to_nat r)) as [->|]; [|rewrite list_lookup_insert_ne by done; intros; exists m'; split; [done|lia]].
  destruct (rlim_max l !! Z.to_nat r) as [m0|] eqn:E.
  - rewrite list_lookup_insert_eq by (by eapply lookup_lt_Some). intros [= <-]. exists m0. split; [done|]. cbn in Hm. lia.
  - rewrite list_insert_ge by (by apply lookup_ge_None_1). congruence.
Qed.

Lemma confined_own p kids a b :
  children b = children a -> groups b = groups a -> p_umask b = p_umask a ->
  own_creds (creds a) (creds b) -> lowered (limits a) (limits b) ->
  session (identity b) = session (identity a) \/ session (identity b) = p -> confined p kids p a b.
Proof. intros. split_and!; [done..|]. rewrite decide_True by done. auto. Qed.

Lemma confined_pgid p kids t a g :
  t = p \/ t ∈ kids ->
  confined p kids t a (with_identity (mkIdentity g (session (identity a)) (is_group_leader (identity a))) a).
Proof.
  intros Ht. destruct (decide (t = p)) as [->|]; [apply confined_own; cbn; auto using own_creds_refl, lowered_refl|].
  split_and!; [done..|]. rewrite decide_False by done. cbn. destruct Ht; [done|auto].
Qed.

Lemma confined_session p kids a g l : confined p kids p a (with_identity (mkIdentity g p l) a).
Proof. apply confined_own; cbn; auto using own_creds_refl, lowered_refl. Qed.

Lemma confined_limits p kids a r c m :
  (limit_at (rlim_max (limits a)) r <? m) = false -> confined p kids p a (with_limits (set_limit r c m (limits a)) a).
Proof. intros H. apply confined_own; cbn; auto using own_creds_refl, set_limit_lowered. Qed.

Lemma confined_uid p kids a x : (euid (creds a) =? x) = true -> confined p kids p a (with_creds (set_uid x (creds a)) a).
Proof.
  intros <-%Z.eqb_eq. apply confined_own; cbn; auto using lowered_refl. split_and!; [by destruct (creds a)|cbn; auto..].
Qed.

Lemma confined_gid p kids a x : (egid (creds a) =? x) = true -> confined p kids p a (with_creds (set_gid x (creds a)) a).
Proof.
  intros <-%Z.eqb_eq. apply confined_own; cbn; auto using lowered_refl. split_and!; [by destruct (creds a)|cbn; auto..].
Qed.

Lemma call_confined p c w :
  in_call p w -> unprivileged (creds (procs w p)) -> sets_res c = false -> wp (call c) (fun _ w' => step_ok p w w') w.
Proof.
  destruct w as [h cur cpu tbl pr um]. intros (Hh & Hc & Hp) (He & Hg & Hcaps) Hs. cbn in Hh, Hc, Hp, He, Hg, Hcaps. subst.
  unfold powers in Hcaps. rewrite !Forall_cons in Hcaps. destruct Hcaps as (C1 & C2 & C3 & C4 & _). apply Z.eqb_neq in He, Hg.
  destruct c; try discriminate Hs; cbn [call];
    unfold sys_setpgid, sys_getpgrp, sys_getpgid, sys_setsid, sys_getsid, sys_getrlimit, sys_setrlimit, sys_prlimit64,
      sys_getuid, sys_getgid, sys_geteuid, sys_getegid, sys_setuid, sys_setgid, sys_getresuid, sys_getresgid, sys_capget,
      sys_capset, sys_getgroups, sys_setgroups, sys_getrusage; cbv zeta;
    repeat (wp_step; rewrite ?He, ?Hg, ?C1, ?C2, ?C3, ?C4; cbn [Z.eqb negb orb andb] in * );
    try (split; [done|]; cbn [procs]; intros q; apply confined_refl).
  all: try (apply wp_put_ids; intros; split; [done|]; cbn [procs set_umem]; intros q; apply confined_refl).
  all: split; [done|]; cbn [procs]; apply confined_insert.
  all: first [apply confined_pgid | apply confined_session | by apply confined_limits | by apply confined_uid | by apply confined_gid].
  1,2: left; by apply Z.eqb_eq.
  all: right; by eapply bool_decide_eq_true_1.
Qed.

(** A sequence of calls, with what each returns. *)
Fixpoint calls (l : list Call) : Sys (list Z) :=
  match l with
  | [] => ret []
  | c :: l => r ← call c; rs ← calls l; ret (r :: rs)
  end.

Lemma unprivileged_own c c' : unprivileged c -> own_creds c c' -> unprivileged c'.
Proof. intros (He & Hg & Hc) H. destruct (own_creds_euid _ _ H) as (E1 & E2 & E3). unfold unprivileged. by rewrite E1, E2, E3. Qed.

Lemma calls_confined p l w :
  in_call p w -> unprivileged (creds (procs w p)) -> Forall (fun c => sets_res c = false) l ->
  wp (calls l) (fun _ w' => step_ok p w w') w.
Proof.
  intros Hw Hu Hl. revert w Hw Hu. induction Hl as [|c l Hc _ IH]; intros w Hw Hu; cbn [calls].
  { split; [done|]. intros q. apply confined_refl. }
  apply wp_bind. eapply wp_mono; [by apply call_confined|]. intros r w1 [F1 S1]. apply wp_bind.
  pose proof (S1 p) as (Hk & _ & _ & Ho). rewrite decide_True in Ho by done. destruct F1 as (A1 & A2 & A3 & A4).
  eapply wp_mono; [apply IH|].
  - destruct Hw as (? & ? & ?). split_and!; congruence.
  - apply (unprivileged_own _ _ Hu), Ho.
  - intros rs w2 [(B1 & B2 & B3 & B4) S2]. rewrite Hk in S2. apply wp_ret. split; [split_and!; congruence|].
    intros q. by eapply confined_trans.
Qed.


(** ** Examples *)

Definition user (u : Z) : Process :=
  mkProcess [] (mkCreds u u u u u u u u 0 0 0 18) (mkIdentity 1 1 false) (mkLimits (replicate 16 5) (replicate 16 9)) [] 18 0 0 0 0 [].

(** Process 7 of user 1000; a limit of 4 and 9 at address 64. *)
Definition example_world : World :=
  mkWorld [] (Some 7) (Some 7) [7; 8] (fun p => user (if p =? 7 then 1000 else 0))
    (list_to_map (zip (Z.of_nat <$> seq 64 16) (rlimit_bytes 4 9))).

Lemma creds_locks_witness :
  call (Setresuid 1000 1000 1000) example_world = None /\
  exists r w', call (Setuid 0) example_world = Some (r, w') /\ same_frame example_world w'.
Proof.
  split.
  - exact (creds_locks 7 (Setresuid 1000 1000 1000) example_world (conj eq_refl (conj eq_refl eq_refl))).
  - exact (creds_locks 7 (Setuid 0) example_world (conj eq_refl (conj eq_refl eq_refl))).
Defined.


(** A new process has its parent's ids, capabilities, mask and groups. *)
Lemma clone_credentials p q w :
  held w = [] -> p <> q ->
  wp (clone_credentials_from p q)
    (fun _ w' => same_frame w w' /\ groups (procs w' p) = groups (procs w q) /\ p_umask (procs w' p) = p_umask (procs w q) /\
       creds (procs w' p) = (let c := creds (procs w q) in
         mkCreds (uid c) (gid c) (euid c) (egid c) (suid c) (sgid c) (fsuid c) (fsgid c)
           (cap_effective c) (cap_permitted c) (cap_inheritable c) (c_umask (creds (procs w p)))) /\
       forall r, r <> p -> procs w' r = procs w r) w.
Proof.
  destruct w as [h cur cpu tbl pr um]. cbn. intros -> Hpq.
  assert (Hl : forall (l : Z -> Lock) L, (forall a b, l a = l b -> a = b) -> l p ∉ L -> l p ∉ l q :: L).
  { intros l L Hi HL. rewrite not_elem_of_cons. split; [|done]. by intros ?%Hi. }
  unfold clone_credentials_from.
  repeat (first [apply wp_with_lock; [cbn [held set_held set_procs]; first [free_lock | apply Hl; [congruence|free_lock]]|] | wp_step];
          cbn [held current_process cpu_process process_table procs umem set_held set_procs set_umem] in * ).
  split; [done|]. rewrite !fn_lookup_insert. cbn. rewrite !fn_lookup_insert_ne by done. split_and!; [done..|].
  intros r Hr. by rewrite !fn_lookup_insert_ne by done.
Qed.

(** The superuser that gives up its user keeps the saved and the file system
    id. *)
Example setuid_keeps_saved :
  (c ← (fun x => creds (procs x.2 8)) <$> call (Setuid 1000) (mkWorld [] (Some 8) (Some 8) [8] (fun _ => user 0) ∅);
   Some (uid c, euid c, suid c, fsuid c)) = Some (1000, 1000, 0, 0).
Proof. vm_compute. reflexivity. Qed.

(** Group 0 is enough to take any group. *)
Example setgid_of_group_zero :
  let q := with_creds (mkCreds 1000 1000 1000 0 1000 1000 1000 1000 0 0 0 18) (user 1000) in
  (c ← (fun x => creds (procs x.2 8)) <$> call (Setgid 42) (mkWorld [] (Some 8) (Some 8) [8] (fun _ => q) ∅);
   Some (euid c, gid c, egid c)) = Some (1000, 42, 42).
Proof. vm_compute. reflexivity. Qed.

(** The privilege is that of this CPU's process, the change is made to
    [CURRENT_PROCESS]: process 8 of the superuser, on this CPU, makes process
    7, which another CPU has just switched to, the superuser's. *)
Example setuid_of_another_process :
  (c ← (fun x => creds (procs x.2 7)) <$>
     call (Setuid 0) (mkWorld [] (Some 7) (Some 8) [7; 8] (fun p => user (if p =? 7 then 1000 else 0)) ∅);
   Some (uid c, euid c)) = Some (0, 0).
Proof. vm_compute. reflexivity. Qed.

(** The superuser may not raise the limit of another user's process. *)
Example prlimit_tests_the_target :
  fst <$> call (Prlimit64 7 0 64 0)
    (mkWorld [] (Some 8) (Some 8) [7; 8] (fun p => user (if p =? 7 then 1000 else 0))
       (list_to_map (zip (Z.of_nat <$> seq 64 16) (rlimit_bytes 4 10)))) = Some (u64 Errno.EPERM).
Proof. vm_compute. reflexivity. Qed.
