(* ===== verification/Futex.v ===== *)
(** * Futexes

    Model of [kernel/src/syscalls/futex.rs]. The calls of different threads
    interleave, so a thread in a call has a program counter, and a step is what
    it does up to its next access to shared memory: the futex word, the queue
    of the scheduler, the table of owners. User memory is that of
    [UserAccess]; the queue is [Sched]'s [futex_queue], here with the thread
    and its address only. All threads see the same memory. *)

From stdpp Require Import gmap functions.
From S2P Require Import Prelude UserAccess.

Definition FUTEX_WAITERS : Z := 0x80000000.
Definition PID_MASK : Z := 0x7FFFFFFF.

Definition read_user_u32 (m : UserMem) (uaddr : Z) : option Z := le_value <$> copy_from_user m uaddr 4.

(** The word before, and the memory after. *)
Definition user_cas_u32 (m : UserMem) (uaddr expected new : Z) : option (Z * UserMem) :=
  if negb (validate_ptr uaddr 4) then None
  else
    prev ← read_user_u32 m uaddr;
    Some (prev, if prev =? expected then (user_write m uaddr (le_bytes 4 new)).2 else m).

(** Where a thread is. The calls begin at [WaitRead], [LockFirst],
    [UnlockRead], [Wake] and [Requeue]. *)
Inductive PC :=
| WaitRead (uaddr expected : Z)
| BlockSignal (uaddr : Z)       (* about to look for a signal *)
| BlockMark (uaddr : Z)         (* about to mark itself blocked *)
| BlockLeave (uaddr : Z)        (* blocked, about to leave the CPU *)
| Queued (uaddr : Z)
| LockFirst (uaddr : Z)
| LockLoop (uaddr current : Z)
| LockRecord (uaddr : Z)        (* has the word, about to enter [PI_OWNERS] *)
| UnlockRead (uaddr : Z)
| UnlockLoop (uaddr prev : Z)
| UnlockWake (uaddr prev : Z)
| UnlockRemove (uaddr : Z)
| Wake (uaddr val : Z)
| Requeue (uaddr val uaddr2 val2 : Z)
| RequeueRest (woken uaddr2 val2 : Z)
| Return (v : Z).

(** The log of the words taken and given back is the model's own. *)
Inductive Entry := Acquire (pid : Z) | Release (pid : Z).

Record State := mkState {
  umem : UserMem; pcs : nat -> PC; queue : list (nat * Z); pi_owners : gmap Z (Z * Z); log : list (Z * Entry) }.

Definition set_umem (m : UserMem) (s : State) : State := mkState m (pcs s) (queue s) (pi_owners s) (log s).
Definition set_pc (t : nat) (c : PC) (s : State) : State := mkState (umem s) (<[t := c]> (pcs s)) (queue s) (pi_owners s) (log s).
Definition set_queue (q : list (nat * Z)) (s : State) : State := mkState (umem s) (pcs s) q (pi_owners s) (log s).
Definition set_owners (o : gmap Z (Z * Z)) (s : State) : State := mkState (umem s) (pcs s) (queue s) o (log s).
Definition note (a : Z) (e : Entry) (s : State) : State := mkState (umem s) (pcs s) (queue s) (pi_owners s) ((a, e) :: log s).

(** [sys_futex]: where the call begins. *)
Definition sys_futex (uaddr op val val2 uaddr2 : Z) : PC :=
  if op =? 0 then WaitRead uaddr val
  else if op =? 1 then Wake uaddr val
  else if op =? 3 then Requeue uaddr val uaddr2 val2
  else if op =? 11 then LockFirst uaddr
  else if op =? 12 then UnlockRead uaddr
  else Return (u64 Errno.ENOSYS).

(** [drain_wake]: up to [max_wake] threads that match, in the order of the
    queue. *)
Fixpoint drain (matches : nat * Z -> bool) (max_wake : Z) (q : list (nat * Z)) : list nat * list (nat * Z) :=
  match q with
  | [] => ([], [])
  | x :: q =>
      if (0 <? max_wake) && matches x then let '(w, r) := drain matches (max_wake - 1) q in (x.1 :: w, r)
      else let '(w, r) := drain matches max_wake q in (w, x :: r)
  end.

(** A woken thread comes back from [schedule], and its call returns 0. *)
Definition wake_matching (matches : nat * Z -> bool) (max_wake : Z) (s : State) : Z * State :=
  let '(w, r) := drain matches max_wake (queue s) in
  (Z.of_nat (length w), foldr (fun t => set_pc t (Return 0)) (set_queue r s) w).

Definition wake_futex (uaddr max_wake : Z) (s : State) : Z * State := wake_matching (fun x => x.2 =? uaddr) max_wake s.

Section Threads.

(** The process of a thread, as an [u32], and its priority. *)
Context (pid prio : nat -> Z).

Definition wake_process_futex_threads (p : Z) (s : State) : Z * State := wake_matching (fun x => pid x.1 =? p) (M32 - 1) s.

(** The start of the wait path: [futex_wait]. *)
Definition futex_wait (t : nat) (uaddr expected : Z) (s : State) : State :=
  set_pc t (match read_user_u32 (umem s) uaddr with
            | None => Return (u64 Errno.EFAULT)
            | Some v => if negb (v =? expected) then Return (u64 Errno.EAGAIN) else BlockSignal uaddr
            end) s.

(** The end of [futex_wait] and of [futex_lock_pi]: the signal, the mark, and
    the queue that [schedule] puts the thread on. *)
Definition block (t : nat) (c : PC) (pending : bool) (s : State) : State :=
  match c with
  | BlockSignal a => set_pc t (if pending then Return (u64 Errno.EINTR) else BlockMark a) s
  | BlockMark a => set_pc t (BlockLeave a) s
  | BlockLeave a => set_pc t (Queued a) (set_queue (queue s ++ [(t, a)]) s)
  | _ => s
  end.

(** One attempt to take a free word; [k] is where the previous word leads. *)
Definition claim (t : nat) (uaddr : Z) (k : Z -> PC) (s : State) : State :=
  match user_cas_u32 (umem s) uaddr 0 (pid t) with
  | None => set_pc t (Return (u64 Errno.EFAULT)) s
  | Some (prev, m) =>
      if prev =? 0 then note uaddr (Acquire (pid t)) (set_pc t (LockRecord uaddr) (set_umem m s))
      else set_pc t (k prev) (set_umem m s)
  end.

(** [futex_lock_pi]. [boost_thread_priority] does nothing. *)
Definition futex_lock_pi (t : nat) (c : PC) (s : State) : State :=
  match c with
  | LockFirst a => if pid t =? 0 then set_pc t (Return (u64 Errno.ESRCH)) s else claim t a (LockLoop a) s
  | LockLoop a current =>
      if Z.land current PID_MASK =? 0
      then claim t a (fun prev => if Z.land prev PID_MASK =? 0 then BlockSignal a else LockLoop a prev) s
      else if negb (Z.land current FUTEX_WAITERS =? 0) then set_pc t (BlockSignal a) s
      else
        match user_cas_u32 (umem s) a current (Z.lor current FUTEX_WAITERS) with
        | None => set_pc t (Return (u64 Errno.EFAULT)) s
        | Some (prev, m) => set_pc t (if prev =? current then BlockSignal a else LockLoop a prev) (set_umem m s)
        end
  | LockRecord a => set_pc t (Return 0) (set_owners (<[a := (pid t, prio t)]> (pi_owners s)) s)
  | _ => s
  end.

(** [futex_unlock_pi] *)
Definition futex_unlock_pi (t : nat) (c : PC) (s : State) : State :=
  match c with
  | UnlockRead a =>
      if pid t =? 0 then set_pc t (Return (u64 Errno.ESRCH)) s
      else
        set_pc t (match read_user_u32 (umem s) a with
                  | None => Return (u64 Errno.EFAULT)
                  | Some v => UnlockLoop a v
                  end) s
  | UnlockLoop a prev =>
      if negb (Z.land prev PID_MASK =? pid t) then set_pc t (Return (u64 Errno.EPERM)) s
      else
        match user_cas_u32 (umem s) a prev 0 with
        | None => set_pc t (Return (u64 Errno.EFAULT)) s
        | Some (previous, m) =>
            if previous =? prev then note a (Release (pid t)) (set_pc t (UnlockWake a prev) (set_umem m s))
            else set_pc t (UnlockLoop a previous) (set_umem m s)
        end
  | UnlockWake a prev =>
      set_pc t (UnlockRemove a) (if Z.land prev FUTEX_WAITERS =? 0 then s else (wake_futex a 1 s).2)
  | UnlockRemove a => set_pc t (Return 0) (set_owners (delete a (pi_owners s)) s)
  | _ => s
  end.

(** The next step of a thread. [pending] is whether a signal is. *)
Definition step (t : nat) (pending : bool) (s : State) : State :=
  match pcs s t with
  | WaitRead a v => futex_wait t a v s
  | Wake a n => let '(w, s) := wake_futex a n s in set_pc t (Return w) s
  | Requeue a n b m =>
      let '(w, s) := wake_futex a n s in set_pc t (if 0 <? w then RequeueRest w b m else Return w) s
  | RequeueRest w b m => set_pc t (Return w) (wake_futex b m s).2
  | BlockSignal _ | BlockMark _ | BlockLeave _ => block t (pcs s t) pending s
  | LockFirst _ | LockLoop _ _ | LockRecord _ => futex_lock_pi t (pcs s t) s
  | UnlockRead _ | UnlockLoop _ _ | UnlockWake _ _ | UnlockRemove _ => futex_unlock_pi t (pcs s t) s
  | Queued _ | Return _ => s
  end.

(** What happens: a call of a thread that is in none, a step, and the waking of
    a process that gets a signal. *)
Inductive Event :=
| Invoke (t : nat) (uaddr op val val2 uaddr2 : Z)
| Step (t : nat) (pending : bool)
| Kick (p : Z).

Definition event (e : Event) (s : State) : State :=
  match e with
  | Invoke t a op v v2 b => match pcs s t with Return _ => set_pc t (sys_futex a op v v2 b) s | _ => s end
  | Step t pending => step t pending s
  | Kick p => (wake_process_futex_threads p s).2
  end.

Definition events (l : list Event) (s : State) : State := foldl (fun s e => event e s) s l.

End Threads.

(** ** The word *)

Lemma user_read_ext (m m' : UserMem) p n :
  (forall i, p <= i < p + Z.of_nat n -> m' !! i = m !! i) -> user_read m' p n = user_read m p n.
Proof.
  revert p. induction n as [|n IH]; intros p H; [done|]. cbn [user_read]. rewrite (H p) by lia.
  by rewrite IH by (intros i Hi; apply H; lia).
Qed.

(** A write of four bytes, as the words at [a] and elsewhere see it. *)
Lemma write_word m a n v :
  0 <= a -> validate_ptr a 4 = true -> read_user_u32 m a = Some v ->
  let m' := (user_write m a (le_bytes 4 n)).2 in
  read_user_u32 m' a = Some (u32 n) /\ forall b, b + 4 <= a \/ a + 4 <= b -> read_user_u32 m' b = read_user_u32 m b.
Proof.
  intros Ha Hv Hr. cbv zeta. unfold read_user_u32, copy_from_user in *. cbn [Z.of_nat] in *.
  change (Z.of_nat 4) with 4 in *. rewrite Hv in *. cbn [negb] in *.
  assert (Hm : mapped m a (length (le_bytes 4 n))).
  { rewrite length_le_bytes. apply mapped_read. destruct (user_read m a 4); [eauto|done]. }
  destruct (user_write_spec m a _ Hm) as (m' & E & _). rewrite E. cbn [snd].
  pose proof (copy_to_from m a (le_bytes 4 n) m' Ha) as Hrt. unfold copy_to_user, copy_from_user in Hrt.
  rewrite length_le_bytes in Hrt. change (Z.of_nat 4) with 4 in Hrt. rewrite Hv in Hrt. cbn [negb] in Hrt.
  split.
  - rewrite (Hrt E). cbn [fmap option_fmap option_map]. by rewrite le_value_le_bytes.
  - intros b Hb. destruct (user_write_domain _ _ _ _ _ E) as [_ Hd]. rewrite length_le_bytes in Hd.
    rewrite (user_read_ext m m' b 4); [done|]. intros i Hi. apply Hd. lia.
Qed.

Lemma cas_spec m a e n prev m' :
  0 <= a -> user_cas_u32 m a e n = Some (prev, m') ->
  read_user_u32 m a = Some prev /\
  ((prev = e /\ read_user_u32 m' a = Some (u32 n) /\ forall b, b + 4 <= a \/ a + 4 <= b -> read_user_u32 m' b = read_user_u32 m b) \/
   (prev <> e /\ m' = m)).
Proof.
  intros Ha. unfold user_cas_u32. destruct (validate_ptr a 4) eqn:Hv; cbn [negb]; [|done].
  destruct (read_user_u32 m a) as [v|] eqn:Hr; [|done]. cbn [mbind option_bind]. intros [= -> <-]. split; [done|].
  destruct (Z.eqb_spec prev e); [left|by right]. split; [done|]. by eapply write_word.
Qed.

(** ** Ownership *)

(** The entries of one address, the latest first. *)
Definition entries (a : Z) (l : list (Z * Entry)) : list Entry := snd <$> filter (fun x => x.1 = a) l.

Definition free (l : list Entry) : Prop := match l with [] | Release _ :: _ => True | _ => False end.

(** A word is taken only when it is free, and given back only by the process
    that took it. *)
Fixpoint alternating (l : list Entry) : Prop :=
  match l with
  | [] => True
  | Acquire _ :: l => free l /\ alternating l
  | Release p :: l => match l with Acquire q :: _ => p = q | _ => False end /\ alternating l
  end.

(** What the word says: nothing, or the owner, with or without waiters. *)
Definition word_ok (l : list Entry) (v : Z) : Prop :=
  match l with Acquire p :: _ => 0 < p < 2 ^ 31 /\ (v = p \/ v = Z.lor p FUTEX_WAITERS) | _ => v = 0 end.

Definition aligned (a : Z) : Prop := 0 <= a /\ a mod 4 = 0.

(** The address that a thread's call is on, where it writes. *)
Definition pc_ok (c : PC) : Prop :=
  match c with
  | LockFirst a | LockLoop a _ | UnlockRead a | UnlockLoop a _ => aligned a
  | _ => True
  end.

Definition event_ok (e : Event) : Prop := match e with Invoke _ a _ _ _ _ => aligned a | _ => True end.

Section Proofs.

Context (pid prio : nat -> Z) (Hpid : forall t, 0 < pid t < 2 ^ 31).

(** The word at [a] is known to be used as a lock only. *)
Definition owned (a : Z) (s : State) : Prop :=
  (forall t, pc_ok (pcs s t)) /\ alternating (entries a (log s)) /\
  exists v, read_user_u32 (umem s) a = Some v /\ word_ok (entries a (log s)) v.

Lemma aligned_disjoint a b : aligned a -> aligned b -> a <> b -> b + 4 <= a \/ a + 4 <= b.
Proof using. unfold aligned. Z.to_euclidean_division_equations; lia. Qed.

Lemma owner_bits p v : 0 < p < 2 ^ 31 -> v = p \/ v = Z.lor p FUTEX_WAITERS ->
  Z.land v PID_MASK = p /\ v <> 0 /\ (Z.land v FUTEX_WAITERS = 0 -> v = p).
Proof using.
  intros Hp Hv. assert (E1 : Z.land p PID_MASK = p).
  { change PID_MASK with (Z.ones 31). rewrite Z.land_ones by lia. apply Z.mod_small. lia. }
  assert (E2 : Z.land (Z.lor p FUTEX_WAITERS) PID_MASK = p) by (rewrite Z.land_lor_distr_l, E1; apply Z.lor_0_r).
  destruct Hv as [->| ->]; split_and!; try done.
  - lia.
  - intros E. rewrite E, Z.land_0_l in E2. lia.
  - rewrite Z.land_lor_distr_l. intros [_ E]%Z.lor_eq_0_iff. done.
Qed.

Lemma waiters_range p : 0 < p < 2 ^ 31 -> u32 (Z.lor p FUTEX_WAITERS) = Z.lor p FUTEX_WAITERS.
Proof using.
  intros Hp. apply Z.mod_small. split; [apply Z.lor_nonneg; unfold FUTEX_WAITERS; lia|].
  assert (Hl : Z.land p FUTEX_WAITERS = 0).
  { apply Z.bits_inj'. intros i Hi. rewrite Z.land_spec, Z.testbit_0_l. change FUTEX_WAITERS with (2 ^ 31).
    rewrite Z.pow2_bits_eqb by lia. destruct (Z.eqb_spec 31 i) as [<-|]; [|apply andb_false_r].
    rewrite andb_true_r. apply Z.bits_above_log2; [lia|]. apply Z.log2_lt_pow2; lia. }
  rewrite <- Z.lxor_lor, <- Z.add_nocarry_lxor by exact Hl. unfold FUTEX_WAITERS. lia.
Qed.

Lemma entries_note a b e s :
  entries a (log (note b e s)) = if decide (b = a) then e :: entries a (log s) else entries a (log s).
Proof using. unfold entries, note. cbn [log]. rewrite filter_cons. cbn [fst]. by destruct (decide (b = a)). Qed.

(** Steps that change neither the words nor the log. *)
Definition quiet (s s' : State) : Prop := umem s' = umem s /\ log s' = log s.

Lemma owned_quiet a s s' : owned a s -> quiet s s' -> (forall t, pc_ok (pcs s' t)) -> owned a s'.
Proof using. intros (_ & Ha & Hv) [Em El] Hp. unfold owned. by rewrite Em, El. Qed.

Lemma pcs_set t c s : pc_ok c -> (forall u, pc_ok (pcs s u)) -> forall u, pc_ok (pcs (set_pc t c s) u).
Proof using.
  intros Hc Hs u. cbn. destruct (decide (t = u)) as [<-|]; [by rewrite fn_lookup_insert|by rewrite fn_lookup_insert_ne].
Qed.

Lemma wake_quiet f n s : quiet s (wake_matching f n s).2 /\
  ((forall u, pc_ok (pcs s u)) -> forall u, pc_ok (pcs (wake_matching f n s).2 u)).
Proof using.
  unfold wake_matching. destruct (drain f n (queue s)) as [w r]. cbn [snd].
  induction w as [|t w [IH1 IH2]]; cbn [foldr]; [done|]. split; [done|]. intros Hs. apply pcs_set; [done|auto].
Qed.

Lemma owned_set a t c s : owned a s -> pc_ok c -> owned a (set_pc t c s).
Proof using. intros H Hc. eapply owned_quiet; [exact H|done|]. apply pcs_set; [done|apply H]. Qed.

Lemma owned_wake a f n s : owned a s -> owned a (wake_matching f n s).2.
Proof using. intros H. destruct (wake_quiet f n s) as [Hq Hp]. eapply owned_quiet; [exact H|done|]. apply Hp, H. Qed.

(** A word that is changed at another address, or not changed. *)
Lemma owned_umem a b s m' :
  owned a s -> b <> a -> aligned a -> aligned b ->
  (forall c, c + 4 <= b \/ b + 4 <= c -> read_user_u32 m' c = read_user_u32 (umem s) c) -> owned a (set_umem m' s).
Proof using.
  intros (Hp & Ha & v & Hv & Hw) Hne HA HB Hm. split_and!; [done..|]. exists v. split; [|done]. cbn [umem set_umem].
  rewrite Hm; [done|]. pose proof (aligned_disjoint b a HB HA ltac:(done)). lia.
Qed.

Lemma owned_note_ne a b e s : owned a s -> b <> a -> owned a (note b e s).
Proof using.
  intros (Hp & Ha & Hv) Hne. unfold owned. rewrite entries_note. rewrite decide_False by done. done.
Qed.

(** A compare-and-swap at [b] that keeps the invariant of [a]: the case of a
    change at [a] is the caller's. *)
Lemma owned_cas a b e n prev m' s :
  owned a s -> aligned a -> aligned b -> user_cas_u32 (umem s) b e n = Some (prev, m') ->
  (b <> a \/ prev <> e) /\ owned a (set_umem m' s) \/
  (b = a /\ prev = e /\ read_user_u32 (umem s) a = Some e /\ read_user_u32 m' a = Some (u32 n)).
Proof using.
  intros H HA HB E. destruct (cas_spec _ _ _ _ _ _ (proj1 HB) E) as [Hr [(-> & Hn & Ho)|[Hne ->]]].
  - destruct (decide (b = a)) as [->|Hne]; [by right|]. left. split; [by left|]. by eapply owned_umem.
  - left. split; [by right|]. by destruct s.
Qed.

Lemma word_owner l v : word_ok l v -> v <> 0 -> exists p l', l = Acquire p :: l' /\ 0 < p < 2 ^ 31 /\ Z.land v PID_MASK = p /\
  (Z.land v FUTEX_WAITERS = 0 -> v = p).
Proof using.
  destruct l as [|[p|p] l]; [done| |done]. intros [Hp Hv] _. destruct (owner_bits p v Hp Hv) as (? & _ & ?). eauto 10.
Qed.

Lemma owned_take a t s m' :
  owned a s -> read_user_u32 (umem s) a = Some 0 -> read_user_u32 m' a = Some (u32 (pid t)) ->
  owned a (note a (Acquire (pid t)) (set_pc t (LockRecord a) (set_umem m' s))).
Proof using Hpid.
  intros (Hp & Ha & v & Hv & Hw) H0 Hn. assert (v = 0) as -> by congruence. split; [by apply pcs_set|].
  rewrite entries_note, decide_True by done. cbn [log set_pc set_umem umem note]. split.
  - split; [|done]. destruct (entries a (log s)) as [|[p|p] l]; [done| |done]. destruct Hw as [Hr Hw].
    by destruct (owner_bits p 0 Hr Hw) as (_ & ? & _).
  - eexists. split; [exact Hn|]. split; [apply Hpid|]. left. apply Z.mod_small. specialize (Hpid t). lia.
Qed.

Lemma owned_wait_bit a s m' current :
  owned a s -> Z.land current PID_MASK <> 0 -> Z.land current FUTEX_WAITERS = 0 ->
  read_user_u32 (umem s) a = Some current -> read_user_u32 m' a = Some (u32 (Z.lor current FUTEX_WAITERS)) ->
  owned a (set_umem m' s).
Proof using.
  intros (Hp & Ha & v & Hv & Hw) Hm Hb H0 Hn. assert (v = current) as -> by congruence.
  destruct (word_owner _ _ Hw) as (p & l & El & Hr & _ & Hc); [by intros ->|]. specialize (Hc Hb) as ->.
  split_and!; [done..|]. eexists. split; [exact Hn|]. cbn [log set_umem]. rewrite El, waiters_range by done.
  split; [done|by right].
Qed.

Lemma owned_give a t s m' prev :
  owned a s -> Z.land prev PID_MASK = pid t -> read_user_u32 (umem s) a = Some prev -> read_user_u32 m' a = Some 0 ->
  owned a (note a (Release (pid t)) (set_pc t (UnlockWake a prev) (set_umem m' s))).
Proof using Hpid.
  intros (Hp & Ha & v & Hv & Hw) Hm H0 Hn. assert (v = prev) as -> by congruence. specialize (Hpid t).
  destruct (word_owner _ _ Hw) as (p & l & El & _ & Hq & _); [intros ->; rewrite Z.land_0_l in Hm; lia|].
  split; [by apply pcs_set|]. rewrite entries_note, decide_True by done. cbn [log set_pc set_umem umem note]. split.
  - split; [|done]. rewrite El. congruence.
  - by exists 0.
Qed.

Lemma owned_claim a b t k s :
  owned a s -> aligned a -> aligned b -> (forall v, pc_ok (k v)) -> owned a (claim pid t b k s).
Proof using Hpid.
  intros H HA HB Hk. unfold claim. destruct (user_cas_u32 _ _ _ _) as [[prev m']|] eqn:E; [|by apply owned_set].
  destruct (owned_cas a b _ _ _ _ _ H HA HB E) as [[Hne Ho]|(-> & -> & H0 & Hn)].
  - destruct (Z.eqb_spec prev 0); [|by apply owned_set]. destruct Hne; [|done]. apply owned_note_ne; [|done]. by apply owned_set.
  - by apply owned_take.
Qed.

Lemma owned_lock a t s c : owned a s -> aligned a -> pc_ok c -> owned a (futex_lock_pi pid prio t c s).
Proof using Hpid.
  intros H HA Hc. destruct c as [| | | | | b|b current|b| | | | | | | |]; try done; cbn [futex_lock_pi].
  - destruct (pid t =? 0); [by apply owned_set|]. by apply owned_claim.
  - destruct (Z.eqb_spec (Z.land current PID_MASK) 0).
    { apply owned_claim; [done..|]. intros v. by destruct (Z.land v PID_MASK =? 0). }
    destruct (Z.eqb_spec (Z.land current FUTEX_WAITERS) 0); cbn [negb]; [|by apply owned_set].
    destruct (user_cas_u32 _ _ _ _) as [[prev m']|] eqn:E; [|by apply owned_set].
    apply owned_set; [|by destruct (prev =? current)].
    destruct (owned_cas a b _ _ _ _ _ H HA Hc E) as [[_ Ho]|(-> & -> & H0 & Hn)]; [done|]. by eapply owned_wait_bit.
  - apply owned_set; [|done]. eapply owned_quiet; [exact H|done|]. apply H.
Qed.

Lemma owned_unlock a t s c : owned a s -> aligned a -> pc_ok c -> owned a (futex_unlock_pi pid t c s).
Proof using Hpid.
  intros H HA Hc. destruct c as [| | | | | | | | b|b prev|b prev|b| | | |]; try done; cbn [futex_unlock_pi].
  - destruct (pid t =? 0); (apply owned_set; [done|]); [done|]. by destruct (read_user_u32 _ _).
  - destruct (Z.eqb_spec (Z.land prev PID_MASK) (pid t)); cbn [negb]; [|by apply owned_set].
    destruct (user_cas_u32 _ _ _ _) as [[previous m']|] eqn:E; [|by apply owned_set].
    destruct (owned_cas a b _ _ _ _ _ H HA Hc E) as [[Hne Ho]|(-> & -> & H0 & Hn)].
    + destruct (Z.eqb_spec previous prev); [|by apply owned_set]. destruct Hne; [|done].
      apply owned_note_ne; [|done]. by apply owned_set.
    + rewrite Z.eqb_refl. by apply owned_give.
  - apply owned_set; [|done]. destruct (Z.land prev FUTEX_WAITERS =? 0); [done|]. by apply owned_wake.
  - apply owned_set; [|done]. eapply owned_quiet; [exact H|done|]. apply H.
Qed.

Lemma owned_step a t pending s : owned a s -> aligned a -> owned a (step pid prio t pending s).
Proof using Hpid.
  intros H HA. pose proof (proj1 H t) as Hc. unfold step. destruct (pcs s t) eqn:Et; try done.
  all: try (apply owned_lock; done); try (apply owned_unlock; done).
  - apply owned_set; [done|]. destruct (read_user_u32 _ _); [|done]. by destruct (negb _).
  - apply owned_set; [done|]. by destruct pending.
  - by apply owned_set.
  - apply owned_set; [|done]. eapply owned_quiet; [exact H|done|]. apply H.
  - pose proof (owned_wake a (fun x => x.2 =? uaddr) val s H) as Hw. unfold wake_futex.
    destruct (wake_matching _ _ _). by apply owned_set.
  - pose proof (owned_wake a (fun x => x.2 =? uaddr) val s H) as Hw. unfold wake_futex.
    destruct (wake_matching _ _ _). apply owned_set; [done|]. by destruct (0 <? z).
  - apply owned_set; [|done]. by apply owned_wake.
Qed.

Lemma owned_events a l s : Forall event_ok l -> aligned a -> owned a s -> owned a (events pid prio l s).
Proof using Hpid.
  intros Hl HA. revert s. induction Hl as [|e l He _ IH]; intros s H; [done|]. cbn [events foldl]. apply IH.
  destruct e as [t b op v v2 b2|t pending|p]; cbn [event].
  - destruct (pcs s t); try done. apply owned_set; [done|]. unfold sys_futex. by repeat case_match.
  - by apply owned_step.
  - by apply owned_wake.
Qed.

(** ** The changes of a word *)

(** How the word at [a] may change when the event [e] leads from [s] to [s']:
    a thread that executes [futex_lock_pi] finds it free, writes its process,
    and goes on to return 0; a thread that executes [futex_lock_pi] finds the
    owner [p] and adds the bit for waiters; a thread that executes
    [futex_unlock_pi] finds its own process, with or without that bit, and
    clears the word. *)
Inductive word_moves (a : Z) (s : State) (e : Event) (s' : State) : Z -> Z -> Prop :=
| stays v : word_moves a s e s' v v
| taken t pending :
    e = Step t pending -> pcs s t = LockFirst a \/ (exists c, pcs s t = LockLoop a c) -> pcs s' t = LockRecord a ->
    word_moves a s e s' 0 (pid t)
| marked t pending p :
    e = Step t pending -> pcs s t = LockLoop a p -> 0 < p < 2 ^ 31 -> word_moves a s e s' p (Z.lor p FUTEX_WAITERS)
| released t pending v :
    e = Step t pending -> pcs s t = UnlockLoop a v -> pcs s' t = UnlockWake a v ->
    v = pid t \/ v = Z.lor (pid t) FUTEX_WAITERS -> word_moves a s e s' v 0.

Lemma word_cas a b e n prev m m' v :
  aligned a -> aligned b -> user_cas_u32 m b e n = Some (prev, m') -> read_user_u32 m a = Some v ->
  exists v', read_user_u32 m' a = Some v' /\ (v' = v \/ (b = a /\ prev = e /\ v = e /\ v' = u32 n)).
Proof using.
  intros HA HB E Hv. destruct (cas_spec _ _ _ _ _ _ (proj1 HB) E) as [Hr [(-> & Hn & Ho)|[Hne ->]]]; [|eauto].
  destruct (decide (b = a)) as [->|Hne].
  - exists (u32 n). split; [done|]. right. split_and!; congruence.
  - exists v. split; [|by left]. rewrite Ho; [done|]. pose proof (aligned_disjoint b a HB HA Hne). lia.
Qed.

Lemma moves_claim a b t pending k s v :
  aligned a -> aligned b -> read_user_u32 (umem s) a = Some v ->
  pcs s t = LockFirst b \/ (exists c, pcs s t = LockLoop b c) ->
  let s' := claim pid t b k s in
  exists v', read_user_u32 (umem s') a = Some v' /\ word_moves a s (Step t pending) s' v v'.
Proof using Hpid.
  intros HA HB Hv Hc. cbv zeta. unfold claim.
  destruct (user_cas_u32 _ _ _ _) as [[prev m']|] eqn:E; [|exists v; split; [done|constructor]].
  destruct (word_cas _ _ _ _ _ _ _ _ HA HB E Hv) as (v' & Hv' & [->|(-> & -> & -> & ->)]); exists v || eexists.
  - split; [by destruct (_ =? _)|constructor].
  - rewrite Z.eqb_refl. cbn [umem note set_pc set_umem]. split; [exact Hv'|].
    assert (u32 (pid t) = pid t) as -> by (apply Z.mod_small; specialize (Hpid t); lia).
    eapply taken; [done|done|]. apply fn_lookup_insert.
Qed.

Lemma moves_mark a b t pending s v current prev m' c :
  aligned a -> aligned b -> read_user_u32 (umem s) a = Some v -> (exists l, word_ok l v) ->
  pcs s t = LockLoop b current -> Z.land current PID_MASK <> 0 -> Z.land current FUTEX_WAITERS = 0 ->
  user_cas_u32 (umem s) b current (Z.lor current FUTEX_WAITERS) = Some (prev, m') ->
  let s' := set_pc t c (set_umem m' s) in
  exists v', read_user_u32 (umem s') a = Some v' /\ word_moves a s (Step t pending) s' v v'.
Proof using.
  intros HA HB Hv [l Hl] Hc Hm Hb E. cbv zeta.
  destruct (word_cas _ _ _ _ _ _ _ _ HA HB E Hv) as (v' & Hv' & [->|(-> & -> & -> & ->)]).
  - exists v. split; [done|constructor].
  - destruct (word_owner _ _ Hl) as (p & l' & -> & Hr & _ & Hw); [by intros ->|]. specialize (Hw Hb) as ->.
    rewrite waiters_range in Hv' by done. eexists. split; [exact Hv'|]. by eapply marked.
Qed.

Lemma moves_release a b t pending s v prev previous m' :
  aligned a -> aligned b -> read_user_u32 (umem s) a = Some v -> (exists l, word_ok l v) ->
  pcs s t = UnlockLoop b prev -> Z.land prev PID_MASK = pid t ->
  user_cas_u32 (umem s) b prev 0 = Some (previous, m') ->
  let s' := if previous =? prev then note b (Release (pid t)) (set_pc t (UnlockWake b prev) (set_umem m' s))
            else set_pc t (UnlockLoop b previous) (set_umem m' s) in
  exists v', read_user_u32 (umem s') a = Some v' /\ word_moves a s (Step t pending) s' v v'.
Proof using Hpid.
  intros HA HB Hv [l Hl] Hc Hm E. cbv zeta. specialize (Hpid t).
  destruct (word_cas _ _ _ _ _ _ _ _ HA HB E Hv) as (v' & Hv' & [->|(-> & -> & -> & ->)]).
  - exists v. split; [by destruct (_ =? _)|constructor].
  - rewrite Z.eqb_refl. exists 0. split; [exact Hv'|]. eapply released; [done|exact Hc|apply fn_lookup_insert|].
    destruct (word_owner _ _ Hl) as (p & l' & El & Hr & Hq & _); [intros ->; rewrite Z.land_0_l in Hm; lia|].
    rewrite El in Hl. destruct Hl as [_ Hl]. assert (p = pid t) as -> by congruence. exact Hl.
Qed.

Lemma moves_lock a t pending s v :
  aligned a -> pc_ok (pcs s t) -> read_user_u32 (umem s) a = Some v -> (exists l, word_ok l v) ->
  let s' := futex_lock_pi pid prio t (pcs s t) s in
  exists v', read_user_u32 (umem s') a = Some v' /\ word_moves a s (Step t pending) s' v v'.
Proof using Hpid.
  intros HA Hc Hv Hl. cbv zeta.
  destruct (pcs s t) as [| | | | | b|b current|b| | | | | | | |] eqn:Et; cbn [futex_lock_pi].
  all: try (exists v; split; [done|constructor]).
  - destruct (pid t =? 0); [exists v; split; [done|constructor]|]. apply moves_claim; auto.
  - destruct (Z.eqb_spec (Z.land current PID_MASK) 0); [apply moves_claim; eauto|].
    destruct (Z.eqb_spec (Z.land current FUTEX_WAITERS) 0); cbn [negb]; [|exists v; split; [done|constructor]].
    destruct (user_cas_u32 _ _ _ _) as [[prev m']|] eqn:E; [|exists v; split; [done|constructor]].
    by eapply moves_mark.
Qed.

Lemma moves_unlock a t pending s v :
  aligned a -> pc_ok (pcs s t) -> read_user_u32 (umem s) a = Some v -> (exists l, word_ok l v) ->
  let s' := futex_unlock_pi pid t (pcs s t) s in
  exists v', read_user_u32 (umem s') a = Some v' /\ word_moves a s (Step t pending) s' v v'.
Proof using Hpid.
  intros HA Hc Hv Hl. cbv zeta. destruct (pcs s t) as [| | | | | | | | b|b prev|b prev|b| | | |] eqn:Et; cbn [futex_unlock_pi].
  all: try (exists v; split; [done|constructor]).
  - destruct (pid t =? 0); exists v; (split; [done|constructor]).
  - destruct (Z.eqb_spec (Z.land prev PID_MASK) (pid t)); cbn [negb]; [|exists v; split; [done|constructor]].
    destruct (user_cas_u32 _ _ _ _) as [[previous m']|] eqn:E; [|exists v; split; [done|constructor]].
    by apply (moves_release a b t pending s v prev previous m').
  - exists v. split; [|constructor]. destruct (Z.land prev FUTEX_WAITERS =? 0); [done|]. cbn [umem set_pc].
    unfold wake_futex. by rewrite (proj1 (proj1 (wake_quiet _ _ _))).
Qed.

Lemma moves_event a e s v :
  aligned a -> (forall t, pc_ok (pcs s t)) -> read_user_u32 (umem s) a = Some v -> (exists l, word_ok l v) ->
  exists v', read_user_u32 (umem (event pid prio e s)) a = Some v' /\ word_moves a s e (event pid prio e s) v v'.
Proof using Hpid.
  intros HA Hc Hv Hl. destruct e as [t b op w w2 b2|t pending|p]; cbn [event].
  - exists v. split; [by destruct (pcs s t)|constructor].
  - specialize (Hc t). unfold step. destruct (pcs s t) eqn:Et.
    all: try (rewrite <- Et in *; by apply moves_lock); try (rewrite <- Et in *; by apply moves_unlock).
    all: exists v; split; [|constructor]; try done.
    + pose proof (wake_quiet (fun x => x.2 =? uaddr) val s) as [[Hw _] _]. unfold wake_futex.
      destruct (wake_matching _ _ _). cbn [snd] in Hw. cbn [umem set_pc]. by rewrite Hw.
    + pose proof (wake_quiet (fun x => x.2 =? uaddr) val s) as [[Hw _] _]. unfold wake_futex.
      destruct (wake_matching _ _ _). cbn [snd] in Hw. cbn [umem set_pc]. by rewrite Hw.
    + cbn [umem set_pc]. unfold wake_futex. by rewrite (proj1 (proj1 (wake_quiet _ _ _))).
  - exists v. split; [|constructor]. unfold wake_process_futex_threads. by rewrite (proj1 (proj1 (wake_quiet _ _ _))).
Qed.

(** What a lock word holds: nothing, or an owner, with or without the bit for
    waiters. *)
Definition lock_word (v : Z) : Prop := v = 0 \/ exists p, 0 < p < 2 ^ 31 /\ (v = p \/ v = Z.lor p FUTEX_WAITERS).

Lemma lock_word_ok v : (exists l, word_ok l v) -> lock_word v.
Proof using. intros [[|[p|p] l] H]; [by left| |by left]. right. by exists p. Qed.

End Proofs.


(** ** Runs *)

(** A word at address 64; thread [t] is of process [t + 1]. *)
Definition word64 : UserMem := list_to_map (zip [64; 65; 66; 67] [0; 0; 0; 0]).
Definition own_pid (t : nat) : Z := Z.of_nat (t mod 1000) + 1.
Definition start64 : State := mkState word64 (fun _ => Return 0) [] ∅ [].

(** A call of thread [t] and [n] of its steps. *)
Definition does (t : nat) (op : Z) (n : nat) : list Event := Invoke t 64 op 1 0 0 :: replicate n (Step t false).
Definition run64 (l : list Event) : State := events own_pid (fun _ => 3) l start64.


(** ** The loop of [futex_lock_pi] *)

Definition in_lock (c : PC) : bool := match c with LockFirst _ | LockLoop _ _ | LockRecord _ => true | _ => false end.

Section LockLoop.

Context (pid prio : nat -> Z) (t : nat) (a : Z).

Lemma pcs_set_pc c s : pcs (set_pc t c s) t = c.
Proof. apply fn_lookup_insert. Qed.

Lemma cas_read s prev e n :
  read_user_u32 (umem s) a = Some prev -> validate_ptr a 4 = true ->
  exists m, user_cas_u32 (umem s) a e n = Some (prev, m).
Proof. intros Hr Hv. unfold user_cas_u32. rewrite Hv, Hr. cbn. eauto. Qed.

Lemma lock_first s :
  0 <= a -> pid t <> 0 ->
  let s' := futex_lock_pi pid prio t (LockFirst a) s in
  in_lock (pcs s' t) = false \/ pcs s' t = LockRecord a \/
  exists v, pcs s' t = LockLoop a v /\ read_user_u32 (umem s') a = Some v /\ v <> 0 /\ validate_ptr a 4 = true.
Proof.
  intros Ha Hp. cbn [futex_lock_pi]. rewrite (proj2 (Z.eqb_neq _ _) Hp). unfold claim.
  destruct (user_cas_u32 _ _ _ _) as [[prev m]|] eqn:E; [|left; by rewrite pcs_set_pc].
  destruct (cas_spec _ _ _ _ _ _ Ha E) as [Hr Hc]. destruct (Z.eqb_spec prev 0).
  - right. left. unfold note. cbn [pcs]. apply fn_lookup_insert.
  - destruct Hc as [[? _]|[_ ->]]; [done|]. right. right. exists prev. rewrite pcs_set_pc. split_and!; [done..|].
    unfold user_cas_u32 in E. by destruct (validate_ptr a 4).
Qed.

Lemma lock_loop s v :
  read_user_u32 (umem s) a = Some v -> v <> 0 -> validate_ptr a 4 = true ->
  in_lock (pcs (futex_lock_pi pid prio t (LockLoop a v) s) t) = false.
Proof.
  intros Hr Hv Hp. cbn [futex_lock_pi]. destruct (Z.eqb_spec (Z.land v PID_MASK) 0) as [E0|E0].
  - unfold claim. destruct (cas_read s v 0 (pid t) Hr Hp) as [m ->]. destruct (Z.eqb_spec v 0); [done|]. by rewrite pcs_set_pc, E0.
  - destruct (negb _); [by rewrite pcs_set_pc|]. destruct (cas_read s v v (Z.lor v FUTEX_WAITERS) Hr Hp) as [m ->].
    by rewrite Z.eqb_refl, pcs_set_pc.
Qed.

(** If nobody else changes the word, [futex_lock_pi] is past its loop after
    two steps: it returns the word's lock, an error, or waits. *)
Lemma lock_pi_leaves_loop s :
  0 <= a -> pid t <> 0 ->
  let s1 := futex_lock_pi pid prio t (LockFirst a) s in
  in_lock (pcs (futex_lock_pi pid prio t (pcs s1 t) s1) t) = false.
Proof.
  intros Ha Hp. cbv zeta. destruct (lock_first s Ha Hp) as [H|[H|(v & H & Hr & Hv & Hu)]].
  - set (s1 := futex_lock_pi pid prio t (LockFirst a) s) in *. destruct (pcs s1 t) eqn:E; try done; cbn [futex_lock_pi]; by rewrite E.
  - rewrite H. cbn [futex_lock_pi]. by rewrite pcs_set_pc.
  - rewrite H. by apply lock_loop.
Qed.

End LockLoop.

(** ** Flaws *)

(** A waiter that is woken returns 0, which says it has the lock, without
    having taken the word: the next thread takes it. *)
Example lock_pi_returns_without_lock :
  let s := run64 (does 1 11 2 ++ does 2 11 5 ++ does 1 12 4) in
  pcs s 2%nat = Return 0 /\ entries 64 (log s) = [Release 2; Acquire 2] /\ read_user_u32 (umem s) 64 = Some 0 /\
  entries 64 (log (events own_pid (fun _ => 3) (does 3 11 2) s)) = [Acquire 4; Release 2; Acquire 2].
Proof. vm_compute. auto. Qed.

(** The release clears the bit for waiters although more of them wait; the
    next owner's release wakes nobody. *)
Example second_waiter_forgotten :
  let s := run64 (does 1 11 2 ++ does 2 11 5 ++ does 3 11 5 ++ does 1 12 4 ++ does 4 11 2 ++ does 4 12 4) in
  pcs s 3%nat = Queued 64 /\ queue s = [(3%nat, 64)] /\ read_user_u32 (umem s) 64 = Some 0.
Proof. vm_compute. auto. Qed.

(** A wake-up between the waiter's look at the word and its entry into the
    queue is lost. *)
Example wait_loses_wake_up :
  let s := events own_pid (fun _ => 3) (Invoke 2 64 0 0 0 0 :: replicate 2 (Step 2 false) ++ does 1 1 1 ++ replicate 2 (Step 2 false)) start64 in
  pcs s 1%nat = Return 0 /\ pcs s 2%nat = Queued 64.
Proof. vm_compute. auto. Qed.

(** The last step of a release removes the entry of the next owner. *)
Example owner_entry_lost :
  let s := run64 (does 1 11 2 ++ does 1 12 3 ++ does 3 11 2 ++ [Step 1 false]) in
  entries 64 (log s) = [Acquire 4; Release 2; Acquire 2] /\ pi_owners s !! 64 = None.
Proof. vm_compute. auto. Qed.
