(* ===== verification/Shm.v ===== *)
(** * System V shared memory

    Model of [kernel/src/syscalls/shm.rs]: the table of segments and its keys,
    attaching, detaching, control, and the exit of a process. The reference
    counts of frames are those of [Buddy]; of the allocator only the list of
    the free frames matters here. The lists of mappings and the page tables
    are those of [Vma]. [sys_memfd_create], which
    makes a file, is not modelled. A call panics ([None]) where the address
    types of the x86_64 crate do. *)

From stdpp Require Import gmap functions strings.
From S2P Require Import Prelude Buddy UserAccess Vma.

Definition SHMMAX : Z := 32 * 1024 * 1024.
Definition SHMMIN : Z := 1.
Definition SHMMNI : Z := 4096.
Definition IPC_PRIVATE : Z := 0.
Definition IPC_CREAT : Z := 0x200.
Definition IPC_EXCL : Z := 0x400.
Definition SHM_RDONLY : Z := 0x1000.
Definition SHM_REMAP : Z := 0x2000.
Definition SHM_MIN : Z := 0x400000000000.
Definition SHM_MAX : Z := 0x7F0000000000.
Definition CAP_SYS_ADMIN : Z := Z.shiftl 1 21.

Record ShmSegment := mkSegment {
  seg_key : Z; seg_size : Z; seg_pages : list Z; perms : Z; seg_uid : Z; seg_gid : Z;
  cpid : Z; lpid : Z; nattch : Z; atime : Z; dtime : Z; ctime : Z; deleted : bool }.

Definition set_owner (u g mode c : Z) (s : ShmSegment) : ShmSegment :=
  mkSegment (seg_key s) (seg_size s) (seg_pages s) mode u g (cpid s) (lpid s) (nattch s) (atime s) (dtime s) c (deleted s).
Definition set_attached (n l a d : Z) (s : ShmSegment) : ShmSegment :=
  mkSegment (seg_key s) (seg_size s) (seg_pages s) (perms s) (seg_uid s) (seg_gid s) (cpid s) l n a d (ctime s) (deleted s).
Definition set_deleted (s : ShmSegment) : ShmSegment :=
  mkSegment (seg_key s) (seg_size s) (seg_pages s) (perms s) (seg_uid s) (seg_gid s) (cpid s) (lpid s) (nattch s)
    (atime s) (dtime s) (ctime s) true.
Definition take_pages (s : ShmSegment) : ShmSegment :=
  mkSegment (seg_key s) (seg_size s) [] (perms s) (seg_uid s) (seg_gid s) (cpid s) (lpid s) (nattch s)
    (atime s) (dtime s) (ctime s) (deleted s).

(** A process: its ids, its effective capabilities, its mappings and pages. *)
Record Proc := mkProc { p_gid : Z; p_euid : Z; p_egid : Z; p_caps : Z; p_vmas : list Vma; p_pages : gmap Z Z }.

(** Frames: the free ones, and the reference counts with the queue of those to
    be freed. *)
Record Frames := mkFrames { pool : list Z; refcounts : option RefCountTable }.

(** [padding] is what the kernel's stack holds where [shmid_ds] has none. *)
Record World := mkWorld {
  segments : gmap Z ShmSegment; key_map : gmap Z Z; next_shm_id : Z; shm_next : Z;
  frames : Frames; procs : Z -> Proc; current : option Z; ticks : Z; umem : UserMem; padding : list Z }.

Definition set_segments (x : gmap Z ShmSegment) (w : World) : World :=
  mkWorld x (key_map w) (next_shm_id w) (shm_next w) (frames w) (procs w) (current w) (ticks w) (umem w) (padding w).
Definition set_keys (x : gmap Z Z) (w : World) : World :=
  mkWorld (segments w) x (next_shm_id w) (shm_next w) (frames w) (procs w) (current w) (ticks w) (umem w) (padding w).
Definition set_next_id (x : Z) (w : World) : World :=
  mkWorld (segments w) (key_map w) x (shm_next w) (frames w) (procs w) (current w) (ticks w) (umem w) (padding w).
Definition set_shm_next (x : Z) (w : World) : World :=
  mkWorld (segments w) (key_map w) (next_shm_id w) x (frames w) (procs w) (current w) (ticks w) (umem w) (padding w).
Definition set_frames (x : Frames) (w : World) : World :=
  mkWorld (segments w) (key_map w) (next_shm_id w) (shm_next w) x (procs w) (current w) (ticks w) (umem w) (padding w).
Definition set_proc (p : Z) (x : Proc) (w : World) : World :=
  mkWorld (segments w) (key_map w) (next_shm_id w) (shm_next w) (frames w) (<[p := x]> (procs w)) (current w) (ticks w) (umem w) (padding w).
Definition set_umem (x : UserMem) (w : World) : World :=
  mkWorld (segments w) (key_map w) (next_shm_id w) (shm_next w) (frames w) (procs w) (current w) (ticks w) x (padding w).

(** ** Frames *)

Definition increment (phys : Z) (f : Frames) : Frames := mkFrames (pool f) (FrameInfo.increment (refcounts f) phys).
Definition decrement (phys : Z) (f : Frames) : Frames := mkFrames (pool f) (FrameInfo.decrement (refcounts f) phys).2.
Definition deallocate_frame (phys : Z) (f : Frames) : Frames := mkFrames (phys :: pool f) (refcounts f).

(** [drain_deferred] gives the queue to the allocator. *)
Definition drain_frames (f : Frames) : Frames :=
  match refcounts f with
  | None => f
  | Some t => mkFrames (foldl (fun l x => x :: l) (pool f) (deferred t)) (Some (mkRefCountTable (counts t) []))
  end.

(** [None]: out of memory, and what was allocated is free again. *)
Fixpoint alloc_segment_pages (n : nat) (pages : list Z) (f : Frames) : option (list Z) * Frames :=
  match n with
  | O => (Some pages, f)
  | S n =>
      match pool f with
      | [] => (None, foldl (fun f x => deallocate_frame x f) f pages)
      | x :: l => alloc_segment_pages n (pages ++ [x]) (mkFrames l (refcounts f))
      end
  end.

Definition free_segment_pages (pages : list Z) (f : Frames) : Frames :=
  foldl (fun f x => decrement x (deallocate_frame x f)) f pages.

(** ** Helpers *)

Definition current_pid (w : World) : Z := default 0 (current w).
Definition current_gid (w : World) : Z := match current w with Some p => p_gid (procs w p) | None => 0 end.
Definition current_egid (w : World) : Z := match current w with Some p => p_egid (procs w p) | None => 0 end.
Definition get_current_euid (w : World) : Z := match current w with Some p => p_euid (procs w p) | None => 0 end.
Definition has_capability (cap : Z) (w : World) : bool :=
  match current w with
  | Some p => (p_euid (procs w p) =? 0) || negb (Z.land (p_caps (procs w p)) cap =? 0)
  | None => false
  end.

(** ** [shmget] *)

(** The segment that a key names, if it has one. *)
Definition lookup_key (key : Z) (w : World) : option Z :=
  if key =? IPC_PRIVATE then None
  else shmid ← key_map w !! key; _ ← segments w !! shmid; Some shmid.

Definition sys_shmget (key size_ shmflg : Z) (w : World) : Z * World :=
  if SHMMAX <? size_ then (u64 Errno.EINVAL, w)
  else
    let size_aligned := page_up size_ in
    if size_aligned =? 0 then (u64 Errno.EINVAL, w)
    else
      match lookup_key key w with
      | Some shmid =>
          if negb (Z.land shmflg IPC_EXCL =? 0) && negb (Z.land shmflg IPC_CREAT =? 0) then (u64 Errno.EEXIST, w)
          else (shmid, w)
      | None =>
          if Z.land shmflg IPC_CREAT =? 0 then (u64 Errno.ENOENT, w)
          else if SHMMNI <=? Z.of_nat (size (segments w)) then (u64 Errno.ENOSPC, w)
          else
            match alloc_segment_pages (Z.to_nat (size_aligned / 4096)) [] (frames w) with
            | (None, f) => (u64 Errno.ENOMEM, set_frames f w)
            | (Some pages, f) =>
                let shmid := next_shm_id w in
                let w := set_next_id (u32 (shmid + 1)) (set_frames f w) in
                let seg := mkSegment key size_aligned pages (Z.land (u16 shmflg) 0x1FF) (get_current_euid w) (current_gid w)
                             (current_pid w) 0 0 0 0 (ticks w) false in
                let w := set_segments (<[shmid := seg]> (segments w)) w in
                (shmid, if key =? IPC_PRIVATE then w else set_keys (<[key := shmid]> (key_map w)) w)
            end
      end.

(** ** [shmat] *)

(** The bits of the mode that apply. *)
Definition perm_bits (s : ShmSegment) (w : World) : Z :=
  if get_current_euid w =? seg_uid s then Z.land (Z.shiftr (perms s) 6) 7
  else if current_egid w =? seg_gid s then Z.land (Z.shiftr (perms s) 3) 7
  else Z.land (perms s) 7.

Definition may_attach (s : ShmSegment) (read_only : bool) (w : World) : bool :=
  if Z.land (perm_bits s w) 4 =? 0 then false
  else if negb read_only && (Z.land (perm_bits s w) 2 =? 0)
       then negb (negb (get_current_euid w =? seg_uid s) || (Z.land (perms s) 0x80 =? 0))
       else true.

(** Where to attach, and the next address. *)
Definition choose_address (shmaddr shmflg len : Z) (w : World) : Z * World :=
  if shmaddr =? 0 then
    let addr := shm_next w in
    let addr_aligned := page_down addr in
    if SHM_MAX <? u64 (addr_aligned + len) then (SHM_MIN, set_shm_next SHM_MIN w)
    else (addr_aligned, set_shm_next (u64 (addr + len)) w)
  else if negb (Z.land shmflg SHM_REMAP =? 0) then (shmaddr, w)
  else (page_down shmaddr, w).

(** Unmap [n] pages from [a] on, as [mapper.unmap] and [decrement] do. *)
Fixpoint unmap_from (n : nat) (a : Z) (pt : gmap Z Z) (f : Frames) : option (gmap Z Z * Frames) :=
  match n with
  | O => Some (pt, f)
  | S n =>
      if negb (canonical a) then None
      else match pt !! page_down a with
           | Some frame => unmap_from n (u64 (a + 4096)) (delete (page_down a) pt) (decrement frame f)
           | None => unmap_from n (u64 (a + 4096)) pt f
           end
  end.

(** The loop that maps: the pages and frames when all are mapped, and
    otherwise with the [done_] that were mapped unmapped again. *)
Fixpoint map_segment (map_fail : Z -> bool) (base : Z) (done_ : nat) (pages : list Z) (pt : gmap Z Z) (f : Frames)
    : option (bool * gmap Z Z * Frames) :=
  match pages with
  | [] => Some (true, pt, f)
  | paddr :: pages =>
      let a := u64 (base + Z.of_nat done_ * 4096) in
      if negb (canonical a) then None
      else match map_to map_fail pt (page_down a) paddr with
           | Some pt => map_segment map_fail base (S done_) pages pt (increment paddr f)
           | None => '(pt, f) ← unmap_from done_ base pt f; Some (false, pt, f)
           end
  end.

(** The errors are [-(errno as i64) as u64], where the error is negative. *)
Definition neg (e : Z) : Z := u64 (- e).

(** The current process's part of [sys_shmat]. *)
Definition attach (mapper : bool) (map_fail : Z -> bool) (p shmid shmaddr shmflg : Z) (s : ShmSegment) (w : World)
    : option (Z * World) :=
  let len := seg_size s in
  let read_only := negb (Z.land shmflg SHM_RDONLY =? 0) in
  let '(addr, w) := choose_address shmaddr shmflg len w in
  if negb mapper then Some (neg Errno.ENOMEM, w)
  else
    let q := procs w p in
    '(ok, pt, f) ← map_segment map_fail addr 0 (seg_pages s) (p_pages q) (frames w);
    let w := set_frames f w in
    if negb ok then Some (neg Errno.ENOMEM, set_proc p (mkProc (p_gid q) (p_euid q) (p_egid q) (p_caps q) (p_vmas q) pt) w)
    else
      let v := mkVma addr (u64 (addr + len)) (mkFlags true (negb read_only) true false) "shmat"%string None 0 true (Some (u32 shmid)) in
      let w := set_proc p (mkProc (p_gid q) (p_euid q) (p_egid q) (p_caps q) (insert_vma_locked (p_vmas q) v) pt) w in
      Some (addr, set_segments (alter (fun s => set_attached (u32 (nattch s + 1)) (current_pid w) (ticks w) (dtime s) s)
                                  (u32 shmid) (segments w)) w).

Definition sys_shmat (mapper : bool) (map_fail : Z -> bool) (shmid shmaddr shmflg : Z) (w : World) : option (Z * World) :=
  match segments w !! u32 shmid with
  | None => Some (neg Errno.EINVAL, w)
  | Some s =>
      if deleted s then Some (neg Errno.EIDRM, w)
      else if negb (may_attach s (negb (Z.land shmflg SHM_RDONLY =? 0)) w) then Some (neg Errno.EACCES, w)
      else match current w with
           | None => Some (neg Errno.ESRCH, w)
           | Some p => attach mapper map_fail p shmid shmaddr shmflg s w
           end
  end.

(** ** [shmdt] *)

(** Remove a segment, its key and its pages. *)
Definition destroy (id : Z) (s : ShmSegment) (w : World) : World :=
  set_segments (delete id (segments w))
    (set_frames (free_segment_pages (seg_pages s) (frames w)) (set_keys (delete (seg_key s) (key_map w)) w)).

(** The segment's part of a detachment by process [p]. *)
Definition detached (p : Z) (w : World) (s : ShmSegment) : ShmSegment :=
  set_attached (Z.max 0 (nattch s - 1)) p (atime s) (ticks w) s.

Definition detach_segment (id : Z) (w : World) : World :=
  match segments w !! id with
  | None => w
  | Some s =>
      let s := detached (current_pid w) w s in
      let w := set_segments (<[id := s]> (segments w)) w in
      if (nattch s =? 0) && deleted s then destroy id s w else w
  end.

Definition sys_shmdt (mapper : bool) (addr : Z) (w : World) : option (Z * World) :=
  if (addr =? 0) || negb (Z.land addr 0xFFF =? 0) then Some (u64 Errno.EINVAL, w)
  else match current w with
  | None => Some (u64 Errno.ESRCH, w)
  | Some p =>
      let q := procs w p in
      match find_start (p_vmas q) addr with
      | None => Some (u64 Errno.EINVAL, w)
      | Some v =>
          match shm_id v with
          | None => Some (u64 Errno.EINVAL, w)
          | Some id =>
              let len := u64 (end_ v - start v) in
              let last := u64 (addr + len - 1) in
              if negb (canonical addr && canonical last) then None
              else if negb mapper then Some (u64 Errno.EINVAL, w)
              else
                '(pt, f) ← unmap_from (Z.to_nat ((page_down last - page_down addr) / 4096 + 1)) addr (p_pages q) (frames w);
                let l := remove_vma_range (p_vmas q) addr (u64 (addr + len)) in
                let w := set_proc p (mkProc (p_gid q) (p_euid q) (p_egid q) (p_caps q) l pt) (set_frames f w) in
                Some (0, detach_segment id w)
          end
      end
  end.

(** ** The exit of a process *)

(** The loop over the ids, under the lock: the segments to free with it. *)
Definition detach_step (p : Z) (acc : World * list (Z * Z * list Z)) (id : Z) : World * list (Z * Z * list Z) :=
  let '(w, to_free) := acc in
  match segments w !! id with
  | None => acc
  | Some s =>
      let s := detached p w s in
      if (nattch s =? 0) && deleted s
      then (set_segments (<[id := take_pages s]> (segments w)) w, to_free ++ [(id, seg_key s, seg_pages s)])
      else (set_segments (<[id := s]> (segments w)) w, to_free)
  end.

Definition shm_detach_all (p : Z) (w : World) : World :=
  let shm_ids := omap shm_id (p_vmas (procs w p)) in
  let '(w, to_free) := foldl (detach_step p) (w, []) shm_ids in
  let w := set_segments (foldl (fun m x => delete x.1.1 m) (segments w) to_free) w in
  let w := set_keys (foldl (fun m x => delete x.1.2 m) (key_map w) to_free) w in
  set_frames (foldl (fun f x => free_segment_pages x.2 f) (frames w) to_free) w.

(** ** [shmctl] *)

Definition IPC_RMID : Z := 0.
Definition IPC_SET : Z := 1.
Definition IPC_STAT : Z := 2.
Definition IPC_INFO : Z := 3.
Definition SHM_STAT : Z := 13.
Definition SHM_STAT_ANY : Z := 14.

(** [shmid_ds] in memory, 96 bytes. *)
Definition shmid_ds (s : ShmSegment) (pad : list Z) : list Z :=
  le_bytes 4 (u32 (seg_key s)) ++ le_bytes 4 (seg_uid s) ++ le_bytes 4 (seg_gid s) ++ le_bytes 4 (seg_uid s) ++
  le_bytes 4 (seg_gid s) ++ le_bytes 2 (perms s) ++ le_bytes 2 0 ++ le_bytes 8 (seg_size s) ++ le_bytes 8 (lpid s) ++
  le_bytes 8 (cpid s) ++ le_bytes 4 (nattch s) ++ pad ++ le_bytes 8 (atime s) ++ le_bytes 8 (dtime s) ++
  le_bytes 8 (ctime s) ++ replicate 16 0.

Definition shm_info : list Z := [SHMMAX; SHMMIN; SHMMNI; 0; 0; 0] ≫= le_bytes 8.

(** The superuser, the owner, or the capability. *)
Definition may_control (s : ShmSegment) (w : World) : bool :=
  (get_current_euid w =? 0) || (get_current_euid w =? seg_uid s) || has_capability CAP_SYS_ADMIN w.

(** Copy out, and the result [r] when that succeeds. *)
Definition put_user (buf : Z) (l : list Z) (r : Z) (w : World) : Z * World :=
  let '(ok, m) := copy_to_user (umem w) buf l in
  (if ok then r else u64 Errno.EFAULT, set_umem m w).

Definition shm_stat (shmid cmd buf : Z) (w : World) : Z * World :=
  match segments w !! u32 shmid with
  | None => (u64 Errno.EINVAL, w)
  | Some s =>
      if (cmd =? IPC_STAT) && deleted s then (u64 Errno.EIDRM, w)
      else put_user buf (shmid_ds s (padding w)) (if cmd =? SHM_STAT then u32 shmid else 0) w
  end.

Definition shm_set (shmid buf : Z) (w : World) : Z * World :=
  match copy_from_user (umem w) buf 96 with
  | None => (u64 Errno.EFAULT, w)
  | Some ds =>
      match segments w !! u32 shmid with
      | None => (u64 Errno.EINVAL, w)
      | Some s =>
          if deleted s then (u64 Errno.EIDRM, w)
          else if negb (may_control s w) then (u64 Errno.EPERM, w)
          else
            let s := set_owner (le_value (slice 4 4 ds)) (le_value (slice 8 4 ds)) (le_value (slice 20 2 ds)) (ticks w) s in
            (0, set_segments (<[u32 shmid := s]> (segments w)) w)
      end
  end.

Definition shm_rmid (shmid : Z) (w : World) : Z * World :=
  match segments w !! u32 shmid with
  | None => (u64 Errno.EINVAL, w)
  | Some s =>
      if deleted s then (u64 Errno.EIDRM, w)
      else if negb (may_control s w) then (u64 Errno.EPERM, w)
      else
        let w := set_segments (<[u32 shmid := set_deleted s]> (segments w)) w in
        (0, if nattch s =? 0 then destroy (u32 shmid) s w else w)
  end.

Definition sys_shmctl (shmid cmd buf : Z) (w : World) : Z * World :=
  if cmd =? IPC_INFO then put_user buf shm_info 0 w
  else if (cmd =? IPC_STAT) || (cmd =? SHM_STAT) || (cmd =? SHM_STAT_ANY) then shm_stat shmid cmd buf w
  else if cmd =? IPC_SET then shm_set shmid buf w
  else if cmd =? IPC_RMID then shm_rmid shmid w
  else (u64 Errno.EINVAL, w).
