(* ===== verification/ShmSound.v ===== *)
(** * Shared memory: correctness

    The table of segments and keys of [Shm] keeps its invariant under every
    sequence of calls, and attaching and controlling a segment obey its mode
    and owner. *)

From stdpp Require Import gmap functions strings.
From S2P Require Import Prelude Buddy UserAccess Vma VmaSound Shm.

(** ** The table *)

(** A segment that is whole: a number of pages, and not both deleted and
    unattached. *)
Definition whole (s : ShmSegment) : Prop :=
  0 < seg_size s <= SHMMAX /\ seg_size s = 4096 * Z.of_nat (length (seg_pages s)) /\ is_u32 (nattch s) /\
  (deleted s = true -> nattch s <> 0).

(** The keys name the segments that have them, and only these. *)
Definition keys_ok (segs : gmap Z ShmSegment) (keys : gmap Z Z) : Prop :=
  (forall k id, keys !! k = Some id -> k <> IPC_PRIVATE /\ exists s, segs !! id = Some s /\ seg_key s = k) /\
  (forall id s, segs !! id = Some s -> seg_key s <> IPC_PRIVATE -> keys !! seg_key s = Some id).

Definition table_ok (w : World) : Prop :=
  keys_ok (segments w) (key_map w) /\
  (forall id s, segments w !! id = Some s -> 0 <= id < next_shm_id w /\ whole s) /\
  Z.of_nat (size (segments w)) <= SHMMNI.

(** A segment that changes and keeps its key. *)
Lemma keys_ok_update segs keys id s s' :
  keys_ok segs keys -> segs !! id = Some s -> seg_key s' = seg_key s -> keys_ok (<[id := s']> segs) keys.
Proof.
  intros [H1 H2] Hs Hk. split.
  - intros k j Hj. destruct (H1 k j Hj) as (Hk0 & t & Ht & E). split; [done|].
    destruct (decide (id = j)) as [<-|]; [rewrite lookup_insert_eq|rewrite lookup_insert_ne by done; eauto].
    exists s'. split; [done|]. congruence.
  - intros j t. destruct (decide (id = j)) as [<-|]; [rewrite lookup_insert_eq|rewrite lookup_insert_ne by done; eauto].
    intros [= <-]. rewrite Hk. by apply H2.
Qed.

Lemma size_update (segs : gmap Z ShmSegment) id s s' : segs !! id = Some s -> size (<[id := s']> segs) = size segs.
Proof. intros H. rewrite map_size_insert_Some by eauto. done. Qed.

Lemma table_update w id s s' :
  table_ok w -> segments w !! id = Some s -> seg_key s' = seg_key s -> whole s' ->
  table_ok (set_segments (<[id := s']> (segments w)) w).
Proof.
  intros (Hk & Hw & Hn) Hs E Hs'. split_and!; cbn [segments set_segments key_map next_shm_id].
  - by eapply keys_ok_update.
  - intros j t. destruct (decide (id = j)) as [<-|]; [rewrite lookup_insert_eq|rewrite lookup_insert_ne by done; apply Hw].
    intros [= <-]. split; [by apply (Hw id s)|done].
  - by erewrite size_update.
Qed.

(** Nothing of the table changes. *)
Lemma table_frame w w' :
  table_ok w -> segments w' = segments w -> key_map w' = key_map w -> next_shm_id w' = next_shm_id w -> table_ok w'.
Proof. unfold table_ok. intros H -> -> ->. exact H. Qed.

Lemma keys_ok_delete segs keys id s :
  keys_ok segs keys -> segs !! id = Some s -> keys_ok (delete id segs) (delete (seg_key s) keys).
Proof.
  intros [H1 H2] Hs. split.
  - intros k j. rewrite lookup_delete_Some. intros [Hne Hj]. destruct (H1 k j Hj) as (Hk0 & t & Ht & E). split; [done|].
    exists t. rewrite lookup_delete_ne; [done|]. intros ->. congruence.
  - intros j t. rewrite lookup_delete_Some. intros [Hne Ht] Hk. rewrite lookup_delete_ne; [by apply H2|].
    intros E. pose proof (H2 _ _ Ht Hk) as E1. rewrite <- E in Hk, E1. pose proof (H2 _ _ Hs Hk). congruence.
Qed.

Lemma destroy_ok w id s s' :
  table_ok w -> segments w !! id = Some s -> seg_key s' = seg_key s -> table_ok (destroy id s' w).
Proof.
  intros (Hk & Hw & Hn) Hs E. unfold destroy. split_and!; cbn.
  - rewrite E. by apply keys_ok_delete.
  - intros j t. rewrite lookup_delete_Some. intros [_ H]. by apply Hw.
  - rewrite map_size_delete, Hs. lia.
Qed.

(** ** Each call *)

Lemma alloc_length n pages f l f' :
  alloc_segment_pages n pages f = (Some l, f') -> length l = (length pages + n)%nat.
Proof.
  revert pages f. induction n as [|n IH]; intros pages f; cbn [alloc_segment_pages]; [intros [= <- _]; lia|].
  destruct (pool f); [done|]. intros H%IH. rewrite H, length_app. cbn. lia.
Qed.

Lemma page_up_size x : 0 <= x <= SHMMAX -> page_up x <> 0 ->
  0 < page_up x <= SHMMAX /\ page_up x = 4096 * Z.of_nat (Z.to_nat (page_up x / 4096)).
Proof.
  intros Hx Hn. unfold SHMMAX in *. destruct (page_up_spec x) as [Hb Hm]; [unfold ADDR_TOP, MAX_ADDR, PAGE_SIZE; lia|]. unfold PAGE_SIZE in *.
  Z.to_euclidean_division_equations. lia.
Qed.

Lemma lookup_key_None key w : table_ok w -> lookup_key key w = None -> key = IPC_PRIVATE \/ key_map w !! key = None.
Proof.
  intros ([H1 _] & _) H. unfold lookup_key in H. destruct (Z.eqb_spec key IPC_PRIVATE); [by left|right].
  destruct (key_map w !! key) as [id|] eqn:E; [|done]. destruct (H1 _ _ E) as (_ & s & Hs & _). cbn in H. by rewrite Hs in H.
Qed.

Lemma keys_ok_create segs keys id s :
  keys_ok segs keys -> segs !! id = None -> seg_key s = IPC_PRIVATE \/ keys !! seg_key s = None ->
  keys_ok (<[id := s]> segs) (if seg_key s =? IPC_PRIVATE then keys else <[seg_key s := id]> keys).
Proof.
  intros [H1 H2] Hid Hk. split.
  - intros k j. assert (Hold : keys !! k = Some j -> k <> IPC_PRIVATE /\ exists t, <[id := s]> segs !! j = Some t /\ seg_key t = k).
    { intros Hj. destruct (H1 k j Hj) as (Hk0 & t & Ht & E). split; [done|]. exists t. rewrite lookup_insert_ne; [done|]. congruence. }
    destruct (Z.eqb_spec (seg_key s) IPC_PRIVATE); [done|]. rewrite lookup_insert_Some. intros [[<- <-]|[_ Hj]]; [|auto].
    split; [done|]. exists s. by rewrite lookup_insert_eq.
  - intros j t. rewrite lookup_insert_Some. intros [[<- <-]|[Hne Ht]] Hk0.
    + destruct (Z.eqb_spec (seg_key s) IPC_PRIVATE); [done|]. apply lookup_insert_eq.
    + pose proof (H2 _ _ Ht Hk0) as E. destruct (Z.eqb_spec (seg_key s) IPC_PRIVATE); [done|].
      rewrite lookup_insert_ne; [done|]. intros E'. rewrite E' in Hk. destruct Hk; congruence.
Qed.

Lemma table_create w w' s :
  table_ok w -> Z.of_nat (size (segments w)) < SHMMNI -> 0 <= next_shm_id w -> whole s ->
  seg_key s = IPC_PRIVATE \/ key_map w !! seg_key s = None ->
  segments w' = <[next_shm_id w := s]> (segments w) ->
  key_map w' = (if seg_key s =? IPC_PRIVATE then key_map w else <[seg_key s := next_shm_id w]> (key_map w)) ->
  next_shm_id w' = next_shm_id w + 1 -> table_ok w'.
Proof.
  intros (Hks & Hw & Hc) Hn H0 Hs Hk E1 E2 E3. unfold table_ok. rewrite E1, E2, E3.
  assert (Hfresh : segments w !! next_shm_id w = None).
  { destruct (segments w !! next_shm_id w) eqn:E; [|done]. destruct (Hw _ _ E). lia. }
  split_and!; [by apply keys_ok_create| |rewrite map_size_insert_None by done; lia].
  intros j t. rewrite lookup_insert_Some. intros [[<- <-]|[_ Ht]]; [split; [lia|done]|]. destruct (Hw _ _ Ht). split; [lia|done].
Qed.

(** A call keeps the table, and numbers at most one segment. *)
Definition kept (w w' : World) : Prop := table_ok w' /\ next_shm_id w <= next_shm_id w' <= next_shm_id w + 1.

Lemma kept_frame w w' :
  table_ok w -> segments w' = segments w -> key_map w' = key_map w -> next_shm_id w' = next_shm_id w -> kept w w'.
Proof. intros Ht E1 E2 E3. split; [by eapply table_frame|lia]. Qed.

Lemma shmget_ok key n flg w :
  table_ok w -> 0 <= n -> 0 <= next_shm_id w < M32 - 1 -> kept w (sys_shmget key n flg w).2.
Proof.
  intros Ht Hn Hid. unfold sys_shmget. cbv zeta. destruct (Z.ltb_spec SHMMAX n); [by apply kept_frame|].
  destruct (Z.eqb_spec (page_up n) 0); [by apply kept_frame|].
  destruct (lookup_key key w) eqn:El; [destruct (_ && _); by apply kept_frame|].
  destruct (Z.land flg IPC_CREAT =? 0); [by apply kept_frame|].
  destruct (Z.leb_spec SHMMNI (Z.of_nat (size (segments w)))) as [|Hsz]; [by apply kept_frame|].
  destruct (alloc_segment_pages _ _ _) as [[pages|] f] eqn:Ea; cbn [snd]; [|by apply kept_frame].
  apply alloc_length in Ea. cbn [length Nat.add] in Ea. destruct (page_up_size n) as [Hr Hm]; [lia|done|].
  pose proof (lookup_key_None key w Ht El) as Hk. set (seg := mkSegment _ _ _ _ _ _ _ _ _ _ _ _ _).
  assert (Hu : u32 (next_shm_id w + 1) = next_shm_id w + 1) by (apply Z.mod_small; lia).
  split; [|destruct (key =? IPC_PRIVATE); cbn; lia]. eapply (table_create w _ seg); [done|done|lia| |done|..].
  - unfold whole, seg, is_u32. cbn. rewrite Ea. split_and!; (done || lia).
  - by destruct (key =? IPC_PRIVATE).
  - cbn. by destruct (key =? IPC_PRIVATE).
  - destruct (key =? IPC_PRIVATE); cbn; lia.
Qed.

Lemma shmat_ok mapper map_fail id addr flg w r w' :
  table_ok w -> sys_shmat mapper map_fail id addr flg w = Some (r, w') -> kept w w'.
Proof.
  intros Ht. unfold sys_shmat. destruct (segments w !! u32 id) as [s|] eqn:Es; [|intros [= _ <-]; by apply kept_frame].
  destruct (deleted s) eqn:Ed; [intros [= _ <-]; by apply kept_frame|].
  destruct (negb _); [intros [= _ <-]; by apply kept_frame|].
  destruct (current w) as [p|]; [|intros [= _ <-]; by apply kept_frame]. unfold attach. cbv zeta.
  destruct (choose_address addr flg (seg_size s) w) as [base w1] eqn:Ec.
  assert (Hc : segments w1 = segments w /\ key_map w1 = key_map w /\ next_shm_id w1 = next_shm_id w).
  { unfold choose_address in Ec. cbv zeta in Ec. repeat case_match; injection Ec as _ <-; done. }
  destruct Hc as (E1 & E2 & E3). destruct (negb mapper); [intros [= _ <-]; by apply kept_frame|].
  destruct (map_segment _ _ _ _ _ _) as [[[ok pt] f]|]; [|done]. cbn [mbind option_bind].
  destruct (negb ok); intros [= _ <-]; [by apply kept_frame|].
  pose proof (proj1 (proj2 Ht) _ _ Es) as [_ (Hs1 & Hs2 & Hs3 & Hs4)].
  set (s' := set_attached (u32 (nattch s + 1)) (current_pid w1) (ticks w1) (dtime s) s).
  assert (Ha : forall g : ShmSegment -> ShmSegment, g s = s' -> alter g (u32 id) (segments w) = <[u32 id := s']> (segments w)).
  { intros g Eg. apply map_eq. intros j. destruct (decide (u32 id = j)) as [<-|].
    - by rewrite lookup_alter_eq, lookup_insert_eq, Es; cbn; rewrite Eg.
    - by rewrite lookup_alter_ne, lookup_insert_ne. }
  split; [|cbn; lia]. eapply table_frame; [apply (table_update w (u32 id) s s'); [done|done|done|]|..].
  - refine (conj Hs1 (conj Hs2 (conj (u32_range _) _))). cbn. by rewrite Ed.
  - cbn. rewrite E1. by apply Ha.
  - done.
  - done.
Qed.

Lemma detached_whole p w s : whole s -> (nattch (detached p w s) =? 0) && deleted s = false -> whole (detached p w s).
Proof.
  intros (H1 & H2 & H3 & H4) Hd. refine (conj H1 (conj H2 (conj _ _))); cbn in *; [unfold is_u32 in *; lia|].
  intros E. rewrite E, andb_true_r in Hd. by apply Z.eqb_neq.
Qed.

Lemma detach_segment_ok id w : table_ok w -> table_ok (detach_segment id w) /\ next_shm_id (detach_segment id w) = next_shm_id w.
Proof.
  intros Ht. unfold detach_segment. destruct (segments w !! id) as [s|] eqn:Es; [|done]. cbv zeta.
  pose proof (proj1 (proj2 Ht) _ _ Es) as [_ Hs]. change (deleted (detached (current_pid w) w s)) with (deleted s).
  destruct (_ && _) eqn:Ed; (split; [|done]).
  - eapply table_frame; [by apply (destroy_ok w id s (detached (current_pid w) w s))|..]; cbn; [by rewrite delete_insert_eq|done..].
  - by eapply table_update; [..|apply detached_whole].
Qed.

Lemma shmdt_ok mapper addr w r w' : table_ok w -> sys_shmdt mapper addr w = Some (r, w') -> kept w w'.
Proof.
  intros Ht. unfold sys_shmdt. destruct (_ || _); [intros [= _ <-]; by apply kept_frame|].
  destruct (current w) as [p|]; [|intros [= _ <-]; by apply kept_frame]. cbv zeta.
  destruct (find_start _ _) as [v|]; [|intros [= _ <-]; by apply kept_frame].
  destruct (shm_id v) as [id|]; [|intros [= _ <-]; by apply kept_frame].
  destruct (negb (_ && _)); [done|]. destruct (negb mapper); [intros [= _ <-]; by apply kept_frame|].
  destruct (unmap_from _ _ _ _) as [[pt f]|]; [|done]. cbn [mbind option_bind]. intros [= _ <-].
  match goal with |- kept _ (detach_segment id ?w1) => destruct (detach_segment_ok id w1) as [Hd En] end.
  - by eapply table_frame.
  - split; [done|]. rewrite En. cbn. lia.
Qed.

Lemma shmctl_ok id cmd buf w : table_ok w -> kept w (sys_shmctl id cmd buf w).2.
Proof.
  intros Ht. assert (Hput : forall l r, kept w (put_user buf l r w).2).
  { intros l r. unfold put_user. destruct (copy_to_user _ _ _). by apply kept_frame. }
  unfold sys_shmctl. destruct (cmd =? IPC_INFO); [apply Hput|]. destruct (_ || _); [|destruct (cmd =? IPC_SET); [|destruct (cmd =? IPC_RMID)]].
  - unfold shm_stat. destruct (segments w !! u32 id); [|by apply kept_frame]. destruct (_ && _); [by apply kept_frame|apply Hput].
  - unfold shm_set. destruct (copy_from_user _ _ _); [|by apply kept_frame].
    destruct (segments w !! u32 id) as [s|] eqn:Es; [|by apply kept_frame]. destruct (deleted s); [by apply kept_frame|].
    destruct (negb _); [by apply kept_frame|]. split; [|cbn; lia]. eapply table_update; [done|done|done|].
    by apply (proj1 (proj2 Ht) _ _ Es).
  - unfold shm_rmid. destruct (segments w !! u32 id) as [s|] eqn:Es; [|by apply kept_frame]. destruct (deleted s); [by apply kept_frame|].
    destruct (negb _); [by apply kept_frame|]. cbv zeta. pose proof (proj1 (proj2 Ht) _ _ Es) as [_ (H1 & H2 & H3 & H4)].
    split; [|by destruct (nattch s =? 0); cbn; lia]. cbn [snd]. destruct (Z.eqb_spec (nattch s) 0).
    + eapply table_frame; [by apply (destroy_ok w (u32 id) s s)|..]; cbn; [by rewrite delete_insert_eq|done..].
    + eapply table_update; [done|done|done|]. by refine (conj H1 (conj H2 (conj H3 _))).
  - by apply kept_frame.
Qed.

(** ** The exit of a process *)

Lemma foldl_delete_lookup {A B} (f : A -> Z) l (m : gmap Z B) k v :
  foldl (fun m x => delete (f x) m) m l !! k = Some v <-> m !! k = Some v /\ ~ exists x, x ∈ l /\ f x = k.
Proof.
  revert m. induction l as [|x l IH]; intros m; cbn [foldl].
  { split; [intros H; split; [done|]|by intros [H _]]. by intros (x & ?%not_elem_of_nil & _). }
  rewrite IH, lookup_delete_Some. split.
  - intros [[Hne H] Hn]. split; [done|]. intros (y & [->|Hy]%elem_of_cons & E); [done|]. apply Hn. eauto.
  - intros [H Hn]. split_and!; [|done|].
    + intros E. apply Hn. exists x. split; [left|done].
    + intros (y & Hy & E). apply Hn. exists y. split; [by right|done].
Qed.

Lemma foldl_delete_size {A B} (f : A -> Z) l (m : gmap Z B) : (size (foldl (fun m x => delete (f x) m) m l) <= size m)%nat.
Proof.
  revert m. induction l as [|x l IH]; intros m; cbn [foldl]; [done|]. etrans; [apply IH|].
  rewrite map_size_delete. case_match; [apply Nat.le_pred_l|done].
Qed.

(** The state of the loop: the segments that are to go have lost their pages. *)
Definition loop_ok (w : World) (tf : list (Z * Z * list Z)) : Prop :=
  keys_ok (segments w) (key_map w) /\
  (forall id s, segments w !! id = Some s -> 0 <= id < next_shm_id w /\ ((exists x, x ∈ tf /\ x.1.1 = id) \/ whole s)) /\
  (forall x, x ∈ tf -> exists s, segments w !! x.1.1 = Some s /\ seg_key s = x.1.2) /\
  Z.of_nat (size (segments w)) <= SHMMNI.

(** One segment changes, and the list grows. *)
Lemma loop_update w tf tf' id s s' :
  loop_ok w tf -> segments w !! id = Some s -> seg_key s' = seg_key s ->
  (forall x, x ∈ tf -> x ∈ tf') -> (forall x, x ∈ tf' -> x ∈ tf \/ x.1 = (id, seg_key s)) ->
  (exists x, x ∈ tf' /\ x.1.1 = id) \/ whole s' -> loop_ok (set_segments (<[id := s']> (segments w)) w) tf'.
Proof.
  intros (Hk & Hw & Hx & Hn) Hs E Hsub Hnew Hs'. split_and!; cbn [segments set_segments key_map next_shm_id].
  - by eapply keys_ok_update.
  - intros j t. rewrite lookup_insert_Some. intros [[<- <-]|[_ Ht]]; [split; [by apply (Hw id s)|done]|].
    destruct (Hw j t Ht) as [Hj [(x & ? & ?)|?]]; (split; [done|]); [left|by right]. eauto.
  - intros x [Hin|Ex]%Hnew.
    + destruct (Hx x Hin) as (t & Ht & Et). destruct (decide (x.1.1 = id)) as [Ei|]; [|exists t; by rewrite lookup_insert_ne].
      exists s'. rewrite Ei, lookup_insert_eq. split; [done|]. congruence.
    + exists s'. rewrite Ex. cbn. by rewrite lookup_insert_eq.
  - by erewrite size_update.
Qed.

Lemma detach_step_ok p acc id :
  loop_ok acc.1 acc.2 -> loop_ok (detach_step p acc id).1 (detach_step p acc id).2 /\
  next_shm_id (detach_step p acc id).1 = next_shm_id acc.1.
Proof.
  destruct acc as [w tf]. cbn [fst snd]. intros H. unfold detach_step. destruct (segments w !! id) as [s|] eqn:Es; [|done].
  cbv zeta. change (deleted (detached p w s)) with (deleted s). destruct (_ && _) eqn:Ed; (split; [|done]); cbn [fst snd].
  - eapply loop_update; [exact H|exact Es|done|..].
    + intros x Hx. rewrite elem_of_app. by left.
    + intros x. rewrite elem_of_app, list_elem_of_singleton. intros [?| ->]; [by left|by right].
    + left. eexists. split; [apply elem_of_app; right; by apply list_elem_of_singleton|done].
  - eapply loop_update; [exact H|exact Es|done|done|by left|]. destruct (proj1 (proj2 H) _ _ Es) as [_ [?|?]]; [by left|right].
    by apply detached_whole.
Qed.

Lemma detach_loop_ok p l acc :
  loop_ok acc.1 acc.2 -> loop_ok (foldl (detach_step p) acc l).1 (foldl (detach_step p) acc l).2 /\
  next_shm_id (foldl (detach_step p) acc l).1 = next_shm_id acc.1.
Proof.
  revert acc. induction l as [|id l IH]; intros acc H; [done|]. cbn [foldl].
  destruct (detach_step_ok p acc id H) as [H1 E1]. destruct (IH _ H1) as [H2 E2]. split; [done|congruence].
Qed.

Lemma detach_all_ok p w : table_ok w -> kept w (shm_detach_all p w).
Proof.
  intros Ht. unfold shm_detach_all. cbv zeta. pose proof (detach_loop_ok p (omap shm_id (p_vmas (procs w p))) (w, [])) as H.
  destruct (foldl (detach_step p) (w, []) _) as [w1 tf]. cbn [fst snd] in H. destruct H as [(Hk & Hw & Hx & Hn) E].
  { destruct Ht as (Hk & Hw & Hn). split_and!; [exact Hk| |by intros x ?%not_elem_of_nil|done].
    intros id s Hs. destruct (Hw id s Hs). auto. }
  split; [|cbn; lia]. destruct Hk as [H1 H2].
  split_and!; cbn [segments set_segments set_keys set_frames key_map next_shm_id]; [split| |].
  - intros k id [Hki Hno]%foldl_delete_lookup. destruct (H1 k id Hki) as (Hk0 & s & Hs & E1). split; [done|].
    exists s. split; [|done]. apply foldl_delete_lookup. split; [done|]. intros (x & Hin & Ex). apply Hno. exists x. split; [done|].
    destruct (Hx x Hin) as (t & Ht1 & Et). congruence.
  - intros id s [Hs Hno]%foldl_delete_lookup Hk0. apply foldl_delete_lookup. split; [by apply H2|].
    intros (x & Hin & Ex). apply Hno. exists x. split; [done|]. destruct (Hx x Hin) as (t & Ht1 & Et).
    pose proof (H2 _ _ Hs Hk0) as E1. rewrite <- Ex, <- Et in E1, Hk0. pose proof (H2 _ _ Ht1 Hk0). congruence.
  - intros id s [Hs Hno]%foldl_delete_lookup. destruct (Hw id s Hs) as [Hid [(x & Hin & Ex)|?]]; [destruct Hno; eauto|done].
  - pose proof (foldl_delete_size (fun x : Z * Z * list Z => x.1.1) tf (segments w1)). lia.
Qed.

(** ** Runs *)

(** The calls, an exit, the freeing of the queued frames, and a change of the
    process that calls, of the time and of user memory. *)
Inductive Op :=
| Get (key n flg : Z)
| At (mapper : bool) (map_fail : Z -> bool) (id addr flg : Z)
| Dt (mapper : bool) (addr : Z)
| Ctl (id cmd buf : Z)
| Exit (p : Z)
| Drain
| Switch (p : option Z) (t : Z) (m : UserMem).

Definition op (o : Op) (w : World) : option World :=
  match o with
  | Get k n f => Some (sys_shmget k n f w).2
  | At mp mf id a f => snd <$> sys_shmat mp mf id a f w
  | Dt mp a => snd <$> sys_shmdt mp a w
  | Ctl id c b => Some (sys_shmctl id c b w).2
  | Exit p => Some (shm_detach_all p w)
  | Drain => Some (set_frames (drain_frames (frames w)) w)
  | Switch p t m =>
      Some (mkWorld (segments w) (key_map w) (next_shm_id w) (shm_next w) (frames w) (procs w) p t m (padding w))
  end.

Fixpoint ops (l : list Op) (w : World) : option World := match l with [] => Some w | o :: l => w ← op o w; ops l w end.

Definition op_ok (o : Op) : Prop := match o with Get _ n _ => 0 <= n | _ => True end.

Lemma op_kept o w w' : table_ok w -> op_ok o -> 0 <= next_shm_id w < M32 - 1 -> op o w = Some w' -> kept w w'.
Proof.
  intros Ht Ho Hid. destruct o as [k n f|mp mf id a f|mp a|id c b|p| |p t m]; cbn [op].
  - intros [= <-]. by apply shmget_ok.
  - destruct (sys_shmat mp mf id a f w) as [[r w1]|] eqn:E; [|done]. intros [= <-]. by eapply shmat_ok.
  - destruct (sys_shmdt mp a w) as [[r w1]|] eqn:E; [|done]. intros [= <-]. by eapply shmdt_ok.
  - intros [= <-]. by apply shmctl_ok.
  - intros [= <-]. by apply detach_all_ok.
  - intros [= <-]. by apply kept_frame.
  - intros [= <-]. by apply kept_frame.
Qed.

Lemma ops_table l w w' :
  table_ok w -> Forall op_ok l -> 0 <= next_shm_id w -> next_shm_id w + Z.of_nat (length l) < M32 ->
  ops l w = Some w' -> table_ok w'.
Proof.
  intros Ht Hl. revert w Ht. induction Hl as [|o l Ho _ IH]; intros w Ht H0 Hlen; cbn [ops]; [by intros [= <-]|].
  cbn [length] in Hlen. destruct (op o w) as [w1|] eqn:E; [|done]. cbn [mbind option_bind].
  destruct (op_kept o w w1 Ht Ho ltac:(lia) E) as [Ht1 Hn]. apply IH; [done|lia|lia].
Qed.

(** The table of segments keeps its invariant. Start with no segments and
    make fewer than 2^32 - 1 calls, exits and context switches, none of which
    panics. Then the keys name the segments that have them and only these, so
    no two segments share a key; the numbers are those given out so far; each
    segment has as many frames as its size has pages, at least one and at most
    32 MiB; a segment that was removed is still there only if it is attached;
    and there are at most 4096 segments. *)
Theorem shm_table_invariant l w w' :
  segments w = ∅ -> key_map w = ∅ -> next_shm_id w = 1 -> Forall op_ok l -> Z.of_nat (length l) < M32 - 1 ->
  ops l w = Some w' -> table_ok w'.
Proof.
  intros E1 E2 E3 Hl Hn. apply ops_table; [|done|lia|lia]. unfold table_ok, keys_ok. rewrite E1, E2.
  split_and!; [intros ? ? H|intros ? ? H|intros ? ? H|]; [by rewrite lookup_empty in H..|]. rewrite map_size_empty. unfold SHMMNI. lia.
Qed.

(** ** Access *)

(** The mode's bits for the caller: owner, group or others. *)
Definition class_shift (s : ShmSegment) (w : World) : Z :=
  if get_current_euid w =? seg_uid s then 6 else if current_egid w =? seg_gid s then 3 else 0.

Definition granted (s : ShmSegment) (read_only : bool) (w : World) : Prop :=
  Z.testbit (perms s) (class_shift s w + 2) = true /\
  (read_only = true \/ Z.testbit (perms s) (class_shift s w + 1) = true).

Lemma land_pow2_zero x n : 0 <= n -> (Z.land x (2 ^ n) =? 0) = negb (Z.testbit x n).
Proof.
  intros Hn. destruct (Z.testbit x n) eqn:E; cbn [negb].
  - apply Z.eqb_neq. intros H. apply (f_equal (fun y => Z.testbit y n)) in H. rewrite Z.land_spec, E, Z.pow2_bits_true, Z.testbit_0_l in H by done.
    done.
  - apply Z.eqb_eq, Z.bits_inj'. intros i Hi. rewrite Z.land_spec, Z.testbit_0_l, Z.pow2_bits_eqb by done.
    destruct (Z.eqb_spec n i) as [<-|]; [by rewrite E|apply andb_false_r].
Qed.

Lemma class_bit s w b : 0 <= b < 3 -> (Z.land (perm_bits s w) (2 ^ b) =? 0) = negb (Z.testbit (perms s) (class_shift s w + b)).
Proof.
  intros Hb. assert (E : perm_bits s w = Z.land (Z.shiftr (perms s) (class_shift s w)) (Z.ones 3)).
  { unfold perm_bits, class_shift. destruct (_ =? seg_uid s); [done|]. destruct (_ =? seg_gid s); [done|]. by rewrite Z.shiftr_0_r. }
  assert (H0 : 0 <= class_shift s w) by (unfold class_shift; repeat case_match; lia).
  rewrite E, land_pow2_zero, Z.land_spec, Z.shiftr_spec, Z.ones_spec_low, andb_true_r by lia. by rewrite Z.add_comm.
Qed.

(** The second test of the write permission changes nothing. *)
Lemma may_attach_spec s ro w : may_attach s ro w = true <-> granted s ro w.
Proof.
  pose proof (class_bit s w 2 ltac:(lia)) as B2. pose proof (class_bit s w 1 ltac:(lia)) as B1.
  pose proof (land_pow2_zero (perms s) 7 ltac:(lia)) as B7. change (2 ^ 2) with 4 in B2. change (2 ^ 1) with 2 in B1.
  change (2 ^ 7) with 0x80 in B7. unfold may_attach, granted. rewrite B2, B1, B7.
  destruct (Z.testbit (perms s) (class_shift s w + 2)); cbn [negb]; [|by split; [|intros []]].
  destruct (Z.testbit (perms s) (class_shift s w + 1)) eqn:E1; cbn [negb]; [rewrite andb_false_r; split; auto|].
  destruct ro; cbn [negb andb]; [split; auto|]. unfold class_shift in E1. destruct (get_current_euid w =? seg_uid s); cbn [negb orb].
  - change (6 + 1) with 7 in E1. rewrite E1. by split; [|intros [_ []]].
  - by split; [|intros [_ []]].
Qed.

Lemma may_control_spec s w :
  may_control s w = true <-> get_current_euid w = 0 \/ get_current_euid w = seg_uid s \/ has_capability CAP_SYS_ADMIN w = true.
Proof. unfold may_control. rewrite !orb_true_iff, !Z.eqb_eq. tauto. Qed.

(** The calls obey the mode and the owner. An attachment that changes
    anything is of a segment that is not removed and whose mode gives the
    caller, as owner, group or other, the right to read, and the right to
    write unless it attaches read-only. Control that changes the table is by
    the superuser, the owner or a process with [CAP_SYS_ADMIN], of a segment
    that is not removed, and leaves the other segments alone. *)
Theorem shm_access_control w :
  (forall mapper map_fail id addr flg r w', sys_shmat mapper map_fail id addr flg w = Some (r, w') ->
     w' = w \/ exists s, segments w !! u32 id = Some s /\ deleted s = false /\ granted s (negb (Z.land flg SHM_RDONLY =? 0)) w) /\
  (forall id cmd buf, let w' := (sys_shmctl id cmd buf w).2 in
     segments w' = segments w \/ exists s, segments w !! u32 id = Some s /\ deleted s = false /\
       (get_current_euid w = 0 \/ get_current_euid w = seg_uid s \/ has_capability CAP_SYS_ADMIN w = true) /\
       forall j, j <> u32 id -> segments w' !! j = segments w !! j).
Proof.
  split.
  - intros mp mf id addr flg r w'. unfold sys_shmat. destruct (segments w !! u32 id) as [s|]; [|intros [= _ <-]; by left].
    destruct (deleted s) eqn:Ed; [intros [= _ <-]; by left|].
    destruct (may_attach s _ w) eqn:Em; cbn [negb]; [|intros [= _ <-]; by left]. apply may_attach_spec in Em. intros _. right. eauto.
  - intros id cmd buf. cbv zeta. unfold sys_shmctl, shm_stat, shm_set, shm_rmid.
    assert (Hput : forall l r, segments (put_user buf l r w).2 = segments w).
    { intros l r. unfold put_user. by destruct (copy_to_user _ _ _). }
    destruct (cmd =? IPC_INFO); [left; apply Hput|].
    destruct (_ || _); [destruct (segments w !! u32 id); [destruct (_ && _)|]; left; [done|apply Hput|done]|].
    destruct (cmd =? IPC_SET); [destruct (copy_from_user _ _ _); [|by left]|destruct (cmd =? IPC_RMID); [|by left]].
    all: destruct (segments w !! u32 id) as [s|]; [|by left]; destruct (deleted s) eqn:Ed; [by left|].
    all: destruct (may_control s w) eqn:Em; cbn [negb]; [|by left]; apply may_control_spec in Em.
    all: right; exists s; split_and!; [done..|]; intros j Hj; cbn.
    + by rewrite lookup_insert_ne.
    + destruct (nattch s =? 0); cbn; rewrite ?lookup_delete_ne, ?lookup_insert_ne by done; done.
Qed.

(** ** Mapping *)

(** The pages of a range. *)
Definition page_in (base : Z) (n : nat) (k : Z) : Prop := base <= k < base + 4096 * Z.of_nat n /\ (k - base) mod 4096 = 0.

#[local] Instance page_in_dec base n k : Decision (page_in base n k).
Proof. unfold page_in. apply _. Defined.

(** [pt] is [pt0] with the frames [l] on the pages from [base] on, which were
    free. *)
Definition laid (base : Z) (l : list Z) (pt0 pt : gmap Z Z) : Prop :=
  (forall k, page_in base (length l) k -> pt0 !! k = None) /\
  forall k, pt !! k = if decide (page_in base (length l) k) then l !! Z.to_nat ((k - base) / 4096) else pt0 !! k.

(** A range of pages in the lower half. *)
Definition low_range (base : Z) (n : nat) : Prop := 0 <= base /\ base mod 4096 = 0 /\ base + 4096 * Z.of_nat n <= 2 ^ 47.

Lemma low_page base n i : low_range base n -> (i < n)%nat ->
  let a := base + Z.of_nat i * 4096 in u64 a = a /\ canonical a = true /\ page_down a = a.
Proof.
  intros (H0 & Hm & Hb) Hi. cbv zeta. change (2 ^ 47) with 0x800000000000 in Hb. split_and!.
  - apply Z.mod_small. lia.
  - unfold canonical. lia.
  - rewrite page_down_spec by lia. unfold PAGE_SIZE. Z.to_euclidean_division_equations. lia.
Qed.

Lemma page_in_S base n k : page_in base (S n) k <-> page_in base n k \/ k = base + Z.of_nat n * 4096.
Proof. unfold page_in. Z.to_euclidean_division_equations. lia. Qed.

Lemma unmap_spec n base pt f :
  low_range base n -> exists pt' f', unmap_from n base pt f = Some (pt', f') /\
    forall k, pt' !! k = if decide (page_in base n k) then None else pt !! k.
Proof.
  intros Hr. assert (H : forall i pt f, (i <= n)%nat -> exists pt' f',
    unmap_from i (u64 (base + Z.of_nat (n - i) * 4096)) pt f = Some (pt', f') /\
    forall k, pt' !! k = if decide (page_in base n k /\ base + Z.of_nat (n - i) * 4096 <= k) then None else pt !! k).
  { clear pt f. induction i as [|i IH]; intros pt f Hi; cbn [unmap_from].
    - exists pt, f. split; [done|]. intros k. rewrite decide_False; [done|]. unfold page_in. lia.
    - destruct (low_page base n (n - S i) Hr ltac:(lia)) as (-> & -> & ->). cbn [negb]. set (a := base + Z.of_nat (n - S i) * 4096).
      replace (a + 4096) with (base + Z.of_nat (n - i) * 4096) by (unfold a; lia).
      assert (Hp : forall k, page_in base n k /\ a <= k <-> (page_in base n k /\ base + Z.of_nat (n - i) * 4096 <= k) \/ k = a).
      { intros k. unfold page_in, a. Z.to_euclidean_division_equations. lia. }
      destruct (pt !! a) as [frame|] eqn:E.
      + destruct (IH (delete a pt) (decrement frame f) ltac:(lia)) as (pt' & f' & -> & H). exists pt', f'. split; [done|].
        intros k. rewrite H. destruct (decide (a = k)) as [<-|Hne].
        * rewrite lookup_delete_eq. rewrite (decide_True _ (P := _ /\ a <= a)) by (rewrite Hp; by right). by case_decide.
        * rewrite lookup_delete_ne by done. apply decide_ext. rewrite Hp. intuition congruence.
      + destruct (IH pt f ltac:(lia)) as (pt' & f' & -> & H). exists pt', f'. split; [done|].
        intros k. rewrite H. destruct (decide (a = k)) as [<-|Hne].
        * rewrite (decide_True _ (P := _ /\ a <= a)) by (rewrite Hp; by right). by case_decide.
        * apply decide_ext. rewrite Hp. intuition congruence. }
  destruct (H n pt f ltac:(lia)) as (pt' & f' & E & Hk). rewrite Nat.sub_diag in E, Hk. cbn [Z.of_nat Z.mul] in E, Hk.
  rewrite Z.add_0_r in E, Hk. exists pt', f'. rewrite <- E. split.
  - f_equal. destruct Hr as (H0 & _ & Hb). symmetry. apply Z.mod_small. lia.
  - intros k. rewrite Hk. apply decide_ext. unfold page_in. lia.
Qed.

Lemma laid_snoc base l x pt0 pt :
  laid base l pt0 pt -> pt !! (base + Z.of_nat (length l) * 4096) = None ->
  laid base (l ++ [x]) pt0 (<[base + Z.of_nat (length l) * 4096 := x]> pt).
Proof.
  intros [Hn Hl] Hf. set (a := base + Z.of_nat (length l) * 4096) in *.
  assert (Ha : ~ page_in base (length l) a) by (unfold page_in, a; lia).
  assert (Hlen : length (l ++ [x]) = S (length l)) by (rewrite length_app; cbn; lia). unfold laid. rewrite Hlen. split.
  - intros k [Hk| ->]%page_in_S; [by apply Hn|]. fold a. by rewrite Hl, decide_False in Hf.
  - intros k. destruct (decide (a = k)) as [<-|Hne].
    + rewrite lookup_insert_eq, decide_True by (apply page_in_S; by right). symmetry.
      replace (Z.to_nat ((a - base) / 4096)) with (length l); [by apply list_lookup_middle|]. unfold a. Z.to_euclidean_division_equations. lia.
    + rewrite lookup_insert_ne, Hl by done. destruct (decide (page_in base (length l) k)) as [Hk|Hk].
      * rewrite decide_True by (apply page_in_S; by left). symmetry. apply lookup_app_l. destruct Hk as [Hk _].
        Z.to_euclidean_division_equations. lia.
      * rewrite decide_False; [done|]. intros [?| ->]%page_in_S; [done|]. by apply Hne.
Qed.

Lemma map_segment_spec map_fail base done_ pages pt0 pt f :
  low_range base (length (done_ ++ pages)) -> laid base done_ pt0 pt ->
  exists ok pt' f', map_segment map_fail base (length done_) pages pt f = Some (ok, pt', f') /\
    if ok : bool then laid base (done_ ++ pages) pt0 pt' else pt' = pt0.
Proof.
  revert done_ pt f. induction pages as [|x pages IH]; intros done_ pt f Hr Hl; cbn [map_segment].
  { exists true, pt, f. by rewrite app_nil_r. }
  cbv zeta. rewrite length_app in Hr. cbn [length] in Hr.
  destruct (low_page base _ (length done_) Hr ltac:(lia)) as (-> & -> & ->). cbn [negb]. unfold map_to.
  destruct (_ || _) eqn:E.
  - destruct (unmap_spec (length done_) base pt f) as (pt' & f' & -> & Hu).
    { destruct Hr as (? & ? & ?). split_and!; [done..|lia]. }
    exists false, pt', f'. split; [done|]. apply map_eq. intros k. rewrite Hu. destruct Hl as [Hn Hl].
    case_decide as Hk; [by rewrite Hn|]. by rewrite Hl, decide_False.
  - apply orb_false_iff in E as [_ E%bool_decide_eq_false_1]. apply eq_None_not_Some in E.
    pose proof (laid_snoc _ _ x _ _ Hl E) as Hl'.
    specialize (IH (done_ ++ [x]) (<[base + Z.of_nat (length done_) * 4096 := x]> pt) (increment x f)).
    rewrite <- app_assoc in IH. cbn [app] in IH. rewrite (length_app done_ [x]) in IH. cbn [length] in IH.
    rewrite Nat.add_1_r in IH. apply IH; [|done]. rewrite length_app. exact Hr.
Qed.

(** Attaching is all or nothing. At a page in the lower half with room for
    the segment, and whichever mappings fail: the call does not panic; either
    it returns the address, every page of the range, all of which were free,
    maps the segment's frame and every other page is as before, and the
    segment is attached once more; or it returns a positive error number
    below 4096, and the page table, the mappings and the segments are as
    before. *)
Theorem shm_attach_atomic mapper map_fail p id addr flg s w :
  current w = Some p -> segments w !! u32 id = Some s -> deleted s = false ->
  granted s (negb (Z.land flg SHM_RDONLY =? 0)) w -> addr <> 0 -> low_range addr (length (seg_pages s)) ->
  exists r w', sys_shmat mapper map_fail id addr flg w = Some (r, w') /\
  (r = addr /\ laid addr (seg_pages s) (p_pages (procs w p)) (p_pages (procs w' p)) /\
   nattch <$> segments w' !! u32 id = Some (u32 (nattch s + 1)) \/
   0 < r < 4096 /\ p_pages (procs w' p) = p_pages (procs w p) /\ p_vmas (procs w' p) = p_vmas (procs w p) /\ segments w' = segments w).
Proof.
  intros Hc Hs Hd Hg Ha Hr. unfold sys_shmat. rewrite Hs, Hd, (proj2 (may_attach_spec _ _ _) Hg), Hc. cbn [negb]. unfold attach. cbv zeta.
  assert (Ec : choose_address addr flg (seg_size s) w = (addr, w)).
  { unfold choose_address. rewrite (proj2 (Z.eqb_neq _ _) Ha). cbv iota. destruct (negb (Z.land flg SHM_REMAP =? 0)); [reflexivity|]. f_equal.
    destruct Hr as (? & ? & ?). rewrite page_down_spec by lia. unfold PAGE_SIZE. Z.to_euclidean_division_equations. lia. }
  rewrite Ec. destruct mapper; cbn [negb]; [|by do 2 eexists; split; [done|]; right].
  destruct (map_segment_spec map_fail addr [] (seg_pages s) (p_pages (procs w p)) (p_pages (procs w p)) (frames w)) as (ok & pt & f & E & H).
  - exact Hr.
  - split; [intros k Hk; unfold page_in in Hk; cbn in Hk; lia|]. intros k. rewrite decide_False; [done|]. unfold page_in. cbn. lia.
  - cbn [length] in E. rewrite E. cbn [mbind option_bind]. destruct ok; cbn [negb]; (do 2 eexists; split; [done|]).
    + left. split; [done|]. cbn. rewrite fn_lookup_insert, lookup_alter_eq, Hs. split; [exact H|done].
    + right. subst pt. cbn. rewrite fn_lookup_insert. split; [vm_compute; done|done].
Qed.

(** ** Examples *)

(** Process 7 of user 1000 and four frames. *)
Definition no_vmas : Proc := mkProc 1000 1000 1000 0 [] ∅.
Definition start_world : World :=
  mkWorld ∅ ∅ 1 SHM_MIN (mkFrames [0x1000; 0x2000; 0x3000; 0x4000] (FrameInfo.init 0x10000)) (fun _ => no_vmas) (Some 7) 5 ∅ [0; 0; 0; 0].

(** A segment of two pages with key 9, for its owner only. *)
Definition made : World := (sys_shmget 9 8000 0x3A4 start_world).2.

Lemma shm_table_invariant_witness :
  exists w', ops [Get 9 8000 0x3A4; At true (fun _ => false) 1 0 0; Ctl 1 IPC_RMID 0; Dt true SHM_MIN] start_world = Some w' /\ table_ok w'.
Proof.
  destruct (ops [Get 9 8000 0x3A4; At true (fun _ => false) 1 0 0; Ctl 1 IPC_RMID 0; Dt true SHM_MIN] start_world) as [w'|] eqn:E.
  - exists w'. split; [reflexivity|]. eapply (shm_table_invariant _ start_world w' eq_refl eq_refl eq_refl); [| |exact E].
    + repeat constructor; discriminate.
    + reflexivity.
  - exfalso. assert (H : is_Some (ops [Get 9 8000 0x3A4; At true (fun _ => false) 1 0 0; Ctl 1 IPC_RMID 0; Dt true SHM_MIN] start_world))
      by (vm_compute; eexists; reflexivity).
    rewrite E in H. destruct H as [x Hx]. discriminate Hx.
Defined.

Lemma shm_attach_atomic_witness :
  exists r w', sys_shmat true (fun _ => false) 1 0x10000 0 made = Some (r, w') /\ (r = 0x10000 \/ 0 < r < 4096).
Proof.
  destruct (shm_attach_atomic true (fun _ => false) 7 1 0x10000 0
              (mkSegment 9 8192 [0x1000; 0x2000] 0x1A4 1000 1000 7 0 0 0 0 5 false) made) as (r & w' & E & H).
  - reflexivity.
  - vm_compute. reflexivity.
  - reflexivity.
  - split; [vm_compute; reflexivity|right; vm_compute; reflexivity].
  - discriminate.
  - unfold low_range. cbn. split_and!; [lia|reflexivity|lia].
  - exists r, w'. split; [exact E|]. destruct H as [[-> _]|[H _]]; [left; reflexivity|right; exact H].
Defined.

(** Frames start with count 0. A detachment brings the count back to 0 and
    queues them for freeing while the segment still has them; the next segment
    gets the same frames. *)
Example frames_shared_by_two_segments :
  (fun w => (seg_pages <$> segments w !! 1, seg_pages <$> segments w !! 2)) <$>
    ops [Get 9 8000 0x3A4; At true (fun _ => false) 1 0 0; Dt true SHM_MIN; Drain; Get 10 8000 0x3A4] start_world
  = Some (Some [0x1000; 0x2000], Some [0x2000; 0x1000]).
Proof. vm_compute. reflexivity. Qed.

(** Removing a segment after a detachment frees its frames a second time. *)
Example frames_freed_twice :
  (fun w => pool (frames w)) <$>
    ops [Get 9 4000 0x3A4; At true (fun _ => false) 1 0 0; Dt true SHM_MIN; Ctl 1 IPC_RMID 0; Drain] start_world
  = Some [0x1000; 0x1000; 0x2000; 0x3000; 0x4000].
Proof. vm_compute. reflexivity. Qed.

(** A segment that is marked as removed keeps its key, and [shmget] returns
    its number, which cannot be attached. *)
Example removed_segment_by_key :
  (w ← ops [Get 9 4000 0x3A4; At true (fun _ => false) 1 0 0; Ctl 1 IPC_RMID 0] start_world;
   Some ((sys_shmget 9 4000 0x3A4 w).1, fst <$> sys_shmat true (fun _ => false) 1 0 0 w)) = Some (1, Some 43).
Proof. vm_compute. reflexivity. Qed.

(** Errors of [shmat] come out positive. *)
Example shmat_error_is_positive : fst <$> sys_shmat true (fun _ => false) 1 0 0 start_world = Some 22.
Proof. vm_compute. reflexivity. Qed.

(** The address is not checked: one that is not canonical panics, and one in
    the kernel's half is mapped for user access. *)
Example shmat_any_address :
  sys_shmat true (fun _ => false) 1 0x900000000000 0 made = None /\
  fst <$> sys_shmat true (fun _ => false) 1 0xFFFF900000000000 0 made = Some 0xFFFF900000000000.
Proof. vm_compute. auto. Qed.

(** Two attachments of one segment side by side become one mapping, and one
    detachment takes both away and counts one. *)
Example adjacent_attachments_merge :
  (fun w => (nattch <$> segments w !! 1, length (p_vmas (procs w 7)), size (p_pages (procs w 7)))) <$>
    ops [Get 9 4000 0x3A4; At true (fun _ => false) 1 0 0; At true (fun _ => false) 1 0 0; Dt true SHM_MIN] start_world
  = Some (Some 1, 0%nat, 0%nat).
Proof. vm_compute. reflexivity. Qed.
