(* ===== verification/Lsm.v ===== *)
(** * The security-policy hooks

    Model of [kernel/src/security.rs]: the policy text of [/etc/lsm_policy] as
    [load_policy] reads it, the rules, [check] and the hooks that call it, and
    the per-process bitmask of system calls. A [&str] is the list of its
    Unicode scalar values. Reading the file is an argument, the log line of
    [load_policy] is output. *)

From Stdlib Require Import Ascii String.
From S2P Require Import Prelude.

(** ** Strings *)

Definition Str : Type := list Z.

Fixpoint str (s : string) : Str :=
  match s with
  | EmptyString => []
  | String c s => Z.of_N (N_of_ascii c) :: str s
  end.

(** [char::is_whitespace]: the Unicode property White_Space. *)
Definition is_whitespace (c : Z) : bool :=
  ((9 <=? c) && (c <=? 13)) || (c =? 32) || (c =? 0x85) || (c =? 0xA0) || (c =? 0x1680) ||
  ((0x2000 <=? c) && (c <=? 0x200A)) || (c =? 0x2028) || (c =? 0x2029) || (c =? 0x202F) ||
  (c =? 0x205F) || (c =? 0x3000).

Fixpoint trim_start (s : Str) : Str :=
  match s with
  | c :: s' => if is_whitespace c then trim_start s' else s
  | [] => []
  end.

Definition trim (s : Str) : Str := reverse (trim_start (reverse (trim_start s))).

(** The part before the first [sep], and what follows it if there is one. *)
Fixpoint cut (sep : Z) (s : Str) : Str * option Str :=
  match s with
  | [] => ([], None)
  | c :: s => if c =? sep then ([], Some s) else let '(a, b) := cut sep s in (c :: a, b)
  end.

(** [str::splitn] *)
Fixpoint splitn (n : nat) (sep : Z) (s : Str) : list Str :=
  match n with
  | O => []
  | S O => [s]
  | S n => match cut sep s with
           | (a, Some b) => a :: splitn n sep b
           | (a, None) => [a]
           end
  end.

Definition strip_cr (s : Str) : Str := match last s with Some 13 => removelast s | _ => s end.

(** [str::lines]: the lines end at line feeds, and an empty line after the last
    one is not a line. *)
Fixpoint lines_from (acc : Str) (s : Str) : list Str :=
  match s with
  | [] => if decide (acc = []) then [] else [strip_cr (reverse acc)]
  | c :: s => if c =? 10 then strip_cr (reverse acc) :: lines_from [] s else lines_from (c :: acc) s
  end.
Definition lines (s : Str) : list Str := lines_from [] s.

(** [format!("{}", n)] of a [u64]. *)
Fixpoint digits (fuel : nat) (n : Z) (acc : Str) : Str :=
  match fuel with
  | O => acc
  | S fuel => let acc := 48 + n mod 10 :: acc in if n <? 10 then acc else digits fuel (n / 10) acc
  end.
Definition decimal (n : Z) : Str := digits 20 n [].

(** ** The policy *)

Record LsmRule := mkRule { subject : Str; object : Str; class : Str; perm : Str; allow : bool }.

Record Lsm := mkLsm { LSM_ENABLED : bool; LSM_VERSION : Z; POLICY : list LsmRule; SYSCALL_FILTER : gmap Z Z }.

Definition parse_line (line : Str) : option LsmRule :=
  let line := trim line in
  match line with
  | [] => None
  | c :: _ =>
      if c =? 35 then None
      else match splitn 5 58 line with
           | [p0; p1; p2; p3; p4] =>
               if decide (p4 = str "allow") then Some (mkRule p0 p1 p2 p3 true)
               else if decide (p4 = str "deny") then Some (mkRule p0 p1 p2 p3 false)
               else None
           | _ => None
           end
  end.

Definition load_policy (text : Str) (l : Lsm) : bool * Lsm :=
  match omap parse_line (lines text) with
  | [] => (false, l)
  | new_rules => (true, mkLsm true (u64 (LSM_VERSION l + 1)) new_rules (SYSCALL_FILTER l))
  end.

(** [file]: what reading [/etc/lsm_policy] gives, as text. *)
Definition reload_policy (file : option Str) (l : Lsm) : bool * Lsm :=
  match file with Some text => load_policy text l | None => (false, l) end.

Definition star : Str := str "*".

Definition matches (s o c p : Str) (r : LsmRule) : bool :=
  (bool_decide (subject r = star) || bool_decide (subject r = s)) &&
  (bool_decide (object r = star) || bool_decide (object r = o)) &&
  bool_decide (class r = c) && bool_decide (perm r = p).

Definition check (l : Lsm) (s o c p : Str) : bool :=
  if negb (LSM_ENABLED l) then true
  else foldl (fun allowed r => if matches s o c p r then allow r else allowed) true (POLICY l).

Definition hook_file_perm (l : Lsm) (s path p : Str) : bool := check l s path (str "file") p.
Definition hook_file_create (l : Lsm) (s path : Str) : bool := check l s path (str "file") (str "create").
Definition hook_file_unlink (l : Lsm) (s path : Str) : bool := check l s path (str "file") (str "unlink").
Definition hook_dir_mkdir (l : Lsm) (s path : Str) : bool := check l s path (str "dir") (str "create").
Definition hook_setuid_exec (l : Lsm) (s path : Str) : bool := check l s path (str "process") (str "setuid_exec").
Definition hook_socket_create (l : Lsm) (s : Str) (family : Z) : bool :=
  let fam := if family =? 2 then str "ipv4" else if family =? 10 then str "ipv6" else str "raw" in
  check l s fam (str "socket") (str "create").
Definition hook_socket_connect (l : Lsm) (s addr : Str) : bool := check l s addr (str "socket") (str "connect").

(** [current]: the id of the process of CURRENT_PROCESS. *)
Definition current_subject (current : option Z) : Str :=
  match current with Some id => str "pid:" ++ decimal id | None => str "kernel" end.

(** ** The bitmask of system calls *)

Definition set_syscall_filter (pid mask : Z) (l : Lsm) : Lsm :=
  mkLsm (LSM_ENABLED l) (LSM_VERSION l) (POLICY l) (<[pid := mask]> (SYSCALL_FILTER l)).
Definition clear_syscall_filter (pid : Z) (l : Lsm) : Lsm :=
  mkLsm (LSM_ENABLED l) (LSM_VERSION l) (POLICY l) (delete pid (SYSCALL_FILTER l)).
Definition check_syscall_allowed (l : Lsm) (current : option Z) (n : Z) : bool :=
  match current with
  | Some pid =>
      match SYSCALL_FILTER l !! pid with
      | Some mask => negb (Z.land mask (shl64 1 (n mod 64)) =? 0)
      | None => true
      end
  | None => true
  end.

(** ** The text of a policy *)

Definition print_rule (r : LsmRule) : Str :=
  subject r ++ [58] ++ object r ++ [58] ++ class r ++ [58] ++ perm r ++ [58] ++
  (if allow r then str "allow" else str "deny").
Definition print_policy (rs : list LsmRule) : Str := mjoin ((fun r => print_rule r ++ [10]) <$> rs).

(** A field that a line can hold: no colon and no line feed; the first one does
    not start with whitespace or a number sign. *)
Definition field_ok (s : Str) : Prop := (58 ∉ s) /\ (10 ∉ s).
Definition printable (r : LsmRule) : Prop :=
  field_ok (subject r) /\ field_ok (object r) /\ field_ok (class r) /\ field_ok (perm r) /\
  match subject r with [] => True | c :: _ => is_whitespace c = false /\ c <> 35 end.

Lemma cut_field sep a b : sep ∉ a -> cut sep (a ++ sep :: b) = (a, Some b).
Proof.
  induction a as [|c a IH]; cbn; [by rewrite Z.eqb_refl|].
  intros [Hc Ha]%not_elem_of_cons. rewrite (proj2 (Z.eqb_neq c sep)) by done. by rewrite IH.
Qed.

Lemma lines_from_field acc a b :
  10 ∉ a -> lines_from acc (a ++ 10 :: b) = strip_cr (reverse acc ++ a) :: lines_from [] b.
Proof.
  revert acc. induction a as [|c a IH]; intros acc; cbn.
  - intros _. by rewrite app_nil_r.
  - intros [Hc Ha]%not_elem_of_cons. rewrite (proj2 (Z.eqb_neq c 10)) by done.
    rewrite IH by done. by rewrite reverse_cons, <- app_assoc.
Qed.

Lemma trim_id s :
  match s with [] => True | c :: _ => is_whitespace c = false end ->
  match last s with Some c => is_whitespace c = false | None => True end -> trim s = s.
Proof.
  intros Hh Hl. assert (Hts : trim_start s = s) by (destruct s as [|c s]; [done|]; cbn; by rewrite Hh).
  unfold trim. rewrite Hts. destruct s as [|c s _] using rev_ind; [done|].
  rewrite last_snoc in Hl. rewrite reverse_snoc. cbn [trim_start]. rewrite Hl.
  by rewrite <- reverse_snoc, reverse_involutive.
Qed.

Lemma print_rule_last r : last (print_rule r) = Some (if allow r then 119 else 121).
Proof.
  unfold print_rule. rewrite !last_app. by destruct (allow r).
Qed.

Lemma parse_print_rule r : printable r -> parse_line (print_rule r) = Some r.
Proof.
  intros (Hs & Ho & Hc & Hp & Hh). unfold parse_line.
  rewrite trim_id; [| |rewrite print_rule_last; by destruct (allow r)].
  2: { unfold print_rule. destruct (subject r); [done|]. by apply Hh. }
  destruct (print_rule r) as [|c l] eqn:Hpr.
  { unfold print_rule in Hpr. by destruct (subject r). }
  assert (Hc35 : (c =? 35) = false).
  { unfold print_rule in Hpr. destruct (subject r) as [|d s]; injection Hpr as <- _; [done|]. apply Z.eqb_neq, Hh. }
  rewrite Hc35, <- Hpr. unfold print_rule. cbn [splitn app].
  rewrite !cut_field by first [apply Hs|apply Ho|apply Hc|apply Hp].
  destruct r as [s o k p [|]]; reflexivity.
Qed.

Lemma omap_lines_print rs : Forall printable rs -> omap parse_line (lines (print_policy rs)) = rs.
Proof.
  induction 1 as [|r rs Hr Hrs IH]; [done|].
  unfold print_policy, lines in *. cbn [fmap list_fmap mjoin list_join]. rewrite <- app_assoc. cbn [app].
  rewrite lines_from_field; cbn [reverse rev_append app].
  - unfold strip_cr. rewrite print_rule_last.
    replace (match Some _ with Some 13 => removelast (print_rule r) | _ => print_rule r end) with (print_rule r)
      by (by destruct (allow r)).
    cbn [omap list_omap]. rewrite parse_print_rule by done. by f_equal.
  - destruct Hr as ([_ Hs] & [_ Ho] & [_ Hc] & [_ Hp] & _). unfold print_rule.
    rewrite !not_elem_of_app. split_and!; try done; destruct (allow r); compute_done.
Qed.

Lemma foldl_last_match {A} (f : A -> bool) (g : A -> bool) l b :
  foldl (fun acc x => if f x then g x else acc) b l = from_option g b (last (filter (fun x => f x = true) l)).
Proof.
  induction l as [|x l IH] using rev_ind; [done|]. rewrite foldl_app, filter_app. cbn.
  destruct (f x) eqn:Hf.
  - rewrite decide_True by done. by rewrite last_snoc.
  - rewrite decide_False by congruence. by rewrite app_nil_r.
Qed.

Lemma cut_no_sep sep s a b : cut sep s = (a, b) -> sep ∉ a.
Proof.
  revert a b. induction s as [|c s IH]; intros a b; cbn; [by intros [= <- _]; apply not_elem_of_nil|].
  destruct (Z.eqb_spec c sep); [by intros [= <- _]; apply not_elem_of_nil|].
  destruct (cut sep s) as [a' b'] eqn:Hc. intros [= <- _]. apply not_elem_of_cons. split; [done|by eapply IH].
Qed.

(** Whatever the text, no rule has a colon in its subject or object. *)
Lemma parse_line_no_colon line r : parse_line line = Some r -> (58 ∉ subject r) /\ (58 ∉ object r).
Proof.
  unfold parse_line. destruct (trim line) as [|c l]; [done|]. destruct (c =? 35); [done|].
  generalize (c :: l). intros s. cbn [splitn].
  destruct (cut 58 s) as [p0 [s1|]] eqn:H0; [|done]. destruct (cut 58 s1) as [p1 [s2|]] eqn:H1; [|done].
  destruct (cut 58 s2) as [p2 [s3|]]; [|done]. destruct (cut 58 s3) as [p3 [s4|]]; [|done].
  apply cut_no_sep in H0, H1. do 2 (case_decide; [by intros [= <-]|]). done.
Qed.

Lemma process_matches_star id o c p r :
  58 ∉ subject r -> matches (current_subject (Some id)) o c p r = bool_decide (subject r = star) && matches star o c p r.
Proof.
  intros Hs. unfold matches. rewrite (bool_decide_eq_false_2 (subject r = current_subject (Some id))).
  - destruct (bool_decide (subject r = star)); cbn; by rewrite ?andb_false_r.
  - intros Heq. apply Hs. rewrite Heq. apply elem_of_app. left. compute_done.
Qed.

(** Loading the text of a list of rules makes the hooks answer as the last
    rule that matches subject, object, class and permission says, and allow
    what no rule matches: every printed rule is read back as it was. Whatever
    text is loaded, a check made for a process is decided by the rules whose
    subject is the wildcard: a process is named [pid:N], and the colon ends the
    subject of a rule. *)
Theorem policy_decides l rs text s o c p id :
  Forall printable rs -> rs <> [] ->
  (let '(ok, l') := load_policy (print_policy rs) l in
   ok = true /\ POLICY l' = rs /\
   check l' s o c p = from_option allow true (last (filter (fun r => matches s o c p r = true) rs))) /\
  (let '(ok, l') := load_policy text l in
   ok = true ->
   check l' (current_subject (Some id)) o c p =
     from_option allow true (last (filter (fun r => subject r = star /\ matches star o c p r = true) (POLICY l')))).
Proof.
  intros Hrs Hne. split.
  - unfold load_policy. rewrite omap_lines_print by done. destruct rs as [|r rs]; [done|].
    split_and!; [done|done|]. unfold check. cbn [LSM_ENABLED negb POLICY]. apply foldl_last_match.
  - unfold load_policy. destruct (omap parse_line (lines text)) as [|r0 rs0] eqn:Hrules; [done|].
    intros _. unfold check. cbn [LSM_ENABLED negb POLICY]. rewrite foldl_last_match. do 2 f_equal.
    assert (Hall : Forall (fun r => 58 ∉ subject r) (r0 :: rs0)).
    { rewrite <- Hrules. apply Forall_forall. intros r (line & _ & Hl)%list_elem_of_omap. by apply (parse_line_no_colon line). }
    clear -Hall. induction Hall as [|r rs Hr _ IH]; [done|]. rewrite !filter_cons. rewrite IH.
    rewrite process_matches_star by done. by destruct (decide (subject r = star)) as [Hst|Hst];
      [rewrite bool_decide_eq_true_2 by done|rewrite bool_decide_eq_false_2 by done]; cbn; repeat case_decide; naive_solver.
Qed.

Definition demo_rules : list LsmRule :=
  [mkRule star star (str "file") (str "kill") false; mkRule (str "kernel") star (str "file") (str "kill") true].

Lemma policy_decides_witness :
  let '(ok, l') := load_policy (print_policy demo_rules) (mkLsm false 0 [] ∅) in
  ok = true /\ check l' (str "kernel") (str "pid:9") (str "file") (str "kill") = true /\
  check l' (current_subject (Some 7)) (str "pid:9") (str "file") (str "kill") = false.
Proof.
  pose proof (policy_decides (mkLsm false 0 [] ∅) demo_rules (print_policy demo_rules) (str "kernel") (str "pid:9")
    (str "file") (str "kill") 7) as H.
  destruct (load_policy _ _) as [ok l'] eqn:Hl. destruct H as ((Hok & Hp & Hc) & Hw).
  - unfold demo_rules, printable, field_ok. repeat apply Forall_cons_2; [..|apply Forall_nil_2];
      cbn [subject object class perm star str]; split_and!; first [compute_done|done].
  - done.
  - split_and!; [exact Hok|rewrite Hc; vm_compute; reflexivity|].
    rewrite (Hw Hok), Hp. vm_compute. reflexivity.
Defined.

(** The bitmask has one bit for every 64th system call: allowing [read] (0)
    allows the call with number 64 as well. *)
Example filter_aliases :
  let l := set_syscall_filter 5 1 (mkLsm false 0 [] ∅) in
  check_syscall_allowed l (Some 5) 0 = true /\ check_syscall_allowed l (Some 5) 64 = true /\
  check_syscall_allowed l (Some 5) 1 = false.
Proof. vm_compute. done. Qed.
