(* ===== verification/Entry.v ===== *)
(** * System-call entry and the first return of a forked child

    The assembly of the kernel, instruction by instruction: [syscall_entry]
    ([kernel/src/syscalls/mod.rs]), [switch_context] and [fork_child_return]
    ([kernel/src/task/thread.rs]), on a machine with the general registers, the
    instruction pointer, the flags, memory by aligned 64-bit words and the two GS
    bases; and the context that [Thread::clone_fork] writes on the stack of a
    child. What the [call] of [syscall_entry] does is an argument: it may
    change any memory and any register that the calling convention lets it
    change. *)

From stdpp Require Import functions.
From S2P Require Import Prelude.

(** ** The machine *)

Inductive Reg :=
| RAX | RBX | RCX | RDX | RSI | RDI | RBP | RSP | R8 | R9 | R10 | R11 | R12 | R13 | R14 | R15.

#[global] Instance Reg_eq_dec : EqDecision Reg.
Proof. solve_decision. Defined.

Record Machine := mkMachine {
  reg : Reg -> Z; rip : Z; rflags : Z; mem : Z -> Z; gs_base : Z; kernel_gs_base : Z }.

Definition set_reg (r : Reg) (v : Z) (m : Machine) : Machine :=
  mkMachine (<[r := v]> (reg m)) (rip m) (rflags m) (mem m) (gs_base m) (kernel_gs_base m).
Definition set_rip (v : Z) (m : Machine) : Machine :=
  mkMachine (reg m) v (rflags m) (mem m) (gs_base m) (kernel_gs_base m).
Definition set_rflags (v : Z) (m : Machine) : Machine :=
  mkMachine (reg m) (rip m) v (mem m) (gs_base m) (kernel_gs_base m).
Definition store (a v : Z) (m : Machine) : Machine :=
  mkMachine (reg m) (rip m) (rflags m) (<[a := v]> (mem m)) (gs_base m) (kernel_gs_base m).

(** [gs:[off]], [[r + off]], a register or a constant. *)
Inductive Operand := Gs (off : Z) | At (r : Reg) (off : Z) | Rg (r : Reg) | Imm (v : Z).

Definition fetch (o : Operand) (m : Machine) : Z :=
  match o with
  | Gs off => mem m (u64 (gs_base m + off))
  | At r off => mem m (u64 (reg m r + off))
  | Rg r => reg m r
  | Imm v => v
  end.

Definition assign (o : Operand) (v : Z) (m : Machine) : Machine :=
  match o with
  | Gs off => store (u64 (gs_base m + off)) v m
  | At r off => store (u64 (reg m r + off)) v m
  | Rg r => set_reg r v m
  | Imm _ => m
  end.

(** The instructions the listings use. [MOVSEG] loads a data-segment register,
    which in 64-bit mode changes nothing that is modelled; the arithmetic flags
    that [ADD] and [XOR_EAX] leave are not modelled, no listing reads them. *)
Inductive Instr :=
| ENDBR64 | SWAPGS | CLI | STI | MOVSEG
| MOV (dst src : Operand) | PUSH (src : Operand) | POP (dst : Reg) | ADD (r : Reg) (n : Z)
| XOR_EAX | MOV_AX (src : Reg) | PUSHFQ | POPFQ | RET | SYSRETQ | IRETQ.

Definition push (v : Z) (m : Machine) : Machine :=
  let sp := u64 (reg m RSP - 8) in store sp v (set_reg RSP sp m).

Definition top (m : Machine) : Z := mem m (reg m RSP).
Definition drop_words (n : Z) (m : Machine) : Machine := set_reg RSP (u64 (reg m RSP + 8 * n)) m.

(** What [sysretq] loads the flags from R11 with: RF, VM and the reserved bits
    are cleared and bit 1 is set. *)
Definition sysret_flags (f : Z) : Z := Z.lor (Z.land f 0x3C7FD7) 2.
Definition IF : Z := 0x200.

Definition step (i : Instr) (m : Machine) : Machine :=
  match i with
  | ENDBR64 | MOVSEG => m
  | SWAPGS => mkMachine (reg m) (rip m) (rflags m) (mem m) (kernel_gs_base m) (gs_base m)
  | CLI => set_rflags (Z.ldiff (rflags m) IF) m
  | STI => set_rflags (Z.lor (rflags m) IF) m
  | MOV dst src => assign dst (fetch src m) m
  | PUSH src => push (fetch src m) m
  | POP dst => set_reg dst (top m) (drop_words 1 m)
  | ADD r n => set_reg r (u64 (reg m r + n)) m
  | XOR_EAX => set_reg RAX 0 m
  | MOV_AX src => set_reg RAX (reg m RAX - u16 (reg m RAX) + u16 (reg m src)) m
  | PUSHFQ => push (rflags m) m
  | POPFQ => set_rflags (top m) (drop_words 1 m)
  | RET => set_rip (top m) (drop_words 1 m)
  | SYSRETQ => set_rflags (sysret_flags (reg m R11)) (set_rip (reg m RCX) m)
  | IRETQ =>
      let sp := reg m RSP in
      set_reg RSP (mem m (u64 (sp + 24)))
        (set_rflags (mem m (u64 (sp + 16))) (set_rip (mem m sp) m))
  end.

Definition exec (code : list Instr) (m : Machine) : Machine := foldl (fun m i => step i m) m code.

(** ** [syscall_entry] *)

(** What the [syscall] instruction does, with the mask that
    [init_syscall_msrs] writes: IF, DF and AC are cleared. *)
Definition SFMASK : Z := Z.lor 0x200 (Z.lor 0x400 0x40000).

Definition syscall_insn (lstar : Z) (m : Machine) : Machine :=
  set_rip lstar (set_rflags (Z.ldiff (rflags m) SFMASK) (set_reg R11 (rflags m) (set_reg RCX (rip m) m))).

Definition entry_code : list Instr :=
  [ENDBR64; SWAPGS; MOV (Gs 0x18) (Rg RSP); MOV (Rg RSP) (Gs 0x10);
   PUSH (Gs 0x18); PUSH (Rg R11); PUSH (Rg RCX); PUSH (Rg RAX); PUSH (Rg RCX); PUSH (Rg RDX);
   PUSH (Rg RBX); PUSH (Rg RBP); PUSH (Rg RSI); PUSH (Rg RDI); PUSH (Rg R8); PUSH (Rg R9);
   PUSH (Rg R10); PUSH (Rg R11); PUSH (Rg R12); PUSH (Rg R13); PUSH (Rg R14); PUSH (Rg R15);
   MOV (Rg RDI) (At RSP 112); MOV (Rg RSI) (At RSP 64); MOV (Rg RDX) (At RSP 72);
   MOV (Rg RCX) (At RSP 96); MOV (Rg R8) (At RSP 40); MOV (Rg R9) (At RSP 56); PUSH (Rg RSP)].

Definition exit_code : list Instr :=
  [ADD RSP 8; POP R15; POP R14; POP R13; POP R12; ADD RSP 8; POP R10; POP R9; POP R8; POP RDI;
   POP RSI; POP RBP; POP RBX; POP RDX; POP RCX; MOV (Rg R11) (At RSP 16); ADD RSP 8; ADD RSP 24;
   MOV (Rg RSP) (Gs 0x18); SWAPGS; SYSRETQ].

(** [syscall_handler(n, arg1, .., arg5, regs_ptr)]: its result and the memory
    it leaves. *)
Definition Handler : Type := Z -> list Z -> Z -> (Z -> Z) -> Z * (Z -> Z).

Definition callee_saved (r : Reg) : bool :=
  match r with RBX | RBP | RSP | R12 | R13 | R14 | R15 => true | _ => false end.

(** The [call]: seven arguments, the last on the stack; the registers that the
    convention does not preserve come back as [scratch] says. *)
Definition call_handler (h : Handler) (scratch : Reg -> Z) (m : Machine) : Machine :=
  let '(ret, mem') := h (reg m RDI) [reg m RSI; reg m RDX; reg m RCX; reg m R8; reg m R9] (top m) (mem m) in
  mkMachine (fun r => if callee_saved r then reg m r else if decide (r = RAX) then ret else scratch r)
    (rip m) (rflags m) mem' (gs_base m) (kernel_gs_base m).

Definition syscall_entry (h : Handler) (scratch : Reg -> Z) (m : Machine) : Machine :=
  exec exit_code (call_handler h scratch (exec entry_code m)).

(** The eighteen saved words, from [regs_ptr] on. *)
Definition words (mm : Z -> Z) (p : Z) (n : nat) : list Z := (fun i => mm (p + 8 * Z.of_nat i)) <$> seq 0 n.
Definition frame (mm : Z -> Z) (p : Z) : list Z := words mm p 18.

(** What the stub saves, in the order of the frame. *)
Definition saved_words (m : Machine) : list Z :=
  reg m <$> [R15; R14; R13; R12; R11; R10; R9; R8; RDI; RSI; RBP; RBX; RDX; RCX; RAX; RCX; R11; RSP].

(** The kernel stack of the CPU and its per-CPU data lie in memory, aligned and
    apart. *)
Definition layout (kgs k : Z) : Prop :=
  0 <= kgs /\ kgs + 0x20 <= M64 /\ 152 <= k < M64 /\ (kgs + 0x20 <= k - 152 \/ k <= kgs).

(** ** Forked children *)

(** [TaskContext], in the order of its fields. *)
Record TaskContext := mkContext {
  c_r15 : Z; c_r14 : Z; c_r13 : Z; c_r12 : Z; c_r11 : Z; c_r10 : Z; c_r9 : Z; c_r8 : Z; c_rdi : Z;
  c_rsi : Z; c_rbp : Z; c_rbx : Z; c_rdx : Z; c_rcx : Z; c_rax : Z; c_rflags : Z; c_rip : Z; c_rsp : Z }.

Definition context_words (c : TaskContext) : list Z :=
  [c_r15 c; c_r14 c; c_r13 c; c_r12 c; c_r11 c; c_r10 c; c_r9 c; c_r8 c; c_rdi c; c_rsi c; c_rbp c;
   c_rbx c; c_rdx c; c_rcx c; c_rax c; c_rflags c; c_rip c; c_rsp c].

(** The context that [Thread::clone_fork] makes of the frame at [parent_regs];
    [ret] is the address of [fork_child_return]. *)
Definition fork_context (ret parent_regs : Z) (mm : Z -> Z) : TaskContext :=
  let w i := mm (parent_regs + 8 * i) in
  let user_rip := w 15 in
  let user_rflags := w 16 in
  let user_rsp := w 17 in
  mkContext (w 0) (w 1) (w 2) (w 3) (w 4) (w 5) (w 6) user_rflags user_rip user_rsp (w 10) (w 11)
    user_rflags (w 13) 0 user_rflags ret user_rsp.

(** The context of [Thread::clone_thread]: the same, on the child's stack when
    one is given. *)
Definition thread_context (ret parent_regs child_stack : Z) (mm : Z -> Z) : TaskContext :=
  let w i := mm (parent_regs + 8 * i) in
  let user_rip := w 15 in
  let user_rflags := w 16 in
  let effective_rsp := if negb (child_stack =? 0) then child_stack else w 17 in
  mkContext (w 0) (w 1) (w 2) (w 3) (w 4) (w 5) (w 6) user_rflags user_rip effective_rsp (w 10) (w 11)
    user_rflags (w 13) 0 user_rflags ret effective_rsp.

(** Where [clone_fork] writes it: below the top of the child's kernel stack. *)
Definition context_address (stack_top : Z) : Z := Z.land stack_top (not64 0xF) - 144.

Fixpoint write_words (a : Z) (l : list Z) (mm : Z -> Z) : Z -> Z :=
  match l with
  | [] => mm
  | v :: l => write_words (a + 8) l (<[a := v]> mm)
  end.

Definition switch_code : list Instr :=
  [CLI; PUSHFQ; PUSH (Rg RAX); PUSH (Rg RCX); PUSH (Rg RDX); PUSH (Rg RBX); PUSH (Rg RBP);
   PUSH (Rg RSI); PUSH (Rg RDI); PUSH (Rg R8); PUSH (Rg R9); PUSH (Rg R10); PUSH (Rg R11);
   PUSH (Rg R12); PUSH (Rg R13); PUSH (Rg R14); PUSH (Rg R15);
   MOV (At RDI 0) (Rg RSP); MOV (Rg RSP) (Rg RSI);
   POP R15; POP R14; POP R13; POP R12; POP R11; POP R10; POP R9; POP R8; POP RDI; POP RSI;
   POP RBP; POP RBX; POP RDX; POP RCX; POP RAX; POPFQ; STI; RET].

(** [ss] and [cs] are the words FORK_CHILD_SS and FORK_CHILD_CS. *)
Definition fork_child_return (ss cs : Z) : list Instr :=
  [CLI; MOV (Rg R9) (Imm ss); MOV_AX R9; MOVSEG; MOVSEG; MOVSEG; SWAPGS; XOR_EAX;
   PUSH (Rg R9); PUSH (Rg RSI); PUSH (Rg R8); MOV (Rg R9) (Imm cs); PUSH (Rg R9); PUSH (Rg RDI); IRETQ].

(** ** Runs of pushes and pops *)

Lemma exec_app c1 c2 m : exec (c1 ++ c2) m = exec c2 (exec c1 m).
Proof. unfold exec. by rewrite foldl_app. Qed.

Lemma write_words_out l : forall a a' mm,
  a' < a \/ a + 8 * Z.of_nat (length l) <= a' -> write_words a l mm a' = mm a'.
Proof.
  induction l as [|v l IH]; intros a a' mm Ha; [done|]. cbn [write_words length] in *.
  rewrite IH by lia. rewrite fn_lookup_insert_ne by lia. done.
Qed.

Lemma write_words_in l : forall a i v mm,
  l !! i = Some v -> write_words a l mm (a + 8 * Z.of_nat i) = v.
Proof.
  induction l as [|w l IH]; intros a [|i] v mm Hi; [done..| |]; cbn [write_words] in *.
  - injection Hi as ->. rewrite write_words_out by lia. rewrite Z.mul_0_r, Z.add_0_r. apply fn_lookup_insert.
  - rewrite <- (IH (a + 8) i v (<[a:=w]> mm) Hi). f_equal. lia.
Qed.

Lemma write_words_ext l : forall a a' mm mm', mm a' = mm' a' -> write_words a l mm a' = write_words a l mm' a'.
Proof.
  induction l as [|v l IH]; intros a a' mm mm' Heq; [done|]. cbn [write_words]. apply IH.
  destruct (decide (a' = a)) as [->|Hne]; [by rewrite !fn_lookup_insert|by rewrite !fn_lookup_insert_ne].
Qed.

Lemma write_words_app l1 : forall l2 a mm,
  write_words a (l1 ++ l2) mm = write_words (a + 8 * Z.of_nat (length l1)) l2 (write_words a l1 mm).
Proof.
  induction l1 as [|v l1 IH]; intros l2 a mm; cbn [write_words app length]; [by rewrite Z.mul_0_r, Z.add_0_r|].
  rewrite IH. f_equal. lia.
Qed.

Lemma words_lookup mm p n i : (i < n)%nat -> words mm p n !! i = Some (mm (p + 8 * Z.of_nat i)).
Proof. intros Hi. unfold words. rewrite list_lookup_fmap, lookup_seq_lt by done. done. Qed.

Lemma words_length mm p n : length (words mm p n) = n.
Proof. unfold words. by rewrite length_fmap, length_seq. Qed.

Lemma words_ext mm mm' p n :
  (forall i, (i < n)%nat -> mm (p + 8 * Z.of_nat i) = mm' (p + 8 * Z.of_nat i)) -> words mm p n = words mm' p n.
Proof.
  intros Heq. apply list_eq_same_length with n; [apply words_length..|]. intros i x y Hi Hx Hy.
  rewrite words_lookup in Hx, Hy by done. injection Hx as <-. injection Hy as <-. auto.
Qed.

(** Same registers apart from those of [l], same flags, bases and instruction
    pointer. *)
Definition same_but (l : list Reg) (m m' : Machine) : Prop :=
  (forall r, r ∉ l -> reg m' r = reg m r) /\ rip m' = rip m /\ rflags m' = rflags m /\
  gs_base m' = gs_base m /\ kernel_gs_base m' = kernel_gs_base m.

Lemma exec_pushes l : forall m, RSP ∉ l ->
  8 * Z.of_nat (length l) <= reg m RSP < M64 ->
  let m' := exec ((fun r => PUSH (Rg r)) <$> l) m in
  let s := reg m RSP - 8 * Z.of_nat (length l) in
  reg m' RSP = s /\ same_but [RSP] m m' /\
  forall a, mem m' a = write_words s (reverse (reg m <$> l)) (mem m) a.
Proof.
  induction l as [|r l IH] using rev_ind; intros m Hl Hs; cbv zeta.
  { cbn in *. unfold same_but. rewrite Z.sub_0_r. done. }
  rewrite length_app in *. cbn [length] in *. apply not_elem_of_app in Hl as [Hl Hr].
  destruct (IH m Hl ltac:(lia)) as (Hsp & (Hreg & Hrip & Hfl & Hgs & Hkgs) & Hmem).
  rewrite fmap_app, exec_app. cbn [fmap list_fmap]. cbn [exec foldl step fetch].
  set (m1 := exec _ m) in *. unfold push. cbn [reg set_reg store mem rip rflags gs_base kernel_gs_base].
  assert (Hsp' : u64 (reg m1 RSP - 8) = reg m RSP - 8 * Z.of_nat (length l + 1)).
  { rewrite Hsp. rewrite u64_small by (unfold is_u64; lia). lia. }
  split_and!.
  - unfold store, set_reg. cbn [reg]. rewrite fn_lookup_insert. exact Hsp'.
  - split_and!; cbn; [|done..]. intros q Hq. rewrite fn_lookup_insert_ne by set_solver. auto.
  - intros a. cbn. rewrite Hsp', fmap_app, reverse_app. cbn [fmap list_fmap reverse rev_append app].
    cbn [write_words]. rewrite (Hreg r) by set_solver.
    replace (reg m RSP - 8 * Z.of_nat (length l + 1) + 8) with (reg m RSP - 8 * Z.of_nat (length l)) by lia.
    destruct (decide (a = reg m RSP - 8 * Z.of_nat (length l + 1))) as [->|Hne].
    + rewrite fn_lookup_insert, write_words_out; [by rewrite fn_lookup_insert|].
      left. lia.
    + rewrite fn_lookup_insert_ne by done. rewrite Hmem.
      apply write_words_ext. by rewrite fn_lookup_insert_ne.
Qed.

Lemma exec_pops l : forall m, RSP ∉ l -> NoDup l ->
  0 <= reg m RSP -> reg m RSP + 8 * Z.of_nat (length l) < M64 ->
  let m' := exec (POP <$> l) m in
  reg m' RSP = reg m RSP + 8 * Z.of_nat (length l) /\ same_but (RSP :: l) m m' /\ mem m' = mem m /\
  forall i r, l !! i = Some r -> reg m' r = mem m (reg m RSP + 8 * Z.of_nat i).
Proof.
  induction l as [|q l IH]; intros m Hl Hnd Hs Hs'; cbv zeta.
  { cbn in *. split_and!; [lia| |done|done]. by split_and!. }
  cbn [length] in *. apply NoDup_cons in Hnd as [Hq Hnd]. cbn [fmap list_fmap].
  change (exec (POP q :: (POP <$> l)) m) with (exec (POP <$> l) (step (POP q) m)). cbn [step].
  set (m1 := set_reg q (top m) (drop_words 1 m)).
  assert (H1 : reg m1 RSP = reg m RSP + 8).
  { unfold m1, drop_words. cbn. rewrite fn_lookup_insert_ne by set_solver. rewrite fn_lookup_insert.
    by rewrite u64_small by (unfold is_u64; lia). }
  destruct (IH m1 ltac:(set_solver) Hnd ltac:(lia) ltac:(lia)) as (Hsp & (Hreg & Hrest) & Hmem & Hi).
  split_and!; [lia| |done|].
  - split_and!; [|apply Hrest..]. intros r Hr. rewrite Hreg by set_solver. unfold m1, drop_words. cbn.
    by rewrite !fn_lookup_insert_ne by set_solver.
  - intros [|i] r Hr.
    + injection Hr as ->. rewrite Hreg by set_solver. unfold m1. cbn. rewrite fn_lookup_insert.
      unfold top. f_equal. lia.
    + rewrite (Hi i r Hr). unfold m1 at 1. cbn [mem set_reg drop_words]. f_equal. lia.
Qed.

(** ** What the stub saves and what it restores *)

Definition switch_stack : list Instr :=
  [ENDBR64; SWAPGS; MOV (Gs 0x18) (Rg RSP); MOV (Rg RSP) (Gs 0x10); PUSH (Gs 0x18)].
Definition pushed : list Reg :=
  [R11; RCX; RAX; RCX; RDX; RBX; RBP; RSI; RDI; R8; R9; R10; R11; R12; R13; R14; R15].
Definition load_args : list Instr :=
  [MOV (Rg RDI) (At RSP 112); MOV (Rg RSI) (At RSP 64); MOV (Rg RDX) (At RSP 72);
   MOV (Rg RCX) (At RSP 96); MOV (Rg R8) (At RSP 40); MOV (Rg R9) (At RSP 56); PUSH (Rg RSP)].

Lemma entry_code_parts : entry_code = switch_stack ++ ((fun r => PUSH (Rg r)) <$> pushed) ++ load_args.
Proof. reflexivity. Qed.

Ltac word64 :=
  repeat match goal with |- context [u64 ?x] => rewrite (u64_small x) by (unfold is_u64; lia) end.

Ltac fn_simp :=
  repeat match goal with
    | |- context [<[?a := ?v]> ?f ?b] =>
        first [ rewrite (fn_lookup_insert f a v) | rewrite (fn_lookup_insert_ne f a b v) by (discriminate || lia) ]
    end.

Lemma switch_stack_spec m :
  let kgs := kernel_gs_base m in
  let k := mem m (kgs + 0x10) in
  layout kgs k ->
  let m' := exec switch_stack m in
  reg m' RSP = k - 8 /\ (forall r, r <> RSP -> reg m' r = reg m r) /\ rip m' = rip m /\ rflags m' = rflags m /\
  gs_base m' = kgs /\ kernel_gs_base m' = gs_base m /\
  forall a, mem m' a = <[k - 8 := reg m RSP]> (<[kgs + 0x18 := reg m RSP]> (mem m)) a.
Proof.
  intros kgs k (Hg & Hg' & Hk & Hap). cbv zeta. unfold switch_stack. cbn [exec foldl step assign fetch].
  cbn [reg set_reg store mem rip rflags gs_base kernel_gs_base].
  unfold push. cbn [reg set_reg store mem rip rflags gs_base kernel_gs_base].
  fold kgs. word64. fn_simp. fold k. word64.
  split_and!; [done| |done..]. intros r Hr. by rewrite !fn_lookup_insert_ne by done.
Qed.

Lemma load_args_spec m :
  8 <= reg m RSP -> reg m RSP + 120 < M64 ->
  let w i := mem m (reg m RSP + i) in
  let m' := exec load_args m in
  reg m' RSP = reg m RSP - 8 /\ top m' = reg m RSP /\
  [reg m' RDI; reg m' RSI; reg m' RDX; reg m' RCX; reg m' R8; reg m' R9] = [w 112; w 64; w 72; w 96; w 40; w 56] /\
  (forall r, callee_saved r = true -> r <> RSP -> reg m' r = reg m r) /\
  rip m' = rip m /\ rflags m' = rflags m /\ gs_base m' = gs_base m /\ kernel_gs_base m' = kernel_gs_base m /\
  mem m' = <[reg m RSP - 8 := reg m RSP]> (mem m).
Proof.
  intros Hs Hs'. cbv zeta. unfold load_args, top. cbn [exec foldl step assign fetch].
  cbn [reg set_reg store mem rip rflags gs_base kernel_gs_base].
  unfold push. cbn [reg set_reg store mem rip rflags gs_base kernel_gs_base].
  fn_simp. word64. fn_simp. split_and!; [done..| |done|done|done|done|done].
  intros r Hr Hne. destruct r; try done; by fn_simp.
Qed.

(** The memory that the handler is given. *)
Lemma entry_spec m :
  let kgs := kernel_gs_base m in
  let k := mem m (kgs + 0x10) in
  layout kgs k ->
  let m' := exec entry_code m in
  reg m' RSP = k - 152 /\ top m' = k - 144 /\
  [reg m' RDI; reg m' RSI; reg m' RDX; reg m' RCX; reg m' R8; reg m' R9] =
    [reg m RAX; reg m RDI; reg m RSI; reg m RDX; reg m R10; reg m R8] /\
  (forall r, callee_saved r = true -> r <> RSP -> reg m' r = reg m r) /\
  rip m' = rip m /\ rflags m' = rflags m /\ gs_base m' = kgs /\ kernel_gs_base m' = gs_base m /\
  frame (mem m') (k - 144) = saved_words m /\ mem m' (kgs + 0x18) = reg m RSP /\
  (forall a, a <> kgs + 0x18 -> a < k - 152 \/ k <= a -> mem m' a = mem m a).
Proof.
  intros kgs k Hlay. pose proof Hlay as (Hg & Hg' & Hk & Hap). cbv zeta.
  rewrite entry_code_parts, !exec_app.
  destruct (switch_stack_spec m Hlay) as (Hsp1 & Hr1 & Hrip1 & Hf1 & Hg1 & Hk1 & Hm1). fold kgs k in Hsp1, Hg1, Hm1.
  set (m1 := exec switch_stack m) in *.
  destruct (exec_pushes pushed m1 ltac:(compute_done) ltac:(rewrite Hsp1; change (length pushed) with 17%nat; lia)) as (Hsp2 & (Hr2 & Hrip2 & Hf2 & Hg2 & Hk2) & Hm2).
  set (m2 := exec _ m1) in *. rewrite Hsp1 in Hsp2, Hm2. change (length pushed) with 17%nat in Hsp2, Hm2.
  replace (k - 8 - 8 * Z.of_nat 17) with (k - 144) in Hsp2, Hm2 by lia.
  destruct (load_args_spec m2 ltac:(lia) ltac:(lia)) as (Hsp3 & Htop & Hargs & Hr3 & Hrip3 & Hf3 & Hg3 & Hk3 & Hm3).
  set (m3 := exec load_args m2) in *. rewrite Hsp2 in *.
  assert (Hsv : saved_words m = reverse (reg m1 <$> pushed) ++ [reg m RSP]).
  { cbn [fmap list_fmap pushed]. rewrite !Hr1 by done. reflexivity. }
  assert (Hlen : length (saved_words m) = 18%nat) by reflexivity.
  clearbody m1 m2 m3.
  assert (Hmem : forall a, mem m3 a =
    <[k - 152 := k - 144]> (write_words (k - 144) (saved_words m) (<[kgs + 0x18 := reg m RSP]> (mem m))) a).
  { intros a. rewrite Hm3. destruct (decide (a = k - 152)) as [->|Hne].
    { replace (k - 144 - 8) with (k - 152) by lia. by rewrite !fn_lookup_insert. }
    rewrite !fn_lookup_insert_ne by lia. rewrite Hm2, Hsv, write_words_app. cbn [write_words].
    assert (Hl : length (reverse (reg m1 <$> pushed)) = 17%nat) by by rewrite length_reverse, length_fmap.
    rewrite Hl. replace (k - 144 + 8 * Z.of_nat 17) with (k - 8) by lia.
    destruct (decide (a = k - 8)) as [->|Hne'].
    { rewrite fn_lookup_insert, write_words_out by lia. by rewrite Hm1, fn_lookup_insert. }
    rewrite (fn_lookup_insert_ne _ (k - 8)) by done. apply write_words_ext. by rewrite Hm1, fn_lookup_insert_ne. }
  assert (Hfr : frame (mem m3) (k - 144) = saved_words m).
  { apply list_eq_same_length with 18%nat; [done..|]. intros i x y Hi Hx Hy.
    unfold frame in Hx. rewrite words_lookup in Hx by done. injection Hx as <-. rewrite Hmem.
    rewrite fn_lookup_insert_ne by lia. by apply write_words_in. }
  split_and!; [lia|done| | |congruence|congruence|congruence|congruence|exact Hfr| |].
  - assert (Hw : forall i v, saved_words m !! i = Some v -> mem m2 (k - 144 + 8 * Z.of_nat i) = v).
    { intros i v Hi. pose proof (lookup_lt_Some _ _ _ Hi) as Hlt. rewrite Hlen in Hlt.
      unfold frame in Hfr. rewrite <- Hfr, words_lookup in Hi by lia. injection Hi as <-. rewrite Hm3.
      by rewrite fn_lookup_insert_ne by lia. }
    rewrite Hargs. repeat apply (f_equal2 cons);
      [exact (Hw 14%nat _ eq_refl)|exact (Hw 8%nat _ eq_refl)|exact (Hw 9%nat _ eq_refl)
      |exact (Hw 12%nat _ eq_refl)|exact (Hw 5%nat _ eq_refl)|exact (Hw 7%nat _ eq_refl)|done].
  - intros r Hr Hne. rewrite Hr3, Hr2, Hr1; [done|done| |done|done]. by intros Hin%list_elem_of_singleton.
  - rewrite Hmem, fn_lookup_insert_ne, write_words_out by lia. apply fn_lookup_insert.
  - intros a Ha Ha'. rewrite Hmem, fn_lookup_insert_ne, write_words_out by lia. by rewrite fn_lookup_insert_ne.
Qed.

Definition popped : list Reg := [R10; R9; R8; RDI; RSI; RBP; RBX; RDX; RCX].

Lemma exit_code_parts : exit_code =
  [ADD RSP 8] ++ (POP <$> [R15; R14; R13; R12]) ++ [ADD RSP 8] ++ (POP <$> popped) ++
  [MOV (Rg R11) (At RSP 16); ADD RSP 8; ADD RSP 24; MOV (Rg RSP) (Gs 0x18); SWAPGS; SYSRETQ].
Proof. reflexivity. Qed.

Lemma exit_spec m :
  let p := reg m RSP + 8 in
  0 <= reg m RSP -> p + 144 < M64 -> 0 <= gs_base m -> gs_base m + 0x20 <= M64 ->
  let f i := mem m (p + 8 * i) in
  let m' := exec exit_code m in
  rip m' = f 13 /\ rflags m' = sysret_flags (f 16) /\ reg m' RSP = mem m (gs_base m + 0x18) /\
  reg m' <$> [R15; R14; R13; R12; R11; R10; R9; R8; RDI; RSI; RBP; RBX; RDX; RCX; RAX] =
    [f 0; f 1; f 2; f 3; f 16; f 5; f 6; f 7; f 8; f 9; f 10; f 11; f 12; f 13; reg m RAX] /\
  gs_base m' = kernel_gs_base m /\ kernel_gs_base m' = gs_base m /\ mem m' = mem m.
Proof.
  intros p Hs Hs' Hg Hg'. cbv zeta. rewrite exit_code_parts, !exec_app.
  assert (Ha : forall q, 0 <= reg q RSP -> reg q RSP + 8 < M64 -> exec [ADD RSP 8] q = set_reg RSP (reg q RSP + 8) q).
  { intros q Hq Hq'. cbn. by rewrite u64_small by (unfold is_u64; lia). }
  rewrite (Ha m) by lia. set (m1 := set_reg RSP _ m).
  assert (Hsp1 : reg m1 RSP = p) by apply fn_lookup_insert.
  destruct (exec_pops [R15; R14; R13; R12] m1 ltac:(compute_done) ltac:(compute_done) ltac:(lia) ltac:(cbn [length popped]; lia))
    as (Hsp2 & (Hr2 & Hrip2 & Hf2 & Hg2 & Hk2) & Hm2 & Hv2).
  set (m2 := exec _ m1) in *. rewrite Hsp1 in Hsp2, Hv2. cbn [length] in Hsp2.
  rewrite (Ha m2) by lia. set (m3 := set_reg RSP _ m2).
  assert (Hsp3 : reg m3 RSP = p + 40) by (unfold m3; cbn [reg set_reg]; rewrite fn_lookup_insert; lia).
  destruct (exec_pops popped m3 ltac:(compute_done) ltac:(compute_done) ltac:(lia) ltac:(cbn [length popped]; lia))
    as (Hsp4 & (Hr4 & Hrip4 & Hf4 & Hg4 & Hk4) & Hm4 & Hv4).
  set (m4 := exec _ m3) in *. rewrite Hsp3 in Hsp4, Hv4. change (length popped) with 9%nat in Hsp4.
  assert (Hm : mem m4 = mem m) by (rewrite Hm4; exact Hm2).
  assert (Hgs : gs_base m4 = gs_base m) by (rewrite Hg4; exact Hg2).
  assert (Hkgs : kernel_gs_base m4 = kernel_gs_base m) by (rewrite Hk4; exact Hk2).
  assert (Hold : forall i r, [R15; R14; R13; R12] !! i = Some r -> reg m4 r = mem m (p + 8 * Z.of_nat i)).
  { intros i r Hi. change (mem m) with (mem m1). rewrite <- (Hv2 i r Hi).
    assert (Hr : r ∈ [R15; R14; R13; R12]) by (by eapply list_elem_of_lookup_2).
    rewrite Hr4 by (revert Hr; clear; destruct r; compute_done).
    apply fn_lookup_insert_ne. intros <-. revert Hr. compute_done. }
  assert (Hrax : reg m4 RAX = reg m RAX).
  { rewrite Hr4 by compute_done. unfold m3. cbn [reg set_reg]. rewrite fn_lookup_insert_ne by done.
    rewrite Hr2 by compute_done. by apply fn_lookup_insert_ne. }
  change (mem m3) with (mem m2) in Hv4. rewrite Hm2 in Hv4. change (mem m1) with (mem m) in Hv4.
  clearbody m4. cbn [exec foldl step assign fetch reg set_reg set_rip set_rflags mem rip rflags gs_base kernel_gs_base].
  fn_simp. rewrite Hgs, Hkgs, Hm, Hsp4. word64.
  replace (p + 40 + 8 * Z.of_nat 9 + 16) with (p + 8 * 16) by lia.
  assert (Hpop : forall i r, popped !! i = Some r -> reg m4 r = mem m (p + 8 * Z.of_nat (5 + i))).
  { intros i r Hi. rewrite (Hv4 i r Hi). f_equal. lia. }
  split_and!; [exact (Hpop 8%nat _ eq_refl)|done|done| |done..].
  cbn [fmap list_fmap]. fn_simp. repeat apply (f_equal2 cons);
    [exact (Hold 0%nat _ eq_refl)|exact (Hold 1%nat _ eq_refl)|exact (Hold 2%nat _ eq_refl)|exact (Hold 3%nat _ eq_refl)
    |done|exact (Hpop 0%nat _ eq_refl)|exact (Hpop 1%nat _ eq_refl)|exact (Hpop 2%nat _ eq_refl)|exact (Hpop 3%nat _ eq_refl)
    |exact (Hpop 4%nat _ eq_refl)|exact (Hpop 5%nat _ eq_refl)|exact (Hpop 6%nat _ eq_refl)|exact (Hpop 7%nat _ eq_refl)
    |exact (Hpop 8%nat _ eq_refl)|done|done].
Qed.

(** ** A whole system call *)

(** The registers of a user as the frame holds them. *)
Definition user_frame (u : Machine) : list Z :=
  (reg u <$> [R15; R14; R13; R12]) ++ [rflags u] ++
  (reg u <$> [R10; R9; R8; RDI; RSI; RBP; RBX; RDX]) ++ [rip u; reg u RAX; rip u; rflags u; reg u RSP].

(** The word of the frame that a register is restored from; RAX is the result
    and RSP the per-CPU word. *)
Definition restored_from (r : Reg) : option nat :=
  match r with
  | R15 => Some 0 | R14 => Some 1 | R13 => Some 2 | R12 => Some 3 | R11 => Some 16 | R10 => Some 5 | R9 => Some 6
  | R8 => Some 7 | RDI => Some 8 | RSI => Some 9 | RBP => Some 10 | RBX => Some 11 | RDX => Some 12 | RCX => Some 13
  | RAX | RSP => None
  end%nat.

Lemma user_frame_lookup u r : r ∉ [RAX; RCX; R11; RSP] ->
  exists i, restored_from r = Some i /\ user_frame u !! i = Some (reg u r).
Proof. intros Hr. destruct r; try (eexists; split; reflexivity); exfalso; apply Hr; compute_done. Qed.

(** The general law of the stub: the handler is called with the number and the
    five arguments, on a frame that holds the user's registers; what the user
    resumes with is read back from the frame, apart from the stack pointer,
    which is the per-CPU word, and the instruction pointer, which is the word
    saved for RCX (13), not the one saved as the user's (15). *)
Lemma syscall_entry_spec h scratch lstar m :
  let kgs := kernel_gs_base m in
  let k := mem m (kgs + 0x10) in
  layout kgs k ->
  exists mm,
    frame mm (k - 144) = user_frame m /\
    mm (kgs + 0x18) = reg m RSP /\
    (forall a, a <> kgs + 0x18 -> a < k - 152 \/ k <= a -> mm a = mem m a) /\
    forall ret mm',
      h (reg m RAX) (reg m <$> [RDI; RSI; RDX; R10; R8]) (k - 144) mm = (ret, mm') ->
      let f i := mm' (k - 144 + 8 * i) in
      let m' := syscall_entry h scratch (syscall_insn lstar m) in
      rip m' = f 13 /\ rflags m' = sysret_flags (f 16) /\ reg m' RSP = mm' (kgs + 0x18) /\ reg m' RAX = ret /\
      (forall r i, restored_from r = Some i -> reg m' r = f (Z.of_nat i)) /\
      gs_base m' = gs_base m /\ kernel_gs_base m' = kgs /\ mem m' = mm'.
Proof.
  intros kgs k Hlay. pose proof Hlay as (Hg & Hg' & Hk & Hap).
  set (m0 := syscall_insn lstar m).
  pose proof (entry_spec m0 Hlay) as Hentry. cbv zeta in Hentry.
  assert (Hk0 : kernel_gs_base m0 = kgs) by reflexivity. assert (Hm0 : mem m0 = mem m) by reflexivity.
  rewrite Hk0, Hm0 in Hentry. fold k in Hentry.
  unfold syscall_entry. generalize dependent (exec entry_code m0). intros m1.
  intros (Hsp & Htop & Hargs & Hcs & Hrip & Hfl & Hgs & Hkgs & Hfr & Hu & Hout).
  exists (mem m1). split_and!; [exact Hfr|exact Hu|exact Hout|].
  intros ret mm' Hh. cbv zeta.
  assert (Hcall : call_handler h scratch m1 =
    mkMachine (fun r => if callee_saved r then reg m1 r else if decide (r = RAX) then ret else scratch r)
      (rip m1) (rflags m1) mm' kgs (gs_base m)).
  { unfold call_handler. injection Hargs as H1 H2 H3 H4 H5 H6.
    replace (h _ _ _ _) with (ret, mm'); [by rewrite Hgs, Hkgs|].
    rewrite <- Hh. cbn [fmap list_fmap]. rewrite H1, H2, H3, H4, H5, H6, Htop. reflexivity. }
  rewrite Hcall. set (m2 := mkMachine _ _ _ _ _ _).
  assert (Hsp2 : reg m2 RSP + 8 = k - 144) by (change (reg m2 RSP) with (reg m1 RSP); lia).
  pose proof (exit_spec m2) as Hx. cbv zeta in Hx. rewrite Hsp2 in Hx.
  destruct Hx as (H1 & H2 & H3 & Hr & H5); [change (reg m2 RSP) with (reg m1 RSP); lia|lia|exact Hg|exact Hg'|].
  generalize dependent (exec exit_code m2). intros m3 H1 H2 H3 Hr H5.
  injection Hr as Q15 Q14 Q13 Q12 Q11 Q10 Q9 Q8 Qdi Qsi Qbp Qbx Qdx Qcx Qax.
  split_and!; [exact H1|exact H2|exact H3|exact Qax| |apply H5..].
  intros r i Hi. destruct r; try discriminate Hi; injection Hi as <-; assumption.
Qed.

Definition saved : list Reg := [RAX; RCX; RDX; RBX; RBP; RSI; RDI; R8; R9; R10; R11; R12; R13; R14; R15].

Lemma switch_code_parts : switch_code =
  ([CLI; PUSHFQ] ++ ((fun r => PUSH (Rg r)) <$> saved) ++ [MOV (At RDI 0) (Rg RSP); MOV (Rg RSP) (Rg RSI)]) ++
  (POP <$> reverse saved) ++ [POPFQ; STI; RET].
Proof. reflexivity. Qed.

(** The old context is saved below the stack pointer, and the new one is not
    touched. *)
Lemma switch_save_spec m :
  let s := reg m RSP in
  let c := reg m RSI in
  128 <= s < M64 -> 0 <= reg m RDI < M64 -> s <= c \/ c + 136 <= s - 128 -> reg m RDI < c \/ c + 136 <= reg m RDI ->
  let m' := exec ([CLI; PUSHFQ] ++ ((fun r => PUSH (Rg r)) <$> saved) ++ [MOV (At RDI 0) (Rg RSP); MOV (Rg RSP) (Rg RSI)]) m in
  reg m' RSP = c /\ gs_base m' = gs_base m /\ kernel_gs_base m' = kernel_gs_base m /\
  forall a, c <= a < c + 136 -> mem m' a = mem m a.
Proof.
  intros s c Hs Hdi Hap Hapd. cbv zeta. rewrite !exec_app.
  set (m1 := exec [CLI; PUSHFQ] m).
  assert (H1 : reg m1 RSP = s - 8 /\ (forall r, r <> RSP -> reg m1 r = reg m r) /\
    (forall a, a <> s - 8 -> mem m1 a = mem m a) /\ gs_base m1 = gs_base m /\ kernel_gs_base m1 = kernel_gs_base m).
  { unfold m1. cbn [exec foldl step]. unfold push. cbn [mem reg set_reg store set_rflags gs_base kernel_gs_base].
    fold s. rewrite fn_lookup_insert. word64. split_and!; [done| | |done|done].
    - intros r Hr. by rewrite fn_lookup_insert_ne.
    - intros a Ha. by rewrite fn_lookup_insert_ne. }
  clearbody m1. destruct H1 as (Hsp1 & Hr1 & Hm1 & Hg1 & Hk1).
  destruct (exec_pushes saved m1 ltac:(compute_done) ltac:(rewrite Hsp1; change (length saved) with 15%nat; lia))
    as (_ & (Hr2 & _ & _ & Hg2 & Hk2) & Hm2).
  set (m2 := exec _ m1) in *. clearbody m2. rewrite Hsp1 in Hm2. change (length saved) with 15%nat in Hm2.
  cbn [exec foldl step assign fetch reg set_reg store mem gs_base kernel_gs_base].
  rewrite fn_lookup_insert, !Hr2, !Hr1 by first [done|compute_done]. rewrite Z.add_0_r. word64.
  split_and!; [done|congruence|congruence|]. intros a Ha. rewrite fn_lookup_insert_ne by lia.
  rewrite Hm2, write_words_out, Hm1 by (rewrite ?length_reverse, ?length_fmap; change (length saved) with 15%nat; lia).
  done.
Qed.

Lemma switch_load_spec m :
  let c := reg m RSP in
  0 <= c -> c + 136 < M64 ->
  let m' := exec ((POP <$> reverse saved) ++ [POPFQ; STI; RET]) m in
  reg m' <$> reverse saved = words (mem m) c 15 /\ rip m' = mem m (c + 128) /\ reg m' RSP = c + 136 /\
  gs_base m' = gs_base m /\ kernel_gs_base m' = kernel_gs_base m.
Proof.
  intros c Hc Hc'. cbv zeta. rewrite exec_app.
  destruct (exec_pops (reverse saved) m ltac:(compute_done) ltac:(compute_done) Hc
    ltac:(change (length (reverse saved)) with 15%nat; lia)) as (Hsp & (_ & _ & _ & Hg & Hk) & Hm & Hv).
  set (m1 := exec _ m) in *. clearbody m1. change (length (reverse saved)) with 15%nat in Hsp. fold c in Hsp, Hv.
  set (m2 := exec _ m1).
  assert (H2 : (forall r, r <> RSP -> reg m2 r = reg m1 r) /\ reg m2 RSP = c + 136 /\ rip m2 = mem m (c + 128) /\
    gs_base m2 = gs_base m1 /\ kernel_gs_base m2 = kernel_gs_base m1).
  { unfold m2. cbn [exec foldl step reg set_reg set_rip set_rflags drop_words rip gs_base kernel_gs_base].
    unfold top, drop_words. cbn [reg set_reg set_rip set_rflags mem rip]. rewrite !fn_lookup_insert, Hsp, Hm. word64.
    split_and!; [|lia|f_equal; lia|done|done]. intros r Hr. by rewrite !fn_lookup_insert_ne by done. }
  clearbody m2. destruct H2 as (Hr2 & Hsp2 & Hrip2 & Hg2 & Hk2).
  split_and!; [|done|done|congruence|congruence].
  apply list_eq_same_length with 15%nat; [apply words_length|done|]. intros i x y Hi Hx Hy.
  rewrite words_lookup in Hy by done. injection Hy as <-.
  rewrite list_lookup_fmap in Hx. destruct (reverse saved !! i) as [r|] eqn:Hr; [|done]. injection Hx as <-.
  rewrite Hr2, (Hv i r Hr); [done|]. intros ->. apply list_elem_of_lookup_2 in Hr. revert Hr. compute_done.
Qed.

Lemma fork_child_return_spec ss cs m :
  let s := reg m RSP in
  40 <= s < M64 ->
  let m' := exec (fork_child_return ss cs) m in
  rip m' = reg m RDI /\ rflags m' = reg m R8 /\ reg m' RSP = reg m RSI /\ reg m' RAX = 0 /\ reg m' R9 = cs /\
  (forall r, r ∉ [RSP; RAX; R9] -> reg m' r = reg m r) /\
  gs_base m' = kernel_gs_base m /\ kernel_gs_base m' = gs_base m.
Proof.
  intros s Hs. cbv zeta. unfold fork_child_return. cbn [exec foldl step assign fetch].
  unfold push. cbn [reg set_reg store mem rip rflags gs_base kernel_gs_base set_rip set_rflags].
  fn_simp. fold s. word64. replace (s - 8 - 8 - 8 - 8 - 8 + 16) with (s - 8 - 8 - 8) by lia.
  replace (s - 8 - 8 - 8 - 8 - 8 + 24) with (s - 8 - 8) by lia. fn_simp. split_and!; [done..| |done|done].
  intros r Hr. rewrite !not_elem_of_cons in Hr. destruct Hr as (? & ? & ? & _).
  by rewrite !fn_lookup_insert_ne by done.
Qed.

Lemma context_address_below t : 159 <= t < M64 -> 0 <= context_address t /\ context_address t + 144 <= t.
Proof.
  intros Ht. unfold context_address.
  assert (Hd : Z.ldiff t 15 = t - t mod 16).
  { change 15 with (Z.ones 4). rewrite Z.ldiff_ones_r, Z.shiftl_mul_pow2, Z.shiftr_div_pow2 by lia.
    change (2 ^ 4) with 16. pose proof (Z.div_mod t 16). lia. }
  assert (Heq : Z.land t (not64 0xF) = t - t mod 16).
  { rewrite <- Hd. apply u64_ext; [apply u64_land; [unfold is_u64; lia|apply not64_range]| |].
    { rewrite Hd. pose proof (Z.mod_pos_bound t 16). pose proof (Z.mod_le t 16). unfold is_u64. lia. }
    intros i Hi. rewrite Z.ldiff_spec. bits_simp. done. }
  rewrite Heq. pose proof (Z.mod_pos_bound t 16). lia.
Qed.

(** The context of a forked child lies on its kernel stack, away from the stack
    of the CPU that switches to it. *)
Definition child_layout (m : Machine) (stack_top : Z) : Prop :=
  159 <= stack_top < M64 /\ 128 <= reg m RSP < M64 /\ 0 <= reg m RDI < M64 /\
  reg m RSI = context_address stack_top /\
  (stack_top <= reg m RSP - 128 \/ reg m RSP <= context_address stack_top) /\
  (stack_top <= reg m RDI \/ reg m RDI < context_address stack_top).

(** C10. A call whose handler leaves the saved frame and the CPU's saved stack
    pointer alone gives the user back every register it had but RAX (the
    result), RCX and R11, which the [syscall] instruction itself overwrites; it
    resumes at the instruction after the call, on its own stack, with the same
    GS bases and with its flags as [sysretq] loads them. The handler is called
    with the number in RAX and the arguments in RDI, RSI, RDX, R10 and R8. *)
Theorem syscall_registers_restored h scratch lstar m :
  let kgs := kernel_gs_base m in
  let k := mem m (kgs + 0x10) in
  layout kgs k ->
  (forall n args p mm, words (h n args p mm).2 p 18 = words mm p 18 /\ (h n args p mm).2 (kgs + 0x18) = mm (kgs + 0x18)) ->
  let m' := syscall_entry h scratch (syscall_insn lstar m) in
  rip m' = rip m /\ rflags m' = sysret_flags (rflags m) /\
  (forall r, r ∉ [RAX; RCX; R11] -> reg m' r = reg m r) /\
  (exists mm, frame mm (k - 144) = user_frame m /\
    (reg m' RAX, mem m') = h (reg m RAX) (reg m <$> [RDI; RSI; RDX; R10; R8]) (k - 144) mm) /\
  gs_base m' = gs_base m /\ kernel_gs_base m' = kernel_gs_base m.
Proof.
  intros kgs k Hlay Hh. destruct (syscall_entry_spec h scratch lstar m Hlay) as (mm & Hfr & Hu & Hout & Hrun).
  fold kgs in Hfr, Hu, Hrun. fold k in Hfr, Hrun. cbv zeta in *.
  generalize dependent (syscall_entry h scratch (syscall_insn lstar m)). intros m' Hrun.
  destruct (h (reg m RAX) _ (k - 144) mm) as [ret mm'] eqn:Hcall.
  specialize (Hrun ret mm' eq_refl) as (Hrip & Hfl & Hsp & Hax & Hregs & Hgs & Hkgs & Hmem).
  destruct (Hh (reg m RAX) (reg m <$> [RDI; RSI; RDX; R10; R8]) (k - 144) mm) as [Hw Hp].
  rewrite Hcall in Hw, Hp. cbn [snd] in Hw, Hp.
  assert (Hf : forall i v, user_frame m !! i = Some v -> mm' (k - 144 + 8 * Z.of_nat i) = v).
  { intros i v Hi. pose proof (lookup_lt_Some _ _ _ Hi) as Hlt. change (length (user_frame m)) with 18%nat in Hlt.
    pose proof (words_lookup mm' (k - 144) 18 i Hlt) as Hl. rewrite Hw in Hl.
    change (words mm (k - 144) 18) with (frame mm (k - 144)) in Hl. rewrite Hfr in Hl. congruence. }
  split_and!; [rewrite Hrip; exact (Hf 13%nat _ eq_refl)|rewrite Hfl; f_equal; exact (Hf 16%nat _ eq_refl)| | |done|done].
  - intros r Hr. destruct (decide (r = RSP)) as [->|Hne]; [rewrite Hsp, Hp; exact Hu|].
    destruct (user_frame_lookup m r) as (i & Hi & Hv).
    { rewrite !not_elem_of_cons in Hr. destruct Hr as (? & ? & ? & _).
      rewrite !not_elem_of_cons. split_and!; [done..|apply not_elem_of_nil]. }
    rewrite (Hregs r i Hi). by apply Hf.
  - exists mm. split; [exact Hfr|]. by rewrite Hcall, Hmem, Hax.
Qed.

(** A forked child first runs in user mode where its parent called, on its
    parent's stack pointer and with its flags, with 0 in RAX and with RBX, RBP,
    R10 and R12 to R15 as its parent has them. The other registers are what the
    kernel used on the way: RDI holds the instruction pointer, RSI the stack
    pointer, RDX and R8 the flags and R9 the code selector. *)
Theorem fork_child_registers u m mm parent_regs stack_top ret ss cs :
  frame mm parent_regs = user_frame u ->
  words (mem m) (context_address stack_top) 18 = context_words (fork_context ret parent_regs mm) ->
  child_layout m stack_top ->
  let m1 := exec switch_code m in
  let m2 := exec (fork_child_return ss cs) m1 in
  rip m1 = ret /\
  rip m2 = rip u /\ rflags m2 = rflags u /\
  reg m2 <$> [RSP; RBX; RBP; R10; R12; R13; R14; R15] = reg u <$> [RSP; RBX; RBP; R10; R12; R13; R14; R15] /\
  reg m2 <$> [RAX; RCX; R11; RDI; RSI; RDX; R8; R9] = [0; rip u; rflags u; rip u; reg u RSP; rflags u; rflags u; cs].
Proof.
  intros Hfr Hctx (Ht & Hs & Hd & Hsi & Hap & Hap'). cbv zeta.
  pose proof (context_address_below stack_top Ht) as Hc. set (c := context_address stack_top) in *.
  rewrite switch_code_parts, exec_app.
  destruct (switch_save_spec m Hs Hd ltac:(lia) ltac:(lia)) as (Hsp1 & Hg1 & Hk1 & Hm1).
  set (m0 := exec _ m) in *. clearbody m0. rewrite Hsi in Hsp1, Hm1.
  destruct (switch_load_spec m0 ltac:(lia) ltac:(lia)) as (Hregs & Hrip & Hsp2 & Hg2 & Hk2).
  set (m1 := exec _ m0) in *. clearbody m1. rewrite Hsp1 in Hregs, Hrip, Hsp2.
  destruct (fork_child_return_spec ss cs m1 ltac:(lia)) as (Hrip' & Hfl' & Hsp' & Hax & H9 & Hr' & _).
  set (m2 := exec _ m1) in *. clearbody m2.
  assert (Hw : forall i v, context_words (fork_context ret parent_regs mm) !! i = Some v -> (i < 17)%nat ->
    mem m0 (c + 8 * Z.of_nat i) = v).
  { intros i v Hi Hlt. rewrite Hm1 by lia. pose proof (words_lookup (mem m) c 18 i ltac:(lia)) as Hl. congruence. }
  assert (Hf : forall i v, user_frame u !! i = Some v -> mm (parent_regs + 8 * Z.of_nat i) = v).
  { intros i v Hi. pose proof (lookup_lt_Some _ _ _ Hi) as Hlt. change (length (user_frame u)) with 18%nat in Hlt.
    pose proof (words_lookup mm parent_regs 18 i Hlt) as Hl. unfold frame in Hfr. congruence. }
  assert (Hv : forall i r v, reverse saved !! i = Some r -> context_words (fork_context ret parent_regs mm) !! i = Some v ->
    reg m1 r = v).
  { intros i r v Hi Hcv. pose proof (lookup_lt_Some _ _ _ Hi) as Hlt. change (length (reverse saved)) with 15%nat in Hlt.
    assert (Hl : (reg m1 <$> reverse saved) !! i = Some (reg m1 r)) by (by rewrite list_lookup_fmap, Hi).
    rewrite Hregs, words_lookup in Hl by done. rewrite (Hw i v Hcv) in Hl by lia. congruence. }
  pose proof (Hf 15%nat _ eq_refl : mm (parent_regs + 8 * 15) = rip u) as F15.
  pose proof (Hf 16%nat _ eq_refl : mm (parent_regs + 8 * 16) = rflags u) as F16.
  pose proof (Hf 17%nat _ eq_refl : mm (parent_regs + 8 * 17) = reg u RSP) as F17.
  pose proof (Hv 8%nat RDI _ eq_refl eq_refl) as Vdi. pose proof (Hv 9%nat RSI _ eq_refl eq_refl) as Vsi.
  pose proof (Hv 7%nat R8 _ eq_refl eq_refl) as V8. pose proof (Hv 12%nat RDX _ eq_refl eq_refl) as Vdx.
  cbn [c_rdi c_rsi c_r8 c_rdx fork_context] in Vdi, Vsi, V8, Vdx.
  split_and!; [rewrite Hrip; exact (Hw 16%nat _ eq_refl ltac:(lia))|congruence|congruence| |];
    cbn [fmap list_fmap]; repeat apply (f_equal2 cons); try done; rewrite ?Hr' by compute_done; try congruence.
  - rewrite (Hv 11%nat RBX _ eq_refl eq_refl). exact (Hf 11%nat _ eq_refl).
  - rewrite (Hv 10%nat RBP _ eq_refl eq_refl). exact (Hf 10%nat _ eq_refl).
  - rewrite (Hv 5%nat R10 _ eq_refl eq_refl). exact (Hf 5%nat _ eq_refl).
  - rewrite (Hv 3%nat R12 _ eq_refl eq_refl). exact (Hf 3%nat _ eq_refl).
  - rewrite (Hv 2%nat R13 _ eq_refl eq_refl). exact (Hf 2%nat _ eq_refl).
  - rewrite (Hv 1%nat R14 _ eq_refl eq_refl). exact (Hf 1%nat _ eq_refl).
  - rewrite (Hv 0%nat R15 _ eq_refl eq_refl). exact (Hf 0%nat _ eq_refl).
  - rewrite (Hv 13%nat RCX _ eq_refl eq_refl). exact (Hf 13%nat _ eq_refl).
  - rewrite (Hv 4%nat R11 _ eq_refl eq_refl). exact (Hf 4%nat _ eq_refl).
Qed.

(** ** Two threads on one CPU *)

(** A handler that blocks: the scheduler switches to a thread [b] whose kernel
    stack ends at [k2] ([set_kernel_stack] writes the per-CPU word), [b] makes a
    system call of its own, and the first thread is switched back to. *)
Definition switched_out (kgs k2 k : Z) (b : Machine) (ret : Z) : Handler := fun _ _ _ mm =>
  let b1 := mkMachine (reg b) (rip b) (rflags b) (<[kgs + 0x10 := k2]> mm) (gs_base b) kgs in
  (ret, <[kgs + 0x10 := k]> (mem (exec entry_code b1))).

(** The first thread then resumes where it called, but on the stack of [b]: the
    stack pointer comes from the word of the CPU, which the last entry wrote. *)
Lemma resumes_on_other_stack b ret k2 scratch lstar m :
  let kgs := kernel_gs_base m in
  let k := mem m (kgs + 0x10) in
  layout kgs k -> layout kgs k2 -> k2 <= k - 152 \/ k <= k2 - 152 ->
  let m' := syscall_entry (switched_out kgs k2 k b ret) scratch (syscall_insn lstar m) in
  rip m' = rip m /\ reg m' RSP = reg b RSP.
Proof.
  intros kgs k Hlay Hlay2 Hap.
  destruct (syscall_entry_spec (switched_out kgs k2 k b ret) scratch lstar m Hlay) as (mm & Hfr & _ & _ & Hrun).
  fold kgs in Hfr, Hrun. fold k in Hfr, Hrun. cbv zeta in *.
  set (b1 := mkMachine (reg b) (rip b) (rflags b) (<[kgs + 0x10 := k2]> mm) (gs_base b) kgs).
  assert (Hk2 : mem b1 (kernel_gs_base b1 + 0x10) = k2) by (cbn [mem b1 kernel_gs_base]; apply fn_lookup_insert).
  pose proof (entry_spec b1) as Hb. cbv zeta in Hb. rewrite Hk2 in Hb. specialize (Hb Hlay2).
  destruct Hb as (_ & _ & _ & _ & _ & _ & _ & _ & _ & Hrsp & Hout).
  specialize (Hrun ret (<[kgs + 0x10 := k]> (mem (exec entry_code b1))) eq_refl) as (Hrip & _ & Hsp & _).
  revert Hrip Hsp. generalize dependent (exec entry_code b1). intros b2 Hrsp Hout Hrip Hsp.
  destruct Hlay as (? & ? & ? & ?), Hlay2 as (? & ? & ? & ?). split.
  - rewrite Hrip, fn_lookup_insert_ne by lia. rewrite Hout by (cbn [kernel_gs_base b1]; lia).
    cbn [mem b1]. rewrite fn_lookup_insert_ne by lia.
    pose proof (words_lookup mm (k - 144) 18 13 ltac:(lia)) as Hl. unfold frame in Hfr. rewrite Hfr in Hl.
    injection Hl as ->. reflexivity.
  - rewrite Hsp, fn_lookup_insert_ne by lia. exact Hrsp.
Qed.

(** ** Instances *)

Definition zero_regs : Reg -> Z := fun _ => 0.

(** A user at 0x401000 calling with number 39, on a CPU whose per-CPU data are at
    0xFFFF800000001000 and whose kernel stack ends at 0xFFFF800000009000. *)
Definition demo_user : Machine :=
  mkMachine (<[RAX := 39]> (<[RDI := 7]> (<[RSP := 0x7FFF0000]> zero_regs))) 0x401000 0x202
    (<[0xFFFF800000001010 := 0xFFFF800000009000]> (fun _ => 0)) 0 0xFFFF800000001000.

Lemma syscall_registers_restored_witness :
  let m' := syscall_entry (fun n _ _ mm => (n + 1, mm)) zero_regs (syscall_insn 0 demo_user) in
  rip m' = 0x401000 /\ reg m' RDI = 7 /\ reg m' RSP = 0x7FFF0000 /\ reg m' RAX = 40.
Proof.
  destruct (syscall_registers_restored (fun n _ _ mm => (n + 1, mm)) zero_regs 0 demo_user) as (Hrip & _ & Hr & (mm & _ & Hh) & _).
  - vm_compute. split_and!; try done. left. done.
  - intros n args p mm. done.
  - cbv zeta. split_and!; [exact Hrip|apply (Hr RDI); compute_done|apply (Hr RSP); compute_done|exact (f_equal fst Hh)].
Defined.

(** The kernel about to switch to a child of [demo_user]: the child's context is
    on a stack that ends at 0xFFFF80000000B000. *)
Definition demo_switch : Machine :=
  let mm := write_words 0xFFFF800000008F70 (user_frame demo_user) (fun _ => 0) in
  mkMachine (<[RSP := 0xFFFF800000008000]> (<[RDI := 0xFFFF800000002000]> (<[RSI := 0xFFFF80000000AF70]> zero_regs)))
    0 0x202 (write_words 0xFFFF80000000AF70 (context_words (fork_context 0xFFFFFFFF80001000 0xFFFF800000008F70 mm)) mm)
    0xFFFF800000001000 0.

Lemma fork_child_registers_witness :
  let m1 := exec switch_code demo_switch in
  let m2 := exec (fork_child_return 0x1B 0x23) m1 in
  rip m1 = 0xFFFFFFFF80001000 /\ rip m2 = 0x401000 /\ reg m2 RDI = 0x401000 /\ reg m2 RSP = 0x7FFF0000.
Proof.
  destruct (fork_child_registers demo_user demo_switch
    (write_words 0xFFFF800000008F70 (user_frame demo_user) (fun _ => 0)) 0xFFFF800000008F70 0xFFFF80000000B000
    0xFFFFFFFF80001000 0x1B 0x23) as (H1 & H2 & _ & H3 & H4).
  - vm_compute. reflexivity.
  - vm_compute. reflexivity.
  - vm_compute. split_and!; try done; [by right|by right].
  - cbv zeta. split_and!; [exact H1|exact H2| |].
    + exact (f_equal (fun l => nth 3 l 0) H4).
    + exact (f_equal (fun l => nth 0 l 0) H3).
Defined.
