(* ===== verification/Signals.v ===== *)
(** * Signals

    Model of [crates/syscalls/src/signal.rs] and [kernel/src/syscalls/signal.rs]
    (the state), [process_signal.rs] (the system calls), the delivery on the way
    out of a system call ([do_syscall_body] of [dispatch.rs]), the signal file
    descriptors ([task/process.rs], [task/process/types.rs], and their cases in
    [fs_io.rs], [fs_open.rs] and [misc.rs]) and [linux_rt_sigaction] of
    [emulation.rs]. An [Arc<Process>] is the number of the process. Locks are
    taken one at a time and are not modelled, except the [try_lock]s of the
    routing to descriptors, whose outcomes are arguments. The frame of saved
    registers is the list of its eighteen words; page translation is an
    argument. *)

From stdpp Require Import strings.
From S2P Require Import Prelude UserAccess Lsm.

(** ** State *)

(** [u64::trailing_zeros] *)
Definition trailing_zeros (x : Z) : Z :=
  Z.of_nat (from_option fst 64%nat (list_find (fun i => Z.testbit x (Z.of_nat i) = true) (seq 0 64))).

Record SignalContext := mkContext {
  rip : Z; rsp : Z; rbp : Z; rax : Z; rbx : Z; rcx : Z; rdx : Z; rsi : Z; rdi : Z;
  r8 : Z; r9 : Z; r10 : Z; r11 : Z; r12 : Z; r13 : Z; r14 : Z; r15 : Z; rflags : Z;
  fpu_state : option (list Z) }.

Module SignalState.

Record t := mk { pending : Z; blocked : Z; saved_context : option SignalContext }.

Definition new : t := mk 0 0 None.
Definition raise (sig : Z) (s : t) : t := mk (Z.lor (pending s) (shl64 1 (sig - 1))) (blocked s) (saved_context s).
Definition has_pending (s : t) : bool := negb (pending s =? 0).
Definition has_unmasked_pending (mask : Z) (s : t) : bool := negb (Z.land (pending s) (not64 mask) =? 0).
Definition clear (bit : Z) (s : t) : t := mk (Z.land (pending s) (not64 (shl64 1 bit))) (blocked s) (saved_context s).

Definition pop_unmasked (mask : Z) (s : t) : option Z * t :=
  let available := Z.land (pending s) (not64 mask) in
  if available =? 0 then (None, s)
  else let bit := trailing_zeros available in (Some (bit + 1), clear bit s).

Definition pop_any (s : t) : option Z * t :=
  if pending s =? 0 then (None, s)
  else let bit := trailing_zeros (pending s) in (Some (bit + 1), clear bit s).

Definition restore_context (s : t) : option SignalContext * t :=
  (saved_context s, mk (pending s) (blocked s) None).

End SignalState.

Record stack_t := mkStack { ss_sp : Z; ss_flags : Z; ss_size : Z }.
Definition SS_DISABLE : Z := 2.
Definition SS_ONSTACK : Z := 1.
Definition MINSIGSTKSZ : Z := 2048.

Record SignalFdInfo := mkInfo { ssi_signo : Z; ssi_code : Z; ssi_pid : Z; ssi_uid : Z; ssi_sigval : Z }.
Record SignalFdData := mkFdData { mask : Z; queue : list SignalFdInfo }.

Inductive FileDescriptor := SignalFd (handle : Z) | OtherFd.

(** The fields of [Process] that signals use; 32 handlers and restorers. *)
Record Process := mkProcess {
  p_euid : Z; p_uid : Z; p_caps : Z; signals : SignalState.t; signal_handlers : list Z; signal_restorers : list Z;
  altstack : stack_t; fd_table : list (option FileDescriptor) }.

(** [woken]: the processes whose blocked threads were woken, the last first. *)
Record World := mkWorld {
  procs : gmap Z Process; current_process : option Z; cpu_process : option Z; SIGNAL_FDS : gmap Z SignalFdData;
  NEXT_SIGNALFD_HANDLE : Z; lsm : Lsm; woken : list Z; umem : UserMem }.

Definition set_procs (f : gmap Z Process) (w : World) : World :=
  mkWorld f (current_process w) (cpu_process w) (SIGNAL_FDS w) (NEXT_SIGNALFD_HANDLE w) (lsm w) (woken w) (umem w).
Definition set_fds (f : gmap Z SignalFdData) (w : World) : World :=
  mkWorld (procs w) (current_process w) (cpu_process w) f (NEXT_SIGNALFD_HANDLE w) (lsm w) (woken w) (umem w).
Definition set_next (n : Z) (w : World) : World :=
  mkWorld (procs w) (current_process w) (cpu_process w) (SIGNAL_FDS w) n (lsm w) (woken w) (umem w).
Definition wake (pid : Z) (w : World) : World :=
  mkWorld (procs w) (current_process w) (cpu_process w) (SIGNAL_FDS w) (NEXT_SIGNALFD_HANDLE w) (lsm w) (pid :: woken w) (umem w).
Definition set_umem (m : UserMem) (w : World) : World :=
  mkWorld (procs w) (current_process w) (cpu_process w) (SIGNAL_FDS w) (NEXT_SIGNALFD_HANDLE w) (lsm w) (woken w) m.

Definition with_signals (s : SignalState.t) (q : Process) : Process :=
  mkProcess (p_euid q) (p_uid q) (p_caps q) s (signal_handlers q) (signal_restorers q) (altstack q) (fd_table q).
Definition with_handlers (h r : list Z) (q : Process) : Process :=
  mkProcess (p_euid q) (p_uid q) (p_caps q) (signals q) h r (altstack q) (fd_table q).
Definition with_altstack (s : stack_t) (q : Process) : Process :=
  mkProcess (p_euid q) (p_uid q) (p_caps q) (signals q) (signal_handlers q) (signal_restorers q) s (fd_table q).
Definition with_fds (t : list (option FileDescriptor)) (q : Process) : Process :=
  mkProcess (p_euid q) (p_uid q) (p_caps q) (signals q) (signal_handlers q) (signal_restorers q) (altstack q) t.

(** The process of [CURRENT_PROCESS], and that of [get_current_process]: this
    CPU's thread first. *)
Definition current (w : World) : option (Z * Process) :=
  p ← current_process w; q ← procs w !! p; Some (p, q).
Definition get_current_process (w : World) : option (Z * Process) :=
  match cpu_process w with
  | Some p => q ← procs w !! p; Some (p, q)
  | None => current w
  end.

Definition get_current_euid (w : World) : Z :=
  match get_current_process w with Some (_, q) => p_euid q | None => 0 end.

Definition CAP_KILL : Z := Z.shiftl 1 5.
Definition has_capability (cap_bit : Z) (w : World) : bool :=
  match get_current_process w with
  | Some (_, q) => (p_euid q =? 0) || negb (Z.land (p_caps q) cap_bit =? 0)
  | None => false
  end.

(** [has_pending_signal] of the kernel, and [check_signal_interrupt]. *)
Definition has_pending_signal (w : World) : bool :=
  match current w with
  | Some (_, q) => SignalState.has_unmasked_pending (SignalState.blocked (signals q)) (signals q)
  | None => false
  end.

(** ** System calls *)

(** [repr(C)] images of [SigAction] (32 bytes) and [stack_t] (24, four of them
    padding, whose contents are [pad]). *)
Definition sigaction_bytes (sa_handler sa_flags sa_restorer sa_mask : Z) : list Z :=
  le_bytes 8 sa_handler ++ le_bytes 8 sa_flags ++ le_bytes 8 sa_restorer ++ le_bytes 8 sa_mask.
Definition stack_bytes (pad : list Z) (s : stack_t) : list Z :=
  le_bytes 8 (ss_sp s) ++ le_bytes 4 (u32 (ss_flags s)) ++ pad ++ le_bytes 8 (ss_size s).
Definition stack_of_bytes (b : list Z) : stack_t :=
  mkStack (le_value (slice 0 8 b)) (i32 (le_value (slice 8 4 b))) (le_value (slice 16 8 b)).

Definition set_proc (p : Z) (q : Process) (w : World) : World := set_procs (<[p := q]> (procs w)) w.

Definition sys_rt_sigaction (sig act oldact : Z) (w : World) : Z * World :=
  if (sig =? 0) || (32 <? sig) then (Errno.ret Errno.EINVAL, w)
  else
    match current w with
    | None => (Errno.ret Errno.ESRCH, w)
    | Some (p, q) =>
        let idx := Z.to_nat (sig - 1) in
        let '(ok, m) :=
          if oldact =? 0 then (true, umem w)
          else copy_to_user (umem w) oldact
                 (sigaction_bytes (signal_handlers q !!! idx) 0 (signal_restorers q !!! idx) 0) in
        let w := set_umem m w in
        if negb ok then (Errno.ret Errno.EFAULT, w)
        else if act =? 0 then (0, w)
        else
          match copy_from_user (umem w) act 32 with
          | None => (Errno.ret Errno.EFAULT, w)
          | Some new =>
              let h := le_value (slice 0 8 new) in
              let r := le_value (slice 16 8 new) in
              let restorers :=
                if negb (h =? 0) && negb (h =? 1) && negb (r =? 0) then <[idx := r]> (signal_restorers q)
                else signal_restorers q in
              (0, set_proc p (with_handlers (<[idx := h]> (signal_handlers q)) restorers q) w)
          end
    end.

(** [linux_rt_sigaction] of [emulation.rs]: the handler and the restorer at
    [act], if it is given; [None]: a fault. *)
Definition linux_read_action (act : Z) (w : World) : option (option (Z * Z)) :=
  let read off := le_value <$> copy_from_user (umem w) (u64 (act + off)) 8 in
  if act =? 0 then Some None
  else
    match read 0, read 8 with
    | Some handler, Some flags =>
        if negb (Z.land flags 0x04000000 =? 0)
        then match read 16 with Some restorer => Some (Some (handler, restorer)) | None => None end
        else Some (Some (handler, 0))
    | _, _ => None
    end.

Definition linux_install (signum : Z) (new : option (Z * Z)) (w : World) : World :=
  match new, current w with
  | Some (handler, restorer), Some (p, q) =>
      if signum <? 32 then
        let idx := Z.to_nat signum in
        set_proc p (with_handlers (<[idx := handler]> (signal_handlers q))
          (if negb (restorer =? 0) then <[idx := restorer]> (signal_restorers q) else signal_restorers q) q) w
      else w
  | _, _ => w
  end.

Definition linux_rt_sigaction (signum act oldact : Z) (w : World) : Z * World :=
  if (act =? 0) && (oldact =? 0) then (0, w)
  else
    match linux_read_action act w with
    | None => (Errno.neg_ret Errno.EFAULT, w)
    | Some new =>
        let w := linux_install signum new w in
        if oldact =? 0 then (0, w)
        else
          let handler :=
            match current w with
            | Some (_, q) => if signum <? 32 then signal_handlers q !!! Z.to_nat signum else 0
            | None => 0
            end in
          let '(ok, m) := copy_to_user (umem w) oldact (le_bytes 8 handler) in
          (if ok then 0 else Errno.neg_ret Errno.EFAULT, set_umem m w)
    end.

(** The set at [set_ptr], if it is given; [None]: a fault. *)
Definition read_set (set_ptr : Z) (w : World) : option (option Z) :=
  if set_ptr =? 0 then Some None
  else match copy_from_user (umem w) set_ptr 8 with Some raw => Some (Some (le_value raw)) | None => None end.

Definition sys_sigprocmask (how set_ptr oldset_ptr : Z) (w : World) : Z * World :=
  if negb (how =? 0) && negb (how =? 1) && negb (how =? 2) then (Errno.ret Errno.EINVAL, w)
  else
    match read_set set_ptr w with
    | None => (Errno.ret Errno.EFAULT, w)
    | Some new_val =>
        match current w with
        | None => (Errno.ret Errno.ESRCH, w)
        | Some (p, q) =>
            let s := signals q in
            let b := SignalState.blocked s in
            let '(ok, m) := if oldset_ptr =? 0 then (true, umem w) else copy_to_user (umem w) oldset_ptr (le_bytes 8 b) in
            let w := set_umem m w in
            if negb ok then (Errno.ret Errno.EFAULT, w)
            else
              match new_val with
              | None => (0, w)
              | Some val =>
                  let b' := if how =? 0 then Z.lor b val else if how =? 1 then Z.land b (not64 val) else val in
                  (0, set_proc p (with_signals (SignalState.mk (SignalState.pending s) b' (SignalState.saved_context s)) q) w)
              end
        end
    end.

(** [sys_pause] checks, sleeps for a tick and checks again: [ws] are the states
    it finds, one per check; [None]: it is still asleep. *)
Fixpoint sys_pause (ws : list World) : option Z :=
  match ws with
  | [] => None
  | w :: ws => if has_pending_signal w then Some (Errno.ret Errno.EINTR) else sys_pause ws
  end.

Definition sys_sigaltstack (pad : list Z) (ss_ptr old_ss_ptr : Z) (w : World) : Z * World :=
  match get_current_process w with
  | None => (Errno.ret Errno.ESRCH, w)
  | Some (p, q) =>
      let '(ok, m) :=
        if old_ss_ptr =? 0 then (true, umem w) else copy_to_user (umem w) old_ss_ptr (stack_bytes pad (altstack q)) in
      let w := set_umem m w in
      if negb ok then (Errno.ret Errno.EFAULT, w)
      else if ss_ptr =? 0 then (0, w)
      else
        match copy_from_user (umem w) ss_ptr 24 with
        | None => (Errno.ret Errno.EFAULT, w)
        | Some b =>
            let new_ss := stack_of_bytes b in
            if ss_flags (altstack q) =? SS_ONSTACK then (Errno.ret Errno.EPERM, w)
            else if negb (ss_flags new_ss =? SS_DISABLE) && negb (ss_flags new_ss =? 0) then (Errno.ret Errno.EINVAL, w)
            else if negb (ss_flags new_ss =? SS_DISABLE) && (ss_size new_ss <? MINSIGSTKSZ) then (Errno.ret Errno.ENOMEM, w)
            else (0, set_proc p (with_altstack new_ss q) w)
        end
  end.

(** ** Signal file descriptors *)

(** Which [try_lock]s succeed: the process's file table, and at each entry of it
    the registry and the entry's data. *)
Record Free := mkFree { files_free : bool; registry_free : nat -> bool; data_free : nat -> bool }.

Fixpoint route_entries (f : Free) (signo : Z) (info : SignalFdInfo) (i : nat) (t : list (option FileDescriptor))
    (fds : gmap Z SignalFdData) : gmap Z SignalFdData :=
  match t with
  | [] => fds
  | Some (SignalFd handle) :: t =>
      if negb (registry_free f i) then fds
      else
        let fds :=
          match fds !! handle with
          | Some d =>
              if data_free f i && negb (Z.land (mask d) (shl64 1 (signo - 1)) =? 0)
              then <[handle := mkFdData (mask d) (queue d ++ [info])]> fds else fds
          | None => fds
          end in
        route_entries f signo info (S i) t fds
  | _ :: t => route_entries f signo info (S i) t fds
  end.

Definition route_signal_to_signalfd_for (f : Free) (q : Process) (signo code sender_pid sender_uid sigval : Z) (w : World) : World :=
  if negb (files_free f) then w
  else set_fds (route_entries f signo (mkInfo signo code (u32 sender_pid) sender_uid sigval) 0 (fd_table q) (SIGNAL_FDS w)) w.

Definition SI_USER : Z := 0.

(** The signals that [sys_kill] knows. *)
Definition kill_signals : list Z := [1; 2; 9; 10; 11; 15].

Definition sys_kill (f : Free) (pid sig : Z) (w : World) : Z * World :=
  if negb (bool_decide (sig ∈ kill_signals)) then (Errno.ret Errno.EINVAL, w)
  else
    let euid := get_current_euid w in
    match procs w !! u64 pid with
    | None => (Errno.ret Errno.ESRCH, w)
    | Some q =>
        if negb (euid =? 0) && negb (euid =? p_uid q) && negb (has_capability CAP_KILL w) then (Errno.ret Errno.EPERM, w)
        else if negb (hook_file_perm (lsm w) (current_subject (current_process w)) (str "pid:"%string ++ decimal (u64 pid)) (str "kill"%string))
        then (Errno.ret Errno.EPERM, w)
        else if (u64 pid =? 1) && (sig <? 32) && (signal_handlers q !!! Z.to_nat sig =? 0) then (0, w)
        else
          let q := with_signals (SignalState.raise sig (signals q)) q in
          let w := set_proc (u64 pid) q w in
          let w := route_signal_to_signalfd_for f q sig SI_USER (default 0 (current_process w)) (get_current_euid w) 0 w in
          (0, wake (u64 pid) w)
    end.

(** [size_of::<SignalFdInfo>()]: the fields take 136 bytes. *)
Definition SIGNALFD_INFO_SIZE : Z := 136.

(** The [repr(C)] image; [pad] are the four bytes between [ssi_overrun] and
    [ssi_sigval], which the code does not initialise. *)
Definition info_bytes (pad : list Z) (i : SignalFdInfo) : list Z :=
  le_bytes 4 (ssi_signo i) ++ le_bytes 4 0 ++ le_bytes 4 (u32 (ssi_code i)) ++ le_bytes 4 (ssi_pid i) ++
  le_bytes 4 (ssi_uid i) ++ replicate 16 0 ++ pad ++ le_bytes 8 (ssi_sigval i) ++ replicate 88 0.

(** [SIGKILL] and [SIGSTOP] cannot be in a mask. *)
Definition signalfd_mask (m : Z) : Z := Z.land m (not64 (Z.lor (shl64 1 8) (shl64 1 18))).

(** The first free slot, or a new one at the end. *)
Fixpoint add_descriptor (d : FileDescriptor) (t : list (option FileDescriptor)) : nat * list (option FileDescriptor) :=
  match t with
  | [] => (O, [Some d])
  | None :: t => (O, Some d :: t)
  | e :: t => let '(i, t) := add_descriptor d t in (S i, e :: t)
  end.

Definition create_signalfd (p : Z) (q : Process) (m : Z) (w : World) : Z * World :=
  let handle := NEXT_SIGNALFD_HANDLE w in
  let '(i, t) := add_descriptor (SignalFd handle) (fd_table q) in
  (Z.of_nat i,
   set_proc p (with_fds t q) (set_fds (<[handle := mkFdData m []]> (SIGNAL_FDS w)) (set_next (u64 (handle + 1)) w))).

Definition sys_signalfd4 (fd mask_ptr sigmasksize : Z) (w : World) : Z * World :=
  match get_current_process w with
  | None => (Errno.ret Errno.ESRCH, w)
  | Some (p, q) =>
      if mask_ptr =? 0 then (Errno.ret Errno.EINVAL, w)
      else if (sigmasksize <? 8) || (SIGNALFD_INFO_SIZE <? sigmasksize) then (Errno.ret Errno.EINVAL, w)
      else
        match copy_from_user (umem w) mask_ptr 8 with
        | None => (Errno.ret Errno.EFAULT, w)
        | Some raw =>
            let m := signalfd_mask (le_value raw) in
            if fd =? M64 - 1 then create_signalfd p q m w
            else if Z.of_nat (length (fd_table q)) <=? fd then (Errno.ret Errno.EBADF, w)
            else
              match fd_table q !! Z.to_nat fd with
              | Some (Some (SignalFd handle)) =>
                  match SIGNAL_FDS w !! handle with
                  | Some d => (fd, set_fds (<[handle := mkFdData m (queue d)]> (SIGNAL_FDS w)) w)
                  | None => create_signalfd p q m w
                  end
              | _ => (Errno.ret Errno.EBADF, w)
              end
        end
  end.

Definition sys_signalfd (fd mask_ptr sigmasksize : Z) (w : World) : Z * World := sys_signalfd4 fd mask_ptr sigmasksize w.

(** The cases of [sys_read], [sys_close] and [sys_select] for a signal file
    descriptor. *)
Definition read_signalfd (pad : list Z) (handle buf : Z) (w : World) : Z * World :=
  match SIGNAL_FDS w !! handle with
  | None => (Errno.ret Errno.EBADF, w)
  | Some d =>
      match queue d with
      | [] => (Errno.ret Errno.EAGAIN, w)
      | info :: rest =>
          let w := set_fds (<[handle := mkFdData (mask d) rest]> (SIGNAL_FDS w)) w in
          let '(ok, m) := copy_to_user (umem w) buf (info_bytes pad info) in
          (if ok then SIGNALFD_INFO_SIZE else Errno.ret Errno.EFAULT, set_umem m w)
      end
  end.

Definition close_signalfd (handle : Z) (w : World) : World := set_fds (delete handle (SIGNAL_FDS w)) w.
Definition signalfd_readable (handle : Z) (w : World) : bool :=
  match SIGNAL_FDS w !! handle with Some d => negb (bool_decide (queue d = [])) | None => false end.

(** ** Delivery *)

(** [SIGNAL_RESTORER]: [mov eax, 15; syscall]. *)
Definition SIGNAL_RESTORER : list Z := [0xB8; 0x0F; 0; 0; 0; 0x0F; 0x05].

Definition get_restorer (trampoline sa_restorer : Z) : Z := if negb (sa_restorer =? 0) then sa_restorer else trampoline.

(** [VirtAddr::new] panics on an address that is not canonical. *)
Definition canonical (a : Z) : bool := (a <? 2 ^ 47) || (M64 - 2 ^ 47 <=? a).

(** The context saved for a handler that will run at [new_rsp]. *)
Definition context_of (regs : list Z) (new_rsp : Z) (fpu : list Z) : SignalContext :=
  let g i := regs !!! i in
  mkContext (g 15%nat) new_rsp (g 10%nat) (g 14%nat) (g 11%nat) (g 13%nat) (g 12%nat) (g 9%nat) (g 8%nat)
    (g 7%nat) (g 6%nat) (g 5%nat) (g 4%nat) (g 3%nat) (g 2%nat) (g 1%nat) (g 0%nat) (g 16%nat) (Some fpu).

(** What the return path does: go back to the user with these registers, after
    these writes to physical memory; end the process; or panic. *)
Inductive Delivery :=
| Resume (q : Process) (regs : list Z) (writes : list (Z * list Z))
| ExitProcess (code : Z) (writes : list (Z * list Z))
| KernelPanic.

Section Deliver.
Context (virt_to_phys : Z -> option Z) (trampoline : Z) (fpu : list Z).

(** Entering a handler for signal [sig_bit + 1]. *)
Definition enter_handler (q : Process) (regs : list Z) (sig_bit handler restorer : Z) : Delivery :=
  let old_rsp := regs !!! 17%nat in
  let ret_addr_rsp := u64 (old_rsp - 8) in
  let new_rsp := Z.land (u64 (ret_addr_rsp - 144)) (not64 0xF) in
  if negb (canonical new_rsp) then KernelPanic
  else
    match virt_to_phys new_rsp with
    | None => ExitProcess (128 + (sig_bit + 1)) []
    | Some phys =>
        let w1 := (phys, mjoin (le_bytes 8 <$> regs)) in
        if negb (canonical ret_addr_rsp) then KernelPanic
        else
          match virt_to_phys ret_addr_rsp with
          | None => ExitProcess (128 + (sig_bit + 1)) [w1]
          | Some ret_phys =>
              let w2 := (ret_phys, if negb (restorer =? trampoline) then le_bytes 8 restorer else SIGNAL_RESTORER) in
              let s := SignalState.clear sig_bit (signals q) in
              let s := SignalState.mk (SignalState.pending s) (Z.lor (SignalState.blocked s) (shl64 1 sig_bit))
                         (Some (context_of regs new_rsp fpu)) in
              Resume (with_signals s q) (<[8%nat := sig_bit + 1]> (<[15%nat := handler]> (<[17%nat := new_rsp]> regs))) [w1; w2]
          end
    end.

Definition deliver (q : Process) (regs : list Z) : Delivery :=
  let s := signals q in
  if negb (SignalState.has_unmasked_pending (SignalState.blocked s) s) then Resume q regs []
  else
    let available := Z.land (SignalState.pending s) (not64 (SignalState.blocked s)) in
    let sig_bit := trailing_zeros available in
    match signal_handlers q !! Z.to_nat sig_bit, signal_restorers q !! Z.to_nat sig_bit with
    | Some handler, Some sa_restorer =>
        if handler =? 1 then Resume (with_signals (SignalState.clear sig_bit s) q) regs []
        else if handler =? 0 then ExitProcess (128 + (sig_bit + 1)) []
        else enter_handler q regs sig_bit handler (get_restorer trampoline sa_restorer)
    | _, _ => KernelPanic
    end.

End Deliver.

(** The frame that [sys_rt_sigreturn] writes from a context. *)
Definition frame_of (c : SignalContext) : list Z :=
  [r15 c; r14 c; r13 c; r12 c; r11 c; r10 c; r9 c; r8 c; rdi c; rsi c; rbp c; rbx c; rdx c; rcx c; rax c;
   rip c; rflags c; rsp c].

(** The result, the process, the frame and the FPU state. *)
Definition sys_rt_sigreturn (cur : option Process) (regs fpu : list Z) : Z * option Process * list Z * list Z :=
  match cur with
  | None => (Errno.ret Errno.ESRCH, cur, regs, fpu)
  | Some q =>
      match SignalState.restore_context (signals q) with
      | (None, s) => (Errno.ret Errno.EINVAL, Some (with_signals s q), regs, fpu)
      | (Some ctx, s) =>
          let s := SignalState.mk (SignalState.pending s) 0 (SignalState.saved_context s) in
          let fpu' :=
            match fpu_state ctx with
            | Some data => let n := Nat.min (length data) (length fpu) in take n data ++ replicate (length fpu - n) 0
            | None => fpu
            end in
          (rax ctx, Some (with_signals s q), frame_of ctx, fpu')
      end
  end.
