(* ===== verification/SignalsSound.v ===== *)
(** * What signal delivery and the signal calls guarantee

    Theorems on [Signals]: what a system call's return path does with pending
    signals, alone and together with the entry stub of [Entry]; returning from
    a handler; who may send a signal; and the invariant that every call
    keeps. *)

From stdpp Require Import functions strings.
From S2P Require Import Prelude UserAccess Lsm Entry Signals.
Import SignalState.

(** ** The lowest bit *)

Lemma trailing_zeros_spec x : is_u64 x -> x <> 0 ->
  0 <= trailing_zeros x < 64 /\ Z.testbit x (trailing_zeros x) = true /\
  forall i, 0 <= i < trailing_zeros x -> Z.testbit x i = false.
Proof.
  intros Hx Hne. unfold trailing_zeros.
  destruct (list_find (fun i => Z.testbit x (Z.of_nat i) = true) (seq 0 64)) as [[i j]|] eqn:Hf; cbn [from_option fst].
  - apply list_find_Some in Hf as (Hi & Hb & Hlow). apply lookup_seq in Hi as [-> Hi]. cbn in Hb.
    split_and!; [lia|lia|done|]. intros k Hk. destruct (Z.testbit x k) eqn:Hk1; [|done].
    exfalso. apply (Hlow (Z.to_nat k) (Z.to_nat k)); [by rewrite lookup_seq_lt by lia|lia|].
    by rewrite Z2Nat.id by lia.
  - exfalso. apply Hne. apply list_find_None in Hf. apply u64_ext; [done|done|]. intros i Hi. rewrite Z.testbit_0_l.
    rewrite Forall_forall in Hf. destruct (Z.testbit x i) eqn:Hb; [|done]. exfalso.
    apply (Hf (Z.to_nat i)); [apply elem_of_seq; lia|]. by rewrite Z2Nat.id by lia.
Qed.

(** ** Delivery *)

Definition proc_ok (q : Process) : Prop :=
  is_u64 (pending (signals q)) /\ is_u64 (blocked (signals q)) /\
  length (signal_handlers q) = 32%nat /\ length (signal_restorers q) = 32%nat /\
  (ss_flags (altstack q) = 0 /\ MINSIGSTKSZ <= ss_size (altstack q) \/ ss_flags (altstack q) = SS_DISABLE).

(** Signal [b + 1] is pending and not blocked, and no lower one is. *)
Definition available (q : Process) (b : Z) : bool := Z.testbit (pending (signals q)) b && negb (Z.testbit (blocked (signals q)) b).
Definition next_signal (q : Process) (b : Z) : Prop :=
  0 <= b < 64 /\ available q b = true /\ forall i, 0 <= i < b -> available q i = false.

Lemma available_spec q b : 0 <= b < 64 ->
  Z.testbit (Z.land (pending (signals q)) (not64 (blocked (signals q)))) b = available q b.
Proof. intros Hb. unfold available. by bits_simp. Qed.

Lemma none_available q : proc_ok q ->
  has_unmasked_pending (blocked (signals q)) (signals q) = false -> forall b, 0 <= b < 64 -> available q b = false.
Proof.
  intros (Hp & Hb & _) H b Hr. rewrite <- available_spec by done.
  unfold has_unmasked_pending in H. apply negb_false_iff, Z.eqb_eq in H. by rewrite H, Z.testbit_0_l.
Qed.

Lemma next_available q : proc_ok q ->
  has_unmasked_pending (blocked (signals q)) (signals q) = true ->
  next_signal q (trailing_zeros (Z.land (pending (signals q)) (not64 (blocked (signals q))))).
Proof.
  intros (Hp & Hb & _) H. apply negb_true_iff, Z.eqb_neq in H.
  destruct (trailing_zeros_spec (Z.land (pending (signals q)) (not64 (blocked (signals q))))) as (Hr & Ht & Hlow);
    [apply u64_land; [done|apply not64_range]|done|].
  refine (conj Hr (conj _ _)); [by rewrite <- available_spec|]. intros i Hi. rewrite <- available_spec by lia. auto.
Qed.

Lemma clear_spec b s i : 0 <= b < 64 -> is_u64 (pending s) -> 0 <= i ->
  Z.testbit (pending (clear b s)) i = Z.testbit (pending s) i && negb (i =? b).
Proof.
  intros Hb Hp Hi. unfold clear. cbn. rewrite Z.land_spec, not64_spec, shl64_spec by lia.
  destruct (Z.ltb_spec i 64).
  - cbn [andb]. f_equal. f_equal. destruct (Z.eqb_spec i b) as [->|Hne]; [by rewrite Z.sub_diag|].
    destruct (Z.lt_ge_cases i b); [by rewrite Z.testbit_neg_r by lia|]. apply Z.bits_above_log2; cbn; lia.
  - by rewrite u64_bits_high.
Qed.

(** The address of the frame that a handler would be entered with. *)
Definition handler_rsp (old_rsp : Z) : Z := Z.land (u64 (u64 (old_rsp - 8) - 144)) (not64 0xF).

Lemma frame_of_context regs a fpu : length regs = 18%nat -> frame_of (context_of regs a fpu) = <[17%nat := a]> regs.
Proof. intros Hl. do 18 (destruct regs as [|? regs]; [done|]). by destruct regs. Qed.

(** What entering a handler leaves: the signal is no longer pending, it is
    blocked, and the saved context is the frame with the stack pointer replaced
    by the address of the frame. *)
Definition entered (q q' : Process) (b h : Z) (regs regs' fpu : list Z) : Prop :=
  let a := handler_rsp (regs !!! 17%nat) in
  (forall i, 0 <= i -> Z.testbit (pending (signals q')) i = Z.testbit (pending (signals q)) i && negb (i =? b)) /\
  (forall i, 0 <= i < 64 -> Z.testbit (blocked (signals q')) i = Z.testbit (blocked (signals q)) i || (i =? b)) /\
  (exists c, saved_context (signals q') = Some c /\ frame_of c = <[17%nat := a]> regs /\ fpu_state c = Some fpu) /\
  regs' = <[8%nat := b + 1]> (<[15%nat := h]> (<[17%nat := a]> regs)) /\ canonical a = true /\
  signal_handlers q' = signal_handlers q /\ signal_restorers q' = signal_restorers q /\ fd_table q' = fd_table q.

Lemma enter_handler_spec vtp tr fpu q regs b h r :
  proc_ok q -> length regs = 18%nat -> 0 <= b < 64 ->
  match enter_handler vtp tr fpu q regs b h r with
  | Resume q' regs' ws => ws <> [] /\ entered q q' b h regs regs' fpu
  | ExitProcess code _ => code = 129 + b
  | KernelPanic =>
      canonical (handler_rsp (regs !!! 17%nat)) = false \/ canonical (u64 (regs !!! 17%nat - 8)) = false
  end.
Proof.
  intros Hq Hl Hb. unfold enter_handler. fold (handler_rsp (regs !!! 17%nat)).
  destruct (canonical (handler_rsp _)) eqn:Hc; cbn [negb]; [|by left].
  destruct (vtp _) as [phys|]; [|lia]. destruct (canonical (u64 _)) eqn:Hc'; cbn [negb]; [|by right].
  destruct (vtp _) as [phys'|]; [|lia]. split; [done|]. destruct Hq as (Hp & Hbl & _).
  split_and!; cbn [signals with_signals pending blocked saved_context]; try done.
  - intros i Hi. by rewrite <- clear_spec by done.
  - intros i Hi. rewrite Z.lor_spec, shl64_spec by lia. f_equal.
    rewrite (proj2 (Z.ltb_lt i 64)) by lia. cbn [andb]. destruct (Z.eqb_spec i b) as [->|Hne]; [by rewrite Z.sub_diag|].
    destruct (Z.lt_ge_cases i b); [by rewrite Z.testbit_neg_r by lia|]. apply Z.bits_above_log2; cbn; lia.
  - eexists. split_and!; [done|by apply frame_of_context|done].
Qed.

(** Entering handler [h] of signal [b + 1] with the registers [regs]: the
    frame goes to the stack of the user, 16-byte aligned, and the return
    address below its stack pointer. *)
Definition handler_outcome (vtp : Z -> option Z) (tr : Z) (fpu : list Z) (q : Process) (regs : list Z) (b h : Z)
    (d : Delivery) : Prop :=
  let sp := regs !!! 17%nat in
  let frame := mjoin (le_bytes 8 <$> regs) in
  if decide (canonical (handler_rsp sp) = false) then d = KernelPanic
  else match vtp (handler_rsp sp) with
  | None => d = ExitProcess (129 + b) []
  | Some phys =>
      if decide (canonical (u64 (sp - 8)) = false) then d = KernelPanic
      else match vtp (u64 (sp - 8)) with
      | None => d = ExitProcess (129 + b) [(phys, frame)]
      | Some ret_phys =>
          exists q' regs', entered q q' b h regs regs' fpu /\
            d = Resume q' regs' [(phys, frame);
                  (ret_phys, let r := get_restorer tr (signal_restorers q !!! Z.to_nat b) in
                             if decide (r = tr) then SIGNAL_RESTORER else le_bytes 8 r)]
      end
  end.

Lemma enter_handler_outcome vtp tr fpu q regs b h :
  proc_ok q -> length regs = 18%nat -> 0 <= b < 64 ->
  handler_outcome vtp tr fpu q regs b h
    (enter_handler vtp tr fpu q regs b h (get_restorer tr (signal_restorers q !!! Z.to_nat b))).
Proof.
  intros Hq Hl Hb. set (r := get_restorer _ _).
  pose proof (enter_handler_spec vtp tr fpu q regs b h r Hq Hl Hb) as He. revert He.
  unfold handler_outcome, enter_handler. fold (handler_rsp (regs !!! 17%nat)). fold r.
  destruct (canonical (handler_rsp _)); cbn [negb]; [|done].
  rewrite decide_False by done. destruct (vtp (handler_rsp _)) as [phys|]; [|intros _; f_equal; lia].
  destruct (canonical (u64 _)); cbn [negb]; [|done].
  rewrite decide_False by done. destruct (vtp (u64 _)) as [phys'|]; [|intros _; f_equal; lia].
  intros [_ He]. eexists _, _. split; [exact He|]. cbv zeta. do 2 f_equal. f_equal. f_equal.
  destruct (Z.eqb_spec r tr); [by rewrite decide_True|by rewrite decide_False].
Qed.


(** A delivery that wrote to the user's stack entered a handler. *)
Lemma deliver_entered vtp tr fpu q regs q' regs' ws :
  proc_ok q -> length regs = 18%nat -> deliver vtp tr fpu q regs = Resume q' regs' ws -> ws <> [] ->
  exists b h, next_signal q b /\ signal_handlers q !! Z.to_nat b = Some h /\ entered q q' b h regs regs' fpu.
Proof.
  intros Hq Hl Hd Hws. unfold deliver in Hd. cbv zeta in Hd.
  destruct (has_unmasked_pending _ _) eqn:Hu; cbn [negb] in Hd; [|congruence].
  pose proof (next_available q Hq Hu) as Hn. set (b := trailing_zeros _) in *.
  destruct (signal_handlers q !! Z.to_nat b) as [h|] eqn:Hh; [|done].
  destruct (signal_restorers q !! Z.to_nat b) as [r|]; [|done].
  destruct (Z.eqb_spec h 1) as [->|H1]; [congruence|]. destruct (Z.eqb_spec h 0) as [->|H0]; [done|].
  pose proof (enter_handler_spec vtp tr fpu q regs b h (get_restorer tr r) Hq Hl (proj1 Hn)) as He.
  rewrite Hd in He. exists b, h. exact (conj Hn (conj Hh (proj2 He))).
Qed.

(** Returning from a handler gives back every register that was saved when
    the signal was delivered, with its floating-point state, apart from the
    stack pointer: that is left at the frame of the handler, at least 152 bytes
    below where it was. The mask is cleared, whatever it was before. *)
Theorem sigreturn_roundtrip vtp tr fpu q regs q' regs' ws q2 regs2 fpu2 :
  proc_ok q -> length regs = 18%nat -> 152 <= regs !!! 17%nat < M64 ->
  deliver vtp tr fpu q regs = Resume q' regs' ws -> ws <> [] ->
  saved_context (signals q2) = saved_context (signals q') -> length fpu2 = length fpu ->
  exists a q3, sys_rt_sigreturn (Some q2) regs2 fpu2 = (regs !!! 14%nat, Some q3, <[17%nat := a]> regs, fpu) /\
    a = handler_rsp (regs !!! 17%nat) /\ a <= regs !!! 17%nat - 152 /\
    blocked (signals q3) = 0 /\ saved_context (signals q3) = None /\ pending (signals q3) = pending (signals q2).
Proof.
  intros Hq Hl Hrsp Hd Hws Hs Hfpu.
  destruct (deliver_entered _ _ _ _ _ _ _ _ Hq Hl Hd Hws) as (b & h & _ & _ & _ & _ & (c & Hc & Hf & Hfp) & _).
  exists (handler_rsp (regs !!! 17%nat)). unfold sys_rt_sigreturn, restore_context. rewrite Hs, Hc, Hfp.
  exists (with_signals (mk (pending (signals q2)) 0 None) q2). split_and!; [|done| |done..].
  - rewrite Hf, Hfpu, Nat.min_id, Nat.sub_diag, firstn_all, app_nil_r. repeat f_equal.
    assert (Hx : frame_of c !!! 14%nat = regs !!! 14%nat) by (by rewrite Hf, list_lookup_total_insert_ne). exact Hx.
  - unfold handler_rsp. rewrite (u64_small (regs !!! 17%nat - 8)) by (unfold is_u64; lia).
    rewrite u64_small by (unfold is_u64; lia).
    transitivity (regs !!! 17%nat - 8 - 144); [|lia]. apply bits_subset_le; [| |].
    + apply Z.land_nonneg. left. lia.
    + lia.
    + intros i Hi. rewrite Z.land_spec. by intros [Ht _]%andb_prop.
Qed.

(** C18. No handler is ever entered. When a system call of a user ends with the
    delivery of a signal to a handler, the words of the frame that were
    redirected are not the ones the entry stub returns through: the user goes on
    at the instruction after the call, on its own stack, with the number of the
    signal in RDI and every other register but RAX, RCX and R11 as it was. *)
Theorem signal_handler_not_entered vtp tr fpu q q' regs' ws ret (kernel : (Z -> Z) -> Z -> Z) scratch lstar m :
  let kgs := kernel_gs_base m in
  let k := mem m (kgs + 0x10) in
  layout kgs k -> proc_ok q ->
  deliver vtp tr fpu q (user_frame m) = Resume q' regs' ws -> ws <> [] ->
  (forall mm, kernel mm (kgs + 0x18) = mm (kgs + 0x18)) ->
  let h := fun _ _ p mm => (ret, write_words p regs' (kernel mm)) in
  let m' := syscall_entry h scratch (syscall_insn lstar m) in
  exists b handler, next_signal q b /\ signal_handlers q !! Z.to_nat b = Some handler /\ regs' !! 15%nat = Some handler /\
    Entry.rip m' = Entry.rip m /\ reg m' RDI = b + 1 /\ forall r, r ∉ [RAX; RCX; R11; RDI] -> reg m' r = reg m r.
Proof.
  intros kgs k Hlay Hq Hd Hws Hk.
  destruct (deliver_entered _ _ _ _ _ _ _ _ Hq (eq_refl : length (user_frame m) = 18%nat) Hd Hws)
    as (b & hd & Hn & Hh & _ & _ & _ & Hregs & _).
  exists b, hd. split; [done|]. split; [done|].
  destruct (syscall_entry_spec (fun _ _ p mm => (ret, write_words p regs' (kernel mm))) scratch lstar m Hlay)
    as (mm & _ & Hu & _ & Hrun). fold kgs in Hu, Hrun. fold k in Hrun.
  specialize (Hrun ret _ eq_refl). cbv zeta in *.
  generalize dependent (syscall_entry (fun _ _ p mm => (ret, write_words p regs' (kernel mm))) scratch (syscall_insn lstar m)).
  intros m' (Hrip & _ & Hsp & _ & Hr & _).
  assert (Hl : length regs' = 18%nat) by (by rewrite Hregs, !length_insert).
  assert (Hw : forall i v, regs' !! i = Some v -> write_words (k - 144) regs' (kernel mm) (k - 144 + 8 * Z.of_nat i) = v).
  { intros i v Hi. by apply write_words_in. }
  assert (Hsp' : reg m' RSP = reg m RSP).
  { rewrite Hsp, write_words_out, Hk; [exact Hu|]. rewrite Hl. destruct Hlay as (? & ? & ? & ?). lia. }
  split; [by rewrite Hregs|]. split; [rewrite Hrip; apply (Hw 13%nat); by rewrite Hregs|].
  split; [rewrite (Hr RDI _ eq_refl); apply (Hw 8%nat); by rewrite Hregs|].
  intros r Hnr. destruct (decide (r = RSP)) as [->|Hne]; [done|]. rewrite !not_elem_of_cons in Hnr.
  destruct Hnr as (? & ? & ? & Hdi & _). destruct (user_frame_lookup m r) as (i & Hi & Hv).
  { rewrite !not_elem_of_cons. split_and!; [done..|apply not_elem_of_nil]. }
  rewrite (Hr r i Hi). apply Hw. rewrite Hregs.
  assert (Hi' : i <> 8%nat /\ i <> 15%nat /\ i <> 17%nat) by (destruct r; try discriminate Hi; injection Hi as <-; done).
  by rewrite !list_lookup_insert_ne by (apply not_eq_sym, Hi').
Qed.

(** ** Who may send a signal *)

Lemma route_procs f q signo code spid suid sv w :
  procs (route_signal_to_signalfd_for f q signo code spid suid sv w) = procs w /\
  woken (route_signal_to_signalfd_for f q signo code spid suid sv w) = woken w.
Proof. unfold route_signal_to_signalfd_for. by destruct (files_free f). Qed.

(** A signal is sent only if it is one of the six that [sys_kill] knows, to
    a process that exists, by root, by the owner of the process or with
    CAP_KILL, and if the security policy allows it; it is then pending in that
    process, whose threads are woken, and no other process changes. Every error
    leaves everything as it was. Process 1 is spared when the slot of the
    signal after the one sent has no handler. *)
Theorem kill_authorised f pid sig w r w' :
  sys_kill f pid sig w = (r, w') ->
  (r <> 0 -> w' = w) /\
  (r = 0 -> sig ∈ kill_signals /\ exists q, procs w !! u64 pid = Some q /\
    (get_current_euid w = 0 \/ get_current_euid w = p_uid q \/ has_capability CAP_KILL w = true) /\
    hook_file_perm (lsm w) (current_subject (current_process w)) (str "pid:"%string ++ decimal (u64 pid)) (str "kill"%string) = true /\
    (u64 pid = 1 /\ signal_handlers q !!! Z.to_nat sig = 0 /\ w' = w \/
     procs w' = <[u64 pid := with_signals (raise sig (signals q)) q]> (procs w) /\ woken w' = u64 pid :: woken w)).
Proof.
  unfold sys_kill. destruct (bool_decide_reflect (sig ∈ kill_signals)) as [Hs|]; cbn [negb]; [|by intros [= <- <-]].
  destruct (procs w !! u64 pid) as [q|] eqn:Hq; [|by intros [= <- <-]].
  destruct (negb (get_current_euid w =? 0) && _ && _) eqn:Hperm; [by intros [= <- <-]|].
  assert (Hauth : get_current_euid w = 0 \/ get_current_euid w = p_uid q \/ has_capability CAP_KILL w = true).
  { destruct (Z.eqb_spec (get_current_euid w) 0); [by left|]. destruct (Z.eqb_spec (get_current_euid w) (p_uid q)); [by auto|].
    right; right. by destruct (has_capability CAP_KILL w). }
  destruct (hook_file_perm _ _ _ _) eqn:Hhook; cbn [negb]; [|by intros [= <- <-]].
  destruct ((u64 pid =? 1) && _ && _) eqn:Hinit.
  - intros [= <- <-]. split; [done|]. intros _. split; [done|]. exists q. split_and!; [done..|]. left.
    apply andb_prop in Hinit as [[H1%Z.eqb_eq _]%andb_prop H0%Z.eqb_eq]. done.
  - intros [= <- <-]. split; [done|]. intros _. split; [done|]. exists q. split_and!; [done..|]. right.
    cbn [procs wake woken]. rewrite (proj1 (route_procs _ _ _ _ _ _ _ _)), (proj2 (route_procs _ _ _ _ _ _ _ _)). done.
Qed.

(** ** The invariant *)

(** Neither SIGKILL nor SIGSTOP is in the mask of a descriptor. *)
Definition fd_ok (d : SignalFdData) : Prop :=
  is_u64 (mask d) /\ Z.testbit (mask d) 8 = false /\ Z.testbit (mask d) 18 = false.

Definition world_ok (w : World) : Prop :=
  map_Forall (fun _ q => proc_ok q) (procs w) /\
  map_Forall (fun h d => fd_ok d /\ h < NEXT_SIGNALFD_HANDLE w) (SIGNAL_FDS w) /\
  is_u64 (NEXT_SIGNALFD_HANDLE w) /\ mem_bytes (umem w).

(** The calls, the delivery on the way out of one, and a message-queue
    notification, which raises any of 64 signals. *)
Inductive sig_step (w : World) : World -> Prop :=
| step_sigaction sig act old : sig_step w (sys_rt_sigaction sig act old w).2
| step_linux_sigaction sig act old : 0 <= sig -> sig_step w (linux_rt_sigaction sig act old w).2
| step_sigprocmask how set old : sig_step w (sys_sigprocmask how set old w).2
| step_sigaltstack pad new old : bytes pad -> sig_step w (sys_sigaltstack pad new old w).2
| step_kill f pid sig : sig_step w (sys_kill f pid sig w).2
| step_signalfd fd p n : NEXT_SIGNALFD_HANDLE w < M64 - 1 -> sig_step w (sys_signalfd4 fd p n w).2
| step_read pad h buf : bytes pad -> sig_step w (read_signalfd pad h buf w).2
| step_close h : sig_step w (close_signalfd h w)
| step_notify p q b : procs w !! p = Some q -> 0 <= b < 64 -> sig_step w (set_proc p (with_signals (raise (b + 1) (signals q)) q) w)
| step_deliver vtp tr fpu p q regs q' regs' ws :
    procs w !! p = Some q -> length regs = 18%nat -> deliver vtp tr fpu q regs = Resume q' regs' ws -> sig_step w (set_proc p q' w)
| step_sigreturn p q q' regs fpu r regs' fpu' :
    procs w !! p = Some q -> sys_rt_sigreturn (Some q) regs fpu = (r, Some q', regs', fpu') -> sig_step w (set_proc p q' w).

Lemma set_proc_ok p q w : world_ok w -> proc_ok q -> world_ok (set_proc p q w).
Proof.
  intros (Hp & Hf & Hn & Hm) Hq. refine (conj _ (conj Hf (conj Hn Hm))). cbn. by apply map_Forall_insert_2.
Qed.

Lemma set_umem_ok m w : world_ok w -> mem_bytes m -> world_ok (set_umem m w).
Proof. intros (Hp & Hf & Hn & _) Hm. exact (conj Hp (conj Hf (conj Hn Hm))). Qed.

Lemma set_fds_ok fds w :
  world_ok w -> map_Forall (fun h d => fd_ok d /\ h < NEXT_SIGNALFD_HANDLE w) fds -> world_ok (set_fds fds w).
Proof. intros (Hp & _ & Hn & Hm) Hf. exact (conj Hp (conj Hf (conj Hn Hm))). Qed.

Lemma write_out_ok w ptr l b m :
  world_ok w -> bytes l -> (if ptr =? 0 then (true, umem w) else copy_to_user (umem w) ptr l) = (b, m) -> world_ok (set_umem m w).
Proof.
  intros Hw Hl Hc. apply set_umem_ok; [done|]. destruct (ptr =? 0); [injection Hc as _ <-; apply Hw|].
  pose proof (copy_to_user_bytes (umem w) ptr l) as Hb. rewrite Hc in Hb. apply Hb; [apply Hw|done].
Qed.

Lemma current_ok w p q : world_ok w -> current w = Some (p, q) -> proc_ok q.
Proof.
  intros (Hp & _) Hc. unfold current in Hc. destruct (current_process w) as [p'|]; [|done]. cbn in Hc.
  destruct (procs w !! p') as [q'|] eqn:Hq; [|done]. injection Hc as <- <-. by apply (Hp p').
Qed.

Lemma get_current_ok w p q : world_ok w -> get_current_process w = Some (p, q) -> proc_ok q.
Proof.
  intros Hw Hc. unfold get_current_process in Hc. destruct (cpu_process w) as [p'|]; [|by eapply current_ok].
  destruct (procs w !! p') as [q'|] eqn:Hq; [|done]. injection Hc as <- <-. destruct Hw as [Hp _]. by apply (Hp p').
Qed.

Lemma with_signals_ok s q : proc_ok q -> is_u64 (pending s) -> is_u64 (blocked s) -> proc_ok (with_signals s q).
Proof. intros (_ & _ & Hr) Hp Hb. exact (conj Hp (conj Hb Hr)). Qed.

Lemma with_handlers_ok h r q : proc_ok q -> length h = 32%nat -> length r = 32%nat -> proc_ok (with_handlers h r q).
Proof. intros (Hp & Hb & _ & _ & Ha) Hh Hr. exact (conj Hp (conj Hb (conj Hh (conj Hr Ha)))). Qed.

Lemma user_word_u64 w ptr raw : world_ok w -> copy_from_user (umem w) ptr 8 = Some raw -> is_u64 (le_value raw).
Proof.
  intros (_ & _ & _ & Hm) Hc. destruct (copy_from_user_bytes _ _ _ _ Hm Hc) as [Hb Hl].
  pose proof (le_value_range raw Hb) as Hr. rewrite Hl in Hr. exact Hr.
Qed.

Lemma sigaction_ok sig act old w : world_ok w -> world_ok (sys_rt_sigaction sig act old w).2.
Proof.
  intros Hw. unfold sys_rt_sigaction. destruct ((sig =? 0) || (32 <? sig)); [done|].
  destruct (current w) as [[p q]|] eqn:Hc; [|done]. pose proof (current_ok w p q Hw Hc) as Hq.
  destruct (if old =? 0 then _ else _) as [ok m] eqn:Ho.
  apply write_out_ok in Ho; [|done|]; [|by unfold sigaction_bytes; rewrite !Forall_app; split_and!; apply le_bytes_u8].
  destruct ok; cbn [negb]; [|done]. destruct (act =? 0); [done|].
  destruct (copy_from_user _ _ _) as [new|]; [|done]. apply set_proc_ok; [done|]. destruct Hq as (Hp & Hb & Hh & Hr & Ha).
  apply with_handlers_ok; [by split_and!|by rewrite length_insert|]. case_match; [by rewrite length_insert|done].
Qed.

Lemma linux_install_ok sig new w : world_ok w -> world_ok (linux_install sig new w).
Proof.
  intros Hw. unfold linux_install. destruct new as [[h r]|]; [|done]. destruct (current w) as [[p q]|] eqn:Hc; [|done].
  destruct (sig <? 32); [|done]. pose proof (current_ok w p q Hw Hc) as Hq. apply set_proc_ok; [done|].
  apply with_handlers_ok; [done|rewrite length_insert; apply Hq|]. case_match; rewrite ?length_insert; apply Hq.
Qed.

Lemma linux_sigaction_ok sig act old w : world_ok w -> world_ok (linux_rt_sigaction sig act old w).2.
Proof.
  intros Hw. unfold linux_rt_sigaction. destruct (_ && _); [done|].
  destruct (linux_read_action act w) as [new|]; [|done]. pose proof (linux_install_ok sig new w Hw) as Hw1.
  destruct (old =? 0); [done|]. destruct (copy_to_user _ _ _) as [ok m] eqn:Hc. apply set_umem_ok; [done|].
  match type of Hc with copy_to_user ?a ?b ?l = _ => pose proof (copy_to_user_bytes a b l) as Hb end.
  rewrite Hc in Hb. apply Hb; [apply Hw1|apply le_bytes_u8].
Qed.

Lemma sigprocmask_ok how set old w : world_ok w -> world_ok (sys_sigprocmask how set old w).2.
Proof.
  intros Hw. unfold sys_sigprocmask. destruct (_ && _); [done|].
  destruct (read_set set w) as [new|] eqn:Hn; [|done].
  destruct (current w) as [[p q]|] eqn:Hc; [|done]. pose proof (current_ok w p q Hw Hc) as Hq.
  destruct (if old =? 0 then _ else _) as [ok m] eqn:Ho. apply write_out_ok in Ho; [|done|apply le_bytes_u8].
  destruct ok; cbn [negb]; [|done]. destruct new as [val|]; [|done]. apply set_proc_ok; [done|].
  assert (Hv : is_u64 val).
  { unfold read_set in Hn. destruct (set =? 0); [done|]. destruct (copy_from_user _ _ _) as [raw|] eqn:Hr; [|done]. injection Hn as <-.
    by apply (user_word_u64 w set). }
  apply with_signals_ok; [done|apply Hq|]. cbn. destruct (how =? 0); [apply u64_lor; [apply Hq|done]|].
  destruct (how =? 1); [apply u64_land; [apply Hq|apply not64_range]|done].
Qed.

Lemma sigaltstack_ok pad new old w : bytes pad -> world_ok w -> world_ok (sys_sigaltstack pad new old w).2.
Proof.
  intros Hpad Hw. unfold sys_sigaltstack. destruct (get_current_process w) as [[p q]|] eqn:Hc; [|done].
  pose proof (get_current_ok w p q Hw Hc) as Hq. destruct (if old =? 0 then _ else _) as [ok m] eqn:Ho.
  apply write_out_ok in Ho; [|done|].
  2: { unfold stack_bytes. rewrite !Forall_app. split_and!; first [done|apply le_bytes_u8]. }
  destruct ok; cbn [negb]; [|done]. destruct (new =? 0); [done|]. destruct (copy_from_user _ _ _) as [b|]; [|done].
  destruct (ss_flags (altstack q) =? SS_ONSTACK); [done|].
  destruct (Z.eqb_spec (ss_flags (stack_of_bytes b)) SS_DISABLE) as [Hd|Hd]; cbn [negb andb].
  - apply set_proc_ok; [done|]. destruct Hq as (? & ? & ? & ? & _). split_and!; try done. by right.
  - destruct (Z.eqb_spec (ss_flags (stack_of_bytes b)) 0) as [H0|H0]; cbn [negb]; [|done].
    destruct (Z.ltb_spec (ss_size (stack_of_bytes b)) MINSIGSTKSZ); [done|].
    apply set_proc_ok; [done|]. destruct Hq as (? & ? & ? & ? & _). split_and!; try done. by left.
Qed.

Lemma route_entries_ok f signo info w t : forall i fds,
  map_Forall (fun h d => fd_ok d /\ h < NEXT_SIGNALFD_HANDLE w) fds ->
  map_Forall (fun h d => fd_ok d /\ h < NEXT_SIGNALFD_HANDLE w) (route_entries f signo info i t fds).
Proof.
  induction t as [|e t IH]; intros i fds Hf; cbn [route_entries]; [done|].
  destruct e as [[h|]|]; [|by apply IH..]. destruct (registry_free f i); cbn [negb]; [|done]. apply IH.
  destruct (fds !! h) as [d|] eqn:Hd; [|done]. destruct (_ && _); [|done]. apply map_Forall_insert_2; [|done]. exact (Hf h d Hd).
Qed.

Lemma route_ok f q signo code spid suid sv w :
  world_ok w -> world_ok (route_signal_to_signalfd_for f q signo code spid suid sv w).
Proof.
  intros Hw. unfold route_signal_to_signalfd_for. destruct (files_free f); cbn [negb]; [|done].
  apply set_fds_ok; [done|]. apply route_entries_ok, Hw.
Qed.

Lemma wake_ok p w : world_ok w -> world_ok (wake p w).
Proof. done. Qed.

Lemma raise_ok sig q : proc_ok q -> proc_ok (with_signals (raise sig (signals q)) q).
Proof. intros Hq. apply with_signals_ok; [done| |apply Hq]. apply u64_lor; [apply Hq|apply shl64_range]. Qed.

Lemma kill_ok f pid sig w : world_ok w -> world_ok (sys_kill f pid sig w).2.
Proof.
  intros Hw. unfold sys_kill. destruct (negb _); [done|]. destruct (procs w !! u64 pid) as [q|] eqn:Hq; [|done].
  destruct (_ && _ && _); [done|]. destruct (negb _); [done|]. destruct (_ && _ && _); [done|]. cbn [snd].
  apply wake_ok, route_ok, set_proc_ok; [done|]. apply raise_ok. destruct Hw as [Hp _]. by apply (Hp (u64 pid)).
Qed.

Lemma signalfd_mask_ok m : is_u64 m ->
  is_u64 (signalfd_mask m) /\ Z.testbit (signalfd_mask m) 8 = false /\ Z.testbit (signalfd_mask m) 18 = false.
Proof.
  intros Hm. unfold signalfd_mask. split; [apply u64_land; [done|apply not64_range]|].
  split; rewrite Z.land_spec, not64_spec by lia; by rewrite andb_false_r.
Qed.

Lemma create_ok p q m w : NEXT_SIGNALFD_HANDLE w < M64 - 1 -> world_ok w -> proc_ok q ->
  fd_ok (mkFdData m []) -> world_ok (create_signalfd p q m w).2.
Proof.
  intros Hnext (Hp & Hf & Hn & Hm) Hq Hmask. unfold create_signalfd. destruct (add_descriptor _ _) as [i t]. cbn [snd].
  apply set_proc_ok; [|exact Hq].
  assert (Hs : u64 (NEXT_SIGNALFD_HANDLE w + 1) = NEXT_SIGNALFD_HANDLE w + 1).
  { apply u64_small. unfold is_u64 in *. lia. }
  refine (conj Hp (conj _ (conj _ Hm))); cbn [SIGNAL_FDS NEXT_SIGNALFD_HANDLE set_fds set_next]; rewrite Hs.
  - apply map_Forall_insert_2; [split; [exact Hmask|lia]|]. eapply map_Forall_impl; [exact Hf|].
    cbn. intros h d [Hd Hlt]. split; [done|lia].
  - unfold is_u64 in *. lia.
Qed.

Lemma signalfd_ok fd ptr n w : NEXT_SIGNALFD_HANDLE w < M64 - 1 -> world_ok w -> world_ok (sys_signalfd4 fd ptr n w).2.
Proof.
  intros Hnext Hw. unfold sys_signalfd4. destruct (get_current_process w) as [[p q]|] eqn:Hc; [|done].
  destruct (ptr =? 0); [done|]. destruct (_ || _); [done|]. destruct (copy_from_user _ _ _) as [raw|] eqn:Hr; [|done].
  pose proof (signalfd_mask_ok (le_value raw) (user_word_u64 w ptr raw Hw Hr)) as Hmask.
  pose proof (create_ok p q _ w Hnext Hw (get_current_ok w p q Hw Hc) Hmask) as Hcreate.
  destruct (fd =? M64 - 1); [done|]. destruct (_ <=? fd); [done|].
  destruct (fd_table q !! Z.to_nat fd) as [[[h|]|]|]; [|done..].
  destruct (SIGNAL_FDS w !! h) as [d|] eqn:Hd; [|done]. apply set_fds_ok; [done|].
  apply map_Forall_insert_2; [|apply Hw]. split; [exact Hmask|]. destruct Hw as (_ & Hf & _). apply (Hf h d Hd).
Qed.

Lemma read_ok pad h buf w : bytes pad -> world_ok w -> world_ok (read_signalfd pad h buf w).2.
Proof.
  intros Hpad Hw. unfold read_signalfd. destruct (SIGNAL_FDS w !! h) as [d|] eqn:Hd; [|done].
  destruct (queue d) as [|info rest]; [done|].
  set (w1 := set_fds _ w). assert (Hw1 : world_ok w1).
  { apply set_fds_ok; [done|]. apply map_Forall_insert_2; [|apply Hw]. destruct Hw as (_ & Hf & _). exact (Hf h d Hd). }
  destruct (copy_to_user _ _ _) as [ok m] eqn:Hc. apply set_umem_ok; [done|].
  pose proof (copy_to_user_bytes (umem w1) buf (info_bytes pad info)) as Hb. rewrite Hc in Hb. apply Hb; [apply Hw1|].
  unfold info_bytes. rewrite !Forall_app.
  split_and!; first [done|apply le_bytes_u8|apply Forall_replicate; unfold is_u8; lia].
Qed.

Lemma deliver_ok vtp tr fpu q regs q' regs' ws :
  proc_ok q -> length regs = 18%nat -> deliver vtp tr fpu q regs = Resume q' regs' ws -> proc_ok q'.
Proof.
  intros Hq Hl. unfold deliver. cbv zeta. destruct (has_unmasked_pending _ _) eqn:Hu; cbn [negb]; [|by intros [= <- _ _]].
  set (b := trailing_zeros _). destruct (signal_handlers q !! Z.to_nat b) as [h|]; [|done].
  destruct (signal_restorers q !! Z.to_nat b) as [r|]; [|done].
  assert (Hcl : is_u64 (pending (clear b (signals q)))) by (apply u64_land; [apply Hq|apply not64_range]).
  destruct (h =? 1); [intros [= <- _ _]; apply with_signals_ok; [done|exact Hcl|apply Hq]|]. destruct (h =? 0); [done|].
  unfold enter_handler. destruct (negb _); [done|]. destruct (vtp _); [|done]. destruct (negb _); [done|].
  destruct (vtp _); [|done]. intros [= <- _ _]. apply with_signals_ok; [done|exact Hcl|].
  apply u64_lor; [apply Hq|apply shl64_range].
Qed.

(** Every call and every delivery keeps what the others rely on: the masks
    and pending sets are 64-bit words, there are 32 handlers and restorers, an
    alternate stack is disabled or of at least the minimum size, and neither
    SIGKILL nor SIGSTOP is ever in the mask of a signal file descriptor. So
    [sigaltstack] never finds a stack in use and answers EPERM. *)
Theorem signals_invariant w w' : world_ok w -> rtc sig_step w w' ->
  world_ok w' /\ forall pad new old r w2, sys_sigaltstack pad new old w' = (r, w2) -> r <> Errno.ret Errno.EPERM.
Proof.
  intros Hw Hsteps.
  assert (Hok : world_ok w').
  { induction Hsteps as [|w w1 w' Hstep _ IH]; [done|]. apply IH. destruct Hstep;
      eauto using sigaction_ok, linux_sigaction_ok, sigprocmask_ok, sigaltstack_ok, kill_ok, signalfd_ok, read_ok.
    - apply set_fds_ok; [done|]. apply map_Forall_delete, Hw.
    - apply set_proc_ok; [done|]. apply raise_ok. destruct Hw as [Hp _]. by apply (Hp p).
    - apply set_proc_ok; [done|]. destruct Hw as [Hp _]. eapply deliver_ok; [by apply (Hp p)|done|done].
    - apply set_proc_ok; [done|]. destruct Hw as [Hp _]. pose proof (Hp p q H) as Hq. cbn in Hq.
      unfold sys_rt_sigreturn, restore_context in H0. destruct (saved_context (signals q));
        injection H0 as _ <- _ _; apply with_signals_ok; try done; apply Hq. }
  split; [done|]. intros pad new old r w2 Hs. unfold sys_sigaltstack in Hs.
  destruct (get_current_process w') as [[p q]|] eqn:Hc; [|by injection Hs as <- _].
  pose proof (get_current_ok w' p q Hok Hc) as (_ & _ & _ & _ & Ha).
  destruct (if old =? 0 then _ else _) as [ok m]. destruct ok; cbn [negb] in Hs; [|by injection Hs as <- _].
  destruct (new =? 0); [by injection Hs as <- _|]. destruct (copy_from_user _ _ _); [|by injection Hs as <- _].
  replace (ss_flags (altstack q) =? SS_ONSTACK) with false in Hs by (destruct Ha as [[-> _]| ->]; done).
  repeat case_match; by injection Hs as <- _.
Qed.

(** ** Instances *)

Definition disabled : stack_t := mkStack 0 SS_DISABLE 0.

(** A process of user 7 with a handler for SIGUSR1 (10) at 0x402000. *)
Definition demo_proc (pend blk : Z) : Process :=
  mkProcess 7 7 0 (mk pend blk None) (<[9%nat := 0x402000]> (replicate 32 0)) (replicate 32 0) disabled [].

Lemma demo_proc_ok pend blk : is_u64 pend -> is_u64 blk -> proc_ok (demo_proc pend blk).
Proof. intros Hp Hb. split_and!; try done. by right. Qed.

Definition flat (a : Z) : option Z := Some a.


Lemma sigreturn_roundtrip_witness :
  exists a q3, sys_rt_sigreturn (Some (with_signals (mk 0 0x200 (Some (context_of (replicate 18 0x7FFF0000) 0x7FFEFF60 [])))
      (demo_proc 0 0))) [] [] = (0x7FFF0000, Some q3, <[17%nat := a]> (replicate 18 0x7FFF0000), []) /\
    a = 0x7FFEFF60 /\ blocked (signals q3) = 0.
Proof.
  destruct (sigreturn_roundtrip flat 0 [] (demo_proc 0x200 0) (replicate 18 0x7FFF0000)
    (with_signals (mk 0 0x200 (Some (context_of (replicate 18 0x7FFF0000) 0x7FFEFF60 []))) (demo_proc 0x200 0))
    (<[8%nat := 10]> (<[15%nat := 0x402000]> (<[17%nat := 0x7FFEFF60]> (replicate 18 0x7FFF0000))))
    [(0x7FFEFF60, mjoin (le_bytes 8 <$> replicate 18 0x7FFF0000)); (0x7FFEFFF8, SIGNAL_RESTORER)]
    (with_signals (mk 0 0x200 (Some (context_of (replicate 18 0x7FFF0000) 0x7FFEFF60 []))) (demo_proc 0 0)) [] [])
    as (a & q3 & Hs & Ha & _ & Hb & _).
  - apply demo_proc_ok; vm_compute; done.
  - reflexivity.
  - vm_compute. done.
  - vm_compute. reflexivity.
  - done.
  - reflexivity.
  - reflexivity.
  - exists a, q3. split_and!; [exact Hs|rewrite Ha; vm_compute; reflexivity|exact Hb].
Defined.

(** The user of [Entry.demo_user], whose call ends with SIGUSR1 pending. *)
Lemma signal_handler_not_entered_witness :
  exists regs', regs' !! 15%nat = Some 0x402000 /\
    let m' := syscall_entry (fun _ _ p mm => (40, write_words p regs' mm)) zero_regs (syscall_insn 0 demo_user) in
    Entry.rip m' = 0x401000 /\ reg m' RDI = 10 /\ reg m' RSP = 0x7FFF0000.
Proof.
  destruct (deliver flat 0 [] (demo_proc 0x200 0) (user_frame demo_user)) as [q' regs' ws|code ws|] eqn:Hd;
    [|vm_compute in Hd; discriminate Hd..].
  exists regs'.
  destruct (signal_handler_not_entered flat 0 [] (demo_proc 0x200 0) q' regs' ws 40 (fun mm => mm) zero_regs 0 demo_user)
    as (b & h & (Hr & Ha & Hlow) & Hh & Hreg & Hrip & Hdi & Hrest).
  - vm_compute. split_and!; try done. left. done.
  - apply demo_proc_ok; vm_compute; done.
  - exact Hd.
  - revert Hd. vm_compute. intros [= _ _ <-]. done.
  - done.
  - assert (Hb : b = 9).
    { destruct (decide (b = 9)) as [->|Hne]; [done|]. exfalso. destruct (Z.lt_ge_cases 9 b).
      - specialize (Hlow 9 ltac:(lia)). vm_compute in Hlow. discriminate Hlow.
      - unfold available in Ha. cbn [signals demo_proc pending] in Ha. apply andb_prop in Ha as [Ha _].
        assert (Hc : b = 0 \/ b = 1 \/ b = 2 \/ b = 3 \/ b = 4 \/ b = 5 \/ b = 6 \/ b = 7 \/ b = 8) by lia.
        destruct Hc as [->|[->|[->|[->|[->|[->|[->|[->| ->]]]]]]]]; discriminate Ha. }
    subst b. cbv zeta. split_and!; [rewrite Hreg; revert Hh; vm_compute; intros [= <-]; reflexivity|exact Hrip|exact Hdi|].
    apply (Hrest RSP). compute_done.
Defined.

(** Process 1, process 5 of user 7 and process 6 of user 8; 5 is running. *)
Definition demo_world : World :=
  mkWorld (<[1 := demo_proc 0 0]> (<[5 := demo_proc 0 0]>
    (<[6 := mkProcess 8 8 0 new (replicate 32 0) (replicate 32 0) disabled []]> ∅)))
    (Some 5) (Some 5) ∅ 1 (mkLsm false 0 [] ∅) [] (list_to_map (zip (seqZ 4096 64) (replicate 64 255))).
Definition all_free : Free := mkFree true (fun _ => true) (fun _ => true).

Lemma demo_world_ok : world_ok demo_world.
Proof.
  refine (conj _ (conj _ (conj _ _))).
  - cbn [procs demo_world]. apply map_Forall_insert_2; [by apply demo_proc_ok|].
    apply map_Forall_insert_2; [by apply demo_proc_ok|]. apply map_Forall_insert_2; [|apply map_Forall_empty].
    split_and!; try done. by right.
  - apply map_Forall_empty.
  - done.
  - unfold mem_bytes. cbn [umem demo_world]. intros k b Hk. apply elem_of_list_to_map_2 in Hk.
    apply elem_of_zip_r, elem_of_replicate in Hk as [-> _]. done.
Qed.

Lemma kill_authorised_witness :
  (sys_kill all_free 6 15 demo_world).1 = Errno.ret Errno.EPERM /\
  let w' := (sys_kill all_free 5 15 demo_world).2 in
  procs w' !! 6 = procs demo_world !! 6 /\ woken w' = [5].
Proof.
  split; [vm_compute; reflexivity|]. cbv zeta. destruct (sys_kill all_free 5 15 demo_world) as [r w'] eqn:Hk.
  destruct (kill_authorised all_free 5 15 demo_world r w' Hk) as [_ H].
  assert (Hr : r = 0) by (revert Hk; vm_compute; by intros [= <- _]).
  destruct (H Hr) as (_ & q & _ & _ & _ & [(H1 & _)|[Hp Hw]]); [vm_compute in H1; discriminate H1|]. cbn [snd].
  rewrite Hp, Hw. split; [by rewrite lookup_insert_ne by (vm_compute; done)|reflexivity].
Defined.

Lemma signals_invariant_witness :
  let w' := (sys_sigprocmask 2 4096 0 demo_world).2 in
  world_ok w' /\ forall pad new old r w2, sys_sigaltstack pad new old w' = (r, w2) -> r <> Errno.ret Errno.EPERM.
Proof.
  cbv zeta. apply (signals_invariant demo_world); [exact demo_world_ok|].
  apply rtc_once, step_sigprocmask.
Defined.

(** ** Behaviours to know of *)

(** The default action is always to end the process: a parent that did not
    install a handler ends with status 145 when a child does (SIGCHLD is 17). *)
Example sigchld_ends_parent : deliver flat 0 [] (demo_proc (shl64 1 16) 0) (replicate 18 0) = ExitProcess 145 [].
Proof. vm_compute. reflexivity. Qed.

(** SIGKILL can be blocked: the mask of 64 ones that [demo_world] holds at 4096
    is installed as it is. *)
Example sigkill_blocked :
  let w1 := (sys_sigprocmask 2 4096 0 demo_world).2 in
  let w2 := (sys_kill all_free 5 9 w1).2 in
  (fun q => (pending (signals q), deliver flat 0 [] q (replicate 18 0))) <$> procs w2 !! 5 =
  (fun q => (shl64 1 8, Resume q (replicate 18 0) [])) <$> procs w2 !! 5.
Proof. vm_compute. reflexivity. Qed.

(** A message-queue notification may name any signal up to 64; one above 32
    panics the kernel when it is delivered. *)
Example high_signal_panics : deliver flat 0 [] (with_signals (raise 40 new) (demo_proc 0 0)) (replicate 18 0) = KernelPanic.
Proof. vm_compute. reflexivity. Qed.

(** A user whose stack pointer is just above the canonical range panics the
    kernel when it takes a signal, and one whose stack pointer is in kernel
    space has its registers written there. *)
Example stack_pointer_not_checked :
  deliver flat 0 [] (demo_proc 0x200 0) (<[17%nat := 0x800000001000]> (replicate 18 0)) = KernelPanic /\
  exists q' regs', deliver flat 0 [] (demo_proc 0x200 0) (<[17%nat := 0xFFFF800000001000]> (replicate 18 1)) =
    Resume q' regs' [(0xFFFF800000000F60, mjoin (le_bytes 8 <$> <[17%nat := 0xFFFF800000001000]> (replicate 18 1)));
                     (0xFFFF800000000FF8, SIGNAL_RESTORER)].
Proof. split; [vm_compute; reflexivity|]. eexists _, _. vm_compute. reflexivity. Qed.

(** Process 1 is guarded by the handler of the next signal: with a handler for
    SIGUSR1 (10) it is not spared SIGKILL (9), which ends it. *)
Example init_guard_off_by_one :
  let w := mkWorld (procs demo_world) (Some 1) (Some 1) ∅ 1 (lsm demo_world) [] ∅ in
  let w' := (sys_kill all_free 1 9 w).2 in
  (fun q => deliver flat 0 [] q (replicate 18 0)) <$> procs w' !! 1 = Some (ExitProcess 137 []).
Proof. vm_compute. reflexivity. Qed.

(** A handler that a Linux program installs for a signal is kept in the slot of
    the next one: installed for SIGINT (2), it is entered for SIGQUIT (3), and
    SIGINT ends the process. *)
Example linux_handler_off_by_one :
  let w := set_umem (list_to_map (zip (seqZ 4096 32) (replicate 32 1))) demo_world in
  let w' := (linux_rt_sigaction 2 4096 0 w).2 in
  (fun q => (signal_handlers q !! 1%nat, signal_handlers q !! 2%nat)) <$> procs w' !! 5 =
    Some (Some 0, Some (le_value (replicate 8 1))).
Proof. vm_compute. reflexivity. Qed.
