(* ===== verification/Dispatch.v ===== *)
(** * System-call dispatch

    Model of [kernel/src/syscalls/numbers.rs], of [dispatch.rs] (the table that
    [build_table] makes, the entry points [syscall_handler], [do_syscall],
    [do_syscall_unchecked], [do_syscall_denied] and [do_syscall_body]) and of
    [kernel/src/emulation.rs] (the dispatch of Linux programs). A handler is its
    Rust path with the arguments the table passes to it. What the dispatcher
    asks of the rest of the kernel (the ASH hook, the seccomp filter, a handler,
    the delivery of signals) are the requests of a small language of programs:
    their answers come from outside, so the theorems hold for every kernel
    state. The features [ash] and [hypervisor], both off by default, are
    arguments. *)

From Stdlib Require Import String.
From S2P Require Import Prelude UserAccess Lsm Ash Seccomp.

(** ** Numbers *)

Inductive Sys :=
| SYS_READ | SYS_WRITE | SYS_OPEN | SYS_CLOSE | SYS_STAT | SYS_FSTAT | SYS_LSEEK | SYS_MMAP | SYS_MPROTECT
| SYS_MUNMAP | SYS_MSYNC | SYS_MINCORE | SYS_BRK | SYS_CLONE | SYS_FORK | SYS_EXECVE | SYS_EXIT | SYS_WAIT4
| SYS_RT_SIGACTION | SYS_RT_SIGRETURN | SYS_NANOSLEEP | SYS_GETPID | SYS_GETPPID | SYS_DUP | SYS_DUP2
| SYS_ACCESS | SYS_FCNTL | SYS_PIPE | SYS_UNAME | SYS_FSYNC | SYS_FDATASYNC | SYS_GETDENTS | SYS_VFORK
| SYS_SHUTDOWN | SYS_SOCKETPAIR | SYS_SOCKET | SYS_CONNECT | SYS_SENDTO | SYS_RECVFROM | SYS_BIND
| SYS_LISTEN | SYS_ACCEPT | SYS_SETSOCKOPT | SYS_GETSOCKOPT | SYS_SENDMSG | SYS_RECVMSG | SYS_GETSOCKNAME
| SYS_GETPEERNAME | SYS_GUI_CREATE_WINDOW | SYS_GUI_GET_BUFFER | SYS_GUI_FLUSH | SYS_GUI_MAP_BUFFER
| SYS_GUI_GET_KEY | SYS_BEEP | SYS_GETCWD | SYS_CHDIR | SYS_MKDIR | SYS_UNLINK | SYS_KILL | SYS_RESOLVE
| SYS_FUTEX | SYS_SCHED_SETAFFINITY | SYS_SCHED_GETAFFINITY | SYS_SYSINFO | SYS_SCHED_YIELD | SYS_MREMAP
| SYS_SCHED_SETATTR | SYS_SCHED_GETATTR | SYS_GETDENTS64 | SYS_IOCTL | SYS_CLOCK_GETTIME | SYS_CLOCK_GETRES
| SYS_CLOCK_NANOSLEEP | SYS_MOUNT | SYS_UMOUNT2 | SYS_CHMOD | SYS_FCHMOD | SYS_CHOWN | SYS_FCHOWN
| SYS_UMASK | SYS_SYMLINK | SYS_READLINK | SYS_RENAME | SYS_ARCH_PRCTL | SYS_SELECT | SYS_POLL | SYS_GETUID
| SYS_GETGID | SYS_SETUID | SYS_SETGID | SYS_GETEUID | SYS_GETEGID | SYS_CAPGET | SYS_CAPSET
| SYS_SIGPROCMASK | SYS_IO_URING_SETUP | SYS_IO_URING_ENTER | SYS_IO_URING_REGISTER | SYS_BPF | SYS_SYNC
| SYS_REBOOT | SYS_DRMCTL | SYS_HASH | SYS_OPENPTY | SYS_STATFS | SYS_TRUNCATE | SYS_FTRUNCATE
| SYS_SET_TID_ADDRESS | SYS_EXIT_GROUP | SYS_GUI_GET_MOUSE | SYS_GUI_SET_TITLE | SYS_GUI_DESTROY_WINDOW
| SYS_GUI_RESIZE_WINDOW | SYS_GUI_MOVE_WINDOW | SYS_CLIPBOARD | SYS_NOTIFY | SYS_MKFS | SYS_ASH_REGISTER
| SYS_ASH_UNREGISTER | SYS_ASH_STATS | SYS_ASH_CONTROL | SYS_LSTAT | SYS_SENDFILE | SYS_LINK
| SYS_UTIMENSAT | SYS_FALLOCATE | SYS_GETGROUPS | SYS_SETGROUPS | SYS_GETRESUID | SYS_SETRESUID
| SYS_GETRESGID | SYS_SETRESGID | SYS_VM_CREATE | SYS_VM_DESTROY | SYS_VM_START | SYS_VM_STOP
| SYS_VM_PAUSE | SYS_VM_RESUME | SYS_VM_LOAD_KERNEL | SYS_VM_GET_INFO | SYS_VM_SET_MEMORY
| SYS_VM_INJECT_IRQ | SYS_OBJMGR_ENUM | SYS_OBJMGR_AUDIT | SYS_OPENAT | SYS_MKDIRAT | SYS_FSTATAT
| SYS_UNLINKAT | SYS_RENAMEAT | SYS_LINKAT | SYS_SYMLINKAT | SYS_READLINKAT | SYS_FACCESSAT | SYS_SETPGID
| SYS_GETPGID | SYS_GETPGRP | SYS_SETSID | SYS_GETSID | SYS_GETRLIMIT | SYS_SETRLIMIT | SYS_PRLIMIT64
| SYS_PAUSE | SYS_GETITIMER | SYS_SETITIMER | SYS_TIMES | SYS_GETRUSAGE | SYS_TIMERFD_CREATE
| SYS_TIMERFD_SETTIME | SYS_TIMERFD_GETTIME | SYS_SIGALTSTACK | SYS_SIGNALFD | SYS_SIGNALFD4 | SYS_EVENTFD
| SYS_EVENTFD2 | SYS_TIMER_CREATE | SYS_TIMER_SETTIME | SYS_TIMER_GETTIME | SYS_TIMER_GETOVERRUN
| SYS_TIMER_DELETE | SYS_SHMGET | SYS_SHMAT | SYS_SHMCTL | SYS_SHMDT | SYS_MEMFD_CREATE | SYS_SWAPON
| SYS_SWAPOFF | SYS_EPOLL_CREATE1 | SYS_EPOLL_CTL | SYS_EPOLL_WAIT | SYS_EPOLL_PWAIT | SYS_EPOLL_CREATE
| SYS_READV | SYS_WRITEV | SYS_MADVISE | SYS_PIPE2 | SYS_DUP3 | SYS_PREAD64 | SYS_PWRITE64
| SYS_EPOLL_CREATE1_NATIVE | SYS_EPOLL_CTL_NATIVE | SYS_EPOLL_WAIT_NATIVE | SYS_PPOLL | SYS_PSELECT6
| SYS_ACCEPT4 | SYS_PR_LIMIT64 | SYS_GETRANDOM | SYS_PRCTL | SYS_SECCOMP | SYS_LANDLOCK_CREATE_RULESET
| SYS_LANDLOCK_ADD_RULE | SYS_LANDLOCK_RESTRICT_SELF | SYS_UNSHARE | SYS_SETNS | SYS_CGROUP_MKDIR
| SYS_CGROUP_WRITE | SYS_CGROUP_READ | SYS_MQ_OPEN | SYS_MQ_UNLINK | SYS_MQ_TIMEDSEND | SYS_MQ_TIMEDRECEIVE
| SYS_MQ_NOTIFY | SYS_MQ_GETSETATTR | SYS_INOTIFY_INIT | SYS_INOTIFY_ADD_WATCH | SYS_INOTIFY_RM_WATCH
| SYS_RECVMMSG | SYS_SENDMMSG.

Definition number (s : Sys) : Z :=
  match s with
  | SYS_READ => 0 | SYS_WRITE => 1 | SYS_OPEN => 2 | SYS_CLOSE => 3 | SYS_STAT => 4 | SYS_FSTAT => 5
  | SYS_LSEEK => 8 | SYS_MMAP => 9 | SYS_MPROTECT => 10 | SYS_MUNMAP => 11 | SYS_MSYNC => 26
  | SYS_MINCORE => 27 | SYS_BRK => 12 | SYS_CLONE => 56 | SYS_FORK => 57 | SYS_EXECVE => 59
  | SYS_EXIT => 60 | SYS_WAIT4 => 61 | SYS_RT_SIGACTION => 13 | SYS_RT_SIGRETURN => 15
  | SYS_NANOSLEEP => 35 | SYS_GETPID => 39 | SYS_GETPPID => 110 | SYS_DUP => 32 | SYS_DUP2 => 33
  | SYS_ACCESS => 21 | SYS_FCNTL => 72 | SYS_PIPE => 22 | SYS_UNAME => 63 | SYS_FSYNC => 74
  | SYS_FDATASYNC => 75 | SYS_GETDENTS => 78 | SYS_VFORK => 58 | SYS_SHUTDOWN => 48 | SYS_SOCKETPAIR => 53
  | SYS_SOCKET => 41 | SYS_CONNECT => 42 | SYS_SENDTO => 44 | SYS_RECVFROM => 45 | SYS_BIND => 49
  | SYS_LISTEN => 50 | SYS_ACCEPT => 43 | SYS_SETSOCKOPT => 54 | SYS_GETSOCKOPT => 55 | SYS_SENDMSG => 46
  | SYS_RECVMSG => 47 | SYS_GETSOCKNAME => 51 | SYS_GETPEERNAME => 52 | SYS_GUI_CREATE_WINDOW => 100
  | SYS_GUI_GET_BUFFER => 101 | SYS_GUI_FLUSH => 102 | SYS_GUI_MAP_BUFFER => 103 | SYS_GUI_GET_KEY => 105
  | SYS_BEEP => 104 | SYS_GETCWD => 79 | SYS_CHDIR => 80 | SYS_MKDIR => 83 | SYS_UNLINK => 87
  | SYS_KILL => 62 | SYS_RESOLVE => 200 | SYS_FUTEX => 202 | SYS_SCHED_SETAFFINITY => 203
  | SYS_SCHED_GETAFFINITY => 204 | SYS_SYSINFO => 205 | SYS_SCHED_YIELD => 24 | SYS_MREMAP => 25
  | SYS_SCHED_SETATTR => 144 | SYS_SCHED_GETATTR => 145 | SYS_GETDENTS64 => 217 | SYS_IOCTL => 16
  | SYS_CLOCK_GETTIME => 228 | SYS_CLOCK_GETRES => 229 | SYS_CLOCK_NANOSLEEP => 230 | SYS_MOUNT => 165
  | SYS_UMOUNT2 => 167 | SYS_CHMOD => 90 | SYS_FCHMOD => 91 | SYS_CHOWN => 92 | SYS_FCHOWN => 93
  | SYS_UMASK => 95 | SYS_SYMLINK => 88 | SYS_READLINK => 89 | SYS_RENAME => 82 | SYS_ARCH_PRCTL => 158
  | SYS_SELECT => 23 | SYS_POLL => 7 | SYS_GETUID => 301 | SYS_GETGID => 302 | SYS_SETUID => 303
  | SYS_SETGID => 304 | SYS_GETEUID => 305 | SYS_GETEGID => 306 | SYS_CAPGET => 307 | SYS_CAPSET => 308
  | SYS_SIGPROCMASK => 309 | SYS_IO_URING_SETUP => 425 | SYS_IO_URING_ENTER => 426
  | SYS_IO_URING_REGISTER => 427 | SYS_BPF => 321 | SYS_SYNC => 36 | SYS_REBOOT => 169 | SYS_DRMCTL => 400
  | SYS_HASH => 401 | SYS_OPENPTY => 210 | SYS_STATFS => 137 | SYS_TRUNCATE => 76 | SYS_FTRUNCATE => 77
  | SYS_SET_TID_ADDRESS => 218 | SYS_EXIT_GROUP => 231 | SYS_GUI_GET_MOUSE => 120
  | SYS_GUI_SET_TITLE => 121 | SYS_GUI_DESTROY_WINDOW => 122 | SYS_GUI_RESIZE_WINDOW => 123
  | SYS_GUI_MOVE_WINDOW => 124 | SYS_CLIPBOARD => 125 | SYS_NOTIFY => 126 | SYS_MKFS => 127
  | SYS_ASH_REGISTER => 310 | SYS_ASH_UNREGISTER => 311 | SYS_ASH_STATS => 312 | SYS_ASH_CONTROL => 313
  | SYS_LSTAT => 6 | SYS_SENDFILE => 40 | SYS_LINK => 86 | SYS_UTIMENSAT => 280 | SYS_FALLOCATE => 285
  | SYS_GETGROUPS => 115 | SYS_SETGROUPS => 116 | SYS_GETRESUID => 118 | SYS_SETRESUID => 119
  | SYS_GETRESGID => 314 | SYS_SETRESGID => 315 | SYS_VM_CREATE => 340 | SYS_VM_DESTROY => 341
  | SYS_VM_START => 342 | SYS_VM_STOP => 343 | SYS_VM_PAUSE => 344 | SYS_VM_RESUME => 345
  | SYS_VM_LOAD_KERNEL => 346 | SYS_VM_GET_INFO => 347 | SYS_VM_SET_MEMORY => 348
  | SYS_VM_INJECT_IRQ => 349 | SYS_OBJMGR_ENUM => 380 | SYS_OBJMGR_AUDIT => 381 | SYS_OPENAT => 257
  | SYS_MKDIRAT => 258 | SYS_FSTATAT => 262 | SYS_UNLINKAT => 263 | SYS_RENAMEAT => 264 | SYS_LINKAT => 265
  | SYS_SYMLINKAT => 266 | SYS_READLINKAT => 267 | SYS_FACCESSAT => 269 | SYS_SETPGID => 157
  | SYS_GETPGID => 330 | SYS_GETPGRP => 111 | SYS_SETSID => 112 | SYS_GETSID => 331 | SYS_GETRLIMIT => 97
  | SYS_SETRLIMIT => 98 | SYS_PRLIMIT64 => 332 | SYS_PAUSE => 34 | SYS_GETITIMER => 350
  | SYS_SETITIMER => 351 | SYS_TIMES => 352 | SYS_GETRUSAGE => 353 | SYS_TIMERFD_CREATE => 354
  | SYS_TIMERFD_SETTIME => 355 | SYS_TIMERFD_GETTIME => 356 | SYS_SIGALTSTACK => 131 | SYS_SIGNALFD => 282
  | SYS_SIGNALFD4 => 289 | SYS_EVENTFD => 284 | SYS_EVENTFD2 => 290 | SYS_TIMER_CREATE => 222
  | SYS_TIMER_SETTIME => 223 | SYS_TIMER_GETTIME => 224 | SYS_TIMER_GETOVERRUN => 225
  | SYS_TIMER_DELETE => 226 | SYS_SHMGET => 29 | SYS_SHMAT => 30 | SYS_SHMCTL => 31 | SYS_SHMDT => 67
  | SYS_MEMFD_CREATE => 319 | SYS_SWAPON => 326 | SYS_SWAPOFF => 327 | SYS_EPOLL_CREATE1 => 432
  | SYS_EPOLL_CTL => 433 | SYS_EPOLL_WAIT => 434 | SYS_EPOLL_PWAIT => 435 | SYS_EPOLL_CREATE => 436
  | SYS_READV => 437 | SYS_WRITEV => 438 | SYS_MADVISE => 439 | SYS_PIPE2 => 440 | SYS_DUP3 => 441
  | SYS_PREAD64 => 442 | SYS_PWRITE64 => 443 | SYS_EPOLL_CREATE1_NATIVE => 450
  | SYS_EPOLL_CTL_NATIVE => 451 | SYS_EPOLL_WAIT_NATIVE => 452 | SYS_PPOLL => 453 | SYS_PSELECT6 => 454
  | SYS_ACCEPT4 => 455 | SYS_PR_LIMIT64 => 456 | SYS_GETRANDOM => 457 | SYS_PRCTL => 460
  | SYS_SECCOMP => 317 | SYS_LANDLOCK_CREATE_RULESET => 444 | SYS_LANDLOCK_ADD_RULE => 445
  | SYS_LANDLOCK_RESTRICT_SELF => 446 | SYS_UNSHARE => 272 | SYS_SETNS => 464 | SYS_CGROUP_MKDIR => 461
  | SYS_CGROUP_WRITE => 462 | SYS_CGROUP_READ => 463 | SYS_MQ_OPEN => 240 | SYS_MQ_UNLINK => 241
  | SYS_MQ_TIMEDSEND => 242 | SYS_MQ_TIMEDRECEIVE => 243 | SYS_MQ_NOTIFY => 244 | SYS_MQ_GETSETATTR => 245
  | SYS_INOTIFY_INIT => 467 | SYS_INOTIFY_ADD_WATCH => 468 | SYS_INOTIFY_RM_WATCH => 469
  | SYS_RECVMMSG => 473 | SYS_SENDMMSG => 474
  end.

(** ** Handlers *)

(** Where an argument comes from, and what it is cast to. *)
Inductive Slot := A1 | A2 | A3 | A4 | A5 | Regs.
Inductive Arg :=
| U64 (s : Slot) | Ptr (s : Slot) | Usize (s : Slot) | I64 (s : Slot) | I32 (s : Slot) | U32 (s : Slot) | U8 (s : Slot)
| Lit (v : Z).

(** [SyscallHandler]: an adapter that the macro [sys_handler!] makes, or one of
    the four that read the sixth argument from the saved registers. *)
Inductive SyscallHandler :=
| Direct (f : string) (args : list Arg)
| mmap_entry | futex_entry | sendto_entry | recvfrom_entry.

(** ** The table, in the order of [build_table] *)

Definition table_part_1 : list (Sys * SyscallHandler) :=
  [(SYS_READ, Direct "fs::sys_read" [U64 A1; Ptr A2; Usize A3]);
   (SYS_WRITE, Direct "fs::sys_write" [U64 A1; Ptr A2; Usize A3]);
   (SYS_OPEN, Direct "fs::sys_open" [Ptr A1; I32 A2; U32 A3]);
   (SYS_CLOSE, Direct "fs::sys_close" [U64 A1]);
   (SYS_STAT, Direct "fs::sys_stat" [Ptr A1; Ptr A2]);
   (SYS_FSTAT, Direct "fs::sys_fstat" [U64 A1; Ptr A2]);
   (SYS_LSTAT, Direct "fs::sys_lstat" [Ptr A1; Ptr A2]);
   (SYS_POLL, Direct "misc::sys_poll" [Ptr A1; Usize A2; I32 A3]);
   (SYS_LSEEK, Direct "fs::sys_lseek" [U64 A1; I64 A2; I32 A3]);
   (SYS_MMAP, mmap_entry);
   (SYS_MPROTECT, Direct "fs::sys_mprotect" [U64 A1; U64 A2; U64 A3]);
   (SYS_MUNMAP, Direct "fs::sys_munmap" [U64 A1; U64 A2]);
   (SYS_BRK, Direct "fs::sys_brk" [U64 A1]);
   (SYS_MREMAP, Direct "fs::sys_mremap" [U64 A1; Usize A2; Usize A3; I32 A4; U64 A5]);
   (SYS_MSYNC, Direct "fs::sys_msync" [U64 A1; Usize A2; I32 A3]);
   (SYS_MINCORE, Direct "fs::sys_mincore" [U64 A1; Usize A2; Ptr A3]);
   (SYS_RT_SIGACTION, Direct "process::sys_rt_sigaction" [U64 A1; Ptr A2; Ptr A3; U64 A4]);
   (SYS_RT_SIGRETURN, Direct "process::sys_rt_sigreturn" [U64 Regs]);
   (SYS_IOCTL, Direct "fs::sys_ioctl" [U64 A1; U64 A2; Ptr A3]);
   (SYS_ACCESS, Direct "fs::sys_access" [Ptr A1; I32 A2]);
   (SYS_PIPE, Direct "fs::sys_pipe" [Ptr A1]);
   (SYS_SELECT, Direct "misc::sys_select" [U64 A1; Ptr A2; Ptr A3; Ptr A4; Ptr A5]);
   (SYS_SCHED_YIELD, Direct "process::sys_sched_yield" []);
   (SYS_DUP, Direct "fs::sys_dup" [U64 A1]);
   (SYS_DUP2, Direct "fs::sys_dup2" [U64 A1; U64 A2]);
   (SYS_PAUSE, Direct "process::sys_pause" []);
   (SYS_NANOSLEEP, Direct "process::sys_nanosleep" [U64 A1; U64 A2]);
   (SYS_SYNC, Direct "fs::sys_sync" []);
   (SYS_GETPID, Direct "process::sys_getpid" [])].

Definition table_part_2 : list (Sys * SyscallHandler) :=
  [(SYS_SENDFILE, Direct "fs::sys_sendfile" [U64 A1; U64 A2; Ptr A3; U64 A4]);
   (SYS_SOCKET, Direct "net::sys_socket" [U64 A1; U64 A2; U64 A3]);
   (SYS_CONNECT, Direct "net::sys_connect" [U64 A1; Ptr A2; U64 A3]);
   (SYS_ACCEPT, Direct "net::sys_accept" [U64 A1; Ptr A2; Ptr A3]);
   (SYS_ACCEPT4, Direct "net::sys_accept4" [U64 A1; Ptr A2; Ptr A3; U64 A4]);
   (SYS_SENDTO, sendto_entry);
   (SYS_RECVFROM, recvfrom_entry);
   (SYS_SENDMSG, Direct "net::sys_sendmsg" [I64 A1; Ptr A2; I32 A3]);
   (SYS_RECVMSG, Direct "net::sys_recvmsg" [I64 A1; Ptr A2; I32 A3]);
   (SYS_BIND, Direct "net::sys_bind" [U64 A1; Ptr A2; U64 A3]);
   (SYS_LISTEN, Direct "net::sys_listen" [U64 A1; U64 A2]);
   (SYS_GETSOCKNAME, Direct "net::sys_getsockname" [U64 A1; Ptr A2; Ptr A3]);
   (SYS_GETPEERNAME, Direct "misc::sys_getpeername" [U64 A1; Ptr A2; Ptr A3]);
   (SYS_SOCKETPAIR, Direct "net::sys_socketpair" [U64 A1; U64 A2; U64 A3; Ptr A4]);
   (SYS_SETSOCKOPT, Direct "net::sys_setsockopt" [U64 A1; I32 A2; I32 A3; Ptr A4; U64 A5]);
   (SYS_GETSOCKOPT, Direct "net::sys_getsockopt" [U64 A1; I32 A2; I32 A3; Ptr A4; Ptr A5]);
   (SYS_CLONE, Direct "process::sys_clone" [U64 A1; U64 A2; Ptr A3; Ptr A4; U64 A5; U64 Regs]);
   (SYS_FORK, Direct "process::sys_fork" [U64 Regs]);
   (SYS_EXECVE, Direct "process::sys_execve" [Ptr A1; Ptr A2; Ptr A3; U64 Regs]);
   (SYS_EXIT, Direct "process::sys_exit" [U64 A1]);
   (SYS_WAIT4, Direct "process::sys_wait4" [I64 A1; Ptr A2; I32 A3; Ptr A4]);
   (SYS_KILL, Direct "process::sys_kill" [I64 A1; U32 A2]);
   (SYS_UNAME, Direct "process::sys_uname" [Ptr A1])].

Definition table_part_3 : list (Sys * SyscallHandler) :=
  [(SYS_FCNTL, Direct "fs::sys_fcntl" [U64 A1; I32 A2; U64 A3]);
   (SYS_FSYNC, Direct "fs::sys_fsync" [U64 A1]);
   (SYS_FDATASYNC, Direct "fs::sys_fdatasync" [U64 A1]);
   (SYS_GETDENTS, Direct "fs::sys_getdents" [U64 A1; Ptr A2; Usize A3]);
   (SYS_VFORK, Direct "fs::sys_vfork" []);
   (SYS_SHUTDOWN, Direct "fs::sys_shutdown" [U64 A1; I32 A2]);
   (SYS_TRUNCATE, Direct "fs::sys_truncate" [Ptr A1; I64 A2]);
   (SYS_FTRUNCATE, Direct "fs::sys_ftruncate" [U64 A1; I64 A2]);
   (SYS_GETCWD, Direct "fs::sys_getcwd" [Ptr A1; Usize A2]);
   (SYS_CHDIR, Direct "fs::sys_chdir" [Ptr A1]);
   (SYS_RENAME, Direct "fs::sys_rename" [Ptr A1; Ptr A2]);
   (SYS_MKDIR, Direct "fs::sys_mkdir" [Ptr A1; U32 A2]);
   (SYS_LINK, Direct "fs::sys_link" [Ptr A1; Ptr A2]);
   (SYS_UNLINK, Direct "fs::sys_unlink" [Ptr A1]);
   (SYS_SYMLINK, Direct "fs::sys_symlink" [Ptr A1; Ptr A2]);
   (SYS_READLINK, Direct "fs::sys_readlink" [Ptr A1; Ptr A2; U64 A3]);
   (SYS_CHMOD, Direct "fs::sys_chmod" [Ptr A1; U32 A2]);
   (SYS_FCHMOD, Direct "fs::sys_fchmod" [U64 A1; U32 A2]);
   (SYS_CHOWN, Direct "fs::sys_chown" [Ptr A1; U32 A2; U32 A3]);
   (SYS_FCHOWN, Direct "fs::sys_fchown" [U64 A1; U32 A2; U32 A3]);
   (SYS_UMASK, Direct "fs::sys_umask" [U32 A1]);
   (SYS_GETRLIMIT, Direct "process::sys_getrlimit" [U64 A1; Ptr A2]);
   (SYS_SETRLIMIT, Direct "process::sys_setrlimit" [U64 A1; Ptr A2]);
   (SYS_GETPPID, Direct "process::sys_getppid" []);
   (SYS_GETPGRP, Direct "process::sys_getpgrp" []);
   (SYS_SETSID, Direct "process::sys_setsid" []);
   (SYS_GETGROUPS, Direct "process::sys_getgroups" [I32 A1; Ptr A2]);
   (SYS_SETGROUPS, Direct "process::sys_setgroups" [I64 A1; Ptr A2]);
   (SYS_GETRESUID, Direct "process::sys_getresuid" [Ptr A1; Ptr A2; Ptr A3]);
   (SYS_SETRESUID, Direct "process::sys_setresuid" [U32 A1; U32 A2; U32 A3])].

Definition table_part_4 : list (Sys * SyscallHandler) :=
  [(SYS_SIGALTSTACK, Direct "process::sys_sigaltstack" [Ptr A1; Ptr A2]);
   (SYS_STATFS, Direct "fs::sys_statfs" [Ptr A1; Ptr A2]);
   (SYS_SCHED_SETATTR, Direct "process::sys_sched_setattr" [I64 A1; Ptr A2; U64 A3]);
   (SYS_SCHED_GETATTR, Direct "process::sys_sched_getattr" [I64 A1; Ptr A2; U64 A3; U64 A4]);
   (SYS_SETPGID, Direct "process::sys_setpgid" [U64 A1; U64 A2]);
   (SYS_ARCH_PRCTL, Direct "process::sys_arch_prctl" [U64 A1; U64 A2]);
   (SYS_MOUNT, Direct "fs::sys_mount" [Ptr A1; Ptr A2; Ptr A3; U64 A4; Ptr A5]);
   (SYS_UMOUNT2, Direct "fs::sys_umount2" [Ptr A1; U64 A2]);
   (SYS_REBOOT, Direct "misc::sys_reboot" [U64 A1; U64 A2]);
   (SYS_RESOLVE, Direct "misc::sys_resolve" [Ptr A1; Ptr A2]);
   (SYS_FUTEX, futex_entry);
   (SYS_SCHED_SETAFFINITY, Direct "process::sys_sched_setaffinity" [I64 A1; U64 A2; U64 A3]);
   (SYS_SCHED_GETAFFINITY, Direct "process::sys_sched_getaffinity" [I64 A1; U64 A2; U64 A3]);
   (SYS_SYSINFO, Direct "process::sys_sysinfo" [Ptr A1]);
   (SYS_OPENPTY, Direct "gui::sys_openpty" []);
   (SYS_GETDENTS64, Direct "fs::sys_getdents64" [U64 A1; Ptr A2; Usize A3]);
   (SYS_SET_TID_ADDRESS, Direct "process::sys_set_tid_address" [Ptr A1]);
   (SYS_TIMER_CREATE, Direct "posix_timers::sys_timer_create" [I32 A1; Ptr A2; Ptr A3]);
   (SYS_TIMER_SETTIME, Direct "posix_timers::sys_timer_settime" [I32 A1; I32 A2; Ptr A3; Ptr A4]);
   (SYS_TIMER_GETTIME, Direct "posix_timers::sys_timer_gettime" [I32 A1; Ptr A2]);
   (SYS_TIMER_GETOVERRUN, Direct "posix_timers::sys_timer_getoverrun" [I32 A1]);
   (SYS_TIMER_DELETE, Direct "posix_timers::sys_timer_delete" [I32 A1]);
   (SYS_CLOCK_GETTIME, Direct "misc::sys_clock_gettime" [U64 A1; Ptr A2]);
   (SYS_CLOCK_GETRES, Direct "misc::sys_clock_getres" [U64 A1; Ptr A2])].

Definition table_part_5 : list (Sys * SyscallHandler) :=
  [(SYS_CLOCK_NANOSLEEP, Direct "misc::sys_clock_nanosleep" [U64 A1; U64 A2; Ptr A3; Ptr A4]);
   (SYS_EXIT_GROUP, Direct "process::sys_exit_group" [U64 A1]);
   (SYS_OPENAT, Direct "fs::sys_openat" [I64 A1; Ptr A2; I32 A3; U32 A4]);
   (SYS_MKDIRAT, Direct "fs::sys_mkdirat" [I64 A1; Ptr A2; U32 A3]);
   (SYS_FSTATAT, Direct "fs::sys_fstatat" [I64 A1; Ptr A2; Ptr A3; I32 A4]);
   (SYS_UNLINKAT, Direct "fs::sys_unlinkat" [I64 A1; Ptr A2; I32 A3]);
   (SYS_RENAMEAT, Direct "fs::sys_renameat" [I64 A1; Ptr A2; I64 A3; Ptr A4]);
   (SYS_LINKAT, Direct "fs::sys_linkat" [I64 A1; Ptr A2; I64 A3; Ptr A4; I32 A5]);
   (SYS_SYMLINKAT, Direct "fs::sys_symlinkat" [Ptr A1; I64 A2; Ptr A3]);
   (SYS_READLINKAT, Direct "fs::sys_readlinkat" [I64 A1; Ptr A2; Ptr A3; U64 A4]);
   (SYS_FACCESSAT, Direct "fs::sys_faccessat" [I64 A1; Ptr A2; I32 A3; I32 A4]);
   (SYS_UNSHARE, Direct "namespaces::sys_unshare" [U64 A1]);
   (SYS_UTIMENSAT, Direct "fs::sys_utimensat" [I64 A1; Ptr A2; Ptr A3; I32 A4]);
   (SYS_SIGNALFD, Direct "process::sys_signalfd" [U64 A1; Ptr A2; U64 A3]);
   (SYS_EVENTFD, Direct "eventfd::sys_eventfd2" [U32 A1; Lit 0]);
   (SYS_FALLOCATE, Direct "fs::sys_fallocate" [U64 A1; I32 A2; I64 A3; I64 A4]);
   (SYS_SIGNALFD4, Direct "process::sys_signalfd4" [U64 A1; Ptr A2; U64 A3; I32 A4]);
   (SYS_EVENTFD2, Direct "eventfd::sys_eventfd2" [U32 A1; I32 A2]);
   (SYS_GETUID, Direct "process::sys_getuid" [])].

Definition table_part_6 : list (Sys * SyscallHandler) :=
  [(SYS_GETGID, Direct "process::sys_getgid" []);
   (SYS_SETUID, Direct "process::sys_setuid" [U64 A1]);
   (SYS_SETGID, Direct "process::sys_setgid" [U64 A1]);
   (SYS_GETEUID, Direct "process::sys_geteuid" []);
   (SYS_GETEGID, Direct "process::sys_getegid" []);
   (SYS_CAPGET, Direct "process::sys_capget" [Ptr A1; Ptr A2]);
   (SYS_CAPSET, Direct "process::sys_capset" [Ptr A1; Ptr A2]);
   (SYS_SIGPROCMASK, Direct "process::sys_sigprocmask" [I32 A1; Ptr A2; Ptr A3]);
   (SYS_GETRESGID, Direct "process::sys_getresgid" [Ptr A1; Ptr A2; Ptr A3]);
   (SYS_SETRESGID, Direct "process::sys_setresgid" [U32 A1; U32 A2; U32 A3]);
   (SYS_SECCOMP, Direct "seccomp::sys_seccomp" [U32 A1; U32 A2; Ptr A3]);
   (SYS_MEMFD_CREATE, Direct "shm::sys_memfd_create" [Ptr A1; U32 A2]);
   (SYS_BPF, Direct "crate::ebpf::sys_bpf" [U32 A1; U64 A2; U64 A3; U64 A4]);
   (SYS_SWAPON, Direct "fs::sys_swapon" [Ptr A1; I32 A2]);
   (SYS_SWAPOFF, Direct "fs::sys_swapoff" [Ptr A1]);
   (SYS_GETPGID, Direct "process::sys_getpgid" [U64 A1]);
   (SYS_GETSID, Direct "process::sys_getsid" [U64 A1]);
   (SYS_PRLIMIT64, Direct "process::sys_prlimit64" [U64 A1; U64 A2; Ptr A3; Ptr A4]);
   (SYS_GETITIMER, Direct "process::sys_getitimer" [U64 A1; Ptr A2]);
   (SYS_SETITIMER, Direct "process::sys_setitimer" [U64 A1; Ptr A2; Ptr A3]);
   (SYS_TIMES, Direct "process::sys_times" [Ptr A1]);
   (SYS_GETRUSAGE, Direct "process::sys_getrusage" [U64 A1; Ptr A2]);
   (SYS_TIMERFD_CREATE, Direct "timerfd::sys_timerfd_create" [U64 A1; U64 A2]);
   (SYS_TIMERFD_SETTIME, Direct "timerfd::sys_timerfd_settime" [U64 A1; U64 A2; Ptr A3; Ptr A4]);
   (SYS_TIMERFD_GETTIME, Direct "timerfd::sys_timerfd_gettime" [U64 A1; Ptr A2]);
   (SYS_INOTIFY_INIT, Direct "inotify::sys_inotify_init" [U64 A1]);
   (SYS_INOTIFY_ADD_WATCH, Direct "inotify::sys_inotify_add_watch" [U64 A1; Ptr A2; U32 A3]);
   (SYS_INOTIFY_RM_WATCH, Direct "inotify::sys_inotify_rm_watch" [U64 A1; U32 A2]);
   (SYS_RECVMMSG, Direct "mmsg::sys_recvmmsg" [U64 A1; Ptr A2; U64 A3; U64 A4; Ptr A5])].

Definition table_part_7 : list (Sys * SyscallHandler) :=
  [(SYS_SENDMMSG, Direct "mmsg::sys_sendmmsg" [U64 A1; Ptr A2; U64 A3; U64 A4]);
   (SYS_OBJMGR_ENUM, Direct "misc::sys_objmgr_enum" [Ptr A1; Usize A2]);
   (SYS_OBJMGR_AUDIT, Direct "misc::sys_objmgr_audit" [U64 A1; Ptr A2; Usize A3]);
   (SYS_DRMCTL, Direct "gui::sys_drmctl" [U64 A1; U64 A2; Ptr A3]);
   (SYS_HASH, Direct "misc::sys_hash" [U64 A1; Ptr A2; U64 A3; Ptr A4; U64 A5]);
   (SYS_GETRANDOM, Direct "misc::sys_getrandom" [Ptr A1; Usize A2; U64 A3]);
   (SYS_IO_URING_SETUP, Direct "io_uring::sys_io_uring_setup" [U64 A1; U64 A2]);
   (SYS_IO_URING_ENTER, Direct "io_uring::sys_io_uring_enter" [U64 A1; U32 A2; U32 A3; U32 A4; U64 A5]);
   (SYS_IO_URING_REGISTER, Direct "io_uring::sys_io_uring_register" [U64 A1; U32 A2; U64 A3; U32 A4]);
   (SYS_EPOLL_CREATE1, Direct "epoll::sys_epoll_create1" [I32 A1]);
   (SYS_EPOLL_CTL, Direct "epoll::sys_epoll_ctl" [U64 A1; I32 A2; I32 A3; Ptr A4]);
   (SYS_EPOLL_WAIT, Direct "epoll::sys_epoll_wait" [U64 A1; Ptr A2; I32 A3; I32 A4]);
   (SYS_EPOLL_PWAIT, Direct "epoll::sys_epoll_pwait" [U64 A1; Ptr A2; I32 A3; I32 A4; Ptr A5; Lit 0]);
   (SYS_EPOLL_CREATE, Direct "epoll::sys_epoll_create" [I32 A1]);
   (SYS_EPOLL_CREATE1_NATIVE, Direct "epoll::sys_epoll_create1_native" [I32 A1]);
   (SYS_EPOLL_CTL_NATIVE, Direct "epoll::sys_epoll_ctl_native" [U64 A1; I32 A2; I32 A3; Ptr A4]);
   (SYS_EPOLL_WAIT_NATIVE, Direct "epoll::sys_epoll_wait_native" [U64 A1; Ptr A2; I32 A3; I32 A4]);
   (SYS_READV, Direct "compat::sys_readv" [U64 A1; Ptr A2; I64 A3]);
   (SYS_WRITEV, Direct "compat::sys_writev" [U64 A1; Ptr A2; I64 A3]);
   (SYS_MADVISE, Direct "compat::sys_madvise" [U64 A1; U64 A2; U64 A3])].

Definition table_part_8 : list (Sys * SyscallHandler) :=
  [(SYS_PIPE2, Direct "compat::sys_pipe2" [Ptr A1; I32 A2]);
   (SYS_DUP3, Direct "compat::sys_dup3" [U64 A1; U64 A2; I32 A3]);
   (SYS_PREAD64, Direct "compat::sys_pread64" [U64 A1; Ptr A2; Usize A3; U64 A4]);
   (SYS_PWRITE64, Direct "compat::sys_pwrite64" [U64 A1; Ptr A2; Usize A3; U64 A4]);
   (SYS_LANDLOCK_CREATE_RULESET, Direct "landlock::sys_landlock_create_ruleset" [Ptr A1; Usize A2; U32 A3]);
   (SYS_LANDLOCK_ADD_RULE, Direct "landlock::sys_landlock_add_rule" [U64 A1; U32 A2; Ptr A3; U32 A4]);
   (SYS_LANDLOCK_RESTRICT_SELF, Direct "landlock::sys_landlock_restrict_self" [U64 A1; U32 A2]);
   (SYS_PRCTL, Direct "prctl::sys_prctl" [U64 A1; U64 A2; U64 A3; U64 A4; U64 A5]);
   (SYS_CGROUP_MKDIR, Direct "cgroup::sys_cgroup_mkdir" [Ptr A1]);
   (SYS_CGROUP_WRITE, Direct "cgroup::sys_cgroup_write" [Ptr A1; Ptr A2; Ptr A3]);
   (SYS_CGROUP_READ, Direct "cgroup::sys_cgroup_read" [Ptr A1; Ptr A2; Ptr A3]);
   (SYS_SETNS, Direct "namespaces::sys_setns" [U64 A1; U64 A2]);
   (SYS_MQ_OPEN, Direct "mqueue::mq_open" [Ptr A1; I32 A2; I32 A3; Ptr A4]);
   (SYS_MQ_UNLINK, Direct "mqueue::mq_unlink" [Ptr A1]);
   (SYS_MQ_TIMEDSEND, Direct "mqueue::mq_timedsend" [I32 A1; Ptr A2; Usize A3; U64 A4; Ptr A5]);
   (SYS_MQ_TIMEDRECEIVE, Direct "mqueue::mq_timedreceive" [I32 A1; Ptr A2; Usize A3; Ptr A4; Ptr A5]);
   (SYS_MQ_NOTIFY, Direct "mqueue::mq_notify" [I32 A1; Ptr A2]);
   (SYS_MQ_GETSETATTR, Direct "mqueue::mq_getsetattr" [I32 A1; Ptr A2; Ptr A3]);
   (SYS_SHMGET, Direct "shm::sys_shmget" [I32 A1; Usize A2; I32 A3])].

Definition table_part_9 : list (Sys * SyscallHandler) :=
  [(SYS_SHMAT, Direct "shm::sys_shmat" [I32 A1; Ptr A2; I32 A3]);
   (SYS_SHMCTL, Direct "shm::sys_shmctl" [I32 A1; I32 A2; Ptr A3]);
   (SYS_SHMDT, Direct "shm::sys_shmdt" [Ptr A1]);
   (SYS_GUI_CREATE_WINDOW, Direct "gui::sys_gui_create_window" [Ptr A1; Usize A2; Usize A3]);
   (SYS_GUI_GET_BUFFER, Direct "gui::sys_gui_get_buffer" [U64 A1]);
   (SYS_GUI_FLUSH, Direct "gui::sys_gui_flush" [U64 A1; Ptr A2]);
   (SYS_GUI_MAP_BUFFER, Direct "gui::sys_gui_map_buffer" [U64 A1]);
   (SYS_GUI_GET_KEY, Direct "gui::sys_gui_get_key" [U64 A1]);
   (SYS_GUI_GET_MOUSE, Direct "gui::sys_gui_get_mouse" [U64 A1]);
   (SYS_GUI_SET_TITLE, Direct "gui::sys_gui_set_title" [U64 A1; Ptr A2]);
   (SYS_GUI_DESTROY_WINDOW, Direct "gui::sys_gui_destroy_window" [U64 A1]);
   (SYS_GUI_RESIZE_WINDOW, Direct "gui::sys_gui_resize_window" [U64 A1; U64 A2; U64 A3]);
   (SYS_GUI_MOVE_WINDOW, Direct "gui::sys_gui_move_window" [U64 A1; U64 A2; U64 A3]);
   (SYS_CLIPBOARD, Direct "gui::sys_clipboard" [U64 A1; Ptr A2; U64 A3]);
   (SYS_NOTIFY, Direct "gui::sys_notify" [Ptr A1; U64 A2; U64 A3]);
   (SYS_BEEP, Direct "gui::sys_beep" [U32 A1; U32 A2]);
   (SYS_MKFS, Direct "fs::sys_mkfs" [Ptr A1; U64 A2])].

(** Only with the feature [ash]. *)
Definition table_ash : list (Sys * SyscallHandler) :=
  [(SYS_ASH_REGISTER, Direct "syscalls::sys_ash_register" [Ptr A1; Usize A2; U64 A3]);
   (SYS_ASH_UNREGISTER, Direct "syscalls::sys_ash_unregister" [U64 A1]);
   (SYS_ASH_STATS, Direct "syscalls::sys_ash_stats" [U64 A1; Ptr A2]);
   (SYS_ASH_CONTROL, Direct "syscalls::sys_ash_control" [U64 A1])].

(** Only with the feature [hypervisor]. *)
Definition table_hypervisor : list (Sys * SyscallHandler) :=
  [(SYS_VM_CREATE, Direct "vm::sys_vm_create" [Ptr A1; U64 A2]);
   (SYS_VM_DESTROY, Direct "vm::sys_vm_destroy" [U64 A1]);
   (SYS_VM_START, Direct "vm::sys_vm_start" [U64 A1]);
   (SYS_VM_STOP, Direct "vm::sys_vm_stop" [U64 A1]);
   (SYS_VM_PAUSE, Direct "vm::sys_vm_pause" [U64 A1]);
   (SYS_VM_RESUME, Direct "vm::sys_vm_resume" [U64 A1]);
   (SYS_VM_LOAD_KERNEL, Direct "vm::sys_vm_load_kernel" [U64 A1; Ptr A2]);
   (SYS_VM_GET_INFO, Direct "vm::sys_vm_get_info" [U64 A1; Ptr A2; Usize A3]);
   (SYS_VM_SET_MEMORY, Direct "vm::sys_vm_set_memory" [U64 A1; U64 A2; U64 A3]);
   (SYS_VM_INJECT_IRQ, Direct "vm::sys_vm_inject_irq" [U64 A1; U8 A2])].

(** The arms of [map_linux_to_vahi]. *)
Definition linux_arms : list (Z * Sys) :=
  [(0, SYS_READ); (1, SYS_WRITE); (2, SYS_OPEN); (3, SYS_CLOSE); (4, SYS_STAT); (5, SYS_FSTAT);
   (8, SYS_LSEEK); (9, SYS_MMAP); (10, SYS_MPROTECT); (11, SYS_MUNMAP); (12, SYS_BRK); (16, SYS_IOCTL);
   (21, SYS_ACCESS); (22, SYS_PIPE); (23, SYS_SELECT); (24, SYS_SCHED_YIELD); (32, SYS_DUP); (33, SYS_DUP2);
   (35, SYS_NANOSLEEP); (36, SYS_SYNC); (39, SYS_GETPID); (41, SYS_SOCKET); (42, SYS_CONNECT);
   (43, SYS_ACCEPT); (44, SYS_SENDTO); (45, SYS_RECVFROM); (49, SYS_BIND); (50, SYS_LISTEN);
   (56, SYS_CLONE); (59, SYS_EXECVE); (60, SYS_EXIT); (61, SYS_WAIT4); (62, SYS_KILL); (72, SYS_FCNTL);
   (79, SYS_GETCWD); (80, SYS_CHDIR); (82, SYS_RENAME); (83, SYS_MKDIR); (87, SYS_UNLINK);
   (88, SYS_SYMLINK); (89, SYS_READLINK); (91, SYS_FCHMOD); (93, SYS_FCHOWN); (110, SYS_GETPPID);
   (137, SYS_STATFS); (144, SYS_SCHED_SETATTR); (145, SYS_SCHED_GETATTR); (165, SYS_MOUNT);
   (167, SYS_UMOUNT2); (169, SYS_REBOOT); (200, SYS_RESOLVE); (202, SYS_FUTEX); (203, SYS_SYSINFO);
   (210, SYS_OPENPTY); (217, SYS_GETDENTS64); (218, SYS_SET_TID_ADDRESS); (228, SYS_CLOCK_GETTIME);
   (231, SYS_EXIT_GROUP); (232, SYS_EPOLL_WAIT); (233, SYS_EPOLL_CTL); (257, SYS_OPENAT);
   (262, SYS_FSTATAT); (263, SYS_UNLINKAT); (264, SYS_RENAMEAT); (265, SYS_LINKAT); (266, SYS_SYMLINKAT);
   (267, SYS_READLINKAT); (269, SYS_FACCESSAT); (270, SYS_PPOLL); (271, SYS_PSELECT6); (280, SYS_UTIMENSAT);
   (281, SYS_EPOLL_PWAIT); (282, SYS_SIGNALFD); (285, SYS_FALLOCATE); (288, SYS_ACCEPT4);
   (289, SYS_SIGNALFD4); (290, SYS_EVENTFD2); (291, SYS_EPOLL_CREATE1); (292, SYS_DUP3); (293, SYS_PIPE2);
   (302, SYS_PR_LIMIT64); (318, SYS_GETRANDOM); (319, SYS_MEMFD_CREATE); (17, SYS_PREAD64);
   (18, SYS_PWRITE64); (321, SYS_BPF); (157, SYS_PRCTL); (317, SYS_SECCOMP);
   (444, SYS_LANDLOCK_CREATE_RULESET); (445, SYS_LANDLOCK_ADD_RULE); (446, SYS_LANDLOCK_RESTRICT_SELF);
   (272, SYS_UNSHARE); (308, SYS_SETNS)].

(** ** The dispatcher *)

Record Features := mkFeatures { ash : bool; hypervisor : bool }.

Definition entries (feat : Features) : list (Sys * SyscallHandler) :=
  table_part_1 ++ table_part_2 ++ table_part_3 ++ table_part_4 ++ table_part_5 ++ table_part_6 ++ table_part_7 ++
  table_part_8 ++ table_part_9 ++ (if ash feat then table_ash else []) ++ (if hypervisor feat then table_hypervisor else []).

Definition TABLE_SIZE : nat := 475.

(** [t[num as usize] = Some(handler)]; an index out of range stops the build. *)
Definition register (t : option (list (option SyscallHandler))) (e : Sys * SyscallHandler)
    : option (list (option SyscallHandler)) :=
  t ← t;
  if number e.1 <? Z.of_nat (length t) then Some (<[Z.to_nat (number e.1) := Some e.2]> t) else None.

Definition build_table (feat : Features) : option (list (option SyscallHandler)) :=
  foldl register (Some (replicate TABLE_SIZE None)) (entries feat).

Record SyscallArgs := mkArgs { a_n : Z; a1 : Z; a2 : Z; a3 : Z; a4 : Z; a5 : Z; regs : Z }.

Definition slot (a : SyscallArgs) (s : Slot) : Z :=
  match s with A1 => a1 a | A2 => a2 a | A3 => a3 a | A4 => a4 a | A5 => a5 a | Regs => regs a end.

Definition arg (a : SyscallArgs) (x : Arg) : Z :=
  match x with
  | U64 s | Ptr s | Usize s => slot a s
  | I64 s => i64 (slot a s)
  | I32 s => i32 (slot a s)
  | U32 s => u32 (slot a s)
  | U8 s => u8 (slot a s)
  | Lit v => v
  end.

Record Call := mkCall { c_fn : string; c_args : list Z }.

(** The sixth argument: word 6 of the saved registers, 0 without them. [mm] is
    kernel memory by words. *)
Definition syscall_arg6 (mm : Z -> Z) (p : Z) : Z := if p =? 0 then 0 else mm (p + 8 * 6).

(** The call that a handler makes; [None] when it follows a null pointer. *)
Definition call_of (mm : Z -> Z) (h : SyscallHandler) (a : SyscallArgs) : option Call :=
  match h with
  | Direct f args => Some (mkCall f (arg a <$> args))
  | mmap_entry =>
      if regs a =? 0 then None
      else Some (mkCall "sys_mmap" [a1 a; a2 a; a3 a; a4 a; a5 a; mm (regs a + 8 * 6)])
  | futex_entry =>
      if regs a =? 0 then None
      else Some (mkCall "futex::sys_futex" [a1 a; u32 (a2 a); u32 (a3 a); u32 (a4 a); a5 a; u32 (mm (regs a + 8 * 6))])
  | sendto_entry => Some (mkCall "net::sys_sendto" [a1 a; a2 a; a3 a; a4 a; a5 a; syscall_arg6 mm (regs a)])
  | recvfrom_entry => Some (mkCall "net::sys_recvfrom" [a1 a; a2 a; a3 a; a4 a; a5 a; syscall_arg6 mm (regs a)])
  end.

(** What the dispatcher asks, and how it ends: with a result for the user, or
    not at all (the process was ended, or the kernel panicked). *)
Inductive Prog :=
| Return (r : Z)
| Ended
| AskHook (n b1 b2 b3 : Z) (k : AshResult -> Prog)
| AskFilter (n : Z) (args : list Z) (k : Seccomp.Decision -> Prog)
| Invoke (c : Call) (k : Z -> Prog)
| DeliverSignals (p : Z) (k : Prog).

(** The delivery that ends [do_syscall_body] is modelled in [Signals]. *)
Definition do_syscall_body (feat : Features) (mm : Z -> Z) (a : SyscallArgs) (seccomp_denial : option Z) : Prog :=
  let finish result := DeliverSignals (regs a) (Return result) in
  match seccomp_denial with
  | Some err => finish err
  | None =>
      match build_table feat with
      | None => Ended
      | Some t =>
          if a_n a <? Z.of_nat TABLE_SIZE then
            match t !! Z.to_nat (a_n a) with
            | Some (Some h) => match call_of mm h a with Some c => Invoke c finish | None => Ended end
            | _ => finish (Errno.ret Errno.ENOSYS)
            end
          else finish (Errno.ret Errno.ENOSYS)
      end
  end.

(** [ash_syscall_denied] *)
Definition if_ash_allows (feat : Features) (n b1 b2 b3 : Z) (k : Prog) : Prog :=
  if negb (ash feat) then k
  else AskHook n b1 b2 b3 (fun r => match r with Drop | Handled => Return (Errno.ret Errno.EPERM) | _ => k end).

(** [seccomp::check_syscall]: it may end the process itself. *)
Definition check_syscall (n : Z) (args : list Z) (k : option Z -> Prog) : Prog :=
  AskFilter n args (fun d =>
    match d with
    | Allow => k None
    | Deny ret _ => k (Some ret)
    | Kill | Seccomp.KernelPanic => Ended
    end).

Definition six (mm : Z -> Z) (a : SyscallArgs) : list Z := [a1 a; a2 a; a3 a; a4 a; a5 a; syscall_arg6 mm (regs a)].

Definition do_syscall (feat : Features) (mm : Z -> Z) (a : SyscallArgs) : Prog :=
  if_ash_allows feat (a_n a) (a1 a) (a2 a) (a3 a) (check_syscall (a_n a) (six mm a) (do_syscall_body feat mm a)).

Definition do_syscall_unchecked (feat : Features) (mm : Z -> Z) (a : SyscallArgs) : Prog :=
  if_ash_allows feat (a_n a) (a1 a) (a2 a) (a3 a) (do_syscall_body feat mm a None).

Definition do_syscall_denied (feat : Features) (mm : Z -> Z) (n denial p : Z) : Prog :=
  do_syscall_body feat mm (mkArgs n 0 0 0 0 0 p) (Some denial).

(** ** Linux programs *)

Definition map_linux_to_vahi (linux_n : Z) : Z :=
  match list_find (fun e => linux_n = e.1) linux_arms with Some (_, (_, s)) => number s | None => 36 end.

(** [linux_fork] calls [sys_clone] with SIGCHLD (17); the other special cases are
    functions of [emulation.rs]. *)
Definition dispatch_linux_syscall (feat : Features) (mm : Z -> Z) (a : SyscallArgs) : Prog :=
  let n := a_n a in
  check_syscall n (six mm a) (fun denial =>
    match denial with
    | Some err => do_syscall_denied feat mm n err (regs a)
    | None =>
        if n =? 13 then Invoke (mkCall "linux_rt_sigaction" [a1 a; a2 a; a3 a; a4 a]) Return
        else if n =? 15 then do_syscall_unchecked feat mm (mkArgs (number SYS_RT_SIGRETURN) 0 0 0 0 0 (regs a))
        else if n =? 57 then Invoke (mkCall "process_lifecycle::sys_clone" [17; 0; 0; 0; 0; regs a]) Return
        else if n =? 63 then Invoke (mkCall "linux_uname" [a1 a]) Return
        else if n =? 158 then Invoke (mkCall "linux_arch_prctl" [u32 (a1 a); a2 a]) Return
        else do_syscall_unchecked feat mm (mkArgs (map_linux_to_vahi n) (a1 a) (a2 a) (a3 a) (a4 a) (a5 a) (regs a))
    end).

(** [fill]: at most 64 bytes of a name, in a field of 65. *)
Definition fill (s : Str) : list Z := take 64 s ++ replicate (65 - length (take 64 s)) 0.

Definition linux_uname (buf : Z) (m : UserMem) : Z * UserMem :=
  let uts := fill (str "Linux") ++ fill (str "sarga-os") ++ fill (str "5.15.0-sarga") ++
             fill (str "#1 SARGA OS Compatibility Layer") ++ fill (str "x86_64") ++ replicate 65 0 in
  let '(ok, m) := copy_to_user m buf uts in (if ok then 0 else Errno.neg_ret Errno.EFAULT, m).

(** [fs_base]: that of the current thread, if there is one; the new value is
    also written to the register. *)
Definition linux_arch_prctl (code addr : Z) (fs_base : option Z) (m : UserMem) : Z * option Z * UserMem :=
  if code =? 0x1002 then
    match fs_base with
    | Some _ => (0, Some addr, m)
    | None => (Errno.neg_ret Errno.ESRCH, None, m)
    end
  else if code =? 0x1003 then
    let '(ok, m) := copy_to_user m addr (le_bytes 8 (default 0 fs_base)) in
    (if ok then 0 else Errno.neg_ret Errno.EFAULT, fs_base, m)
  else if code =? 0x1004 then (0, fs_base, m)
  else if code =? 0x1005 then
    let '(ok, m) := copy_to_user m addr (le_bytes 8 0) in
    (if ok then 0 else Errno.neg_ret Errno.EFAULT, fs_base, m)
  else if code =? 0x1001 then (0, fs_base, m)
  else (Errno.neg_ret Errno.EINVAL, fs_base, m).

(** [linux]: the process of CURRENT_PROCESS emulates Linux. *)
Definition syscall_handler (feat : Features) (linux : bool) (mm : Z -> Z) (a : SyscallArgs) : Prog :=
  if linux then dispatch_linux_syscall feat mm a else do_syscall feat mm a.
