(* ===== verification/DispatchSound.v ===== *)
(** * What the dispatcher guarantees

    Theorems on [Dispatch]: the table has exactly the registrations of the
    source, every call is mediated by the seccomp filter, and which handler a
    Linux number reaches. *)

From Stdlib Require Import Ascii String.
From S2P Require Import Prelude Entry UserAccess Lsm Ash Seccomp Dispatch.

(** ** The table *)

Definition handlers_in (es : list (Sys * SyscallHandler)) (t : list (option SyscallHandler)) : Prop :=
  length t = TABLE_SIZE /\
  forall n h, t !! n = Some (Some h) <-> exists s, (s, h) ∈ es /\ number s = Z.of_nat n.

Lemma register_all es :
  NoDup ((number ∘ fst) <$> es) -> Forall (fun e => 0 <= number e.1 < Z.of_nat TABLE_SIZE) es ->
  exists t, foldl register (Some (replicate TABLE_SIZE None)) es = Some t /\ handlers_in es t.
Proof.
  induction es as [|[s h] es IH] using rev_ind; intros Hnd Hr.
  - exists (replicate TABLE_SIZE None). split; [done|]. split; [by rewrite length_replicate|]. intros n h. split.
    + intros [? _]%lookup_replicate. done.
    + intros (s & Hin & _). by apply not_elem_of_nil in Hin.
  - rewrite fmap_app in Hnd. apply NoDup_app in Hnd as (Hnd & Hnew & _). apply Forall_app in Hr as [Hr Hs].
    assert (Hrs : 0 <= number s < Z.of_nat TABLE_SIZE) by (apply Forall_cons in Hs as [Hs _]; exact Hs). clear Hs. destruct (IH Hnd Hr) as (t & Ht & Hl & Hin).
    rewrite foldl_app, Ht. cbn [foldl register mbind option_bind fst snd].
    rewrite (proj2 (Z.ltb_lt (number s) (Z.of_nat (length t)))) by (rewrite Hl; lia). eexists. split; [done|]. split; [by rewrite length_insert|].
    intros n h'. rewrite list_lookup_insert_Some, Hin, Hl. split.
    + intros [(<- & [= <-] & _)|(Hne & s' & Hs' & Hn)].
      * exists s. split; [apply elem_of_app; right; by apply list_elem_of_singleton|lia].
      * exists s'. split; [apply elem_of_app; by left|done].
    + intros (s' & [Hs'|Hs'%list_elem_of_singleton]%elem_of_app & Hn).
      * right. split; [|by exists s']. intros Heq. apply (Hnew (number s')).
        -- apply list_elem_of_fmap. by exists (s', h').
        -- apply list_elem_of_fmap. exists (s, h). split; [cbn; lia|by apply list_elem_of_singleton].
      * injection Hs' as -> ->. left. split_and!; lia || done.
Qed.

Lemma entries_numbers feat :
  NoDup ((number ∘ fst) <$> entries feat) /\ Forall (fun e => 0 <= number e.1 < Z.of_nat TABLE_SIZE) (entries feat).
Proof.
  destruct feat as [[] []]; (split; apply (bool_decide_eq_true_1 _); vm_compute; reflexivity).
Qed.

(** The dispatch table is built, has 475 entries, and holds a handler at a
    number exactly when a line of the source registers that handler under that
    number: no registration is out of range and none overwrites another, with
    any choice of features. *)
Theorem dispatch_table feat :
  exists t, build_table feat = Some t /\ length t = TABLE_SIZE /\
    forall n h, t !! n = Some (Some h) <-> exists s, (s, h) ∈ entries feat /\ number s = Z.of_nat n.
Proof.
  destruct (entries_numbers feat) as [Hnd Hr]. destruct (register_all (entries feat) Hnd Hr) as (t & Ht & Hl & Hin).
  by exists t.
Qed.

(** ** Runs *)

(** A request with its answer. *)
Inductive Event :=
| EHook (n b1 b2 b3 : Z) (r : AshResult)
| EFilter (n : Z) (args : list Z) (d : Seccomp.Decision)
| ECall (c : Call) (r : option Z)
| EDeliver (resumed : bool).

(** The rest of the kernel: any answers, which may depend on what was asked
    before. A handler need not return, nor the delivery of signals. *)
Record Env := mkEnv {
  on_hook : list Event -> AshResult; on_filter : list Event -> Seccomp.Decision;
  on_call : list Event -> option Z; on_deliver : list Event -> bool }.

Fixpoint exec (e : Env) (tr : list Event) (p : Prog) : list Event * option Z :=
  match p with
  | Return r => (tr, Some r)
  | Ended => (tr, None)
  | AskHook n b1 b2 b3 k => let r := on_hook e tr in exec e (tr ++ [EHook n b1 b2 b3 r]) (k r)
  | AskFilter n args k => let d := on_filter e tr in exec e (tr ++ [EFilter n args d]) (k d)
  | Invoke c k =>
      match on_call e tr with
      | Some r => exec e (tr ++ [ECall c (Some r)]) (k r)
      | None => (tr ++ [ECall c None], None)
      end
  | DeliverSignals _ k =>
      let b := on_deliver e tr in if b then exec e (tr ++ [EDeliver b]) k else (tr ++ [EDeliver b], None)
  end.

(** The call that a number reaches through the table. *)
Definition table_call (feat : Features) (mm : Z -> Z) (a : SyscallArgs) : option Call :=
  t ← build_table feat;
  if a_n a <? Z.of_nat TABLE_SIZE then h ← t !! Z.to_nat (a_n a) ≫= id; call_of mm h a else None.

(** The call that a request of a process reaches. *)
Definition target (feat : Features) (linux : bool) (mm : Z -> Z) (a : SyscallArgs) : option Call :=
  if negb linux then table_call feat mm a
  else
    let n := a_n a in
    if n =? 13 then Some (mkCall "linux_rt_sigaction" [a1 a; a2 a; a3 a; a4 a])
    else if n =? 15 then table_call feat mm (mkArgs 15 0 0 0 0 0 (regs a))
    else if n =? 57 then Some (mkCall "process_lifecycle::sys_clone" [17; 0; 0; 0; 0; regs a])
    else if n =? 63 then Some (mkCall "linux_uname" [a1 a])
    else if n =? 158 then Some (mkCall "linux_arch_prctl" [u32 (a1 a); a2 a])
    else table_call feat mm (mkArgs (map_linux_to_vahi n) (a1 a) (a2 a) (a3 a) (a4 a) (a5 a) (regs a)).

(** What the part after the filter appends to a trace: perhaps a hook, then at
    most the target's call, then the delivery. *)
Inductive tail_ok (o : option Call) : list Event -> option Z -> Prop :=
| tail_none : tail_ok o [] None
| tail_call c r : o = Some c -> tail_ok o [ECall c r] r
| tail_end_call c r b : o = Some c -> tail_ok o [ECall c (Some r); EDeliver b] (if b then Some r else None)
| tail_unknown b : o = None -> tail_ok o [EDeliver b] (if b then Some (Errno.ret Errno.ENOSYS) else None)
| tail_hooked n b1 b2 b3 h tr r : tail_ok o tr r -> tail_ok o (EHook n b1 b2 b3 h :: tr) r
| tail_refused n b1 b2 b3 h : h = Drop \/ h = Handled -> tail_ok o [EHook n b1 b2 b3 h] (Some (Errno.ret Errno.EPERM)).

Lemma body_denied e tr feat mm a err :
  let b := on_deliver e tr in
  exec e tr (do_syscall_body feat mm a (Some err)) = (tr ++ [EDeliver b], if b then Some err else None).
Proof. cbn. by destruct (on_deliver e tr). Qed.

Lemma body_tail e tr feat mm a :
  exists tl r, exec e tr (do_syscall_body feat mm a None) = (tr ++ tl, r) /\ tail_ok (table_call feat mm a) tl r.
Proof.
  unfold do_syscall_body, table_call. destruct (build_table feat) as [t|]; cbn [mbind option_bind].
  2: { exists [], None. split; [by rewrite app_nil_r|constructor]. }
  assert (Hun : forall o, o = None -> exists tl r,
    exec e tr (DeliverSignals (regs a) (Return (Errno.ret Errno.ENOSYS))) = (tr ++ tl, r) /\ tail_ok o tl r).
  { intros o ->. exists [EDeliver (on_deliver e tr)], (if on_deliver e tr then Some (Errno.ret Errno.ENOSYS) else None).
    split; [|by apply tail_unknown]. cbn. by destruct (on_deliver e tr). }
  destruct (a_n a <? Z.of_nat TABLE_SIZE); [|by apply Hun].
  destruct (t !! Z.to_nat (a_n a)) as [[h|]|]; cbn [mbind option_bind id]; [|by apply Hun..].
  destruct (call_of mm h a) as [c|] eqn:Hc.
  2: { exists [], None. split; [by rewrite app_nil_r|constructor]. }
  cbn [exec]. destruct (on_call e tr) as [r|].
  2: { exists [ECall c None], None. split; [done|]. by apply tail_call. }
  destruct (on_deliver e (tr ++ [ECall c (Some r)])) eqn:Hd.
  - exists [ECall c (Some r); EDeliver true], (Some r). cbn [exec]. rewrite <- app_assoc. split; [done|].
    by apply (tail_end_call _ c r true).
  - exists [ECall c (Some r); EDeliver false], None. rewrite <- app_assoc. split; [done|].
    by apply (tail_end_call _ c r false).
Qed.

Lemma unchecked_tail e tr feat mm a :
  exists tl r, exec e tr (do_syscall_unchecked feat mm a) = (tr ++ tl, r) /\ tail_ok (table_call feat mm a) tl r.
Proof.
  unfold do_syscall_unchecked, if_ash_allows. destruct (ash feat); cbn [negb]; [|apply body_tail].
  assert (Hpass : forall h, exists tl r,
    exec e (tr ++ [EHook (a_n a) (a1 a) (a2 a) (a3 a) h]) (do_syscall_body feat mm a None) = (tr ++ tl, r) /\
    tail_ok (table_call feat mm a) tl r).
  { intros h. destruct (body_tail e (tr ++ [EHook (a_n a) (a1 a) (a2 a) (a3 a) h]) feat mm a) as (tl & r & Hx & Ht).
    exists (EHook (a_n a) (a1 a) (a2 a) (a3 a) h :: tl), r. rewrite Hx, <- app_assoc. split; [done|by apply tail_hooked]. }
  cbn [exec]. destruct (on_hook e tr); cbn [exec]; try apply Hpass.
  all: eexists [_], _; split; [done|apply tail_refused; by auto].
Qed.

Lemma special_tail e tr c : exists tl r, exec e tr (Invoke c Return) = (tr ++ tl, r) /\ tail_ok (Some c) tl r.
Proof.
  cbn [exec]. destruct (on_call e tr) as [r|].
  - exists [ECall c (Some r)], (Some r). split; [done|]. by apply tail_call.
  - exists [ECall c None], None. split; [done|]. by apply tail_call.
Qed.

(** The part of [dispatch_linux_syscall] after the filter has allowed a call. *)
Lemma linux_tail e tr feat mm a :
  exists tl r,
    exec e tr (if a_n a =? 13 then Invoke (mkCall "linux_rt_sigaction" [a1 a; a2 a; a3 a; a4 a]) Return
        else if a_n a =? 15 then do_syscall_unchecked feat mm (mkArgs (number SYS_RT_SIGRETURN) 0 0 0 0 0 (regs a))
        else if a_n a =? 57 then Invoke (mkCall "process_lifecycle::sys_clone" [17; 0; 0; 0; 0; regs a]) Return
        else if a_n a =? 63 then Invoke (mkCall "linux_uname" [a1 a]) Return
        else if a_n a =? 158 then Invoke (mkCall "linux_arch_prctl" [u32 (a1 a); a2 a]) Return
        else do_syscall_unchecked feat mm (mkArgs (map_linux_to_vahi (a_n a)) (a1 a) (a2 a) (a3 a) (a4 a) (a5 a) (regs a)))
      = (tr ++ tl, r) /\ tail_ok (target feat true mm a) tl r.
Proof.
  unfold target. cbn [negb].
  destruct (a_n a =? 13); [apply special_tail|]. destruct (a_n a =? 15); [apply unchecked_tail|].
  destruct (a_n a =? 57); [apply special_tail|]. destruct (a_n a =? 63); [apply special_tail|].
  destruct (a_n a =? 158); [apply special_tail|]. apply unchecked_tail.
Qed.

(** What follows the answer [d] of the filter. *)
Definition after_filter (o : option Call) (d : Seccomp.Decision) (post : list Event) (r : option Z) : Prop :=
  match d with
  | Allow => tail_ok o post r
  | Deny ret _ => exists b : bool, post = [EDeliver b] /\ r = if b then Some ret else None
  | Kill | Seccomp.KernelPanic => post = [] /\ r = None
  end.

Lemma filtered e pre o n args k :
  (forall tr, exists tl r, exec e tr (k None) = (tr ++ tl, r) /\ tail_ok o tl r) ->
  (forall tr ret, exists b : bool, exec e tr (k (Some ret)) = (tr ++ [EDeliver b], if b then Some ret else None)) ->
  exists d post r, exec e pre (check_syscall n args k) = (pre ++ EFilter n args d :: post, r) /\ after_filter o d post r.
Proof.
  intros Hn Hs. cbn [exec check_syscall]. exists (on_filter e pre).
  specialize (Hn (pre ++ [EFilter n args (on_filter e pre)])). specialize (Hs (pre ++ [EFilter n args (on_filter e pre)])).
  destruct (on_filter e pre) as [|ret sg| |]; cbn [after_filter].
  - destruct Hn as (tl & r & Hx & Ht). exists tl, r. by rewrite Hx, <- app_assoc.
  - destruct (Hs ret) as (b & Hx). exists [EDeliver b], (if b then Some ret else None). rewrite Hx, <- app_assoc. eauto.
  - by exists [], None.
  - by exists [], None.
Qed.

(** C11. Whatever the rest of the kernel answers, a request is handled in one of
    these ways: the ASH hook refuses it first (native programs only), with
    EPERM; or the seccomp filter is asked exactly once, about the number and
    the six arguments as the process issued them, also for a Linux program
    whose number is then translated. A denial gives the value of the filter and
    calls no handler; a kill calls none either; and only when the filter allows
    the request is a handler called, the one of the table or of the Linux
    special case, at most once, and the result is its result, or ENOSYS when
    there is none, or EPERM of a hook. *)
Theorem syscall_mediated e feat linux mm a :
  let '(tr, r) := exec e [] (syscall_handler feat linux mm a) in
  (exists h, linux = false /\ ash feat = true /\ (h = Drop \/ h = Handled) /\
     tr = [EHook (a_n a) (a1 a) (a2 a) (a3 a) h] /\ r = Some (Errno.ret Errno.EPERM)) \/
  exists pre d post, tr = pre ++ EFilter (a_n a) (six mm a) d :: post /\
    (pre = [] \/ linux = false /\ exists h, pre = [EHook (a_n a) (a1 a) (a2 a) (a3 a) h]) /\
    after_filter (target feat linux mm a) d post r.
Proof.
  destruct linux; cbn [syscall_handler].
  - destruct (filtered e [] (target feat true mm a) (a_n a) (six mm a) (fun denial =>
      match denial with Some err => do_syscall_denied feat mm (a_n a) err (regs a) | None => _ end)
      (fun tr => linux_tail e tr feat mm a)) as (d & post & r & Hx & Hd).
    + intros tr ret. exists (on_deliver e tr). apply body_denied.
    + unfold dispatch_linux_syscall. cbv zeta. rewrite Hx. right. exists [], d, post. auto.
  - assert (Hd : forall pre, exists d post r,
      exec e pre (check_syscall (a_n a) (six mm a) (do_syscall_body feat mm a)) = (pre ++ EFilter (a_n a) (six mm a) d :: post, r) /\
      after_filter (target feat false mm a) d post r).
    { intros pre. apply filtered; [intros tr; apply body_tail|]. intros tr ret. exists (on_deliver e tr). apply body_denied. }
    unfold do_syscall, if_ash_allows. destruct (ash feat); cbn [negb].
    2: { destruct (Hd []) as (d & post & r & -> & Ha). right. exists [], d, post. auto. }
    cbn [exec]. destruct (on_hook e []) as [| | | |err]; cbn [exec app].
    all: try (left; eexists; split_and!; [done|done| |done|done]; by auto).
    all: match goal with |- context [EHook ?n ?b1 ?b2 ?b3 ?h] =>
           destruct (Hd [EHook n b1 b2 b3 h]) as (d & post & r & -> & Ha); right; exists [EHook n b1 b2 b3 h], d, post end.
    all: split_and!; [done| |done]; right; eauto.
Qed.

(** With the frame that the entry stub saves for a user, the six arguments that
    the filter sees are the user's RDI, RSI, RDX, R10, R8 and R9. *)
Lemma filter_sees_registers m mm p :
  Entry.frame mm p = Entry.user_frame m -> p <> 0 ->
  six mm (mkArgs (reg m RAX) (reg m RDI) (reg m RSI) (reg m RDX) (reg m R10) (reg m R8) p) =
    reg m <$> [RDI; RSI; RDX; R10; R8; R9].
Proof.
  intros Hf Hp. unfold six, syscall_arg6. cbn [a1 a2 a3 a4 a5 regs]. rewrite (proj2 (Z.eqb_neq p 0)) by done.
  pose proof (Entry.words_lookup mm p 18 6 ltac:(lia)) as Hl. unfold Entry.frame in Hf. rewrite Hf in Hl.
  injection Hl as Hl. cbn [fmap list_fmap]. rewrite Hl. reflexivity.
Qed.

(** ** Linux numbers *)

(** The names of the x86-64 Linux system calls whose numbers the table of
    [emulation.rs] has an arm for, as the Linux ABI assigns them. *)
Definition linux_abi : list (Z * string) :=
  ([(0, "read"); (1, "write"); (2, "open"); (3, "close"); (4, "stat"); (5, "fstat"); (8, "lseek"); (9, "mmap");
   (10, "mprotect"); (11, "munmap"); (12, "brk"); (16, "ioctl"); (17, "pread64"); (18, "pwrite64"); (21, "access");
   (22, "pipe"); (23, "select"); (24, "sched_yield"); (32, "dup"); (33, "dup2"); (35, "nanosleep"); (36, "getitimer");
   (39, "getpid"); (41, "socket"); (42, "connect"); (43, "accept"); (44, "sendto"); (45, "recvfrom"); (49, "bind");
   (50, "listen"); (56, "clone"); (59, "execve"); (60, "exit"); (61, "wait4"); (62, "kill"); (72, "fcntl");
   (79, "getcwd"); (80, "chdir"); (82, "rename"); (83, "mkdir"); (87, "unlink"); (88, "symlink"); (89, "readlink");
   (91, "fchmod"); (93, "fchown"); (110, "getppid"); (137, "statfs"); (144, "sched_setscheduler");
   (145, "sched_getscheduler"); (157, "prctl"); (165, "mount"); (167, "swapon"); (169, "reboot"); (200, "tkill");
   (202, "futex"); (203, "sched_setaffinity"); (210, "io_cancel"); (217, "getdents64"); (218, "set_tid_address");
   (228, "clock_gettime"); (231, "exit_group"); (232, "epoll_wait"); (233, "epoll_ctl"); (257, "openat");
   (262, "newfstatat"); (263, "unlinkat"); (264, "renameat"); (265, "linkat"); (266, "symlinkat"); (267, "readlinkat");
   (269, "faccessat"); (270, "pselect6"); (271, "ppoll"); (272, "unshare"); (280, "utimensat"); (281, "epoll_pwait");
   (282, "signalfd"); (285, "fallocate"); (288, "accept4"); (289, "signalfd4"); (290, "eventfd2");
   (291, "epoll_create1"); (292, "dup3"); (293, "pipe2"); (302, "prlimit64"); (308, "setns"); (317, "seccomp");
   (318, "getrandom"); (319, "memfd_create"); (321, "bpf"); (444, "landlock_create_ruleset");
   (445, "landlock_add_rule"); (446, "landlock_restrict_self")])%string.

(** The numbers whose arm leads elsewhere: getitimer to sync, the two scheduler
    calls to their [attr] variants, swapon to umount2, tkill to resolve,
    sched_setaffinity to sysinfo, io_cancel to openpty, and pselect6, ppoll and
    prlimit64 to numbers that nothing is registered under. *)
Definition misdirected : list Z := [36; 144; 145; 167; 200; 203; 210; 270; 271; 302].

(** The last component of a path. *)
Fixpoint base_name (acc s : string) : string :=
  match s with
  | EmptyString => acc
  | String c s' => if Ascii.eqb c ":"%char then base_name EmptyString s' else base_name (String.append acc (String c EmptyString)) s'
  end.

Definition fn_of (h : SyscallHandler) : string :=
  match h with
  | Direct f _ => base_name EmptyString f
  | mmap_entry => "sys_mmap"%string
  | futex_entry => "sys_futex"%string
  | sendto_entry => "sys_sendto"%string
  | recvfrom_entry => "sys_recvfrom"%string
  end.

Definition expected_fn (name : string) : string :=
  if String.eqb name "newfstatat" then "sys_fstatat"%string else String.append "sys_" name.

Definition agrees (t : list (option SyscallHandler)) (e : Z * string) : bool :=
  match t !! Z.to_nat (map_linux_to_vahi e.1) with
  | Some (Some h) => String.eqb (fn_of h) (expected_fn e.2)
  | _ => false
  end.

Lemma agreement feat :
  match build_table feat with
  | Some t =>
      forallb (fun e => Bool.eqb (agrees t e) (negb (bool_decide (e.1 ∈ misdirected)))) linux_abi
      && (match t !! 36%nat with Some (Some (Direct f [])) => String.eqb f "fs::sys_sync" | _ => false end)
  | None => false
  end = true.
Proof. destruct feat as [[] []]; vm_compute; reflexivity. Qed.

Lemma call_fn mm h a : regs a <> 0 -> exists c, call_of mm h a = Some c /\ base_name EmptyString (c_fn c) = fn_of h.
Proof.
  intros Hr. apply Z.eqb_neq in Hr. destruct h; cbn [call_of]; rewrite ?Hr; eexists; (split; [done|]); reflexivity.
Qed.

Lemma map_linux_range n : 0 <= map_linux_to_vahi n < Z.of_nat TABLE_SIZE.
Proof.
  unfold map_linux_to_vahi. destruct (list_find _ linux_arms) as [[i [k s]]|] eqn:Hf; [|vm_compute; done].
  destruct s; vm_compute; done.
Qed.

Lemma table_call_at feat mm a t : build_table feat = Some t -> 0 <= a_n a < Z.of_nat TABLE_SIZE ->
  table_call feat mm a = (h ← t !! Z.to_nat (a_n a) ≫= id; call_of mm h a).
Proof. intros Ht Hn. unfold table_call. rewrite Ht. cbn [mbind option_bind]. by rewrite (proj2 (Z.ltb_lt (a_n a) _)) by lia. Qed.

Definition special : list Z := [13; 15; 57; 63; 158].

Lemma target_linux feat mm a : a_n a ∉ special ->
  target feat true mm a =
    table_call feat mm (mkArgs (map_linux_to_vahi (a_n a)) (a1 a) (a2 a) (a3 a) (a4 a) (a5 a) (regs a)).
Proof.
  intros Hs. unfold special in Hs. rewrite !not_elem_of_cons in Hs. destruct Hs as (H1 & H2 & H3 & H4 & H5 & _).
  unfold target. cbn [negb]. by rewrite !(proj2 (Z.eqb_neq (a_n a) _)) by done.
Qed.

(** A Linux program that makes one of the system calls of the table of
    [emulation.rs] reaches the handler of that name, for every number but ten
    (listed above), which reach another handler or none. A number that is not
    in that table, nor one of the five special cases, reaches [sys_sync]. *)
Theorem linux_numbers feat mm a :
  (forall name, (a_n a, name) ∈ linux_abi -> regs a <> 0 ->
    (a_n a ∉ misdirected <-> exists c, target feat true mm a = Some c /\ base_name EmptyString (c_fn c) = expected_fn name)) /\
  (a_n a ∉ special -> Forall (fun e => a_n a <> e.1) linux_arms -> target feat true mm a = Some (mkCall "fs::sys_sync" [])).
Proof.
  pose proof (agreement feat) as Hag. destruct (build_table feat) as [t|] eqn:Ht; [|done].
  apply andb_prop in Hag as [Hall Hsync]. split.
  - intros name Hin Hr.
    assert (Hns : a_n a ∉ special).
    { assert (Hd : Forall (fun e => e.1 ∉ special) linux_abi) by (apply (bool_decide_eq_true_1 _); vm_compute; reflexivity).
      rewrite Forall_forall in Hd. exact (Hd _ Hin). }
    rewrite target_linux by done.
    rewrite (table_call_at feat mm _ t Ht) by apply map_linux_range. cbn [a_n].
    rewrite forallb_forall in Hall. specialize (Hall _ (proj1 (list_elem_of_In _ _) Hin)). cbn [fst] in Hall.
    apply eqb_prop in Hall. unfold agrees in Hall. cbn [fst snd] in Hall.
    destruct (t !! Z.to_nat (map_linux_to_vahi (a_n a))) as [[h|]|]; cbn [mbind option_bind id].
    2, 3: (split; [intros Hm|by intros (c & ? & _)]; rewrite bool_decide_eq_false_2 in Hall by done; discriminate Hall).
    destruct (call_fn mm h (mkArgs (map_linux_to_vahi (a_n a)) (a1 a) (a2 a) (a3 a) (a4 a) (a5 a) (regs a)) Hr) as (c & Hc & Hfn).
    rewrite Hc. split.
    + intros Hm. rewrite bool_decide_eq_false_2 in Hall by done. apply String.eqb_eq in Hall. exists c. by rewrite Hfn.
    + intros (c' & [= <-] & Heq) Hm. rewrite bool_decide_eq_true_2 in Hall by done. rewrite <- Hfn, Heq, String.eqb_refl in Hall.
      discriminate Hall.
  - intros Hns Hno. rewrite target_linux by done. rewrite (table_call_at feat mm _ t Ht) by apply map_linux_range.
    cbn [a_n]. unfold map_linux_to_vahi. rewrite (proj2 (list_find_None _ _)) by (eapply Forall_impl; [exact Hno|]; done).
    change (Z.to_nat 36) with 36%nat. destruct (t !! 36%nat) as [[[f [|]| | | |]|]|]; try discriminate Hsync.
    apply String.eqb_eq in Hsync as ->. reflexivity.
Qed.

(** Linux's setuid (105) flushes the disks and answers 0. *)
Lemma linux_numbers_witness :
  target (mkFeatures false false) true (fun _ => 0) (mkArgs 105 1000 0 0 0 0 4096) = Some (mkCall "fs::sys_sync" []) /\
  exists c, target (mkFeatures false false) true (fun _ => 0) (mkArgs 39 0 0 0 0 0 4096) = Some c /\
    base_name EmptyString (c_fn c) = "sys_getpid"%string.
Proof.
  split.
  - apply (linux_numbers (mkFeatures false false) (fun _ => 0) (mkArgs 105 1000 0 0 0 0 4096)).
    + vm_compute. intros H. repeat (apply elem_of_cons in H as [H|H]; [discriminate H|]). by apply elem_of_nil in H.
    + apply (bool_decide_eq_true_1 _). vm_compute. reflexivity.
  - destruct (linux_numbers (mkFeatures false false) (fun _ => 0) (mkArgs 39 0 0 0 0 0 4096)) as [H _].
    apply (H "getpid"%string).
    + apply (bool_decide_eq_true_1 _). vm_compute. reflexivity.
    + done.
    + apply (bool_decide_eq_true_1 _). vm_compute. reflexivity.
Defined.

(** An error of the Linux layer is a positive number: a program that passes a
    bad buffer to uname sees 14, not -14. *)
Example linux_error_is_positive : (linux_uname 0 ∅).1 = 14.
Proof. vm_compute. reflexivity. Qed.
