(* ===== verification/SkyDisk.v ===== *)
(** * Block devices and the SkyFS journal

    Model of [SkyFS::read_block] and [write_block] over the [BlockDevice] trait
    of [crates/drivers/src/block/mod.rs], of [crates/vfs/src/skyfs/journal.rs],
    and of the checker of [crates/verified/src/journal.rs] that runs beside it.
    A device is the contents of its sectors, together with the sectors on which
    a read or a write fails; a device may refuse any. An operation that fails
    keeps what it wrote before. *)

From stdpp Require Import functions.
From S2P Require Import Prelude.

(** ** Effects *)

(** [Undefined]: memory outside an object was read. *)
Inductive Res (A : Type) := Ok (a : A) | Err | Panics | Undefined.
Arguments Ok {A} a.
Arguments Err {A}.
Arguments Panics {A}.
Arguments Undefined {A}.

Definition Io (S A : Type) : Type := S -> Res A * S.

Definition ret {S A} (a : A) : Io S A := fun s => (Ok a, s).
Definition fail {S A} : Io S A := fun s => (Err, s).
Definition panic {S A} : Io S A := fun s => (Panics, s).
Definition undefined {S A} : Io S A := fun s => (Undefined, s).
Definition gets {S A} (f : S -> A) : Io S A := fun s => (Ok (f s), s).
Definition modify {S} (f : S -> S) : Io S unit := fun s => (Ok tt, f s).

#[global] Instance Io_bind S : MBind (Io S) := fun A B f m s =>
  match m s with
  | (Ok a, s) => f a s
  | (Err, s) => (Err, s)
  | (Panics, s) => (Panics, s)
  | (Undefined, s) => (Undefined, s)
  end.

Lemma run_bind {S A B} (m : Io S A) (f : A -> Io S B) s :
  (x ← m; f x) s =
    match m s with (Ok a, s) => f a s | (Err, s) => (Err, s) | (Panics, s) => (Panics, s) | (Undefined, s) => (Undefined, s) end.
Proof. reflexivity. Qed.

(** [let _ = m]: an error is ignored. *)
Definition ignore {S A} (m : Io S A) : Io S unit := fun s =>
  match m s with
  | (Ok _, s) | (Err, s) => (Ok tt, s)
  | (Panics, s) => (Panics, s)
  | (Undefined, s) => (Undefined, s)
  end.

(** [for _ in 0..p { acc = body(acc)? }], which leaves the loop with the first
    [inr]. The recursion is on the binary number so that a loop with a large
    bound can be run when it ends early. *)
Fixpoint repeat_pos {S A B} (body : A -> Io S (A + B)) (p : positive) (a : A) : Io S (A + B) :=
  match p with
  | xH => body a
  | xO p => r ← repeat_pos body p a; match r with inl a => repeat_pos body p a | inr b => ret (inr b) end
  | xI p =>
      r ← body a;
      match r with
      | inl a => r ← repeat_pos body p a; match r with inl a => repeat_pos body p a | inr b => ret (inr b) end
      | inr b => ret (inr b)
      end
  end.

Definition repeat_z {S A B} (body : A -> Io S (A + B)) (n : Z) (a : A) : Io S (A + B) :=
  match n with Zpos p => repeat_pos body p a | _ => ret (inl a) end.

(** ** Devices *)

Definition BLOCK_SIZE : nat := 4096.
Definition SECTOR_SIZE : nat := 512.
Definition SECTORS_PER_BLOCK : Z := 8.

Record Disk := mkDisk {
  sector : Z -> list Z; sector_count : option Z; read_fails : Z -> bool; write_fails : Z -> bool }.

Definition read_sector (i : Z) : Io Disk (list Z) := fun d => if read_fails d i then (Err, d) else (Ok (sector d i), d).
Definition write_sector (i : Z) (b : list Z) : Io Disk unit := fun d =>
  if write_fails d i then (Err, d)
  else (Ok tt, mkDisk (<[i := b]> (sector d)) (sector_count d) (read_fails d) (write_fails d)).

Fixpoint read_sectors (i : Z) (n : nat) : Io Disk (list Z) :=
  match n with
  | O => ret []
  | S n => b ← read_sector (u64 i); bs ← read_sectors (i + 1) n; ret (b ++ bs)
  end.

Fixpoint write_sectors (i : Z) (n : nat) (buf : list Z) : Io Disk unit :=
  match n with
  | O => ret tt
  | S n => _ ← write_sector (u64 i) (take SECTOR_SIZE buf); write_sectors (i + 1) n (drop SECTOR_SIZE buf)
  end.

Definition block_to_sector (block : Z) : Z := u64 (block * SECTORS_PER_BLOCK).
Definition read_block (block : Z) : Io Disk (list Z) := read_sectors (block_to_sector block) 8.
Definition write_block (block : Z) (buf : list Z) : Io Disk unit :=
  if (length buf <? BLOCK_SIZE)%nat then fail else write_sectors (block_to_sector block) 8 buf.

(** ** The journal *)

Definition JOURNAL_MAGIC : Z := 0x4A4F55524E414C5F.
Definition STATE_EMPTY : Z := 0.
Definition STATE_ACTIVE : Z := 1.
Definition STATE_COMMITTED : Z := 2.
Definition STATE_REPLAYED : Z := 3.

(** The packed [JournalHeader]: the offsets of its fields in a block, and its
    size. *)
Definition HEADER_SIZE : nat := 8 + 8 + 4 + 4 + 4 + 1 + 4055.
Definition TARGET_SIZE : nat := 8 + 4 + 4.

Definition header_bytes (magic sequence num_blocks num_targets checksum state : Z) : list Z :=
  le_bytes 8 magic ++ le_bytes 8 sequence ++ le_bytes 4 num_blocks ++ le_bytes 4 num_targets ++
  le_bytes 4 checksum ++ [u8 state] ++ replicate 4055 0.

Definition h_magic (b : list Z) : Z := le_value (slice 0 8 b).
Definition h_num_blocks (b : list Z) : Z := le_value (slice 16 4 b).
Definition h_num_targets (b : list Z) : Z := le_value (slice 20 4 b).
Definition h_checksum (b : list Z) : Z := le_value (slice 24 4 b).
Definition h_state (b : list Z) : Z := le_value (slice 28 1 b).
Definition set_num_blocks (x : Z) (b : list Z) : list Z := splice 16 (le_bytes 4 x) b.
Definition set_num_targets (x : Z) (b : list Z) : list Z := splice 20 (le_bytes 4 x) b.
Definition set_checksum (x : Z) (b : list Z) : list Z := splice 24 (le_bytes 4 x) b.
Definition set_state (x : Z) (b : list Z) : list Z := splice 28 [x] b.

Definition target_bytes (target_block journal_offset : Z) : list Z :=
  le_bytes 8 target_block ++ le_bytes 4 journal_offset ++ le_bytes 4 0.

(** [buf[..src.len()].copy_from_slice(src)] on a zeroed block. *)
Definition in_block (src : list Z) : list Z := splice 0 src (replicate BLOCK_SIZE 0).

Record Journal := mkJournal { start_block : Z; num_blocks : Z; sequence : Z; next_free : Z }.

Definition fnv1a_checksum (data : list Z) : Z :=
  foldl (fun hash b => u32 (Z.lxor hash b * 0x01000193)) 0x811c9dc5 data.

Module Journal.

Definition new (start_block num_blocks : Z) : Journal := mkJournal start_block num_blocks 1 1.

(** The operations take the device and the journal. *)
Definition on_disk {A} (m : Io Disk A) : Io (Disk * Journal) A := fun s => let '(r, d) := m s.1 in (r, (d, s.2)).
Definition journal : Io (Disk * Journal) Journal := gets snd.
Definition set_next_free (n : Z) : Io (Disk * Journal) unit :=
  modify (fun s => (s.1, mkJournal (start_block s.2) (num_blocks s.2) (sequence s.2) n)).
Definition set_sequence (n : Z) : Io (Disk * Journal) unit :=
  modify (fun s => (s.1, mkJournal (start_block s.2) (num_blocks s.2) n (next_free s.2))).

Definition zero_block (start_block i : Z) : Io Disk (Z + unit) :=
  _ ← write_block (u64 (start_block + i)) (replicate BLOCK_SIZE 0); ret (inl (i + 1)).

Definition init_device (start_block num_blocks : Z) : Io Disk unit :=
  _ ← write_block start_block (in_block (header_bytes JOURNAL_MAGIC 0 (u32 num_blocks) 0 0 STATE_EMPTY));
  _ ← repeat_z (zero_block start_block) (num_blocks - 1) 1;
  ret tt.

Definition is_full (j : Journal) : bool := num_blocks j <=? u64 (next_free j + 1).

Definition begin_transaction : Io (Disk * Journal) Z :=
  j ← journal;
  _ ← (if is_full j then set_next_free 1 else ret tt);
  _ ← set_sequence (u64 (sequence j + 1));
  j ← journal;
  let block := u64 (start_block j + next_free j) in
  _ ← on_disk (write_block block (in_block (header_bytes JOURNAL_MAGIC (sequence j) 1 0 0 STATE_ACTIVE)));
  _ ← set_next_free (u64 (next_free j + 1));
  ret block.

(** Where the next target goes in the header block, if it fits there. *)
Definition add_target (target_block journal_offset : Z) (hdr : list Z) : list Z :=
  let entry_offset := Z.of_nat HEADER_SIZE + h_num_targets hdr * Z.of_nat TARGET_SIZE in
  if entry_offset + Z.of_nat TARGET_SIZE <=? Z.of_nat BLOCK_SIZE
  then splice (Z.to_nat entry_offset) (target_bytes target_block journal_offset) hdr else hdr.

Definition journal_data (header_block target_block : Z) (data : list Z) : Io (Disk * Journal) Z :=
  j ← journal;
  if num_blocks j <=? next_free j then fail
  else
    let jblock := u64 (start_block j + next_free j) in
    _ ← on_disk (write_block jblock (in_block (take BLOCK_SIZE data)));
    hdr ← on_disk (read_block header_block);
    let hdr := add_target target_block (u32 (next_free j - header_block)) hdr in
    let hdr := set_num_targets (u32 (h_num_targets hdr + 1)) hdr in
    let hdr := set_num_blocks (u32 (h_num_blocks hdr + 1)) hdr in
    _ ← on_disk (write_block header_block hdr);
    _ ← set_next_free (u64 (next_free j + 1));
    ret jblock.

Definition commit_transaction (header_block : Z) : Io (Disk * Journal) unit :=
  buf ← on_disk (read_block header_block);
  let buf := set_state STATE_COMMITTED buf in
  on_disk (write_block header_block (set_checksum (fnv1a_checksum buf) buf)).

(** The replay of the target [t] of the header [buf] in [block]; [inr] leaves
    the loop. *)
Definition replay_target (block : Z) (buf : list Z) (a : Z * Z) : Io Disk (Z * Z + Z) :=
  let '(t, replayed) := a in
  let entry_offset := Z.of_nat HEADER_SIZE + t * Z.of_nat TARGET_SIZE in
  if Z.of_nat BLOCK_SIZE <? entry_offset + Z.of_nat TARGET_SIZE then ret (inr replayed)
  else
    let e := slice (Z.to_nat entry_offset) TARGET_SIZE buf in
    let target_block := le_value (slice 0 8 e) in
    if target_block =? 0 then ret (inl (t + 1, replayed))
    else
      data ← read_block (u64 (block + le_value (slice 8 4 e)));
      _ ← write_block target_block data;
      ret (inl (t + 1, u32 (replayed + 1))).

Definition replay_block (start_block : Z) (a : Z * Z) : Io Disk (Z * Z + unit) :=
  let '(i, replayed) := a in
  let block := u64 (start_block + i) in
  buf ← read_block block;
  if negb (h_magic buf =? JOURNAL_MAGIC) || negb (h_state buf =? STATE_COMMITTED) then ret (inl (i + 1, replayed))
  else if negb (h_checksum buf =? 0) && negb (h_checksum buf =? fnv1a_checksum buf) then ret (inl (i + 1, replayed))
  else
    r ← repeat_z (replay_target block buf) (h_num_targets buf) (0, replayed);
    _ ← write_block block (set_state STATE_REPLAYED buf);
    ret (inl (i + 1, match r with inl (_, replayed) | inr replayed => replayed end)).

Definition recover_from_dev : Io (Disk * Journal) Z :=
  j ← journal;
  r ← on_disk (repeat_z (replay_block (start_block j)) (num_blocks j) (0, 0));
  _ ← set_sequence 0;
  _ ← set_next_free 1;
  ret (match r with inl (_, replayed) => replayed | inr _ => 0 end).

Record JournalStats := mkStats { s_sequence : Z; s_next_free : Z; s_num_blocks : Z; used_pct : Z }.

Definition stats (j : Journal) : JournalStats :=
  mkStats (sequence j) (next_free j) (num_blocks j)
    (if 0 <? num_blocks j then u32 (u64 (next_free j * 100) / num_blocks j) else 0).

End Journal.

(** ** The checker beside the journal *)

Module Verified.

Inductive JournalState := Idle | Collecting | Committing | Recovering.
Inductive JournalEvent := BeginTxn | CommitTxn | RollbackTxn | TxnPersisted | Crash | RecoveryComplete.

#[global] Instance JournalState_eq_dec : EqDecision JournalState.
Proof. solve_decision. Defined.

(** The violations that these functions report. *)
Inductive JournalViolation :=
| InvalidTransition (from : JournalState) (event : JournalEvent) (to : JournalState)
| CommitWithoutData
| ChecksumMismatch (expected actual : Z)
| OutOfOrderSequence (expected actual : Z).

Record JournalStateMachine := mkMachine {
  state : JournalState; current_txn : option Z; committed_txns : list Z; replayed_txns : list Z; sequence_counter : Z }.

Definition new : JournalStateMachine := mkMachine Idle None [] [] 0.

Definition check_transition (from : JournalState) (event : JournalEvent) (to : JournalState) : option JournalViolation :=
  match from, event, to with
  | Idle, BeginTxn, Collecting | Idle, RecoveryComplete, Idle | Collecting, CommitTxn, Committing
  | Collecting, RollbackTxn, Idle | Committing, TxnPersisted, Idle | _, Crash, Recovering
  | Recovering, RecoveryComplete, Idle => None
  | _, _, _ => Some (InvalidTransition from event to)
  end.

(** The machine after the [match], with the state it is to take; what the arms
    change stays changed when the check fails. *)
Definition transition (event : JournalEvent) (m : JournalStateMachine) :
    JournalViolation + JournalState * JournalStateMachine :=
  match state m, event with
  | Idle, BeginTxn =>
      let n := u64 (sequence_counter m + 1) in
      inr (Collecting, mkMachine Idle (Some n) (committed_txns m) (replayed_txns m) n)
  | Idle, RecoveryComplete => inr (Idle, m)
  | Collecting, CommitTxn =>
      match current_txn m with
      | None => inl CommitWithoutData
      | Some txn => inr (Committing, mkMachine Collecting (Some txn) (committed_txns m ++ [txn]) (replayed_txns m) (sequence_counter m))
      end
  | Collecting, RollbackTxn | Committing, TxnPersisted =>
      inr (Idle, mkMachine (state m) None (committed_txns m) (replayed_txns m) (sequence_counter m))
  | _, Crash => inr (Recovering, m)
  | Recovering, RecoveryComplete =>
      inr (Idle, mkMachine Recovering None [] (replayed_txns m ++ committed_txns m) (sequence_counter m))
  | _, _ => inl (InvalidTransition (state m) event (state m))
  end.

Definition apply (event : JournalEvent) (m : JournalStateMachine) : (JournalViolation + JournalState) * JournalStateMachine :=
  match transition event m with
  | inl v => (inl v, m)
  | inr (to, m') =>
      match check_transition (state m) event to with
      | Some v => (inl v, m')
      | None => (inr to, mkMachine to (current_txn m') (committed_txns m') (replayed_txns m') (sequence_counter m'))
      end
  end.

Definition check_journal_block (magic sequence state checksum : Z) (data : list Z) : option JournalViolation :=
  if negb (magic =? JOURNAL_MAGIC) then Some (ChecksumMismatch JOURNAL_MAGIC magic)
  else if 2 <? state then Some (InvalidTransition Committing Crash Recovering)
  else if sequence =? 0 then Some (OutOfOrderSequence 1 sequence)
  else
    let computed := foldl (fun acc b => u32 (acc + b)) 0 data in
    if negb (checksum =? 0) && negb (checksum =? computed) then Some (ChecksumMismatch checksum computed) else None.

(** The events that the journal reports: a transaction begins, is committed. *)
Definition reported : list JournalEvent := [BeginTxn; TxnPersisted].

End Verified.

(** ** Loops *)

Section loops.
Context {St A B : Type}.
Implicit Types (body : A -> Io St (A + B)) (s : St).

Definition io_ok {C} (P : C -> St -> Prop) (E : St -> Prop) (r : Res C * St) : Prop :=
  match r with (Ok c, s) => P c s | (Err, s) => E s | _ => False end.

Lemma io_bind {C D} (m : Io St C) (f : C -> Io St D) P Q (E : St -> Prop) s :
  io_ok P E (m s) -> (forall c s, P c s -> io_ok Q E (f c s)) -> io_ok Q E ((c ← m; f c) s).
Proof. unfold mbind, Io_bind. destruct (m s) as [[] s']; simpl; auto; tauto. Qed.

Lemma io_ok_result {C} (P : C -> St -> Prop) (E : St -> Prop) (r : Res C * St) c : io_ok P E r -> r.1 = Ok c -> P c r.2.
Proof. destruct r as [r s]. cbn. by intros H ->. Qed.

Lemma io_ok_mono {C} (P Q : C -> St -> Prop) (E F : St -> Prop) (r : Res C * St) :
  (forall c s, P c s -> Q c s) -> (forall s, E s -> F s) -> io_ok P E r -> io_ok Q F r.
Proof. destruct r as [[] s]; cbn; auto. Qed.

(** The rule of the loop: [P k] holds after [k] iterations. *)
Lemma repeat_pos_ok body n (P : Z -> A -> St -> Prop) (Q : B -> St -> Prop) (E : St -> Prop) p :
  let post k r s := match r with inl a => P k a s | inr b => Q b s end in
  (forall k a s, 0 <= k < n -> P k a s -> io_ok (post (k + 1)) E (body a s)) ->
  forall k a s, 0 <= k -> k + Zpos p <= n -> P k a s -> io_ok (post (k + Zpos p)) E (repeat_pos body p a s).
Proof.
  intros post Hbody. induction p as [p IH|p IH|]; intros k a s Hk Hn Ha; cbn [repeat_pos].
  - apply (io_bind _ _ (post (k + 1))); [apply Hbody; [lia|done]|]. intros [a1|b1] s1 H1; [|done].
    apply (io_bind _ _ (post (k + 1 + Zpos p))); [apply IH; [lia..|done]|]. intros [a2|b2] s2 H2; [|done].
    replace (k + Zpos p~1) with (k + 1 + Zpos p + Zpos p) by lia. apply IH; [lia..|done].
  - apply (io_bind _ _ (post (k + Zpos p))); [apply IH; [lia..|done]|]. intros [a2|b2] s2 H2; [|done].
    replace (k + Zpos p~0) with (k + Zpos p + Zpos p) by lia. apply IH; [lia..|done].
  - apply Hbody; [lia|done].
Qed.

Lemma repeat_z_ok body n (P : Z -> A -> St -> Prop) (Q : B -> St -> Prop) (E : St -> Prop) :
  let post k r s := match r with inl a => P k a s | inr b => Q b s end in
  (forall k a s, 0 <= k < n -> P k a s -> io_ok (post (k + 1)) E (body a s)) ->
  forall a s, P 0 a s -> io_ok (post (Z.max 0 n)) E (repeat_z body n a s).
Proof.
  intros post Hb a s Ha. destruct n as [|p|p]; [done| |done].
  apply (repeat_pos_ok body (Zpos p) P Q E p Hb 0 a s); [lia..|done].
Qed.

End loops.

(** The body of a loop that panics at once. *)
Lemma repeat_pos_panics {S A B} (body : A -> Io S (A + B)) a s s' : body a s = (Panics, s') -> forall p, repeat_pos body p a s = (Panics, s').
Proof. intros Hb p. induction p as [p IH|p IH|]; cbn [repeat_pos]; [by rewrite run_bind, Hb|by rewrite run_bind, IH|done]. Qed.

Lemma repeat_pos_panics_result {S A B} (body : A -> Io S (A + B)) a s p : (body a s).1 = Panics -> (repeat_pos body p a s).1 = Panics.
Proof. destruct (body a s) as [r s'] eqn:Hb. intros [= ->]. by rewrite (repeat_pos_panics body a s s'). Qed.

(** ** Reading and writing blocks *)

Fixpoint sectors_from (d : Disk) (i : Z) (n : nat) : list Z :=
  match n with O => [] | S n => sector d (u64 i) ++ sectors_from d (i + 1) n end.

(** The contents of a block. *)
Definition block (d : Disk) (b : Z) : list Z := sectors_from d (block_to_sector b) 8.

Definition disk_ok (d : Disk) : Prop := forall i, length (sector d i) = SECTOR_SIZE /\ bytes (sector d i).

Lemma read_block_spec b d : read_block b d = (Ok (block d b), d) \/ read_block b d = (Err, d).
Proof.
  unfold read_block, block. generalize (block_to_sector b) as i. generalize 8%nat as n.
  induction n as [|n IH]; intros i; cbn [read_sectors sectors_from]; [by left|].
  unfold mbind, Io_bind, read_sector. destruct (read_fails d (u64 i)); [by right|].
  destruct (IH (i + 1)) as [->| ->]; auto.
Qed.

(** The device with the sector [i] overwritten. *)
Definition with_sector (i : Z) (b : list Z) (d : Disk) : Disk :=
  mkDisk (<[i := b]> (sector d)) (sector_count d) (read_fails d) (write_fails d).

Definition same_device (d d' : Disk) : Prop :=
  sector_count d' = sector_count d /\ read_fails d' = read_fails d /\ write_fails d' = write_fails d.

Lemma write_sectors_spec n : forall i buf d,
  let '(r, d') := write_sectors i n buf d in
  same_device d d' /\ (r = Ok tt \/ r = Err) /\
  (forall s, sector d' s = sector d s \/
    exists k, (k < n)%nat /\ s = u64 (i + Z.of_nat k) /\ sector d' s = slice (SECTOR_SIZE * k) SECTOR_SIZE buf).
Proof.
  induction n as [|n IH]; intros i buf d; cbn [write_sectors]; [by repeat split; auto|].
  unfold mbind, Io_bind, write_sector. destruct (write_fails d (u64 i)); [by repeat split; auto|].
  specialize (IH (i + 1) (drop SECTOR_SIZE buf) (with_sector (u64 i) (take SECTOR_SIZE buf) d)).
  unfold with_sector in IH at 1. destruct (write_sectors _ _ _ _) as [r d']. destruct IH as ((H1 & H2 & H3) & Hr & Hs).
  split; [by repeat split|]. split; [done|]. intros s. destruct (Hs s) as [Hs'|(k & Hk & -> & Hs')].
  - rewrite Hs'. cbn. destruct (decide (u64 i = s)) as [<-|Hne].
    + right. exists 0%nat. rewrite Z.add_0_r, fn_lookup_insert. split; [lia|]. split; reflexivity.
    + left. by rewrite fn_lookup_insert_ne.
  - right. exists (S k). split; [lia|]. split; [f_equal; lia|]. rewrite Hs'. unfold slice. rewrite drop_drop.
    do 2 f_equal. lia.
Qed.

Lemma write_block_spec b buf d :
  let '(r, d') := write_block b buf d in
  same_device d d' /\ (r = Ok tt \/ r = Err) /\
  (forall s, sector d' s = sector d s \/
    exists k, (k < 8)%nat /\ s = u64 (block_to_sector b + Z.of_nat k) /\ sector d' s = slice (SECTOR_SIZE * k) SECTOR_SIZE buf).
Proof.
  unfold write_block. destruct (_ <? _)%nat; [by repeat split; auto|]. apply write_sectors_spec.
Qed.

(** The [k]th sector of a block. *)
Lemma slice_sectors d n : forall i k, disk_ok d -> (k < n)%nat ->
  slice (SECTOR_SIZE * k) SECTOR_SIZE (sectors_from d i n) = sector d (u64 (i + Z.of_nat k)).
Proof.
  induction n as [|n IH]; intros i k Hd Hk; [lia|]. cbn [sectors_from].
  destruct (Hd (u64 i)) as [Hl _]. unfold slice. destruct k as [|k].
  - rewrite Nat.mul_0_r, drop_0, Z.add_0_r, <- Hl. apply take_app_length.
  - rewrite drop_app_ge by (rewrite Hl; lia). rewrite Hl.
    replace (SECTOR_SIZE * S k - SECTOR_SIZE)%nat with (SECTOR_SIZE * k)%nat by lia.
    fold (slice (SECTOR_SIZE * k) SECTOR_SIZE (sectors_from d (i + 1) n)). rewrite IH by (done || lia). do 2 f_equal. lia.
Qed.

Lemma block_length d b : disk_ok d -> length (block d b) = BLOCK_SIZE.
Proof.
  intros Hd. unfold block. cbn [sectors_from]. rewrite !length_app, !(proj1 (Hd _)). reflexivity.
Qed.

(** ** Recovery *)

(** A sector that begins with the header of a committed transaction. *)
Definition committed (b : list Z) : Prop := h_magic b = JOURNAL_MAGIC /\ h_state b = STATE_COMMITTED.

(** What recovery may have done to the sectors: nothing, or at the beginning of
    a block of the journal the state of a committed transaction has become
    [STATE_REPLAYED]. *)
Definition only_marked (j : Journal) (d d' : Disk) : Prop :=
  same_device d d' /\
  forall s, sector d' s = sector d s \/
    exists i, 0 <= i < num_blocks j /\ s = block_to_sector (u64 (start_block j + i)) /\
      committed (sector d s) /\ sector d' s = splice 28 [STATE_REPLAYED] (sector d s).

Lemma no_target_fits block_no buf n d r : repeat_z (Journal.replay_target block_no buf) n (0, r) d = (Ok (if n <=? 0 then inl (0, r) else inr r), d).
Proof.
  destruct n as [|p|p]; [done| |done]. cbn [repeat_z].
  assert (Hbody : Journal.replay_target block_no buf (0, r) d = (Ok (inr r), d)) by reflexivity.
  cbn [Z.leb]. clear -Hbody. induction p as [p IH|p IH|]; cbn [repeat_pos]; [|by unfold mbind, Io_bind; rewrite IH|done].
  unfold mbind, Io_bind. by rewrite Hbody.
Qed.

Lemma u64_idem x : u64 (u64 x) = u64 x.
Proof. apply u64_small, u64_range. Qed.

Lemma h_magic_first l1 l2 : length l1 = SECTOR_SIZE -> h_magic (l1 ++ l2) = h_magic l1.
Proof. intros Hl. unfold h_magic, slice. rewrite !drop_0, take_app_le; [done|]. rewrite Hl. cbv. lia. Qed.

Lemma h_state_first l1 l2 : length l1 = SECTOR_SIZE -> h_state (l1 ++ l2) = h_state l1.
Proof.
  intros Hl. unfold h_state, slice. rewrite drop_app_le, take_app_le; [done|..]; rewrite ?length_drop, Hl; cbv; lia.
Qed.

Lemma h_state_marked l : length l = SECTOR_SIZE -> h_state (splice 28 [STATE_REPLAYED] l) = STATE_REPLAYED.
Proof.
  intros Hl. unfold h_state. change 1%nat with (length [STATE_REPLAYED]). rewrite slice_splice_eq; [done|].
  rewrite Hl. cbv. lia.
Qed.

(** The sectors of a block whose header is marked: the first one is marked, the
    others are those of the block. *)
Lemma slice_set_state d b k : disk_ok d -> (k < 8)%nat ->
  slice (SECTOR_SIZE * k) SECTOR_SIZE (set_state STATE_REPLAYED (block d b)) =
    let s := u64 (block_to_sector b + Z.of_nat k) in
    if decide (k = 0)%nat then splice 28 [STATE_REPLAYED] (sector d s) else sector d s.
Proof.
  intros Hd Hk. pose proof (slice_sectors d 8 (block_to_sector b) k Hd Hk) as Hs. fold (block d b) in Hs.
  cbv zeta. rewrite <- Hs. unfold set_state. pose proof (block_length d b Hd) as Hl. case_decide as Hk0.
  - subst k. rewrite Nat.mul_0_r. apply list_eq. intros i.
    rewrite lookup_slice, !lookup_splice, !lookup_slice by (rewrite ?length_slice; rewrite ?Hl; cbv; lia).
    repeat case_decide; try done. cbn [length] in *. unfold SECTOR_SIZE in *. lia.
  - apply slice_splice_ne; rewrite ?Hl; cbn [length]; unfold BLOCK_SIZE, SECTOR_SIZE; lia.
Qed.

Lemma only_marked_ok j d d' : disk_ok d -> only_marked j d d' -> disk_ok d'.
Proof.
  intros Hd (_ & Hs) i. destruct (Hd i) as [Hl Hb]. destruct (Hs i) as [->|(_ & _ & _ & _ & ->)]; [done|].
  rewrite length_splice by (rewrite Hl; cbv; lia). split; [done|]. apply Forall_splice; [|done].
  constructor; [cbv; split; congruence|constructor].
Qed.

(** Rewriting a block of the journal with the new state only marks it. *)
Lemma mark_replayed j i d d1 :
  disk_ok d -> only_marked j d d1 -> 0 <= i < num_blocks j ->
  let b := u64 (start_block j + i) in
  committed (block d1 b) ->
  let '(r, d2) := write_block b (set_state STATE_REPLAYED (block d1 b)) d1 in
  (r = Ok tt \/ r = Err) /\ only_marked j d d2.
Proof.
  intros Hd Hm Hi b [Hmag Hst]. pose proof (only_marked_ok j d d1 Hd Hm) as Hd1. destruct Hm as ((Hc & Hrf & Hwf) & Hs).
  pose proof (write_block_spec b (set_state STATE_REPLAYED (block d1 b)) d1) as Hw.
  destruct (write_block b _ d1) as [r d2]. destruct Hw as ((Hc' & Hrf' & Hwf') & Hr & Hs2).
  assert (Hb0 : u64 (block_to_sector b + Z.of_nat 0) = block_to_sector b)
    by (rewrite Z.add_0_r; unfold block_to_sector; apply u64_idem).
  assert (Hfirst : committed (sector d1 (block_to_sector b)) /\ sector d1 (block_to_sector b) = sector d (block_to_sector b)).
  { unfold block in Hmag, Hst. cbn [sectors_from] in Hmag, Hst.
    rewrite h_magic_first in Hmag by apply Hd1. rewrite h_state_first in Hst by apply Hd1.
    rewrite <- Hb0, Z.add_0_r. split; [done|].
    destruct (Hs (u64 (block_to_sector b))) as [Heq|(i' & _ & _ & _ & Heq)]; [done|].
    rewrite Heq, h_state_marked in Hst by apply Hd. done. }
  destruct Hfirst as [Hcom Hsame]. split; [done|]. split; [by repeat split; congruence|]. intros s.
  destruct (Hs2 s) as [->|(k & Hk & -> & Heq)]; [done|]. rewrite slice_set_state in Heq by done. cbv zeta in Heq.
  case_decide as Hk0; [|by rewrite Heq]. subst k. right. exists i.
  rewrite Hb0 in Heq |- *. rewrite Heq. rewrite Hsame in *. done.
Qed.

Lemma replay_block_marks j d k a d1 :
  disk_ok d -> 0 <= k < num_blocks j -> a = (k, 0) /\ only_marked j d d1 ->
  io_ok (fun r d2 => match r with inl a => a = (k + 1, 0) /\ only_marked j d d2 | inr _ => False end)
    (only_marked j d) (Journal.replay_block (start_block j) a d1).
Proof.
  intros Hd Hk [-> Hm]. unfold Journal.replay_block. set (b := u64 (start_block j + k)).
  unfold mbind at 1, Io_bind at 1. destruct (read_block_spec b d1) as [->| ->]; [|done].
  destruct (decide (committed (block d1 b))) as [Hcom|Hno].
  2: { destruct (_ || _) eqn:Hg; [done|]. apply orb_false_iff in Hg as [Hg1 Hg2].
    apply negb_false_iff, Z.eqb_eq in Hg1. apply negb_false_iff, Z.eqb_eq in Hg2. by destruct Hno. }
  pose proof Hcom as [Hmag Hst]. rewrite Hmag, Hst, !Z.eqb_refl. cbn [negb orb].
  destruct (negb _ && _); [done|]. unfold mbind at 1, Io_bind at 1. rewrite no_target_fits.
  pose proof (mark_replayed j k d d1 Hd Hm Hk Hcom) as Hw. cbv zeta in Hw. fold b in Hw.
  unfold mbind, Io_bind. destruct (write_block b _ d1) as [r d2]. destruct Hw as [[-> | ->] Hm2]; [|done].
  cbn. split; [|done]. by destruct (_ <=? 0).
Qed.

(** The header takes all but twelve bytes of its block, so no target fits. *)
Lemma add_target_none t e b : bytes b -> Journal.add_target t e b = b.
Proof.
  intros Hb. unfold Journal.add_target.
  assert (Ht : 0 <= h_num_targets b) by (apply le_value_range; auto with word).
  rewrite (proj2 (Z.leb_gt _ _)); [done|].
  change (Z.of_nat HEADER_SIZE) with 4084. change (Z.of_nat TARGET_SIZE) with 16. change (Z.of_nat BLOCK_SIZE) with 4096. lia.
Qed.

Lemma recover_marks d j : disk_ok d -> 0 <= num_blocks j ->
  let '(r, (d', _)) := Journal.recover_from_dev (d, j) in (r = Ok 0 \/ r = Err) /\ only_marked j d d'.
Proof.
  intros Hd Hn. unfold Journal.recover_from_dev, Journal.journal, gets, Journal.on_disk. unfold mbind, Io_bind. cbn [fst snd].
  pose proof (repeat_z_ok (Journal.replay_block (start_block j)) (num_blocks j)
    (fun k a d2 => a = (k, 0) /\ only_marked j d d2) (fun _ _ => False) (only_marked j d)
    (fun k a s Hk Ha => replay_block_marks j d k a s Hd Hk Ha) (0, 0) d) as Hloop.
  destruct (repeat_z _ _ _ d) as [r d']. unfold io_ok in Hloop.
  assert (H0 : (0, 0) = (0, 0) /\ only_marked j d d) by (split; [done|]; split; [done|]; auto).
  specialize (Hloop H0). destruct r as [[[i n]|[]]| | |]; try done.
  - destruct Hloop as [[= -> ->] Hm]. split; [by left|done].
  - split; [by right|done].
Qed.

(** C28. Recovery never touches the file system. Whatever is on the device and
    wherever the journal is, it replays no block at all; it ends with the count
    0 or with the error of a read or write that failed; and of the sectors of
    the device only those at the beginning of a block of the journal change,
    where the state of a committed transaction becomes [STATE_REPLAYED]. So a
    committed transaction is not redone, since the record of its targets never
    fits behind the header. *)
Theorem journal_recovery_inert d j :
  disk_ok d -> 0 <= num_blocks j ->
  let '(r, (d', j')) := Journal.recover_from_dev (d, j) in
  (r = Ok 0 \/ r = Err) /\ only_marked j d d' /\ (forall t e b, bytes b -> Journal.add_target t e b = b).
Proof.
  intros Hd Hn. pose proof (recover_marks d j Hd Hn) as Hr. destruct (Journal.recover_from_dev _) as [r [d' j']].
  destruct Hr as [Hr Hm]. split; [done|]. split; [done|apply add_target_none].
Qed.

(** A device with sixteen blocks whose journal is at block 1: a transaction is
    begun, a block is journalled for block 10, and it is committed; recovery
    then leaves block 10 as it is. *)
Definition blank_disk : Disk :=
  mkDisk (fun _ => replicate SECTOR_SIZE 0) (Some 128) (fun i => 128 <=? i) (fun i => 128 <=? i).

Definition demo_transaction : Io (Disk * Journal) unit :=
  hdr ← Journal.begin_transaction;
  _ ← Journal.journal_data hdr 10 (replicate BLOCK_SIZE 7);
  Journal.commit_transaction hdr.

Definition demo_crashed : Disk := (demo_transaction (blank_disk, Journal.new 1 4)).2.1.

Lemma blank_disk_ok : disk_ok blank_disk.
Proof. intros i. split; [done|]. apply Forall_replicate. unfold is_u8. lia. Qed.

Example committed_not_redone :
  block demo_crashed 2 <> block blank_disk 2 /\
  (Journal.recover_from_dev (demo_crashed, Journal.new 1 4)).1 = Ok 0 /\
  block (Journal.recover_from_dev (demo_crashed, Journal.new 1 4)).2.1 10 = replicate BLOCK_SIZE 0.
Proof. split; [vm_compute; discriminate|]. split; vm_compute; reflexivity. Qed.

Lemma journal_recovery_inert_witness :
  let '(r, (d', _)) := Journal.recover_from_dev (blank_disk, Journal.new 1 4) in
  (r = Ok 0 \/ r = Err) /\ only_marked (Journal.new 1 4) blank_disk d'.
Proof.
  assert (Hn : 0 <= num_blocks (Journal.new 1 4)) by (cbn; lia).
  pose proof (journal_recovery_inert blank_disk (Journal.new 1 4) blank_disk_ok Hn) as H.
  destruct (Journal.recover_from_dev _) as [r [d' j']]. destruct H as (H1 & H2 & _). exact (conj H1 H2).
Defined.

(** The checksum of a commit is computed over a block whose field is still 0,
    and recovery computes it with the field filled in, so it skips the
    transaction even before it looks for targets. *)
Example commit_checksum_mismatch :
  let b := block demo_crashed 2 in h_checksum b <> 0 /\ h_checksum b <> fnv1a_checksum b.
Proof. vm_compute. split; discriminate. Qed.

(** ** The checker *)

(** What the checker lets through is what its specification allows. *)
Lemma verified_apply_sound e m to m' :
  Verified.apply e m = (inr to, m') -> Verified.check_transition (Verified.state m) e to = None /\ Verified.state m' = to.
Proof.
  unfold Verified.apply. destruct (Verified.transition e m) as [|[to' m1]]; [done|].
  destruct (Verified.check_transition _ _ _) eqn:Hc; [done|]. by intros [= <- <-].
Qed.

(** The journal reports a commit as persisted, without the event between: the
    first commit is refused, and so is every later report. *)
Example verified_first_commit_refused :
  let after := (Verified.apply Verified.TxnPersisted (Verified.apply Verified.BeginTxn Verified.new).2).2 in
  Verified.state after = Verified.Collecting /\
  Forall (fun e => exists v, Verified.apply e after = (inl v, after)) Verified.reported.
Proof. split; [done|]. repeat constructor; by eexists. Qed.
