(* ===== verification/SkyFs.v ===== *)
(** * SkyFS

    Model of [crates/vfs/src/skyfs]: [mod.rs] (super block, inodes, file data,
    nodes), [block_alloc.rs], [inode.rs], [dir.rs] and [btree.rs], and of
    [crates/vfs/src/page_cache.rs]. The file system and its device are behind
    [IrqSafeMutex]es, which are not reentrant: taking one that is held is a
    panic. Numbers on the disk are little-endian and packed.

    A structure read with [read_unaligned] or through a cast may reach past the
    256 bytes of its slot: [SkyfsInode] has 318 bytes. What lies behind the
    buffer on the stack is [beyond]. *)

From S2P Require Import Prelude UserAccess SkyDisk.

Definition INODE_SIZE : nat := 256.
Definition MAX_INLINE_DATA : nat := 256.
Definition SKYFS_MAGIC : Z := 0x315620534B59534B.
Definition SKYFS_VERSION : Z := 1.
Definition BTREE_MODE : Z := 0xFFFFFFFF.
Definition STATE_CLEAN : Z := 1.
Definition STATE_DIRTY : Z := 2.

(** ** Structures on the disk *)

Record Superblock := mkSuper {
  magic : Z; version : Z; block_size : Z; total_blocks : Z; journal_start : Z; journal_blocks : Z;
  bitmap_start : Z; bitmap_blocks : Z; inode_start : Z; inode_count : Z; inode_blocks : Z; root_inode : Z; state : Z }.

Definition superblock_bytes (s : Superblock) : list Z :=
  le_bytes 8 (magic s) ++ le_bytes 4 (version s) ++ le_bytes 4 (block_size s) ++ le_bytes 8 (total_blocks s) ++
  le_bytes 8 (journal_start s) ++ le_bytes 8 (journal_blocks s) ++ le_bytes 8 (bitmap_start s) ++
  le_bytes 8 (bitmap_blocks s) ++ le_bytes 8 (inode_start s) ++ le_bytes 8 (inode_count s) ++
  le_bytes 8 (inode_blocks s) ++ le_bytes 8 (root_inode s) ++ le_bytes 1 (state s) ++ replicate 4007 0.

Definition field (off n : nat) (b : list Z) : Z := le_value (slice off n b).

Definition superblock_of (b : list Z) : Superblock :=
  mkSuper (field 0 8 b) (field 8 4 b) (field 12 4 b) (field 16 8 b) (field 24 8 b) (field 32 8 b) (field 40 8 b)
    (field 48 8 b) (field 56 8 b) (field 64 8 b) (field 72 8 b) (field 80 8 b) (field 88 1 b).

Record SkyfsInode := mkInode {
  mode : Z; uid : Z; gid : Z; size : Z; atime : Z; mtime : Z; ctime : Z; links : Z; flags : Z; block_count : Z;
  extent_count : Z; data : list Z }.

Definition inode_bytes (i : SkyfsInode) : list Z :=
  le_bytes 2 (mode i) ++ le_bytes 4 (uid i) ++ le_bytes 4 (gid i) ++ le_bytes 8 (size i) ++ le_bytes 8 (atime i) ++
  le_bytes 8 (mtime i) ++ le_bytes 8 (ctime i) ++ le_bytes 4 (links i) ++ le_bytes 4 (flags i) ++
  le_bytes 8 (block_count i) ++ le_bytes 4 (extent_count i) ++ data i.

Definition inode_of (b : list Z) : SkyfsInode :=
  mkInode (field 0 2 b) (field 2 4 b) (field 6 4 b) (field 10 8 b) (field 18 8 b) (field 26 8 b) (field 34 8 b)
    (field 42 4 b) (field 46 4 b) (field 50 8 b) (field 58 4 b) (slice 62 MAX_INLINE_DATA b).

Definition set_data (n : Z) (count : Z) (d : list Z) (i : SkyfsInode) : SkyfsInode :=
  mkInode (mode i) (uid i) (gid i) n (atime i) (mtime i) (ctime i) (links i) (flags i) (block_count i) count d.

Record Extent := mkExtent { e_start : Z; e_count : Z }.

#[global] Instance Extent_inhabited : Inhabited Extent := populate (mkExtent 0 0).

Definition extent_bytes (e : Extent) : list Z := le_bytes 8 (e_start e) ++ le_bytes 8 (e_count e).
Definition extent_of (b : list Z) : Extent := mkExtent (field 0 8 b) (field 8 8 b).

Record DirEntry := mkEntry { d_inode : Z; rec_len : Z; name_len : Z; file_type : Z }.

Definition ENTRY_SIZE : nat := 12.
Definition entry_bytes (e : DirEntry) : list Z :=
  le_bytes 8 (d_inode e) ++ le_bytes 2 (rec_len e) ++ le_bytes 1 (name_len e) ++ le_bytes 1 (file_type e).
Definition entry_of (b : list Z) : DirEntry := mkEntry (field 0 8 b) (field 8 2 b) (field 10 1 b) (field 11 1 b).

(** ** The file system *)

(** [cache] is [GLOBAL_PAGE_CACHE], and [evicted] the page that it drops when it
    is full: the first of a hash map. *)
Record Fs := mkFs {
  dev : Disk; sb : Superblock; fs_journal : Journal; fs_locked : bool; dev_locked : bool;
  cache : gmap (Z * Z) (list Z); evicted : gmap (Z * Z) (list Z) -> option (Z * Z); beyond : list Z }.

Definition set_dev (d : Disk) (f : Fs) : Fs :=
  mkFs d (sb f) (fs_journal f) (fs_locked f) (dev_locked f) (cache f) (evicted f) (beyond f).
Definition set_journal (j : Journal) (f : Fs) : Fs :=
  mkFs (dev f) (sb f) j (fs_locked f) (dev_locked f) (cache f) (evicted f) (beyond f).
Definition set_fs_locked (b : bool) (f : Fs) : Fs :=
  mkFs (dev f) (sb f) (fs_journal f) b (dev_locked f) (cache f) (evicted f) (beyond f).
Definition set_dev_locked (b : bool) (f : Fs) : Fs :=
  mkFs (dev f) (sb f) (fs_journal f) (fs_locked f) b (cache f) (evicted f) (beyond f).
Definition set_cache (c : gmap (Z * Z) (list Z)) (f : Fs) : Fs :=
  mkFs (dev f) (sb f) (fs_journal f) (fs_locked f) (dev_locked f) c (evicted f) (beyond f).

Definition on_dev {A} (m : Io Disk A) : Io Fs A := fun f => let '(r, d) := m (dev f) in (r, set_dev d f).
Definition on_journal {A} (m : Io (Disk * Journal) A) : Io Fs A := fun f =>
  let '(r, (d, j)) := m (dev f, fs_journal f) in (r, set_journal j (set_dev d f)).

(** [m] while the guard of [fs.lock()] or [device.lock()] is alive. *)
Definition with_fs {A} (m : Io Fs A) : Io Fs A := fun f =>
  if fs_locked f then (Panics, f) else let '(r, f) := m (set_fs_locked true f) in (r, set_fs_locked false f).
Definition with_dev {A} (m : Io Fs A) : Io Fs A := fun f =>
  if dev_locked f then (Panics, f) else let '(r, f) := m (set_dev_locked true f) in (r, set_dev_locked false f).

(** ** [block_alloc.rs] *)

Definition set_bit (i : nat) (bit : Z) (buf : list Z) : list Z := alter (fun x => Z.lor x (Z.shiftl 1 bit)) i buf.

(** The bits from [bit] on of the byte at [i], whose value was [byte] when it was
    loaded, in the bitmap block [b]. *)
Fixpoint alloc_bits (s : Superblock) (b : Z) (i : nat) (byte : Z) (bits : list Z) (buf : list Z) : Io Disk (list Z + Z) :=
  match bits with
  | [] => ret (inl buf)
  | bit :: bits =>
      if Z.land byte (Z.shiftl 1 bit) =? 0 then
        let buf := set_bit i bit buf in
        _ ← write_block (u64 (bitmap_start s + b)) buf;
        let block := u64 (u64 (u64 (b * Z.of_nat BLOCK_SIZE) + Z.of_nat i) * 8 + bit) in
        if block <? total_blocks s then ret (inr block) else alloc_bits s b i byte bits buf
      else alloc_bits s b i byte bits buf
  end.

Fixpoint alloc_bytes (s : Superblock) (b : Z) (idx : list nat) (buf : list Z) : Io Disk (list Z + Z) :=
  match idx with
  | [] => ret (inl buf)
  | i :: idx =>
      let byte := buf !!! i in
      if byte =? 0xFF then alloc_bytes s b idx buf
      else
        r ← alloc_bits s b i byte [0; 1; 2; 3; 4; 5; 6; 7] buf;
        match r with inl buf => alloc_bytes s b idx buf | inr block => ret (inr block) end
  end.

Definition alloc_in_block (s : Superblock) (b : Z) : Io Disk (Z + Z) :=
  buf ← read_block (u64 (bitmap_start s + b));
  r ← alloc_bytes s b (seq 0 BLOCK_SIZE) buf;
  ret (match r with inl _ => inl (b + 1) | inr block => inr block end).

(** The caller holds the device. *)
Definition allocate_block_inner : Io Fs Z :=
  with_fs (
    s ← gets sb;
    r ← on_dev (repeat_z (alloc_in_block s) (bitmap_blocks s) 0);
    match r with inr block => ret block | inl _ => fail end).

Definition free_block (block : Z) : Io Fs unit :=
  with_fs (
    s ← gets sb;
    let bitmap_block := u64 (bitmap_start s + block / (Z.of_nat BLOCK_SIZE * 8)) in
    let byte_index := Z.to_nat (block / 8 mod Z.of_nat BLOCK_SIZE) in
    with_dev (on_dev (
      buf ← read_block bitmap_block;
      write_block bitmap_block (alter (fun x => Z.land x (u8 (Z.lnot (Z.shiftl 1 (block mod 8))))) byte_index buf)))).

(** ** [inode.rs] and the inodes of [mod.rs] *)

Definition inodes_per_block : Z := Z.of_nat BLOCK_SIZE / Z.of_nat INODE_SIZE.

Definition try_inode (s : Superblock) (ino : Z) : Io Disk (Z + Z) :=
  buf ← read_block (u64 (inode_start s + ino / inodes_per_block));
  let offset := Z.to_nat (ino mod inodes_per_block * Z.of_nat INODE_SIZE) in
  ret (if field offset 2 buf =? 0 then inr ino else inl (ino + 1)).

Definition alloc_inode_inner : Io Fs Z :=
  with_fs (
    s ← gets sb;
    with_dev (
      r ← on_dev (repeat_z (try_inode s) (inode_count s - 1) 1);
      match r with inr ino => ret ino | inl _ => fail end)).

Definition init_inode_inner (ino m : Z) : Io Fs unit :=
  let inode := mkInode (u16 m) 0 0 0 0 0 0 1 0 0 0 (replicate MAX_INLINE_DATA 0) in
  with_fs (
    s ← gets sb;
    let block := u64 (inode_start s + ino / inodes_per_block) in
    let offset := Z.to_nat (ino mod inodes_per_block * Z.of_nat INODE_SIZE) in
    with_dev (on_dev (
      buf ← read_block block;
      write_block block (splice offset (take INODE_SIZE (inode_bytes inode)) buf)))).

Definition inode_block (s : Superblock) (ino : Z) : Z :=
  u64 (inode_start s + u64 (ino * Z.of_nat INODE_SIZE) / Z.of_nat BLOCK_SIZE).
Definition inode_offset (ino : Z) : nat := Z.to_nat (u64 (ino * Z.of_nat INODE_SIZE) mod Z.of_nat BLOCK_SIZE).

(** The structure at [offset] of a block. *)
Definition raw_inode (offset : nat) (buf past : list Z) : SkyfsInode := inode_of (drop offset (buf ++ past)).

Definition read_inode_inner (ino : Z) : Io Fs SkyfsInode :=
  with_fs (
    s ← gets sb;
    buf ← with_dev (on_dev (read_block (inode_block s ino)));
    past ← gets beyond;
    ret (raw_inode (inode_offset ino) buf past)).

Definition write_inode_inner (ino : Z) (inode : SkyfsInode) : Io Fs unit :=
  with_fs (
    s ← gets sb;
    let b := inode_block s ino in
    with_dev (
      buf ← on_dev (read_block b);
      let buf := splice (inode_offset ino) (take INODE_SIZE (inode_bytes inode)) buf in
      on_journal (
        hdr ← Journal.begin_transaction;
        _ ← Journal.journal_data hdr b buf;
        _ ← Journal.on_disk (write_block b buf);
        Journal.commit_transaction hdr))).

(** ** [dir.rs] and directory entries *)

(** The entries that the callback of [parse_entries] is called with. Every step
    is at least one byte, so the length of the data bounds their number. *)
Fixpoint parse_from (fuel : nat) (d : list Z) : list (DirEntry * list Z) :=
  match fuel with
  | O => []
  | S fuel =>
      if (length d <? ENTRY_SIZE)%nat then []
      else
        let e := entry_of d in
        if (d_inode e =? 0) || (name_len e =? 0) || (rec_len e =? 0) then []
        else
          let name_end := (ENTRY_SIZE + Z.to_nat (name_len e))%nat in
          if (length d <? name_end)%nat then []
          else
            let name := slice ENTRY_SIZE (Z.to_nat (name_len e)) d in
            (if from_utf8 name then [(e, name)] else []) ++ parse_from fuel (drop (Z.to_nat (rec_len e)) d)
  end.

Definition parse_entries (d : list Z) : list (DirEntry * list Z) := parse_from (length d) d.

(** [while len % 4 != 0 { push(0) }] *)
Definition pad4 (l : list Z) : list Z := l ++ replicate ((4 - length l mod 4) mod 4) 0.

Definition write_dirent_append (buf : list Z) (e : DirEntry) (name : list Z) : list Z := pad4 (buf ++ entry_bytes e ++ name).

(** Into a buffer of fixed length, from [off] on; gives the new offset. *)
Definition write_dirent {S} (buf : list Z) (off : nat) (e : DirEntry) (name : list Z) : Io S (list Z * nat) :=
  let padded := ((ENTRY_SIZE + length name + 3) / 4 * 4)%nat in
  if (length buf <? off + padded)%nat then fail
  else
    let e := mkEntry (d_inode e) (u16 (Z.of_nat padded)) (name_len e) (file_type e) in
    let off' := (off + ENTRY_SIZE + length name)%nat in
    ret (splice off (entry_bytes e ++ name) buf, ((off' + 3) / 4 * 4)%nat).

Definition dot : list Z := [46].
Definition dot_dot : list Z := [46; 46].

(** ** [btree.rs] *)

Definition KEY_MAX : nat := 15.
Definition CHILD_MAX : nat := 16.

Record BTreeNode := mkNode { is_leaf : Z; num_keys : Z; keys : list Z; values : list Extent; children : list Z }.

Definition node_bytes (n : BTreeNode) : list Z :=
  le_bytes 1 (is_leaf n) ++ le_bytes 2 (num_keys n) ++ mjoin (le_bytes 8 <$> keys n) ++
  mjoin (extent_bytes <$> values n) ++ mjoin (le_bytes 8 <$> children n).

Definition node_of (b : list Z) : BTreeNode :=
  mkNode (field 0 1 b) (field 1 2 b) ((fun i => field (3 + 8 * i) 8 b) <$> seq 0 KEY_MAX)
    ((fun i => extent_of (drop (123 + 16 * i) b)) <$> seq 0 KEY_MAX)
    ((fun i => field (363 + 8 * i) 8 b) <$> seq 0 CHILD_MAX).

Definition empty_node : BTreeNode :=
  mkNode 0 0 (replicate KEY_MAX 0) (replicate KEY_MAX (mkExtent 0 0)) (replicate CHILD_MAX 0).

Definition read_node (block : Z) : Io Fs BTreeNode :=
  _ ← with_fs (ret tt);
  buf ← with_dev (on_dev (read_block block));
  ret (node_of buf).
Definition read_node_from_dev (block : Z) : Io Fs BTreeNode := buf ← on_dev (read_block block); ret (node_of buf).
Definition write_node (block : Z) (n : BTreeNode) : Io Fs unit := on_dev (write_block block (in_block (node_bytes n))).

(** The search of a leaf. *)
Fixpoint leaf_lookup (ks : list Z) (vs : list Extent) (off : Z) : option Extent :=
  match ks, vs with
  | k :: ks, v :: vs =>
      if (k <=? off) && (off <? u64 (k + e_count v))
      then Some (mkExtent (u64 (e_start v + (off - k))) (u64 (e_count v - (off - k))))
      else leaf_lookup ks vs off
  | _, _ => None
  end.

(** [while idx < nk && off >= keys[idx]]: how many keys are passed. *)
Fixpoint passed (ks : list Z) (off : Z) : nat :=
  match ks with k :: ks => if k <=? off then S (passed ks off) else O | [] => O end.

Definition lookup_step (off : Z) (current : Z) : Io Fs (Z + option Extent) :=
  node ← read_node current;
  let nk := Z.to_nat (num_keys node) in
  if (KEY_MAX <? nk)%nat then ret (inr None)
  else if negb (is_leaf node =? 0) then ret (inr (leaf_lookup (take nk (keys node)) (values node) off))
  else ret (inl (children node !!! passed (take nk (keys node)) off)).

(** A read that fails is [None]. The loop of the source has no bound: in a tree
    with a cycle it does not end. *)
Definition lookup_extent (root_block off : Z) : Io Fs (option Extent) := fun f =>
  match repeat_z (lookup_step off) M64 root_block f with
  | (Ok (inr r), f) => (Ok r, f)
  | (Err, f) => (Ok None, f)
  | (Panics, f) => (Panics, f)
  | (_, f) => (Undefined, f)
  end.

(** [while i > 0 && key < keys[i - 1]]: from the right, the place of a key. *)
Fixpoint place (n : nat) (ks : list Z) (key : Z) : nat :=
  match n with O => O | S m => if key <? ks !!! m then place m ks key else n end.

(** The arrays with a place opened at [i] among the first [n]; the length stays. *)
Definition open_at {A} (i n : nat) (x : A) (l : list A) : list A :=
  take i l ++ x :: slice i (n - i) l ++ drop (S n) l.

(** All sixteen entries of a full leaf and the new one, in order. *)
Fixpoint merge_entry (es : list (Z * Extent)) (key : Z) (v : Extent) : list (Z * Extent) :=
  match es with
  | [] => [(key, v)]
  | (k, w) :: es => if key <? k then (key, v) :: (k, w) :: es else (k, w) :: merge_entry es key v
  end.

(** The loop that merges the median [med] of the split [i]th child and the new
    child into the entries and children of a full node: the next free place, whether
    the median is placed, and the arrays of sixteen entries and seventeen children. *)
Definition merge_step (n : BTreeNode) (i : nat) (med : Z * Extent) (new_child : Z)
    (st : nat * bool * list (Z * Extent) * list Z) (ci : nat) : nat * bool * list (Z * Extent) * list Z :=
  let '(ai, inserted, ks, cs) := st in
  let cs := <[ai := children n !!! ci]> cs in
  let here := (ci <? KEY_MAX)%nat && negb inserted && (med.1 <? keys n !!! ci) in
  let ks := if here then <[ai := med]> ks else ks in
  let cs := if here then <[S ai := new_child]> cs else cs in
  let ai := if here then S ai else ai in
  let inserted := inserted || here in
  let ks := if (ci <? KEY_MAX)%nat then <[ai := (keys n !!! ci, values n !!! ci)]> ks else ks in
  let cs := if (ci <? KEY_MAX)%nat then <[S ai := children n !!! S ci]> cs else cs in
  let last := (ci =? i)%nat && negb inserted in
  let ks := if last then <[KEY_MAX := med]> ks else ks in
  let cs := if last then <[S KEY_MAX := new_child]> cs else cs in
  let inserted := inserted || last in
  (if (ci <? KEY_MAX)%nat || inserted then S ai else ai, inserted, ks, cs).

Definition merge_child (n : BTreeNode) (i : nat) (med : Z * Extent) (new_child : Z) : list (Z * Extent) * list Z :=
  let '(_, _, ks, cs) := foldl (merge_step n i med new_child)
    (O, false, replicate (S KEY_MAX) (0, mkExtent 0 0), replicate (S (S KEY_MAX)) 0) (seq 0 (S KEY_MAX)) in (ks, cs).

(** An array of length [n] that begins with [l]. *)
Definition fill_with {A} (x : A) (n : nat) (l : list A) : list A := l ++ replicate (n - length l) x.
Definition MID : nat := KEY_MAX / 2.

Definition leaf_insert (n : BTreeNode) (key : Z) (v : Extent) : BTreeNode :=
  let nk := Z.to_nat (num_keys n) in
  let i := place nk (keys n) key in
  mkNode (is_leaf n) (Z.of_nat (S nk)) (open_at i nk key (keys n)) (open_at i nk v (values n)) (children n).

Definition inner_insert (n : BTreeNode) (i : nat) (med : Z * Extent) (new_child : Z) : BTreeNode :=
  let nk := Z.to_nat (num_keys n) in
  mkNode (is_leaf n) (Z.of_nat (S nk)) (open_at i nk med.1 (keys n)) (open_at i nk med.2 (values n))
    (open_at (S i) (S nk) new_child (children n)).

(** The two halves of a full node, with the entries [es] and the children [cs]. The
    left one keeps what the arrays held behind. *)
Definition left_half (n : BTreeNode) (es : list (Z * Extent)) (cs : list Z) : BTreeNode :=
  mkNode (is_leaf n) (Z.of_nat MID) (take MID es.*1 ++ drop MID (keys n)) (take MID es.*2 ++ drop MID (values n))
    (take (S MID) cs ++ drop (length (take (S MID) cs)) (children n)).
Definition right_half (leaf : Z) (es : list (Z * Extent)) (cs : list Z) : BTreeNode :=
  let r := drop (S MID) es in
  mkNode leaf (Z.of_nat (KEY_MAX - MID)) (fill_with 0 KEY_MAX r.*1) (fill_with (mkExtent 0 0) KEY_MAX r.*2)
    (fill_with 0 CHILD_MAX (drop (S MID) cs)).

Definition leaf_entries (n : BTreeNode) : list (Z * Extent) := zip (keys n) (values n).

(** [None]: no split. A tree of height [depth] or more would need more blocks
    than there are, so only one with a cycle runs out. *)
Fixpoint insert_non_full (depth : nat) (node_block key : Z) (v : Extent) : Io Fs (option (Z * Extent * Z)) :=
  match depth with
  | O => undefined
  | S depth =>
      n ← read_node_from_dev node_block;
      let nk := Z.to_nat (num_keys n) in
      if (KEY_MAX <? nk)%nat then fail
      else if negb (is_leaf n =? 0) then
        if (nk <? KEY_MAX)%nat then _ ← write_node node_block (leaf_insert n key v); ret None
        else
          let es := merge_entry (leaf_entries n) key v in
          let median := es !!! MID in
          _ ← write_node node_block (left_half n es []);
          new_block ← allocate_block_inner;
          _ ← write_node new_block (right_half 1 es []);
          ret (Some (median, new_block))
      else
        let i := place nk (keys n) key in
        split ← insert_non_full depth (children n !!! i) key v;
        match split with
        | None => ret None
        | Some (med, new_child) =>
            if (nk <? KEY_MAX)%nat then _ ← write_node node_block (inner_insert n i med new_child); ret None
            else
              let '(es, cs) := merge_child n i med new_child in
              let median := es !!! MID in
              _ ← write_node node_block (left_half n es cs);
              new_block ← allocate_block_inner;
              _ ← write_node new_block (right_half 0 es cs);
              ret (Some (median, new_block))
        end
  end.

Definition MAX_DEPTH : nat := 64.

(** Gives the root. *)
Definition insert_extent (root_block key : Z) (v : Extent) : Io Fs Z :=
  _ ← with_fs (ret tt);
  with_dev (
    if root_block =? 0 then
      block ← allocate_block_inner;
      _ ← write_node block (mkNode 1 1 (<[O := key]> (keys empty_node)) (<[O := v]> (values empty_node)) (children empty_node));
      ret block
    else
      split ← insert_non_full MAX_DEPTH root_block key v;
      match split with
      | None => ret root_block
      | Some (med, new_child) =>
          block ← allocate_block_inner;
          _ ← write_node block (mkNode 0 1 (<[O := med.1]> (keys empty_node)) (<[O := med.2]> (values empty_node))
                 (<[1%nat := new_child]> (<[O := root_block]> (children empty_node))));
          ret block
      end).

(** ** File data *)

(** The extents in [data], of which at most sixteen are inside. *)
Definition inline_extents (i : SkyfsInode) : option (list Extent) :=
  if 16 <? extent_count i then None
  else Some ((fun k => extent_of (drop (16 * k) (data i))) <$> seq 0 (Z.to_nat (extent_count i))).

(** One block of an extent that is read, until [n] bytes are there. *)
Definition read_extent_block (start n : Z) (a : Z * list Z) : Io Disk (Z * list Z + list Z) :=
  let '(b, acc) := a in
  buf ← read_block (u64 (start + b));
  let acc := acc ++ buf in
  ret (if n <=? Z.of_nat (length acc) then inr acc else inl (b + 1, acc)).

Fixpoint read_extents (es : list Extent) (n : Z) (acc : list Z) : Io Disk (list Z) :=
  match es with
  | [] => ret acc
  | e :: es =>
      r ← repeat_z (read_extent_block (e_start e) n) (e_count e) (0, acc);
      match r with
      | inr acc => ret acc
      | inl (_, acc) => if n <=? Z.of_nat (length acc) then ret acc else read_extents es n acc
      end
  end.

(** The same, in the tree: at most [n] bytes, the last block cut. *)
Definition read_tree_block (start n : Z) (a : Z * list Z) : Io Fs (Z * list Z + list Z) :=
  let '(b, acc) := a in
  if n <=? Z.of_nat (length acc) then ret (inr acc)
  else
    buf ← on_dev (read_block (u64 (start + b)));
    ret (inl (b + 1, acc ++ take (Nat.min BLOCK_SIZE (Z.to_nat n - length acc)) buf)).

Definition read_tree_step (root n : Z) (a : Z * list Z) : Io Fs (Z * list Z + list Z) :=
  let '(idx, acc) := a in
  if n <=? Z.of_nat (length acc) then ret (inr acc)
  else
    e ← lookup_extent root idx;
    match e with
    | None => ret (inr acc)
    | Some e =>
        r ← repeat_z (read_tree_block (e_start e) n) (e_count e) (0, acc);
        ret (inl (u64 (idx + e_count e), match r with inl (_, acc) | inr acc => acc end))
    end.

Definition read_file_data (i : SkyfsInode) : Io Fs (list Z) :=
  if size i =? 0 then ret []
  else if size i <=? Z.of_nat MAX_INLINE_DATA then ret (take (Z.to_nat (size i)) (data i))
  else
    _ ← with_fs (ret tt);
    with_dev (
      if extent_count i =? BTREE_MODE then
        r ← repeat_z (read_tree_step (field 0 8 (data i)) (size i)) M64 (0, []);
        match r with inr acc => ret acc | inl _ => undefined end
      else
        match inline_extents i with
        | None => undefined
        | Some es => acc ← on_dev (read_extents es (size i) []); ret (take (Z.to_nat (size i)) acc)
        end).

(** [extents.last_mut()] grows when the block follows it. *)
Definition add_block (b : Z) (es : list Extent) : list Extent :=
  match last es with
  | Some e =>
      if u64 (e_start e + e_count e) =? b
      then take (pred (length es)) es ++ [mkExtent (e_start e) (u64 (e_count e + 1))]
      else es ++ [mkExtent b 1]
  | None => [mkExtent b 1]
  end.

(** The blocks of [d], allocated and written one after the other; the caller
    holds the device. *)
Fixpoint write_blocks (n : nat) (d : list Z) (es : list Extent) : Io Fs (list Extent) :=
  match n with
  | O => ret es
  | S n =>
      b ← allocate_block_inner;
      _ ← on_dev (write_block b (in_block (take BLOCK_SIZE d)));
      write_blocks n (drop BLOCK_SIZE d) (add_block b es)
  end.

(** The [&mut SkyfsInode] of [store_data_blocks] is in the state with the file
    system, since it keeps what was assigned before an error. *)
Definition on_fs {A B} (m : Io Fs A) : Io (Fs * B) A := fun s => let '(r, f) := m s.1 in (r, (f, s.2)).
Definition the_inode : Io (Fs * SkyfsInode) SkyfsInode := gets snd.
Definition put_inode (i : SkyfsInode) : Io (Fs * SkyfsInode) unit := modify (fun s => (s.1, i)).

Definition pad_to (n : nat) (l : list Z) : list Z := l ++ replicate (n - length l) 0.

Fixpoint insert_all (k : Z) (es : list Extent) (root : Z) : Io Fs Z :=
  match es with
  | [] => ret root
  | e :: es => root ← insert_extent root k e; insert_all (k + 1) es root
  end.

Definition store_data_blocks (d : list Z) : Io (Fs * SkyfsInode) unit :=
  i ← the_inode;
  let n := Z.of_nat (length d) in
  if n <=? Z.of_nat MAX_INLINE_DATA then put_inode (set_data n 0 (pad_to MAX_INLINE_DATA d) i)
  else
    _ ← on_fs (with_fs (ret tt));
    es ← on_fs (with_dev (write_blocks ((length d + BLOCK_SIZE - 1) / BLOCK_SIZE) d []));
    if (length es * 16 <=? MAX_INLINE_DATA)%nat && negb (extent_count i =? BTREE_MODE) then
      put_inode (set_data n (Z.of_nat (length es)) (pad_to MAX_INLINE_DATA (mjoin (extent_bytes <$> es))) i)
    else
      let root := if extent_count i =? BTREE_MODE then field 0 8 (data i) else 0 in
      _ ← put_inode (set_data (size i) (extent_count i) (replicate MAX_INLINE_DATA 0) i);
      root ← on_fs (insert_all 0 es root);
      put_inode (set_data n BTREE_MODE (splice 0 (le_bytes 8 root) (replicate MAX_INLINE_DATA 0)) i).

Definition local {A B} (b : B) (m : Io (Fs * B) A) : Io Fs (A * B) := fun f =>
  match m (f, b) with
  | (Ok a, (f, b)) => (Ok (a, b), f)
  | (Err, (f, _)) => (Err, f)
  | (Panics, (f, _)) => (Panics, f)
  | (Undefined, (f, _)) => (Undefined, f)
  end.

Definition add_entry_impl (ino : Z) (name : list Z) (child_ino : Z) : Io Fs unit :=
  i ← read_inode_inner ino;
  d ← read_file_data i;
  let e := mkEntry child_ino (u16 ((12 + Z.of_nat (length name) + 3) / 4 * 4)) (u8 (Z.of_nat (length name))) 0 in
  i ← read_inode_inner ino;
  '(_, i) ← local i (store_data_blocks (write_dirent_append d e name));
  write_inode_inner ino i.

(** ** Nodes *)

(** A [SkyfsNode] is its number and its snapshot of the inode, which is the
    second half of the state of its operations. *)
Definition Node : Type := Z * SkyfsInode.
Definition open_node (ino : Z) : Io Fs Node := i ← read_inode_inner ino; ret (ino, i).

(** The kinds 0o100000 and 0o040000 of the mode, under 0o170000. *)
Definition S_IFMT : Z := 0xF000.
Definition S_IFREG : Z := 0x8000.
Definition S_IFDIR : Z := 0x4000.
Definition file_kind (i : SkyfsInode) : Z := Z.land (mode i) S_IFMT.
Definition is_dir (i : SkyfsInode) : bool := file_kind i =? S_IFDIR.

(** One block of an extent for [read_blocks_direct]: the logical index, the
    blocks read so far. *)
Definition direct_block (start first : Z) (n : nat) (a : Z * Z * list (list Z)) : Io Disk (Z * Z * list (list Z) + Z * list (list Z)) :=
  let '(b, logical, acc) := a in
  acc ← (if (first <=? logical) && (length acc <? n)%nat then buf ← read_block (u64 (start + b)); ret (acc ++ [buf]) else ret acc);
  ret (if (n <=? length acc)%nat then inr (logical + 1, acc) else inl (b + 1, logical + 1, acc)).

Fixpoint direct_extents (es : list Extent) (first : Z) (n : nat) (logical : Z) (acc : list (list Z)) : Io Disk (list (list Z)) :=
  match es with
  | [] => ret acc
  | e :: es =>
      r ← repeat_z (direct_block (e_start e) first n) (e_count e) (0, logical, acc);
      let '(logical, acc) := match r with inl (_, l, acc) => (l, acc) | inr la => la end in
      if (n <=? length acc)%nat then ret acc else direct_extents es first n logical acc
  end.

(** The same in the tree. *)
Definition direct_tree_block (start : Z) (n : nat) (a : Z * list (list Z)) : Io Fs (Z * list (list Z) + list (list Z)) :=
  let '(b, acc) := a in
  if (n <=? length acc)%nat then ret (inr acc)
  else buf ← on_dev (read_block (u64 (start + b))); ret (inl (b + 1, acc ++ [buf])).

Definition direct_tree_step (root : Z) (n : nat) (a : Z * list (list Z)) : Io Fs (Z * list (list Z) + list (list Z)) :=
  let '(idx, acc) := a in
  if (n <=? length acc)%nat then ret (inr acc)
  else
    e ← lookup_extent root idx;
    match e with
    | None => fail
    | Some e =>
        r ← repeat_z (direct_tree_block (e_start e) n) (e_count e) (0, acc);
        ret (inl (u64 (idx + e_count e), match r with inl (_, acc) | inr acc => acc end))
    end.

(** [n] blocks, from the logical index [first] on. *)
Definition read_blocks_direct (i : SkyfsInode) (first : Z) (n : nat) : Io Fs (list Z) :=
  with_fs (with_dev (
    if extent_count i =? BTREE_MODE then
      r ← repeat_z (direct_tree_step (field 0 8 (data i)) n) M64 (first, []);
      match r with inr acc => ret (mjoin acc) | inl _ => undefined end
    else
      match inline_extents i with
      | None => undefined
      | Some es =>
          acc ← on_dev (direct_extents es first n 0 []);
          if (length acc <? n)%nat then fail else ret (mjoin acc)
      end)).

(** [page_cache.rs] *)
Definition PAGE_SIZE : Z := 4096.
Definition MAX_CACHED_PAGES : nat := 4096.
Definition get_page (ino index : Z) (f : Fs) : option (list Z) := cache f !! (ino, index).
Definition insert_page (ino index : Z) (p : list Z) (f : Fs) : Fs :=
  let c := cache f in
  let c := if (MAX_CACHED_PAGES <=? base.size c)%nat then match evicted f c with Some k => delete k c | None => c end else c in
  set_cache (<[(ino, index) := p]> c) f.
Definition evict_inode (ino : Z) (f : Fs) : Fs := set_cache (filter (fun e => e.1.1 <> ino) (cache f)) f.

Definition read_page (ino : Z) (i : SkyfsInode) (idx : Z) : Io Fs (list Z) :=
  p ← gets (get_page ino idx);
  match p with
  | Some p => ret p
  | None => buf ← read_blocks_direct i idx 1; _ ← modify (insert_page ino idx buf); ret buf
  end.

Definition read_step (ino : Z) (i : SkyfsInode) (len : Z) (a : Z * list Z) : Io Fs (Z * list Z + list Z) :=
  let '(off, acc) := a in
  if len <=? off then ret (inr acc)
  else
    let page_offset := off mod PAGE_SIZE in
    let to_copy := Z.min (len - off) (PAGE_SIZE - page_offset) in
    p ← read_page ino i (off / PAGE_SIZE);
    ret (inl (off + to_copy, acc ++ slice (Z.to_nat page_offset) (Z.to_nat to_copy) p)).

(** Every iteration copies a byte at least, so [len] of them and one more are
    enough. *)
Definition node_read (ino : Z) (max_len : Z) : Io (Fs * SkyfsInode) (list Z) :=
  i ← the_inode;
  if negb (file_kind i =? S_IFREG) && negb (file_kind i =? S_IFDIR) then fail
  else
    let len := Z.min (size i) max_len in
    if size i <=? Z.of_nat MAX_INLINE_DATA then ret (take (Z.to_nat len) (data i))
    else
      r ← on_fs (repeat_z (read_step ino i len) (len + 1) (0, []));
      match r with inr acc => ret acc | inl _ => undefined end.

Definition node_write (ino : Z) (d : list Z) : Io (Fs * SkyfsInode) unit :=
  i ← the_inode;
  if negb (file_kind i =? S_IFREG) then fail
  else _ ← store_data_blocks d; i ← the_inode; on_fs (write_inode_inner ino i).

Record StatFs := mkStatFs { f_type : Z; f_bsize : Z; f_blocks : Z; f_bfree : Z; f_bavail : Z; f_files : Z; f_ffree : Z }.

Definition node_statfs : Io Fs StatFs :=
  with_fs (
    s ← gets sb;
    let total := total_blocks s in
    let used := total_blocks s in
    ret (mkStatFs SKYFS_MAGIC (Z.of_nat BLOCK_SIZE) total (Z.max 0 (total - used)) (Z.max 0 (total - used)) (inode_count s) 0)).

(** [if let Ok(x) = m { .. }] *)
Definition attempt {S A} (m : Io S A) : Io S (option A) := fun s =>
  match m s with
  | (Ok a, s) => (Ok (Some a), s)
  | (Err, s) => (Ok None, s)
  | (Panics, s) => (Panics, s)
  | (Undefined, s) => (Undefined, s)
  end.

Definition entries_of (ino : Z) : Io Fs (list (DirEntry * list Z)) :=
  i ← read_inode_inner ino;
  d ← read_file_data i;
  ret (parse_entries d).

Fixpoint open_children (es : list (DirEntry * list Z)) : Io Fs (list Node) :=
  match es with
  | [] => ret []
  | (e, name) :: es =>
      if bool_decide (name = dot) || bool_decide (name = dot_dot) then open_children es
      else n ← attempt (open_node (d_inode e)); ns ← open_children es; ret (option_list n ++ ns)
  end.

Definition node_children (ino : Z) : Io (Fs * SkyfsInode) (list Node) :=
  i ← the_inode;
  if negb (is_dir i) then fail else on_fs (es ← entries_of ino; open_children es).

Fixpoint open_first (es : list (DirEntry * list Z)) (name : list Z) : Io Fs (option Node) :=
  match es with
  | [] => ret None
  | (e, entry_name) :: es =>
      if bool_decide (entry_name = name) then
        n ← attempt (open_node (d_inode e));
        match n with Some n => ret (Some n) | None => open_first es name end
      else open_first es name
  end.

Definition find_child (ino : Z) (name : list Z) : Io Fs (option Node) :=
  es ← attempt (entries_of ino);
  match es with None => ret None | Some es => open_first es name end.

Definition node_create (ino : Z) (name : list Z) : Io Fs Node :=
  new_ino ← alloc_inode_inner;
  _ ← init_inode_inner new_ino (S_IFREG + 0x1A4);
  _ ← add_entry_impl ino name new_ino;
  open_node new_ino.

Definition node_mkdir (ino : Z) (name : list Z) : Io Fs Node :=
  new_ino ← alloc_inode_inner;
  _ ← init_inode_inner new_ino (S_IFDIR + 0x1ED);
  _ ← add_entry_impl ino name new_ino;
  '(buf, off) ← write_dirent (replicate MAX_INLINE_DATA 0) 0 (mkEntry new_ino 12 1 0) dot;
  '(buf, off) ← write_dirent buf off (mkEntry ino 12 2 0) dot_dot;
  i ← read_inode_inner new_ino;
  _ ← write_inode_inner new_ino (set_data (Z.of_nat off) (extent_count i) (splice 0 (take off buf) (data i)) i);
  open_node new_ino.

(** The entries that are kept, written again. *)
Definition rewrite_entries (es : list (DirEntry * list Z)) : list Z :=
  foldl (fun buf en => write_dirent_append buf en.1 en.2) [] es.

Definition node_unlink (ino : Z) (name : list Z) : Io (Fs * SkyfsInode) unit :=
  es ← on_fs (entries_of ino);
  if negb (existsb (fun en => bool_decide (en.2 = name)) es) then fail
  else
    _ ← store_data_blocks (rewrite_entries (filter (fun en => en.2 <> name) es));
    i ← the_inode;
    on_fs (write_inode_inner ino i).

(** ** Formatting and mounting *)

Definition div_ceil (a b : Z) : Z := (a + b - 1) / b.

(** The layout that [format] gives a device of [total] blocks. *)
Definition layout (total : Z) : Superblock :=
  let journal_blocks := 64 in
  let inode_count := Z.max 256 (Z.min 65536 (total / 4)) in
  let inode_blocks := div_ceil inode_count inodes_per_block in
  let bitmap_blocks := div_ceil total (Z.of_nat BLOCK_SIZE * 8) in
  let bitmap_start := 1 + journal_blocks in
  mkSuper SKYFS_MAGIC SKYFS_VERSION (Z.of_nat BLOCK_SIZE) total 1 journal_blocks bitmap_start bitmap_blocks
    (bitmap_start + bitmap_blocks) inode_count inode_blocks 1 STATE_CLEAN.

Definition data_start (s : Superblock) : Z := inode_start s + inode_blocks s.

(** The bits below [n], in one block. *)
Definition used_bits (n : nat) : list Z :=
  foldl (fun buf b => set_bit (b / 8 mod BLOCK_SIZE) (Z.of_nat (b mod 8)) buf) (replicate BLOCK_SIZE 0) (seq 0 n).

Definition write_bitmap (start : Z) (buf : list Z) (bm : Z) : Io Disk (Z + unit) :=
  _ ← write_block (start + bm) buf; ret (inl (bm + 1)).

Definition format : Io Disk unit := fun d =>
  match sector_count d with
  | None => (Err, d)
  | Some sectors =>
      let total := sectors / SECTORS_PER_BLOCK in
      if total <? 128 then (Err, d)
      else
        let s := layout total in
        (_ ← write_block 0 (in_block (superblock_bytes s));
         _ ← Journal.init_device 1 (journal_blocks s);
         _ ← repeat_z (write_bitmap (bitmap_start s) (used_bits (Z.to_nat (data_start s)))) (bitmap_blocks s) 0;
         let root := mkInode (S_IFDIR + 0x1ED) 0 0 0 0 0 0 2 0 0 0 (replicate MAX_INLINE_DATA 0) in
         let root_block := inode_start s + 1 / inodes_per_block in
         let root_off := Z.to_nat (1 mod inodes_per_block * Z.of_nat INODE_SIZE) in
         buf ← read_block root_block;
         _ ← write_block root_block (splice root_off (take INODE_SIZE (inode_bytes root)) buf);
         '(rd, off) ← write_dirent (replicate MAX_INLINE_DATA 0) 0 (mkEntry 1 12 1 0) dot;
         '(rd, off) ← write_dirent rd off (mkEntry 1 12 2 0) dot_dot;
         buf ← read_block root_block;
         let root := inode_of (drop root_off buf) in
         let root := set_data (Z.of_nat off) (extent_count root) (splice 0 (take off rd) (data root)) root in
         write_block root_block (splice root_off (take INODE_SIZE (inode_bytes root)) buf)) d
  end.

(** [SkyFS::set_state]: the byte 38 of the first block. *)
Definition set_fs_state (st : Z) : Io Disk unit :=
  buf ← read_block 0;
  write_block 0 (<[38%nat := st]> buf).

(** Gives the super block and the journal of the file system that is mounted. *)
Definition mount : Io Disk (Superblock * Journal) :=
  buf ← read_block 0;
  let s := superblock_of buf in
  if negb (magic s =? SKYFS_MAGIC) || negb (version s =? SKYFS_VERSION) then fail
  else
    let j := Journal.new (journal_start s) (journal_blocks s) in
    _ ← ignore (fun d => let '(r, (d, _)) := Journal.recover_from_dev (d, j) in (r, d));
    _ ← (if negb (state s =? STATE_DIRTY) then ignore (set_fs_state STATE_DIRTY) else ret tt);
    ret (s, j).

Definition mounted (d : Disk) (s : Superblock) (j : Journal) : Fs := mkFs d s j false false ∅ (fun _ => None) [].

(** ** The typed entries of the journal *)

Definition ENTRY_HEADER_SIZE : nat := 8.

(** The journal that a call makes of the stored one; [keep] stores its counters
    again. *)
Definition fresh_journal (f : Fs) : Journal :=
  mkJournal (journal_start (sb f)) (journal_blocks (sb f)) (sequence (fs_journal f)) (next_free (fs_journal f)).
Definition with_fresh_journal {A} (keep : Res A -> Journal -> Journal -> Journal) (m : Io (Disk * Journal) A) : Io Fs A := fun f =>
  let '(r, (d, j)) := m (dev f, fresh_journal f) in (r, set_journal (keep r j (fs_journal f)) (set_dev d f)).

Definition journal_begin : Io Fs Z :=
  with_fs (with_dev (with_fresh_journal
    (fun r j old => match r with Ok _ => mkJournal (start_block old) (num_blocks old) (sequence j) (next_free j) | _ => old end)
    Journal.begin_transaction)).

Definition journal_write_entry (txn target_fs_block entry_type : Z) (d : list Z) : Io Fs unit :=
  if (BLOCK_SIZE - ENTRY_HEADER_SIZE <? length d)%nat then fail
  else
    let ehdr := le_bytes 2 entry_type ++ le_bytes 2 (u16 (Z.of_nat (length d))) ++ le_bytes 4 0 in
    let payload := in_block (ehdr ++ d) in
    _ ← with_fs (with_dev (with_fresh_journal
      (fun _ j old => mkJournal (start_block old) (num_blocks old) (sequence old) (next_free j))
      (Journal.journal_data txn target_fs_block payload)));
    ret tt.

Definition journal_commit (txn : Z) : Io Fs unit :=
  with_fs (with_dev (with_fresh_journal (fun _ _ old => old) (Journal.commit_transaction txn))).

Definition skyfs_journal_recover : Io Fs Z :=
  with_fs (with_dev (fun f =>
    let '(r, (d, _)) := Journal.recover_from_dev (dev f, Journal.new (journal_start (sb f)) (journal_blocks (sb f))) in
    (r, set_dev d f))).
