(* ===== verification/SkyFsSound.v ===== *)
(** * What SkyFS guarantees

    Theorems on [SkyFs]: allocation is exact and least first; what is written
    to a file is read back, also after the inode went to the disk and came
    back, and no used block is touched; directories are lists of entries. *)

From stdpp Require Import functions.
From S2P Require Import Prelude UserAccess SkyDisk SkyFs.

(** ** Blocks *)

Abbreviation B61 := 2305843009213693952.

(** A number of a block whose sectors have 64-bit numbers. *)
Definition in_range (b : Z) : Prop := 0 <= b < B61.

Lemma block_to_sector_range b k : in_range b -> (k < 8)%nat -> u64 (block_to_sector b + Z.of_nat k) = 8 * b + Z.of_nat k.
Proof.
  unfold in_range, block_to_sector, SECTORS_PER_BLOCK. intros Hb Hk.
  rewrite (u64_small (b * 8)) by (unfold is_u64; lia). rewrite u64_small by (unfold is_u64; lia). lia.
Qed.

Lemma write_sectors_ok n : forall i buf d,
  (write_sectors i n buf d).1 = Ok tt -> 0 <= i -> i + Z.of_nat n <= M64 ->
  forall k, (k < n)%nat -> sector (write_sectors i n buf d).2 (i + Z.of_nat k) = slice (SECTOR_SIZE * k) SECTOR_SIZE buf.
Proof.
  induction n as [|n IH]; intros i buf d; [lia|]. cbn [write_sectors]. unfold mbind, Io_bind, write_sector.
  destruct (write_fails d (u64 i)); [done|]. intros Hok Hi Hn k Hk.
  set (d1 := mkDisk _ _ _ _) in *. destruct k as [|k].
  - pose proof (write_sectors_spec n (i + 1) (drop SECTOR_SIZE buf) d1) as Hs.
    destruct (write_sectors _ _ _ d1) as [r d2]. destruct Hs as (_ & _ & Hs). rewrite Z.add_0_r. cbn [snd].
    destruct (Hs i) as [->|(k & Hk' & Heq & _)].
    + unfold d1. cbn [sector]. rewrite (u64_small i) by (unfold is_u64; lia). by rewrite fn_lookup_insert.
    + rewrite u64_small in Heq by (unfold is_u64; lia). lia.
  - replace (i + Z.of_nat (S k)) with (i + 1 + Z.of_nat k) by lia.
    rewrite IH by (done || lia). unfold slice. rewrite drop_drop. do 2 f_equal. lia.
Qed.

(** The sectors are determined by their contents, and by the slices of a buffer. *)
Lemma sectors_from_ext d d' n : forall i,
  (forall k, (k < n)%nat -> sector d' (u64 (i + Z.of_nat k)) = sector d (u64 (i + Z.of_nat k))) ->
  sectors_from d' i n = sectors_from d i n.
Proof.
  induction n as [|n IH]; intros i Hs; [done|]. cbn [sectors_from].
  pose proof (Hs 0%nat ltac:(lia)) as H0. rewrite Z.add_0_r in H0. rewrite H0. f_equal. apply IH. intros k Hk.
  replace (i + 1 + Z.of_nat k) with (i + Z.of_nat (S k)) by lia. apply Hs. lia.
Qed.

Lemma sectors_from_buf d n : forall i buf,
  length buf = (SECTOR_SIZE * n)%nat ->
  (forall k, (k < n)%nat -> sector d (u64 (i + Z.of_nat k)) = slice (SECTOR_SIZE * k) SECTOR_SIZE buf) ->
  sectors_from d i n = buf.
Proof.
  induction n as [|n IH]; intros i buf Hl Hs; cbn [sectors_from].
  { rewrite Nat.mul_0_r in Hl. by apply nil_length_inv in Hl. }
  pose proof (Hs 0%nat ltac:(lia)) as H0. rewrite Z.add_0_r, Nat.mul_0_r in H0. unfold slice in H0. rewrite drop_0 in H0.
  rewrite H0, (IH (i + 1) (drop SECTOR_SIZE buf)); [apply take_drop|rewrite length_drop; lia|].
  intros k Hk. replace (i + 1 + Z.of_nat k) with (i + Z.of_nat (S k)) by lia. rewrite Hs by lia.
  unfold slice. rewrite drop_drop. do 2 f_equal. lia.
Qed.

Lemma lookup_block d b j : disk_ok d -> (j < BLOCK_SIZE)%nat ->
  block d b !! j = sector d (u64 (block_to_sector b + Z.of_nat (j / SECTOR_SIZE))) !! (j mod SECTOR_SIZE)%nat.
Proof.
  intros Hd Hj. pose proof (Nat.div_mod_eq j SECTOR_SIZE) as Hj'. pose proof (Nat.mod_upper_bound j SECTOR_SIZE ltac:(done)) as Hm.
  assert (Hq : (j / SECTOR_SIZE < 8)%nat) by (apply Nat.Div0.div_lt_upper_bound; exact Hj).
  rewrite <- (slice_sectors d 8 (block_to_sector b) (j / SECTOR_SIZE) Hd Hq), lookup_slice, decide_True by done.
  fold (block d b). f_equal. exact Hj'.
Qed.

(** Writing a block: the others stay, and it holds what was written; each byte
    is the old or the new one even when the write fails on the way. *)
Lemma write_block_frame b buf d :
  disk_ok d -> in_range b -> length buf = BLOCK_SIZE -> bytes buf ->
  let '(r, d') := write_block b buf d in
  (r = Ok tt \/ r = Err) /\ disk_ok d' /\ same_device d d' /\
  (forall b', in_range b' -> b' <> b -> block d' b' = block d b') /\ (r = Ok tt -> block d' b = buf) /\
  (forall j, block d' b !! j = block d b !! j \/ block d' b !! j = buf !! j).
Proof.
  intros Hd Hb Hl Hbytes. pose proof (write_block_spec b buf d) as Hs.
  pose proof (write_sectors_ok 8 (block_to_sector b) buf d) as Hok.
  unfold write_block in *. rewrite Hl in *. change (BLOCK_SIZE <? BLOCK_SIZE)%nat with false in *. cbv iota in *.
  destruct (write_sectors _ _ _ _) as [r d']. cbn [fst snd] in Hok. destruct Hs as (Hdev & Hr & Hs).
  split; [done|].
  assert (Hd' : disk_ok d').
  { intros s. destruct (Hs s) as [->|(k & Hk & _ & ->)]; [apply Hd|]. split; [|by apply Forall_slice].
    apply length_slice. rewrite Hl. unfold BLOCK_SIZE, SECTOR_SIZE. lia. }
  split; [done|]. split; [done|]. split_and!.
  - intros b' Hb' Hne. apply sectors_from_ext. intros k Hk. destruct (Hs (u64 (block_to_sector b' + Z.of_nat k))) as [->|(k' & Hk' & Heq & _)]; [done|].
    rewrite !block_to_sector_range in Heq by done. lia.
  - intros ->. pose proof Hb as [? ?]. assert (Hbs : block_to_sector b = 8 * b)
      by (unfold block_to_sector, SECTORS_PER_BLOCK; rewrite u64_small by (unfold is_u64; lia); lia).
    rewrite Hbs in *. specialize (Hok eq_refl ltac:(lia) ltac:(lia)).
    unfold block. apply sectors_from_buf; [done|]. intros k Hk. rewrite <- Hok by done.
    rewrite Hbs, u64_small by (unfold is_u64; lia). done.
  - intros j. destruct (decide (j < BLOCK_SIZE)%nat) as [Hj|Hj].
    2: { left. rewrite !lookup_ge_None_2; rewrite ?block_length; (done || lia). }
    rewrite !lookup_block by done. pose proof (Nat.div_mod_eq j SECTOR_SIZE) as Hj'.
    destruct (Hs (u64 (block_to_sector b + Z.of_nat (j / SECTOR_SIZE)))) as [->|(k & Hk & Heq & ->)]; [by left|right].
    assert (Hq : (j / SECTOR_SIZE < 8)%nat) by (apply Nat.Div0.div_lt_upper_bound; exact Hj).
    rewrite !block_to_sector_range in Heq by done. assert (k = j / SECTOR_SIZE)%nat as -> by lia.
    rewrite lookup_slice, decide_True by (apply Nat.mod_upper_bound; done). f_equal. lia.
Qed.

(** No read or write of the first [n] blocks fails. *)
Definition healthy (n : Z) (d : Disk) : Prop :=
  forall b k, 0 <= b < n -> 0 <= k < 8 -> read_fails d (u64 (8 * b + k)) = false /\ write_fails d (u64 (8 * b + k)) = false.

Lemma healthy_mono n m d : m <= n -> healthy n d -> healthy m d.
Proof. intros Hm Hh b k Hb. apply Hh. lia. Qed.

Lemma read_sectors_fail n : forall i d, (read_sectors i n d).1 = Err -> exists k, 0 <= k < Z.of_nat n /\ read_fails d (u64 (i + k)) = true.
Proof.
  induction n as [|n IH]; intros i d; [done|]. cbn [read_sectors]. rewrite run_bind. unfold read_sector.
  destruct (read_fails d (u64 i)) eqn:Hf; [exists 0; rewrite Z.add_0_r; split; [lia|done]|]. rewrite run_bind. specialize (IH (i + 1) d).
  destruct (read_sectors (i + 1) n d) as [[] d1]; try done. intros _. destruct (IH eq_refl) as (k & Hk & Hfk).
  exists (k + 1). split; [lia|]. by replace (i + (k + 1)) with (i + 1 + k) by lia.
Qed.

Lemma write_sectors_fail n : forall i buf d, (write_sectors i n buf d).1 = Err -> exists k, 0 <= k < Z.of_nat n /\ write_fails d (u64 (i + k)) = true.
Proof.
  induction n as [|n IH]; intros i buf d; [done|]. cbn [write_sectors]. rewrite run_bind. unfold write_sector.
  destruct (write_fails d (u64 i)) eqn:Hf; [exists 0; rewrite Z.add_0_r; split; [lia|done]|]. intros Hr.
  destruct (IH _ _ _ Hr) as (k & Hk & Hfk). exists (k + 1). split; [lia|]. by replace (i + (k + 1)) with (i + 1 + k) by lia.
Qed.

Lemma sector_number b k : u64 (block_to_sector b + k) = u64 (8 * b + k).
Proof. unfold block_to_sector, SECTORS_PER_BLOCK, u64. rewrite Zplus_mod_idemp_l. f_equal. lia. Qed.

Lemma read_block_healthy n b d : 0 <= b < n -> read_block b d = (Err, d) -> ~ healthy n d.
Proof.
  intros Hb Hr Hh. destruct (read_sectors_fail 8 (block_to_sector b) d) as (k & Hk & Hf); [unfold read_block in Hr; by rewrite Hr|].
  rewrite sector_number in Hf. by rewrite (proj1 (Hh b k Hb Hk)) in Hf.
Qed.

Lemma write_block_healthy n b buf d : 0 <= b < n -> length buf = BLOCK_SIZE -> (write_block b buf d).1 = Err -> ~ healthy n d.
Proof.
  intros Hb Hl Hr Hh. unfold write_block in Hr. rewrite Hl, Nat.ltb_irrefl in Hr.
  apply write_sectors_fail in Hr as (k & Hk & Hf). rewrite sector_number in Hf. by rewrite (proj2 (Hh b k Hb Hk)) in Hf.
Qed.

(** ** The bitmap *)

Abbreviation BITS := 32768.

Definition bitmap_area (s : Superblock) (b : Z) : Prop := bitmap_start s <= b < bitmap_start s + bitmap_blocks s.

(** The bitmap has a bit for each block, and few enough blocks that no number
    wraps around. *)
Definition bitmap_ok (s : Superblock) : Prop :=
  0 <= bitmap_start s /\ 0 <= bitmap_blocks s /\ bitmap_start s + bitmap_blocks s <= 2 ^ 40 /\
  bitmap_start s + bitmap_blocks s <= total_blocks s <= bitmap_blocks s * BITS.

(** The bit of block [n]. *)
Definition used (s : Superblock) (d : Disk) (n : Z) : bool :=
  Z.testbit (block d (bitmap_start s + n / BITS) !!! Z.to_nat (n / 8 mod 4096)) (n mod 8).

(** What an allocation may do: the blocks outside the bitmap stay, and used
    blocks stay used. *)
Definition alloc_frame (s : Superblock) (d d' : Disk) : Prop :=
  disk_ok d' /\ same_device d d' /\ (forall b, in_range b -> ~ bitmap_area s b -> block d' b = block d b) /\
  (forall n, 0 <= n < bitmap_blocks s * BITS -> used s d n = true -> used s d' n = true).

(** ... and below [total_blocks] exactly [ob] becomes used. *)
Definition alloc_exact (s : Superblock) (d d' : Disk) (ob : option Z) : Prop :=
  alloc_frame s d d' /\ forall n, 0 <= n < total_blocks s -> used s d' n = used s d n || bool_decide (ob = Some n).

Lemma same_device_trans d1 d2 d3 : same_device d1 d2 -> same_device d2 d3 -> same_device d1 d3.
Proof. unfold same_device. intuition congruence. Qed.

Lemma alloc_frame_refl s d : disk_ok d -> alloc_frame s d d.
Proof. repeat split; auto; apply H. Qed.

Lemma alloc_frame_trans s d1 d2 d3 : alloc_frame s d1 d2 -> alloc_frame s d2 d3 -> alloc_frame s d1 d3.
Proof.
  intros (_ & Hd & Hb & Hu) (H0 & Hd' & Hb' & Hu'). split; [done|]. split; [by eapply same_device_trans|].
  split; [intros b Hr Hn; by rewrite Hb', Hb|auto].
Qed.

Lemma alloc_exact_trans s d1 d2 d3 ob : alloc_exact s d1 d2 None -> alloc_exact s d2 d3 ob -> alloc_exact s d1 d3 ob.
Proof.
  intros [Hf He] [Hf' He']. split; [by eapply alloc_frame_trans|]. intros n Hn. rewrite He', He by done.
  by rewrite bool_decide_eq_false_2, orb_false_r by done.
Qed.

(** The bit [k] of the byte [i] of the bitmap block [b]. *)
Definition bit_number (b : Z) (i : nat) (k : Z) : Z := (b * 4096 + Z.of_nat i) * 8 + k.

Lemma bit_number_parts b i k : (i < 4096)%nat -> 0 <= k < 8 ->
  bit_number b i k / BITS = b /\ bit_number b i k / 8 mod 4096 = Z.of_nat i /\ bit_number b i k mod 8 = k.
Proof.
  intros Hi Hk. unfold bit_number.
  assert (H8 : ((b * 4096 + Z.of_nat i) * 8 + k) / 8 = b * 4096 + Z.of_nat i) by (Z.div_mod_to_equations; lia).
  split_and!; [Z.div_mod_to_equations; lia| |Z.div_mod_to_equations; lia]. rewrite H8. Z.div_mod_to_equations; lia.
Qed.

Lemma used_number s d b i k : (i < 4096)%nat -> 0 <= k < 8 ->
  used s d (bit_number b i k) = Z.testbit (block d (bitmap_start s + b) !!! i) k.
Proof.
  intros Hi Hk. destruct (bit_number_parts b i k Hi Hk) as (H1 & H2 & H3). unfold used. by rewrite H1, H2, H3, Nat2Z.id.
Qed.

(** Every number is one of these. *)
Lemma number_parts n : 0 <= n -> exists i k, (i < 4096)%nat /\ 0 <= k < 8 /\ n = bit_number (n / BITS) i k.
Proof.
  intros Hn. exists (Z.to_nat (n / 8 mod 4096)), (n mod 8). unfold bit_number.
  pose proof (Z.mod_pos_bound (n / 8) 4096). pose proof (Z.mod_pos_bound n 8). split_and!; [lia..|].
  rewrite Z2Nat.id by lia. Z.div_mod_to_equations; lia.
Qed.

Lemma set_bit_bit i k buf j q : (i < length buf)%nat -> 0 <= k < 8 -> 0 <= q ->
  Z.testbit (set_bit i k buf !!! j) q = Z.testbit (buf !!! j) q || ((j =? i)%nat && (q =? k)).
Proof.
  intros Hi Hk Hq. unfold set_bit. destruct (Nat.eqb_spec j i) as [->|Hne].
  - rewrite list_lookup_total_alter_eq by done. cbv beta. rewrite Z.lor_spec. f_equal. rewrite Z.shiftl_spec by done.
    destruct (Z.eqb_spec q k) as [->|Hqk]; [by rewrite Z.sub_diag|].
    destruct (Z.lt_ge_cases q k); [by apply Z.testbit_neg_r; lia|]. change 1 with (2 ^ 0). apply Z.pow2_bits_false. lia.
  - rewrite list_lookup_total_alter_ne by done. by rewrite orb_false_r.
Qed.

Lemma set_bit_bytes i k buf : 0 <= k < 8 -> bytes buf -> bytes (set_bit i k buf).
Proof.
  intros Hk Hb. unfold set_bit. apply Forall_alter; [done|]. intros x Hx Hu.
  assert (Hle : 0 <= Z.lor x (Z.shiftl 1 k)) by (apply Z.lor_nonneg; split; [apply Hu|apply Z.shiftl_nonneg; lia]).
  unfold is_u8. split; [done|]. destruct (Z.eq_dec (Z.lor x (Z.shiftl 1 k)) 0) as [->|Hnz]; [lia|].
  apply (Z.log2_lt_pow2 _ 8); [lia|]. rewrite Z.log2_lor by (apply Hu || (apply Z.shiftl_nonneg; lia)).
  apply Z.max_lub_lt.
  - destruct (Z.eq_dec x 0) as [->|]; [cbn; lia|]. apply Z.log2_lt_pow2; unfold is_u8 in Hu; [lia|]. change (2 ^ 8) with 256. lia.
  - rewrite Z.log2_shiftl by lia. cbn. lia.
Qed.

Lemma length_set_bit i k buf : length (set_bit i k buf) = length buf.
Proof. apply length_alter. Qed.

Lemma block_bytes d b : disk_ok d -> bytes (block d b).
Proof.
  intros Hd. apply Forall_lookup. intros j x Hj. pose proof (lookup_lt_Some _ _ _ Hj) as Hlt.
  rewrite block_length in Hlt by done. rewrite lookup_block in Hj by done.
  exact (proj1 (Forall_lookup _ _) (proj2 (Hd _)) _ _ Hj).
Qed.

#[local] Hint Resolve block_bytes set_bit_bytes : word.

(** Setting a bit and writing its block back. *)
Lemma set_bit_write s d b i k :
  disk_ok d -> bitmap_ok s -> 0 <= b < bitmap_blocks s -> (i < 4096)%nat -> 0 <= k < 8 ->
  let buf := block d (bitmap_start s + b) in
  let '(r, d') := write_block (u64 (bitmap_start s + b)) (set_bit i k buf) d in
  (r = Ok tt \/ r = Err) /\ alloc_frame s d d' /\
  (r = Ok tt -> block d' (bitmap_start s + b) = set_bit i k buf /\
    forall n, 0 <= n < bitmap_blocks s * BITS -> used s d' n = used s d n || (n =? bit_number b i k)).
Proof.
  intros Hd Hs Hb Hi Hk buf. destruct Hs as (H1 & H2 & H3 & H4). change (2 ^ 40) with 1099511627776 in H3.
  rewrite u64_small by (unfold is_u64; lia).
  assert (Hl : length buf = 4096%nat) by (by apply block_length).
  pose proof (write_block_frame (bitmap_start s + b) (set_bit i k buf) d Hd ltac:(unfold in_range; lia)
    ltac:(by rewrite length_set_bit) ltac:(apply set_bit_bytes; [done|by apply block_bytes])) as Hw.
  destruct (write_block _ _ d) as [r d']. destruct Hw as (Hr & Hd' & Hdev & Hne & Hok & Hby).
  split; [done|]. split.
  - split; [done|]. split; [done|]. split; [intros b' Hb' Hn; apply Hne; [done|]; intros ->; apply Hn; unfold bitmap_area; lia|].
    intros n Hn Hu. unfold used in *. pose proof (Z.div_lt_upper_bound n BITS (bitmap_blocks s) ltac:(lia) ltac:(lia)).
    pose proof (Z.div_pos n BITS ltac:(lia) ltac:(lia)).
    destruct (decide (bitmap_start s + n / BITS = bitmap_start s + b)) as [Heq|Hnb].
    2: { rewrite Hne by (done || unfold in_range; lia). done. }
    rewrite Heq in *. set (j := Z.to_nat (n / 8 mod 4096)) in *. rewrite !list_lookup_total_alt in *.
    destruct (Hby j) as [->| ->]; [done|]. rewrite <- list_lookup_total_alt. fold buf in Hu. rewrite <- list_lookup_total_alt in Hu.
    rewrite set_bit_bit by (lia || (pose proof (Z.mod_pos_bound n 8); lia)). by rewrite Hu.
  - intros Hrok. specialize (Hok Hrok). split; [done|]. intros n Hn.
    destruct (number_parts n ltac:(lia)) as (j & q & Hj & Hq & Hnum). set (b' := n / BITS) in *. rewrite Hnum.
    rewrite !used_number by done. destruct (decide (b' = b)) as [->|Hnb].
    + rewrite Hok. fold buf. rewrite set_bit_bit by lia. f_equal. unfold bit_number.
      destruct (Nat.eqb_spec j i), (Z.eqb_spec q k); cbn [andb]; symmetry; (apply Z.eqb_eq + apply Z.eqb_neq); lia.
    + assert (0 <= b' < bitmap_blocks s)
        by (unfold b'; split; [apply Z.div_pos; lia|apply Z.div_lt_upper_bound; lia]).
      replace (_ =? _) with false by (symmetry; apply Z.eqb_neq; unfold bit_number; lia). rewrite orb_false_r.
      by rewrite Hne by (unfold in_range; lia).
Qed.

Lemma land_bit x k : 0 <= k -> (Z.land x (Z.shiftl 1 k) =? 0) = negb (Z.testbit x k).
Proof.
  intros Hk. destruct (Z.testbit x k) eqn:Hb; cbn [negb].
  - apply Z.eqb_neq. intros H0. apply (f_equal (fun y => Z.testbit y k)) in H0.
    rewrite Z.land_spec, Hb, Z.shiftl_spec, Z.sub_diag, Z.testbit_0_l in H0 by done. done.
  - apply Z.eqb_eq. apply Z.bits_inj'. intros q Hq. rewrite Z.land_spec, Z.testbit_0_l, Z.shiftl_spec by done.
    destruct (Z.eq_dec q k) as [->|]; [by rewrite Hb|]. rewrite andb_comm.
    destruct (Z.lt_ge_cases q k); [by rewrite (Z.testbit_neg_r 1) by lia|].
    change 1 with (2 ^ 0). by rewrite Z.pow2_bits_false by lia.
Qed.

Lemma used_range s b i k : bitmap_ok s -> 0 <= b < bitmap_blocks s -> (i < 4096)%nat -> 0 <= k < 8 ->
  0 <= bit_number b i k < bitmap_blocks s * BITS /\
  u64 (u64 (u64 (b * Z.of_nat BLOCK_SIZE) + Z.of_nat i) * 8 + k) = bit_number b i k.
Proof.
  intros (H1 & H2 & H3 & H4) Hb Hi Hk. change (2 ^ 40) with 1099511627776 in H3. change (Z.of_nat BLOCK_SIZE) with 4096.
  unfold bit_number. split; [nia|]. rewrite (u64_small (b * 4096)) by (unfold is_u64; lia).
  rewrite (u64_small (b * 4096 + _)) by (unfold is_u64; lia). apply u64_small. unfold is_u64. lia.
Qed.

(** Setting a free bit, seen from the disk [d0] before the search. *)
Lemma alloc_exact_set s d0 d d' n :
  alloc_exact s d0 d None -> alloc_frame s d d' ->
  (forall m, 0 <= m < bitmap_blocks s * BITS -> used s d' m = used s d m || (m =? n)) -> bitmap_ok s ->
  alloc_exact s d0 d' (if n <? total_blocks s then Some n else None).
Proof.
  intros [Hf He] Hf' Hu (_ & _ & _ & Ht). split; [by eapply alloc_frame_trans|]. intros m Hm.
  rewrite Hu, He by lia. rewrite (bool_decide_eq_false_2 (None = Some m)), orb_false_r by done. f_equal.
  destruct (Z.ltb_spec n (total_blocks s)); destruct (Z.eqb_spec m n) as [->|]; symmetry;
    (apply bool_decide_eq_true + apply bool_decide_eq_false); (done || congruence || lia).
Qed.

(** The search ended with an error of the device. *)
Definition alloc_failed (s : Superblock) (d0 d : Disk) : Prop := alloc_frame s d0 d /\ ~ healthy (total_blocks s) d0.

Lemma same_device_healthy n d d' : same_device d d' -> healthy n d -> healthy n d'.
Proof. intros (_ & H1 & H2) Hh b k. rewrite H1, H2. apply Hh. Qed.

Lemma alloc_failed_trans s d0 d d' : alloc_frame s d0 d -> alloc_frame s d d' -> ~ healthy (total_blocks s) d -> alloc_failed s d0 d'.
Proof.
  intros Hf Hf' Hn. split; [by eapply alloc_frame_trans|]. intros Hh. apply Hn. by eapply same_device_healthy; [apply Hf|].
Qed.

Lemma bitmap_below s b : bitmap_ok s -> 0 <= b < bitmap_blocks s -> 0 <= u64 (bitmap_start s + b) < total_blocks s.
Proof.
  intros (H1 & H2 & H3 & H4) Hb. change (2 ^ 40) with 1099511627776 in H3. rewrite u64_small by (unfold is_u64; lia). lia.
Qed.

Section search.
Context (s : Superblock) (d0 : Disk) (Hd0 : disk_ok d0) (Hs : bitmap_ok s).

(** The block [n] is the first that is free. *)
Definition first_free (lo n : Z) : Prop :=
  n < total_blocks s /\ used s d0 n = false /\ forall m, lo <= m < n -> used s d0 m = true.

Definition all_used (lo hi : Z) : Prop := forall m, lo <= m < hi -> m < total_blocks s -> used s d0 m = true.

(** A search from the bit [lo] to [hi] has found nothing and is in the bitmap
    block [b], or has found the first free block. *)
Definition searched (b lo hi : Z) (r : list Z + Z) (d : Disk) : Prop :=
  match r with
  | inl buf => alloc_exact s d0 d None /\ buf = block d (bitmap_start s + b) /\ all_used lo hi
  | inr n => alloc_exact s d0 d (Some n) /\ lo <= n < hi /\ first_free lo n
  end.

Lemma alloc_bits_ok b i byte :
  0 <= b < bitmap_blocks s -> (i < 4096)%nat ->
  (forall k, 0 <= k < 8 -> bit_number b i k < total_blocks s -> Z.testbit byte k = used s d0 (bit_number b i k)) ->
  forall m k d, 0 <= k -> k + Z.of_nat m = 8 -> alloc_exact s d0 d None ->
  io_ok (searched b (bit_number b i k) (bit_number b i 8)) (alloc_failed s d0)
    (alloc_bits s b i byte (seqZ k (Z.of_nat m)) (block d (bitmap_start s + b)) d).
Proof.
  intros Hb Hi Hbyte. induction m as [|m IH]; intros k d Hk Hm Hd.
  { cbn. assert (k = 8) as -> by lia. split; [done|]. split; [done|]. intros n Hn. lia. }
  rewrite seqZ_cons by lia. cbn [alloc_bits]. rewrite land_bit by done.
  replace (Z.pred (Z.of_nat (S m))) with (Z.of_nat m) by lia. replace (Z.succ k) with (k + 1) by lia.
  destruct (used_range s b i k Hs Hb Hi ltac:(lia)) as [Hrange Hnum].
  assert (Hnext : forall r d', searched b (bit_number b i (k + 1)) (bit_number b i 8) r d' ->
    (bit_number b i k < total_blocks s -> used s d0 (bit_number b i k) = true) ->
    searched b (bit_number b i k) (bit_number b i 8) r d').
  { assert (Hsucc : bit_number b i (k + 1) = bit_number b i k + 1) by (unfold bit_number; lia). rewrite Hsucc.
    intros [buf|n] d' Hsr Hu; cbn in *.
    - destruct Hsr as (H1 & H2 & H3). split; [done|]. split; [done|]. intros q Hq Hqt.
      destruct (Z.eq_dec q (bit_number b i k)) as [->|]; [auto|]. apply H3; lia.
    - destruct Hsr as (H1 & H2 & H3 & H4 & H5). split; [done|]. split; [lia|]. split; [done|]. split; [done|]. intros q Hq.
      destruct (Z.eq_dec q (bit_number b i k)) as [->|]; [apply Hu; lia|]. apply H5; lia. }
  destruct (Z.testbit byte k) eqn:Hbit; cbn [negb].
  { pose proof (IH (k + 1) d ltac:(lia) ltac:(lia) Hd) as H. unfold io_ok in *.
    destruct (alloc_bits _ _ _ _ _ _ d) as [[r| | |] d']; try done. apply Hnext; [done|].
    intros Ht. rewrite <- Hbyte by lia. done. }
  rewrite Hnum. unfold mbind, Io_bind.
  pose proof (set_bit_write s d b i k (proj1 (proj1 Hd)) Hs Hb Hi ltac:(lia)) as Hw. cbv zeta in Hw.
  pose proof (write_block_healthy (total_blocks s) (u64 (bitmap_start s + b)) (set_bit i k (block d (bitmap_start s + b))) d
    (bitmap_below s b Hs Hb) ltac:(rewrite length_set_bit; by apply block_length, Hd)) as Hh.
  destruct (write_block _ _ d) as [r d1]. destruct Hw as (Hr & Hf & Hok).
  destruct Hr as [-> | ->]; [|by apply (alloc_failed_trans _ _ _ _ (proj1 Hd) Hf), Hh].
  destruct (Hok eq_refl) as [Hblk Hused]. pose proof (alloc_exact_set s d0 d d1 _ Hd Hf Hused Hs) as Hex.
  destruct (Z.ltb_spec (bit_number b i k) (total_blocks s)) as [Hlt|Hge].
  - cbn. split; [done|]. split; [unfold bit_number; lia|]. split; [done|]. rewrite <- Hbyte by lia. split; [done|]. intros; lia.
  - rewrite <- Hblk. pose proof (IH (k + 1) d1 ltac:(lia) ltac:(lia) Hex) as H. unfold io_ok in *.
    destruct (alloc_bits _ _ _ _ _ _ d1) as [[r| | |] d']; try done. apply Hnext; [done|lia].
Qed.

(** The bits of a byte that was just loaded. *)
Lemma loaded_byte b i d : (i < 4096)%nat -> 0 <= b -> alloc_exact s d0 d None ->
  forall k, 0 <= k < 8 -> bit_number b i k < total_blocks s ->
  Z.testbit (block d (bitmap_start s + b) !!! i) k = used s d0 (bit_number b i k).
Proof.
  intros Hi Hb [_ Hd] k Hk Ht. rewrite <- used_number by done. rewrite Hd by (split; [unfold bit_number; lia|done]).
  by rewrite (bool_decide_eq_false_2 (None = _)), orb_false_r by done.
Qed.

(** Two searches, one after the other. *)
Lemma searched_trans b lo mid hi r d : lo <= mid <= hi -> all_used lo mid ->
  searched b mid hi r d -> searched b lo hi r d.
Proof.
  intros Hm Hu. destruct r as [buf|n]; cbn.
  - intros (H1 & H2 & H3). split; [done|]. split; [done|]. intros q Hq Hqt.
    destruct (Z.lt_ge_cases q mid); [apply Hu|apply H3]; lia.
  - intros (H1 & H2 & H3 & H4 & H5). split; [done|]. split; [lia|]. split; [done|]. split; [done|]. intros q Hq.
    destruct (Z.lt_ge_cases q mid); [apply Hu|apply H5]; lia.
Qed.

Lemma alloc_bytes_ok b : 0 <= b < bitmap_blocks s ->
  forall m i d, (i + m = 4096)%nat -> alloc_exact s d0 d None ->
  io_ok (searched b (bit_number b i 0) (bit_number b 4096 0)) (alloc_failed s d0)
    (alloc_bytes s b (seq i m) (block d (bitmap_start s + b)) d).
Proof.
  intros Hb. induction m as [|m IH]; intros i d Hm Hd; cbn [seq alloc_bytes].
  { cbn. assert (i = 4096%nat) as -> by lia. split; [done|]. split; [done|]. intros n Hn. lia. }
  assert (Hi : (i < 4096)%nat) by lia. pose proof (loaded_byte b i d Hi ltac:(lia) Hd) as Hbyte.
  assert (H8 : bit_number b i 8 = bit_number b (S i) 0) by (unfold bit_number; lia).
  assert (Hle : bit_number b i 0 <= bit_number b (S i) 0 <= bit_number b 4096 0) by (unfold bit_number; lia).
  destruct (Z.eqb_spec (block d (bitmap_start s + b) !!! i) 0xFF) as [Hff|Hff].
  - specialize (IH (S i) d ltac:(lia) Hd). unfold io_ok in *. destruct (alloc_bytes _ _ _ _ d) as [[r| | |] d']; try done.
    apply (searched_trans _ _ (bit_number b (S i) 0)); [done| |done]. intros n Hn Ht.
    assert (n = bit_number b i (n - bit_number b i 0)) as -> by (unfold bit_number in *; lia).
    rewrite <- Hbyte by (unfold bit_number in *; lia). rewrite Hff. change 255 with (Z.ones 8).
    apply Z.ones_spec_low. unfold bit_number in *. lia.
  - pose proof (alloc_bits_ok b i _ Hb Hi Hbyte 8 0 d ltac:(lia) ltac:(lia) Hd) as Hbits.
    change (seqZ 0 (Z.of_nat 8)) with [0; 1; 2; 3; 4; 5; 6; 7] in Hbits.
    apply (io_bind _ _ _ _ _ _ Hbits). intros [buf|n] d1 Hsr; cbn in Hsr; rewrite H8 in Hsr.
    + destruct Hsr as (Hd1 & -> & Hall). specialize (IH (S i) d1 ltac:(lia) Hd1). unfold io_ok in *.
      destruct (alloc_bytes _ _ _ _ d1) as [[r| | |] d']; try done. by apply (searched_trans _ _ (bit_number b (S i) 0)).
    + cbn. destruct Hsr as (H1 & H2 & H3). split; [done|]. split; [lia|done].
Qed.

Lemma alloc_in_block_ok k b d : 0 <= k < bitmap_blocks s ->
  b = k /\ alloc_exact s d0 d None /\ all_used 0 (k * BITS) ->
  io_ok (fun r d' => match r with
      | inl b' => b' = k + 1 /\ alloc_exact s d0 d' None /\ all_used 0 ((k + 1) * BITS)
      | inr n => alloc_exact s d0 d' (Some n) /\ 0 <= n /\ first_free 0 n end)
    (alloc_failed s d0) (alloc_in_block s b d).
Proof.
  intros Hk (-> & Hd & Hall). unfold alloc_in_block. unfold mbind at 1, Io_bind at 1.
  pose proof Hs as (H1 & H2 & H3 & _). change (2 ^ 40) with 1099511627776 in H3.
  rewrite u64_small by (unfold is_u64; lia).
  destruct (read_block_spec (bitmap_start s + k) d) as [->|Hr].
  2: { rewrite Hr. apply (alloc_failed_trans _ _ _ _ (proj1 Hd) (alloc_frame_refl s d (proj1 (proj1 Hd)))).
    apply (read_block_healthy _ (bitmap_start s + k)); [destruct Hs as (_ & _ & _ & ?); lia|done]. }
  pose proof (alloc_bytes_ok k Hk 4096 0 d ltac:(lia) Hd) as Hb.
  assert (Hlo : bit_number k 0 0 = k * BITS) by (unfold bit_number; lia).
  assert (Hhi : bit_number k 4096 0 = (k + 1) * BITS) by (unfold bit_number; lia). rewrite Hlo, Hhi in Hb.
  apply (io_bind _ _ _ _ _ _ Hb). intros r d1 Hr. cbn.
  pose proof (searched_trans k 0 (k * BITS) ((k + 1) * BITS) r d1 ltac:(lia) Hall Hr) as Hsr.
  destruct r as [buf|n]; cbn in Hsr; destruct Hsr as (Ha & Hb' & Hc); [done|]. split; [done|]. split; [lia|done].
Qed.

End search.

(** ** Allocation *)

Definition fs_ok (f : Fs) : Prop :=
  disk_ok (dev f) /\ bitmap_ok (sb f) /\ fs_locked f = false.

(** Only the device of the file system changes. *)
Definition only_dev (f f' : Fs) : Prop := f' = set_dev (dev f') f.

Lemma set_dev_id f : set_dev (dev f) f = f.
Proof. by destruct f. Qed.

(** The allocation finds the first free block. *)
Lemma allocate_spec f : fs_ok f ->
  let '(r, f') := allocate_block_inner f in
  only_dev f f' /\ alloc_frame (sb f) (dev f) (dev f') /\
  match r with
  | Ok n => alloc_exact (sb f) (dev f) (dev f') (Some n) /\ 0 <= n /\ first_free (sb f) (dev f) 0 n
  | Err => healthy (total_blocks (sb f)) (dev f) -> all_used (sb f) (dev f) 0 (total_blocks (sb f))
  | _ => False
  end.
Proof.
  intros (Hd & Hs & Hl). unfold allocate_block_inner, with_fs. rewrite Hl. unfold gets, on_dev, mbind, Io_bind. cbn [sb dev set_fs_locked].
  pose proof Hs as (_ & Hbb & _ & Htot).
  pose proof (repeat_z_ok (alloc_in_block (sb f)) (bitmap_blocks (sb f))
    (fun k b d => b = k /\ alloc_exact (sb f) (dev f) d None /\ all_used (sb f) (dev f) 0 (k * BITS))
    (fun n d => alloc_exact (sb f) (dev f) d (Some n) /\ 0 <= n /\ first_free (sb f) (dev f) 0 n)
    (alloc_failed (sb f) (dev f))
    (fun k b d Hk Hp => alloc_in_block_ok (sb f) (dev f) Hs k b d Hk Hp) 0 (dev f)) as Hloop.
  assert (H0 : 0 = 0 /\ alloc_exact (sb f) (dev f) (dev f) None /\ all_used (sb f) (dev f) 0 (0 * BITS)).
  { split; [done|]. split; [|intros n Hn; lia]. split; [by apply alloc_frame_refl|]. intros n Hn.
    by rewrite bool_decide_eq_false_2, orb_false_r by done. }
  specialize (Hloop H0). destruct (repeat_z _ _ _ (dev f)) as [r d']. unfold io_ok in Hloop.
  destruct r as [[b|n]| | |]; try done; cbn.
  all: split; [by destruct f; unfold only_dev; cbn in *; subst|].
  - destruct Hloop as (_ & Ha & Hall). split; [apply Ha|]. intros _ n Hn Ht. apply Hall; lia.
  - destruct Hloop as (Ha & Hn & Hff). split; [apply Ha|done].
  - destruct Hloop as [Ha Hh]. split; [done|]. intros H. by destruct Hh.
Qed.

(** ** Writing the blocks of a file *)

(** The blocks of the bitmap are marked as used. *)
Definition bitmap_reserved (s : Superblock) (d : Disk) : Prop := forall b, bitmap_area s b -> used s d b = true.

(** A block that a new file may not touch. *)
Definition taken (s : Superblock) (d : Disk) (b : Z) : Prop :=
  in_range b /\ ~ bitmap_area s b /\ (used s d b = true \/ total_blocks s <= b).

(** The blocks of a list of extents, in order. *)
Definition expand (es : list Extent) : list Z := es ≫= fun e => seqZ (e_start e) (e_count e).

Definition extent_ok (total : Z) (e : Extent) : Prop := 0 <= e_start e /\ 1 <= e_count e /\ e_start e + e_count e <= total.

Lemma add_block_ok total b es : total <= 2 ^ 60 -> 0 <= b < total -> Forall (extent_ok total) es ->
  expand (add_block b es) = expand es ++ [b] /\ Forall (extent_ok total) (add_block b es).
Proof.
  change (2 ^ 60) with 1152921504606846976. intros Ht Hb Hes. unfold add_block.
  assert (Hone : extent_ok total (mkExtent b 1)) by (split; cbn; lia).
  destruct (last es) as [e|] eqn:Hlast.
  2: { apply last_None in Hlast as ->. split; [done|]. by constructor. }
  apply last_Some in Hlast as [es' ->]. apply Forall_app in Hes as [Hes' He]. apply Forall_cons in He as [He _].
  pose proof He as (H1 & H2 & H3). rewrite u64_small by (unfold is_u64; lia). destruct (Z.eqb_spec (e_start e + e_count e) b) as [Heq|Hne].
  - rewrite length_app. cbn [length]. replace (pred (length es' + 1)) with (length es') by lia. rewrite take_app_length.
    rewrite u64_small by (unfold is_u64; lia). split.
    + unfold expand. rewrite !bind_app. rewrite <- app_assoc. f_equal. cbn. rewrite !app_nil_r, <- Heq.
      rewrite seqZ_app by lia. done.
    + apply Forall_app. split; [done|]. constructor; [|done]. split; cbn; lia.
  - split; [unfold expand; by rewrite bind_app|]. apply Forall_app. split; [|by constructor]. apply Forall_app. by split; [|constructor].
Qed.

(** The chunk of [d] that goes to the [k]th block. *)
Definition chunk (d : list Z) (k : nat) : list Z := in_block (slice (BLOCK_SIZE * k) BLOCK_SIZE d).

Lemma length_in_block l : (length l <= BLOCK_SIZE)%nat -> length (in_block l) = BLOCK_SIZE.
Proof. intros Hl. unfold in_block. rewrite length_splice; rewrite length_replicate; lia. Qed.

Lemma in_block_bytes l : bytes l -> bytes (in_block l).
Proof. intros Hl. apply Forall_splice; [done|]. apply Forall_replicate. unfold is_u8. lia. Qed.

Record written (f : Fs) (d : list Z) (n : nat) (bs : list Z) (f' : Fs) : Prop := {
  w_length : length bs = n;
  w_nodup : NoDup bs;
  w_free : Forall (fun b => 0 <= b < total_blocks (sb f) /\ used (sb f) (dev f) b = false) bs;
  w_chunk : forall k b, bs !! k = Some b -> block (dev f') b = chunk d k }.

(** What a write of blocks leaves alone. *)
Record isolated (f f' : Fs) : Prop := {
  i_dev : only_dev f f';
  i_disk : disk_ok (dev f');
  i_same : same_device (dev f) (dev f');
  i_taken : forall b, taken (sb f) (dev f) b -> block (dev f') b = block (dev f) b;
  i_used : forall n, 0 <= n < bitmap_blocks (sb f) * BITS -> used (sb f) (dev f) n = true -> used (sb f) (dev f') n = true }.

Lemma only_dev_refl f : only_dev f f.
Proof. by destruct f. Qed.

Lemma only_dev_sb f f' : only_dev f f' -> sb f' = sb f /\ fs_locked f' = fs_locked f /\ dev_locked f' = dev_locked f /\
  fs_journal f' = fs_journal f /\ cache f' = cache f /\ beyond f' = beyond f.
Proof. unfold only_dev. intros ->. done. Qed.

Lemma only_dev_trans f1 f2 f3 : only_dev f1 f2 -> only_dev f2 f3 -> only_dev f1 f3.
Proof. unfold only_dev. intros H1 H2. rewrite H2, H1. done. Qed.

Lemma isolated_refl f : disk_ok (dev f) -> isolated f f.
Proof. intros Hd. split; auto using only_dev_refl. by repeat split. Qed.

Lemma isolated_trans f1 f2 f3 : bitmap_ok (sb f1) -> isolated f1 f2 -> isolated f2 f3 -> isolated f1 f3.
Proof.
  intros (_ & _ & _ & Ht) [O1 D1 S1 T1 U1] [O2 D2 S2 T2 U2]. destruct (only_dev_sb _ _ O1) as (Hsb & _). rewrite Hsb in *.
  split; [by eapply only_dev_trans|done|by eapply same_device_trans| |auto].
  intros b Hb. rewrite T2, T1; [done|done|]. destruct Hb as (Hr & Hn & Hu). split; [done|]. split; [done|].
  destruct (Z.le_gt_cases (total_blocks (sb f1)) b) as [|Hlt]; [by right|left]. destruct Hu as [Hu|]; [|lia].
  destruct (Z.le_gt_cases 0 b) as [Hb0|]; [apply U1; [lia|done]|]. destruct Hr. lia.
Qed.

Lemma chunk_drop d k : chunk (drop BLOCK_SIZE d) k = chunk d (S k).
Proof.
  unfold chunk, slice. apply (f_equal (fun l => in_block (take BLOCK_SIZE l))). rewrite drop_drop.
  replace (BLOCK_SIZE * S k)%nat with (BLOCK_SIZE + BLOCK_SIZE * k)%nat by lia. reflexivity.
Qed.

Lemma alloc_isolated f f' : only_dev f f' -> alloc_frame (sb f) (dev f) (dev f') -> isolated f f'.
Proof. intros Ho (Hd & Hdev & Hb & Hu). split; try done. intros b (Hr & Hn & _). by apply Hb. Qed.

(** Writing to a block outside the bitmap. *)
Lemma write_one s d b buf :
  disk_ok d -> 0 <= b < total_blocks s -> bitmap_ok s -> ~ bitmap_area s b -> length buf = BLOCK_SIZE -> bytes buf ->
  let '(r, d') := write_block b buf d in
  (r = Ok tt \/ r = Err) /\ disk_ok d' /\ same_device d d' /\ (r = Ok tt -> block d' b = buf) /\
  (forall n, 0 <= n < bitmap_blocks s * BITS -> used s d' n = used s d n) /\
  (forall b', in_range b' -> b' <> b -> block d' b' = block d b').
Proof.
  intros Hd Hb Hs Hnb Hl Hby. pose proof Hs as (H1 & H2 & H3 & H4). change (2 ^ 40) with 1099511627776 in H3.
  assert (Hr : in_range b) by (unfold in_range; lia).
  pose proof (write_block_frame b buf d Hd Hr Hl Hby) as Hw. destruct (write_block b buf d) as [r d'].
  destruct Hw as (Hrr & Hd' & Hdev & Hne & Hok & _). split_and!; try done. intros n Hn.
  pose proof (Z.div_lt_upper_bound n BITS (bitmap_blocks s) ltac:(lia) ltac:(lia)).
  pose proof (Z.div_pos n BITS ltac:(lia) ltac:(lia)).
  unfold used. rewrite Hne; [done|unfold in_range; lia|]. intros Heq. apply Hnb. unfold bitmap_area. lia.
Qed.

Lemma total_small s : bitmap_ok s -> total_blocks s <= 2 ^ 60.
Proof. intros (? & ? & H & ?). change (2 ^ 40) with 1099511627776 in H. change (2 ^ 60) with 1152921504606846976. lia. Qed.

(** No block is left. *)
Definition full (s : Superblock) (d : Disk) : Prop := forall n, 0 <= n < total_blocks s -> used s d n = true.

Lemma write_blocks_ok n : forall d es f,
  fs_ok f -> bitmap_reserved (sb f) (dev f) -> bytes d -> Forall (extent_ok (total_blocks (sb f))) es ->
  let '(r, f') := write_blocks n d es f in
  isolated f f' /\
  match r with
  | Ok es' => exists bs, written f d n bs f' /\ expand es' = expand es ++ bs /\ Forall (extent_ok (total_blocks (sb f))) es'
  | Err => healthy (total_blocks (sb f)) (dev f) -> full (sb f) (dev f')
  | _ => False
  end.
Proof.
  induction n as [|n IH]; intros d es f Hf Hres Hb Hes; cbn [write_blocks].
  { split; [apply isolated_refl, Hf|]. exists []. split; [|by rewrite app_nil_r]. by split; [..|constructor|constructor|]. }
  unfold mbind at 1, Io_bind at 1. pose proof (allocate_spec f Hf) as Ha. destruct (allocate_block_inner f) as [r f1].
  destruct Ha as (Ho & Hfr & Hr). pose proof (alloc_isolated f f1 Ho Hfr) as Hiso. pose proof Hf as (Hd & Hs & Hl).
  destruct (only_dev_sb _ _ Ho) as (Hsb & Hfl & _). destruct r as [b| | |]; try done.
  2:{ split; [done|]. intros Hh n' Hn'. destruct Hs as (? & ? & ? & ?). apply Hfr; [lia|]. apply (Hr Hh); lia. }
  destruct Hr as (Hex & Hb0 & Hbt & Hfree & _). unfold mbind at 1, Io_bind at 1, on_dev at 1.
  set (buf := in_block (take BLOCK_SIZE d)).
  assert (Hlen : length buf = BLOCK_SIZE) by (apply length_in_block; rewrite length_take; lia).
  assert (Hbuf : bytes buf) by (apply in_block_bytes, Forall_take, Hb).
  assert (Hnb : ~ bitmap_area (sb f) b) by (intros H; by rewrite Hres in Hfree).
  assert (Hr : in_range b) by (pose proof (total_small _ Hs) as H; change (2 ^ 60) with 1152921504606846976 in H; unfold in_range; lia).
  pose proof (write_one (sb f) (dev f1) b buf (i_disk _ _ Hiso) ltac:(lia) Hs Hnb Hlen Hbuf) as Hw.
  pose proof (write_block_healthy (total_blocks (sb f)) b buf (dev f1) ltac:(lia) Hlen) as Hbad.
  destruct (write_block b buf (dev f1)) as [r d2]. cbn [fst] in Hbad. destruct Hw as (Hrr & Hd2 & Hdev2 & Hok & Hused & Hne).
  set (f2 := set_dev d2 f1). assert (Hiso2 : isolated f f2).
  { split; [by apply (only_dev_trans f f1)|done|by eapply same_device_trans; [apply Hiso|]|..].
    - intros b' (Hr' & Hn' & Hu'). change (dev f2) with d2. rewrite Hne; [by apply Hiso|done|]. intros ->. destruct Hu'; [congruence|lia].
    - intros m Hm Hu. change (dev f2) with d2. rewrite Hused by done. by apply Hiso. }
  destruct Hrr as [-> | ->].
  2:{ split; [done|]. intros Hh. exfalso. apply Hbad; [done|]. by eapply same_device_healthy; [apply Hiso|]. }
  specialize (Hok eq_refl).
  pose proof Hs as (Hs1 & Hs2 & _ & Hs4).
  assert (Hu2 : forall m, 0 <= m < total_blocks (sb f) -> used (sb f) d2 m = used (sb f) (dev f) m || bool_decide (Some b = Some m)).
  { intros m Hm. rewrite Hused by lia. by apply Hex. }
  destruct (add_block_ok (total_blocks (sb f)) b es (total_small _ Hs) ltac:(lia) Hes) as [Hexp Hes2].
  specialize (IH (drop BLOCK_SIZE d) (add_block b es) f2).
  assert (Hsb2 : sb f2 = sb f) by done. rewrite Hsb2 in IH.
  specialize (IH ltac:(split; [done|]; rewrite Hsb2; split; [done|]; cbn; congruence)
    ltac:(intros b' Hb'; apply Hiso2; [unfold bitmap_area in Hb'; lia|by apply Hres]) (Forall_drop _ _ _ Hb) Hes2).
  destruct (write_blocks n _ _ f2) as [r f3]. destruct IH as [Hiso3 IH]. split; [by apply (isolated_trans f f2)|].
  destruct r as [es'| | |]; try done.
  2:{ intros Hh. apply IH. eapply same_device_healthy; [|exact Hh]. apply Hiso2. }
  destruct IH as (bs & Hwr & Hes' & Hok'). exists (b :: bs).
  split; [|split; [by rewrite Hes', Hexp, <- app_assoc|done]].
  destruct Hwr as [Wl Wn Wf Wc]. rewrite Hsb2 in Wf.
  assert (Hub : used (sb f) d2 b = true) by (rewrite Hu2, bool_decide_eq_true_2, orb_true_r by (done || lia); done).
  split; [cbn; lia|..].
  - constructor; [|done]. intros Hin. apply (proj1 (Forall_forall _ _) Wf) in Hin as [_ Hin]. change (dev f2) with d2 in Hin. congruence.
  - constructor; [by split|]. eapply Forall_impl; [exact Wf|]. intros m [Hm Hum]. split; [done|]. change (dev f2) with d2 in Hum.
    rewrite Hu2 in Hum by done. by apply orb_false_iff in Hum as [? _].
  - intros [|k] m Hm; cbn in Hm.
    + injection Hm as <-. rewrite (i_taken _ _ Hiso3); [change (dev f2) with d2; rewrite Hok; unfold chunk, slice; by rewrite Nat.mul_0_r, drop_0|].
      unfold taken. rewrite Hsb2. split; [done|]. split; [done|]. by left.
    + rewrite <- chunk_drop. by apply Wc.
Qed.

(** ** Reading them back *)

Lemma length_blocks d bs : disk_ok d -> length (bs ≫= block d) = (BLOCK_SIZE * length bs)%nat.
Proof.
  intros Hd. induction bs as [|b bs IH]; [done|]. rewrite bind_cons, length_app, block_length, IH by done. cbn [length]. lia.
Qed.

Lemma read_extent_blocks_ok total d n e acc rest :
  total <= B61 -> 0 <= e_start e -> 1 <= e_count e -> e_start e + e_count e <= total ->
  Z.of_nat (length acc) + 4096 * (e_count e + Z.of_nat rest - 1) < n ->
  disk_ok d ->
  io_ok (fun r d' => d' = d /\ match r with
      | inl (_, acc') => acc' = acc ++ (seqZ (e_start e) (e_count e) ≫= block d)
      | inr acc' => acc' = acc ++ (seqZ (e_start e) (e_count e) ≫= block d) /\ rest = 0%nat end)
    (fun d' => d' = d /\ ~ healthy total d) (repeat_z (read_extent_block (e_start e) n) (e_count e) (0, acc) d).
Proof.
  intros Htot Hs Hc Hmax Hn Hd.
  pose proof (repeat_z_ok (read_extent_block (e_start e) n) (e_count e)
    (fun k a d' => a = (k, acc ++ (seqZ (e_start e) k ≫= block d)) /\ d' = d)
    (fun acc' d' => d' = d /\ acc' = acc ++ (seqZ (e_start e) (e_count e) ≫= block d) /\ rest = 0%nat)
    (fun d' => d' = d /\ ~ healthy total d)) as Hloop. cbv zeta in Hloop.
  assert (Hlen : forall k, 0 <= k -> Z.of_nat (length ((seqZ (e_start e) k ≫= block d))) = 4096 * k).
  { intros k Hk. rewrite length_blocks, length_seqZ by done. change (Z.of_nat BLOCK_SIZE) with 4096 in *. unfold BLOCK_SIZE. lia. }
  assert (Hbody : forall k a d', 0 <= k < e_count e -> a = (k, acc ++ (seqZ (e_start e) k ≫= block d)) /\ d' = d ->
    io_ok (fun r d' => match r with
      | inl a => a = (k + 1, acc ++ (seqZ (e_start e) (k + 1) ≫= block d)) /\ d' = d
      | inr acc' => d' = d /\ acc' = acc ++ (seqZ (e_start e) (e_count e) ≫= block d) /\ rest = 0%nat end)
      (fun d' => d' = d /\ ~ healthy total d) (read_extent_block (e_start e) n a d')).
  { intros k a d' Hk [-> ->]. unfold read_extent_block. rewrite run_bind, u64_small by (unfold is_u64; lia).
    destruct (read_block_spec (e_start e + k) d) as [->|Hr]; [|rewrite Hr; split; [done|]; eapply read_block_healthy; [|exact Hr]; lia].
    cbn [io_ok ret].
    assert (Hnext : (acc ++ (seqZ (e_start e) k ≫= block d)) ++ block d (e_start e + k) =
      acc ++ (seqZ (e_start e) (k + 1) ≫= block d)).
    { rewrite seqZ_app, bind_app, <- !app_assoc by lia. do 2 f_equal. rewrite seqZ_cons, bind_cons by lia. change (seqZ _ (Z.pred 1)) with (@nil Z). by rewrite app_nil_r. }
    rewrite Hnext. destruct (Z.leb_spec n (Z.of_nat (length (acc ++ (seqZ (e_start e) (k + 1) ≫= block d))))) as [Hle|]; [|done].
    rewrite length_app, Nat2Z.inj_add, Hlen in Hle by lia. assert (rest = 0%nat /\ k + 1 = e_count e) as [-> ->] by lia. done. }
  specialize (Hloop Hbody (0, acc) d). rewrite Z.max_r in Hloop by lia.
  specialize (Hloop ltac:(split; [cbn; by rewrite app_nil_r|done])). unfold io_ok in *.
  destruct (repeat_z _ _ _ d) as [[[[k' a']|acc']| | |] d']; try done.
  destruct Hloop as [[= -> ->] ->]. done.
Qed.

Lemma read_extents_ok total d es : forall n acc,
  total <= B61 -> disk_ok d -> Forall (extent_ok total) es -> es <> [] ->
  Z.of_nat (length acc) + 4096 * (Z.of_nat (length (expand es)) - 1) < n <= Z.of_nat (length acc) + 4096 * Z.of_nat (length (expand es)) ->
  io_ok (fun out d' => d' = d /\ out = acc ++ (expand es ≫= block d)) (fun d' => d' = d /\ ~ healthy total d) (read_extents es n acc d).
Proof.
  induction es as [|e es IH]; intros n acc Htot Hd Hes Hne Hn; [done|]. apply Forall_cons in Hes as [(H1 & H2 & H3) Hes].
  cbn [read_extents]. unfold expand in *. rewrite bind_cons in *. fold (expand es) in *.
  rewrite length_app, length_seqZ in Hn.
  pose proof (read_extent_blocks_ok total d n e acc (length (expand es)) Htot H1 H2 H3 ltac:(lia) Hd) as Hl.
  rewrite run_bind.
  destruct (repeat_z _ _ _ d) as [r d']. unfold io_ok in Hl. destruct r as [[[k a]|a]| | |]; try done.
  - destruct Hl as [-> ->]. rewrite bind_app, (app_assoc acc).
    set (acc' := acc ++ (seqZ (e_start e) (e_count e) ≫= block d)).
    assert (Hacc : Z.of_nat (length acc') = Z.of_nat (length acc) + 4096 * e_count e).
    { unfold acc'. rewrite length_app, length_blocks, length_seqZ by done. unfold BLOCK_SIZE. lia. }
    destruct es as [|e' es].
    + rewrite app_nil_r. by destruct (n <=? _).
    + assert (0 < length (expand (e' :: es)))%nat.
      { apply Forall_cons in Hes as [(_ & He' & _) _]. unfold expand. rewrite bind_cons, length_app, length_seqZ. lia. }
      rewrite (proj2 (Z.leb_gt _ _)) by lia. apply IH; [done..|lia].
  - destruct Hl as (-> & -> & Hrest). split; [done|]. rewrite bind_app. apply length_zero_iff_nil in Hrest. rewrite Hrest. by rewrite app_nil_r.
Qed.

(** Fields of packed structures. *)
Lemma slice_skip {A} off n (l1 l2 : list A) : (length l1 <= off)%nat -> slice off n (l1 ++ l2) = slice (off - length l1) n l2.
Proof. intros H. unfold slice. by rewrite drop_app_ge. Qed.

Lemma slice_here {A} n (l1 l2 : list A) : length l1 = n -> slice 0 n (l1 ++ l2) = l1.
Proof. intros <-. unfold slice. rewrite drop_0. apply take_app_length. Qed.

Lemma field_here n x l : 0 <= x < M8 ^ Z.of_nat n -> field 0 n (le_bytes n x ++ l) = x.
Proof.
  intros Hx. unfold field. rewrite slice_here by apply length_le_bytes. rewrite le_value_le_bytes. by apply Z.mod_small.
Qed.

Lemma field_skip off n k x l : (k <= off)%nat -> field off n (le_bytes k x ++ l) = field (off - k) n l.
Proof. intros H. unfold field. rewrite slice_skip by (rewrite length_le_bytes; lia). by rewrite length_le_bytes. Qed.

(** Skips to the field and reads it. *)
Ltac read_field :=
  repeat (rewrite field_skip by lia; cbn [Nat.sub]); apply field_here.

(** Extents in the inode and back. *)
Lemma extent_roundtrip e l : is_u64 (e_start e) -> is_u64 (e_count e) -> extent_of (extent_bytes e ++ l) = e.
Proof.
  intros H1 H2. destruct e as [a b]. unfold extent_of, extent_bytes. cbn [e_start e_count] in *. rewrite <- app_assoc.
  f_equal; read_field; done.
Qed.

Lemma length_extent_bytes e : length (extent_bytes e) = 16%nat.
Proof. unfold extent_bytes. rewrite length_app, !length_le_bytes. done. Qed.

Lemma join_fmap_cons {A B} (f : A -> list B) x l : mjoin (f <$> x :: l) = f x ++ mjoin (f <$> l).
Proof. reflexivity. Qed.

Lemma extents_roundtrip es l :
  Forall (fun e => is_u64 (e_start e) /\ is_u64 (e_count e)) es ->
  (fun k => extent_of (drop (16 * k) (mjoin (extent_bytes <$> es) ++ l))) <$> seq 0 (length es) = es.
Proof.
  intros Hes. revert l. induction Hes as [|e es [H1 H2] Hes IH]; intros l; [done|]. rewrite join_fmap_cons.
  change (seq 0 (length (e :: es))) with (O :: seq 1 (length es)). rewrite fmap_cons. f_equal.
  - rewrite Nat.mul_0_r, drop_0, <- app_assoc. by apply extent_roundtrip.
  - rewrite <- fmap_S_seq, <- list_fmap_compose. etrans; [|apply (IH l)]. apply list_fmap_ext. intros i k _.
    unfold compose. rewrite <- app_assoc, drop_app_ge by (rewrite length_extent_bytes; lia).
    rewrite length_extent_bytes. do 2 f_equal. lia.
Qed.

Lemma in_block_app l : (length l <= BLOCK_SIZE)%nat -> in_block l = l ++ replicate (BLOCK_SIZE - length l) 0.
Proof.
  intros Hl. unfold in_block, splice. rewrite take_0, Nat.add_0_l, drop_replicate. reflexivity.
Qed.

(** The blocks of the chunks of [d] hold [d]. *)
Lemma chunks_join (disk : Disk) n : forall d bs,
  (length d <= BLOCK_SIZE * n)%nat -> length bs = n -> (forall k b, bs !! k = Some b -> block disk b = chunk d k) ->
  take (length d) (bs ≫= block disk) = d.
Proof.
  induction n as [|n IH]; intros d bs Hl Hn Hb.
  { rewrite Nat.mul_0_r in Hl. assert (d = []) as -> by (apply nil_length_inv; lia). apply take_0. }
  destruct bs as [|b bs]; [done|]. injection Hn as Hn. rewrite bind_cons, (Hb 0%nat b eq_refl).
  assert (Htl : take (length (drop BLOCK_SIZE d)) (bs ≫= block disk) = drop BLOCK_SIZE d).
  { apply IH; [rewrite length_drop; lia|done|]. intros k b' Hk. rewrite chunk_drop. by apply (Hb (S k)). }
  unfold chunk. replace (slice (BLOCK_SIZE * 0) BLOCK_SIZE d) with (take BLOCK_SIZE d) by (unfold slice; by rewrite Nat.mul_0_r, drop_0).
  rewrite in_block_app by (rewrite length_take; lia). destruct (Nat.le_gt_cases (length d) BLOCK_SIZE) as [Hle|Hgt].
  - rewrite (take_ge d BLOCK_SIZE) by lia. rewrite <- app_assoc, take_app_le by lia. apply take_ge. lia.
  - rewrite length_take, Nat.min_l by lia. rewrite Nat.sub_diag, app_nil_r. rewrite length_drop in Htl.
    rewrite take_app, length_take, Nat.min_l by lia. rewrite Htl, take_ge by (rewrite length_take; lia). apply take_drop.
Qed.

(** The inode [i] holds [d], inline or in the blocks [bs] of its extents. *)
Definition holds (total : Z) (disk : Disk) (i : SkyfsInode) (d : list Z) (bs : list Z) : Prop :=
  size i = Z.of_nat (length d) /\
  if (length d <=? MAX_INLINE_DATA)%nat then take (length d) (data i) = d /\ bs = []
  else exists es rest,
    extent_count i = Z.of_nat (length es) /\ (length es <= 16)%nat /\ data i = mjoin (extent_bytes <$> es) ++ rest /\
    Forall (extent_ok total) es /\ expand es = bs /\ length bs = ((length d + BLOCK_SIZE - 1) / BLOCK_SIZE)%nat /\
    forall k b, bs !! k = Some b -> block disk b = chunk d k.

Lemma with_fs_ret f : fs_locked f = false -> with_fs (ret tt) f = (Ok tt, f).
Proof. intros Hl. unfold with_fs. rewrite Hl. destruct f. cbn in *. by subst. Qed.

Lemma run_with_dev {A} (m : Io Fs A) f : dev_locked f = false ->
  with_dev m f = let '(r, f) := m (set_dev_locked true f) in (r, set_dev_locked false f).
Proof. intros Hl. unfold with_dev. by rewrite Hl. Qed.

Lemma set_dev_locked_id d f : dev_locked f = false -> set_dev_locked false (set_dev d (set_dev_locked true f)) = set_dev d f.
Proof. destruct f. cbn. by intros ->. Qed.

Lemma ceil_block n : (0 < n)%nat ->
  let c := ((n + BLOCK_SIZE - 1) / BLOCK_SIZE)%nat in (BLOCK_SIZE * (c - 1) < n <= BLOCK_SIZE * c)%nat /\ (0 < c)%nat.
Proof.
  intros Hn c. pose proof (Nat.div_mod_eq (n + BLOCK_SIZE - 1) BLOCK_SIZE) as H.
  pose proof (Nat.mod_upper_bound (n + BLOCK_SIZE - 1) BLOCK_SIZE ltac:(done)). fold c in H. unfold BLOCK_SIZE in *. nia.
Qed.

(** A file that is not inline has its extents in the inode. *)
Lemma holds_large total disk i d bs : total <= 2 ^ 60 -> holds total disk i d bs -> (MAX_INLINE_DATA < length d)%nat ->
  extent_count i <> BTREE_MODE /\ length bs = ((length d + BLOCK_SIZE - 1) / BLOCK_SIZE)%nat /\
  (forall k b, bs !! k = Some b -> block disk b = chunk d k) /\
  exists es, inline_extents i = Some es /\ Forall (extent_ok total) es /\ expand es = bs.
Proof.
  intros Htot [_ Hh] Hgt. rewrite (proj2 (Nat.leb_gt _ _)) in Hh by done.
  destruct Hh as (es & rest & Hc & Hn & Hdata & Hes & Hbs & Hexp & Hblk).
  split; [rewrite Hc; unfold BTREE_MODE; lia|]. split; [done|]. split; [done|]. exists es. split; [|split; [|done]].
  - unfold inline_extents. rewrite (proj2 (Z.ltb_ge _ _)) by lia. f_equal. rewrite Hc, Nat2Z.id, Hdata. apply extents_roundtrip.
    eapply Forall_impl; [exact Hes|]. intros e (H1 & H2 & H3). change (2 ^ 60) with 1152921504606846976 in Htot. unfold is_u64. lia.
  - done.
Qed.

(** What an inode holds is what is read, if the device can read it. *)
Lemma holds_read total f i d bs : total <= 2 ^ 60 -> disk_ok (dev f) -> fs_locked f = false -> dev_locked f = false -> holds total (dev f) i d bs ->
  io_ok (fun out f' => out = d /\ f' = f) (fun f' => f' = f /\ ~ healthy total (dev f)) (read_file_data i f).
Proof.
  intros Htot Hd Hfl Hdl Hh. unfold read_file_data. rewrite (proj1 Hh). destruct (Z.eqb_spec (Z.of_nat (length d)) 0) as [H0|H0].
  { by destruct d. }
  destruct (Z.leb_spec (Z.of_nat (length d)) (Z.of_nat MAX_INLINE_DATA)) as [Hle|Hgt].
  { destruct Hh as [_ Hh]. rewrite (proj2 (Nat.leb_le _ _)) in Hh by lia. cbn [io_ok ret]. by rewrite Nat2Z.id, (proj1 Hh). }
  destruct (holds_large _ _ _ _ _ Htot Hh ltac:(lia)) as (Hb & Hexp & Hblk & es & Hinl & Hes & <-).
  rewrite run_bind, with_fs_ret, run_with_dev by done. rewrite (proj2 (Z.eqb_neq _ _) Hb), Hinl.
  rewrite run_bind. unfold on_dev. cbn [dev set_dev_locked].
  destruct (ceil_block (length d) ltac:(unfold MAX_INLINE_DATA in Hgt; lia)) as [Hceil Hpos].
  assert (Hne : es <> []) by (intros ->; change (length (expand [])) with 0%nat in Hexp; lia).
  change (2 ^ 60) with 1152921504606846976 in Htot.
  pose proof (read_extents_ok total (dev f) es (Z.of_nat (length d)) [] ltac:(lia) Hd Hes Hne) as Hr. unfold io_ok in Hr.
  specialize (Hr ltac:(cbn [length]; rewrite Hexp; unfold BLOCK_SIZE in *; lia)).
  destruct (read_extents _ _ _ _) as [[out| | |] d']; try done; destruct Hr as [-> Hr]; cbn [io_ok ret].
  - rewrite Hr. cbn [app]. rewrite Nat2Z.id. rewrite (chunks_join (dev f) (length (expand es)) d); [|lia|done|done].
    by rewrite set_dev_locked_id, set_dev_id.
  - by rewrite set_dev_locked_id, set_dev_id.
Qed.

Lemma length_expand total es : Forall (extent_ok total) es -> (length es <= length (expand es))%nat.
Proof.
  induction 1 as [|e es (_ & He & _) _ IH]; [done|]. unfold expand in *. rewrite bind_cons, length_app, length_seqZ. cbn [length]. lia.
Qed.

Lemma length_join_extents es : length (mjoin (extent_bytes <$> es)) = (16 * length es)%nat.
Proof.
  induction es as [|e es IH]; [done|]. rewrite join_fmap_cons, length_app, IH, length_extent_bytes. cbn [length]. lia.
Qed.

Lemma extents_u8 es : bytes (mjoin (extent_bytes <$> es)).
Proof.
  induction es as [|e es IH]; [constructor|]. rewrite join_fmap_cons. unfold extent_bytes. rewrite !Forall_app.
  split_and!; auto; apply le_bytes_u8.
Qed.

(** Storing data in a file that has no tree. *)
Lemma store_spec d f i :
  fs_ok f -> dev_locked f = false -> bitmap_reserved (sb f) (dev f) -> bytes d -> extent_count i <> BTREE_MODE ->
  let '(r, (f', i')) := store_data_blocks d (f, i) in
  match r with
  | Ok _ =>
      ((length d <= 16 * BLOCK_SIZE)%nat -> extent_count i' <> BTREE_MODE) /\
      (extent_count i' <> BTREE_MODE ->
      isolated f f' /\ i' = set_data (size i') (extent_count i') (data i') i /\ length (data i') = MAX_INLINE_DATA /\ bytes (data i') /\ 0 <= extent_count i' <= 16 /\
      extent_count i' <= Z.of_nat ((length d + BLOCK_SIZE - 1) / BLOCK_SIZE) /\
      exists bs, holds (total_blocks (sb f)) (dev f') i' d bs /\ Forall (fun b => 0 <= b < total_blocks (sb f) /\ used (sb f) (dev f) b = false) bs)
  | Err => (length d <= 16 * BLOCK_SIZE)%nat -> isolated f f' /\ (healthy (total_blocks (sb f)) (dev f) -> full (sb f) (dev f'))
  | _ => (16 * BLOCK_SIZE < length d)%nat
  end.
Proof.
  intros Hf Hdl Hres Hb Hi. pose proof Hf as (Hd & Hs & Hfl). unfold store_data_blocks. rewrite run_bind. unfold the_inode, gets. cbn [snd].
  destruct (Z.leb_spec (Z.of_nat (length d)) (Z.of_nat MAX_INLINE_DATA)) as [Hle|Hgt].
  { unfold put_inode, modify. cbn [fst]. split; [done|]. intros _. split; [by apply isolated_refl|]. split; [done|].
    assert (Hpl : length (pad_to MAX_INLINE_DATA d) = MAX_INLINE_DATA) by (unfold pad_to; rewrite length_app, length_replicate; lia).
    split; [done|]. split; [apply Forall_app; split; [done|apply Forall_replicate; unfold is_u8; lia]|].
    split; [cbn [extent_count set_data]; lia|]. split; [cbn [extent_count set_data]; lia|]. exists []. split; [|constructor]. split; [done|]. rewrite (proj2 (Nat.leb_le _ _)) by lia. split; [|done].
    cbn [data set_data]. apply take_app_length. }
  rewrite run_bind. unfold on_fs at 1. cbn [fst snd]. rewrite with_fs_ret by done.
  rewrite run_bind. unfold on_fs at 1. cbn [fst snd]. rewrite run_with_dev by done.
  set (n := ((length d + BLOCK_SIZE - 1) / BLOCK_SIZE)%nat).
  pose proof (write_blocks_ok n d [] (set_dev_locked true f) Hf Hres Hb (Forall_nil_2 _)) as Hw.
  destruct (write_blocks n d [] (set_dev_locked true f)) as [r f1]. destruct Hw as [Hiso Hr].
  assert (Hiso' : isolated f (set_dev_locked false f1)).
  { destruct Hiso as [Ho HD HS HT HU]. split; try done. unfold only_dev in Ho |- *. rewrite Ho. apply set_dev_locked_id, Hdl. }
  destruct r as [es| | |]; try done. destruct Hr as (bs & Hwr & Hexp & Hes). change (expand [] ++ bs) with bs in Hexp.
  destruct Hwr as [Wl Wn Wf Wc]. cbn [sb dev set_dev_locked] in *.
  assert (Hlen : (length es <= n)%nat) by (rewrite <- Wl, <- Hexp; by apply (length_expand (total_blocks (sb f)))).
  rewrite (proj2 (Z.eqb_neq _ _) Hi). cbn [negb]. rewrite andb_true_r.
  destruct (Nat.leb_spec (length es * 16) MAX_INLINE_DATA) as [Hfit|Hno].
  - unfold put_inode, modify. cbn [fst]. unfold MAX_INLINE_DATA in *.
    split; [cbn [extent_count set_data]; unfold BTREE_MODE; lia|]. intros _. split; [done|]. split; [done|].
    split; [cbn [data set_data]; unfold pad_to; rewrite length_app, length_replicate, length_join_extents; lia|].
    split; [apply Forall_app; split; [apply extents_u8|apply Forall_replicate; unfold is_u8; lia]|].
    split; [cbn [extent_count set_data]; lia|]. split; [cbn [extent_count set_data]; fold n; lia|].
    exists bs. split; [|done]. split; [done|]. rewrite (proj2 (Nat.leb_gt _ _)) by (unfold MAX_INLINE_DATA; lia).
    exists es, (replicate (256 - length (mjoin (extent_bytes <$> es))) 0). split; [done|]. split; [lia|]. split; [done|]. split.
    { eapply Forall_impl; [exact Hes|]. intros e (H1 & H2 & H3). pose proof (total_small _ Hs). split; lia. }
    split; [done|]. split; [done|]. intros k b Hk. by apply Wc.
  - assert (Hbig : (16 * BLOCK_SIZE < length d)%nat).
    { destruct (ceil_block (length d) ltac:(unfold MAX_INLINE_DATA in Hgt; lia)) as [Hceil _]. fold n in Hceil.
      unfold MAX_INLINE_DATA, BLOCK_SIZE in *. nia. }
    rewrite run_bind. unfold put_inode, modify. rewrite run_bind. unfold on_fs. cbn [fst snd].
    destruct (insert_all 0 es 0 _) as [[root| | |] f2]; [split; [intros; lia|done]|intros; lia|done|done].
Qed.

(** ** The journal stays in its area *)

Definition journal_area (j : Journal) (b : Z) : Prop := start_block j + 1 <= b < start_block j + num_blocks j.

Definition journal_ok (j : Journal) : Prop :=
  0 <= start_block j /\ 3 <= num_blocks j /\ start_block j + num_blocks j <= 2 ^ 60 /\ 1 <= next_free j <= num_blocks j.

(** What the operations of the journal [j0] may have done to the device. *)
Definition journalled (d0 : Disk) (j0 : Journal) (s : Disk * Journal) : Prop :=
  disk_ok s.1 /\ same_device d0 s.1 /\ start_block s.2 = start_block j0 /\ num_blocks s.2 = num_blocks j0 /\ journal_ok s.2 /\
  forall b, in_range b -> ~ journal_area j0 b -> block s.1 b = block d0 b.

Definition journal_failed (d0 : Disk) (j0 : Journal) (s : Disk * Journal) : Prop := journalled d0 j0 s /\ ~ healthy (start_block j0 + num_blocks j0) d0.

Lemma journalled_healthy n d0 j0 s : journalled d0 j0 s -> healthy n d0 -> healthy n s.1.
Proof. intros (_ & Hs & _). by apply same_device_healthy. Qed.

Lemma journal_range j b : journal_ok j -> journal_area j b -> in_range b.
Proof. intros (H1 & H2 & H3 & _) Hb. change (2 ^ 60) with 1152921504606846976 in H3. unfold journal_area, in_range in *. lia. Qed.

Lemma journal_below j b : journal_ok j -> journal_area j b -> 0 <= b < start_block j + num_blocks j.
Proof. intros (H1 & _) Hb. unfold journal_area in Hb. lia. Qed.

(** Writing a block of the area. *)
Lemma journal_write d0 j0 d j b buf :
  journalled d0 j0 (d, j) -> journal_ok j0 -> journal_area j0 b -> length buf = BLOCK_SIZE -> bytes buf ->
  io_ok (fun _ s => journalled d0 j0 s /\ s.2 = j) (journal_failed d0 j0) (Journal.on_disk (write_block b buf) (d, j)).
Proof.
  intros (Hd & Hdev & Hs & Hn & Hj & Hb) Hj0 Hba Hl Hby. cbn [fst snd] in *.
  pose proof (write_block_frame b buf d Hd (journal_range j0 b Hj0 Hba) Hl Hby) as Hw.
  pose proof (write_block_healthy (start_block j0 + num_blocks j0) b buf d ltac:(by apply journal_below) Hl) as Hbad.
  unfold Journal.on_disk. cbn [fst snd]. destruct (write_block b buf d) as [r d']. destruct Hw as (Hr & Hd' & Hdev' & Hne & _).
  assert (Hjd : journalled d0 j0 (d', j)).
  { split; [done|]. split; [by eapply same_device_trans|]. split; [done|]. split; [done|]. split; [done|]. cbn [fst snd].
    intros b' Hr' Hn'. rewrite Hne, Hb; [done..|]. by intros ->. }
  destruct Hr as [-> | ->]; [by cbn|]. split; [done|]. intros Hh. apply Hbad; [done|]. by apply (same_device_healthy _ d0).
Qed.

Lemma header_ok m s n t c st : length (in_block (header_bytes m s n t c st)) = BLOCK_SIZE /\ bytes (in_block (header_bytes m s n t c st)).
Proof.
  assert (Hl : length (header_bytes m s n t c st) = HEADER_SIZE)
    by (unfold header_bytes; rewrite !length_app, !length_le_bytes, length_replicate; reflexivity).
  split; [apply length_in_block; rewrite Hl; apply Nat.leb_le; reflexivity|]. apply in_block_bytes. unfold header_bytes.
  rewrite !Forall_app. split_and!; try apply le_bytes_u8; [|apply Forall_replicate; unfold is_u8; lia].
  constructor; [apply u8_range|constructor].
Qed.

Lemma splice_ok off x buf : length buf = BLOCK_SIZE -> bytes buf -> bytes x -> (off + length x <= BLOCK_SIZE)%nat ->
  length (splice off x buf) = BLOCK_SIZE /\ bytes (splice off x buf).
Proof. intros Hl Hb Hx Ho. split; [rewrite length_splice; lia|by apply Forall_splice]. Qed.

Lemma begin_ok d0 j0 d j : journal_ok j0 -> journalled d0 j0 (d, j) ->
  io_ok (fun hdr s => journalled d0 j0 s /\ journal_area j0 hdr /\ next_free s.2 < num_blocks j0)
    (journal_failed d0 j0) (Journal.begin_transaction (d, j)).
Proof.
  intros Hj0 Hjd. pose proof Hjd as (_ & _ & Hs & Hn & (H1 & H2 & H3 & H4) & _). cbn [fst snd] in *.
  change (2 ^ 60) with 1152921504606846976 in H3.
  unfold Journal.begin_transaction, Journal.is_full. rewrite run_bind. unfold Journal.journal, gets. cbn [snd].
  rewrite (u64_small (next_free j + 1)) by (unfold is_u64; lia).
  set (nf := if num_blocks j <=? next_free j + 1 then 1 else next_free j).
  assert (Hnf : 1 <= nf /\ nf + 1 < num_blocks j) by (unfold nf; destruct (Z.leb_spec (num_blocks j) (next_free j + 1)); lia).
  assert (Hset : (if num_blocks j <=? next_free j + 1 then Journal.set_next_free 1 else ret tt) (d, j) =
    (Ok tt, (d, mkJournal (start_block j) (num_blocks j) (sequence j) nf))) by (unfold nf; destruct (_ <=? _), j; done).
  rewrite run_bind, Hset, run_bind. unfold Journal.set_sequence, modify. cbn [fst snd start_block num_blocks sequence next_free].
  rewrite run_bind. cbn [snd start_block num_blocks sequence next_free]. rewrite u64_small by (unfold is_u64; lia).
  set (j1 := mkJournal (start_block j) (num_blocks j) (u64 (sequence j + 1)) nf).
  assert (Hjd1 : journalled d0 j0 (d, j1)).
  { destruct Hjd as (A & B & C & D & E & F). split; [done|]. split; [done|]. split; [done|]. split; [done|]. split; [|done].
    cbn [snd]. split; [done|]. split; [done|]. change (2 ^ 60) with 1152921504606846976. cbn. lia. }
  assert (Harea : journal_area j0 (start_block j + nf)) by (unfold journal_area; rewrite <- Hs, <- Hn; lia).
  destruct (header_ok JOURNAL_MAGIC (u64 (sequence j + 1)) 1 0 0 STATE_ACTIVE) as [Hl Hby].
  apply (io_bind _ _ _ _ _ _ (journal_write d0 j0 d j1 _ _ Hjd1 Hj0 Harea Hl Hby)). intros _ [d2 j2] [Hjd2 Hj2]. cbn in Hj2. subst j2.
  unfold Journal.set_next_free, modify. rewrite run_bind. cbn [fst snd start_block num_blocks sequence next_free io_ok ret].
  rewrite u64_small by (unfold is_u64; lia). cbn. split; [|split; [done|rewrite <- Hn; lia]].
  destruct Hjd2 as (A & B & C & D & E & F). split; [done|]. split; [done|]. split; [done|]. split; [done|]. split; [|done].
  cbn [snd]. split; [done|]. split; [done|]. change (2 ^ 60) with 1152921504606846976. cbn. lia.
Qed.

Lemma journal_data_ok d0 j0 d j hdr t buf : journal_ok j0 -> journalled d0 j0 (d, j) -> journal_area j0 hdr -> next_free j < num_blocks j0 ->
  bytes buf -> io_ok (fun _ => journalled d0 j0) (journal_failed d0 j0) (Journal.journal_data hdr t buf (d, j)).
Proof.
  intros Hj0 Hjd Hhdr Hnf Hb. pose proof Hjd as (_ & _ & Hs & Hn & (H1 & H2 & H3 & H4) & _). cbn [fst snd] in *.
  change (2 ^ 60) with 1152921504606846976 in H3.
  unfold Journal.journal_data. rewrite run_bind. unfold Journal.journal, gets. cbn [snd].
  rewrite (proj2 (Z.leb_gt _ _)) by lia. rewrite u64_small by (unfold is_u64; lia).
  assert (Harea : journal_area j0 (start_block j + next_free j)) by (unfold journal_area; rewrite <- Hs, <- Hn; lia).
  assert (Hl : length (in_block (take BLOCK_SIZE buf)) = BLOCK_SIZE) by (apply length_in_block; rewrite length_take; lia).
  apply (io_bind _ _ _ _ _ _ (journal_write d0 j0 d j _ _ Hjd Hj0 Harea Hl (in_block_bytes _ (Forall_take _ _ _ Hb)))).
  intros _ [d1 j1] [Hjd1 Hj1]. cbn in Hj1. subst j1. rewrite run_bind. unfold Journal.on_disk at 1. cbn [fst snd].
  pose proof (read_block_healthy _ hdr d1 (journal_below _ _ Hj0 Hhdr)) as Hbad.
  destruct (read_block_spec hdr d1) as [->| Hrd]; [|rewrite Hrd; split; [done|]; intros Hh; by apply (Hbad Hrd), (journalled_healthy _ _ _ _ Hjd1)]. pose proof (proj1 Hjd1) as Hd1. cbn [fst] in Hd1.
  rewrite add_target_none by (by apply block_bytes).
  destruct (splice_ok 20 (le_bytes 4 (u32 (h_num_targets (block d1 hdr) + 1))) (block d1 hdr) (block_length _ _ Hd1)
    (block_bytes _ _ Hd1) (le_bytes_u8 _ _)) as [Hl1 Hb1]; [rewrite length_le_bytes; apply Nat.leb_le; reflexivity|].
  fold (set_num_targets (u32 (h_num_targets (block d1 hdr) + 1)) (block d1 hdr)) in Hl1, Hb1.
  set (buf1 := set_num_targets _ _) in *.
  destruct (splice_ok 16 (le_bytes 4 (u32 (h_num_blocks buf1 + 1))) buf1 Hl1 Hb1 (le_bytes_u8 _ _)) as [Hl2 Hb2];
    [rewrite length_le_bytes; apply Nat.leb_le; reflexivity|].
  fold (set_num_blocks (u32 (h_num_blocks buf1 + 1)) buf1) in Hl2, Hb2.
  apply (io_bind _ _ _ _ _ _ (journal_write d0 j0 d1 j _ _ Hjd1 Hj0 Hhdr Hl2 Hb2)).
  intros _ [d2 j2] [Hjd2 Hj2]. cbn in Hj2. subst j2. unfold Journal.set_next_free, modify. rewrite run_bind.
  cbn [fst snd io_ok ret]. rewrite u64_small by (unfold is_u64; lia).
  destruct Hjd2 as (A & B & C & D & E & F). split; [done|]. split; [done|]. split; [done|]. split; [done|]. split; [|done].
  cbn [snd]. split; [done|]. split; [done|]. change (2 ^ 60) with 1152921504606846976. cbn. lia.
Qed.

Lemma commit_ok d0 j0 d j hdr : journal_ok j0 -> journalled d0 j0 (d, j) -> journal_area j0 hdr ->
  io_ok (fun _ => journalled d0 j0) (journal_failed d0 j0) (Journal.commit_transaction hdr (d, j)).
Proof.
  intros Hj0 Hjd Hhdr. unfold Journal.commit_transaction. rewrite run_bind. unfold Journal.on_disk at 1. cbn [fst snd].
  pose proof (read_block_healthy _ hdr d (journal_below _ _ Hj0 Hhdr)) as Hbad.
  destruct (read_block_spec hdr d) as [->| Hrd]; [|rewrite Hrd; split; [done|]; intros Hh; by apply (Hbad Hrd), (journalled_healthy _ _ _ _ Hjd)]. pose proof (proj1 Hjd) as Hd. cbn [fst] in Hd.
  destruct (splice_ok 28 [STATE_COMMITTED] (block d hdr) (block_length _ _ Hd) (block_bytes _ _ Hd)
    ltac:(constructor; [unfold is_u8; cbv; split; congruence|constructor])) as [Hl1 Hb1]; [apply Nat.leb_le; reflexivity|].
  fold (set_state STATE_COMMITTED (block d hdr)) in Hl1, Hb1. set (buf := set_state _ _) in *.
  destruct (splice_ok 24 (le_bytes 4 (fnv1a_checksum buf)) buf Hl1 Hb1 (le_bytes_u8 _ _)) as [Hl2 Hb2];
    [rewrite length_le_bytes; apply Nat.leb_le; reflexivity|].
  pose proof (journal_write d0 j0 d j hdr (set_checksum (fnv1a_checksum buf) buf) Hjd Hj0 Hhdr Hl2 Hb2) as Hw.
  unfold io_ok in *. destruct (Journal.on_disk _ _) as [[] s]; try done. apply Hw.
Qed.

(** ** Inodes on the disk *)

Record inode_wf (i : SkyfsInode) : Prop := {
  wf_mode : is_u16 (mode i); wf_uid : is_u32 (uid i); wf_gid : is_u32 (gid i); wf_size : is_u64 (size i);
  wf_atime : is_u64 (atime i); wf_mtime : is_u64 (mtime i); wf_ctime : is_u64 (ctime i); wf_links : is_u32 (links i);
  wf_flags : is_u32 (flags i); wf_count : is_u64 (block_count i); wf_extents : is_u32 (extent_count i);
  wf_length : length (data i) = MAX_INLINE_DATA; wf_bytes : bytes (data i) }.

(** How much of [data] the 256 bytes of a slot hold. *)
Definition SLOT_DATA : nat := 194.

(** The inode as its slot gives it back: behind the first 194 bytes of [data]
    comes what follows the slot. *)
Lemma inode_roundtrip i rest : inode_wf i ->
  inode_of (take INODE_SIZE (inode_bytes i) ++ rest) =
  set_data (size i) (extent_count i) (take SLOT_DATA (data i) ++ take (MAX_INLINE_DATA - SLOT_DATA) rest) i.
Proof.
  intros [H1 H2 H3 H4 H5 H6 H7 H8 H9 H10 H11 Hl Hb]. unfold inode_bytes, INODE_SIZE.
  repeat (rewrite take_app_ge by (rewrite length_le_bytes; lia); rewrite length_le_bytes; cbn [Nat.sub]; rewrite <- app_assoc).
  unfold inode_of, set_data. f_equal; [read_field; done..|].
  repeat (rewrite slice_skip by (rewrite length_le_bytes; lia); rewrite length_le_bytes; cbn [Nat.sub]).
  unfold slice. rewrite drop_0, take_app, take_take, length_take, Hl. reflexivity.
Qed.

Lemma length_inode_bytes i : length (data i) = MAX_INLINE_DATA -> length (inode_bytes i) = 318%nat.
Proof. intros Hl. unfold inode_bytes. by rewrite !length_app, !length_le_bytes, Hl. Qed.

Lemma inode_bytes_u8 i : bytes (data i) -> bytes (inode_bytes i).
Proof. intros Hb. unfold inode_bytes. rewrite !Forall_app. split_and!; first [apply le_bytes_u8 | exact Hb]. Qed.

Lemma inode_offset_fits ino : (inode_offset ino + INODE_SIZE <= BLOCK_SIZE)%nat.
Proof.
  assert (H : u64 (ino * Z.of_nat INODE_SIZE) mod Z.of_nat BLOCK_SIZE <= 3840).
  { unfold u64. change M64 with 18446744073709551616. change (Z.of_nat INODE_SIZE) with 256. change (Z.of_nat BLOCK_SIZE) with 4096.
    Z.div_mod_to_equations; lia. }
  unfold inode_offset. unfold INODE_SIZE, BLOCK_SIZE in *. lia.
Qed.

(** What an operation on the inode [ino] may change: its block, and the journal. *)
Definition inode_changed (f : Fs) (ino : Z) (f' : Fs) : Prop :=
  f' = set_journal (fs_journal f') (set_dev (dev f') f) /\
  disk_ok (dev f') /\ same_device (dev f) (dev f') /\ journal_ok (fs_journal f') /\
  start_block (fs_journal f') = start_block (fs_journal f) /\ num_blocks (fs_journal f') = num_blocks (fs_journal f) /\
  forall b, in_range b -> ~ journal_area (fs_journal f) b -> b <> inode_block (sb f) ino -> block (dev f') b = block (dev f) b.

(** The block of the inode with the inode in its slot. *)
Definition with_inode (f : Fs) (ino : Z) (i : SkyfsInode) : list Z :=
  splice (inode_offset ino) (take INODE_SIZE (inode_bytes i)) (block (dev f) (inode_block (sb f) ino)).

Lemma unlock_id f d j d0 : fs_locked f = false -> dev_locked f = false ->
  set_fs_locked false (set_dev_locked false (set_journal j (set_dev d (set_dev d0 (set_dev_locked true (set_fs_locked true f)))))) =
  set_journal j (set_dev d f).
Proof. destruct f. cbn. by intros -> ->. Qed.

Section write_inode.
Context (f : Fs) (ino : Z) (i : SkyfsInode).
Context (Hd : disk_ok (dev f)) (Hfl : fs_locked f = false) (Hdl : dev_locked f = false) (Hj : journal_ok (fs_journal f)).
Context (Hr : in_range (inode_block (sb f) ino)) (Hna : ~ journal_area (fs_journal f) (inode_block (sb f) ino)) (Hi : inode_wf i).
Context (n : Z) (Hbn : 0 <= inode_block (sb f) ino < n) (Hjn : start_block (fs_journal f) + num_blocks (fs_journal f) <= n).

Lemma with_inode_ok : length (with_inode f ino i) = BLOCK_SIZE /\ bytes (with_inode f ino i).
Proof using Hd Hi.
  assert (Hlt : length (take INODE_SIZE (inode_bytes i)) = INODE_SIZE)
    by (rewrite length_take, length_inode_bytes by apply Hi; reflexivity).
  apply splice_ok; [by apply block_length|by apply block_bytes|apply Forall_take, inode_bytes_u8, Hi|].
  rewrite Hlt. apply inode_offset_fits.
Qed.

(** The transaction around the write. *)
Lemma inode_transaction_ok :
  let b := inode_block (sb f) ino in
  let changed (s : Disk * Journal) := inode_changed f ino (set_journal s.2 (set_dev s.1 f)) in
  io_ok (fun _ s => changed s /\ block s.1 b = with_inode f ino i) (fun s => changed s /\ ~ healthy n (dev f))
    ((hdr ← Journal.begin_transaction;
      _ ← Journal.journal_data hdr b (with_inode f ino i);
      _ ← Journal.on_disk (write_block b (with_inode f ino i));
      Journal.commit_transaction hdr) (dev f, fs_journal f)).
Proof using All.
  intros b changed. destruct with_inode_ok as [Hl Hby]. set (j0 := fs_journal f) in *.
  assert (Hbase : journalled (dev f) j0 (dev f, j0)) by (unfold journalled; split_and!; done).
  assert (Hch : forall s, journalled (dev f) j0 s -> changed s).
  { intros s (A & B & C & D & E & F). unfold changed, inode_changed. split_and!; try done. intros b' H1 H2 _. by apply F. }
  eapply io_bind; [eapply io_ok_mono; [| |apply (begin_ok _ _ _ _ Hj Hbase)]; [intros ? ? H; exact H|intros s [H Hu]; split; [by apply Hch|intros Hh; by apply Hu, (healthy_mono n)]]|].
  intros hdr [d1 j1] (H1 & Hhdr & Hnf). cbn [snd] in Hnf.
  eapply io_bind; [eapply io_ok_mono; [| |apply (journal_data_ok _ _ _ _ hdr b _ Hj H1 Hhdr Hnf Hby)]; [intros ? ? H; exact H|intros s [H Hu]; split; [by apply Hch|intros Hh; by apply Hu, (healthy_mono n)]]|].
  intros _ [d2 j2] H2. destruct H2 as (A & B & C & D & E & F). cbn [fst snd] in *.
  pose proof (write_block_frame b (with_inode f ino i) d2 A Hr Hl Hby) as Hw.
  pose proof (write_block_healthy n b (with_inode f ino i) d2 Hbn Hl) as Hbad.
  rewrite run_bind. unfold Journal.on_disk at 1. cbn [fst snd].
  destruct (write_block b (with_inode f ino i) d2) as [r d3]. destruct Hw as (Hres & A3 & B3 & F3 & Hok & _).
  assert (Hch3 : forall s, journalled d3 j0 s -> changed s).
  { intros s (A' & B' & C' & D' & E' & F'). unfold changed, inode_changed. split_and!; try done.
    - by eapply same_device_trans, same_device_trans.
    - intros b' G1 G2 G3. cbn [dev set_journal set_dev]. rewrite F', F3, F; done. }
  assert (H3 : journalled d3 j0 (d3, j2)) by (unfold journalled; split_and!; done).
  assert (Hh3 : ~ healthy n d2 -> ~ healthy n (dev f)) by (intros Hu Hh; by apply Hu, (same_device_healthy _ (dev f))).
  destruct Hres as [-> | ->]; [|split; [by apply Hch3|by apply Hh3, Hbad]].
  eapply io_ok_mono; [| |apply (commit_ok _ _ _ _ hdr Hj H3 Hhdr)]; [|intros s [Hs Hu]; split; [by apply Hch3|]].
  2:{ apply Hh3. intros Hh. by apply Hu, (healthy_mono n), (same_device_healthy _ d2). }
  intros [] s Hs. split; [by apply Hch3|]. destruct Hs as (_ & _ & _ & _ & _ & Fs). rewrite Fs by done. by apply Hok.
Qed.

Lemma write_inode_spec :
  io_ok (fun _ f' => inode_changed f ino f' /\ block (dev f') (inode_block (sb f) ino) = with_inode f ino i)
    (fun f' => inode_changed f ino f' /\ ~ healthy n (dev f)) (write_inode_inner ino i f).
Proof using All.
  unfold write_inode_inner, with_fs. rewrite Hfl. rewrite run_bind. unfold gets at 1. rewrite run_with_dev by exact Hdl.
  rewrite run_bind. unfold on_dev at 1. cbn [dev set_fs_locked set_dev_locked sb].
  assert (Hrefl : inode_changed f ino f).
  { unfold inode_changed. split_and!; try done. by destruct f. }
  destruct (read_block_spec (inode_block (sb f) ino) (dev f)) as [->| Hrd].
  2:{ rewrite Hrd. split; [|by apply (read_block_healthy n) in Hrd]. destruct f. cbn in Hfl, Hdl |- *. subst. exact Hrefl. }
  fold (with_inode f ino i). pose proof inode_transaction_ok as Ht. cbn zeta in Ht. unfold on_journal.
  change (dev (set_dev (dev f) (set_dev_locked true (set_fs_locked true f)))) with (dev f).
  change (fs_journal (set_dev (dev f) (set_dev_locked true (set_fs_locked true f)))) with (fs_journal f).
  match type of Ht with io_ok _ _ ?m => destruct m as [r [d' j']] end. rewrite unlock_id by done. exact Ht.
Qed.
End write_inode.
