(* ===== verification/SkyMount.v ===== *)
(** * Formatting and mounting SkyFS

    The invariant of a mounted file system, and that [format] and [mount] of
    [crates/vfs/src/skyfs/mod.rs] establish it. *)

From stdpp Require Import functions.
From S2P Require Import Prelude UserAccess SkyDisk SkyFs SkyFsSound.

(** ** A mounted file system *)

(** The journal, the bitmap and the inodes lie in this order below the data, and
    their blocks are marked as used; no guard is alive. *)
Record mounted_ok (f : Fs) : Prop := {
  mo_disk : disk_ok (dev f);
  mo_bitmap : bitmap_ok (sb f);
  mo_fs_free : fs_locked f = false;
  mo_dev_free : dev_locked f = false;
  mo_journal : journal_ok (fs_journal f);
  mo_journal_end : start_block (fs_journal f) + num_blocks (fs_journal f) <= bitmap_start (sb f);
  mo_bitmap_end : bitmap_start (sb f) + bitmap_blocks (sb f) <= inode_start (sb f);
  mo_inodes : 0 <= inode_count (sb f) <= 4294967296 /\ inode_count (sb f) <= 16 * inode_blocks (sb f);
  mo_inode_end : data_start (sb f) <= total_blocks (sb f);
  mo_reserved : forall b, 0 <= b < data_start (sb f) -> used (sb f) (dev f) b = true }.

Definition valid_ino (f : Fs) (ino : Z) : Prop := 0 <= ino < inode_count (sb f).

(** The bytes of an inode on the disk. *)
Definition slot (f : Fs) (ino : Z) : list Z := slice (inode_offset ino) INODE_SIZE (block (dev f) (inode_block (sb f) ino)).

Lemma total_range f b : mounted_ok f -> 0 <= b < total_blocks (sb f) -> in_range b.
Proof.
  intros Hm Hb. pose proof (total_small _ (mo_bitmap _ Hm)) as H. change (2 ^ 60) with 1152921504606846976 in H. unfold in_range. lia.
Qed.

(** Where an inode is. *)
Lemma inode_place f ino : mounted_ok f -> valid_ino f ino ->
  inode_block (sb f) ino = inode_start (sb f) + ino / 16 /\ inode_offset ino = (256 * Z.to_nat (ino mod 16))%nat /\
  inode_start (sb f) <= inode_block (sb f) ino < data_start (sb f).
Proof.
  intros Hm Hi. pose proof (total_small _ (mo_bitmap _ Hm)) as H. change (2 ^ 60) with 1152921504606846976 in H.
  destruct (mo_bitmap _ Hm) as (H1 & H2 & _). pose proof (mo_bitmap_end _ Hm). pose proof (mo_inodes _ Hm). pose proof (mo_inode_end _ Hm).
  unfold valid_ino, data_start in *. unfold inode_block, inode_offset. change (Z.of_nat INODE_SIZE) with 256. change (Z.of_nat BLOCK_SIZE) with 4096.
  rewrite (u64_small (ino * 256)) by (unfold is_u64, data_start in *; lia). replace (ino * 256 / 4096) with (ino / 16) by (Z.div_mod_to_equations; lia).
  rewrite u64_small by (unfold is_u64; Z.div_mod_to_equations; lia). split; [done|]. split; [|Z.div_mod_to_equations; lia].
  rewrite <- (Z2Nat.inj_mul 256) by (try lia; apply Z.mod_pos_bound; lia). f_equal. Z.div_mod_to_equations; lia.
Qed.

(** Its block is none of the journal, of the bitmap or of a file. *)
Lemma inode_block_meta f ino : mounted_ok f -> valid_ino f ino ->
  in_range (inode_block (sb f) ino) /\ ~ journal_area (fs_journal f) (inode_block (sb f) ino) /\
  ~ bitmap_area (sb f) (inode_block (sb f) ino) /\ used (sb f) (dev f) (inode_block (sb f) ino) = true.
Proof.
  intros Hm Hi. destruct (inode_place f ino Hm Hi) as (_ & _ & Hb). destruct (mo_bitmap _ Hm) as (H1 & H2 & _).
  pose proof (mo_journal_end _ Hm). pose proof (mo_bitmap_end _ Hm). pose proof (mo_inode_end _ Hm).
  split; [apply (total_range f _ Hm); lia|]. unfold journal_area, bitmap_area. split; [lia|]. split; [lia|]. apply (mo_reserved _ Hm). lia.
Qed.

Lemma inode_below f ino : mounted_ok f -> valid_ino f ino -> 0 <= inode_block (sb f) ino < total_blocks (sb f).
Proof.
  intros Hm Hi. destruct (inode_place f ino Hm Hi) as (_ & _ & Hb). destruct (mo_bitmap _ Hm) as (H1 & H2 & _).
  pose proof (mo_bitmap_end _ Hm). pose proof (mo_inode_end _ Hm). lia.
Qed.

Lemma journal_meta f b : mounted_ok f -> journal_area (fs_journal f) b -> used (sb f) (dev f) b = true /\ 0 <= b < total_blocks (sb f).
Proof.
  intros Hm Hb. destruct (mo_bitmap _ Hm) as (H1 & H2 & _). destruct (mo_journal _ Hm) as (H3 & _). unfold journal_area in Hb.
  pose proof (mo_journal_end _ Hm). pose proof (mo_bitmap_end _ Hm). pose proof (mo_inode_end _ Hm). pose proof (mo_inodes _ Hm).
  unfold data_start in *. split; [apply (mo_reserved _ Hm); unfold data_start; lia|lia].
Qed.

Lemma journal_end_below f : mounted_ok f -> start_block (fs_journal f) + num_blocks (fs_journal f) <= total_blocks (sb f).
Proof. intros Hm. destruct (mo_bitmap _ Hm) as (? & ? & ? & ?). pose proof (mo_journal_end _ Hm). lia. Qed.

Lemma mounted_reserved f : mounted_ok f -> bitmap_reserved (sb f) (dev f).
Proof.
  intros Hm b Hb. pose proof (mo_bitmap_end _ Hm). pose proof (mo_inodes _ Hm). destruct (mo_bitmap _ Hm) as (H1 & _).
  apply (mo_reserved _ Hm). unfold bitmap_area, data_start in *. lia.
Qed.

(** Storing the blocks of a file keeps the invariant. *)
Lemma isolated_mounted f f' : mounted_ok f -> isolated f f' -> mounted_ok f'.
Proof.
  intros Hm Hi. destruct (only_dev_sb _ _ (i_dev _ _ Hi)) as (Hsb & Hfl & Hdl & Hj & _). destruct Hm.
  split; rewrite ?Hsb, ?Hfl, ?Hdl, ?Hj; try done; [apply Hi|]. intros b Hb. apply (i_used _ _ Hi); [|by auto].
  destruct mo_bitmap0 as (? & ? & ? & ?). lia.
Qed.

Lemma used_same s d d' n : (forall b, bitmap_area s b -> block d' b = block d b) -> 0 <= n < bitmap_blocks s * BITS ->
  used s d' n = used s d n.
Proof. intros Hb Hn. unfold used. rewrite Hb; [done|]. unfold bitmap_area. Z.div_mod_to_equations; lia. Qed.

(** ... and so does writing an inode. *)
Lemma inode_changed_mounted f ino f' : mounted_ok f -> valid_ino f ino -> inode_changed f ino f' ->
  mounted_ok f' /\ forall n, 0 <= n < total_blocks (sb f) -> used (sb f) (dev f') n = used (sb f) (dev f) n.
Proof.
  intros Hm Hi (Hf & Hd & _ & Hj & Hs & Hn & Hb). destruct (inode_block_meta f ino Hm Hi) as (_ & _ & Hnb & _).
  assert (Hsb : sb f' = sb f /\ fs_locked f' = fs_locked f /\ dev_locked f' = dev_locked f) by (rewrite Hf; done).
  destruct Hsb as (Hsb & Hfl & Hdl).
  assert (Hused : forall n, 0 <= n < total_blocks (sb f) -> used (sb f) (dev f') n = used (sb f) (dev f) n).
  { intros n Hnt. destruct (mo_bitmap _ Hm) as (H1 & H2 & H3 & H4). apply used_same; [|lia]. intros b Hba.
    change (2 ^ 40) with 1099511627776 in H3. pose proof (mo_journal_end _ Hm). unfold bitmap_area in *.
    apply Hb; [unfold in_range; lia|unfold journal_area; lia|intros ->; done]. }
  split; [|done]. destruct Hm. split; rewrite ?Hsb, ?Hfl, ?Hdl, ?Hs, ?Hn; try done.
  intros b Hbd. rewrite Hused by lia. auto.
Qed.

(** ** Formatting *)

Lemma used_bits_ok n : length (used_bits n) = BLOCK_SIZE /\ bytes (used_bits n) /\
  forall b, (b < n)%nat -> Z.testbit (used_bits n !!! (b / 8 mod BLOCK_SIZE)%nat) (Z.of_nat (b mod 8)) = true.
Proof.
  unfold used_bits. induction n as [|n (IHl & IHb & IH)].
  { split; [apply length_replicate|]. split; [apply Forall_replicate; unfold is_u8; lia|]. intros b Hb. lia. }
  rewrite seq_S, foldl_app. cbn [foldl plus]. set (buf := foldl _ _ _) in *.
  assert (Hk : 0 <= Z.of_nat (n mod 8) < 8) by (pose proof (Nat.mod_upper_bound n 8); lia).
  split; [by rewrite length_set_bit|]. split; [by apply set_bit_bytes|]. intros b Hb.
  rewrite set_bit_bit; [|rewrite IHl; by apply Nat.mod_upper_bound|done|lia]. destruct (decide (b = n)) as [->|Hne].
  - rewrite Nat.eqb_refl, Z.eqb_refl. apply orb_true_r.
  - rewrite IH by lia. done.
Qed.

(** The layout of a device of [total] blocks. *)
Lemma layout_ok total : 128 <= total <= 2 ^ 54 ->
  let s := layout total in
  bitmap_ok s /\ total_blocks s = total /\ bitmap_start s = 65 /\ 1 <= bitmap_blocks s /\ inode_start s = 65 + bitmap_blocks s /\
  256 <= inode_count s <= 65536 /\ inode_count s <= 16 * inode_blocks s /\ data_start s <= total.
Proof.
  change (2 ^ 54) with 18014398509481984. intros Ht s. unfold bitmap_ok, data_start. cbn [s layout bitmap_start bitmap_blocks total_blocks inode_start inode_count inode_blocks].
  change (2 ^ 40) with 1099511627776. unfold div_ceil. change inodes_per_block with 16. change (Z.of_nat BLOCK_SIZE * 8) with 32768.
  split_and!; try lia; Z.div_mod_to_equations; lia.
Qed.

Definition super_wf (s : Superblock) : Prop :=
  is_u64 (magic s) /\ is_u32 (version s) /\ is_u32 (block_size s) /\ is_u64 (total_blocks s) /\ is_u64 (journal_start s) /\
  is_u64 (journal_blocks s) /\ is_u64 (bitmap_start s) /\ is_u64 (bitmap_blocks s) /\ is_u64 (inode_start s) /\
  is_u64 (inode_count s) /\ is_u64 (inode_blocks s) /\ is_u64 (root_inode s) /\ is_u8 (state s).

Lemma length_superblock s : length (superblock_bytes s) = BLOCK_SIZE.
Proof. unfold superblock_bytes. rewrite !length_app, !length_le_bytes, length_replicate. reflexivity. Qed.

Lemma superblock_u8 s : bytes (superblock_bytes s).
Proof.
  unfold superblock_bytes. rewrite !Forall_app. split_and!; try apply le_bytes_u8. apply Forall_replicate. unfold is_u8. lia.
Qed.

Lemma superblock_roundtrip s : super_wf s -> superblock_of (in_block (superblock_bytes s)) = s.
Proof.
  intros (H1 & H2 & H3 & H4 & H5 & H6 & H7 & H8 & H9 & H10 & H11 & H12 & H13).
  rewrite in_block_app, length_superblock, Nat.sub_diag, app_nil_r by (rewrite length_superblock; done).
  destruct s as [x1 x2 x3 x4 x5 x6 x7 x8 x9 x10 x11 x12 x13]. unfold superblock_of, superblock_bytes. cbn [magic version block_size total_blocks journal_start journal_blocks
    bitmap_start bitmap_blocks inode_start inode_count inode_blocks root_inode state] in *.
  f_equal; read_field; done.
Qed.

Lemma layout_wf total : 128 <= total <= 2 ^ 54 -> super_wf (layout total).
Proof.
  intros Ht. destruct (layout_ok total Ht) as (Hb & H1 & H2 & H3 & H4 & H5 & H6 & H7). destruct Hb as (_ & _ & Hb & _).
  change (2 ^ 54) with 18014398509481984 in Ht. change (2 ^ 40) with 1099511627776 in Hb. unfold data_start in H7.
  unfold super_wf, is_u64, is_u32, is_u8. rewrite H1, H2, H4. split_and!; try lia; try (vm_compute; congruence).
Qed.

Section format.
Context (d : Disk) (Hd : disk_ok d) (total : Z) (Ht : 128 <= total <= 2 ^ 54).
Let s : Superblock := layout total.

(** Block 0 and the first [k] blocks of the bitmap are written. *)
Definition formatted (k : Z) (d' : Disk) : Prop :=
  disk_ok d' /\ same_device d d' /\ block d' 0 = in_block (superblock_bytes s) /\
  forall j, 0 <= j < k -> block d' (65 + j) = used_bits (Z.to_nat (data_start s)).

Lemma total_in_range b : 0 <= b < total -> in_range b.
Proof using Ht. change (2 ^ 54) with 18014398509481984 in Ht. unfold in_range. lia. Qed.

(** Writing another block. *)
Lemma format_write k b buf d1 : formatted k d1 -> 0 < b < total -> b < 65 \/ 65 + k <= b -> 65 + k <= total -> length buf = BLOCK_SIZE -> bytes buf ->
  io_ok (fun _ d' => formatted k d' /\ block d' b = buf) (fun _ => ~ healthy total d) (write_block b buf d1).
Proof using Ht.
  intros (Hd1 & Hs1 & H0 & Hbm) Hb Hout Hk Hl Hby. pose proof (write_block_frame b buf d1 Hd1 (total_in_range b ltac:(lia)) Hl Hby) as Hw.
  pose proof (write_block_healthy total b buf d1 ltac:(lia) Hl) as Hbad.
  destruct (write_block b buf d1) as [r d']. destruct Hw as (Hr & Hd' & Hs' & Hne & Hok & _). cbn [fst] in Hbad.
  destruct Hr as [-> | ->]; cbn [io_ok].
  - split; [|by apply Hok]. split; [done|]. split; [by eapply same_device_trans|]. split; [rewrite Hne; [done|apply total_in_range; lia|lia]|].
    intros j Hj. rewrite Hne; [by apply Hbm|apply total_in_range; lia|lia].
  - intros Hh. apply Hbad; [done|]. by eapply same_device_healthy.
Qed.

Lemma format_read k b d1 : formatted k d1 -> 0 <= b < total ->
  io_ok (fun buf d' => formatted k d' /\ length buf = BLOCK_SIZE /\ bytes buf) (fun _ => ~ healthy total d) (read_block b d1).
Proof using.
  intros Hf Hb. destruct (read_block_spec b d1) as [->|Hr]; cbn [io_ok].
  - split; [done|]. split; [by apply block_length, Hf|by apply block_bytes, Hf].
  - rewrite Hr. intros Hh. apply (read_block_healthy total b d1 Hb Hr). eapply same_device_healthy; [apply Hf|done].
Qed.

Lemma format_other k b buf d1 : formatted k d1 -> 0 < b < total -> b < 65 \/ 65 + k <= b -> 65 + k <= total -> length buf = BLOCK_SIZE -> bytes buf ->
  io_ok (fun _ => formatted k) (fun _ => ~ healthy total d) (write_block b buf d1).
Proof using Ht.
  intros. eapply io_ok_mono; [| |apply (format_write k b buf d1)]; try done. by intros ? ? [? _].
Qed.

Lemma format_journal d1 : formatted 0 d1 -> io_ok (fun _ => formatted 0) (fun _ => ~ healthy total d) (Journal.init_device 1 64 d1).
Proof using Ht.
  intros Hf. unfold Journal.init_device. destruct (header_ok JOURNAL_MAGIC 0 (u32 64) 0 0 STATE_EMPTY) as [Hl Hb].
  eapply io_bind; [apply (format_other 0 1 _ d1 Hf ltac:(lia) ltac:(lia) ltac:(lia) Hl Hb)|].
  intros [] d2 Hf2. pose proof (repeat_z_ok (Journal.zero_block 1) 63 (fun k a d' => a = 1 + k /\ formatted 0 d') (fun _ _ => False)
    (fun _ => ~ healthy total d)) as Hloop. cbn zeta in Hloop.
  eapply io_bind; [apply Hloop|intros [a|] d3 H3; [apply H3|done]]; [|done].
  intros k a d3 Hk [-> Hf3]. unfold Journal.zero_block. rewrite u64_small by (unfold is_u64; lia).
  eapply io_bind; [apply (format_other 0 _ _ d3 Hf3); try lia; [apply length_replicate|apply Forall_replicate; unfold is_u8; lia]|].
  intros [] d4 Hf4. cbn. split; [lia|done].
Qed.

Lemma format_bitmap d1 : formatted 0 d1 ->
  io_ok (fun _ => formatted (bitmap_blocks s)) (fun _ => ~ healthy total d)
    (repeat_z (write_bitmap 65 (used_bits (Z.to_nat (data_start s)))) (bitmap_blocks s) 0 d1).
Proof using Ht.
  intros Hf. destruct (layout_ok total Ht) as (Hbo & H1 & H2 & H3 & H4 & _). fold s in Hbo, H1, H2, H3, H4.
  destruct Hbo as (_ & _ & _ & Hbo).
  destruct (used_bits_ok (Z.to_nat (data_start s))) as (Hl & Hb & _). set (buf := used_bits _) in *.
  pose proof (repeat_z_ok (write_bitmap 65 buf) (bitmap_blocks s) (fun k a d' => a = k /\ formatted k d') (fun (_ : unit) _ => False)
    (fun _ => ~ healthy total d)) as Hloop. cbn zeta in Hloop.
  eapply io_ok_mono; [| |apply Hloop]; [|done|..|done].
  { rewrite Z.max_r by lia. intros [a|] d2 H; [apply H|done]. }
  intros k a d2 Hk [-> Hf2]. unfold write_bitmap.
  eapply io_bind; [apply (format_write k (65 + k) buf d2 Hf2); [lia|lia|lia|done|done]|].
  intros [] d3 [(G1 & G2 & G3 & G4) Hblk]. cbn. split; [done|]. split; [done|]. split; [done|]. split; [done|].
  intros j Hj. destruct (Z.eq_dec j k) as [->|]; [done|]. apply G4. lia.
Qed.

(** The inode of the root directory is written with its two entries. *)

Lemma inode_slot_ok i off buf : length buf = BLOCK_SIZE -> bytes buf -> bytes (data i) -> (off + INODE_SIZE <= BLOCK_SIZE)%nat ->
  length (splice off (take INODE_SIZE (inode_bytes i)) buf) = BLOCK_SIZE /\ bytes (splice off (take INODE_SIZE (inode_bytes i)) buf).
Proof using.
  intros Hl Hb Hi Ho. apply splice_ok; [done|done|by apply Forall_take, inode_bytes_u8|]. rewrite length_take. lia.
Qed.

Lemma entry_bytes_u8 e : bytes (entry_bytes e).
Proof using. unfold entry_bytes. rewrite !Forall_app. split_and!; apply le_bytes_u8. Qed.

Definition dirent_padded (name : list Z) : nat := ((ENTRY_SIZE + length name + 3) / 4 * 4)%nat.

Lemma write_dirent_runs {S} buf off e name (st : S) : (off + dirent_padded name <= length buf)%nat ->
  write_dirent buf off e name st =
    (Ok (splice off (entry_bytes (mkEntry (d_inode e) (u16 (Z.of_nat (dirent_padded name))) (name_len e) (file_type e)) ++ name) buf,
      ((off + ENTRY_SIZE + length name + 3) / 4 * 4)%nat), st).
Proof using. intros Hl. unfold write_dirent. fold (dirent_padded name). rewrite (proj2 (Nat.ltb_ge _ _)) by done. done. Qed.

(** The inode of the root directory and its two entries. *)
Lemma format_root d1 : formatted (bitmap_blocks s) d1 ->
  io_ok (fun _ => formatted (bitmap_blocks s)) (fun _ => ~ healthy total d)
    ((let root := mkInode (S_IFDIR + 0x1ED) 0 0 0 0 0 0 2 0 0 0 (replicate MAX_INLINE_DATA 0) in
      let root_block := inode_start s + 1 / inodes_per_block in
      let root_off := Z.to_nat (1 mod inodes_per_block * Z.of_nat INODE_SIZE) in
      buf ← read_block root_block;
      _ ← write_block root_block (splice root_off (take INODE_SIZE (inode_bytes root)) buf);
      '(rd, off) ← write_dirent (replicate MAX_INLINE_DATA 0) 0 (mkEntry 1 12 1 0) dot;
      '(rd, off) ← write_dirent rd off (mkEntry 1 12 2 0) dot_dot;
      buf ← read_block root_block;
      let root := inode_of (drop root_off buf) in
      let root := set_data (Z.of_nat off) (extent_count root) (splice 0 (take off rd) (data root)) root in
      write_block root_block (splice root_off (take INODE_SIZE (inode_bytes root)) buf)) d1).
Proof using Ht.
  intros Hf. cbv zeta. destruct (layout_ok total Ht) as (Hbo & H1 & H2 & H3 & H4 & H5 & H6 & H7). fold s in Hbo, H1, H2, H3, H4, H5, H6, H7.
  change (1 / inodes_per_block) with 0. change (Z.to_nat (1 mod inodes_per_block * Z.of_nat INODE_SIZE)) with 256%nat.
  rewrite Z.add_0_r. unfold data_start in H7.
  eapply io_bind; [apply (format_read _ (inode_start s) d1 Hf); lia|]. intros buf d2 (Hf2 & Hl & Hb).
  assert (Hz : bytes (replicate MAX_INLINE_DATA 0)) by (apply Forall_replicate; unfold is_u8; lia).
  assert (Hfit : (256 + INODE_SIZE <= BLOCK_SIZE)%nat) by (apply Nat.leb_le; reflexivity).
  match goal with |- context [splice 256 (take INODE_SIZE (inode_bytes ?i)) buf] => destruct (inode_slot_ok i 256 buf Hl Hb Hz Hfit) as [Hl1 Hb1] end.
  eapply io_bind; [apply (format_other _ (inode_start s) _ d2 Hf2 ltac:(lia) ltac:(lia) ltac:(lia) Hl1 Hb1)|].
  intros [] d3 Hf3. rewrite run_bind, write_dirent_runs by (apply Nat.leb_le; reflexivity). cbn iota beta.
  rewrite run_bind, write_dirent_runs by (rewrite length_splice by (apply Nat.leb_le; reflexivity); apply Nat.leb_le; reflexivity). cbn iota beta.
  eapply io_bind; [apply (format_read _ (inode_start s) d3 Hf3); lia|]. intros buf2 d4 (Hf4 & Hl2 & Hb2).
  match goal with |- context [splice 256 (take INODE_SIZE (inode_bytes ?i)) buf2] => assert (Hi : bytes (data i)); [|
    destruct (inode_slot_ok i 256 buf2 Hl2 Hb2 Hi Hfit) as [Hl3 Hb3]] end.
  { cbn [data set_data]. apply Forall_splice; [apply Forall_take|apply Forall_slice, Forall_drop, Hb2].
    assert (Hdots : bytes dot /\ bytes dot_dot) by (split; repeat constructor; unfold is_u8; lia).
    repeat (apply Forall_splice; [apply Forall_app; split; [apply entry_bytes_u8|apply Hdots]|]). exact Hz. }
  apply (format_other _ (inode_start s) _ d4 Hf4 ltac:(lia) ltac:(lia) ltac:(lia) Hl3 Hb3).
Qed.
End format.

(** What [format] leaves on the device. *)
Lemma format_spec d sectors : disk_ok d -> sector_count d = Some sectors -> 0 <= sectors <= 2 ^ 57 ->
  let total := sectors / 8 in
  io_ok (fun _ d' => 128 <= total /\ formatted d total (bitmap_blocks (layout total)) d') (fun _ => total < 128 \/ ~ healthy total d) (format d).
Proof.
  intros Hd Hc Hs total. unfold format. rewrite Hc. change SECTORS_PER_BLOCK with 8. fold total.
  change (2 ^ 57) with 144115188075855872 in Hs.
  destruct (Z.ltb_spec total 128) as [Hlt|Hge]; [by left|].
  assert (Ht : 128 <= total <= 2 ^ 54) by (change (2 ^ 54) with 18014398509481984; unfold total in *; Z.div_mod_to_equations; lia).
  eapply io_ok_mono with (P := fun _ => formatted d total (bitmap_blocks (layout total))) (E := fun _ => ~ healthy total d); [done|by right|].
  cbv zeta. change (journal_blocks (layout total)) with 64. change (bitmap_start (layout total)) with 65.
  assert (Hsb : length (in_block (superblock_bytes (layout total))) = BLOCK_SIZE /\ bytes (in_block (superblock_bytes (layout total)))).
  { split; [apply length_in_block; by rewrite length_superblock|apply in_block_bytes, superblock_u8]. }
  eapply io_bind with (P := fun _ => formatted d total 0).
  { pose proof (write_block_frame 0 _ d Hd (total_in_range total Ht 0 ltac:(lia)) (proj1 Hsb) (proj2 Hsb)) as Hw.
    pose proof (write_block_healthy total 0 _ d ltac:(lia) (proj1 Hsb)) as Hbad.
    destruct (write_block 0 _ d) as [r d1]. destruct Hw as (Hr & Hd1 & Hs1 & _ & Hok & _).
    destruct Hr as [-> | ->]; [|by apply Hbad]. split; [done|]. split; [done|]. split; [by apply Hok|]. intros j Hj. lia. }
  intros [] d1 Hf1. eapply io_bind; [apply (format_journal d total Ht d1 Hf1)|]. intros [] d2 Hf2.
  eapply io_bind; [apply (format_bitmap d total Ht d2 Hf2)|]. intros r d3 Hf3. exact (format_root d total Ht d3 Hf3).
Qed.

(** ** Mounting *)

(** Recovery leaves the blocks outside the journal. *)
Lemma marked_block j d d' b : 0 <= start_block j -> start_block j + num_blocks j <= 2 ^ 60 -> only_marked j d d' -> in_range b ->
  ~ (start_block j <= b < start_block j + num_blocks j) -> block d' b = block d b.
Proof.
  change (2 ^ 60) with 1152921504606846976. intros H0 Hend (_ & Hs) Hb Hout. unfold block. apply sectors_from_ext. intros k Hk.
  destruct (Hs (u64 (block_to_sector b + Z.of_nat k))) as [->|(i & Hi & Heq & _)]; [done|]. exfalso. unfold in_range in *.
  rewrite block_to_sector_range in Heq by done. rewrite (u64_small (start_block j + i)) in Heq by (unfold is_u64; lia).
  unfold block_to_sector, SECTORS_PER_BLOCK in Heq. rewrite u64_small in Heq by (unfold is_u64; lia). lia.
Qed.

(** [set_state] leaves every block but the first. *)
Lemma set_state_frame st d : disk_ok d -> is_u8 st ->
  let '(r, d') := set_fs_state st d in
  (r = Ok tt \/ r = Err) /\ disk_ok d' /\ same_device d d' /\ (forall b, in_range b -> b <> 0 -> block d' b = block d b) /\
  (r = Ok tt -> block d' 0 = <[38%nat := st]> (block d 0)).
Proof.
  intros Hd Hst. unfold set_fs_state. rewrite run_bind. destruct (read_block_spec 0 d) as [->|Hr]; [|rewrite Hr; split_and!; auto; done].
  assert (Hl : length (<[38%nat := st]> (block d 0)) = BLOCK_SIZE) by (rewrite length_insert; by apply block_length).
  assert (Hb : bytes (<[38%nat := st]> (block d 0))) by (apply Forall_insert; [by apply block_bytes|done]).
  pose proof (write_block_frame 0 _ d Hd ltac:(unfold in_range; lia) Hl Hb) as Hw.
  destruct (write_block 0 _ d) as [r d']. destruct Hw as (H1 & H2 & H3 & H4 & H5 & _). split_and!; auto.
Qed.

(** Mounting ignores the errors of both. *)
Lemma mount_quiet d j : disk_ok d -> 0 <= start_block j -> 0 <= num_blocks j -> start_block j + num_blocks j <= 2 ^ 60 ->
  exists d', (_ ← ignore (fun d => let '(r, (d, _)) := Journal.recover_from_dev (d, j) in (r, d)); ignore (set_fs_state STATE_DIRTY)) d = (Ok tt, d') /\
  disk_ok d' /\ same_device d d' /\
  forall b, in_range b -> b <> 0 -> ~ (start_block j <= b < start_block j + num_blocks j) -> block d' b = block d b.
Proof.
  intros Hd H0 Hn Hend. pose proof (recover_marks d j Hd Hn) as Hrec. rewrite run_bind. unfold ignore at 1. cbv beta.
  destruct (Journal.recover_from_dev (d, j)) as [r [d2 j2]]. destruct Hrec as [Hres Hmk].
  pose proof (only_marked_ok j d d2 Hd Hmk) as Hd2.
  pose proof (set_state_frame STATE_DIRTY d2 Hd2 ltac:(unfold is_u8, STATE_DIRTY; lia)) as Hst. unfold ignore.
  destruct (set_fs_state STATE_DIRTY d2) as [r3 d3] eqn:Heq3. destruct Hst as (Hr3 & Hd3 & Hs3 & Hb3 & _). exists d3. split_and!.
  - destruct Hres as [-> | ->], Hr3 as [-> | ->]; rewrite Heq3; done.
  - done.
  - eapply same_device_trans; [apply Hmk|done].
  - intros b Hb Hb0 Hout. rewrite Hb3 by done. by apply (marked_block j).
Qed.

Lemma used_formatted total d b : 128 <= total <= 2 ^ 54 ->
  (forall j, 0 <= j < bitmap_blocks (layout total) -> block d (65 + j) = used_bits (Z.to_nat (data_start (layout total)))) ->
  0 <= b < data_start (layout total) -> used (layout total) d b = true.
Proof.
  intros Ht Hbm Hb. destruct (layout_ok total Ht) as (Hbo & H1 & H2 & H3 & H4 & H5 & H6 & H7). destruct Hbo as (_ & _ & _ & Hbo).
  unfold used. rewrite H2, Hbm by (Z.div_mod_to_equations; lia).
  destruct (used_bits_ok (Z.to_nat (data_start (layout total)))) as (_ & _ & Hu). specialize (Hu (Z.to_nat b) ltac:(lia)).
  rewrite Nat2Z.inj_mod, Z2Nat.id in Hu by lia. rewrite <- Hu. f_equal. f_equal. apply Nat2Z.inj.
  rewrite Nat2Z.inj_mod, Nat2Z.inj_div, !Z2Nat.id; [done|lia|]. apply Z.mod_pos_bound. lia.
Qed.

(** Mounting a device of [total] blocks that is formatted. *)
Lemma mount_spec d total d1 : 128 <= total <= 2 ^ 54 -> formatted d total (bitmap_blocks (layout total)) d1 ->
  io_ok (fun r d2 => r = (layout total, Journal.new 1 64) /\ mounted_ok (mounted d2 (layout total) (Journal.new 1 64)) /\ same_device d d2)
    (fun _ => ~ healthy total d) (mount d1).
Proof.
  intros Ht (Hd1 & Hs1 & H0 & Hbm). unfold mount. rewrite run_bind.
  destruct (read_block_spec 0 d1) as [->|Hr].
  2:{ rewrite Hr. intros Hh. apply (read_block_healthy total 0 d1 ltac:(lia) Hr). by eapply same_device_healthy. }
  rewrite H0, superblock_roundtrip by (by apply layout_wf). cbn [magic version layout]. rewrite !Z.eqb_refl. cbn [negb orb].
  change (journal_start (layout total)) with 1. change (journal_blocks (layout total)) with 64.
  change (negb (state (layout total) =? STATE_DIRTY)) with true. cbn iota.
  destruct (mount_quiet d1 (Journal.new 1 64) Hd1) as (d2 & Hrun & Hd2 & Hs2 & Hb2); [cbn; lia..|].
  unfold mbind, Io_bind in Hrun. rewrite run_bind. destruct (ignore _ d1) as [[[]| | |] d1']; try done. rewrite run_bind, Hrun. cbn [io_ok ret].
  split; [done|]. split; [|by eapply same_device_trans].
  destruct (layout_ok total Ht) as (Hbo & H1 & H2 & H3 & H4 & H5 & H6 & H7).
  split; cbn [dev sb fs_journal fs_locked dev_locked mounted]; try done; try lia; try (cbn; lia).
  intros b Hb. apply used_formatted; [done| |done]. intros j Hj. destruct Hbo as (_ & _ & _ & Hbo).
  rewrite Hb2; [by apply Hbm|apply (total_in_range total Ht); lia|lia|cbn; lia].
Qed.

Lemma format_then_mount d sectors : disk_ok d -> sector_count d = Some sectors -> 0 <= sectors <= 2 ^ 57 ->
  let total := sectors / 8 in
  io_ok (fun r d' => 128 <= total /\ r = (layout total, Journal.new 1 64) /\
          mounted_ok (mounted d' (layout total) (Journal.new 1 64)) /\ same_device d d')
    (fun _ => total < 128 \/ ~ healthy total d) ((_ ← format; mount) d).
Proof.
  intros Hd Hc Hs total. eapply io_bind; [apply (format_spec d sectors Hd Hc Hs)|]. intros [] d1 [Hge Hf]. fold total in Hge, Hf.
  assert (Ht : 128 <= total <= 2 ^ 54).
  { change (2 ^ 57) with 144115188075855872 in Hs. change (2 ^ 54) with 18014398509481984. unfold total in *. Z.div_mod_to_equations; lia. }
  eapply io_ok_mono; [| |apply (mount_spec d total d1 Ht Hf)]; [|by right]. by intros r d2 (H1 & H2 & H3).
Qed.

(** Formatting a device and mounting it gives a file system whose journal,
    bitmap and inodes lie in this order below the data, with a bit for every
    block and all of these blocks marked as used; it fails only on a device with
    less than 128 blocks or with a faulty sector. *)
Theorem skyfs_format_mount d sectors :
  disk_ok d -> sector_count d = Some sectors -> 0 <= sectors <= 2 ^ 57 ->
  let total := sectors / 8 in
  io_ok (fun r d' => 128 <= total /\ r = (layout total, Journal.new 1 64) /\
          mounted_ok (mounted d' (layout total) (Journal.new 1 64)))
    (fun _ => total < 128 \/ ~ healthy total d) ((_ ← format; mount) d).
Proof.
  intros Hd Hc Hs total. eapply io_ok_mono; [| |apply (format_then_mount d sectors Hd Hc Hs)]; [|done]. by intros r d' (H1 & H2 & H3 & _).
Qed.

(** A device with 128 blocks. *)
Definition small_disk : Disk :=
  mkDisk (fun _ => replicate SECTOR_SIZE 0) (Some 1024) (fun i => 1024 <=? i) (fun i => 1024 <=? i).

Lemma small_disk_ok : disk_ok small_disk.
Proof. intros i. split; [done|]. apply Forall_replicate. unfold is_u8. lia. Qed.

Definition small_fs : Fs := mounted ((_ ← format; mount) small_disk).2 (layout (1024 / 8)) (Journal.new 1 64).

Lemma small_mounts : ((_ ← format; mount) small_disk).1 = Ok (layout (1024 / 8), Journal.new 1 64).
Proof. vm_compute. reflexivity. Qed.

Lemma skyfs_format_mount_witness :
  mounted_ok (mounted ((_ ← format; mount) small_disk).2 (layout (1024 / 8)) (Journal.new 1 64)).
Proof.
  exact (proj2 (proj2 (io_ok_result _ _ _ _ (skyfs_format_mount small_disk 1024 small_disk_ok eq_refl
    (conj (Zle_bool_imp_le 0 1024 eq_refl) (Zle_bool_imp_le 1024 (2 ^ 57) eq_refl))) small_mounts))).
Defined.

Lemma small_fs_ok : mounted_ok small_fs.
Proof.
  assert (Hs : 0 <= 1024 <= 2 ^ 57) by (split; apply Zle_bool_imp_le; reflexivity).
  pose proof (io_ok_result _ _ _ _ (format_then_mount small_disk 1024 small_disk_ok eq_refl Hs) small_mounts) as H.
  exact (proj1 (proj2 (proj2 H))).
Qed.

Lemma small_fs_healthy : healthy (total_blocks (sb small_fs)) (dev small_fs).
Proof.
  assert (Hs : 0 <= 1024 <= 2 ^ 57) by (split; apply Zle_bool_imp_le; reflexivity).
  pose proof (io_ok_result _ _ _ _ (format_then_mount small_disk 1024 small_disk_ok eq_refl Hs) small_mounts) as (_ & _ & _ & Hdev).
  apply (same_device_healthy _ small_disk); [exact Hdev|]. change (total_blocks (sb small_fs)) with 128.
  intros b k Hb Hk. rewrite u64_small by (unfold is_u64; lia). cbn [read_fails write_fails small_disk].
  split; apply Z.leb_gt; lia.
Qed.

(** [set_state] writes byte 38 of the super block, which is the seventh byte of
    [journal_blocks]: the second mount sees a journal of 2^49 blocks and more,
    which the operations then run through the bitmap, the inodes and the data. *)
Definition journal_length (r : Res (Superblock * Journal)) : option Z := match r with Ok (_, j) => Some (num_blocks j) | _ => None end.

Example second_mount_journal :
  journal_length ((_ ← format; mount) small_disk).1 = Some 64 /\
  journal_length ((_ ← format; _ ← mount; mount) small_disk).1 = Some (64 + 2 * 2 ^ 48).
Proof. split; vm_compute; reflexivity. Qed.
