(* ===== verification/SkyAlloc.v ===== *)
(** * The block allocator of SkyFS refines a set of free blocks

    [allocate_block_inner] and [free_block] of
    [crates/vfs/src/skyfs/block_alloc.rs], run one after the other on a device
    without faults, give what an allocator gives that always takes the least
    free number. *)

From stdpp Require Import functions.
From S2P Require Import Prelude UserAccess SkyDisk SkyFs SkyFsSound SkyMount.

(** ** Freeing a block *)

Definition clear_bit (i : nat) (bit : Z) (buf : list Z) : list Z :=
  alter (fun x => Z.land x (u8 (Z.lnot (Z.shiftl 1 bit)))) i buf.

Lemma mask_bit k q : 0 <= k < 8 -> 0 <= q < 8 -> Z.testbit (u8 (Z.lnot (Z.shiftl 1 k))) q = negb (q =? k).
Proof.
  intros Hk Hq. unfold u8. change M8 with (2 ^ 8). rewrite Z.mod_pow2_bits_low by lia. rewrite Z.lnot_spec by lia.
  rewrite Z.shiftl_spec by lia. f_equal. change 1 with (2 ^ 0). rewrite Z.pow2_bits_eqb by lia.
  destruct (Z.eqb_spec 0 (q - k)), (Z.eqb_spec q k); lia.
Qed.

Lemma clear_bit_bit i k buf j q : (i < length buf)%nat -> 0 <= k < 8 -> 0 <= q < 8 ->
  Z.testbit (clear_bit i k buf !!! j) q = Z.testbit (buf !!! j) q && negb ((j =? i)%nat && (q =? k)).
Proof.
  intros Hi Hk Hq. unfold clear_bit. destruct (Nat.eqb_spec j i) as [->|Hne].
  - rewrite list_lookup_total_alter_eq by done. cbv beta. by rewrite Z.land_spec, mask_bit.
  - rewrite list_lookup_total_alter_ne by done. by rewrite andb_true_r.
Qed.

Lemma clear_bit_bytes i k buf : bytes buf -> bytes (clear_bit i k buf).
Proof.
  intros Hb. unfold clear_bit. apply Forall_alter; [done|]. intros x Hx Hu.
  set (m := u8 _). assert (Hm : is_u8 m) by apply u8_range. unfold is_u8 in *. assert (H0 : 0 <= Z.land x m) by (apply Z.land_nonneg; lia).
  split; [done|]. destruct (Z.eq_dec (Z.land x m) 0) as [->|Hnz]; [lia|]. change 256 with (2 ^ 8). apply Z.log2_lt_pow2; [lia|].
  pose proof (Z.log2_land x m ltac:(lia) ltac:(lia)). pose proof (Z.log2_le_mono x 255 ltac:(lia)) as Hx255. change (Z.log2 255) with 7 in Hx255. lia.
Qed.

(** Every other block of the file system stays, and the block is not used any
    more. *)
Lemma free_spec f b : fs_ok f -> dev_locked f = false -> 0 <= b < total_blocks (sb f) ->
  let s := sb f in
  io_ok (fun _ f' => only_dev f f' /\ disk_ok (dev f') /\ same_device (dev f) (dev f') /\
          (forall b', in_range b' -> ~ bitmap_area s b' -> block (dev f') b' = block (dev f) b') /\
          forall n, 0 <= n < bitmap_blocks s * BITS -> used s (dev f') n = used s (dev f) n && negb (n =? b))
    (fun f' => ~ healthy (total_blocks s) (dev f)) (free_block b f).
Proof.
  intros (Hd & Hs & Hl) Hdl Hb s. pose proof Hs as (H1 & H2 & H3 & H4). fold s in H1, H2, H3, H4, Hb, Hs.
  change (2 ^ 40) with 1099511627776 in H3. unfold free_block, with_fs. rewrite Hl. rewrite run_bind. unfold gets.
  rewrite run_with_dev by done. unfold on_dev. cbn [sb dev set_fs_locked set_dev_locked]. fold s.
  change (Z.of_nat BLOCK_SIZE * 8) with BITS. change (Z.of_nat BLOCK_SIZE) with 4096.
  assert (Hbb : 0 <= b / BITS < bitmap_blocks s) by (Z.div_mod_to_equations; lia).
  pose proof (bitmap_below s _ Hs Hbb) as Hbelow. rewrite u64_small in Hbelow |- * by (unfold is_u64; lia).
  set (bm := bitmap_start s + b / BITS) in *. set (i := Z.to_nat (b / 8 mod 4096)).
  assert (Hi : (i < 4096)%nat) by (unfold i; pose proof (Z.mod_pos_bound (b / 8) 4096); lia).
  assert (Hk : 0 <= b mod 8 < 8) by (apply Z.mod_pos_bound; lia).
  rewrite run_bind. destruct (read_block_spec bm (dev f)) as [->|Hr]; [|rewrite Hr; by apply (read_block_healthy _ bm)].
  fold (clear_bit i (b mod 8) (block (dev f) bm)). set (buf := clear_bit _ _ _).
  assert (Hlen : length buf = BLOCK_SIZE) by (unfold buf, clear_bit; rewrite length_alter; by apply block_length).
  assert (Hby : bytes buf) by (by apply clear_bit_bytes, block_bytes).
  pose proof (write_block_frame bm buf (dev f) Hd ltac:(unfold in_range; lia) Hlen Hby) as Hw.
  pose proof (write_block_healthy _ bm buf (dev f) Hbelow Hlen) as Hbad.
  destruct (write_block bm buf (dev f)) as [r d']. destruct Hw as (Hr & Hd' & Hdev & Hne & Hok & _). cbn [fst] in Hbad.
  destruct Hr as [-> | ->]; [|by apply Hbad]. specialize (Hok eq_refl). cbn [io_ok].
  assert (Hset : set_fs_locked false (set_dev_locked false (set_dev d' (set_dev_locked true (set_fs_locked true f)))) = set_dev d' f)
    by (destruct f; cbn in *; by subst). rewrite Hset. split_and!; try done.
  - intros b' Hr' Hn. apply Hne; [done|]. intros ->. apply Hn. unfold bitmap_area. lia.
  - intros n Hn. destruct (number_parts n ltac:(lia)) as (j & q & Hj & Hq & Hnum). change (dev (set_dev d' f)) with d'.
    assert (Hnb : 0 <= n / BITS < bitmap_blocks s) by (Z.div_mod_to_equations; lia).
    rewrite Hnum, !used_number by done. destruct (Z.eq_dec (n / BITS) (b / BITS)) as [Heq|Hneq].
    + rewrite Heq. fold bm. rewrite Hok. unfold buf. rewrite clear_bit_bit; [|rewrite block_length by done; exact Hi|done|done]. do 2 f_equal.
      unfold bit_number, i in *. destruct (Nat.eqb_spec j (Z.to_nat (b / 8 mod 4096))) as [Hji|Hji], (Z.eqb_spec q (b mod 8)) as [Hqk|Hqk]; cbn [andb];
        symmetry; (apply Z.eqb_eq + apply Z.eqb_neq); Z.div_mod_to_equations; lia.
    + rewrite Hne by (unfold in_range; lia).
      replace (_ =? b) with false; [by rewrite andb_true_r|]. symmetry. apply Z.eqb_neq. rewrite <- Hnum. intros ->. done.
Qed.

(** ** The abstract allocator *)

Inductive Op := Alloc | Free (b : Z).

(** The least number below [total] that is not used. *)
Definition least (total : Z) (u : Z -> bool) : option Z := List.find (fun n => negb (u n)) (seqZ 0 total).

Definition set_step (total : Z) (u : Z -> bool) (op : Op) : Res Z * (Z -> bool) :=
  match op with
  | Alloc => match least total u with Some n => (Ok n, <[n := true]> u) | None => (Err, u) end
  | Free b => (Ok b, <[b := false]> u)
  end.

Definition disk_step (op : Op) : Io Fs Z :=
  match op with Alloc => allocate_block_inner | Free b => _ ← free_block b; ret b end.

Fixpoint run {S} (step : Op -> S -> Res Z * S) (ops : list Op) (s : S) : list (Res Z) * S :=
  match ops with
  | [] => ([], s)
  | op :: ops => let '(r, s) := step op s in let '(rs, s) := run step ops s in (r :: rs, s)
  end.

Lemma find_first (P : Z -> bool) m : forall lo n, lo <= n < lo + Z.of_nat m -> P n = true -> (forall k, lo <= k < n -> P k = false) ->
  List.find P (seqZ lo (Z.of_nat m)) = Some n.
Proof.
  induction m as [|m IH]; intros lo n Hn Hp Hk; [lia|]. rewrite seqZ_cons by lia. cbn [List.find].
  destruct (Z.eq_dec lo n) as [->|Hne]; [by rewrite Hp|]. rewrite Hk by lia.
  replace (Z.pred (Z.of_nat (S m))) with (Z.of_nat m) by lia. apply IH; [lia|done|]. intros k Hk'. apply Hk. lia.
Qed.

Lemma least_some total u n : 0 <= n < total -> u n = false -> (forall k, 0 <= k < n -> u k = true) -> least total u = Some n.
Proof.
  intros Hn Hu Hk. unfold least. rewrite <- (Z2Nat.id total) by lia. apply find_first; [lia|by rewrite Hu|]. intros k Hk'. by rewrite Hk.
Qed.

Lemma least_none total u : (forall k, 0 <= k < total -> u k = true) -> least total u = None.
Proof.
  intros Hk. unfold least. destruct (List.find _ _) as [n|] eqn:Hf; [|done]. apply List.find_some in Hf as [Hin Hu].
  apply list_elem_of_In, elem_of_seqZ in Hin. by rewrite Hk in Hu by lia.
Qed.

(** The bitmap of [f] is the set [u]. *)
Definition agrees (f : Fs) (u : Z -> bool) : Prop := forall n, 0 <= n < total_blocks (sb f) -> used (sb f) (dev f) n = u n.

Definition op_ok (total : Z) (op : Op) : Prop := match op with Alloc => True | Free b => 0 <= b < total end.

(** What the operations may change of a file system that is in order. *)
Record alloc_state (f f' : Fs) : Prop := {
  as_ok : fs_ok f'; as_free : dev_locked f' = false; as_healthy : healthy (total_blocks (sb f')) (dev f'); as_only : only_dev f f';
  as_kept : forall b, in_range b -> ~ bitmap_area (sb f) b -> block (dev f') b = block (dev f) b }.

Lemma alloc_state_trans f1 f2 f3 : alloc_state f1 f2 -> alloc_state f2 f3 -> alloc_state f1 f3.
Proof.
  intros [A1 A2 A3 A4 A5] [B1 B2 B3 B4 B5]. destruct (only_dev_sb _ _ A4) as (Hsb & _). rewrite Hsb in B5.
  split; try done; [by eapply only_dev_trans|]. intros b Hr Hb. by rewrite B5, A5.
Qed.

Lemma step_refines f u op : fs_ok f -> dev_locked f = false -> healthy (total_blocks (sb f)) (dev f) -> agrees f u -> op_ok (total_blocks (sb f)) op ->
  let '(r, f') := disk_step op f in let '(r', u') := set_step (total_blocks (sb f)) u op in
  r = r' /\ agrees f' u' /\ alloc_state f f'.
Proof.
  intros Hf Hdl Hh Ha Ho. pose proof Hf as (Hd & Hs & Hl). destruct op as [|b]; cbn [disk_step set_step].
  - pose proof (allocate_spec f Hf) as Hsp. destruct (allocate_block_inner f) as [r f']. destruct Hsp as (Hod & Hfr & Hr).
    destruct (only_dev_sb _ _ Hod) as (Hsb & Hl' & Hdl' & _).
    assert (Hst : alloc_state f f').
    { split; [split; [apply Hfr|by rewrite Hsb, Hl']|by rewrite Hdl'|rewrite Hsb; by eapply same_device_healthy; [apply Hfr|]|done|apply Hfr]. }
    unfold agrees. rewrite Hsb. destruct r as [n| | |]; try done.
    + destruct Hr as ([_ Hex] & Hn & Hlt & Hfree & Hall). rewrite (least_some _ u n); [|lia|by rewrite <- Ha by lia|].
      2:{ intros k Hk. rewrite <- Ha by lia. by apply Hall. }
      split; [done|]. split; [|done]. intros m Hm. rewrite Hex by done. destruct (decide (m = n)) as [->|Hne].
      * by rewrite fn_lookup_insert, bool_decide_eq_true_2, orb_true_r.
      * rewrite fn_lookup_insert_ne, bool_decide_eq_false_2, orb_false_r by congruence. by apply Ha.
    + rewrite least_none; [|intros k Hk; rewrite <- Ha by done; apply (Hr Hh); lia]. split; [done|]. split; [|done].
      intros m Hm. rewrite <- Ha by done. destruct Hs as (_ & _ & _ & Hs).
      assert (Hum : used (sb f) (dev f) m = true) by (apply (Hr Hh); lia). rewrite Hum. apply Hfr; [lia|done].
  - pose proof (free_spec f b Hf Hdl Ho) as Hsp. cbv zeta in Hsp. rewrite run_bind.
    destruct (free_block b f) as [[[]| | |] f']; cbn [io_ok] in Hsp; try done. destruct Hsp as (Hod & Hd' & Hdev & Hk & Hu).
    destruct (only_dev_sb _ _ Hod) as (Hsb & Hl' & Hdl' & _). cbn [ret]. split; [done|]. split.
    + intros m Hm. rewrite Hsb in *. destruct Hs as (_ & _ & _ & Hs). rewrite Hu, Ha by lia. destruct (Z.eqb_spec m b) as [->|Hne].
      * by rewrite fn_lookup_insert, andb_false_r.
      * by rewrite fn_lookup_insert_ne, andb_true_r by done.
    + split; [split; [done|by rewrite Hsb, Hl']|by rewrite Hdl'|rewrite Hsb; by eapply same_device_healthy|done|done].
Qed.

(** C27. The bitmap of SkyFS refines a set of free blocks. On a device whose
    sectors work, every sequence of allocations and frees gives the same results
    as an allocator that takes the least number that is free and fails when
    there is none; afterwards the bitmap is the set of that allocator, and no
    block outside the bitmap has changed. *)
Theorem skyfs_alloc_refines ops f u :
  fs_ok f -> dev_locked f = false -> healthy (total_blocks (sb f)) (dev f) -> agrees f u ->
  Forall (op_ok (total_blocks (sb f))) ops ->
  let '(rs, f') := run disk_step ops f in
  let '(rs', u') := run (fun op u => set_step (total_blocks (sb f)) u op) ops u in
  rs = rs' /\ agrees f' u' /\ (forall b, in_range b -> ~ bitmap_area (sb f) b -> block (dev f') b = block (dev f) b).
Proof.
  intros Hf Hdl Hh Ha Hops. enough (Hst : let '(rs, f') := run disk_step ops f in
    let '(rs', u') := run (fun op u => set_step (total_blocks (sb f)) u op) ops u in rs = rs' /\ agrees f' u' /\ alloc_state f f').
  { destruct (run disk_step ops f), (run _ ops u). destruct Hst as (H1 & H2 & H3). split; [done|]. split; [done|apply H3]. }
  revert f u Hf Hdl Hh Ha Hops. induction ops as [|op ops IH]; intros f u Hf Hdl Hh Ha Hops; cbn [run].
  { split; [done|]. split; [done|]. by split; [..|apply only_dev_refl|]. }
  apply Forall_cons in Hops as [Hop Hops]. pose proof (step_refines f u op Hf Hdl Hh Ha Hop) as Hs.
  destruct (disk_step op f) as [r f1], (set_step _ u op) as [r' u1]. destruct Hs as (-> & Ha1 & Hst1).
  destruct (only_dev_sb _ _ (as_only _ _ Hst1)) as (Hsb & _).
  specialize (IH f1 u1 (as_ok _ _ Hst1) (as_free _ _ Hst1) (as_healthy _ _ Hst1) Ha1). rewrite Hsb in IH. specialize (IH Hops).
  destruct (run disk_step ops f1) as [rs f2], (run _ ops u1) as [rs' u2]. destruct IH as (-> & Ha2 & Hst2).
  split; [done|]. split; [done|]. by eapply alloc_state_trans.
Qed.

Lemma small_fs_alloc : fs_ok small_fs /\ dev_locked small_fs = false /\ healthy (total_blocks (sb small_fs)) (dev small_fs).
Proof.
  pose proof small_fs_ok as Hm. split; [split; [apply Hm|split; apply Hm]|]. split; [apply Hm|]. apply small_fs_healthy.
Qed.

(** The small device: the metadata takes the first 82 blocks. *)
Definition small_ops : list Op := [Alloc; Alloc; Free 82; Alloc; Alloc].

Lemma skyfs_alloc_refines_witness :
  (run disk_step small_ops small_fs).1 = (run (fun op u => set_step (total_blocks (sb small_fs)) u op) small_ops
    (used (sb small_fs) (dev small_fs))).1.
Proof.
  destruct small_fs_alloc as (H1 & H2 & H3).
  assert (Hops : Forall (op_ok (total_blocks (sb small_fs))) small_ops)
    by (repeat constructor; change (total_blocks (sb small_fs)) with (1024 / 8); cbn; apply Zle_bool_imp_le; reflexivity).
  pose proof (skyfs_alloc_refines small_ops small_fs _ H1 H2 H3 (fun n _ => eq_refl) Hops) as H. revert H.
  generalize (run disk_step small_ops small_fs) as x. generalize (run (fun op u => set_step (total_blocks (sb small_fs)) u op) small_ops
    (used (sb small_fs) (dev small_fs))) as y. intros [rs' u'] [rs f'] [H _]. exact H.
Defined.

Example small_results : (run disk_step small_ops small_fs).1 = [Ok 82; Ok 83; Ok 82; Ok 82; Ok 84].
Proof. vm_compute. reflexivity. Qed.
