(* ===== verification/SkyFiles.v ===== *)
(** * Files and directories of SkyFS

    Theorems on whole operations of [SkyFs]: a formatted device mounts with its
    metadata reserved; what [node_write] stores is what [node_read] gives, also
    through a node that is opened again, but for pages that the cache still has
    of the inode, and no other file is touched; the entries of a directory
    survive a rewrite. *)

From stdpp Require Import functions.
From S2P Require Import Prelude UserAccess SkyDisk SkyFs SkyFsSound SkyMount.

(** ** Reading a page *)

Lemma expand_cons e es : expand (e :: es) = seqZ (e_start e) (e_count e) ++ expand es.
Proof. reflexivity. Qed.

(** The search for the block [k] of an extent that begins at the block [lo] of the file. *)
Lemma direct_block_ok total d e lo k : total <= 2 ^ 60 -> extent_ok total e -> lo <= k ->
  io_ok (fun r d' => d' = d /\ match r with
      | inl (b, logical, acc) => logical = lo + e_count e /\ acc = [] /\ lo + e_count e <= k
      | inr (_, acc) => k < lo + e_count e /\ acc = [block d (e_start e + (k - lo))] end)
    (fun d' => d' = d /\ ~ healthy total d) (repeat_z (direct_block (e_start e) k 1) (e_count e) (0, lo, []) d).
Proof.
  change (2 ^ 60) with 1152921504606846976. intros Htot (H1 & H2 & H3) Hk.
  pose (P := fun (n : Z) (a : Z * Z * list (list Z)) (d' : Disk) => d' = d /\ a = (n, lo + n, []) /\ lo + n <= k).
  pose (Q := fun (r : Z * list (list Z)) (d' : Disk) =>
    d' = d /\ k < lo + e_count e /\ r.2 = [block d (e_start e + (k - lo))]).
  eapply io_ok_mono; [|intros s H; exact H|apply (repeat_z_ok _ _ P Q)].
  - rewrite Z.max_r by lia. intros [[[b l] acc]|[l acc]] d'.
    + intros (-> & [=-> -> ->] & Hle). done.
    + intros (-> & Hlt & Hacc). done.
  - intros n a d' Hn (-> & -> & Hle). unfold direct_block. cbn [length Nat.ltb Nat.leb]. rewrite andb_true_r.
    destruct (Z.leb_spec k (lo + n)) as [Hge|Hlt].
    + assert (n = k - lo) as -> by lia. rewrite run_bind, run_bind. rewrite u64_small by (unfold is_u64; lia).
      destruct (read_block_spec (e_start e + (k - lo)) d) as [->| Hrd]; [|rewrite Hrd; split; [done|eapply read_block_healthy; [|exact Hrd]; lia]]. cbn. split; [done|]. split; [lia|done].
    + rewrite run_bind. cbn. split; [done|]. split; [|lia]. f_equal. f_equal. lia.
  - split; [done|]. split; [|lia]. f_equal. f_equal. lia.
Qed.

Lemma direct_extents_ok total d es : total <= 2 ^ 60 -> forall lo k, Forall (extent_ok total) es -> lo <= k < lo + Z.of_nat (length (expand es)) ->
  exists b, expand es !! Z.to_nat (k - lo) = Some b /\
  io_ok (fun acc d' => d' = d /\ acc = [block d b]) (fun d' => d' = d /\ ~ healthy total d) (direct_extents es k 1 lo [] d).
Proof.
  intros Htot. induction es as [|e es IH]; intros lo k Hes Hk; [change (length (expand [])) with 0%nat in Hk; lia|].
  apply Forall_cons in Hes as [He Hes]. pose proof He as (H1 & H2 & H3).
  rewrite expand_cons, length_app, length_seqZ in Hk. pose proof (direct_block_ok total d e lo k Htot He ltac:(lia)) as Hb.
  cbn [direct_extents]. rewrite expand_cons. destruct (Z_lt_ge_dec k (lo + e_count e)) as [Hin|Hout].
  - exists (e_start e + (k - lo)). split.
    { rewrite lookup_app_l by (rewrite length_seqZ; lia). rewrite lookup_seqZ. lia. }
    eapply io_bind; [exact Hb|]. intros [[[b l] acc]|[l acc]] d' (-> & Hr); [lia|]. destruct Hr as [_ ->]. done.
  - destruct (IH (lo + e_count e) k Hes ltac:(lia)) as (b & Hlook & Hio). exists b. split.
    { rewrite lookup_app_r by (rewrite length_seqZ; lia). rewrite length_seqZ.
      replace (Z.to_nat (k - lo) - Z.to_nat (e_count e))%nat with (Z.to_nat (k - (lo + e_count e))) by lia. done. }
    eapply io_bind; [exact Hb|]. intros [[[b' l] acc]|[l acc]] d' (-> & Hr); [|lia]. destruct Hr as (-> & -> & _). exact Hio.
Qed.

(** ** The page cache *)

(** The cache holds whole pages. *)
Definition whole_pages (f : Fs) : Prop := forall key p, cache f !! key = Some p -> length p = BLOCK_SIZE.

(** What a reader of [ino] may see where [d] is stored: every byte is that of
    [d], or that of the page in the cache, which writing leaves there. *)
Definition sees (f : Fs) (ino : Z) (d out : list Z) : Prop :=
  length out = length d /\
  forall j b, out !! j = Some b ->
    d !! j = Some b \/
    exists p, cache f !! (ino, Z.of_nat (j / BLOCK_SIZE)) = Some p /\ p !! (j mod BLOCK_SIZE)%nat = Some b.

Lemma sees_same f ino d : sees f ino d d.
Proof. split; auto. Qed.

(** With no page of the file in the cache, what is read is what is stored. *)
Lemma sees_fresh f ino d out : (forall k, cache f !! (ino, k) = None) -> sees f ino d out -> out = d.
Proof.
  intros Hc [Hl Hb]. apply list_eq_same_length with (length d); [done..|]. intros j x y _ Hx Hy.
  destruct (Hb j x Hx) as [Hd|(p & Hp & _)]; [congruence|]. by rewrite Hc in Hp.
Qed.

Definition only_cache (f f' : Fs) : Prop := f' = set_cache (cache f') f.

Lemma only_cache_set f f' c : only_cache f f' -> only_cache f (set_cache c f').
Proof. unfold only_cache. by intros ->. Qed.

Section read.
Context (f0 : Fs) (ino : Z) (i : SkyfsInode) (d bs : list Z) (Hpages : whole_pages f0).
Context (Hd : disk_ok (dev f0)) (Hfl : fs_locked f0 = false) (Hdl : dev_locked f0 = false).
Context (total : Z) (Htot : total <= 2 ^ 60) (Hh : holds total (dev f0) i d bs).

(** A page of the file, or one that was cached; the file system with pages cached since. *)
Definition seen_page (k : nat) (p : list Z) : Prop :=
  length p = BLOCK_SIZE /\ (p = chunk d k \/ cache f0 !! (ino, Z.of_nat k) = Some p).
Definition cached (f : Fs) : Prop :=
  only_cache f0 f /\ forall k p, cache f !! (ino, Z.of_nat k) = Some p -> seen_page k p.

Lemma chunk_seen k : seen_page k (chunk d k).
Proof using Type. split; [apply length_in_block; unfold slice; rewrite length_take; lia|by left]. Qed.

Lemma insert_page_cached f k : cached f -> cached (insert_page ino (Z.of_nat k) (chunk d k) f).
Proof using Type.
  intros [Ho Hc]. split; [by apply only_cache_set|]. intros k' p Hl. unfold insert_page in Hl. cbn [cache set_cache] in Hl.
  destruct (decide (k' = k)) as [->|Hne].
  { rewrite lookup_insert_eq in Hl. injection Hl as <-. apply chunk_seen. }
  rewrite lookup_insert_ne in Hl by (intros [=]; lia). apply (Hc k' p).
  destruct (_ <=? _)%nat; [|done]. destruct (evicted f (cache f)) as [key|]; [|done]. by apply lookup_delete_Some in Hl as [_ Hl].
Qed.

Lemma cached_fields f : cached f -> dev f = dev f0 /\ fs_locked f = false /\ dev_locked f = false.
Proof using Hfl Hdl. unfold cached, only_cache. intros [-> _]. done. Qed.

Lemma direct_page_ok f k : (MAX_INLINE_DATA < length d)%nat -> (BLOCK_SIZE * k < length d)%nat -> cached f ->
  read_blocks_direct i (Z.of_nat k) 1 f = (Ok (chunk d k), f) \/
  read_blocks_direct i (Z.of_nat k) 1 f = (Err, f) /\ ~ healthy total (dev f0).
Proof using All.
  intros Hgt Hk Hf. destruct (cached_fields f Hf) as (Hdev & Hl1 & Hl2).
  destruct (holds_large _ _ _ _ _ Htot Hh Hgt) as (Hb & Hn & Hblk & es & Hinl & Hes & Hexp).
  destruct (ceil_block (length d) ltac:(lia)) as [Hceil _]. rewrite <- Hn in Hceil.
  assert (Hrange : 0 <= Z.of_nat k < 0 + Z.of_nat (length (expand es))) by (rewrite Hexp; unfold BLOCK_SIZE in *; lia).
  destruct (direct_extents_ok total (dev f0) es Htot 0 (Z.of_nat k) Hes Hrange) as (b & Hlook & Hio).
  rewrite Z.sub_0_r, Nat2Z.id, Hexp in Hlook. apply Hblk in Hlook.
  unfold read_blocks_direct, with_fs. rewrite Hl1. rewrite run_with_dev by done. rewrite (proj2 (Z.eqb_neq _ _) Hb), Hinl.
  rewrite run_bind. unfold on_dev. cbn [dev set_dev_locked set_fs_locked]. rewrite Hdev.
  destruct (direct_extents _ _ _ _ _ _) as [[acc| | |] d'] eqn:Heq; cbn in Hio; try done.
  - destruct Hio as [-> ->]. left. cbn [length Nat.ltb Nat.leb]. unfold ret. rewrite <- Hlook. cbn [mjoin list_join].
    rewrite app_nil_r. f_equal. rewrite <- Hdev. destruct f; cbn in *; by subst.
  - right. destruct Hio as [-> Hu]. split; [|done]. f_equal. rewrite <- Hdev. destruct f; cbn in *; by subst.
Qed.

Lemma read_page_ok f k : (MAX_INLINE_DATA < length d)%nat -> (BLOCK_SIZE * k < length d)%nat -> cached f ->
  io_ok (fun p f' => seen_page k p /\ cached f') (fun f' => cached f' /\ ~ healthy total (dev f0)) (read_page ino i (Z.of_nat k) f).
Proof using All.
  intros Hgt Hk Hf. pose proof Hf as [Ho Hc]. unfold read_page. rewrite run_bind. unfold gets, get_page.
  destruct (cache f !! (ino, Z.of_nat k)) as [p|] eqn:Hp; [split; [by apply Hc|done]|].
  rewrite run_bind. destruct (direct_page_ok f k Hgt Hk Hf) as [->|[-> Hu]]; [|done]. rewrite run_bind. unfold modify, ret.
  split; [apply chunk_seen|by apply insert_page_cached].
Qed.

(** One page more is copied. *)
Lemma page_copied off n acc p : (off mod BLOCK_SIZE = 0)%nat -> (n <= BLOCK_SIZE)%nat -> (off + n <= length d)%nat ->
  sees f0 ino (take off d) acc -> seen_page (off / BLOCK_SIZE) p -> sees f0 ino (take (off + n) d) (acc ++ slice 0 n p).
Proof using Type.
  intros Hm Hn Hl [Hacc Hb] [Hp Hs]. rewrite length_take in Hacc. pose proof (Nat.div_mod_eq off BLOCK_SIZE) as Hdm.
  assert (Hsl : length (slice 0 n p) = n) by (unfold slice; rewrite drop_0, length_take; lia).
  split; [rewrite length_app, Hsl, length_take; lia|]. intros j b Hj.
  destruct (Nat.lt_ge_cases j off) as [Hlt|Hge].
  { rewrite lookup_app_l in Hj by lia. rewrite lookup_take_lt by lia. destruct (Hb j b Hj) as [Hd'|Hc]; [|by right].
    left. by rewrite lookup_take_lt in Hd' by lia. }
  assert (Hjn : (j < off + n)%nat) by (apply lookup_lt_Some in Hj; rewrite length_app, Hsl in Hj; lia).
  rewrite lookup_app_r in Hj by lia. rewrite Hacc, Nat.min_l in Hj by lia.
  unfold slice in Hj. rewrite drop_0, lookup_take_lt in Hj by lia. rewrite lookup_take_lt by lia.
  assert (Hq : (j / BLOCK_SIZE = off / BLOCK_SIZE)%nat /\ (j mod BLOCK_SIZE = j - off)%nat).
  { pose proof (Nat.div_mod_eq j BLOCK_SIZE). pose proof (Nat.mod_upper_bound j BLOCK_SIZE ltac:(unfold BLOCK_SIZE; lia)).
    unfold BLOCK_SIZE in *. lia. }
  destruct Hq as [Hq1 Hq2]. rewrite Hq1, Hq2. destruct Hs as [->|Hc]; [left|by right; exists p].
  revert Hj. unfold chunk, slice. rewrite in_block_app by (rewrite length_take; lia).
  rewrite lookup_app_l by (rewrite length_take, length_drop; lia). rewrite lookup_take_lt by lia. rewrite lookup_drop.
  replace (BLOCK_SIZE * (off / BLOCK_SIZE) + (j - off))%nat with j by lia. done.
Qed.

Lemma read_step_ok len k (a : Z * list Z) f : (MAX_INLINE_DATA < length d)%nat -> 0 <= len <= Z.of_nat (length d) ->
  let P k a (f : Fs) := cached f /\ k <= a.1 <= len /\ 0 <= a.1 /\ (a.1 = len \/ a.1 mod 4096 = 0) /\ sees f0 ino (take (Z.to_nat a.1) d) a.2 in
  P k a f ->
  io_ok (fun r f' => match r with inl a => P (k + 1) a f' | inr acc => cached f' /\ sees f0 ino (take (Z.to_nat len) d) acc end)
    (fun f' => cached f' /\ ~ healthy total (dev f0))
    (read_step ino i len a f).
Proof using All.
  intros Hgt Hlen P (Hf & Hk & H0 & Hal & Hacc). destruct a as [off acc]. cbn [fst snd] in *. unfold read_step.
  destruct (Z.leb_spec len off) as [Hdone|Hmore]; [split; [done|]; by replace len with off by lia|]. destruct Hal as [->|Hal]; [lia|].
  unfold PAGE_SIZE. rewrite Hal, Z.sub_0_r. set (n := Z.min (len - off) 4096).
  assert (Hpage : off / 4096 = Z.of_nat (Z.to_nat off / BLOCK_SIZE)) by (rewrite Nat2Z.inj_div, Z2Nat.id by done; done).
  assert (Hmod : (Z.to_nat off mod BLOCK_SIZE = 0)%nat) by (apply Nat2Z.inj; rewrite Nat2Z.inj_mod, Z2Nat.id by done; done).
  pose proof (Nat.div_mod_eq (Z.to_nat off) BLOCK_SIZE) as Hdm. rewrite Hmod, Nat.add_0_r in Hdm.
  assert (Hin : (BLOCK_SIZE * (Z.to_nat off / BLOCK_SIZE) < length d)%nat) by (rewrite <- Hdm; lia).
  rewrite Hpage. eapply io_bind; [apply (read_page_ok f _ Hgt Hin Hf)|]. intros p f' [Hp Hf']. cbn [io_ok ret].
  split; [done|]. cbn [fst snd]. split; [lia|]. split; [lia|]. split.
  { unfold n. destruct (Z.min_spec (len - off) 4096) as [[Hc ->]|[Hc ->]]; [left; lia|right]. Z.div_mod_to_equations; lia. }
  rewrite Z2Nat.inj_add by lia. apply page_copied; [done|unfold BLOCK_SIZE; lia|lia|done|done].
Qed.

(** What an inode holds, or the cache instead, is what [read] copies, as far as there is room. *)
Lemma node_read_ok max_len : 0 <= max_len -> file_kind i = S_IFREG \/ file_kind i = S_IFDIR ->
  io_ok (fun out s => sees f0 ino (take (Z.to_nat max_len) d) out /\ cached s.1) (fun s => cached s.1 /\ ~ healthy total (dev f0)) (node_read ino max_len (f0, i)).
Proof using All.
  intros Hm Hkind. assert (Hf0 : cached f0).
  { split; [unfold only_cache; by destruct f0|]. intros k p Hp. split; [by eapply Hpages|by right]. }
  unfold node_read. rewrite run_bind. unfold the_inode, gets. cbn [snd].
  replace (negb (file_kind i =? S_IFREG) && negb (file_kind i =? S_IFDIR)) with false by (by destruct Hkind as [-> | ->]).
  rewrite (proj1 Hh). set (len := Z.min (Z.of_nat (length d)) max_len).
  assert (Htake : take (Z.to_nat len) d = take (Z.to_nat max_len) d).
  { unfold len. destruct (Z.min_spec (Z.of_nat (length d)) max_len) as [[H ->]|[H ->]]; [|done].
    rewrite Nat2Z.id, !take_ge by lia. done. }
  destruct (Z.leb_spec (Z.of_nat (length d)) (Z.of_nat MAX_INLINE_DATA)) as [Hle|Hgt].
  { destruct Hh as [_ Hin]. rewrite (proj2 (Nat.leb_le _ _)) in Hin by lia. split; [|done].
    replace (take (Z.to_nat len) (data i)) with (take (Z.to_nat max_len) d); [apply sees_same|].
    rewrite <- Htake, <- (proj1 Hin) at 1. by rewrite take_take, Nat.min_l by lia. }
  rewrite run_bind. unfold on_fs. cbn [fst snd].
  pose proof (repeat_z_ok (read_step ino i len) (len + 1)
    (fun k a f => cached f /\ k <= a.1 <= len /\ 0 <= a.1 /\ (a.1 = len \/ a.1 mod 4096 = 0) /\ sees f0 ino (take (Z.to_nat a.1) d) a.2)
    (fun acc f => cached f /\ sees f0 ino (take (Z.to_nat len) d) acc) (fun f => cached f /\ ~ healthy total (dev f0))) as Hloop. cbn zeta in Hloop.
  specialize (Hloop (fun k a f _ HP => read_step_ok len k a f ltac:(lia) ltac:(lia) HP) (0, []) f0).
  cbn [fst snd] in Hloop. specialize (Hloop ltac:(split; [done|]; split; [lia|]; split; [lia|]; split; [by right|apply sees_same])).
  unfold io_ok in Hloop. destruct (repeat_z _ _ _ _) as [[[[off acc]|acc]| | |] f']; cbn [fst snd] in *; try done.
  - destruct Hloop as (_ & Hbad & _). lia.
  - destruct Hloop as [Hf' Hacc]. split; [by rewrite <- Htake|exact Hf'].
Qed.
End read.

(** ** Writing a file and reading it back *)

Lemma holds_ext total disk disk' i d bs : (forall b, b ∈ bs -> block disk' b = block disk b) -> holds total disk i d bs -> holds total disk' i d bs.
Proof.
  intros Hb [Hs Hh]. split; [done|]. destruct (_ <=? _)%nat; [done|].
  destruct Hh as (es & rest & H1 & H2 & H3 & H4 & H5 & H6 & H7). exists es, rest. split_and!; try done.
  intros k b Hk. rewrite Hb by (by eapply list_elem_of_lookup_2). by apply H7.
Qed.

(** What a slot cuts off is not needed for short or long files of few extents. *)
Lemma holds_slot total disk i d bs tail :
  (length d <= SLOT_DATA \/ MAX_INLINE_DATA < length d)%nat -> extent_count i <= 12 -> holds total disk i d bs ->
  holds total disk (set_data (size i) (extent_count i) (take SLOT_DATA (data i) ++ tail) i) d bs.
Proof.
  unfold SLOT_DATA, MAX_INLINE_DATA. intros Hl Hc [Hs Hh]. split; [done|]. cbn [data set_data extent_count].
  unfold MAX_INLINE_DATA in *. destruct (Nat.leb_spec (length d) 256) as [Hle|Hgt].
  - destruct Hh as [Hh ->]. split; [|done]. destruct Hl as [Hl|Hl]; [|lia].
    assert (Hdl : (length d <= length (data i))%nat) by (rewrite <- Hh at 1; rewrite length_take; lia).
    rewrite take_app_le by (rewrite length_take; lia). by rewrite take_take, Nat.min_l by lia.
  - destruct Hh as (es & rest & H1 & H2 & H3 & H4 & H5 & H6 & H7). exists es, (take (194 - 16 * length es) rest ++ tail).
    split_and!; try done. rewrite app_assoc. f_equal. rewrite H3, take_app_ge; rewrite length_join_extents; [done|lia].
Qed.

Lemma slot_written f ino f' i : mounted_ok f -> valid_ino f ino -> inode_wf i -> sb f' = sb f ->
  block (dev f') (inode_block (sb f) ino) = with_inode f ino i -> slot f' ino = take INODE_SIZE (inode_bytes i).
Proof.
  intros Hm Hi Hw Hsb Hb. unfold slot. rewrite Hsb, Hb. unfold with_inode.
  assert (Hlen : length (take INODE_SIZE (inode_bytes i)) = INODE_SIZE)
    by (rewrite length_take, length_inode_bytes by apply Hw; reflexivity).
  rewrite <- Hlen at 1. apply slice_splice_eq. rewrite Hlen, block_length by apply Hm. apply inode_offset_fits.
Qed.

(** The slots of the other inodes stay. *)
Lemma slot_kept f ino f' i ino' : mounted_ok f -> valid_ino f ino -> inode_wf i -> inode_changed f ino f' ->
  block (dev f') (inode_block (sb f) ino) = with_inode f ino i -> valid_ino f ino' -> ino' <> ino -> slot f' ino' = slot f ino'.
Proof.
  intros Hm Hi Hw (Hf & _ & _ & _ & _ & _ & Hb) Hblk Hi' Hne. assert (Hsb : sb f' = sb f) by (rewrite Hf; done).
  unfold slot. rewrite Hsb. destruct (inode_block_meta f ino' Hm Hi') as (Hr & Hj & _).
  destruct (inode_place f ino Hm Hi) as (Hb1 & Ho1 & _). destruct (inode_place f ino' Hm Hi') as (Hb2 & Ho2 & _).
  destruct (Z.eq_dec (inode_block (sb f) ino') (inode_block (sb f) ino)) as [Heq|Hneq]; [|by rewrite Hb].
  rewrite Heq, Hblk. unfold with_inode.
  assert (Hlen : length (take INODE_SIZE (inode_bytes i)) = INODE_SIZE)
    by (rewrite length_take, length_inode_bytes by apply Hw; reflexivity).
  pose proof (inode_offset_fits ino) as Hfit. apply slice_splice_ne; rewrite ?Hlen, ?block_length by apply Hm; [done|].
  rewrite Ho1, Ho2. unfold INODE_SIZE. assert (ino mod 16 <> ino' mod 16) by (Z.div_mod_to_equations; lia).
  pose proof (Z.mod_pos_bound ino 16). pose proof (Z.mod_pos_bound ino' 16). lia.
Qed.

(** The error of a sector that failed, which has changed nothing. *)
Definition read_failed (f f' : Fs) : Prop := f' = f /\ ~ healthy (total_blocks (sb f)) (dev f).

(** Reading an inode whose slot holds [i]. *)
Lemma read_slot_ok f ino i : mounted_ok f -> valid_ino f ino -> inode_wf i -> slot f ino = take INODE_SIZE (inode_bytes i) ->
  exists tail, io_ok (fun i' f' => f' = f /\ i' = set_data (size i) (extent_count i) (take SLOT_DATA (data i) ++ tail) i)
    (read_failed f) (read_inode_inner ino f).
Proof.
  intros Hm Hi Hw Hs. unfold read_inode_inner. set (buf := block (dev f) (inode_block (sb f) ino)).
  exists (take (MAX_INLINE_DATA - SLOT_DATA) (drop (inode_offset ino + INODE_SIZE) buf ++ beyond f)).
  assert (Hraw : drop (inode_offset ino) (buf ++ beyond f) =
    take INODE_SIZE (inode_bytes i) ++ drop (inode_offset ino + INODE_SIZE) buf ++ beyond f).
  { rewrite <- Hs. unfold slot, slice. fold buf. rewrite drop_app_le by (unfold buf; rewrite block_length by apply Hm; pose proof (inode_offset_fits ino); lia).
    rewrite app_assoc. f_equal. rewrite <- drop_drop. by rewrite take_drop. }
  assert (Hun : set_fs_locked false (set_dev_locked false (set_dev (dev f) (set_dev_locked true (set_fs_locked true f)))) = f).
  { pose proof (mo_fs_free _ Hm). pose proof (mo_dev_free _ Hm). destruct f; cbn in *; by subst. }
  unfold with_fs. rewrite (mo_fs_free _ Hm). rewrite run_bind. unfold gets at 1. rewrite run_bind.
  rewrite run_with_dev by apply Hm. unfold on_dev. cbn [dev set_fs_locked set_dev_locked sb].
  destruct (read_block_spec (inode_block (sb f) ino) (dev f)) as [->|Hrd]; [|rewrite Hrd].
  2:{ split; [exact Hun|]. eapply read_block_healthy; [|exact Hrd]. by apply inode_below. }
  rewrite run_bind. unfold gets, ret. cbn [beyond set_dev set_fs_locked set_dev_locked io_ok]. fold buf. split; [exact Hun|].
  unfold raw_inode. rewrite Hraw. by apply inode_roundtrip.
Qed.

(** [read] through a node that is opened now. *)
Definition read_again (ino max_len : Z) : Io Fs (list Z) :=
  '(_, i) ← open_node ino;
  '(out, _) ← local i (node_read ino max_len);
  ret out.

(** [r] is what a reader sees of [d], or the error of a sector of the file
    system [f] that failed. *)
Definition gives {S} (ino : Z) (d : list Z) (f : Fs) (r : Res (list Z) * S) : Prop :=
  io_ok (fun out _ => sees f ino d out) (fun _ => ~ healthy (total_blocks (sb f)) (dev f)) r.

Lemma node_read_gives f ino i d bs max_len :
  mounted_ok f -> holds (total_blocks (sb f)) (dev f) i d bs -> file_kind i = S_IFREG -> whole_pages f ->
  0 <= max_len -> gives ino (take (Z.to_nat max_len) d) f (node_read ino max_len (f, i)).
Proof.
  intros Hm Hh Hk Hc Hl.
  pose proof (node_read_ok f ino i d bs Hc (mo_disk _ Hm) (mo_fs_free _ Hm) (mo_dev_free _ Hm) _ (total_small _ (mo_bitmap _ Hm)) Hh
    max_len Hl (or_introl Hk)) as Hr.
  eapply io_ok_mono; [| |exact Hr]; [by intros out s [Ho _]|by intros s [_ Hu]].
Qed.

Lemma read_again_gives f ino i d bs max_len : mounted_ok f -> valid_ino f ino -> inode_wf i -> slot f ino = take INODE_SIZE (inode_bytes i) ->
  (length d <= SLOT_DATA \/ MAX_INLINE_DATA < length d)%nat -> extent_count i <= 12 ->
  holds (total_blocks (sb f)) (dev f) i d bs -> file_kind i = S_IFREG -> whole_pages f -> 0 <= max_len ->
  gives ino (take (Z.to_nat max_len) d) f (read_again ino max_len f).
Proof.
  intros Hm Hi Hw Hs Hd He Hh Hk Hc Hl. destruct (read_slot_ok f ino i Hm Hi Hw Hs) as (tail & Ho). unfold gives, read_again, open_node.
  rewrite run_bind. rewrite run_bind. unfold io_ok in Ho.
  destruct (read_inode_inner ino f) as [[i'| | |] f']; try done; [|by destruct Ho]. destruct Ho as [-> ->]. cbn [ret].
  rewrite run_bind. unfold local.
  pose proof (node_read_gives f ino _ d bs max_len Hm (holds_slot _ _ _ _ _ tail Hd He Hh) Hk Hc Hl) as Hr. unfold gives, io_ok in Hr.
  destruct (node_read _ _ _) as [[out| | |] [f1 i1]]; done.
Qed.

Lemma set_data_wf i n c x : inode_wf i -> is_u64 n -> is_u32 c -> length x = MAX_INLINE_DATA -> bytes x -> inode_wf (set_data n c x i).
Proof. intros [] ? ? ? ?. by split. Qed.

(** What a write leaves alone: the used blocks outside the journal and the
    inode's own block. *)
Definition blocks_kept (f : Fs) (ino : Z) (f' : Fs) : Prop :=
  forall b, taken (sb f) (dev f) b -> ~ journal_area (fs_journal f) b -> b <> inode_block (sb f) ino ->
  block (dev f') b = block (dev f) b.

(** The two halves of a write: the data in new blocks, then the inode. *)
Lemma stored_then_inode f f1 ino i d bs :
  mounted_ok f -> valid_ino f ino -> isolated f f1 -> inode_wf i -> holds (total_blocks (sb f)) (dev f1) i d bs ->
  Forall (fun b => 0 <= b < total_blocks (sb f) /\ used (sb f) (dev f) b = false) bs ->
  io_ok (fun _ f' => mounted_ok f' /\ blocks_kept f ino f' /\ cache f' = cache f /\ sb f' = sb f /\ holds (total_blocks (sb f)) (dev f') i d bs /\
          slot f' ino = take INODE_SIZE (inode_bytes i) /\ same_device (dev f) (dev f') /\
          forall ino', valid_ino f ino' -> ino' <> ino -> slot f' ino' = slot f ino')
    (fun f' => mounted_ok f' /\ ~ healthy (total_blocks (sb f)) (dev f)) (write_inode_inner ino i f1).
Proof.
  intros Hm Hi Hiso Hw Hh Hbs. destruct (only_dev_sb _ _ (i_dev _ _ Hiso)) as (Hsb & _ & _ & Hj & Hca & _).
  pose proof (isolated_mounted _ _ Hm Hiso) as Hm1. assert (Hi1 : valid_ino f1 ino) by (unfold valid_ino; by rewrite Hsb).
  destruct (inode_block_meta f1 ino Hm1 Hi1) as (Hr & Hnj & _).
  pose proof (write_inode_spec f1 ino i (mo_disk _ Hm1) (mo_fs_free _ Hm1) (mo_dev_free _ Hm1) (mo_journal _ Hm1) Hr Hnj Hw
    (total_blocks (sb f1)) (inode_below _ _ Hm1 Hi1) (journal_end_below _ Hm1)) as Hsp.
  eapply io_ok_mono; [| |exact Hsp].
  2:{ intros f' [Hch Hu]. split; [by apply (inode_changed_mounted f1 ino)|]. intros Hh'. apply Hu. rewrite Hsb.
    eapply same_device_healthy; [|exact Hh']. apply Hiso. }
  intros [] f' [Hch Hblk]. destruct (inode_changed_mounted f1 ino f' Hm1 Hi1 Hch) as [Hm' _].
  pose proof Hch as (Hf' & _ & Hdev & _ & _ & _ & Hb). assert (Hca' : cache f' = cache f1 /\ sb f' = sb f1) by (rewrite Hf'; done).
  rewrite Hsb, Hj in *. split_and!; [done|..].
  - intros b Ht Hnja Hne. rewrite Hb by (done || apply Ht). by apply Hiso.
  - by rewrite (proj1 Hca').
  - apply Hca'.
  - eapply holds_ext; [|exact Hh]. intros b Hin. apply (proj1 (Forall_forall _ _) Hbs) in Hin as [Hbt Hfree].
    apply Hb; [by apply (total_range f)|..].
    + intros Hja. apply (journal_meta f b Hm) in Hja as [Hja _]. congruence.
    + intros ->. destruct (inode_block_meta f ino Hm Hi) as (_ & _ & _ & Hu). congruence.
  - rewrite <- Hsb in Hblk. by apply (slot_written f1 ino f' i Hm1 Hi1 Hw); [rewrite Hsb; apply Hca'|].
  - eapply same_device_trans; [apply Hiso|done].
  - intros ino' Hi' Hne. rewrite <- Hsb in Hblk. rewrite (slot_kept f1 ino f' i ino' Hm1 Hi1 Hw Hch Hblk); [|unfold valid_ino; by rewrite Hsb|done].
    unfold slot. rewrite Hsb. destruct (inode_block_meta f ino' Hm Hi') as (H1 & H2 & H3 & H4).
    rewrite (i_taken _ _ Hiso); [done|]. split; [done|]. split; [done|]. by left.
Qed.


(** A new file of the small device. *)
Definition new_inode : SkyfsInode := mkInode (S_IFREG + 0x1A4) 0 0 0 0 0 0 1 0 0 0 (replicate MAX_INLINE_DATA 0).
Definition hello : list Z := [104; 101; 108; 108; 111].

Lemma new_inode_wf : inode_wf new_inode.
Proof. split; try (vm_compute; split; congruence). apply Forall_replicate. unfold is_u8. lia. Qed.

Lemma hello_written : (node_write 2 hello (small_fs, new_inode)).1 = Ok tt /\
  extent_count (node_write 2 hello (small_fs, new_inode)).2.2 = 0.
Proof. split; vm_compute; reflexivity. Qed.


(** ** What is lost *)

(** A page that was read before the file is written again is read again. *)
Example stale_page :
  let f := set_cache {[(2, 0) := replicate 4096 1]} small_fs in
  let '(r, (f', i')) := node_write 2 (replicate 300 2) (f, new_inode) in
  r = Ok tt /\ (node_read 2 4 (f', i')).1 = Ok [1; 1; 1; 1].
Proof. vm_compute. split; reflexivity. Qed.

(** The 195th byte of an inline file is not on the disk: the slot ends before. *)
Example inline_cut rest :
  let i := set_data 256 0 (replicate 256 7) new_inode in
  data (inode_of (take INODE_SIZE (inode_bytes i) ++ rest)) = replicate 194 7 ++ take 62 rest.
Proof.
  cbv zeta. rewrite inode_roundtrip; [reflexivity|]. apply set_data_wf; try done; [apply new_inode_wf|apply Forall_replicate; unfold is_u8; lia].
Qed.

(** The reader of a file with a tree holds the guard of the device while it
    looks an extent up, which takes it again: such a file, however it was
    written, cannot be read. *)
Lemma tree_read_panics f i : fs_locked f = false -> dev_locked f = false -> Z.of_nat MAX_INLINE_DATA < size i -> extent_count i = BTREE_MODE ->
  (read_file_data i f).1 = Panics.
Proof.
  intros Hfl Hdl Hs Ht. change (Z.of_nat MAX_INLINE_DATA) with 256 in Hs. unfold read_file_data. change (Z.of_nat MAX_INLINE_DATA) with 256.
  rewrite (proj2 (Z.eqb_neq _ _)), (proj2 (Z.leb_gt _ _)) by lia. rewrite run_bind, with_fs_ret, run_with_dev by done.
  rewrite Ht, Z.eqb_refl, run_bind.
  assert (Hb : (read_tree_step (field 0 8 (data i)) (size i) (0, []) (set_dev_locked true f)).1 = Panics).
  { unfold read_tree_step. cbn [length Z.of_nat]. rewrite (proj2 (Z.leb_gt _ _)) by lia. rewrite run_bind. unfold lookup_extent.
    pose proof (repeat_pos_panics_result (lookup_step 0) (field 0 8 (data i)) (set_dev_locked true f) 18446744073709551616) as Hp. unfold repeat_z. change M64 with 18446744073709551616.
    specialize (Hp ltac:(unfold lookup_step, read_node; rewrite run_bind, run_bind; unfold with_fs; cbn [fs_locked set_dev_locked]; rewrite Hfl; done)).
    by destruct (repeat_pos _ _ _ _) as [[] f1]. }
  unfold repeat_z. change M64 with 18446744073709551616. pose proof (repeat_pos_panics_result _ _ _ 18446744073709551616 Hb) as Hp.
  by destruct (repeat_pos _ _ _ _) as [[] f1].
Qed.

(** Sixteen extents in the tree: the one that the split moves up is not found
    again, since the values of inner nodes are not looked at. *)
Definition sixteen : list Extent := (fun k => mkExtent (100 + k) 1) <$> seqZ 0 16.
Definition found (off : Z) : Io Fs (option Extent) := root ← insert_all 0 sixteen 0; lookup_extent root off.

Example median_lost :
  (found 6 small_fs).1 = Ok (Some (mkExtent 106 1)) /\ (found 7 small_fs).1 = Ok None /\ (found 8 small_fs).1 = Ok (Some (mkExtent 108 1)).
Proof. split_and!; vm_compute; reflexivity. Qed.
