(* ===== verification/SkyDirs.v ===== *)
(** * Directories of SkyFS

    The entries of a directory, [dir.rs] and the writers of entries in [mod.rs],
    and that adding and removing entries refines operations on a list. *)

From stdpp Require Import functions.
From S2P Require Import Prelude UserAccess SkyDisk SkyFs SkyFsSound SkyMount SkyFiles.

(** ** Entries as bytes *)

(** An entry as the writers make it. *)
Record entry_wf (en : DirEntry * list Z) : Prop := {
  ew_inode : 0 < d_inode en.1 < M64;
  ew_name : (1 <= length en.2 <= 255)%nat;
  ew_name_len : name_len en.1 = Z.of_nat (length en.2);
  ew_rec_len : rec_len en.1 = Z.of_nat (dirent_padded en.2);
  ew_type : is_u8 (file_type en.1);
  ew_bytes : bytes en.2;
  ew_utf8 : from_utf8 en.2 = true }.

Definition entry_data (en : DirEntry * list Z) : list Z := pad4 (entry_bytes en.1 ++ en.2).
Definition dir_data (es : list (DirEntry * list Z)) : list Z := mjoin (entry_data <$> es).

Lemma length_entry_bytes e : length (entry_bytes e) = ENTRY_SIZE.
Proof. unfold entry_bytes. by rewrite !length_app, !length_le_bytes. Qed.

Lemma length_pad4 l : length (pad4 l) = ((length l + 3) / 4 * 4)%nat.
Proof.
  unfold pad4. rewrite length_app, length_replicate. generalize (length l) as n. intros n. apply Nat2Z.inj.
  pose proof (Nat.mod_upper_bound n 4 ltac:(done)) as Hm.
  rewrite Nat2Z.inj_add, Nat2Z.inj_mul, Nat2Z.inj_mod, Nat2Z.inj_div, Nat2Z.inj_sub, Nat2Z.inj_mod by lia.
  cbn [Z.of_nat]. Z.div_mod_to_equations; lia.
Qed.

Lemma length_entry_data en : length (entry_data en) = dirent_padded en.2.
Proof. unfold entry_data, dirent_padded. by rewrite length_pad4, length_app, length_entry_bytes. Qed.

Lemma padded_bounds n : (12 + length n <= dirent_padded n <= 15 + length n)%nat /\ (dirent_padded n mod 4 = 0)%nat.
Proof.
  unfold dirent_padded, ENTRY_SIZE. split; [|by rewrite Nat.Div0.mod_mul].
  pose proof (Nat.div_mod_eq (12 + length n + 3) 4). pose proof (Nat.mod_upper_bound (12 + length n + 3) 4 ltac:(done)). lia.
Qed.

Lemma pad4_app l1 l2 : (length l1 mod 4 = 0)%nat -> pad4 (l1 ++ l2) = l1 ++ pad4 l2.
Proof.
  intros Hm. unfold pad4. rewrite length_app, <- app_assoc. do 3 f_equal.
  by rewrite <- Nat.Div0.add_mod_idemp_l, Hm, Nat.add_0_l.
Qed.

Lemma dir_data_app es1 es2 : dir_data (es1 ++ es2) = dir_data es1 ++ dir_data es2.
Proof. unfold dir_data. by rewrite fmap_app, join_app. Qed.

Lemma dir_data_aligned es : (length (dir_data es) mod 4 = 0)%nat.
Proof.
  induction es as [|en es IH]; [done|]. change (dir_data (en :: es)) with (entry_data en ++ dir_data es).
  rewrite length_app, length_entry_data, <- Nat.Div0.add_mod_idemp_l, (proj2 (padded_bounds _)), Nat.add_0_l. done.
Qed.

(** The writers append the bytes of an entry. *)
Lemma append_dir_data es en : write_dirent_append (dir_data es) en.1 en.2 = dir_data (es ++ [en]).
Proof.
  unfold write_dirent_append. rewrite pad4_app by apply dir_data_aligned. rewrite dir_data_app. f_equal.
  unfold dir_data. cbn. by rewrite app_nil_r.
Qed.

Lemma rewrite_dir_data es : rewrite_entries es = dir_data es.
Proof.
  unfold rewrite_entries. change [] with (dir_data []) at 1. rewrite <- (app_nil_l es) at 2. generalize (@nil (DirEntry * list Z)) as l.
  induction es as [|en es IH]; intros l; cbn [foldl]; [by rewrite app_nil_r|]. rewrite append_dir_data, IH. by rewrite <- app_assoc.
Qed.

Lemma entry_roundtrip e l : 0 <= d_inode e < M64 -> is_u16 (rec_len e) -> is_u8 (name_len e) -> is_u8 (file_type e) ->
  entry_of (entry_bytes e ++ l) = e.
Proof.
  intros H1 H2 H3 H4. destruct e as [x1 x2 x3 x4]. unfold entry_of, entry_bytes. cbn [d_inode rec_len name_len file_type] in *.
  rewrite <- !app_assoc. f_equal; read_field; done.
Qed.

(** The first entry is parsed, and what follows it. *)
Lemma parse_entry fuel en rest : entry_wf en -> parse_from (S fuel) (entry_data en ++ rest) = en :: parse_from fuel rest.
Proof.
  intros [H1 H2 H3 H4 H5 H6 H7]. destruct en as [e name]. cbn [fst snd] in *. destruct (padded_bounds name) as [Hp _].
  cbn [parse_from]. set (d := entry_data (e, name) ++ rest).
  assert (Hlen : length d = (dirent_padded name + length rest)%nat) by (unfold d; by rewrite length_app, length_entry_data).
  assert (Hd : d = entry_bytes e ++ name ++ drop (12 + length name) (entry_data (e, name)) ++ rest).
  { unfold d. rewrite <- (take_drop (12 + length name) (entry_data (e, name))) at 1. rewrite <- !app_assoc. 
    unfold entry_data, pad4. cbn [fst snd]. rewrite take_app_length' by (by rewrite length_app, length_entry_bytes). by rewrite <- app_assoc. }
  assert (He : entry_of d = e) by (rewrite Hd; apply entry_roundtrip; [lia|unfold is_u16; lia|unfold is_u8; lia|done]).
  rewrite He. unfold ENTRY_SIZE. rewrite (proj2 (Nat.ltb_ge _ _)) by lia.
  rewrite !(proj2 (Z.eqb_neq _ _)) by lia. cbn [orb]. rewrite H3, Nat2Z.id. rewrite (proj2 (Nat.ltb_ge _ _)) by lia.
  assert (Hname : slice 12 (length name) d = name).
  { rewrite Hd. rewrite slice_skip by (by rewrite length_entry_bytes). rewrite length_entry_bytes. by apply slice_here. }
  rewrite Hname, H7. cbn [app]. f_equal. f_equal. rewrite H4, Nat2Z.id. unfold d. apply drop_app_length'. by rewrite length_entry_data.
Qed.

Lemma parse_dir_data es : forall fuel, (length es <= fuel)%nat -> Forall entry_wf es -> parse_from fuel (dir_data es) = es.
Proof.
  induction es as [|en es IH]; intros fuel Hf Hw; [by destruct fuel|]. apply Forall_cons in Hw as [Hen Hw]. cbn [length] in Hf.
  destruct fuel as [|fuel]; [lia|]. change (dir_data (en :: es)) with (entry_data en ++ dir_data es).
  rewrite parse_entry by done. f_equal. apply IH; [lia|done].
Qed.

Lemma length_dir_data es : (length es <= length (dir_data es))%nat.
Proof.
  induction es as [|en es IH]; [done|]. change (dir_data (en :: es)) with (entry_data en ++ dir_data es).
  rewrite length_app, length_entry_data. pose proof (padded_bounds en.2). cbn [length]. lia.
Qed.

Lemma parse_written es : Forall entry_wf es -> parse_entries (dir_data es) = es.
Proof. intros Hw. apply parse_dir_data; [apply length_dir_data|done]. Qed.

(** ** Directories on the disk *)

(** A length for which the slot of the inode keeps all that is needed. *)
Definition fits_slot (n : nat) : Prop := (n <= SLOT_DATA \/ MAX_INLINE_DATA < n <= 12 * BLOCK_SIZE)%nat.

(** The slot of [ino] holds an inode whose data is [d]. *)
Definition data_is (f : Fs) (ino : Z) (d : list Z) : Prop :=
  exists i bs, inode_wf i /\ slot f ino = take INODE_SIZE (inode_bytes i) /\ extent_count i <= 12 /\
    holds (total_blocks (sb f)) (dev f) i d bs /\ fits_slot (length d).

Definition dir_is (f : Fs) (ino : Z) (es : list (DirEntry * list Z)) : Prop :=
  data_is f ino (dir_data es) /\ Forall entry_wf es.

(** An inode whose fields, apart from those of its data, are in order. *)
Definition meta_wf (i : SkyfsInode) : Prop := exists i0, inode_wf i0 /\ forall n c x, set_data n c x i = set_data n c x i0.

Lemma data_read f ino d : mounted_ok f -> valid_ino f ino -> data_is f ino d ->
  exists i bs, meta_wf i /\ extent_count i <= 12 /\ holds (total_blocks (sb f)) (dev f) i d bs /\
  io_ok (fun i' f' => i' = i /\ f' = f) (read_failed f) (read_inode_inner ino f).
Proof.
  intros Hm Hi (i & bs & Hw & Hs & He & Hh & Hfit). destruct (read_slot_ok f ino i Hm Hi Hw Hs) as (tail & Ho).
  exists (set_data (size i) (extent_count i) (take SLOT_DATA (data i) ++ tail) i), bs. split; [by exists i|]. split; [done|].
  split; [apply holds_slot; [destruct Hfit; lia|done|done]|]. eapply io_ok_mono; [| |exact Ho]; [by intros ? ? [-> ->]|done].
Qed.

Lemma bytes_read f i d bs : mounted_ok f -> holds (total_blocks (sb f)) (dev f) i d bs ->
  io_ok (fun out f' => out = d /\ f' = f) (read_failed f) (read_file_data i f).
Proof. intros Hm Hh. apply (holds_read _ f i d bs (total_small _ (mo_bitmap _ Hm))); try apply Hm. done. Qed.

Lemma entries_read f ino es : mounted_ok f -> valid_ino f ino -> dir_is f ino es ->
  io_ok (fun es' f' => es' = es /\ f' = f) (read_failed f) (entries_of ino f).
Proof.
  intros Hm Hi [Hd Hw]. destruct (data_read f ino _ Hm Hi Hd) as (i & bs & _ & _ & Hh & Hr). unfold entries_of.
  eapply io_bind; [exact Hr|]. intros i' f' [-> ->]. eapply io_bind; [exact (bytes_read f i _ bs Hm Hh)|]. intros out f' [-> ->].
  split; [by apply parse_written|done].
Qed.

(** What is left alone when the data of [ino] is replaced. *)
Definition kept (f : Fs) (ino : Z) (f' : Fs) : Prop :=
  mounted_ok f' /\ sb f' = sb f /\ blocks_kept f ino f' /\ forall ino', valid_ino f ino' -> ino' <> ino -> slot f' ino' = slot f ino'.

(** A write fails on a faulty device or when no block is left. *)
Definition write_failed (f f' : Fs) : Prop := mounted_ok f' /\ (healthy (total_blocks (sb f)) (dev f) -> full (sb f) (dev f')).

Lemma read_write_failed f f' : mounted_ok f -> read_failed f f' -> write_failed f f'.
Proof. intros Hm [-> Hu]. split; [done|]. intros Hh. by destruct Hu. Qed.

Lemma dir_data_bytes es : Forall entry_wf es -> bytes (dir_data es).
Proof.
  induction 1 as [|en es Hen _ IH]; [constructor|]. change (dir_data (en :: es)) with (entry_data en ++ dir_data es). apply Forall_app.
  split; [|done]. unfold entry_data, pad4. rewrite !Forall_app. split; [split; [apply entry_bytes_u8|apply Hen]|].
  apply Forall_replicate. unfold is_u8. lia.
Qed.

(** Replacing the data of an inode. *)
Lemma replace_data f ino i d : mounted_ok f -> valid_ino f ino -> meta_wf i -> extent_count i <> BTREE_MODE -> bytes d -> fits_slot (length d) ->
  match store_data_blocks d (f, i) with
  | (Ok _, (f1, i1)) => io_ok (fun _ f' => data_is f' ino d /\ kept f ino f') (write_failed f) (write_inode_inner ino i1 f1)
  | (Err, (f1, _)) => write_failed f f1
  | _ => False
  end.
Proof.
  intros Hm Hi (i0 & Hw0 & Hmeta) Ht Hb Hfit.
  assert (Hsmall : (length d <= 12 * BLOCK_SIZE)%nat) by (unfold fits_slot, SLOT_DATA, BLOCK_SIZE in *; lia).
  pose proof (store_spec d f i (conj (mo_disk _ Hm) (conj (mo_bitmap _ Hm) (mo_fs_free _ Hm))) (mo_dev_free _ Hm)
    (mounted_reserved _ Hm) Hb Ht) as Hst.
  destruct (store_data_blocks d (f, i)) as [[[]| | |] [f1 i1]]; [|..|lia|lia].
  2:{ destruct (Hst ltac:(lia)) as [Hiso Hfull]. split; [by apply (isolated_mounted f)|done]. }
  destruct Hst as [Hntree Hst]. destruct (Hst (Hntree ltac:(lia))) as (Hiso & Hset & Hdl & Hdb & Hcount & Hblocks & bs & Hh & Hbs).
  assert (Hec : extent_count i1 <= 12).
  { etrans; [exact Hblocks|]. destruct (decide (length d = 0)%nat) as [->|]; [done|].
    destruct (ceil_block (length d) ltac:(lia)) as [Hceil _]. unfold BLOCK_SIZE in *. lia. }
  assert (Hw1 : inode_wf i1).
  { rewrite Hset, Hmeta. apply set_data_wf; try done; [|unfold is_u32; lia]. rewrite (proj1 Hh). unfold is_u64, BLOCK_SIZE in *. lia. }
  eapply io_ok_mono; [| |apply (stored_then_inode f f1 ino i1 d bs Hm Hi Hiso Hw1 Hh Hbs)].
  - intros [] f' (Hm' & Hkept & _ & Hsb & Hh' & Hslot & _ & Hother). split; [|by split_and!].
    exists i1, bs. rewrite Hsb. by split_and!.
  - intros f' [Hm' Hu]. split; [done|]. intros Hh'. by destruct Hu.
Qed.

(** The entry that [add_entry_impl] writes. *)
Definition new_entry (child : Z) (name : list Z) : DirEntry * list Z :=
  (mkEntry child (u16 ((12 + Z.of_nat (length name) + 3) / 4 * 4)) (u8 (Z.of_nat (length name))) 0, name).

Lemma new_entry_wf child name : 0 < child < M64 -> (1 <= length name <= 255)%nat -> bytes name -> from_utf8 name = true ->
  entry_wf (new_entry child name).
Proof.
  intros Hc Hl Hb Hu. destruct (padded_bounds name) as [Hp _].
  assert (Hpad : (12 + Z.of_nat (length name) + 3) / 4 * 4 = Z.of_nat (dirent_padded name)).
  { unfold dirent_padded, ENTRY_SIZE. rewrite Nat2Z.inj_mul, Nat2Z.inj_div. f_equal. f_equal. lia. }
  unfold new_entry. split; cbn [fst snd d_inode rec_len name_len file_type]; try done; [|rewrite Hpad].
  - unfold u8. rewrite Z.mod_small; [done|change M8 with 256; lia].
  - unfold u16. rewrite Z.mod_small; [done|change M16 with 65536; lia].
Qed.

Lemma filter_unnamed (es : list (DirEntry * list Z)) name :
  existsb (fun en => bool_decide (en.2 = name)) es = false -> filter (fun en => en.2 <> name) es = es.
Proof.
  induction es as [|en es IH]; [done|]. cbn [existsb]. intros H. apply orb_false_iff in H as [H1 H2]. apply bool_decide_eq_false in H1.
  rewrite filter_cons_True by done. by rewrite IH.
Qed.

Lemma add_entry_ok f ino es child name : let es' := es ++ [new_entry child name] in
  mounted_ok f -> valid_ino f ino -> dir_is f ino es ->
  0 < child < M64 -> (1 <= length name <= 255)%nat -> bytes name -> from_utf8 name = true -> fits_slot (length (dir_data es')) ->
  io_ok (fun _ f' => dir_is f' ino es' /\ kept f ino f') (write_failed f) (add_entry_impl ino name child f).
Proof.
  intros es' Hm Hi Hdir Hc Hl Hb Hu Hfit. destruct Hdir as [Hd Hw]. pose proof (new_entry_wf child name Hc Hl Hb Hu) as Hen.
  assert (Hw' : Forall entry_wf es') by (apply Forall_app; split; [done|by constructor]).
  assert (Hfail : forall s, read_failed f s -> write_failed f s) by (intros s Hs; by apply read_write_failed).
  destruct (data_read f ino _ Hm Hi Hd) as (i & bs & Hmeta & Hec & Hh & Hr).
  assert (Hr' := io_ok_mono _ _ _ _ _ (fun _ _ H => H) Hfail Hr). unfold add_entry_impl.
  eapply io_bind; [exact Hr'|]. intros i' f' [-> ->].
  eapply io_bind; [exact (io_ok_mono _ _ _ _ _ (fun _ _ H => H) Hfail (bytes_read f i _ bs Hm Hh))|]. intros out f' [-> ->].
  eapply io_bind; [exact Hr'|]. intros i' f' [-> ->]. rewrite run_bind. unfold local.
  change (mkEntry child _ _ 0) with (new_entry child name).1. change name with (new_entry child name).2 at 2.
  rewrite append_dir_data. fold es'.
  pose proof (replace_data f ino i (dir_data es') Hm Hi Hmeta ltac:(unfold BTREE_MODE; lia) (dir_data_bytes _ Hw') Hfit) as Hst.
  destruct (store_data_blocks (dir_data es') (f, i)) as [[[]| | |] [f1 i1]]; try done.
  eapply io_ok_mono; [| |exact Hst]; [|done]. intros [] f' [H1 H2]. by split.
Qed.

Lemma unlink_ok f ino es name i : let es' := filter (fun en => en.2 <> name) es in
  mounted_ok f -> valid_ino f ino -> dir_is f ino es ->
  meta_wf i -> extent_count i <> BTREE_MODE -> fits_slot (length (dir_data es')) ->
  io_ok (fun _ s => dir_is s.1 ino es' /\ kept f ino s.1 /\ es' <> es)
    (fun s => write_failed f s.1 \/ s.1 = f /\ es' = es) (node_unlink ino name (f, i)).
Proof.
  intros es' Hm Hi Hdir Hmeta Ht Hfit. unfold node_unlink. rewrite run_bind. unfold on_fs at 1. cbn [fst snd].
  pose proof (entries_read f ino es Hm Hi Hdir) as Hr. destruct Hdir as [Hd Hw]. unfold io_ok in Hr.
  destruct (entries_of ino f) as [[out| | |] f']; try done.
  2:{ left. by apply read_write_failed. }
  destruct Hr as [-> ->]. destruct (existsb _ es) eqn:Hex; cbn [negb].
  + assert (Hw' : Forall entry_wf es') by (apply Forall_forall; intros en Hin; apply list_elem_of_filter in Hin as [_ Hin]; by apply (proj1 (Forall_forall _ _) Hw)).
    rewrite run_bind, rewrite_dir_data. fold es'.
    pose proof (replace_data f ino i (dir_data es') Hm Hi Hmeta Ht (dir_data_bytes _ Hw') Hfit) as Hst.
    destruct (store_data_blocks (dir_data es') (f, i)) as [[[]| | |] [f1 i1]]; try done; [|by left].
    rewrite run_bind. unfold the_inode, gets, on_fs. cbn [fst snd]. unfold io_ok in *.
    destruct (write_inode_inner ino i1 f1) as [[[]| | |] f2]; try done; [|by left]. destruct Hst as [H1 H2]. split; [by split|].
    split; [done|]. intros Heq. apply existsb_exists in Hex as (en & Hin & Hn). apply bool_decide_eq_true in Hn.
    rewrite <- Heq in Hin. apply list_elem_of_In, list_elem_of_filter in Hin as [Hne _]. done.
  + right. split; [done|]. by apply filter_unnamed.
Qed.


(** ** The root directory of the small device *)

Definition dots : list (DirEntry * list Z) := [(mkEntry 1 16 1 0, dot); (mkEntry 1 16 2 0, dot_dot)].
Definition root_inode_of_dots : SkyfsInode := mkInode (S_IFDIR + 0x1ED) 0 0 32 0 0 0 2 0 0 0 (pad_to MAX_INLINE_DATA (dir_data dots)).

Lemma root_slot : slot small_fs 1 = take INODE_SIZE (inode_bytes root_inode_of_dots).
Proof. vm_compute. reflexivity. Qed.

Lemma root_is_dots : dir_is small_fs 1 dots.
Proof.
  assert (Hw : Forall entry_wf dots) by (repeat constructor; unfold is_u8; cbn; lia). split; [|done].
  exists root_inode_of_dots, []. split; [|split; [exact root_slot|split; [done|split; [|left; apply Nat.leb_le; reflexivity]]]].
  - split; try (vm_compute; split; congruence). apply Forall_app.
    split; [by apply dir_data_bytes|apply Forall_replicate; unfold is_u8; lia].
  - split; [reflexivity|]. change (length (dir_data dots) <=? MAX_INLINE_DATA)%nat with true. split; reflexivity.
Qed.


(** A name of 256 bytes gets the length 0, which ends the directory for every
    reader; the entries behind it are hidden. *)
Example long_name_hides :
  parse_entries (dir_data (dots ++ [new_entry 2 (replicate 256 97); new_entry 3 [98]])) = dots.
Proof. vm_compute. reflexivity. Qed.
