(* ===== verification/BlockCache.v ===== *)
(** * The cache in front of a block device

    Model of [crates/drivers/src/block/cache.rs]: 256 lines of one sector each,
    written back when a line is taken for another sector and by [sync]. A
    [BlockCache] is used through the lock of the device that it is registered
    as, so its operations run one after the other; the locks on the lines and on
    the device below are taken and released inside them. *)

From stdpp Require Import functions.
From S2P Require Import Prelude UserAccess SkyDisk.

Definition CACHE_SIZE : nat := 256.

Record CacheLine := mkLine { l_sector : Z; l_data : list Z; l_dirty : bool; l_valid : bool }.

#[global] Instance CacheLine_inhabited : Inhabited CacheLine := populate (mkLine 0 [] false false).

Record BlockCache := mkCache { inner : Disk; lines : list CacheLine; access_clock : Z }.

Definition new (inner : Disk) : BlockCache :=
  mkCache inner (replicate CACHE_SIZE (mkLine 0 (replicate SECTOR_SIZE 0) false false)) 0.

Definition on_inner {A} (m : Io Disk A) : Io BlockCache A := fun c =>
  let '(r, d) := m (inner c) in (r, mkCache d (lines c) (access_clock c)).
Definition set_line (i : nat) (l : CacheLine) : Io BlockCache unit := modify (fun c =>
  mkCache (inner c) (<[i := l]> (lines c)) (access_clock c)).

(** [lines.iter().position(|l| l.valid && l.sector == sector)] *)
Definition holds_sector (s : Z) (l : CacheLine) : bool := l_valid l && (l_sector l =? s).
Fixpoint position (s : Z) (ls : list CacheLine) : option nat :=
  match ls with
  | [] => None
  | l :: ls => if holds_sector s l then Some O else S <$> position s ls
  end.

(** [let _ = dev.write_sector(..)] of a dirty line: its error is ignored. *)
Definition write_back (d : Disk) (l : CacheLine) : Disk := if l_dirty l then (write_sector (l_sector l) (l_data l) d).2 else d.

Definition evict_one : Io BlockCache nat :=
  c ← gets id;
  let i := Z.to_nat (access_clock c mod Z.of_nat CACHE_SIZE) in
  let clock := u64 (access_clock c + 1) in
  let l := lines c !!! i in
  _ ← modify (fun c =>
    if negb (l_valid l) then mkCache (inner c) (lines c) clock
    else mkCache (write_back (inner c) l) (<[i := mkLine (l_sector l) (l_data l) false false]> (lines c)) clock);
  ret i.

Definition fetch_sector (s : Z) (slot : nat) : Io BlockCache unit :=
  b ← on_inner (read_sector s);
  set_line slot (mkLine s b false true).

Definition read_chunk (s : Z) : Io BlockCache (list Z) :=
  c ← gets id;
  match position s (lines c) with
  | Some i => ret (l_data (lines c !!! i))
  | None =>
      slot ← evict_one;
      _ ← fetch_sector s slot;
      c ← gets id;
      ret (l_data (lines c !!! slot))
  end.

Definition write_chunk (s : Z) (b : list Z) : Io BlockCache unit :=
  c ← gets id;
  match position s (lines c) with
  | Some i => set_line i (mkLine (l_sector (lines c !!! i)) b true (l_valid (lines c !!! i)))
  | None => slot ← evict_one; set_line slot (mkLine s b true true)
  end.

(** [n] sectors from [s] on; the bytes that are copied to the buffer. *)
Fixpoint read_chunks (n : nat) (s : Z) : Io BlockCache (list Z) :=
  match n with O => ret [] | S n => b ← read_chunk (u64 s); bs ← read_chunks n (s + 1); ret (b ++ bs) end.
Fixpoint write_chunks (n : nat) (s : Z) (buf : list Z) : Io BlockCache unit :=
  match n with O => ret tt | S n => _ ← write_chunk (u64 s) (take SECTOR_SIZE buf); write_chunks n (s + 1) (drop SECTOR_SIZE buf) end.

(** The length of the buffer decides how many sectors are read. *)
Definition read_sector_cached (s : Z) (len : nat) : Io BlockCache (list Z) :=
  if (len <? SECTOR_SIZE)%nat then fail else read_chunks (len / SECTOR_SIZE) s.
Definition write_sector_cached (s : Z) (buf : list Z) : Io BlockCache unit :=
  if (length buf <? SECTOR_SIZE)%nat then fail else write_chunks (length buf / SECTOR_SIZE) s buf.

Definition sync : Io BlockCache unit := modify (fun c =>
  mkCache (foldl write_back (inner c) (lines c))
    ((fun l => mkLine (l_sector l) (l_data l) false (l_valid l)) <$> lines c) (access_clock c)).

(** ** What the cache shows *)

Definition view (c : BlockCache) (s : Z) : list Z :=
  match position s (lines c) with Some i => l_data (lines c !!! i) | None => sector (inner c) s end.

(** The sectors below [n] can be read and written. *)
Definition works (n : Z) (d : Disk) : Prop := forall s, 0 <= s < n -> read_fails d s = false /\ write_fails d s = false.

Record cache_wf (n : Z) (c : BlockCache) : Prop := {
  cw_length : length (lines c) = CACHE_SIZE;
  cw_unique : forall i j l l', lines c !! i = Some l -> lines c !! j = Some l' ->
    l_valid l = true -> l_valid l' = true -> l_sector l = l_sector l' -> i = j;
  cw_sector : forall i l, lines c !! i = Some l -> l_valid l = true -> 0 <= l_sector l < n;
  cw_dirty : forall i l, lines c !! i = Some l -> l_dirty l = true -> l_valid l = true;
  cw_clean : forall i l, lines c !! i = Some l -> l_valid l = true -> l_dirty l = false -> l_data l = sector (inner c) (l_sector l);
  cw_works : works n (inner c) }.

Lemma holds_sector_spec s l : holds_sector s l = true <-> l_valid l = true /\ l_sector l = s.
Proof. unfold holds_sector. rewrite andb_true_iff, Z.eqb_eq. done. Qed.

Lemma position_some s ls i : position s ls = Some i -> exists l, ls !! i = Some l /\ l_valid l = true /\ l_sector l = s.
Proof.
  revert i. induction ls as [|l ls IH]; intros i; [done|]. cbn [position]. destruct (holds_sector s l) eqn:Hh.
  - intros [= <-]. apply holds_sector_spec in Hh. by exists l.
  - destruct (position s ls) as [j|]; [|done]. intros [= <-]. by apply IH.
Qed.

Lemma position_none s ls : position s ls = None -> forall i l, ls !! i = Some l -> l_valid l = true -> l_sector l <> s.
Proof.
  induction ls as [|l ls IH]; [done|]. cbn [position]. destruct (holds_sector s l) eqn:Hh; [done|].
  destruct (position s ls) as [j|]; [done|]. intros _ [|i] l' Hl Hv Hs; [|by apply (IH eq_refl i l')].
  injection Hl as ->. assert (holds_sector s l' = true) by (by apply holds_sector_spec). congruence.
Qed.

Lemma view_hit n c i l : cache_wf n c -> lines c !! i = Some l -> l_valid l = true -> view c (l_sector l) = l_data l.
Proof.
  intros Hw Hl Hv. unfold view. destruct (position (l_sector l) (lines c)) as [j|] eqn:Hp.
  - apply position_some in Hp as (l' & Hl' & Hv' & Hs). rewrite (cw_unique _ _ Hw i j l l' Hl Hl' Hv Hv' (eq_sym Hs)) in Hl.
    by rewrite (list_lookup_total_correct _ _ _ Hl).
  - by destruct (position_none _ _ Hp i l Hl Hv).
Qed.

Lemma view_miss c s : (forall i l, lines c !! i = Some l -> l_valid l = true -> l_sector l <> s) -> view c s = sector (inner c) s.
Proof.
  intros Hn. unfold view. destruct (position s (lines c)) as [j|] eqn:Hp; [|done].
  apply position_some in Hp as (l & Hl & Hv & Hs). by destruct (Hn j l Hl Hv).
Qed.

(** Every sector is in one line or in none. *)
Lemma view_cases n c s : cache_wf n c ->
  (exists i l, lines c !! i = Some l /\ l_valid l = true /\ l_sector l = s /\ view c s = l_data l) \/
  ((forall i l, lines c !! i = Some l -> l_valid l = true -> l_sector l <> s) /\ view c s = sector (inner c) s).
Proof.
  intros Hw. destruct (position s (lines c)) as [i|] eqn:Hp.
  - left. apply position_some in Hp as (l & Hl & Hv & Hs). exists i, l. split_and!; try done. rewrite <- Hs. by eapply view_hit.
  - right. pose proof (position_none _ _ Hp) as Hn. split; [done|]. by apply view_miss.
Qed.

(** Putting a line for its sector into the slot [i]. *)
Lemma put_line n c i l' k : cache_wf n c -> (i < CACHE_SIZE)%nat -> l_valid l' = true -> 0 <= l_sector l' < n ->
  (forall j l, lines c !! j = Some l -> l_valid l = true -> l_sector l = l_sector l' -> j = i) ->
  (forall l, lines c !! i = Some l -> l_valid l = true -> l_sector l = l_sector l') ->
  (l_dirty l' = false -> l_data l' = sector (inner c) (l_sector l')) ->
  let c' := mkCache (inner c) (<[i := l']> (lines c)) k in
  cache_wf n c' /\ forall s, view c' s = if s =? l_sector l' then l_data l' else view c s.
Proof.
  intros Hw Hi Hv Hr Hsole Hsame Hclean c'. pose proof (cw_length _ _ Hw) as Hlen.
  assert (Hnew : lines c' !! i = Some l') by (apply list_lookup_insert_eq; lia).
  assert (Hold : forall j l, lines c' !! j = Some l -> j = i /\ l = l' \/ j <> i /\ lines c !! j = Some l).
  { intros j l Hl. destruct (decide (j = i)) as [->|Hne]; [left; split; congruence|].
    right. split; [done|]. unfold c' in Hl. cbn in Hl. by rewrite list_lookup_insert_ne in Hl by done. }
  assert (Hw' : cache_wf n c').
  { split; cbn [lines inner c'].
    - by rewrite length_insert.
    - intros j1 j2 l1 l2 H1 H2 V1 V2 Hs. destruct (Hold _ _ H1) as [[-> ->]|[N1 O1]], (Hold _ _ H2) as [[-> ->]|[N2 O2]]; [done| | |].
      + by destruct N2; apply (Hsole _ _ O2 V2).
      + by destruct N1; apply (Hsole _ _ O1 V1).
      + by apply (cw_unique _ _ Hw j1 j2 l1 l2).
    - intros j l Hl V. destruct (Hold _ _ Hl) as [[-> ->]|[_ O]]; [done|by eapply cw_sector].
    - intros j l Hl D. destruct (Hold _ _ Hl) as [[-> ->]|[_ O]]; [done|by eapply cw_dirty].
    - intros j l Hl V D. destruct (Hold _ _ Hl) as [[-> ->]|[_ O]]; [by apply Hclean|by eapply cw_clean].
    - apply Hw. }
  split; [done|]. intros s. destruct (Z.eqb_spec s (l_sector l')) as [->|Hne]; [by apply (view_hit n c' i l')|].
  destruct (view_cases n c s Hw) as [(j & l & Hl & V & Hs & ->)|[Hn ->]].
  - assert (Hji : j <> i) by (intros ->; apply Hne; rewrite <- Hs; by apply Hsame).
    rewrite <- Hs. apply (view_hit n c' j l); [done| |done]. unfold c'. cbn. by rewrite list_lookup_insert_ne.
  - rewrite view_miss; [done|]. intros j l Hl V. destruct (Hold _ _ Hl) as [[_ ->]|[_ O]]; [by intros Heq; apply Hne|by apply (Hn j l)].
Qed.

(** Writing a line back when the device works. *)
Lemma write_back_works n d l : works n d -> (l_dirty l = true -> 0 <= l_sector l < n) ->
  write_back d l = if l_dirty l then with_sector (l_sector l) (l_data l) d else d.
Proof.
  intros Hw Hr. unfold write_back, write_sector. destruct (l_dirty l); [|done].
  by rewrite (proj2 (Hw _ (Hr eq_refl))).
Qed.

Lemma works_with_sector n s b d : works n d -> works n (with_sector s b d).
Proof. done. Qed.

(** Taking a line away. *)
Lemma evict_ok n c : cache_wf n c ->
  exists i c' l, evict_one c = (Ok i, c') /\ (i < CACHE_SIZE)%nat /\ cache_wf n c' /\ (forall s, view c' s = view c s) /\
    lines c' !! i = Some l /\ l_valid l = false /\ (forall j l0, lines c' !! j = Some l0 -> l_valid l0 = true -> lines c !! j = Some l0).
Proof.
  intros Hw. unfold evict_one. rewrite run_bind. unfold gets, id. cbv zeta. set (i := Z.to_nat (access_clock c mod Z.of_nat CACHE_SIZE)).
  set (k := u64 (access_clock c + 1)). pose proof (cw_length _ _ Hw) as Hlen.
  assert (Hi : (i < CACHE_SIZE)%nat) by (unfold i; pose proof (Z.mod_pos_bound (access_clock c) (Z.of_nat CACHE_SIZE) ltac:(done)); lia).
  destruct (lookup_lt_is_Some_2 (lines c) i) as [l Hl]; [lia|]. rewrite (list_lookup_total_correct _ _ _ Hl).
  rewrite run_bind. unfold modify, ret. destruct (l_valid l) eqn:Hv; cbn [negb].
  2:{ exists i, (mkCache (inner c) (lines c) k), l. split_and!; try done. by destruct Hw. }
  exists i, (mkCache (write_back (inner c) l) (<[i := mkLine (l_sector l) (l_data l) false false]> (lines c)) k), (mkLine (l_sector l) (l_data l) false false).
  pose proof (cw_sector _ _ Hw i l Hl Hv) as Hr. rewrite (write_back_works n) by (try apply Hw; done).
  set (d' := if l_dirty l then _ else _). set (c' := mkCache d' _ k).
  assert (Hnew : lines c' !! i = Some (mkLine (l_sector l) (l_data l) false false)) by (apply list_lookup_insert_eq; lia).
  assert (Hold : forall j l0, lines c' !! j = Some l0 -> l_valid l0 = true \/ l_dirty l0 = true -> j <> i /\ lines c !! j = Some l0).
  { intros j l0 Hl0 Hvd. destruct (decide (j = i)) as [->|Hne]; [rewrite Hnew in Hl0; injection Hl0 as <-; by destruct Hvd|].
    split; [done|]. unfold c' in Hl0. cbn in Hl0. by rewrite list_lookup_insert_ne in Hl0 by done. }
  assert (Hd' : forall s, sector d' s = if s =? l_sector l then l_data l else sector (inner c) s).
  { intros s. unfold d'. destruct (l_dirty l) eqn:Hdl; cbn [sector with_sector].
    - destruct (Z.eqb_spec s (l_sector l)) as [->|Hne]; [by rewrite fn_lookup_insert|by rewrite fn_lookup_insert_ne].
    - destruct (Z.eqb_spec s (l_sector l)) as [->|Hne]; [|done]. symmetry. by apply (cw_clean _ _ Hw i). }
  assert (Hother : forall j l0, lines c !! j = Some l0 -> l_valid l0 = true -> j <> i -> l_sector l0 <> l_sector l).
  { intros j l0 Hl0 V Hne Hs. apply Hne. by apply (cw_unique _ _ Hw j i l0 l). }
  assert (Hw' : cache_wf n c').
  { split; cbn [lines inner c'].
    - by rewrite length_insert.
    - intros j1 j2 l1 l2 H1 H2 V1 V2 Hs. apply (cw_unique _ _ Hw j1 j2 l1 l2); try done; by apply Hold; [|left].
    - intros j l0 Hl0 V. by apply (cw_sector _ _ Hw j l0); [apply Hold; [|left]|].
    - intros j l0 Hl0 D. by apply (cw_dirty _ _ Hw j l0); [apply Hold; [|right]|].
    - intros j l0 Hl0 V D. destruct (Hold j l0 Hl0 (or_introl V)) as [Hne Hl0']. rewrite Hd'.
      rewrite (proj2 (Z.eqb_neq _ _)) by (by apply (Hother j)). by apply (cw_clean _ _ Hw j).
    - unfold d'. destruct (l_dirty l); apply Hw. }
  split_and!; try done; [|intros j l0 Hl0 V; by apply Hold; [|left]]. intros s. destruct (view_cases n c' s Hw') as [(j & l0 & Hl0 & V & <- & ->)|[Hn ->]].
  - symmetry. apply (view_hit n c j l0 Hw); [by apply Hold; [|left]|done].
  - cbn [inner c']. rewrite Hd'. destruct (Z.eqb_spec s (l_sector l)) as [->|Hne]; [symmetry; by apply (view_hit n c i l)|].
    symmetry. apply view_miss. intros j l0 Hl0 V Hs. destruct (decide (j = i)) as [->|Hji]; [congruence|].
    apply (Hn j l0); [|done|done]. unfold c'. cbn. by rewrite list_lookup_insert_ne.
Qed.

(** The slot that was taken, for a sector that no line has. *)
Lemma fill_slot n c c1 i l s b dirty k : cache_wf n c1 -> (i < CACHE_SIZE)%nat -> lines c1 !! i = Some l -> l_valid l = false -> 0 <= s < n ->
  (forall j l0, lines c1 !! j = Some l0 -> l_valid l0 = true -> lines c !! j = Some l0) -> position s (lines c) = None ->
  (dirty = false -> b = sector (inner c1) s) ->
  let c' := mkCache (inner c1) (<[i := mkLine s b dirty true]> (lines c1)) k in
  cache_wf n c' /\ forall t, view c' t = if t =? s then b else view c1 t.
Proof.
  intros Hw Hi Hl Hinv Hs Hold Hp Hd. apply (put_line n c1 i (mkLine s b dirty true) k); try done.
  - intros j l0 Hl0 V Heq. by destruct (position_none _ _ Hp j l0 (Hold j l0 Hl0 V) V).
  - intros l0 Hl0 V. congruence.
Qed.

Lemma read_chunk_ok n c s : cache_wf n c -> 0 <= s < n ->
  exists c', read_chunk s c = (Ok (view c s), c') /\ cache_wf n c' /\ forall t, view c' t = view c t.
Proof.
  intros Hw Hs. unfold read_chunk. rewrite run_bind. unfold gets at 1, id at 1. cbn iota beta.
  destruct (position s (lines c)) as [i|] eqn:Hp; [exists c; split; [unfold view; by rewrite Hp|done]|].
  destruct (evict_ok n c Hw) as (i & c1 & l & Hev & Hi & Hw1 & Hv1 & Hl & Hinv & Hold). rewrite run_bind, Hev. cbn iota beta.
  rewrite run_bind. unfold fetch_sector. rewrite run_bind. unfold on_inner, read_sector.
  rewrite (proj1 (cw_works _ _ Hw1 s Hs)). unfold set_line, modify. cbn [inner lines access_clock].
  destruct (fill_slot n c c1 i l s (sector (inner c1) s) false (access_clock c1) Hw1 Hi Hl Hinv Hs Hold Hp ltac:(done)) as [Hw2 Hv2].
  set (c2 := mkCache _ _ _) in *. exists c2.
  assert (Hmiss : view c1 s = sector (inner c1) s).
  { apply view_miss. intros j l0 Hl0 V Heq. by apply (position_none _ _ Hp j l0 (Hold j l0 Hl0 V) V). }
  split_and!; [|done|].
  - rewrite run_bind. unfold gets, id, ret. f_equal. f_equal. rewrite <- Hv1, Hmiss.
    erewrite list_lookup_total_correct; [|apply list_lookup_insert_eq; rewrite (cw_length _ _ Hw1); exact Hi]. done.
  - intros t. rewrite Hv2. destruct (Z.eqb_spec t s) as [->|]; [by rewrite <- Hv1, Hmiss|apply Hv1].
Qed.

Lemma write_chunk_ok n c s b : cache_wf n c -> 0 <= s < n ->
  exists c', write_chunk s b c = (Ok tt, c') /\ cache_wf n c' /\ forall t, view c' t = if t =? s then b else view c t.
Proof.
  intros Hw Hs. unfold write_chunk. rewrite run_bind. unfold gets at 1, id at 1. cbn iota beta.
  destruct (position s (lines c)) as [i|] eqn:Hp.
  - apply position_some in Hp as (l & Hl & V & <-). rewrite (list_lookup_total_correct _ _ _ Hl), V. unfold set_line, modify.
    eexists. split; [done|]. apply (put_line n c i (mkLine (l_sector l) b true true)); try done.
    + pose proof (lookup_lt_Some _ _ _ Hl). by rewrite <- (cw_length _ _ Hw).
    + intros j l0 Hl0 V0 Heq. by apply (cw_unique _ _ Hw j i l0 l).
    + intros l0 Hl0 _. cbn; congruence.
  - destruct (evict_ok n c Hw) as (i & c1 & l & Hev & Hi & Hw1 & Hv1 & Hl & Hinv & Hold). rewrite run_bind, Hev. cbn iota beta.
    unfold set_line, modify. eexists. split; [done|].
    destruct (fill_slot n c c1 i l s b true (access_clock c1) Hw1 Hi Hl Hinv Hs Hold Hp ltac:(done)) as [Hw2 Hv2].
    split; [done|]. intros t. rewrite Hv2. by rewrite Hv1.
Qed.

(** ** Writing everything back *)

Lemma flush_other n ls s : forall d, works n d -> (forall l, l ∈ ls -> l_dirty l = true -> 0 <= l_sector l < n /\ l_sector l <> s) ->
  sector (foldl write_back d ls) s = sector d s /\ works n (foldl write_back d ls).
Proof.
  induction ls as [|l ls IH]; intros d Hw Hl; [done|]. cbn [foldl].
  assert (Hin : l ∈ l :: ls) by left.
  rewrite (write_back_works n) by (try done; intros D; exact (proj1 (Hl l Hin D))).
  assert (Hrest : forall l0, l0 ∈ ls -> l_dirty l0 = true -> 0 <= l_sector l0 < n /\ l_sector l0 <> s) by (intros; apply Hl; [by right|done]).
  destruct (l_dirty l) eqn:D; [|by apply IH]. destruct (IH (with_sector (l_sector l) (l_data l) d) Hw Hrest) as [-> Hw']. split; [|done].
  cbn [sector with_sector]. rewrite fn_lookup_insert_ne; [done|]. exact (proj2 (Hl l Hin D)).
Qed.

Lemma flush_works n ls : forall d, works n d -> (forall l, l ∈ ls -> l_dirty l = true -> 0 <= l_sector l < n) -> works n (foldl write_back d ls).
Proof.
  induction ls as [|l ls IH]; intros d Hw Hl; [done|]. cbn [foldl]. apply IH; [|intros; apply Hl; [by right|done]].
  assert (Hin : l ∈ l :: ls) by left. rewrite (write_back_works n) by (try done; intros D; exact (Hl l Hin D)). by destruct (l_dirty l).
Qed.

Lemma flush_dirty n ls d i l : works n d -> (forall l, l ∈ ls -> l_dirty l = true -> 0 <= l_sector l < n) ->
  (forall j l', ls !! j = Some l' -> l_dirty l' = true -> l_sector l' = l_sector l -> j = i) ->
  ls !! i = Some l -> l_dirty l = true -> sector (foldl write_back d ls) (l_sector l) = l_data l.
Proof.
  intros Hw Hr Hu Hl D. rewrite <- (take_drop_middle ls i l Hl), foldl_app. cbn [foldl].
  assert (Hw1 : works n (foldl write_back d (take i ls))).
  { apply flush_works; [done|]. intros l0 Hin. apply Hr. by apply (subseteq_take i). }
  rewrite (write_back_works n _ l Hw1) by (intros _; apply Hr; [by eapply list_elem_of_lookup_2|done]). rewrite D.
  destruct (flush_other n (drop (S i) ls) (l_sector l) (with_sector (l_sector l) (l_data l) (foldl write_back d (take i ls)))) as [-> _]; [done| |].
  - intros l0 Hin D0. split; [apply Hr; [by apply (subseteq_drop (S i))|done]|]. intros Heq.
    apply list_elem_of_lookup_1 in Hin as [j Hj]. rewrite lookup_drop in Hj. pose proof (Hu _ _ Hj D0 Heq). lia.
  - cbn [sector with_sector]. by rewrite fn_lookup_insert.
Qed.

Lemma sync_ok n c : cache_wf n c ->
  exists c', sync c = (Ok tt, c') /\ cache_wf n c' /\ (forall s, view c' s = view c s) /\ (forall s, sector (inner c') s = view c s).
Proof.
  intros Hw. unfold sync, modify. eexists. split; [done|]. set (c' := mkCache _ _ _).
  assert (Hr : forall l, l ∈ lines c -> l_dirty l = true -> 0 <= l_sector l < n).
  { intros l Hin D. apply list_elem_of_lookup_1 in Hin as [i Hi]. apply (cw_sector _ _ Hw i l Hi). by apply (cw_dirty _ _ Hw i). }
  assert (Hsec : forall s, sector (inner c') s = view c s).
  { intros s. destruct (view_cases n c s Hw) as [(i & l & Hl & V & <- & ->)|[Hn ->]]; cbn [inner c'].
    - destruct (l_dirty l) eqn:D.
      + apply (flush_dirty n (lines c) (inner c) i l); try done; [apply Hw|]. intros j l' Hl' D' Heq.
        apply (cw_unique _ _ Hw j i l' l); try done. by apply (cw_dirty _ _ Hw j).
      + rewrite (cw_clean _ _ Hw i l Hl V D). apply (flush_other n); [apply Hw|]. intros l' Hin D'. split; [by apply Hr|].
        intros Heq. apply list_elem_of_lookup_1 in Hin as [j Hj]. assert (j = i) as ->.
        { apply (cw_unique _ _ Hw j i l' l); try done. by apply (cw_dirty _ _ Hw j). } congruence.
    - apply (flush_other n); [apply Hw|]. intros l' Hin D'. split; [by apply Hr|]. apply list_elem_of_lookup_1 in Hin as [j Hj].
      apply (Hn j l'); [done|]. by apply (cw_dirty _ _ Hw j). }
  assert (Hold : forall j l, lines c' !! j = Some l -> exists l0, lines c !! j = Some l0 /\ l_sector l = l_sector l0 /\ l_valid l = l_valid l0 /\ l_data l = l_data l0 /\ l_dirty l = false).
  { intros j l Hl. cbn [lines c'] in Hl. apply list_lookup_fmap_Some in Hl as (l0 & -> & Hl0). by exists l0. }
  assert (Hw' : cache_wf n c').
  { split.
    - cbn [lines c']. rewrite length_fmap. apply Hw.
    - intros i j l l' Hl Hl' V V' Hs. destruct (Hold _ _ Hl) as (l0 & H0 & S0 & V0 & _), (Hold _ _ Hl') as (l1 & H1 & S1 & V1 & _).
      apply (cw_unique _ _ Hw i j l0 l1); congruence.
    - intros i l Hl V. destruct (Hold _ _ Hl) as (l0 & H0 & S0 & V0 & _). rewrite S0. apply (cw_sector _ _ Hw i l0); congruence.
    - intros i l Hl D. destruct (Hold _ _ Hl) as (l0 & H0 & _ & _ & _ & D0). congruence.
    - intros i l Hl V D. destruct (Hold _ _ Hl) as (l0 & H0 & S0 & V0 & E0 & _). rewrite E0, S0, Hsec. symmetry.
      apply (view_hit n c i l0 Hw H0). congruence.
    - apply flush_works; [apply Hw|done]. }
  split_and!; try done. intros s. destruct (view_cases n c' s Hw') as [(i & l & Hl & V & <- & ->)|[_ ->]]; [|apply Hsec].
  destruct (Hold _ _ Hl) as (l0 & H0 & S0 & V0 & E0 & _). rewrite E0, S0. symmetry. apply (view_hit n c i l0 Hw H0). congruence.
Qed.

(** ** The cache refines the device *)

(** The operations of a [BlockDevice], with buffers of any length. *)
Inductive BlockOp := Read (s : Z) (len : nat) | Write (s : Z) (buf : list Z) | Sync.

Definition cached_step (op : BlockOp) : Io BlockCache (list Z) :=
  match op with
  | Read s len => read_sector_cached s len
  | Write s buf => _ ← write_sector_cached s buf; ret []
  | Sync => _ ← sync; ret []
  end.

(** The same on the contents of a device that never fails. *)
Fixpoint plain_read (n : nat) (s : Z) (v : Z -> list Z) : list Z :=
  match n with O => [] | S n => v s ++ plain_read n (s + 1) v end.
Fixpoint plain_write (n : nat) (s : Z) (buf : list Z) (v : Z -> list Z) : Z -> list Z :=
  match n with O => v | S n => plain_write n (s + 1) (drop SECTOR_SIZE buf) (<[s := take SECTOR_SIZE buf]> v) end.
Definition plain_step (op : BlockOp) (v : Z -> list Z) : Res (list Z) * (Z -> list Z) :=
  match op with
  | Read s len => (if (len <? SECTOR_SIZE)%nat then Err else Ok (plain_read (len / SECTOR_SIZE) s v), v)
  | Write s buf => if (length buf <? SECTOR_SIZE)%nat then (Err, v) else (Ok [], plain_write (length buf / SECTOR_SIZE) s buf v)
  | Sync => (Ok [], v)
  end.

Definition op_in (n : Z) (op : BlockOp) : Prop :=
  match op with
  | Read s len => 0 <= s /\ s + Z.of_nat (len / SECTOR_SIZE) <= n
  | Write s buf => 0 <= s /\ s + Z.of_nat (length buf / SECTOR_SIZE) <= n
  | Sync => True
  end.

Fixpoint run {S} (step : BlockOp -> S -> Res (list Z) * S) (ops : list BlockOp) (s : S) : list (Res (list Z)) * S :=
  match ops with
  | [] => ([], s)
  | op :: ops => let '(r, s) := step op s in let '(rs, s) := run step ops s in (r :: rs, s)
  end.

Lemma read_chunks_ok n k : forall s c v, n <= M64 -> cache_wf n c -> (forall t, view c t = v t) -> 0 <= s -> s + Z.of_nat k <= n ->
  exists c', read_chunks k s c = (Ok (plain_read k s v), c') /\ cache_wf n c' /\ forall t, view c' t = v t.
Proof.
  induction k as [|k IH]; intros s c v Hn Hw Hv Hs Hk; [by exists c|]. cbn [read_chunks plain_read].
  rewrite run_bind, u64_small by (unfold is_u64; lia).
  destruct (read_chunk_ok n c s Hw ltac:(lia)) as (c1 & -> & Hw1 & Hv1). rewrite run_bind.
  destruct (IH (s + 1) c1 v Hn Hw1) as (c2 & -> & Hw2 & Hv2); [intros t; by rewrite Hv1|lia|lia|].
  exists c2. by rewrite Hv.
Qed.

Lemma write_chunks_ok n k : forall s buf c v, n <= M64 -> cache_wf n c -> (forall t, view c t = v t) -> 0 <= s -> s + Z.of_nat k <= n ->
  exists c', write_chunks k s buf c = (Ok tt, c') /\ cache_wf n c' /\ forall t, view c' t = plain_write k s buf v t.
Proof.
  induction k as [|k IH]; intros s buf c v Hn Hw Hv Hs Hk; [by exists c|]. cbn [write_chunks plain_write].
  rewrite run_bind, u64_small by (unfold is_u64; lia).
  destruct (write_chunk_ok n c s (take SECTOR_SIZE buf) Hw ltac:(lia)) as (c1 & -> & Hw1 & Hv1).
  apply (IH (s + 1) (drop SECTOR_SIZE buf) c1); try done; try lia. intros t. rewrite Hv1, Hv. destruct (Z.eqb_spec t s) as [->|Hne].
  - by rewrite fn_lookup_insert.
  - by rewrite fn_lookup_insert_ne.
Qed.

Lemma cached_step_ok n c v op : n <= M64 -> cache_wf n c -> (forall t, view c t = v t) -> op_in n op ->
  let '(r, c') := cached_step op c in let '(r', v') := plain_step op v in
  r = r' /\ cache_wf n c' /\ forall t, view c' t = v' t.
Proof.
  intros Hn Hw Hv Hin. destruct op as [s len|s buf|]; cbn [cached_step plain_step op_in] in *.
  - unfold read_sector_cached. destruct (len <? SECTOR_SIZE)%nat; [done|].
    destruct (read_chunks_ok n (len / SECTOR_SIZE) s c v Hn Hw Hv) as (c' & -> & Hw' & Hv'); [lia..|]. done.
  - unfold write_sector_cached. rewrite run_bind. destruct (length buf <? SECTOR_SIZE)%nat; [done|].
    destruct (write_chunks_ok n (length buf / SECTOR_SIZE) s buf c v Hn Hw Hv) as (c' & -> & Hw' & Hv'); [lia..|]. done.
  - rewrite run_bind. destruct (sync_ok n c Hw) as (c' & -> & Hw' & Hv' & _). cbn [ret]. split_and!; try done. intros t. by rewrite Hv'.
Qed.

(** C20. The cache refines the device. On a device whose first [n] sectors work,
    every sequence of reads, writes and syncs of them gives through the cache the
    same results as on the bare contents, whatever lines are evicted meanwhile;
    and after a further sync every sector of the device holds what was last
    written to it. *)
Theorem block_cache_refines n ops c :
  n <= M64 -> cache_wf n c -> Forall (op_in n) ops ->
  let '(rs, c') := run cached_step ops c in
  let '(rs', v') := run plain_step ops (view c) in
  rs = rs' /\ (forall s, view c' s = v' s) /\ (forall s, sector (inner (sync c').2) s = v' s).
Proof.
  intros Hn Hw Hops. enough (Hr : forall v, (forall t, view c t = v t) -> let '(rs, c') := run cached_step ops c in
    let '(rs', v') := run plain_step ops v in rs = rs' /\ cache_wf n c' /\ forall s, view c' s = v' s).
  { specialize (Hr (view c) ltac:(done)). destruct (run cached_step ops c) as [rs c'], (run plain_step ops (view c)) as [rs' v'].
    destruct Hr as (-> & Hw' & Hv'). split_and!; try done. intros s. destruct (sync_ok n c' Hw') as (c2 & -> & _ & _ & Hs). cbn. by rewrite Hs. }
  revert c Hw. induction Hops as [|op ops Hop Hops IH]; intros c Hw v Hv; cbn [run]; [done|].
  pose proof (cached_step_ok n c v op Hn Hw Hv Hop) as Hst. destruct (cached_step op c) as [r c1], (plain_step op v) as [r' v1].
  destruct Hst as (-> & Hw1 & Hv1). specialize (IH c1 Hw1 v1 Hv1).
  destruct (run cached_step ops c1) as [rs c2], (run plain_step ops v1) as [rs' v2]. destruct IH as (-> & Hw2 & Hv2). done.
Qed.

Lemma new_wf n d : works n d -> cache_wf n (new d).
Proof.
  intros Hw. assert (Hl : forall i l, lines (new d) !! i = Some l -> l_valid l = false /\ l_dirty l = false)
    by (intros i l Hl; by apply lookup_replicate in Hl as [-> _]).
  split; try done; [intros i j l l' H _ V|intros i l H V|intros i l H D|intros i l H V];
    destruct (Hl i l H); congruence.
Qed.

Definition small_ops : list BlockOp := [Write 3 (replicate 1024 7); Read 4 512; Sync; Read 2 1024].

Lemma block_cache_refines_witness :
  (run cached_step small_ops (new blank_disk)).1 = (run plain_step small_ops (view (new blank_disk))).1.
Proof.
  assert (Hw : works 128 blank_disk) by (intros s Hs; cbn; split; apply Z.leb_gt; lia).
  assert (Hops : Forall (op_in 128) small_ops) by (repeat constructor; cbn; lia).
  pose proof (block_cache_refines 128 small_ops (new blank_disk) ltac:(apply Zle_bool_imp_le; reflexivity) (new_wf 128 blank_disk Hw) Hops) as H. revert H.
  generalize (run cached_step small_ops (new blank_disk)) as x. generalize (run plain_step small_ops (view (new blank_disk))) as y.
  intros [rs' v'] [rs c'] [H _]. exact H.
Defined.

(** A sector that cannot be written: the write is reported as done, and when the
    line is taken for another sector the data is gone. *)
Definition bad_sector_disk : Disk := mkDisk (fun _ => replicate SECTOR_SIZE 0) (Some 1024) (fun _ => false) (fun s => s =? 3).

Example write_error_lost :
  let ops := Write 3 (replicate 512 7) :: Read 3 512 :: ((fun k => Read (Z.of_nat k) 512) <$> seq 10 256) ++ [Read 3 512] in
  let rs := (run cached_step ops (new bad_sector_disk)).1 in
  take 2 rs = [Ok []; Ok (replicate 512 7)] /\ last rs = Some (Ok (replicate 512 0)).
Proof. vm_compute. split; reflexivity. Qed.
