(* ===== verification/BlockSched.v ===== *)
(** * The deadline scheduler of block requests

    Model of [crates/drivers/src/block/scheduler.rs]: the queues of a device,
    merging, and the order of dispatch. Numbers wrap around as in a release
    build. The buffer of a request is its address, and its callback a number. *)

From S2P Require Import Prelude.

Inductive IoPriority := Realtime | BestEffort | Idle.
Inductive IoDirection := ReadIo | WriteIo.

#[global] Instance IoPriority_eq_dec : EqDecision IoPriority.
Proof. solve_decision. Defined.
#[global] Instance IoDirection_eq_dec : EqDecision IoDirection.
Proof. solve_decision. Defined.

Definition from_u32 (val : Z) : IoPriority := if val =? 0 then Realtime else if val =? 1 then BestEffort else Idle.

Record IoRequest := mkRequest {
  r_device : Z; r_sector : Z; num_sectors : Z; direction : IoDirection; priority : IoPriority; deadline : Z; seq : Z;
  buffer : Z; callback : option Z }.

Record IoStats := mkStats {
  reads_dispatched : Z; writes_dispatched : Z; reads_merged : Z; writes_merged : Z; reads_completed : Z; writes_completed : Z;
  total_ticks : Z }.

Record DeadlineScheduler := mkSched {
  device_id : Z; read_queue : list IoRequest; write_queue : list IoRequest; deadline_window : Z; base_latency : Z;
  batch_merge_sectors : Z; next_seq : Z; stats : IoStats }.

Definition new (device : Z) : DeadlineScheduler := mkSched device [] [] 5 10 128 1 (mkStats 0 0 0 0 0 0 0).

Definition set_queues (rq wq : list IoRequest) (s : DeadlineScheduler) : DeadlineScheduler :=
  mkSched (device_id s) rq wq (deadline_window s) (base_latency s) (batch_merge_sectors s) (next_seq s) (stats s).
Definition set_stats (st : IoStats) (s : DeadlineScheduler) : DeadlineScheduler :=
  mkSched (device_id s) (read_queue s) (write_queue s) (deadline_window s) (base_latency s) (batch_merge_sectors s) (next_seq s) st.

(** The queue of a direction. *)
Definition queue (d : IoDirection) (s : DeadlineScheduler) : list IoRequest := match d with ReadIo => read_queue s | WriteIo => write_queue s end.
Definition set_queue (d : IoDirection) (q : list IoRequest) (s : DeadlineScheduler) : DeadlineScheduler :=
  match d with ReadIo => set_queues q (write_queue s) s | WriteIo => set_queues (read_queue s) q s end.

Definition set_range (sector num : Z) (r : IoRequest) : IoRequest :=
  mkRequest (r_device r) sector num (direction r) (priority r) (deadline r) (seq r) (buffer r) (callback r).
Definition set_seq (n : Z) (r : IoRequest) : IoRequest :=
  mkRequest (r_device r) (r_sector r) (num_sectors r) (direction r) (priority r) (deadline r) n (buffer r) (callback r).

(** [sector + num_sectors as u64] *)
Definition range_end (r : IoRequest) : Z := u64 (r_sector r + num_sectors r).

(** [None]: nothing to merge with. *)
Fixpoint try_merge (request : IoRequest) (q : list IoRequest) : option (list IoRequest) :=
  match q with
  | [] => None
  | e :: q =>
      if (range_end e =? r_sector request) && bool_decide (priority e = priority request)
      then Some (set_range (r_sector e) (u32 (num_sectors e + num_sectors request)) e :: q)
      else if (range_end request =? r_sector e) && bool_decide (priority e = priority request)
      then Some (set_range (r_sector request) (u32 (num_sectors e + num_sectors request)) e :: q)
      else cons e <$> try_merge request q
  end.

(** Before the first request with a larger sector. *)
Fixpoint insert_sorted (request : IoRequest) (q : list IoRequest) : list IoRequest :=
  match q with
  | [] => [request]
  | e :: q => if r_sector request <? r_sector e then request :: e :: q else e :: insert_sorted request q
  end.

Definition count_merged (d : IoDirection) (st : IoStats) : IoStats :=
  match d with
  | ReadIo => mkStats (reads_dispatched st) (writes_dispatched st) (u64 (reads_merged st + 1)) (writes_merged st) (reads_completed st) (writes_completed st) (total_ticks st)
  | WriteIo => mkStats (reads_dispatched st) (writes_dispatched st) (reads_merged st) (u64 (writes_merged st + 1)) (reads_completed st) (writes_completed st) (total_ticks st)
  end.
Definition count_dispatched (d : IoDirection) (st : IoStats) : IoStats :=
  match d with
  | ReadIo => mkStats (u64 (reads_dispatched st + 1)) (writes_dispatched st) (reads_merged st) (writes_merged st) (reads_completed st) (writes_completed st) (total_ticks st)
  | WriteIo => mkStats (reads_dispatched st) (u64 (writes_dispatched st + 1)) (reads_merged st) (writes_merged st) (reads_completed st) (writes_completed st) (total_ticks st)
  end.

Definition submit (request : IoRequest) (s : DeadlineScheduler) : DeadlineScheduler :=
  let request := set_seq (next_seq s) request in
  let s := mkSched (device_id s) (read_queue s) (write_queue s) (deadline_window s) (base_latency s) (batch_merge_sectors s)
    (u64 (next_seq s + 1)) (stats s) in
  let d := direction request in
  match try_merge request (queue d s) with
  | Some q => set_stats (count_merged d (stats s)) (set_queue d q s)
  | None => set_queue d (insert_sorted request (queue d s)) s
  end.

(** [position] and [remove]. *)
Fixpoint take_first (P : IoRequest -> bool) (q : list IoRequest) : option (IoRequest * list IoRequest) :=
  match q with
  | [] => None
  | e :: q => if P e then Some (e, q) else match take_first P q with Some (r, q) => Some (r, e :: q) | None => None end
  end.

(** The first request of the queue [d] with [P], taken out and counted. *)
Definition take_from (d : IoDirection) (P : IoRequest -> bool) (s : DeadlineScheduler) : option (IoRequest * DeadlineScheduler) :=
  match take_first P (queue d s) with
  | Some (r, q) => Some (r, set_stats (count_dispatched d (stats s)) (set_queue d q s))
  | None => None
  end.

Definition or_else {A} (x y : option A) : option A := match x with Some a => Some a | None => y end.

Definition dispatch_by_priority (p : IoPriority) (s : DeadlineScheduler) : option (IoRequest * DeadlineScheduler) :=
  let of_class r := bool_decide (priority r = p) in or_else (take_from ReadIo of_class s) (take_from WriteIo of_class s).

Definition dispatch (current_tick : Z) (s : DeadlineScheduler) : option (IoRequest * DeadlineScheduler) :=
  let expired r := deadline r <=? Z.max 0 (current_tick - deadline_window s) in
  or_else (dispatch_by_priority Realtime s)
  (or_else (take_from ReadIo expired s)
  (or_else (take_from WriteIo expired s)
  (or_else (take_from ReadIo (fun _ => true) s) (take_from WriteIo (fun _ => true) s)))).

Definition complete (request : IoRequest) (s : DeadlineScheduler) : DeadlineScheduler :=
  let st := stats s in
  set_stats (mkStats (reads_dispatched st) (writes_dispatched st) (reads_merged st) (writes_merged st)
    (u64 (reads_completed st + 1)) (u64 (writes_completed st + 1)) (total_ticks st)) s.

Definition queue_depths (s : DeadlineScheduler) : Z * Z := (Z.of_nat (length (read_queue s)), Z.of_nat (length (write_queue s))).
Definition is_empty (s : DeadlineScheduler) : bool := match read_queue s, write_queue s with [], [] => true | _, _ => false end.

(** ** The schedulers of all devices *)

Definition scheduler_init (device : Z) (l : list DeadlineScheduler) : list DeadlineScheduler := l ++ [new device].

(** [iter_mut().find(..)]: the first of the device. *)
Fixpoint on_device {A} (device : Z) (f : DeadlineScheduler -> A * DeadlineScheduler) (l : list DeadlineScheduler) : option A * list DeadlineScheduler :=
  match l with
  | [] => (None, [])
  | s :: l =>
      if device_id s =? device then let '(a, s) := f s in (Some a, s :: l)
      else let '(a, l) := on_device device f l in (a, s :: l)
  end.

Definition scheduler_submit (request : IoRequest) (l : list DeadlineScheduler) : list DeadlineScheduler :=
  (on_device (r_device request) (fun s => (tt, submit request s)) l).2.
Definition scheduler_dispatch (device current_tick : Z) (l : list DeadlineScheduler) : option IoRequest * list DeadlineScheduler :=
  let '(r, l) := on_device device (fun s => match dispatch current_tick s with Some (r, s) => (Some r, s) | None => (None, s) end) l in
  (default None r, l).
Definition scheduler_queue_depths (device : Z) (l : list DeadlineScheduler) : option (Z * Z) :=
  (on_device device (fun s => (queue_depths s, s)) l).1.

(** ** Nothing is lost or done twice *)

(** How often the sector [x] is asked for in the class [p]. *)
Definition covers (p : IoPriority) (x : Z) (r : IoRequest) : Z :=
  if bool_decide (priority r = p) && (r_sector r <=? x) && (x <? r_sector r + num_sectors r) then 1 else 0.
Definition load (p : IoPriority) (x : Z) (q : list IoRequest) : Z := foldr (fun r n => covers p x r + n) 0 q.
Definition sectors (q : list IoRequest) : Z := foldr (fun r n => num_sectors r + n) 0 q.

(** A request inside the 64-bit range of sectors. *)
Definition request_ok (r : IoRequest) : Prop := 0 <= r_sector r /\ 0 <= num_sectors r /\ r_sector r + num_sectors r < M64.

Lemma load_app p x q1 q2 : load p x (q1 ++ q2) = load p x q1 + load p x q2.
Proof. unfold load. induction q1 as [|r q1 IH]; cbn; [done|]. rewrite IH. lia. Qed.

Lemma sectors_nonneg q : Forall request_ok q -> 0 <= sectors q.
Proof. induction 1 as [|r q (_ & Hr & _) _ IH]; cbn; [done|]. fold (sectors q). lia. Qed.

Lemma range_end_ok r : request_ok r -> range_end r = r_sector r + num_sectors r.
Proof. intros (H1 & H2 & H3). unfold range_end. apply u64_small. unfold is_u64. lia. Qed.

(** Adjacent ranges of one class cover what both cover. *)
Lemma covers_join p x e r lo : priority e = priority r -> 0 <= num_sectors e -> 0 <= num_sectors r ->
  (lo = r_sector e /\ r_sector e + num_sectors e = r_sector r) \/ (lo = r_sector r /\ r_sector r + num_sectors r = r_sector e) ->
  covers p x (set_range lo (num_sectors e + num_sectors r) e) = covers p x e + covers p x r.
Proof.
  intros Hp He Hr Hadj. unfold covers. cbn [priority r_sector num_sectors set_range]. rewrite Hp.
  destruct (bool_decide (priority r = p)); cbn [andb]; [|done].
  destruct (Z.leb_spec lo x), (Z.ltb_spec x (lo + (num_sectors e + num_sectors r))), (Z.leb_spec (r_sector e) x),
    (Z.ltb_spec x (r_sector e + num_sectors e)), (Z.leb_spec (r_sector r) x), (Z.ltb_spec x (r_sector r + num_sectors r)); cbn [andb]; lia.
Qed.

(** A queue in order: requests of the direction [d], with at most [B] sectors. *)
Definition queue_ok (d : IoDirection) (q : list IoRequest) : Prop := Forall (fun r => request_ok r /\ direction r = d) q.

Lemma queue_requests d q : queue_ok d q -> Forall request_ok q.
Proof. intros H. eapply Forall_impl; [exact H|]. by intros r [? _]. Qed.

(** One merged range. *)
Lemma merged_ok p x d e r lo : request_ok e -> direction e = d -> request_ok r -> priority e = priority r ->
  num_sectors e + num_sectors r < M32 ->
  (lo = r_sector e /\ range_end e = r_sector r) \/ (lo = r_sector r /\ range_end r = r_sector e) ->
  let e' := set_range lo (u32 (num_sectors e + num_sectors r)) e in
  request_ok e' /\ direction e' = d /\ covers p x e' = covers p x e + covers p x r /\ num_sectors e' = num_sectors e + num_sectors r.
Proof.
  intros He Hd Hr Hp Hlt Hadj. rewrite (range_end_ok e He), (range_end_ok r Hr) in Hadj.
  destruct He as (E1 & E2 & E3), Hr as (R1 & R2 & R3).
  assert (Hu : u32 (num_sectors e + num_sectors r) = num_sectors e + num_sectors r) by (unfold u32; apply Z.mod_small; lia).
  rewrite Hu. cbv zeta. split_and!; try done; [|by apply covers_join].
  unfold request_ok. cbn [r_sector num_sectors set_range]. lia.
Qed.

Lemma try_merge_ok p x d r q q' : try_merge r q = Some q' -> queue_ok d q -> request_ok r -> direction r = d -> sectors q + num_sectors r < M32 ->
  queue_ok d q' /\ load p x q' = load p x q + covers p x r /\ sectors q' = sectors q + num_sectors r.
Proof.
  intros Hm Hq Hr Hd. revert q' Hm. induction Hq as [|e q [He Hde] Hq IH]; intros q' Hm Hs; [done|]. cbn [try_merge sectors foldr] in *.
  fold (sectors q) in *. pose proof (sectors_nonneg q (queue_requests d q Hq)) as H0.
  assert (Hlt : num_sectors e + num_sectors r < M32) by lia.
  destruct (_ && _) eqn:H1; [|destruct ((range_end r =? _) && _) eqn:H2].
  - injection Hm as <-. apply andb_true_iff in H1 as [H1 Hp]. apply Z.eqb_eq in H1. apply bool_decide_eq_true in Hp.
    destruct (merged_ok p x d e r (r_sector e) He Hde Hr Hp Hlt (or_introl (conj eq_refl H1))) as (M1 & M2 & M3 & M4).
    split; [by constructor|]. cbn [load sectors foldr]. fold (load p x q). fold (sectors q). rewrite M3, M4. lia.
  - injection Hm as <-. apply andb_true_iff in H2 as [H2 Hp]. apply Z.eqb_eq in H2. apply bool_decide_eq_true in Hp.
    destruct (merged_ok p x d e r (r_sector r) He Hde Hr Hp Hlt (or_intror (conj eq_refl H2))) as (M1 & M2 & M3 & M4).
    split; [by constructor|]. cbn [load sectors foldr]. fold (load p x q). fold (sectors q). rewrite M3, M4. lia.
  - destruct (try_merge r q) as [q1|]; [|done]. injection Hm as <-. pose proof (proj1 (proj2 He)).
    destruct (IH q1 eq_refl ltac:(lia)) as (I1 & I2 & I3). split; [by constructor|].
    cbn [load sectors foldr]. fold (load p x q1). fold (load p x q). fold (sectors q1). rewrite I2, I3. lia.
Qed.

Lemma insert_sorted_ok p x d r q : queue_ok d q -> request_ok r -> direction r = d ->
  queue_ok d (insert_sorted r q) /\ load p x (insert_sorted r q) = load p x q + covers p x r /\ sectors (insert_sorted r q) = sectors q + num_sectors r.
Proof.
  intros Hq Hr Hd. induction Hq as [|e q [He Hde] Hq IH]; cbn [insert_sorted].
  - split; [by apply Forall_singleton|]. cbn. lia.
  - destruct (r_sector r <? r_sector e); [split; [by constructor; [|constructor]|cbn; lia]|]. destruct IH as (I1 & I2 & I3).
    split; [by constructor|]. cbn [load sectors foldr]. fold (load p x (insert_sorted r q)). fold (sectors (insert_sorted r q)).
    fold (load p x q). fold (sectors q). rewrite I2, I3. lia.
Qed.

Lemma take_first_ok p x d P q r q' : take_first P q = Some (r, q') -> queue_ok d q ->
  P r = true /\ request_ok r /\ direction r = d /\ queue_ok d q' /\ load p x q = load p x q' + covers p x r /\ sectors q = sectors q' + num_sectors r /\
  length q = S (length q').
Proof.
  intros Ht Hq. revert r q' Ht. induction Hq as [|e q [He Hde] Hq IH]; intros r q' Ht; [done|]. cbn [take_first] in Ht.
  destruct (P e) eqn:HP.
  { injection Ht as <- <-. do 4 (split; [done|]). cbn [load sectors foldr length]. fold (load p x q). fold (sectors q). lia. }
  destruct (take_first P q) as [[r1 q1]|]; [|done]. injection Ht as <- <-.
  destruct (IH r1 q1 eq_refl) as (I1 & I2 & I3 & I4 & I5 & I6 & I7). do 3 (split; [done|]). split; [by constructor|].
  cbn [load sectors foldr length]. fold (load p x q). fold (load p x q1). fold (sectors q). fold (sectors q1). lia.
Qed.

Lemma take_first_none P q : take_first P q = None -> Forall (fun r => P r = false) q.
Proof.
  induction q as [|e q IH]; cbn [take_first]; [done|]. destruct (P e) eqn:HP; [done|].
  destruct (take_first P q) as [[]|]; [done|]. intros _. constructor; [done|by apply IH].
Qed.

(** A scheduler in order, with at most [B] sectors waiting. *)
Definition sched_ok (B : Z) (s : DeadlineScheduler) : Prop :=
  queue_ok ReadIo (read_queue s) /\ queue_ok WriteIo (write_queue s) /\ sectors (read_queue s) + sectors (write_queue s) <= B.

Definition pending (d : IoDirection) (p : IoPriority) (x : Z) (s : DeadlineScheduler) : Z := load p x (queue d s).
Definition asked (d : IoDirection) (p : IoPriority) (x : Z) (r : IoRequest) : Z := if bool_decide (direction r = d) then covers p x r else 0.

Lemma set_queue_other d d' q s : d <> d' -> queue d (set_queue d' q s) = queue d s.
Proof. by destruct d, d'. Qed.
Lemma set_queue_same d q s : queue d (set_queue d q s) = q.
Proof. by destruct d. Qed.

Lemma set_stats_id d q s : set_stats (stats s) (set_queue d q s) = set_queue d q s.
Proof. by destruct d. Qed.

Lemma sched_ok_queue B s d : sched_ok B s -> queue_ok d (queue d s).
Proof. intros (H1 & H2 & _). by destruct d. Qed.

Lemma sched_ok_set B B' s d q st : sched_ok B s -> queue_ok d q -> sectors q - sectors (queue d s) <= B' - B ->
  sched_ok B' (set_stats st (set_queue d q s)).
Proof. intros (H1 & H2 & H3) Hq Hs. unfold sched_ok. destruct d; cbn [queue set_queue set_queues set_stats read_queue write_queue] in *; (split; [done|split; [done|lia]]). Qed.

Lemma submit_ok B d p x r s : sched_ok B s -> request_ok r -> B + num_sectors r < M32 ->
  sched_ok (B + num_sectors r) (submit r s) /\ pending d p x (submit r s) = pending d p x s + asked d p x r.
Proof.
  intros Hs Hr HB. unfold submit. set (r1 := set_seq (next_seq s) r). set (s1 := mkSched _ _ _ _ _ _ _ _).
  change (direction r1) with (direction r). set (d' := direction r).
  assert (Hs1 : sched_ok B s1) by done. pose proof (sched_ok_queue B s1 d' Hs1) as Hq.
  assert (Hsec : sectors (queue d' s1) + num_sectors r1 < M32).
  { destruct Hs1 as (Q1 & Q2 & Q3). pose proof (sectors_nonneg _ (queue_requests _ _ Q1)). pose proof (sectors_nonneg _ (queue_requests _ _ Q2)).
    change (num_sectors r1) with (num_sectors r). destruct d'; cbn [queue] in *; lia. }
  assert (Hput : forall q st, queue_ok d' q -> load p x q = load p x (queue d' s1) + covers p x r1 -> sectors q = sectors (queue d' s1) + num_sectors r1 ->
    sched_ok (B + num_sectors r) (set_stats st (set_queue d' q s1)) /\ pending d p x (set_stats st (set_queue d' q s1)) = pending d p x s + asked d p x r).
  { intros q st Hqok Hl Hsz. split; [apply (sched_ok_set B); [done|done|change (num_sectors r1) with (num_sectors r) in Hsz; lia]|].
    unfold pending, asked. change (queue d (set_stats st (set_queue d' q s1))) with (queue d (set_queue d' q s1)). fold d'.
    case_bool_decide as Hd; [subst d; by rewrite set_queue_same, Hl|]. rewrite set_queue_other by congruence. rewrite Z.add_0_r. by destruct d. }
  destruct (try_merge r1 (queue d' s1)) as [q|] eqn:Hm.
  - destruct (try_merge_ok p x d' r1 _ q Hm Hq Hr eq_refl Hsec) as (M1 & M2 & M3). by apply Hput.
  - destruct (insert_sorted_ok p x d' r1 _ Hq Hr eq_refl) as (M1 & M2 & M3).
    rewrite <- set_stats_id. by apply Hput.
Qed.

(** How many requests wait. *)
Definition waiting (s : DeadlineScheduler) : nat := length (read_queue s) + length (write_queue s).

Definition taken_ok (B : Z) (d : IoDirection) (p : IoPriority) (x : Z) (s : DeadlineScheduler) (o : option (IoRequest * DeadlineScheduler)) : Prop :=
  match o with
  | Some (r, s') => sched_ok B s' /\ request_ok r /\ pending d p x s = pending d p x s' + asked d p x r /\ waiting s = S (waiting s')
  | None => True
  end.

Lemma take_from_ok B d' P d p x s : sched_ok B s -> taken_ok B d p x s (take_from d' P s).
Proof.
  intros Hs. unfold take_from. destruct (take_first P (queue d' s)) as [[r q]|] eqn:Ht; [|done]. cbn [taken_ok].
  destruct (take_first_ok p x d' P _ r q Ht (sched_ok_queue B s d' Hs)) as (_ & Hr & Hd & Hq & Hl & Hsz & Hlen).
  pose proof Hr as (_ & Hn & _). split; [apply (sched_ok_set B); [done|done|lia]|]. split; [done|]. split.
  - unfold pending, asked. change (queue d (set_stats ?st ?x)) with (queue d x). rewrite Hd. case_bool_decide as Heq.
    + subst d. by rewrite set_queue_same.
    + rewrite set_queue_other by congruence. lia.
  - unfold waiting. destruct d'; cbn [queue set_queue set_queues set_stats read_queue write_queue] in *; lia.
Qed.

Lemma or_else_ok B d p x s o1 o2 : taken_ok B d p x s o1 -> taken_ok B d p x s o2 -> taken_ok B d p x s (or_else o1 o2).
Proof. by destruct o1. Qed.

Lemma dispatch_ok B tick d p x s : sched_ok B s -> taken_ok B d p x s (dispatch tick s).
Proof. intros Hs. unfold dispatch, dispatch_by_priority. cbv zeta. repeat apply or_else_ok; by apply take_from_ok. Qed.

Lemma take_from_none d s : take_from d (fun _ => true) s = None -> queue d s = [].
Proof.
  unfold take_from. destruct (take_first _ _) as [[]|] eqn:Ht; [done|]. intros _. apply take_first_none in Ht. by destruct Ht.
Qed.

Lemma or_else_none {A} (x y : option A) : or_else x y = None -> x = None /\ y = None.
Proof. by destruct x. Qed.

(** Nothing is dispatched only when nothing waits. *)
Lemma dispatch_none tick s : dispatch tick s = None -> waiting s = 0%nat.
Proof.
  unfold dispatch. cbv zeta. intros H. do 3 (apply or_else_none in H as [_ H]). apply or_else_none in H as [H1 H2].
  apply take_from_none in H1, H2. unfold waiting. cbn [queue] in *. by rewrite H1, H2.
Qed.

(** ** Runs *)

Inductive SchedOp := Submit (r : IoRequest) | Dispatch (tick : Z).

Fixpoint run (ops : list SchedOp) (s : DeadlineScheduler) : list IoRequest * DeadlineScheduler :=
  match ops with
  | [] => ([], s)
  | Submit r :: ops => run ops (submit r s)
  | Dispatch t :: ops =>
      match dispatch t s with
      | Some (r, s) => let '(rs, s) := run ops s in (r :: rs, s)
      | None => run ops s
      end
  end.

Definition submitted (ops : list SchedOp) : list IoRequest := ops ≫= fun op => match op with Submit r => [r] | Dispatch _ => [] end.
Definition total (d : IoDirection) (p : IoPriority) (x : Z) (rs : list IoRequest) : Z := foldr (fun r n => asked d p x r + n) 0 rs.

(** How many sectors wait. *)
Definition backlog (s : DeadlineScheduler) : Z := sectors (read_queue s) + sectors (write_queue s).

(** The requests lie below 2^64, and less than 2^32 sectors wait at a time. *)
Fixpoint in_range (ops : list SchedOp) (s : DeadlineScheduler) : Prop :=
  match ops with
  | [] => True
  | Submit r :: ops => request_ok r /\ backlog s + num_sectors r < M32 /\ in_range ops (submit r s)
  | Dispatch t :: ops => in_range ops (match dispatch t s with Some (_, s) => s | None => s end)
  end.

Lemma sched_ok_backlog B s : sched_ok B s -> sched_ok (backlog s) s.
Proof. intros (H1 & H2 & _). unfold sched_ok, backlog. by split_and!. Qed.

Lemma run_conserves ops : forall B d p x s, sched_ok B s -> in_range ops s ->
  let '(rs, s') := run ops s in
  pending d p x s + total d p x (submitted ops) = pending d p x s' + total d p x rs /\ sched_ok (backlog s') s'.
Proof.
  induction ops as [|op ops IH]; intros B d p x s Hs%sched_ok_backlog Hr; cbn [run]; [split; [cbn; lia|done]|].
  destruct op as [r|t]; unfold submitted in *; rewrite bind_cons in *; cbn [app in_range] in *; fold (submitted ops) in *.
  - destruct Hr as (Hr & HB & Hrs). cbn [total foldr] in *. fold (total d p x (submitted ops)).
    destruct (submit_ok (backlog s) d p x r s Hs Hr HB) as [Hs1 Hp1].
    specialize (IH _ d p x (submit r s) Hs1 Hrs). destruct (run ops (submit r s)) as [rs s'].
    destruct IH as [I1 I2]. split; [lia|done].
  - pose proof (dispatch_ok (backlog s) t d p x s Hs) as Hd. destruct (dispatch t s) as [[r s1]|]; [|by eapply IH].
    destruct Hd as (Hs1 & _ & Hp & _).
    specialize (IH _ d p x s1 Hs1 Hr). destruct (run ops s1) as [rs s']. destruct IH as [I1 I2]. split; [|done].
    cbn [total foldr]. fold (total d p x rs). lia.
Qed.

(** Dispatching [n] times. *)
Lemma run_drains n t : forall B s, sched_ok B s -> (waiting s <= n)%nat -> waiting (run (replicate n (Dispatch t)) s).2 = 0%nat.
Proof.
  induction n as [|n IH]; intros B s Hs Hn; cbn [replicate run]; [cbn; lia|].
  pose proof (dispatch_ok B t ReadIo Idle 0 s Hs) as Hd. destruct (dispatch t s) as [[r s1]|] eqn:He.
  - destruct Hd as (Hs1 & _ & _ & Hw). specialize (IH B s1 Hs1 ltac:(lia)). by destruct (run _ s1).
  - apply dispatch_none in He. apply (IH B s Hs). lia.
Qed.

(** C33. The scheduler of block requests loses nothing and does nothing twice, as
    long as every request lies below sector 2^64 and less than 2^32 sectors wait
    at a time (the sum of a merge wraps around otherwise, see [merge_wraps]).
    After any such requests, merged or not, and any dispatches, each sector is
    asked for by the dispatched and the waiting requests of a direction and class
    exactly as often as it was submitted; and as many further dispatches as
    requests wait, at whatever tick, empty the queues. *)
Theorem io_sched_conserves ops device t :
  in_range ops (new device) ->
  let '(rs, s) := run ops (new device) in
  (forall d p x, total d p x (submitted ops) = pending d p x s + total d p x rs) /\
  (forall n, (waiting s <= n)%nat -> waiting (run (replicate n (Dispatch t)) s).2 = 0%nat).
Proof.
  intros Hr. assert (H0 : sched_ok 0 (new device)) by (split; [constructor|split; [constructor|done]]).
  pose proof (fun d p x => run_conserves ops 0 d p x (new device) H0 Hr) as Hc. destruct (run ops (new device)) as [rs s].
  split; [intros d p x; destruct (Hc d p x) as [<- _]; by destruct d|]. intros n Hn.
  apply (run_drains n t (backlog s)); [|done]. apply (Hc ReadIo Idle 0).
Qed.

Definition request (sector num : Z) (d : IoDirection) (due buf : Z) : IoRequest := mkRequest 0 sector num d BestEffort due 0 buf None.

Definition demo_ops : list SchedOp :=
  [Submit (request 100 8 ReadIo 50 1); Submit (request 200 8 WriteIo 50 2); Submit (request 108 8 ReadIo 50 3); Dispatch 0].

Lemma io_sched_conserves_witness :
  let '(rs, s) := run demo_ops (new 0) in total ReadIo BestEffort 110 (submitted demo_ops) = pending ReadIo BestEffort 110 s + total ReadIo BestEffort 110 rs.
Proof.
  assert (Hr : in_range demo_ops (new 0)) by (vm_compute; repeat split; discriminate).
  pose proof (io_sched_conserves demo_ops 0 0 Hr) as H. destruct (run demo_ops (new 0)) as [rs s]. exact (proj1 H _ _ _).
Defined.

(** Real-time requests go first. *)
Lemma realtime_first tick s r s' : dispatch tick s = Some (r, s') ->
  priority r = Realtime \/ Forall (fun e => priority e <> Realtime) (read_queue s ++ write_queue s).
Proof.
  unfold dispatch, dispatch_by_priority. cbv zeta. unfold take_from at 1 2. cbn [queue].
  assert (Hfirst : forall q e q', take_first (fun r => bool_decide (priority r = Realtime)) q = Some (e, q') -> priority e = Realtime).
  { induction q as [|a q IH]; intros e q'; cbn [take_first]; [done|]. case_bool_decide; [intros [= <- <-]; done|].
    destruct (take_first _ q) as [[e1 q1]|]; [|done]. intros [= <- <-]. by eapply IH. }
  assert (Hnone : forall q, take_first (fun r => bool_decide (priority r = Realtime)) q = None -> Forall (fun e => priority e <> Realtime) q).
  { intros q Hq. apply take_first_none in Hq. eapply Forall_impl; [exact Hq|]. intros e He. by apply bool_decide_eq_false in He. }
  destruct (take_first _ (read_queue s)) as [[e q]|] eqn:H1; cbn [or_else]; [intros [= <- <-]; left; by eapply Hfirst|].
  destruct (take_first _ (write_queue s)) as [[e q]|] eqn:H2; cbn [or_else]; [intros [= <- <-]; left; by eapply Hfirst|].
  intros _. right. apply Forall_app. split; by apply Hnone.
Qed.

(** A merge keeps the buffer and the deadline of the request that waits: of two
    adjacent writes only the buffer of the first is left, and a request that is
    due at tick 3 waits behind one that is due at tick 900. *)
Example merge_drops_buffer :
  read_queue (submit (request 92 8 ReadIo 3 2) (submit (request 100 8 ReadIo 900 1) (new 0))) =
    [set_range 92 16 (set_seq 1 (request 100 8 ReadIo 900 1))].
Proof. reflexivity. Qed.

Example deadline_lost :
  let s := submit (request 92 8 ReadIo 3 2) (submit (request 100 8 ReadIo 900 1) (submit (request 50 8 ReadIo 900 3) (new 0))) in
  (r_sector ∘ fst) <$> dispatch 100 s = Some 50.
Proof. reflexivity. Qed.

(** The number of sectors of a merged request wraps around: two adjacent
    requests of 2^31 sectors become one of none. *)
Example merge_wraps :
  num_sectors <$> read_queue (submit (request (2 ^ 31) (2 ^ 31) ReadIo 50 2) (submit (request 0 (2 ^ 31) ReadIo 50 1) (new 0))) = [0].
Proof. reflexivity. Qed.

(** Requests that overlap put the queue out of order. *)
Example merge_unsorted :
  r_sector <$> read_queue (submit (request 142 8 ReadIo 50 3) (submit (request 150 1 ReadIo 50 2) (submit (request 145 1 ReadIo 50 1) (new 0)))) = [145; 142].
Proof. reflexivity. Qed.
