(* ===== verification/Partition.v ===== *)
(** * Partitions

    Model of [crates/drivers/src/block/partition.rs]: the tables of partitions
    on a device, which are untrusted input, and the device that a partition is. *)

From stdpp Require Import functions.
From S2P Require Import Prelude UserAccess SkyDisk.

Record Partition := mkPartition {
  index : Z; lba_start : Z; part_sectors : Z; part_type : Z; is_gpt : bool; gpt_type_guid : list Z; name : list Z }.

(** An unaligned read from a buffer; outside of it the behaviour is undefined. *)
Definition raw {S} (buf : list Z) (off n : nat) : Io S (list Z) :=
  if (off + n <=? length buf)%nat then ret (slice off n buf) else undefined.

(** ** The table of a master boot record *)

Definition mbr_signed (mbr : list Z) : bool := (mbr !!! 510%nat =? 0x55) && (mbr !!! 511%nat =? 0xAA).

Definition mbr_entry (mbr : list Z) (parts : list Partition) (i : nat) : Io Disk (list Partition) :=
  e ← raw mbr (0x1BE + i * 16) 16;
  let type_ := le_value (slice 4 1 e) in
  let start := le_value (slice 8 4 e) in
  let count := le_value (slice 12 4 e) in
  ret (if (type_ =? 0) || (count =? 0) then parts
       else parts ++ [mkPartition (Z.of_nat i + 1) start count type_ false (replicate 16 0) (replicate 72 0)]).

Definition parse_mbr : Io Disk (list Partition) :=
  mbr ← read_sector 0;
  if negb (mbr_signed mbr) then fail
  else
    parts ← mbr_entry mbr [] 0;
    parts ← mbr_entry mbr parts 1;
    parts ← mbr_entry mbr parts 2;
    mbr_entry mbr parts 3.

(** ** The table of a GUID partition table *)

Definition gpt_name (raw_name : list Z) : list Z :=
  ((fun j => let c := le_value (slice (2 * j) 2 raw_name) in if c <? 256 then c else 63) <$> seq 0 36) ++ replicate 36 0.

Definition gpt_entry (entry_lba entry_size : Z) (a : Z * list Z * list Partition) : Io Disk (Z * list Z * list Partition + unit) :=
  let '(i, buf, parts) := a in
  let entries_per_sector := 512 / entry_size in
  if entries_per_sector =? 0 then panic
  else
    let sector_idx := u64 (entry_lba + i / entries_per_sector) in
    let off := Z.to_nat (i mod entries_per_sector * entry_size) in
    buf ← (if i mod entries_per_sector =? 0 then read_sector sector_idx else ret buf);
    type_guid ← raw buf off 16;
    if bool_decide (type_guid = replicate 16 0) then ret (inl (i + 1, buf, parts))
    else
      unique_guid ← raw buf (off + 16) 16;
      starting_lba ← raw buf (off + 32) 8;
      ending_lba ← raw buf (off + 40) 8;
      attributes ← raw buf (off + 48) 8;
      chars ← raw buf (off + 56) 72;
      let first := le_value starting_lba in
      let part := mkPartition (u8 (i + 1)) first (u64 (u64 (le_value ending_lba - first) + 1)) 0xEE true type_guid (gpt_name chars) in
      ret (inl (i + 1, buf, parts ++ [part])).

Definition read_gpt_entries (entry_lba num_entries entry_size : Z) : Io Disk (list Partition) :=
  r ← repeat_z (gpt_entry entry_lba entry_size) num_entries (0, replicate 512 0, []);
  match r with inl (_, _, parts) => ret parts | inr _ => undefined end.

(** "EFI PART" *)
Definition GPT_SIGNATURE : list Z := [69; 70; 73; 32; 80; 65; 82; 84].

Definition header_size (h : list Z) : Z := le_value (slice 12 4 h).
Definition entry_lba (h : list Z) : Z := le_value (slice 72 8 h).
Definition num_entries (h : list Z) : Z := le_value (slice 80 4 h).
Definition entry_size (h : list Z) : Z := le_value (slice 84 4 h).

Definition parse_gpt : Io Disk (list Partition) :=
  mbr ← read_sector 0;
  if negb (mbr_signed mbr) then fail
  else
    h ← read_sector 1;
    if negb (bool_decide (slice 0 8 h = GPT_SIGNATURE)) then fail
    else if (header_size h <? 92) || (entry_size h <? 128) then fail
    else read_gpt_entries (entry_lba h) (num_entries h) (entry_size h).

(** [if let Ok(parts) = ..], twice. *)
Definition parse_partitions : Io Disk (list Partition) := fun d =>
  let mbr d := match parse_mbr d with (Err, d) => (Ok [], d) | r => r end in
  match parse_gpt d with
  | (Ok (p :: parts), d) => (Ok (p :: parts), d)
  | (Ok [], d) | (Err, d) => mbr d
  | r => r
  end.

(** ** The device of a partition *)

Record PartitionDevice := mkPartDev { pd_start : Z; pd_count : Z }.

Definition part_read (p : PartitionDevice) (s : Z) : Io Disk (list Z) :=
  if pd_count p <=? s then fail else read_sector (u64 (pd_start p + s)).
Definition part_write (p : PartitionDevice) (s : Z) (b : list Z) : Io Disk unit :=
  if pd_count p <=? s then fail else write_sector (u64 (pd_start p + s)) b.
Definition part_sector_count (p : PartitionDevice) : Res Z := Ok (pd_count p).

Definition PartitionInfo : Type := nat * Partition.

(** The table of devices is numbered from [i]. *)
Fixpoint scan_devices (i : nat) (devices : list Disk) : Res (list PartitionInfo) :=
  match devices with
  | [] => Ok []
  | dev :: rest =>
      match (parse_partitions dev).1, scan_devices (S i) rest with
      | Ok parts, Ok infos => Ok ((pair i <$> parts) ++ infos)
      | Ok _, r => r
      | Panics, _ => Panics
      | _, _ => Undefined
      end
  end.
Definition scan_all_partitions (devices : list Disk) : Res (list PartitionInfo) := scan_devices 0 devices.

(** ** What the tables say *)

Section table.
Context (d : Disk) (lba sz : Z).

Definition gpt_sector (i : Z) : Z := u64 (lba + i / (512 / sz)).
Definition gpt_slot (i : Z) : list Z := slice (Z.to_nat (i mod (512 / sz) * sz)) 128 (sector d (gpt_sector i)).

(** The partition of the entry [i], when it is used. *)
Definition gpt_part (i : Z) : option Partition :=
  let e := gpt_slot i in
  let first := le_value (slice 32 8 e) in
  if bool_decide (slice 0 16 e = replicate 16 0) then None
  else Some (mkPartition (u8 (i + 1)) first (u64 (u64 (le_value (slice 40 8 e) - first) + 1)) 0xEE true (slice 0 16 e) (gpt_name (slice 56 72 e))).

End table.

Definition gpt_accepted (d : Disk) : bool :=
  let h := sector d 1 in
  negb (read_fails d 0) && mbr_signed (sector d 0) && negb (read_fails d 1) && bool_decide (slice 0 8 h = GPT_SIGNATURE) &&
  (92 <=? header_size h) && (128 <=? entry_size h).

Definition gpt_readable (d : Disk) : bool :=
  let h := sector d 1 in forallb (fun i => negb (read_fails d (gpt_sector (entry_lba h) (entry_size h) i))) (seqZ 0 (num_entries h)).

Definition gpt_table (d : Disk) : list Partition :=
  let h := sector d 1 in omap (gpt_part d (entry_lba h) (entry_size h)) (seqZ 0 (num_entries h)).

Definition mbr_part (mbr : list Z) (i : nat) : option Partition :=
  let e := slice (0x1BE + 16 * i) 16 mbr in
  if (le_value (slice 4 1 e) =? 0) || (le_value (slice 12 4 e) =? 0) then None
  else Some (mkPartition (Z.of_nat i + 1) (le_value (slice 8 4 e)) (le_value (slice 12 4 e)) (le_value (slice 4 1 e)) false (replicate 16 0) (replicate 72 0)).

Definition mbr_table (d : Disk) : list Partition :=
  if negb (read_fails d 0) && mbr_signed (sector d 0) then omap (mbr_part (sector d 0)) (seq 0 4) else [].

(** A header that announces entries larger than a sector. *)
Definition gpt_oversized (d : Disk) : bool :=
  gpt_accepted d && (512 <? entry_size (sector d 1)) && (0 <? num_entries (sector d 1)).

Definition partitions (d : Disk) : list Partition :=
  match (if gpt_accepted d && gpt_readable d then gpt_table d else []) with [] => mbr_table d | parts => parts end.

(** ** Scanning untrusted tables *)

Lemma raw_ok {S} buf off n (s : S) : (off + n <= length buf)%nat -> raw buf off n s = (Ok (slice off n buf), s).
Proof. intros H. unfold raw. by rewrite (proj2 (Nat.leb_le _ _)). Qed.

Lemma slice_slice {A} (l : list A) a n b m : (a + n <= m)%nat -> slice a n (slice b m l) = slice (b + a) n l.
Proof. intros H. unfold slice. rewrite skipn_firstn_comm, take_take, drop_drop. f_equal. lia. Qed.

Lemma mbr_entry_run mbr parts i d : length mbr = SECTOR_SIZE -> (i < 4)%nat ->
  mbr_entry mbr parts i d = (Ok (parts ++ omap (mbr_part mbr) [i]), d).
Proof.
  intros Hl Hi. unfold mbr_entry. rewrite run_bind, raw_ok by (rewrite Hl; unfold SECTOR_SIZE; lia). cbn [omap list_omap].
  unfold mbr_part. rewrite (Nat.mul_comm 16 i). destruct (_ || _); [|done]. unfold ret. by rewrite app_nil_r.
Qed.

Lemma parse_mbr_run d : disk_ok d ->
  parse_mbr d = (if negb (read_fails d 0) && mbr_signed (sector d 0) then Ok (mbr_table d) else Err, d).
Proof.
  intros Hd. unfold parse_mbr, mbr_table. rewrite run_bind. unfold read_sector. destruct (read_fails d 0); [done|].
  destruct (mbr_signed _); cbn [negb andb]; [|done]. destruct (Hd 0) as [Hl _].
  rewrite run_bind, mbr_entry_run, run_bind, mbr_entry_run, run_bind, mbr_entry_run, mbr_entry_run by (done || lia).
  cbn [app]. by rewrite <- !omap_app.
Qed.

(** The entry after [i] is in the sector of [i], or it is the first of its sector. *)
Lemma next_slot i per : 0 < per -> 0 <= i -> (i + 1) mod per = 0 \/ (i + 1) / per = i / per.
Proof. intros Hp Hi. Z.div_mod_to_equations. nia. Qed.

Lemma seqZ_snoc k : 0 <= k -> seqZ 0 (k + 1) = seqZ 0 k ++ [k].
Proof. intros Hk. rewrite seqZ_app by lia. by f_equal. Qed.

Section scan.
Context (d : Disk) (lba sz : Z) (Hd : disk_ok d) (Hsz : 128 <= sz <= 512).

Lemma per_sector : 0 < 512 / sz /\ 512 / sz * sz <= 512.
Proof using Hsz. Z.div_mod_to_equations. nia. Qed.

(** All of the entries below [k] can be read. *)
Definition read_to (k : Z) : bool := forallb (fun i => negb (read_fails d (gpt_sector lba sz i))) (seqZ 0 k).

Lemma read_to_S k : 0 <= k -> read_to (k + 1) = read_to k && negb (read_fails d (gpt_sector lba sz k)).
Proof using. intros Hk. unfold read_to. rewrite seqZ_snoc, forallb_app by lia. cbn. by rewrite andb_true_r. Qed.

Lemma read_to_false k n : 0 <= k < n -> read_fails d (gpt_sector lba sz k) = true -> read_to n = false.
Proof using.
  intros Hk Hf. apply not_true_iff_false. intros Ht. unfold read_to in Ht. rewrite forallb_forall in Ht.
  specialize (Ht k). rewrite Hf in Ht. assert (H : k ∈ seqZ 0 n) by (apply elem_of_seqZ; lia). apply list_elem_of_In in H. by apply Ht in H.
Qed.

(** After [k] entries; [buf] is the sector of the last one. *)
Definition scan_inv (k : Z) (a : Z * list Z * list Partition) (d' : Disk) : Prop :=
  let '(i, buf, parts) := a in
  d' = d /\ i = k /\ (k mod (512 / sz) = 0 \/ buf = sector d (gpt_sector lba sz k) /\ read_fails d (gpt_sector lba sz k) = false) /\
  parts = omap (gpt_part d lba sz) (seqZ 0 k) /\ read_to k = true.

Lemma scan_inv_S k parts : 0 <= k -> parts = omap (gpt_part d lba sz) (seqZ 0 k) -> read_to k = true -> read_fails d (gpt_sector lba sz k) = false ->
  scan_inv (k + 1) (k + 1, sector d (gpt_sector lba sz k), parts ++ omap (gpt_part d lba sz) [k]) d.
Proof using Hsz.
  intros Hk -> Hr Hf. destruct per_sector as [Hp _]. split; [done|]. split; [done|]. split.
  - destruct (next_slot k (512 / sz) Hp Hk) as [H|H]; [by left|right]. unfold gpt_sector in *. by rewrite H.
  - rewrite seqZ_snoc, omap_app by lia. split; [done|]. by rewrite read_to_S, Hr, Hf.
Qed.

Lemma gpt_entry_ok n k a d' : 0 <= k < n -> scan_inv k a d' ->
  io_ok (fun r d' => match r with inl a => scan_inv (k + 1) a d' | inr _ => False end)
    (fun d' => d' = d /\ read_to n = false) (gpt_entry lba sz a d').
Proof using Hd Hsz.
  intros Hk. destruct a as [[i buf] parts]. intros (-> & -> & Hbuf & Hparts & Hread). unfold gpt_entry.
  destruct per_sector as [Hp Hps]. rewrite (proj2 (Z.eqb_neq _ 0)) by lia. fold (gpt_sector lba sz k).
  apply (io_bind _ _ (fun b d' => d' = d /\ b = sector d (gpt_sector lba sz k) /\ read_fails d (gpt_sector lba sz k) = false)).
  { destruct (Z.eqb_spec (k mod (512 / sz)) 0); [|by destruct Hbuf as [|[-> ?]]].
    unfold read_sector. destruct (read_fails _ _) eqn:Hf; [|done]. split; [done|]. by apply (read_to_false k). }
  intros b ? (-> & -> & Hf). destruct (Hd (gpt_sector lba sz k)) as [Hl _].
  assert (Hoff : (Z.to_nat (k mod (512 / sz) * sz) + 128 <= SECTOR_SIZE)%nat)
    by (pose proof (Z.mod_pos_bound k (512 / sz) Hp); unfold SECTOR_SIZE; nia).
  pose proof (scan_inv_S k parts ltac:(lia) Hparts Hread Hf) as Hnext. revert Hnext. cbn [omap list_omap]. unfold gpt_part.
  unfold gpt_slot. rewrite !slice_slice by lia. rewrite Nat.add_0_r. rewrite run_bind, raw_ok by (rewrite Hl; lia).
  case_bool_decide; [by rewrite app_nil_r|].
  rewrite !run_bind, raw_ok, !run_bind, raw_ok, !run_bind, raw_ok, !run_bind, raw_ok, !run_bind, raw_ok by (rewrite Hl; lia). done.
Qed.

Lemma read_gpt_entries_run n :
  read_gpt_entries lba n sz d = (if read_to n then Ok (omap (gpt_part d lba sz) (seqZ 0 n)) else Err, d).
Proof using Hd Hsz.
  assert (H0 : scan_inv 0 (0, replicate 512 0, []) d) by (split; [done|]; split; [done|]; split; [by left|done]).
  pose proof (repeat_z_ok (gpt_entry lba sz) n scan_inv (fun _ _ => False) _ (fun k a s => gpt_entry_ok n k a s) _ _ H0) as Hr.
  unfold read_gpt_entries. rewrite run_bind. destruct (repeat_z _ _ _ _) as [[r| | |] d']; cbn [io_ok] in Hr; [| |done..].
  - destruct r as [[[i buf] parts]|]; [|done]. destruct Hr as (-> & _ & _ & -> & Ht).
    destruct (Z.max_spec 0 n) as [[_ Hm]|[Hn Hm]]; rewrite Hm in *; [by rewrite Ht|]. unfold read_to. by rewrite !seqZ_nil.
  - by destruct Hr as [-> ->].
Qed.

End scan.

Lemma gpt_entry_panics lba sz a d : 512 < sz -> gpt_entry lba sz a d = (Panics, d).
Proof. intros Hs. destruct a as [[i buf] parts]. unfold gpt_entry. by rewrite Z.div_small by lia. Qed.

Lemma read_gpt_entries_panics lba n sz d : 512 < sz -> 0 < n -> read_gpt_entries lba n sz d = (Panics, d).
Proof.
  intros Hs Hn. unfold read_gpt_entries. rewrite run_bind. destruct n as [|n|]; [lia| |lia]. unfold repeat_z.
  by rewrite (repeat_pos_panics _ _ _ d) by by apply gpt_entry_panics.
Qed.

Lemma parse_gpt_run d : disk_ok d ->
  parse_gpt d = (if gpt_oversized d then Panics else if gpt_accepted d && gpt_readable d then Ok (gpt_table d) else Err, d).
Proof.
  intros Hd. unfold parse_gpt, gpt_oversized, gpt_accepted, gpt_readable, gpt_table. rewrite run_bind. unfold read_sector at 1.
  destruct (read_fails d 0); [done|]. destruct (mbr_signed _); cbn [negb andb]; [|done].
  rewrite run_bind. unfold read_sector. destruct (read_fails d 1); [done|]. cbn [negb andb].
  case_bool_decide; cbn [negb andb]; [|done]. rewrite !Z.leb_antisym. set (h := sector d 1).
  destruct (Z.ltb_spec (header_size h) 92); cbn [orb negb andb]; [done|].
  destruct (Z.ltb_spec (entry_size h) 128); cbn [orb negb andb]; [done|].
  destruct (Z.ltb_spec 512 (entry_size h)); cbn [andb]; [|by rewrite read_gpt_entries_run].
  destruct (Z.ltb_spec 0 (num_entries h)); [by rewrite read_gpt_entries_panics|].
  unfold read_gpt_entries. rewrite !seqZ_nil, run_bind by done. by destruct (num_entries h).
Qed.

(** C21. Scanning a device for partitions, whatever its sectors hold. The scan never
    reads outside of a sector's buffer and leaves the device as it is. It panics, by
    a division by zero, exactly when the header of an otherwise accepted GUID table
    announces a used table of entries larger than a sector. Otherwise it returns the
    used entries of the GUID table in order, each decoded from its own slot, when
    that table is accepted and can be read and has one, and else the used entries of
    the master boot record, or nothing. *)
Theorem parse_partitions_exact d : disk_ok d ->
  parse_partitions d = (if gpt_oversized d then Panics else Ok (partitions d), d).
Proof.
  intros Hd. unfold parse_partitions, partitions. rewrite parse_gpt_run, parse_mbr_run by done. unfold mbr_table.
  destruct (gpt_oversized d); [done|]. destruct (gpt_accepted d && gpt_readable d).
  - destruct (gpt_table d); [|done]. by destruct (_ && _).
  - by destruct (_ && _).
Qed.

(** A table of three entries of [esz] bytes; the second is used. *)
Definition guid_disk (esz : Z) : Disk :=
  let header := GPT_SIGNATURE ++ replicate 4 0 ++ [92; 0; 0; 0] ++ replicate 56 0 ++ [2; 0; 0; 0; 0; 0; 0; 0] ++ [3; 0; 0; 0] ++ [esz mod 256; esz / 256; 0; 0] in
  let entry := replicate 16 9 ++ replicate 16 0 ++ [34; 0; 0; 0; 0; 0; 0; 0] ++ [43; 0; 0; 0; 0; 0; 0; 0] ++ replicate 80 0 in
  mkDisk (fun i => if i =? 0 then replicate 510 0 ++ [0x55; 0xAA]
                   else if i =? 1 then header ++ replicate 424 0
                   else if i =? 2 then replicate 128 0 ++ entry ++ replicate 256 0
                   else replicate 512 0) (Some 64) (fun i => 64 <=? i) (fun i => 64 <=? i).

Lemma guid_disk_ok esz : esz = 128 \/ esz = 1024 -> disk_ok (guid_disk esz).
Proof.
  intros He i. cbn [sector guid_disk]. split.
  - by destruct (i =? 0), (i =? 1), (i =? 2).
  - unfold is_u8. destruct He as [-> | ->], (i =? 0), (i =? 1), (i =? 2); apply (bool_decide_unpack _); vm_compute; exact I.
Qed.

Lemma parse_partitions_exact_witness :
  (forall p, (parse_partitions (guid_disk 128)).1 = Ok p -> (fun q => (index q, lba_start q, part_sectors q)) <$> p = [(2, 34, 10)]) /\
  parse_partitions (guid_disk 1024) = (Panics, guid_disk 1024).
Proof.
  pose proof (parse_partitions_exact (guid_disk 128) (guid_disk_ok 128 ltac:(by left))) as H1.
  pose proof (parse_partitions_exact (guid_disk 1024) (guid_disk_ok 1024 ltac:(by right))) as H2. split.
  - intros p. rewrite H1. intros [= <-]. vm_compute. reflexivity.
  - rewrite H2. f_equal.
Defined.

(** ** Partitions of one device *)

Inductive PartOp := PRead (s : Z) | PWrite (s : Z) (b : list Z).

Definition part_step (p : PartitionDevice) (op : PartOp) : Io Disk (list Z) :=
  match op with PRead s => part_read p s | PWrite s b => _ ← part_write p s b; ret [] end.

Definition own_step (op : PartOp) : Io Disk (list Z) :=
  match op with PRead s => read_sector s | PWrite s b => _ ← write_sector s b; ret [] end.

(** The operations of several partitions on their common device, ... *)
Fixpoint run_shared (parts : list PartitionDevice) (ops : list (nat * PartOp)) (d : Disk) : list (Res (list Z)) * Disk :=
  match ops with
  | [] => ([], d)
  | (k, op) :: ops =>
      match parts !! k with
      | None => run_shared parts ops d
      | Some p => let '(r, d) := part_step p op d in let '(rs, d) := run_shared parts ops d in (r :: rs, d)
      end
  end.

(** ... and on a device for each. *)
Fixpoint run_apart (ops : list (nat * PartOp)) (ds : list Disk) : list (Res (list Z)) :=
  match ops with
  | [] => []
  | (k, op) :: ops =>
      match ds !! k with None => run_apart ops ds | Some d => let '(r, d) := own_step op d in r :: run_apart ops (<[k := d]> ds) end
  end.

(** The device of just the sectors of a partition. *)
Definition carve (d : Disk) (p : PartitionDevice) : Disk :=
  mkDisk (fun s => sector d (pd_start p + s)) (Some (pd_count p))
    (fun s => (pd_count p <=? s) || read_fails d (pd_start p + s)) (fun s => (pd_count p <=? s) || write_fails d (pd_start p + s)).

Definition part_fits (p : PartitionDevice) : Prop := 0 <= pd_start p /\ pd_start p + pd_count p <= M64.
Definition in_part (p : PartitionDevice) (s : Z) : Prop := pd_start p <= s < pd_start p + pd_count p.
Definition apart (parts : list PartitionDevice) : Prop :=
  forall i j p q s, parts !! i = Some p -> parts !! j = Some q -> in_part p s -> in_part q s -> i = j.
Definition op_u64 (op : nat * PartOp) : Prop := match op.2 with PRead s | PWrite s _ => 0 <= s end.

(** Devices that read and write alike within the partition. *)
Definition alike (p : PartitionDevice) (d : Disk) (own : Disk) : Prop :=
  (forall s, 0 <= s < pd_count p -> sector own s = sector d (pd_start p + s)) /\
  (forall s, read_fails own s = (pd_count p <=? s) || read_fails d (pd_start p + s)) /\
  (forall s, write_fails own s = (pd_count p <=? s) || write_fails d (pd_start p + s)).

Lemma part_step_alike p op d own k : part_fits p -> alike p d own -> op_u64 (k, op) ->
  (part_step p op d).1 = (own_step op own).1 /\ alike p (part_step p op d).2 (own_step op own).2 /\
  read_fails (part_step p op d).2 = read_fails d /\ write_fails (part_step p op d).2 = write_fails d /\
  forall s, ~ in_part p s -> sector (part_step p op d).2 s = sector d s.
Proof.
  intros [H0 Hm] (Hs & Hr & Hw) Hop. destruct op as [s|s b]; cbn [part_step own_step op_u64 snd] in *.
  - unfold part_read, read_sector. rewrite Hr. destruct (Z.leb_spec (pd_count p) s); [done|]. cbn [orb].
    unfold u64. rewrite Z.mod_small by lia. destruct (read_fails d _); [done|]. cbn. by rewrite Hs by lia.
  - rewrite !run_bind. unfold part_write, write_sector. rewrite Hw. destruct (Z.leb_spec (pd_count p) s); [done|]. cbn [orb].
    unfold u64. rewrite Z.mod_small by lia. destruct (write_fails d _); [done|]. cbn [fst snd ret sector read_fails write_fails].
    split; [done|]. split; [split; [|done]|split; [done|split; [done|]]].
    + intros t Ht. cbn [sector]. destruct (decide (t = s)) as [->|]; [by rewrite !fn_lookup_insert|].
      rewrite !fn_lookup_insert_ne by lia. by apply Hs.
    + intros t Ht. rewrite fn_lookup_insert_ne; [done|]. intros <-. apply Ht. unfold in_part. lia.
Qed.

Lemma alike_frame p d d' own : alike p d own -> read_fails d' = read_fails d -> write_fails d' = write_fails d ->
  (forall s, in_part p s -> sector d' s = sector d s) -> alike p d' own.
Proof. intros (Hs & Hr & Hw) Er Ew Hf. unfold alike. rewrite Er, Ew. split; [|done]. intros s Hb. rewrite Hf by (unfold in_part; lia). by apply Hs. Qed.

(** C29. Partitions do not interfere. Take partitions of one device that share no
    sector and lie within the range of sector numbers. In every interleaving of their
    reads and writes, at any sector numbers, each operation gives the result it
    gives when each partition is a device of its own, of its own sectors and no
    others; and the sectors outside of all of them keep their contents. *)
Theorem partitions_independent parts ops d :
  Forall part_fits parts -> apart parts -> Forall op_u64 ops ->
  (run_shared parts ops d).1 = run_apart ops (carve d <$> parts) /\
  forall s, (forall p, p ∈ parts -> ~ in_part p s) -> sector (run_shared parts ops d).2 s = sector d s.
Proof.
  intros Hfit Hap Hops.
  enough (Hrun : forall ds, Forall2 (fun p own => alike p d own) parts ds -> (run_shared parts ops d).1 = run_apart ops ds /\
    forall s, (forall p, p ∈ parts -> ~ in_part p s) -> sector (run_shared parts ops d).2 s = sector d s).
  { apply Hrun. apply Forall2_fmap_r, Forall_Forall2_diag. by apply Forall_true. }
  revert d. induction Hops as [|[k op] ops Hop Hops IH]; intros d ds Hds; cbn [run_shared run_apart]; [done|].
  destruct (parts !! k) as [p|] eqn:Hp.
  2: { apply lookup_ge_None in Hp. rewrite (Forall2_length _ _ _ Hds) in Hp. apply lookup_ge_None in Hp as ->. by apply IH. }
  destruct (Forall2_lookup_l _ _ _ _ _ Hds Hp) as (own & Hown & Ha). rewrite Hown.
  destruct (part_step_alike p op d own k) as (Hr & Ha' & Er & Ew & Hf); [by eapply Forall_lookup_1|done..|].
  destruct (part_step p op d) as [r d1], (own_step op own) as [r' own1]. cbn [fst snd] in *. subst r'.
  assert (Hds1 : Forall2 (fun p own => alike p d1 own) parts (<[k := own1]> ds)).
  { apply Forall2_same_length_lookup_2; [by rewrite length_insert; eapply Forall2_length|]. intros j q o Hq Ho.
    destruct (decide (j = k)) as [->|Hj].
    - rewrite list_lookup_insert_eq in Ho by by eapply lookup_lt_Some. congruence.
    - rewrite list_lookup_insert_ne in Ho by done. apply (alike_frame q d); [exact (Forall2_lookup_lr _ _ _ _ _ _ Hds Hq Ho)|done..|].
      intros s Hs. apply Hf. intros Hin. apply Hj. by eapply Hap. }
  destruct (IH d1 _ Hds1) as [Hrs Hout]. destruct (run_shared parts ops d1) as [rs d2]. cbn [fst snd] in *. split; [by rewrite Hrs|].
  intros s Hs. rewrite Hout by done. apply Hf, Hs. by eapply list_elem_of_lookup_2.
Qed.

Definition two_parts : list PartitionDevice := [mkPartDev 10 4; mkPartDev 14 50].
Definition two_ops : list (nat * PartOp) := [(0%nat, PWrite 3 (replicate 512 7)); (1%nat, PRead 0); (0%nat, PRead 3); (0%nat, PRead 4)].

Lemma partitions_independent_witness :
  (run_shared two_parts two_ops blank_disk).1 = run_apart two_ops (carve blank_disk <$> two_parts) /\
  run_apart two_ops (carve blank_disk <$> two_parts) = [Ok []; Ok (replicate 512 0); Ok (replicate 512 7); Err].
Proof.
  split; [|vm_compute; reflexivity]. apply (partitions_independent two_parts two_ops blank_disk).
  - repeat constructor; try (cbn; lia); apply Zle_bool_imp_le; reflexivity.
  - intros [|[|i]] [|[|j]] p q s Hp Hq H1 H2; try done; injection Hp as <-; injection Hq as <-; unfold in_part in *; cbn in *; lia.
  - repeat constructor; cbn; lia.
Defined.

(** An entry that ends before it starts gives a partition of almost all sector
    numbers: one of them is the first sector of the device. *)
Example partition_escapes :
  let first := 100 in let last := 98 in
  let p := mkPartDev first (u64 (u64 (last - first) + 1)) in
  (part_write p (M64 - 100) [1] blank_disk).1 = Ok tt /\ sector (part_write p (M64 - 100) [1] blank_disk).2 0 = [1].
Proof. vm_compute. done. Qed.

(** Partitions that overlap are all returned. *)
Example scan_overlap_kept :
  let entry := [0; 0; 0; 0; 131; 0; 0; 0; 1; 0; 0; 0; 9; 0; 0; 0] in
  let d := mkDisk (fun _ => replicate 446 0 ++ entry ++ entry ++ replicate 32 0 ++ [0x55; 0xAA]) None (fun _ => false) (fun _ => false) in
  exists ps, (parse_partitions d).1 = Ok ps /\ (fun p => (lba_start p, part_sectors p)) <$> ps = [(1, 9); (1, 9)].
Proof. eexists. split; vm_compute; reflexivity. Qed.
