(* ===== verification/IrqMutex.v ===== *)
(** * The interrupt-safe spin lock

    Model of [crates/hal/src/sync/mod.rs], as built for x86_64: processors that
    interleave at every access to a lock, to its holder and to their own flags.
    An interrupt handler runs on top of the code that it interrupts.  Memory is
    sequentially consistent here; the holder is written with relaxed ordering,
    and only its own processor writes a processor's number into it. *)

From stdpp Require Import functions.
From S2P Require Import Prelude.

Definition IF_BIT : Z := 2 ^ 9.
Definition NO_HOLDER : Z := 0xFFFF.

Definition if_set (rflags : Z) : bool := negb (Z.land rflags IF_BIT =? 0).

(** A guard is the lock that it is of and the flags captured before it. *)
Definition Guard : Type := nat * Z.

(** Where a call is: before the access of the name. *)
Inductive Pc :=
| Idle
| LockCheck (m : nat) (rf : Z) | LockHolder (m : nat) (rf : Z) | LockSpin (m : nat) (rf : Z) | LockStore (m : nat) (rf : Z)
| TryCheck (m : nat) (rf : Z) | TryHolder (m : nat) (rf : Z) | TryCas (m : nat) (rf : Z) | TryStore (m : nat) (rf : Z) | TryRestore (rf : Z)
| DropRelease (m : nat) (rf : Z) | DropRestore (rf : Z)
| Panicked.

Record Ctx := mkCtx { pc : Pc; guards : list Guard }.

(** [stack]: what is interrupted, the last first, with its flags. *)
Record Cpu := mkCpu { rflags : Z; ctx : Ctx; stack : list (Ctx * Z) }.

(** The spin locks, the holders and the values of the mutexes; the processors. *)
Record State := mkState { locked : nat -> bool; holder : nat -> Z; value : nat -> Z; cpus : nat -> Cpu }.

Definition set_locked (m : nat) (b : bool) (s : State) : State := mkState (<[m := b]> (locked s)) (holder s) (value s) (cpus s).
Definition set_holder (m : nat) (h : Z) (s : State) : State := mkState (locked s) (<[m := h]> (holder s)) (value s) (cpus s).
Definition set_cpu (c : nat) (k : Cpu) (s : State) : State := mkState (locked s) (holder s) (value s) (<[c := k]> (cpus s)).

Definition goto (c : nat) (p : Pc) (s : State) : State :=
  let k := cpus s c in set_cpu c (mkCpu (rflags k) (mkCtx p (guards (ctx k))) (stack k)) s.

(** ** The functions of the lock *)

(** [pushfq; pop; cli], and on to [p] with what was captured. *)
Definition save_and_disable_interrupts (c : nat) (p : Z -> Pc) (s : State) : State :=
  let k := cpus s c in set_cpu c (mkCpu (Z.ldiff (rflags k) IF_BIT) (mkCtx (p (rflags k)) (guards (ctx k))) (stack k)) s.

Definition restore_interrupts (c : nat) (rf : Z) (s : State) : State :=
  let k := cpus s c in
  set_cpu c (mkCpu (if if_set rf then Z.lor (rflags k) IF_BIT else rflags k) (mkCtx Idle (guards (ctx k))) (stack k)) s.

Section machine.
Context (this_cpu : nat -> Z).

Definition take_guard (c m : nat) (rf : Z) (s : State) : State :=
  let k := cpus s c in set_cpu c (mkCpu (rflags k) (mkCtx Idle ((m, rf) :: guards (ctx k))) (stack k)) (set_holder m (this_cpu c) s).

Definition lock_step (c : nat) (p : Pc) (s : State) : option State :=
  match p with
  | LockCheck m rf => Some (goto c (if locked s m then LockHolder m rf else LockSpin m rf) s)
  | LockHolder m rf => Some (goto c (if holder s m =? this_cpu c then Panicked else LockSpin m rf) s)
  | LockSpin m rf => Some (if locked s m then s else goto c (LockStore m rf) (set_locked m true s))
  | LockStore m rf => Some (take_guard c m rf s)
  | _ => None
  end.

Definition try_lock_step (c : nat) (p : Pc) (s : State) : option State :=
  match p with
  | TryCheck m rf => Some (goto c (if locked s m then TryHolder m rf else TryCas m rf) s)
  | TryHolder m rf => Some (goto c (if holder s m =? this_cpu c then TryRestore rf else TryCas m rf) s)
  | TryCas m rf => Some (if locked s m then goto c (TryRestore rf) s else goto c (TryStore m rf) (set_locked m true s))
  | TryStore m rf => Some (take_guard c m rf s)
  | TryRestore rf => Some (restore_interrupts c rf s)
  | _ => None
  end.

(** [drop] of the guard [i], the last taken being 0. *)
Definition drop_begin (c i : nat) (s : State) : option State :=
  let k := cpus s c in
  match guards (ctx k) !! i with
  | None => None
  | Some (m, rf) =>
      Some (set_cpu c (mkCpu (rflags k) (mkCtx (DropRelease m rf) (delete i (guards (ctx k)))) (stack k)) (set_holder m NO_HOLDER s))
  end.

Definition drop_step (c : nat) (p : Pc) (s : State) : option State :=
  match p with
  | DropRelease m rf => Some (goto c (DropRestore rf) (set_locked m false s))
  | DropRestore rf => Some (restore_interrupts c rf s)
  | _ => None
  end.

Definition is_locked (m : nat) (s : State) : bool := locked s m.

(** ** The machine *)

Inductive Event :=
| Lock (c m : nat) | TryLock (c m : nat) | Drop (c i : nat) | Run (c : nat) | Write (c m : nat) (v : Z)
| Irq (c : nat) | Iret (c : nat).

Definition idle (c : nat) (s : State) : bool := match pc (ctx (cpus s c)) with Idle => true | _ => false end.

Definition exec (e : Event) (s : State) : option State :=
  match e with
  | Lock c m => if idle c s then Some (save_and_disable_interrupts c (LockCheck m) s) else None
  | TryLock c m => if idle c s then Some (save_and_disable_interrupts c (TryCheck m) s) else None
  | Drop c i => if idle c s then drop_begin c i s else None
  | Run c =>
      let p := pc (ctx (cpus s c)) in
      match lock_step c p s, try_lock_step c p s with Some s', _ => Some s' | None, Some s' => Some s' | None, None => drop_step c p s end
  | Write c m v =>
      if idle c s && bool_decide (m ∈ (guards (ctx (cpus s c))).*1) then Some (mkState (locked s) (holder s) (<[m := v]> (value s)) (cpus s))
      else None
  | Irq c =>
      let k := cpus s c in
      if if_set (rflags k) then Some (set_cpu c (mkCpu (Z.ldiff (rflags k) IF_BIT) (mkCtx Idle []) ((ctx k, rflags k) :: stack k)) s) else None
  | Iret c =>
      let k := cpus s c in
      match pc (ctx k), guards (ctx k), stack k with
      | Idle, [], (x, rf) :: st => Some (set_cpu c (mkCpu rf x st) s)
      | _, _, _ => None
      end
  end.

(** All of the mutexes are new; [flags] are those of the processors. *)
Definition initial (flags : nat -> Z) (v : nat -> Z) : State :=
  mkState (fun _ => false) (fun _ => NO_HOLDER) v (fun c => mkCpu (flags c) (mkCtx Idle []) []).

Fixpoint runs (es : list Event) (s : State) : option State :=
  match es with [] => Some s | e :: es => match exec e s with Some s' => runs es s' | None => None end end.

(** ** Ownership *)

Definition guard_count (m : nat) (gs : list Guard) : nat := length (filter (fun g => g.1 = m) gs).
Definition pc_count (m : nat) (p : Pc) : nat :=
  match p with LockStore n _ | TryStore n _ | DropRelease n _ => if decide (n = m) then 1 else 0 | _ => 0 end.

Definition cpu_guards (m : nat) (k : Cpu) : nat :=
  guard_count m (guards (ctx k)) + sum_list_with (fun x => guard_count m (guards x.1)) (stack k).
Definition cpu_owns (m : nat) (k : Cpu) : nat :=
  cpu_guards m k + (pc_count m (pc (ctx k)) + sum_list_with (fun x => pc_count m (pc x.1)) (stack k)).

Record Inv (s : State) (owner : nat -> option nat) : Prop := {
  inv_locked : forall m, locked s m = bool_decide (is_Some (owner m));
  inv_owner : forall m c, cpu_owns m (cpus s c) = if decide (owner m = Some c) then 1%nat else 0%nat;
  inv_guard : forall m c, (0 < cpu_guards m (cpus s c))%nat -> holder s m = this_cpu c;
  inv_holder : forall m, holder s m = NO_HOLDER \/ exists c, holder s m = this_cpu c /\ (0 < cpu_guards m (cpus s c))%nat }.

Definition one (m n : nat) : nat := if decide (m = n) then 1 else 0.

Lemma guards_le_owns m k : (cpu_guards m k <= cpu_owns m k)%nat.
Proof. unfold cpu_owns. lia. Qed.

Lemma owned_by s owner m c : Inv s owner -> (0 < cpu_owns m (cpus s c))%nat -> owner m = Some c.
Proof. intros Hi. rewrite (inv_owner _ _ Hi). case_decide; [done|lia]. Qed.

Lemma guards_owned s owner m c : Inv s owner -> (0 < cpu_guards m (cpus s c))%nat -> owner m = Some c.
Proof. intros Hi H. eapply owned_by; [done|]. pose proof (guards_le_owns m (cpus s c)). lia. Qed.

Ltac cpu_cases c c' := destruct (decide (c' = c)) as [->|]; [rewrite ?fn_lookup_insert in *|rewrite ?fn_lookup_insert_ne in * by congruence].

(** A step that changes what a processor is doing, not what it owns. *)
Lemma inv_neutral s owner c k : Inv s owner ->
  (forall m, cpu_guards m k = cpu_guards m (cpus s c)) -> (forall m, cpu_owns m k = cpu_owns m (cpus s c)) -> Inv (set_cpu c k s) owner.
Proof.
  intros [Hl Ho Hg Hh] Eg Eo. split; cbn [set_cpu locked holder cpus]; [done| | |].
  - intros m c'. cpu_cases c c'; [by rewrite Eo|done].
  - intros m c'. cpu_cases c c'; [rewrite Eg|]; apply Hg.
  - intros m. destruct (Hh m) as [|(c' & E & G)]; [by left|right]. exists c'. split; [done|]. cpu_cases c c'; [by rewrite Eg|done].
Qed.

Lemma inv_acquire s owner c k m : Inv s owner -> locked s m = false ->
  (forall n, cpu_guards n k = cpu_guards n (cpus s c)) -> (forall n, cpu_owns n k = cpu_owns n (cpus s c) + one m n)%nat ->
  Inv (set_cpu c k (set_locked m true s)) (<[m := Some c]> owner).
Proof.
  intros [Hl Ho Hg Hh] Hf Eg Eo. rewrite Hl in Hf. apply bool_decide_eq_false in Hf.
  assert (Hm : owner m = None) by (destruct (owner m); [exfalso; eauto|done]).
  split; cbn [set_cpu set_locked locked holder cpus].
  - intros n. cpu_cases m n; [|done]. symmetry. apply bool_decide_eq_true. eauto.
  - intros n c'. unfold one in Eo. cpu_cases c c'; [rewrite Eo|]; rewrite Ho.
    + cpu_cases m n; [rewrite Hm|]; repeat case_decide; congruence || done.
    + cpu_cases m n; repeat case_decide; congruence.
  - intros n c'. cpu_cases c c'; [rewrite Eg|]; apply Hg.
  - intros n. destruct (Hh n) as [|(c' & E & G)]; [by left|right]. exists c'. split; [done|]. cpu_cases c c'; [by rewrite Eg|done].
Qed.

Lemma inv_store s owner c k m : Inv s owner -> (0 < cpu_owns m (cpus s c))%nat ->
  (forall n, cpu_guards n k = cpu_guards n (cpus s c) + one m n)%nat -> (forall n, cpu_owns n k = cpu_owns n (cpus s c)) ->
  Inv (set_cpu c k (set_holder m (this_cpu c) s)) owner.
Proof.
  intros Hi Hm Eg Eo. pose proof (owned_by _ _ _ _ Hi Hm) as Hc. destruct Hi as [Hl Ho Hg Hh] eqn:E. clear E.
  unfold one in Eg. split; cbn [set_cpu set_holder locked holder cpus]; [done| | |].
  - intros n c'. cpu_cases c c'; [by rewrite Eo|done].
  - intros n c' H. cpu_cases m n.
    + cpu_cases c c'; [done|]. pose proof (guards_owned _ _ _ _ Hi H). congruence.
    + cpu_cases c c'; [|by apply Hg]. apply Hg. rewrite Eg in H. case_decide; [congruence|lia].
  - intros n. cpu_cases m n.
    + right. exists c. split; [done|]. rewrite fn_lookup_insert, Eg. case_decide; [lia|done].
    + destruct (Hh n) as [|(c' & E & G)]; [by left|right]. exists c'. split; [done|]. cpu_cases c c'; [rewrite Eg; lia|done].
Qed.

Lemma inv_clear s owner c k m : Inv s owner ->
  (forall n, cpu_guards n k + one m n = cpu_guards n (cpus s c))%nat -> (forall n, cpu_owns n k = cpu_owns n (cpus s c)) ->
  Inv (set_cpu c k (set_holder m NO_HOLDER s)) owner.
Proof.
  intros Hi Eg Eo. unfold one in Eg.
  assert (Hm : (0 < cpu_guards m (cpus s c))%nat) by (rewrite <- Eg; case_decide; [lia|done]).
  assert (Hk : cpu_guards m k = 0%nat).
  { pose proof (inv_owner _ _ Hi m c) as H. pose proof (guards_le_owns m (cpus s c)). specialize (Eg m). repeat case_decide; try done; lia. }
  pose proof (guards_owned _ _ _ _ Hi Hm) as Hc. pose proof Hi as [Hl Ho Hg Hh].
  split; cbn [set_cpu set_holder locked holder cpus]; [done| | |].
  - intros n c'. cpu_cases c c'; [by rewrite Eo|done].
  - intros n c' H. cpu_cases m n.
    + cpu_cases c c'; [lia|]. pose proof (guards_owned _ _ _ _ Hi H). congruence.
    + cpu_cases c c'; [|by apply Hg]. apply Hg. rewrite <- Eg. lia.
  - intros n. cpu_cases m n; [by left|].
    destruct (Hh n) as [|(c' & E & G)]; [by left|right]. exists c'. split; [done|]. cpu_cases c c'; [|done].
    specialize (Eg n). case_decide; [congruence|lia].
Qed.

Lemma inv_release s owner c k m : Inv s owner ->
  (forall n, cpu_guards n k = cpu_guards n (cpus s c)) -> (forall n, cpu_owns n k + one m n = cpu_owns n (cpus s c))%nat ->
  Inv (set_cpu c k (set_locked m false s)) (<[m := None]> owner).
Proof.
  intros Hi Eg Eo. unfold one in Eo.
  assert (Hc : owner m = Some c) by (eapply owned_by; [done|]; rewrite <- Eo; case_decide; [lia|done]).
  destruct Hi as [Hl Ho Hg Hh]. split; cbn [set_cpu set_locked locked holder cpus].
  - intros n. cpu_cases m n; [|done]. symmetry. apply bool_decide_eq_false. by intros [? ?].
  - intros n c'. specialize (Eo n). specialize (Ho n c'). cpu_cases c c'.
    + cpu_cases m n; repeat case_decide; try congruence; lia.
    + rewrite Ho. cpu_cases m n; repeat case_decide; congruence.
  - intros n c'. cpu_cases c c'; [rewrite Eg|]; apply Hg.
  - intros n. destruct (Hh n) as [|(c' & E & G)]; [by left|right]. exists c'. split; [done|]. cpu_cases c c'; [by rewrite Eg|done].
Qed.

(** ** The counts of the steps *)

Lemma guard_count_cons m rf gs n : (guard_count n ((m, rf) :: gs) = guard_count n gs + one m n)%nat.
Proof. unfold guard_count, one. destruct (decide (m = n)); [rewrite filter_cons_True by done; by rewrite Nat.add_1_r|rewrite filter_cons_False by done; by rewrite Nat.add_0_r]. Qed.

Lemma guard_count_nil n : guard_count n [] = 0%nat.
Proof. done. Qed.

Lemma guard_count_delete m rf gs i n : gs !! i = Some (m, rf) -> (guard_count n gs = guard_count n (delete i gs) + one m n)%nat.
Proof. intros Hi. rewrite <- (guard_count_cons m rf). unfold guard_count. by rewrite <- (delete_Permutation gs i). Qed.

Ltac counts :=
  intros; unfold cpu_owns, cpu_guards; cbn [ctx stack pc guards sum_list_with fst cpus set_locked set_holder];
  rewrite ?guard_count_cons, ?guard_count_nil; repeat match goal with H : pc _ = _ |- _ => rewrite H end;
  cbn [pc_count]; unfold one in *; repeat case_decide; lia.

Lemma goto_inv c p s owner : Inv s owner -> (forall m, pc_count m p = pc_count m (pc (ctx (cpus s c)))) -> Inv (goto c p s) owner.
Proof. intros Hi Hp. apply inv_neutral; [done|counts|]. intros m. unfold cpu_owns, cpu_guards. cbn [ctx stack pc guards]. by rewrite Hp. Qed.

Lemma lock_step_inv c s s' owner : Inv s owner -> lock_step c (pc (ctx (cpus s c))) s = Some s' -> exists owner', Inv s' owner'.
Proof.
  intros Hi. destruct (pc (ctx (cpus s c))) eqn:Hp; try done; cbn [lock_step]; intros [= <-].
  - exists owner. apply goto_inv; [done|]. intros n. rewrite Hp. by destruct (locked s m).
  - exists owner. apply goto_inv; [done|]. intros n. rewrite Hp. by destruct (_ =? _).
  - destruct (locked s m) eqn:Hl; [eauto|]. eexists. apply inv_acquire; [done..|counts|counts].
  - exists owner. apply inv_store; [done|counts..].
Qed.

Lemma try_lock_step_inv c s s' owner : Inv s owner -> try_lock_step c (pc (ctx (cpus s c))) s = Some s' -> exists owner', Inv s' owner'.
Proof.
  intros Hi. destruct (pc (ctx (cpus s c))) eqn:Hp; try done; cbn [try_lock_step]; intros [= <-].
  - exists owner. apply goto_inv; [done|]. intros n. rewrite Hp. by destruct (locked s m).
  - exists owner. apply goto_inv; [done|]. intros n. rewrite Hp. by destruct (_ =? _).
  - destruct (locked s m) eqn:Hl; [exists owner; apply goto_inv; [done|]; intros n; by rewrite Hp|].
    eexists. apply inv_acquire; [done..|counts|counts].
  - exists owner. apply inv_store; [done|counts..].
  - exists owner. apply inv_neutral; [done|counts..].
Qed.

Lemma drop_step_inv c s s' owner : Inv s owner -> drop_step c (pc (ctx (cpus s c))) s = Some s' -> exists owner', Inv s' owner'.
Proof.
  intros Hi. destruct (pc (ctx (cpus s c))) eqn:Hp; try done; cbn [drop_step]; intros [= <-].
  - eexists. apply inv_release; [done|counts|counts].
  - exists owner. apply inv_neutral; [done|counts..].
Qed.

Lemma idle_pc c s : idle c s = true -> pc (ctx (cpus s c)) = Idle.
Proof. unfold idle. by destruct (pc _). Qed.

Lemma exec_inv e s s' owner : Inv s owner -> exec e s = Some s' -> exists owner', Inv s' owner'.
Proof.
  intros Hi. destruct e as [c m|c m|c i|c|c m v|c|c]; cbn [exec].
  - destruct (idle c s) eqn:Hp; [|done]. apply idle_pc in Hp. intros [= <-]. exists owner. apply inv_neutral; [done|counts..].
  - destruct (idle c s) eqn:Hp; [|done]. apply idle_pc in Hp. intros [= <-]. exists owner. apply inv_neutral; [done|counts..].
  - destruct (idle c s) eqn:Hp; [|done]. apply idle_pc in Hp. unfold drop_begin. destruct (guards _ !! i) as [[m rf]|] eqn:Hg; [|done].
    intros [= <-]. exists owner. pose proof (fun n => guard_count_delete m rf _ i n Hg) as Hd.
    apply inv_clear; [done|intros n; specialize (Hd n); revert Hd; counts..].
  - pose proof (lock_step_inv c s s' owner Hi) as H1. pose proof (try_lock_step_inv c s s' owner Hi) as H2.
    destruct (lock_step _ _ _) as [s1|]; [naive_solver|]. destruct (try_lock_step _ _ _) as [s2|]; [naive_solver|]. by apply drop_step_inv with (owner := owner).
  - destruct (_ && _); [|done]. intros [= <-]. exists owner. destruct Hi. by split.
  - destruct (if_set _); [|done]. intros [= <-]. exists owner. apply inv_neutral; [done|counts..].
  - destruct (pc _) eqn:Hp; try done. destruct (guards _) eqn:Hg; [|done]. destruct (stack _) as [|[x rf] st] eqn:Hs; [done|]. intros [= <-].
    exists owner. apply inv_neutral; [done|..]; intros m; unfold cpu_owns, cpu_guards; rewrite ?Hp, Hg, Hs; cbn; lia.
Qed.

Lemma initial_inv flags v : Inv (initial flags v) (fun _ => None).
Proof. split; [done|done|cbn; intros m c H; lia|by left]. Qed.

Lemma runs_inv es s s' owner : Inv s owner -> runs es s = Some s' -> exists owner', Inv s' owner'.
Proof.
  revert s owner. induction es as [|e es IH]; intros s owner Hi; cbn [runs]; [intros [= <-]; eauto|].
  destruct (exec e s) as [s1|] eqn:He; [|done]. destruct (exec_inv _ _ _ _ Hi He) as [o1 H1]. by eapply IH.
Qed.

(** ** Flags *)

Lemma if_set_spec r : if_set r = Z.testbit r 9.
Proof.
  unfold if_set. destruct (Z.testbit r 9) eqn:Hb; [apply negb_true_iff, Z.eqb_neq|apply negb_false_iff, Z.eqb_eq].
  - intros H. apply (f_equal (fun x => Z.testbit x 9)) in H. by rewrite Z.land_spec, Hb in H.
  - apply Z.bits_inj'. intros n Hn. unfold IF_BIT. rewrite Z.land_spec, Z.bits_0, Z.pow2_bits_eqb by lia.
    destruct (Z.eqb_spec 9 n) as [<-|]; [by rewrite Hb|by rewrite andb_false_r].
Qed.

Lemma if_set_cli r : if_set (Z.ldiff r IF_BIT) = false.
Proof. rewrite if_set_spec, Z.ldiff_spec. by rewrite andb_false_r. Qed.

Lemma if_set_sti r : if_set (Z.lor r IF_BIT) = true.
Proof. rewrite if_set_spec, Z.lor_spec. by rewrite orb_true_r. Qed.

Definition event_cpu (e : Event) : nat :=
  match e with Lock c _ | TryLock c _ | Drop c _ | Run c | Write c _ _ | Irq c | Iret c => c end.

(** A step is a step of one processor. *)
Lemma exec_other e s s' c : exec e s = Some s' -> c <> event_cpu e -> cpus s' c = cpus s c.
Proof.
  intros He Hc. destruct e as [d m|d m|d i|d|d m v|d|d]; cbn [exec event_cpu] in *;
    unfold drop_begin, lock_step, try_lock_step, drop_step, take_guard, save_and_disable_interrupts, restore_interrupts, goto in He;
    repeat (case_match; try discriminate); simplify_eq; cbn [set_cpu set_locked set_holder cpus]; by rewrite ?fn_lookup_insert_ne by done.
Qed.

(** ** Inside a call *)

Definition in_code (p : Pc) : bool := match p with Idle | DropRelease _ _ | DropRestore _ => false | _ => true end.

(** Interrupts are off inside of [lock] and [try_lock], so that they are not
    interrupted; and what a processor spins on it has no guard of. *)
Record code_ok (k : Cpu) : Prop := {
  code_off : in_code (pc (ctx k)) = true -> if_set (rflags k) = false;
  code_spin : forall m rf, pc (ctx k) = LockSpin m rf -> cpu_guards m k = 0%nat;
  code_below : Forall (fun x => in_code (pc x.1) = false) (stack k) }.

Lemma goto_code p k : code_ok k -> in_code (pc (ctx k)) = true -> (forall m rf, p = LockSpin m rf -> cpu_guards m k = 0%nat) ->
  code_ok (mkCpu (rflags k) (mkCtx p (guards (ctx k))) (stack k)).
Proof. intros [Ho Hs Hb] Hc Hp. split; cbn [rflags ctx stack pc]; [auto|exact Hp|done]. Qed.

Lemma idle_code r gs st p : in_code p = false -> Forall (fun x : Ctx * Z => in_code (pc x.1) = false) st -> code_ok (mkCpu r (mkCtx p gs) st).
Proof. intros Hp Hb. split; cbn [ctx rflags stack pc]; [by rewrite Hp|intros m rf ->; done|done]. Qed.

Lemma cpu_goto c p s : cpus (goto c p s) c = mkCpu (rflags (cpus s c)) (mkCtx p (guards (ctx (cpus s c)))) (stack (cpus s c)).
Proof. cbn. by rewrite fn_lookup_insert. Qed.

(** Past the check, and past the holder, the processor has no guard of the lock. *)
Lemma unlocked_guards s owner c m : Inv s owner -> locked s m = false -> cpu_guards m (cpus s c) = 0%nat.
Proof.
  intros Hi Hl. pose proof (guards_owned s owner m c Hi) as Hg. rewrite (inv_locked _ _ Hi) in Hl. apply bool_decide_eq_false in Hl.
  destruct (cpu_guards m (cpus s c)); [done|]. exfalso. apply Hl. rewrite Hg by lia. eauto.
Qed.

Lemma other_guards s owner c m : Inv s owner -> holder s m <> this_cpu c -> cpu_guards m (cpus s c) = 0%nat.
Proof. intros Hi Hh. pose proof (inv_guard _ _ Hi m c) as Hg. destruct (cpu_guards m (cpus s c)); [done|]. exfalso. apply Hh, Hg. lia. Qed.

Lemma run_code c s s' owner : Inv s owner -> code_ok (cpus s c) -> exec (Run c) s = Some s' -> code_ok (cpus s' c).
Proof.
  intros Hi Hk. pose proof (code_below _ Hk) as Hb. cbn [exec].
  destruct (pc (ctx (cpus s c))) eqn:Hp; cbn [lock_step try_lock_step drop_step]; try done; intros [= <-];
    try (unfold take_guard, restore_interrupts, goto; cbn [set_cpu set_locked set_holder cpus]; rewrite fn_lookup_insert; by apply idle_code).
  - rewrite cpu_goto. apply goto_code; [done|by rewrite Hp|]. destruct (locked s m) eqn:Hl; [done|].
    intros n rf' [= <- <-]. by apply (unlocked_guards s owner).
  - rewrite cpu_goto. apply goto_code; [done|by rewrite Hp|]. destruct (Z.eqb_spec (holder s m) (this_cpu c)); [done|].
    intros n' rf' [= <- <-]. by apply (other_guards s owner).
  - destruct (locked s m); [done|]. rewrite cpu_goto. apply goto_code; cbn [set_locked cpus]; [done|by rewrite Hp|done].
  - rewrite cpu_goto. apply goto_code; [done|by rewrite Hp|]. by destruct (locked s m).
  - rewrite cpu_goto. apply goto_code; [done|by rewrite Hp|]. by destruct (_ =? _).
  - destruct (locked s m); rewrite cpu_goto; apply goto_code; cbn [set_locked cpus]; by rewrite ?Hp.
Qed.

Lemma exec_code e s s' owner : Inv s owner -> (forall c, code_ok (cpus s c)) -> exec e s = Some s' -> forall c, code_ok (cpus s' c).
Proof.
  intros Hi Hk He c. destruct (decide (c = event_cpu e)) as [->|Hc]; [|by rewrite (exec_other e s s')].
  pose proof (Hk (event_cpu e)) as [Ho Hs Hb]. destruct e as [c m|c m|c i|c|c m v|c|c]; cbn [event_cpu] in *; [| | |by eapply run_code| | |]; cbn [exec] in He.
  - destruct (idle c s); [|done]. injection He as <-. cbn. rewrite fn_lookup_insert. by split; cbn [ctx pc rflags stack]; [rewrite if_set_cli|..].
  - destruct (idle c s); [|done]. injection He as <-. cbn. rewrite fn_lookup_insert. by split; cbn [ctx pc rflags stack]; [rewrite if_set_cli|..].
  - destruct (idle c s); [|done]. unfold drop_begin in He. destruct (guards _ !! i) as [[m rf]|]; [|done]. injection He as <-.
    cbn. rewrite fn_lookup_insert. by apply idle_code.
  - destruct (_ && _); [|done]. by injection He as <-.
  - destruct (if_set _) eqn:Hf; [|done]. injection He as <-. cbn. rewrite fn_lookup_insert. apply idle_code; [done|]. constructor; [|done].
    cbn. apply not_true_iff_false. intros H. by apply Ho in H.
  - destruct (pc _); try done. destruct (guards _); [|done]. destruct (stack _) as [|[[p gs] rf] st]; [done|]. injection He as <-.
    cbn. rewrite fn_lookup_insert. apply Forall_cons in Hb as [Hp Hb]. by apply idle_code.
Qed.

Lemma runs_code es s s' owner : Inv s owner -> (forall c, code_ok (cpus s c)) -> runs es s = Some s' -> forall c, code_ok (cpus s' c).
Proof.
  revert s owner. induction es as [|e es IH]; intros s owner Hi Hk; cbn [runs]; [by intros [= <-]|].
  destruct (exec e s) as [s1|] eqn:He; [|done]. destruct (exec_inv _ _ _ _ Hi He) as [o1 H1]. apply (IH s1 o1 H1). exact (exec_code e s s1 owner Hi Hk He).
Qed.

Lemma exec_value e s s' m : exec e s = Some s' -> value s' m <> value s m -> exists c v, e = Write c m v /\ m ∈ (guards (ctx (cpus s c))).*1.
Proof.
  intros He Hv. destruct e as [d n|d n|d i|d|d n v|d|d]; cbn [exec] in *;
    unfold drop_begin, lock_step, try_lock_step, drop_step, take_guard, save_and_disable_interrupts, restore_interrupts, goto in He;
    repeat (case_match; try discriminate); simplify_eq; cbn in Hv; try done.
  destruct (decide (n = m)) as [->|]; [|by rewrite fn_lookup_insert_ne in Hv]. apply andb_true_iff in H as [_ H]. apply bool_decide_eq_true in H. eauto.
Qed.

Lemma has_guard m gs : m ∈ gs.*1 <-> (0 < guard_count m gs)%nat.
Proof.
  induction gs as [|[n rf] gs IH]; [split; [intros H; inversion H|cbn; lia]|]. rewrite guard_count_cons, fmap_cons, elem_of_cons, IH. cbn [fst].
  unfold one. case_decide; [subst; split; [lia|by left]|]. split; [intros [->|]; [done|lia]|right; lia].
Qed.

(** The processors without events stay as they are. *)
Lemma runs_other es s s' c : Forall (fun e => event_cpu e <> c) es -> runs es s = Some s' -> cpus s' c = cpus s c.
Proof.
  intros Hes. revert s. induction Hes as [|e es He Hes IH]; intros s; cbn [runs]; [by intros [= <-]|].
  destruct (exec e s) as [s1|] eqn:H1; [|done]. intros H. rewrite (IH s1 H). by apply (exec_other e).
Qed.

(** C5. The lock excludes, under every interleaving of the processors and of the
    handlers that interrupt them, and whatever order guards are dropped in. At any
    time at most one call on one processor owns a lock, once, and it is locked
    exactly while one does. The value changes only through a guard of its only owner.
    And [lock] tells a lock of its own from another's: reading the holder it panics
    when a guard of the lock exists on its processor and only then, so that it never
    spins on a lock that its processor has a guard of. *)
Theorem irq_mutex_exclusive ncpu flags v es s :
  (forall c c', (c < ncpu)%nat -> (c' < ncpu)%nat -> this_cpu c = this_cpu c' -> c = c') ->
  (forall c, (c < ncpu)%nat -> this_cpu c <> NO_HOLDER) ->
  Forall (fun e => event_cpu e < ncpu)%nat es -> runs es (initial flags v) = Some s ->
  (forall m c c', (0 < cpu_owns m (cpus s c))%nat -> (0 < cpu_owns m (cpus s c'))%nat -> c = c' /\ cpu_owns m (cpus s c) = 1%nat) /\
  (forall m, is_locked m s = true <-> exists c, (0 < cpu_owns m (cpus s c))%nat) /\
  (forall e s' m, exec e s = Some s' -> value s' m <> value s m ->
    exists c w, e = Write c m w /\ m ∈ (guards (ctx (cpus s c))).*1 /\ forall c', c' <> c -> cpu_owns m (cpus s c') = 0%nat) /\
  (forall c m rf, (c < ncpu)%nat -> pc (ctx (cpus s c)) = LockHolder m rf ->
    exec (Run c) s = Some (goto c (if decide (0 < cpu_guards m (cpus s c))%nat then Panicked else LockSpin m rf) s)) /\
  (forall c m rf, pc (ctx (cpus s c)) = LockSpin m rf -> cpu_guards m (cpus s c) = 0%nat).
Proof.
  intros Hinj Hno Hes Hr. destruct (runs_inv _ _ _ _ (initial_inv flags v) Hr) as [owner Hi].
  pose proof (runs_code _ _ _ _ (initial_inv flags v) ltac:(intros c; by apply idle_code) Hr) as Hk. split; [|split; [|split; [|split]]].
  - intros m c c' H1 H2. pose proof (owned_by _ _ _ _ Hi H1) as E1. pose proof (owned_by _ _ _ _ Hi H2) as E2. split; [congruence|].
    rewrite (inv_owner _ _ Hi). by rewrite decide_True.
  - intros m. unfold is_locked. rewrite (inv_locked _ _ Hi), bool_decide_eq_true. split.
    + intros [c Hc]. exists c. rewrite (inv_owner _ _ Hi), decide_True by done. lia.
    + intros [c Hc]. rewrite (owned_by _ _ _ _ Hi Hc). eauto.
  - intros e s' m He Hv. destruct (exec_value _ _ _ _ He Hv) as (c & w & -> & Hin). exists c, w. split; [done|]. split; [done|].
    intros c' Hc. rewrite (inv_owner _ _ Hi). rewrite decide_False; [done|]. rewrite (guards_owned s owner m c Hi); [congruence|].
    apply has_guard in Hin. unfold cpu_guards. lia.
  - intros c m rf Hc Hp. cbn [exec]. rewrite Hp. cbn [lock_step]. do 2 f_equal. destruct (Z.eqb_spec (holder s m) (this_cpu c)) as [E|E]; case_decide as G; try done.
    + destruct (inv_holder _ _ Hi m) as [H|(c' & H & H')]; [rewrite H in E; by destruct (Hno c Hc)|].
      destruct (decide (c' < ncpu)%nat) as [Hc'|Hc']; [rewrite H in E; by rewrite <- (Hinj c' c Hc' Hc E) in G|].
      rewrite (runs_other es (initial flags v) s c') in H'; [cbn in H'; lia|eapply Forall_impl; [exact Hes|]; cbn; lia|done].
    + by apply (inv_guard _ _ Hi) in G.
  - intros c. by apply code_spin.
Qed.

(** ** Guards dropped in the order of scopes *)

Definition lifo (e : Event) : Prop := match e with Drop _ i => i = 0%nat | _ => True end.

(** The interrupt flag with the guards [gs] held, when [b] is the flag without. *)
Definition flag_under (b : bool) (gs : list Guard) : bool := match gs with [] => b | _ => false end.

Fixpoint saved_ok (b : bool) (gs : list Guard) : Prop :=
  match gs with [] => True | (_, rf) :: gs => if_set rf = flag_under b gs /\ saved_ok b gs end.

Definition pc_saved (p : Pc) : option Z :=
  match p with
  | LockCheck _ rf | LockHolder _ rf | LockSpin _ rf | LockStore _ rf | TryCheck _ rf | TryHolder _ rf | TryCas _ rf | TryStore _ rf
  | TryRestore rf | DropRelease _ rf | DropRestore rf => Some rf
  | Idle | Panicked => None
  end.

(** What a context is entered with: a handler with interrupts off. *)
Definition entry_flag (b : bool) (k : Cpu) : bool := match stack k with [] => b | _ => false end.

Record lifo_ok (b : bool) (k : Cpu) : Prop := {
  lf_guards : saved_ok (entry_flag b k) (guards (ctx k));
  lf_pc : match pc (ctx k) with
          | Idle => if_set (rflags k) = flag_under (entry_flag b k) (guards (ctx k))
          | p => if_set (rflags k) = false /\ forall rf, pc_saved p = Some rf -> if_set rf = flag_under (entry_flag b k) (guards (ctx k))
          end;
  lf_stack : stack k = [] \/ exists rf, stack k = [(mkCtx Idle [], rf)] /\ if_set rf = true /\ b = true }.

(** A step within a call: the flags stay off and the captured ones stay. *)
Lemma lifo_goto b c p s : lifo_ok b (cpus s c) -> pc (ctx (cpus s c)) <> Idle -> p <> Idle ->
  (forall rf, pc_saved p = Some rf -> pc_saved (pc (ctx (cpus s c))) = Some rf) -> lifo_ok b (cpus (goto c p s) c).
Proof.
  intros [Hg Hp Hs] Hi Hpi Hsv. rewrite cpu_goto. split; [done| |done].
  change (entry_flag b _) with (entry_flag b (cpus s c)). cbn [ctx pc rflags guards].
  assert (H : if_set (rflags (cpus s c)) = false /\ forall rf, pc_saved p = Some rf -> if_set rf = flag_under (entry_flag b (cpus s c)) (guards (ctx (cpus s c))))
    by (destruct (pc (ctx (cpus s c))); [done|..]; destruct Hp as [H1 H2]; split; auto).
  by destruct p.
Qed.

Lemma lifo_restore b c rf s : lifo_ok b (cpus s c) -> pc_saved (pc (ctx (cpus s c))) = Some rf -> lifo_ok b (cpus (restore_interrupts c rf s) c).
Proof.
  intros [Hg Hp Hs] Hsv. cbn. rewrite fn_lookup_insert. split; [done| |done].
  change (entry_flag b _) with (entry_flag b (cpus s c)). cbn [ctx pc rflags guards].
  assert (H : if_set (rflags (cpus s c)) = false /\ if_set rf = flag_under (entry_flag b (cpus s c)) (guards (ctx (cpus s c))))
    by (destruct (pc (ctx (cpus s c))); try done; destruct Hp as [H1 H2]; split; auto).
  destruct H as [H1 <-]. by destruct (if_set rf); [rewrite if_set_sti|].
Qed.

Lemma lifo_take b c m rf s : lifo_ok b (cpus s c) -> pc_saved (pc (ctx (cpus s c))) = Some rf -> lifo_ok b (cpus (take_guard c m rf s) c).
Proof.
  intros [Hg Hp Hs] Hsv. cbn. rewrite fn_lookup_insert.
  assert (H : if_set (rflags (cpus s c)) = false /\ if_set rf = flag_under (entry_flag b (cpus s c)) (guards (ctx (cpus s c))))
    by (destruct (pc (ctx (cpus s c))); try done; destruct Hp as [H1 H2]; split; auto).
  by destruct H; split.
Qed.

Lemma lifo_save b c p s : lifo_ok b (cpus s c) -> pc (ctx (cpus s c)) = Idle -> (forall rf, pc_saved (p rf) = Some rf) ->
  lifo_ok b (cpus (save_and_disable_interrupts c p s) c).
Proof.
  intros [Hg Hp Hs] Hi Hsv. rewrite Hi in Hp. cbn. rewrite fn_lookup_insert. split; [done| |done].
  change (entry_flag b _) with (entry_flag b (cpus s c)). cbn [ctx pc rflags guards]. rewrite <- Hp, if_set_cli.
  pose proof (Hsv (rflags (cpus s c))) as Hr.
  destruct (p (rflags (cpus s c))); try done; (split; [done|]; intros rf' H; congruence).
Qed.

Lemma lifo_run b c s s' : lifo_ok b (cpus s c) -> exec (Run c) s = Some s' -> lifo_ok b (cpus s' c).
Proof.
  intros Hk. cbn [exec]. destruct (pc (ctx (cpus s c))) eqn:Hp; cbn [lock_step try_lock_step drop_step]; try done; intros [= <-];
    try (apply lifo_take; [done|by rewrite Hp]); try (apply lifo_restore; [done|by rewrite Hp]);
    try (destruct (locked s m)); try (destruct (_ =? _)); try done; apply lifo_goto; cbn [set_locked cpus]; by rewrite ?Hp.
Qed.

Lemma lifo_exec b e s s' : lifo e -> lifo_ok b (cpus s (event_cpu e)) -> exec e s = Some s' -> lifo_ok b (cpus s' (event_cpu e)).
Proof.
  intros Hl Hk. destruct e as [c m|c m|c i|c|c m v|c|c]; cbn [event_cpu] in *; [| | |by apply lifo_run|..]; cbn [exec].
  - destruct (idle c s) eqn:Hi; [|done]. intros [= <-]. apply lifo_save; [done|by apply idle_pc|done].
  - destruct (idle c s) eqn:Hi; [|done]. intros [= <-]. apply lifo_save; [done|by apply idle_pc|done].
  - destruct (idle c s) eqn:Hi; [|done]. cbn in Hl. subst i. unfold drop_begin. destruct Hk as [Hg Hp Hs]. rewrite (idle_pc c s Hi) in Hp.
    destruct (guards (ctx (cpus s c))) as [|[m rf] gs] eqn:Hgs; [done|]. intros [= <-]. cbn. rewrite fn_lookup_insert.
    cbn [saved_ok] in Hg. destruct Hg as [Hrf Hg]. split; [done| |done]. split; [done|]. by intros rf' [= <-].
  - destruct (_ && _); [|done]. by intros [= <-].
  - destruct (if_set _) eqn:Hf; [|done]. intros [= <-]. cbn. rewrite fn_lookup_insert. destruct Hk as [Hg Hp Hs].
    destruct (cpus s c) as [r [p gs] st]. cbn [rflags ctx pc guards stack entry_flag] in *.
    destruct p; try (destruct Hp; congruence). rewrite Hf in Hp. destruct gs; [|done]. destruct st; [|done]. cbn in Hp.
    split; [done|cbn; by rewrite if_set_cli|]. right. by exists r.
  - destruct Hk as [Hg Hp Hs]. destruct (pc _); try done. destruct (guards _); [|done].
    destruct Hs as [->|(rf & -> & Hf & ->)]; [done|]. intros [= <-]. cbn. rewrite fn_lookup_insert. by split; [|cbn|left].
Qed.

Lemma lifo_runs flags es s s' : Forall lifo es -> (forall c, lifo_ok (flags c) (cpus s c)) -> runs es s = Some s' -> forall c, lifo_ok (flags c) (cpus s' c).
Proof.
  intros Hes. revert s. induction Hes as [|e es He Hes IH]; intros s Hk; cbn [runs]; [by intros [= <-]|].
  destruct (exec e s) as [s1|] eqn:H1; [|done]. apply IH. intros c. destruct (decide (c = event_cpu e)) as [->|Hc]; [by apply (lifo_exec _ e s)|].
  by rewrite (exec_other e s s1).
Qed.

(** C13. When guards are dropped in the order of scopes, the last taken first, then
    at any time and on every processor: while interrupts are on the processor is in
    no call and owns no lock, in what is interrupted as well, so that no handler
    ever finds a lock held by the code below it; a processor spins only on locks that
    it does not own at all; and once all guards are dropped the interrupt flag is
    what it was before the first was taken. *)
Theorem irq_mutex_lifo flags v es s :
  Forall lifo es -> runs es (initial flags v) = Some s ->
  forall c, let k := cpus s c in
  (if_set (rflags k) = true -> pc (ctx k) = Idle /\ forall m, cpu_owns m k = 0%nat) /\
  (forall m rf, pc (ctx k) = LockSpin m rf -> cpu_owns m k = 0%nat) /\
  (pc (ctx k) = Idle -> guards (ctx k) = [] -> if_set (rflags k) = match stack k with [] => if_set (flags c) | _ => false end).
Proof.
  intros Hes Hr c k.
  pose proof (runs_code _ _ _ _ (initial_inv flags v) ltac:(intros c'; by apply idle_code) Hr c) as Hk.
  assert (Hc : lifo_ok (if_set (flags c)) k) by (apply (lifo_runs (fun c => if_set (flags c)) es (initial flags v) s); [done|intros c'; split; [done|done|by left]|done]).
  fold k in Hk. clearbody k. destruct Hc as [Hg Hp Hs].
  assert (Hbelow : forall m, cpu_owns m k = (guard_count m (guards (ctx k)) + pc_count m (pc (ctx k)))%nat).
  { intros m. unfold cpu_owns, cpu_guards. destruct Hs as [->|(rf & -> & _)]; cbn; lia. }
  split; [|split].
  - intros Hf. destruct (pc (ctx k)); try (destruct Hp; congruence). split; [done|]. intros m. rewrite Hbelow. cbn.
    rewrite Hp in Hf. by destruct (guards (ctx k)).
  - intros m rf Hpc. rewrite Hbelow, Hpc. pose proof (code_spin _ Hk m rf Hpc) as Hz. unfold cpu_guards in Hz. cbn. lia.
  - intros Hpc Hgs. rewrite Hpc, Hgs in Hp. done.
Qed.

End machine.

(** ** Runs *)

(** Two processors take one lock in turn; the first is interrupted before. *)
Definition fair : list Event :=
  [Irq 0; Iret 0; Lock 0 7; Run 0; Run 0; Run 0; Lock 1 7; Run 1; Run 1; Run 1; Write 0 7 5; Drop 0 0; Run 0; Run 0; Run 1; Run 1].
Definition on : nat -> Z := fun _ => 0x202.
Definition after (es : list Event) : State := default (initial on (fun _ => 0)) (runs Z.of_nat es (initial on (fun _ => 0))).

Lemma after_runs es : match runs Z.of_nat es (initial on (fun _ => 0)) with Some _ => true | None => false end = true ->
  runs Z.of_nat es (initial on (fun _ => 0)) = Some (after es).
Proof. unfold after. by destruct (runs _ _ _). Qed.

Lemma irq_mutex_exclusive_witness :
  is_locked 7 (after fair) = true /\ cpu_owns 7 (cpus (after fair) 1) = 1%nat /\ cpu_owns 7 (cpus (after fair) 0) = 0%nat /\
  (exists c, (0 < cpu_owns 7 (cpus (after fair) c))%nat).
Proof.
  split; [reflexivity|]. split; [reflexivity|]. split; [reflexivity|].
  assert (Hr : runs Z.of_nat fair (initial on (fun _ => 0)) = Some (after fair)) by (apply after_runs; vm_compute; reflexivity).
  assert (Hes : Forall (fun e => event_cpu e < 2)%nat fair) by (repeat constructor; cbn; lia).
  destruct (irq_mutex_exclusive Z.of_nat 2 on (fun _ => 0) fair (after fair) ltac:(lia) ltac:(unfold NO_HOLDER; lia) Hes Hr) as (_ & Hl & _).
  apply Hl. vm_compute. reflexivity.
Defined.

Lemma irq_mutex_lifo_witness :
  if_set (rflags (cpus (after fair) 0)) = true /\ if_set (rflags (cpus (after fair) 1)) = false /\
  pc (ctx (cpus (after fair) 0)) = Idle.
Proof.
  split; [reflexivity|]. split; [reflexivity|].
  assert (Hr : runs Z.of_nat fair (initial on (fun _ => 0)) = Some (after fair)) by (apply after_runs; vm_compute; reflexivity).
  assert (Hes : Forall lifo fair) by repeat constructor.
  destruct (irq_mutex_lifo Z.of_nat on (fun _ => 0) fair (after fair) Hes Hr 0%nat) as (Hon & _).
  apply Hon. vm_compute. reflexivity.
Defined.

(** Of two guards the outer is dropped first: interrupts are on while the other
    is held, ... *)
Definition out_of_order : list Event := [Lock 0 1; Run 0; Run 0; Run 0; Lock 0 2; Run 0; Run 0; Run 0; Drop 0 1; Run 0; Run 0].

Example held_with_interrupts_on :
  if_set (rflags (cpus (after out_of_order) 0)) = true /\ (guards (ctx (cpus (after out_of_order) 0))).*1 = [2%nat].
Proof. done. Qed.

(** ... and a handler that runs between the two stores of its drop spins on a lock
    of its own processor, which nothing but the code below it releases. *)
Example handler_spins_on_own :
  let s := after (out_of_order ++ [Drop 0 0; Irq 0; Lock 0 2; Run 0; Run 0]) in
  exists rf, pc (ctx (cpus s 0)) = LockSpin 2 rf /\ cpu_owns 2 (cpus s 0) = 1%nat /\ if_set (rflags (cpus s 0)) = false /\
  forall n, runs Z.of_nat (replicate n (Run 0)) s = Some s.
Proof.
  intros s. exists 0x2. assert (Hp : pc (ctx (cpus s 0)) = LockSpin 2 0x2) by (vm_compute; reflexivity).
  assert (Hl : locked s 2 = true) by (vm_compute; reflexivity).
  split; [done|]. split; [vm_compute; reflexivity|]. split; [vm_compute; reflexivity|].
  clearbody s. intros n. induction n as [|n IH]; [done|]. cbn [replicate runs exec]. by rewrite Hp; cbn [lock_step]; rewrite Hl.
Qed.
