(* ===== verification/Vfs.v ===== *)
(** * The virtual file system

    Model of [crates/vfs/src/defs.rs]: the interface of nodes and of file
    systems, the table of mounts and the resolution of paths.  Paths are UTF-8
    strings, lists of bytes here; what the code does with them looks only at the
    bytes of [/] and [.], which are characters of their own.  The statistics of a
    node, which are copied to user memory, keep the layout of the C structure. *)

From stdpp Require Import gmap.
From Stdlib Require Import String.
From S2P Require Import Prelude Landlock Lsm.

Definition SLASH : Z := 47.

Record Stat := mkStat {
  st_dev : Z; st_ino : Z; st_mode : Z; st_nlink : Z; st_uid : Z; st_gid : Z; st_rdev : Z; st_size : Z;
  st_atime : Z; st_mtime : Z; st_ctime : Z; st_atime_nsec : Z; st_mtime_nsec : Z; st_ctime_nsec : Z }.

Record StatFs := mkStatFs { f_type : Z; f_bsize : Z; f_blocks : Z; f_bfree : Z; f_bavail : Z; f_files : Z; f_ffree : Z }.

Definition PATH_MAX : nat := 4096.
Definition S_IFDIR : Z := 0x4000.
Definition S_IFCHR : Z := 0x2000.
Definition S_IFREG : Z := 0x8000.
Definition S_IFLNK : Z := 0xA000.
Definition S_IFSOCK : Z := 0xC000.

(** The trait [VfsNode], and [root] of [FileSystem]: nodes [N] and file systems
    [F] in a state [W] of all of them.  [None] and [false] are [Err]. *)
Class VfsNode (N F W : Type) := {
  n_root : F -> W -> option N;
  n_name : N -> W -> Str;
  n_is_dir : N -> W -> bool;
  n_read : N -> W -> option Str;
  n_stat : N -> W -> option Stat;
  n_statfs : N -> W -> option StatFs;
  n_children : N -> W -> option (list N);
  n_find_child : N -> Str -> W -> option N;
  n_readlink : N -> W -> option Str;
  n_write : N -> Str -> W -> bool * W;
  n_mkdir : N -> Str -> W -> option N * W;
  n_create : N -> Str -> W -> option N * W;
  n_unlink : N -> Str -> W -> bool * W;
  n_chmod : N -> Z -> W -> bool * W;
  n_chown : N -> Z -> Z -> W -> bool * W;
  n_symlink : N -> Str -> Str -> W -> bool * W;
  n_rename : N -> Str -> Str -> W -> bool * W;
  n_truncate : N -> Z -> W -> bool * W;
  n_link : N -> N -> Str -> W -> bool * W;
  n_utimens : N -> Z * Z -> Z * Z -> W -> bool * W }.

(** The default of [find_child]. *)
Definition find_child_default {N W} (children : N -> W -> option (list N)) (name : N -> W -> Str) (n : N) (child : Str) (s : W) : option N :=
  match children n s with
  | Some cs => snd <$> list_find (fun c => name c s = child) cs
  | None => None
  end.

Record MountPoint (F : Type) := mkMount { mnt_path : Str; mnt_fs : F }.
Arguments mkMount {F}.
Arguments mnt_path {F}.
Arguments mnt_fs {F}.

Record VfsManager (N F : Type) := mkVfs { mounts : list (MountPoint F); mount_cache : gmap (list Z) N }.
Arguments mkVfs {N F}.
Arguments mounts {N F}.
Arguments mount_cache {N F}.

(** ** Paths *)

Definition ends_with_slash (p : Str) : bool := bool_decide (last p = Some SLASH).

(** The leading slash that [mount], [umount] and [resolve_path] add, and the one
    trailing slash that they take away. *)
Definition fix_path (p : Str) : Str :=
  let p := if starts_with p [SLASH] then p else SLASH :: p in
  if (1 <? length p)%nat && ends_with_slash p then removelast p else p.

(** [split('/')] *)
Fixpoint split_slash (p : Str) : list Str :=
  match p with
  | [] => [[]]
  | b :: p =>
      if b =? SLASH then [] :: split_slash p
      else match split_slash p with w :: ws => (b :: w) :: ws | [] => [[b]] end
  end.

Definition components (p : Str) : list Str := filter (fun w => w <> []) (split_slash p).

Definition DOT : Str := [46].
Definition DOTDOT : Str := [46; 46].

(** The components without [.], where [..] takes the one before away. *)
Definition normal_step (acc : list Str) (c : Str) : list Str :=
  if bool_decide (c = DOTDOT) then removelast acc else if bool_decide (c = DOT) then acc else acc ++ [c].
Definition normalized (cs : list Str) : list Str := foldl normal_step [] cs.

(** Whether a path is at or below a mount point. *)
Definition mount_covers (path m : Str) : bool :=
  bool_decide (m = [SLASH]) || bool_decide (path = m) || starts_with path m && bool_decide (path !! length m = Some SLASH).

Section manager.
Context {N F W : Type} `{VfsNode N F W}.

Definition new_vfs : VfsManager N F := mkVfs [] ∅.

(** [sort_by] on a table that is sorted but for the new entry, which is the last:
    the sort is stable. *)
Fixpoint insert_mount (m : MountPoint F) (ms : list (MountPoint F)) : list (MountPoint F) :=
  match ms with
  | [] => [m]
  | x :: ms => if (length (mnt_path x) <? length (mnt_path m))%nat then m :: x :: ms else x :: insert_mount m ms
  end.

Definition mount (path : Str) (fs : F) (v : VfsManager N F) : VfsManager N F :=
  mkVfs (insert_mount (mkMount (fix_path path) fs) (mounts v)) ∅.

Fixpoint remove_mount (p : Str) (ms : list (MountPoint F)) : option (list (MountPoint F)) :=
  match ms with
  | [] => None
  | m :: ms => if bool_decide (mnt_path m = p) then Some ms else cons m <$> remove_mount p ms
  end.

Definition umount (path : Str) (v : VfsManager N F) : bool * VfsManager N F :=
  match remove_mount (fix_path path) (mounts v) with
  | Some ms => (true, mkVfs ms ∅)
  | None => (false, mkVfs (mounts v) ∅)
  end.

(** [max_by_key] takes the last of the longest. *)
Definition longer (best : option (MountPoint F)) (m : MountPoint F) : option (MountPoint F) :=
  match best with
  | Some b => if (length (mnt_path m) <? length (mnt_path b))%nat then best else Some m
  | None => Some m
  end.

Definition statfs_mount (path : Str) (s : W) (v : VfsManager N F) : option N * VfsManager N F :=
  match mount_cache v !! path with
  | Some n => (Some n, v)
  | None =>
      let best := foldl longer None (filter (fun m => path = mnt_path m \/ starts_with path (mnt_path m) = true) (mounts v)) in
      match best with
      | None => (None, v)
      | Some m =>
          match n_root (mnt_fs m) s with
          | None => (None, v)
          | Some n => (Some n, mkVfs (mounts v) (<[path := n]> (mount_cache v)))
          end
      end
  end.

Definition MAX_SYMLINK_DEPTH : nat := 40.

(** Where a link that is the component before [rest] leads. *)
Definition link_path (mount_path : Str) (comps rest : list Str) (target : Str) : Str :=
  (if starts_with target [SLASH] then target
   else (if bool_decide (mount_path = [SLASH]) then [SLASH] else mount_path ++ [SLASH]) ++
        mjoin ((fun c => c ++ [SLASH]) <$> take (length comps - length rest - 1) comps) ++ target) ++
  mjoin ((fun c => SLASH :: c) <$> rest).

(** The target of a node that is followed. *)
Definition link_target (n : N) (s : W) : option Str :=
  match n_stat n s with
  | Some st => if Z.land (st_mode st) S_IFLNK =? 0 then None else n_readlink n s
  | None => None
  end.

Fixpoint walk (again : Str -> option N) (mount_path : Str) (comps : list Str) (s : W) (current : N) (names : list Str) : option N :=
  match names with
  | [] => Some current
  | c :: rest =>
      if negb (n_is_dir current s) then None
      else
        match n_find_child current c s with
        | None => None
        | Some next =>
            match link_target next s with
            | Some target => again (link_path mount_path comps rest target)
            | None => walk again mount_path comps s next rest
            end
        end
  end.

Definition find_mount (path : Str) (v : VfsManager N F) : option (MountPoint F) :=
  snd <$> list_find (fun m => mount_covers path (mnt_path m) = true) (mounts v).

Definition rel_path (path m : Str) : Str := if bool_decide (m = [SLASH]) then drop 1 path else drop (length m) path.

(** [fuel] is what is left of the depth, and one more. *)
Fixpoint resolve_path_with_depth (fuel : nat) (v : VfsManager N F) (s : W) (path : Str) : option N :=
  match fuel with
  | O => None
  | S fuel =>
      let path := fix_path path in
      m ← find_mount path v;
      current ← n_root (mnt_fs m) s;
      let comps := components (rel_path path (mnt_path m)) in
      walk (resolve_path_with_depth fuel v s) (mnt_path m) comps s current (normalized comps)
  end.

Definition resolve_path (v : VfsManager N F) (s : W) (path : Str) : option N :=
  resolve_path_with_depth (MAX_SYMLINK_DEPTH + 1) v s path.

Definition read_file (v : VfsManager N F) (s : W) (path : Str) : option Str := n ← resolve_path v s path; n_read n s.

(** [str::contains] *)
Fixpoint contains (p pattern : Str) : bool := starts_with p pattern || match p with [] => false | _ :: p => contains p pattern end.

Definition child_path (path name : Str) : Str := if bool_decide (path = [SLASH]) then SLASH :: name else path ++ SLASH :: name.

(** [None] is a search deeper than [fuel]. *)
Fixpoint search_recursive (fuel : nat) (n : N) (path pattern : Str) (s : W) : option (list Str) :=
  match fuel with
  | O => None
  | S fuel =>
      let here := if contains (n_name n s) pattern then [path] else [] in
      match (if n_is_dir n s then n_children n s else None) with
      | None => Some here
      | Some cs =>
          below ← mapM (fun c =>
            let name := n_name c s in
            if bool_decide (name = DOT) || bool_decide (name = DOTDOT) then Some [] else search_recursive fuel c (child_path path name) pattern s) cs;
          Some (here ++ mjoin below)
      end
  end.

Definition search (fuel : nat) (v : VfsManager N F) (s : W) (start pattern : Str) : option (list Str) :=
  match resolve_path v s start with Some n => search_recursive fuel n start pattern s | None => Some [] end.

End manager.

(** ** Canonical paths *)

Definition name_ok (w : Str) : Prop := w <> [] /\ (SLASH ∉ w) /\ w <> DOT /\ w <> DOTDOT.

#[export] Instance name_ok_dec w : Decision (name_ok w).
Proof. unfold name_ok. apply _. Defined.

Definition below (cs : list Str) : Str := mjoin ((fun c => SLASH :: c) <$> cs).
Definition path_of (cs : list Str) : Str := if bool_decide (cs = []) then [SLASH] else below cs.

Lemma below_cons c cs : below (c :: cs) = SLASH :: c ++ below cs.
Proof. done. Qed.

Lemma below_app cs ds : below (cs ++ ds) = below cs ++ below ds.
Proof. unfold below. by rewrite fmap_app, join_app. Qed.

Lemma path_of_below cs : cs <> [] -> path_of cs = below cs.
Proof. intros Hc. unfold path_of. by rewrite bool_decide_eq_false_2. Qed.

Lemma split_slash_nil p : split_slash p <> [].
Proof. destruct p as [|b p]; cbn; [done|]. destruct (b =? SLASH); [done|]. by destruct (split_slash p). Qed.

Lemma split_slash_name w p : (SLASH ∉ w) -> split_slash (w ++ SLASH :: p) = w :: split_slash p.
Proof.
  induction w as [|b w IH]; intros Hw; cbn; [done|]. apply not_elem_of_cons in Hw as [Hb Hw].
  rewrite (proj2 (Z.eqb_neq b SLASH)) by congruence. by rewrite IH.
Qed.

Lemma split_slash_last w : (SLASH ∉ w) -> split_slash w = [w].
Proof.
  induction w as [|b w IH]; intros Hw; cbn; [done|]. apply not_elem_of_cons in Hw as [Hb Hw].
  rewrite (proj2 (Z.eqb_neq b SLASH)) by congruence. by rewrite IH.
Qed.

Lemma split_below cs : Forall name_ok cs -> cs <> [] -> split_slash (below cs) = [] :: cs.
Proof.
  induction 1 as [|c cs (Hc & Hs & _) Hcs IH]; intros Hne; [done|]. rewrite below_cons. cbn [split_slash]. rewrite Z.eqb_refl. f_equal.
  destruct cs as [|c' cs]; [unfold below; cbn; rewrite app_nil_r; by apply split_slash_last|].
  rewrite below_cons, split_slash_name by done. f_equal. specialize (IH ltac:(done)). rewrite below_cons in IH. cbn [split_slash] in IH.
  rewrite Z.eqb_refl in IH. by injection IH.
Qed.

Lemma filter_names cs : Forall name_ok cs -> filter (fun w : Str => w <> []) cs = cs.
Proof. induction 1 as [|c cs (Hc & _) Hcs IH]; [done|]. rewrite filter_cons_True by done. by rewrite IH. Qed.

Lemma components_below cs : Forall name_ok cs -> components (below cs) = cs.
Proof.
  intros Hc. unfold components. destruct cs as [|c cs]; [done|]. rewrite split_below by done.
  rewrite filter_cons_False by (intros Hn; by apply Hn). by apply filter_names.
Qed.

Lemma components_drop1 cs : Forall name_ok cs -> components (drop 1 (path_of cs)) = cs.
Proof.
  intros Hc. destruct cs as [|c cs]; [done|]. rewrite path_of_below by done. unfold components. pose proof (split_below (c :: cs) Hc ltac:(done)) as Hs.
  rewrite below_cons in *. cbn [drop split_slash] in *. rewrite Z.eqb_refl in Hs. injection Hs as Hs. rewrite drop_0, Hs. by apply filter_names.
Qed.

Lemma normalized_ok cs : Forall name_ok cs -> normalized cs = cs.
Proof.
  intros Hc. unfold normalized. rewrite <- (app_nil_l cs) at 2. generalize (@nil Str) as acc.
  induction Hc as [|c cs (_ & _ & H1 & H2) Hcs IH]; intros acc; cbn [foldl]; [by rewrite app_nil_r|].
  unfold normal_step at 2. rewrite !bool_decide_eq_false_2 by done. rewrite IH. by rewrite <- app_assoc.
Qed.

Lemma last_below cs c : Forall name_ok (cs ++ [c]) -> exists x, last (below (cs ++ [c])) = Some x /\ x <> SLASH.
Proof.
  intros Hc. apply Forall_app in Hc as [_ Hc]. apply Forall_singleton in Hc as (Hn & Hs & _).
  rewrite below_app. unfold below at 2. cbn. rewrite app_nil_r. destruct (exists_last Hn) as (w & x & ->). exists x.
  rewrite app_comm_cons, app_assoc, last_snoc. split; [done|]. intros ->. apply Hs. apply elem_of_app. right. by left.
Qed.

Lemma fix_path_of cs : Forall name_ok cs -> fix_path (path_of cs) = path_of cs.
Proof.
  intros Hc. destruct cs as [|c cs]; [done|]. rewrite path_of_below by done. unfold fix_path.
  assert (Hl : ends_with_slash (below (c :: cs)) = false).
  { destruct (exists_last (ltac:(done) : c :: cs <> [])) as (ds & e & E). rewrite E in *. destruct (last_below ds e Hc) as (x & Hx & Hn).
    unfold ends_with_slash. rewrite Hx. apply bool_decide_eq_false_2. congruence. }
  assert (Hs : starts_with (below (c :: cs)) [SLASH] = true) by (apply starts_with_spec; by exists (c ++ below cs)). by rewrite Hs, Hl, andb_false_r.
Qed.

Lemma split_below_app ms p : Forall name_ok ms -> ms <> [] -> split_slash (below ms ++ SLASH :: p) = [] :: ms ++ split_slash p.
Proof.
  induction 1 as [|c cs (Hc & Hs & _) Hcs IH]; intros Hne; [done|]. rewrite below_cons. cbn [app split_slash]. rewrite Z.eqb_refl, <- app_assoc. f_equal.
  destruct cs as [|c' cs]; [by apply split_slash_name|]. specialize (IH ltac:(done)). rewrite below_cons in *. cbn [app split_slash] in *.
  rewrite Z.eqb_refl in IH. injection IH as IH. rewrite split_slash_name by done. by rewrite IH.
Qed.

(** A path is at or below a mount point when its names begin with those of the
    mount point. *)
Lemma starts_below cs ms : Forall name_ok cs -> Forall name_ok ms -> ms <> [] ->
  (below cs = below ms \/ starts_with (below cs) (below ms) = true /\ below cs !! length (below ms) = Some SLASH) <-> ms `prefix_of` cs.
Proof.
  intros Hc Hm Hne. split.
  - intros [E|[E Hn]]; [apply (f_equal components) in E; rewrite !components_below in E by done; by subst|].
    apply starts_with_spec in E as [p E]. unfold Str in *. rewrite E, lookup_app_r, Nat.sub_diag in Hn by lia. destruct p as [|b p]; [done|]. injection Hn as ->.
    apply (f_equal components) in E. rewrite components_below in E by done. subst cs. unfold components. rewrite split_below_app by done.
    rewrite filter_cons_False by (intros H; by apply H). rewrite filter_app, filter_names by done. by eexists.
  - intros [ds ->]. rewrite below_app. destruct ds as [|d ds]; [left; unfold below at 2; cbn; by rewrite app_nil_r|right].
    split; [apply starts_with_spec; by eexists|]. unfold Str in *. rewrite lookup_app_r, Nat.sub_diag by lia. by rewrite below_cons.
Qed.

Lemma path_of_inj cs ds : Forall name_ok cs -> Forall name_ok ds -> path_of cs = path_of ds -> cs = ds.
Proof. intros Hc Hd E. by rewrite <- (components_drop1 cs Hc), E, components_drop1. Qed.

Lemma covers_spec cs ms : Forall name_ok cs -> Forall name_ok ms -> mount_covers (path_of cs) (path_of ms) = bool_decide (ms `prefix_of` cs).
Proof.
  intros Hc Hm. unfold mount_covers. destruct (decide (ms = [])) as [->|Hne].
  { rewrite (bool_decide_eq_true_2 (path_of [] = [SLASH])) by done. symmetry. apply bool_decide_eq_true_2, prefix_nil. }
  rewrite (bool_decide_eq_false_2 (path_of ms = [SLASH])) by (intros E; by apply (path_of_inj ms []) in E).
  cbn [orb]. rewrite (path_of_below ms) by done. destruct (decide (cs = [])) as [->|Hce].
  { rewrite (bool_decide_eq_false_2 (ms `prefix_of` [])) by by intros ?%prefix_nil_inv.
    rewrite (bool_decide_eq_false_2 (path_of [] = _)) by (rewrite <- path_of_below by done; by intros E; apply (path_of_inj [] ms) in E).
    destruct ms as [|m ms]; [done|]. apply Forall_cons in Hm as [(Hn & _) _]. by destruct m. }
  rewrite path_of_below by done. apply eq_iff_eq_true. rewrite orb_true_iff, andb_true_iff, !bool_decide_eq_true. by apply starts_below.
Qed.

Lemma rel_path_of cs ms : Forall name_ok cs -> ms `prefix_of` cs -> components (rel_path (path_of cs) (path_of ms)) = drop (length ms) cs.
Proof.
  intros Hc [ds ->]. apply Forall_app in Hc as Hmd. destruct Hmd as [Hm Hd]. rewrite drop_app_length. unfold rel_path.
  destruct (decide (ms = [])) as [->|Hne]; [by apply components_drop1|].
  rewrite bool_decide_eq_false_2 by (intros E; by apply (path_of_inj ms []) in E).
  rewrite !path_of_below by (try done; intros ?%app_nil; tauto). rewrite below_app, drop_app_length. by apply components_below.
Qed.

(** The ways to write a path: its names with slashes between them, with or without
    one slash in front and one behind. *)
Definition spellings (ms : list Str) : list Str :=
  let body := drop 1 (path_of ms) in [body; SLASH :: body; body ++ [SLASH]; SLASH :: body ++ [SLASH]].

(** The names that a path spells. A path with an empty name, [.] or [..] in it
    spells none. *)
Definition point (p : Str) : option (list Str) :=
  let ms := components p in if bool_decide (Forall name_ok ms /\ p ∈ spellings ms) then Some ms else None.

Lemma path_of_slash ms : path_of ms = SLASH :: drop 1 (path_of ms).
Proof. destruct ms; [done|]. rewrite path_of_below by done. by rewrite below_cons. Qed.

Lemma components_slash p : components (SLASH :: p) = components p.
Proof. unfold components. cbn [split_slash]. rewrite Z.eqb_refl. by rewrite filter_cons_False by (intros Hn; by apply Hn). Qed.

Lemma split_slash_snoc p : exists ws, split_slash (p ++ [SLASH]) = ws ++ [[]] /\ split_slash p = ws.
Proof.
  exists (split_slash p). split; [|done]. induction p as [|b p IH]; [done|]. cbn [app split_slash]. rewrite IH.
  destruct (b =? SLASH); [done|]. pose proof (split_slash_nil p). by destruct (split_slash p).
Qed.

Lemma components_snoc p : components (p ++ [SLASH]) = components p.
Proof.
  unfold components. destruct (split_slash_snoc p) as (ws & -> & ->). rewrite filter_app. cbn. by rewrite decide_False, app_nil_r by (intros Hn; by apply Hn).
Qed.

Lemma components_spelled ms p : Forall name_ok ms -> p ∈ spellings ms -> components p = ms.
Proof.
  intros Hm Hp. unfold spellings in Hp. cbn zeta in Hp.
  repeat (apply elem_of_cons in Hp as [->|Hp]; [by rewrite ?components_slash, ?components_snoc, components_drop1|]). by apply not_elem_of_nil in Hp.
Qed.

Lemma point_spec p ms : point p = Some ms <-> Forall name_ok ms /\ p ∈ spellings ms.
Proof.
  unfold point. cbn zeta. split.
  - case_bool_decide as Hb; [|done]. by intros [= <-].
  - intros [Hm Hp]. rewrite (components_spelled ms p Hm Hp). by rewrite bool_decide_eq_true_2.
Qed.

Lemma removelast_snoc (p : Str) b : removelast (p ++ [b]) = p.
Proof. by rewrite removelast_app, app_nil_r by done. Qed.

Lemma starts_slash p : starts_with p [SLASH] = true <-> exists t, p = SLASH :: t.
Proof. rewrite starts_with_spec. split; intros [t ->]; by exists t. Qed.

Lemma fix_path_slash p : exists t, fix_path p = SLASH :: t.
Proof.
  unfold fix_path. set (q := if starts_with p [SLASH] then p else SLASH :: p).
  assert (Hq : exists t, q = SLASH :: t) by (subst q; destruct (starts_with p [SLASH]) eqn:E; [by apply starts_slash|by eexists]).
  destruct Hq as [t Ht]. cbn zeta. rewrite Ht. destruct t as [|b t]; [by eexists|]. destruct (_ && _); [|by eexists]. cbn. by eexists.
Qed.

(** What is left of a path after a slash at its end is taken off. *)
Lemma fix_path_cut p x : fix_path p = x ->
  let q := if starts_with p [SLASH] then p else SLASH :: p in q = x \/ q = x ++ [SLASH].
Proof.
  unfold fix_path. cbn zeta. set (q := if starts_with p [SLASH] then p else SLASH :: p). destruct (1 <? length q)%nat; cbn [andb]; [|by left].
  destruct (ends_with_slash q) eqn:He; [|by left]. intros <-. right. unfold ends_with_slash in He. apply bool_decide_eq_true in He.
  apply last_Some in He as [r ->]. by rewrite removelast_snoc.
Qed.

Lemma fix_path_canonical p ms : Forall name_ok ms -> fix_path p = path_of ms <-> p ∈ spellings ms.
Proof.
  intros Hm. unfold spellings. cbn zeta. set (body := drop 1 (path_of ms)). pose proof (path_of_slash ms) as Hb. fold body in Hb.
  assert (Hfix : fix_path (SLASH :: body ++ [SLASH]) = path_of ms).
  { unfold fix_path, ends_with_slash. rewrite (proj2 (starts_slash _)) by by eexists. cbn zeta. rewrite app_comm_cons, last_snoc, <- Hb, removelast_snoc.
    rewrite bool_decide_eq_true_2, andb_true_r by done. rewrite length_app, Hb. cbn [length]. by rewrite (proj2 (Nat.ltb_lt 1 _)) by lia. }
  assert (Hns : body = [] \/ starts_with (body ++ [SLASH]) [SLASH] = false /\ starts_with body [SLASH] = false).
  { subst body. destruct Hm as [|c cs (Hc & Hs & _)]; [by left|right]. rewrite path_of_below, below_cons by done. destruct c as [|b c]; [done|].
    apply not_elem_of_cons in Hs as [Hs _]. split; apply not_true_is_false; intros [t Ht]%starts_slash; by injection Ht. }
  assert (Hadd : forall q, starts_with q [SLASH] = false -> fix_path q = fix_path (SLASH :: q)).
  { intros q Hq. unfold fix_path. rewrite Hq. by rewrite (proj2 (starts_slash (SLASH :: q))) by by eexists. }
  split.
  - intros E. apply fix_path_cut in E. cbn zeta in E. destruct (starts_with p [SLASH]); rewrite Hb in E.
    + destruct E as [->| ->]; [right; left|]. right. right. right. by left.
    + destruct E as [[= ->]|[= ->]]; [by left|]. right. right. by left.
  - rewrite !elem_of_cons, elem_of_nil. intros [->|[->|[->|[->|[]]]]]; [| |destruct Hns as [->|[Hns _]]|done].
    + destruct Hns as [E|[_ Hns]]; [by rewrite E in *|]. by rewrite Hadd, <- Hb, fix_path_of.
    + by rewrite <- Hb, fix_path_of.
    + done.
    + by rewrite Hadd.
Qed.

(** A path as the table keeps it that spells names. *)
Definition canonical (x : Str) : bool := bool_decide (Forall name_ok (components x) /\ path_of (components x) = x).

Lemma canonical_of ms : Forall name_ok ms -> canonical (path_of ms) = true.
Proof.
  intros Hm. apply bool_decide_eq_true_2. assert (E : components (path_of ms) = ms) by (rewrite path_of_slash, components_slash; by apply components_drop1).
  by rewrite E.
Qed.

Lemma canonical_fix p : canonical (fix_path p) = true <-> exists ms, point p = Some ms /\ fix_path p = path_of ms.
Proof.
  split.
  - intros [Hm E]%bool_decide_eq_true. exists (components (fix_path p)). split; [|done]. apply point_spec. split; [done|]. by apply fix_path_canonical.
  - intros (ms & [Hm _]%point_spec & ->). by apply canonical_of.
Qed.

Lemma fix_path_point p ms : point p = Some ms -> fix_path p = path_of ms.
Proof. intros [Hm Hp]%point_spec. by apply fix_path_canonical. Qed.

(** Only a mount point that is canonical is above a canonical path. *)
Lemma below_cut cs m p : Forall name_ok cs -> below cs = m ++ SLASH :: p -> exists ms, ms `prefix_of` cs /\ m = below ms.
Proof.
  intros Hc. revert m. induction Hc as [|c cs (Hn & Hs & _) Hcs IH]; intros m E; [by destruct m|].
  destruct m as [|b m]; [exists []; split; [apply prefix_nil|done]|]. rewrite below_cons in E. cbn [app] in E. injection E as <- E.
  apply app_eq_inv in E as [(l & Ec & E)|(l & -> & E)].
  - destruct l as [|b l]; [exists [c]; split; [by exists cs|rewrite below_cons, Ec; unfold below; cbn; by rewrite !app_nil_r]|]. subst c.
    injection E as <- _. exfalso. apply Hs. apply elem_of_app. right. by left.
  - destruct (IH l E) as (ms & [ds ->] & ->). exists (c :: ms). split; [by exists ds|done].
Qed.

Lemma covers_canonical cs m : Forall name_ok cs -> (exists t, m = SLASH :: t) -> mount_covers (path_of cs) m = true -> canonical m = true.
Proof.
  intros Hc [t Ht]. unfold mount_covers. rewrite !orb_true_iff, andb_true_iff, !bool_decide_eq_true. intros [[->|<-]|[Hs Hl]].
  - apply (canonical_of []). constructor.
  - by apply canonical_of.
  - apply starts_with_spec in Hs as [p E]. unfold Str in *. rewrite E, lookup_app_r, Nat.sub_diag in Hl by lia. destruct p as [|b p]; [done|]. injection Hl as ->.
    destruct (decide (cs = [])) as [->|Hne]; [rewrite Ht in E; by destruct t|]. rewrite path_of_below in E by done.
    destruct (below_cut cs m p Hc E) as (ms & [ds ->] & ->). apply Forall_app in Hc as [Hm _].
    destruct ms as [|c ms]; [done|]. rewrite <- path_of_below by done. by apply canonical_of.
Qed.

(** ** The name space

    Mount points are lists of names here, and the table keeps the order of the
    mounts.  A path belongs to the longest mount point above it, and to the first
    of those that are mounted at the same point.  A mount at a path that spells no
    names is at no point of the name space. *)

Section namespace.
Context {N F W : Type} `{VfsNode N F W}.

Definition pick (cs : list Str) (best : option (list Str * F)) (e : list Str * F) : option (list Str * F) :=
  if bool_decide (e.1 `prefix_of` cs) && match best with Some b => (length b.1 <? length e.1)%nat | None => true end then Some e else best.
Definition ns_mount (t : list (list Str * F)) (cs : list Str) : option (list Str * F) := foldl (pick cs) None t.

(** Down from [current] in the directory [dir]; a link leads on from the
    directory that it is in. *)
Fixpoint ns_walk (again : Str -> option N) (s : W) (dir : list Str) (current : N) (names : list Str) : option N :=
  match names with
  | [] => Some current
  | c :: rest =>
      if n_is_dir current s then
        next ← n_find_child current c s;
        match link_target next s with
        | Some target => again ((if starts_with target [SLASH] then target else below dir ++ SLASH :: target) ++ below rest)
        | None => ns_walk again s (dir ++ [c]) next rest
        end
      else None
  end.

Definition ns_resolve (again : Str -> option N) (t : list (list Str * F)) (s : W) (cs : list Str) : option N :=
  '(ms, f) ← ns_mount t cs;
  r ← n_root f s;
  ns_walk again s ms r (drop (length ms) cs).

(** Mounts and unmounts, by any path. *)
Inductive MountOp := DoMount (path : Str) (f : F) | DoUmount (path : Str).

Fixpoint remove_first (ms : list Str) (t : list (list Str * F)) : option (list (list Str * F)) :=
  match t with
  | [] => None
  | e :: t => if bool_decide (e.1 = ms) then Some t else cons e <$> remove_first ms t
  end.

Definition mount_step (v : VfsManager N F) (op : MountOp) : VfsManager N F :=
  match op with DoMount path f => mount path f v | DoUmount path => (umount path v).2 end.
Definition ns_step (t : list (list Str * F)) (op : MountOp) : list (list Str * F) :=
  match op with
  | DoMount path f => match point path with Some ms => t ++ [(ms, f)] | None => t end
  | DoUmount path => match point path with Some ms => default t (remove_first ms t) | None => t end
  end.

Definition conc (e : list Str * F) : MountPoint F := mkMount (path_of e.1) e.2.
Definition sort_mounts (t : list (list Str * F)) : list (MountPoint F) := foldl (fun l e => insert_mount (conc e) l) [] t.

Definition mlen (m : MountPoint F) : nat := length (mnt_path m).
Fixpoint desc (l : list (MountPoint F)) : Prop := match l with [] => True | x :: l => Forall (fun y => mlen y <= mlen x)%nat l /\ desc l end.

Lemma insert_elem (m : MountPoint F) (l : list (MountPoint F)) x : x ∈ insert_mount m l -> x = m \/ x ∈ l.
Proof.
  induction l as [|y l IH]; cbn [insert_mount]; [by intros ?%list_elem_of_singleton; left|]. case_match; [by intros [->|?]%elem_of_cons; [left|right]|].
  intros [->|Hx]%elem_of_cons; [right; left|]. destruct (IH Hx); [by left|by right; right].
Qed.

Lemma insert_desc (m : MountPoint F) (l : list (MountPoint F)) : desc l -> desc (insert_mount m l).
Proof.
  induction l as [|x l IH]; cbn [insert_mount]; [done|]. intros [Hx Hl]. destruct (Nat.ltb_spec (length (mnt_path x)) (length (mnt_path m))).
  - split; [|done]. constructor; [unfold mlen; lia|]. eapply Forall_impl; [exact Hx|]. unfold mlen. cbn. lia.
  - split; [|by apply IH]. apply Forall_forall. intros y Hy. apply insert_elem in Hy as [->|Hy]; [done|]. by eapply Forall_forall in Hx.
Qed.

Lemma sort_mounts_snoc t e : sort_mounts (t ++ [e]) = insert_mount (conc e) (sort_mounts t).
Proof. unfold sort_mounts. by rewrite foldl_app. Qed.

Lemma sort_desc t : desc (sort_mounts t).
Proof. induction t as [|e t IH] using rev_ind; [done|]. rewrite sort_mounts_snoc. by apply insert_desc. Qed.

Definition first_of (P : MountPoint F -> bool) (l : list (MountPoint F)) : option (MountPoint F) := snd <$> list_find (fun m => P m = true) l.

Lemma first_cons P x l : first_of P (x :: l) = if P x then Some x else first_of P l.
Proof.
  unfold first_of. cbn [list_find]. destruct (P x) eqn:Hx; [by rewrite decide_True by done|rewrite decide_False by congruence].
  by destruct (list_find _ l) as [[]|].
Qed.

Lemma first_elem P l x : first_of P l = Some x -> x ∈ l.
Proof. induction l as [|y l IH]; [done|]. rewrite first_cons. destruct (P y); [intros [= ->]; left|right; auto]. Qed.

Lemma first_insert P (m : MountPoint F) (l : list (MountPoint F)) : desc l ->
  first_of P (insert_mount m l) =
    if P m && match first_of P l with Some b => (mlen b <? mlen m)%nat | None => true end then Some m else first_of P l.
Proof.
  induction l as [|x l IH]; intros Hd; [cbn [insert_mount]; rewrite first_cons; by destruct (P m)|]. destruct Hd as [Hx Hl]. cbn [insert_mount].
  change (length (mnt_path x)) with (mlen x). change (length (mnt_path m)) with (mlen m). destruct (Nat.ltb_spec (mlen x) (mlen m)) as [Hlt|Hge].
  - rewrite first_cons. destruct (P m); [|done]. cbn [andb]. destruct (first_of P (x :: l)) as [b|] eqn:Hb; [|done].
    apply first_elem in Hb. rewrite (proj2 (Nat.ltb_lt _ _)); [done|].
    apply elem_of_cons in Hb as [->|Hb]; [done|]. rewrite Forall_forall in Hx. specialize (Hx b Hb). cbn in Hx. lia.
  - rewrite !first_cons. destruct (P x); [|by apply IH]. by rewrite (proj2 (Nat.ltb_ge _ _)), andb_false_r by lia.
Qed.

Lemma remove_shorter p (l : list (MountPoint F)) : Forall (fun y => mlen y < length p)%nat l -> remove_mount p l = None.
Proof.
  induction 1 as [|x l Hx Hl IH]; [done|]. cbn. rewrite bool_decide_eq_false_2; [by rewrite IH|]. intros <-. unfold mlen in Hx. lia.
Qed.

Lemma remove_elem p (l : list (MountPoint F)) l' x : remove_mount p l = Some l' -> x ∈ l' -> x ∈ l.
Proof.
  revert l'. induction l as [|y l IH]; intros l'; cbn; [done|]. case_bool_decide; [intros [= ->]; by right|].
  destruct (remove_mount p l) as [l1|]; [|done]. intros [= <-] [->|Hx]%elem_of_cons; [left|right; by eapply IH].
Qed.

Lemma insert_front (m : MountPoint F) (l : list (MountPoint F)) : Forall (fun y => mlen y < mlen m)%nat l -> insert_mount m l = m :: l.
Proof. destruct 1 as [|x l Hx Hl]; [done|]. cbn [insert_mount]. unfold mlen in Hx. by rewrite (proj2 (Nat.ltb_lt _ _)). Qed.

Lemma remove_insert p (m : MountPoint F) (l : list (MountPoint F)) : desc l ->
  remove_mount p (insert_mount m l) =
    match remove_mount p l with Some l' => Some (insert_mount m l') | None => if bool_decide (mnt_path m = p) then Some l else None end.
Proof.
  induction l as [|x l IH]; intros Hd; [cbn; by case_bool_decide|]. destruct Hd as [Hx Hl]. cbn [insert_mount].
  destruct (Nat.ltb_spec (length (mnt_path x)) (length (mnt_path m))) as [Hlt|Hge].
  - assert (Hs : Forall (fun y => mlen y < mlen m)%nat (x :: l)) by (constructor; [done|]; eapply Forall_impl; [exact Hx|]; unfold mlen in *; cbn; lia).
    change (remove_mount p (m :: x :: l)) with (if bool_decide (mnt_path m = p) then Some (x :: l) else cons m <$> remove_mount p (x :: l)). case_bool_decide as Hm; [subst p; by rewrite remove_shorter|].
    destruct (remove_mount p (x :: l)) as [l'|] eqn:Hr; [|done]. cbn. rewrite insert_front; [done|]. apply Forall_forall. intros y Hy.
    rewrite Forall_forall in Hs. apply Hs. by eapply remove_elem.
  - cbn [remove_mount]. destruct (bool_decide (mnt_path x = p)); [done|]. rewrite IH by done. destruct (remove_mount p l) as [l'|]; cbn [fmap option_fmap option_map insert_mount].
    + by rewrite (proj2 (Nat.ltb_ge _ _)).
    + by destruct (bool_decide _).
Qed.

Lemma remove_first_snoc ms t e :
  remove_first ms (t ++ [e]) = match remove_first ms t with Some t' => Some (t' ++ [e]) | None => if bool_decide (e.1 = ms) then Some t else None end.
Proof.
  induction t as [|x t IH]; [cbn; by case_bool_decide|]. cbn [remove_first app]. destruct (bool_decide (x.1 = ms)); [done|].
  rewrite IH. destruct (remove_first ms t); [done|]. by destruct (bool_decide _).
Qed.

Definition points_ok (t : list (list Str * F)) : Prop := Forall (fun e => Forall name_ok e.1) t.

Lemma remove_sorted ms t : Forall name_ok ms -> points_ok t -> remove_mount (path_of ms) (sort_mounts t) = sort_mounts <$> remove_first ms t.
Proof.
  intros Hm. induction t as [|e t IH] using rev_ind; intros Ht; [done|]. apply Forall_app in Ht as [Ht He]. apply Forall_cons in He as [He _].
  rewrite sort_mounts_snoc, remove_insert, remove_first_snoc, IH by (done || apply sort_desc). destruct (remove_first ms t) as [t'|]; cbn [fmap option_fmap option_map].
  - by rewrite sort_mounts_snoc.
  - rewrite (bool_decide_ext (mnt_path (conc e) = path_of ms) (e.1 = ms)); [by case_bool_decide|]. unfold conc. cbn [mnt_path]. split; [intros E; exact (path_of_inj _ _ He Hm E)|by intros ->].
Qed.

Lemma prefix_shorter {A} (l1 l2 l : list A) : l1 `prefix_of` l -> l2 `prefix_of` l -> (length l1 <= length l2)%nat -> l1 `prefix_of` l2.
Proof. intros H1 H2 Hl. destruct (prefix_weak_total l1 l2 l H1 H2) as [|Hp]; [done|]. by rewrite (prefix_length_eq l2 l1 Hp Hl). Qed.

(** Of two mount points above a path the longer in bytes is the longer in names. *)
Lemma path_length cs ms ms' : ms `prefix_of` cs -> ms' `prefix_of` cs -> Forall name_ok cs ->
  (length (path_of ms) <? length (path_of ms'))%nat = (length ms <? length ms')%nat.
Proof.
  assert (Hlt : forall a b : list Str, a `prefix_of` b -> (length a < length b)%nat -> Forall name_ok b -> (length (path_of a) < length (path_of b))%nat).
  { intros a b [ds ->] Hl Hb. rewrite length_app in Hl. destruct ds as [|d ds]; [cbn in Hl; lia|]. apply Forall_app in Hb as [_ [(Hd & _) _]%Forall_cons].
    rewrite (path_of_below (a ++ d :: ds)) by (by intros [_ ?]%app_nil). rewrite below_app, below_cons, length_app. destruct a as [|c a].
    - cbn. destruct d; [done|]. rewrite length_app. cbn. lia.
    - rewrite path_of_below by done. cbn. lia. }
  intros [d1 E1] [d2 E2] Hc. destruct (Nat.lt_trichotomy (length ms) (length ms')) as [Hl|[Hl|Hl]].
  - rewrite !(proj2 (Nat.ltb_lt _ _)); [done|done|]. apply Hlt; [|done|rewrite E2 in Hc; by apply Forall_app in Hc as [? _]].
    apply (prefix_shorter _ _ cs); [by exists d1|by exists d2|lia].
  - assert (ms = ms') as -> by (subst cs; apply app_inj_1 in E2; tauto). by rewrite !Nat.ltb_irrefl.
  - rewrite !(proj2 (Nat.ltb_ge _ _)); [done|lia|]. apply Nat.lt_le_incl, Hlt; [|done|rewrite E1 in Hc; by apply Forall_app in Hc as [? _]].
    apply (prefix_shorter _ _ cs); [by exists d2|by exists d1|lia].
Qed.

Lemma find_mount_best (v : VfsManager N F) t cs : mounts v = sort_mounts t -> points_ok t -> Forall name_ok cs -> find_mount (path_of cs) v = conc <$> ns_mount t cs.
Proof.
  intros Hv Ht Hc. unfold find_mount. rewrite Hv. fold (first_of (fun m => mount_covers (path_of cs) (mnt_path m)) (sort_mounts t)). clear Hv.
  assert (Hin : forall t b, ns_mount t cs = Some b -> b.1 `prefix_of` cs).
  { intros t' b. induction t' as [|e t' IH] using rev_ind; [done|]. unfold ns_mount. rewrite foldl_app. cbn [foldl]. unfold pick at 1.
    destruct (bool_decide_reflect (e.1 `prefix_of` cs)); cbn [andb]; [|by apply IH]. destruct (match _ with Some _ => _ | None => _ end); [by intros [= <-]|by apply IH]. }
  induction t as [|e t IH] using rev_ind; [done|]. apply Forall_app in Ht as [Ht He]. apply Forall_cons in He as [He _]. cbn in He.
  rewrite sort_mounts_snoc, first_insert, IH by (done || apply sort_desc). unfold ns_mount. rewrite foldl_app. cbn [foldl]. fold (ns_mount t cs). unfold pick.
  change (mnt_path (conc e)) with (path_of e.1). rewrite covers_spec by done.
  destruct (bool_decide_reflect (e.1 `prefix_of` cs)) as [Hp|]; cbn [andb]; [|done]. destruct (ns_mount t cs) as [b|] eqn:Hb; [|done].
  cbn [fmap option_fmap option_map]. unfold mlen, conc. cbn [mnt_path]. rewrite (path_length cs b.1 e.1) by (done || by apply (Hin t)). by destruct (_ <? _)%nat.
Qed.

Lemma slash_join ds target : SLASH :: mjoin ((fun c => c ++ [SLASH]) <$> ds) ++ target = below ds ++ SLASH :: target.
Proof.
  induction ds as [|d ds IH]; [done|]. rewrite below_cons. change (mjoin ((fun c : list Z => c ++ [SLASH]) <$> d :: ds)) with ((d ++ [SLASH]) ++ mjoin ((fun c : list Z => c ++ [SLASH]) <$> ds)).
  rewrite <- app_comm_cons, <- !app_assoc. by rewrite <- IH.
Qed.

Lemma link_path_of ms ds c rest target :
  Forall name_ok ms -> link_path (path_of ms) (ds ++ c :: rest) rest target =
    (if starts_with target [SLASH] then target else below (ms ++ ds) ++ SLASH :: target) ++ below rest.
Proof.
  intros Hm. unfold link_path. f_equal. destruct (starts_with target [SLASH]); [done|].
  replace (length (ds ++ c :: rest) - length rest - 1)%nat with (length ds) by (rewrite length_app; cbn; lia). rewrite take_app_length.
  rewrite below_app, <- app_assoc, <- slash_join. destruct (decide (ms = [])) as [->|Hne]; [done|].
  rewrite bool_decide_eq_false_2 by (intros E; by apply (path_of_inj ms []) in E). by rewrite path_of_below, <- app_assoc.
Qed.

Lemma walk_refines again ms s : Forall name_ok ms ->
  forall names ds comps current, comps = ds ++ names -> walk again (path_of ms) comps s current names = ns_walk again s (ms ++ ds) current names.
Proof.
  intros Hm names. induction names as [|c rest IH]; intros ds comps current ->; cbn [walk ns_walk]; [done|].
  destruct (n_is_dir current s); cbn [negb]; [|done]. destruct (n_find_child current c s) as [next|]; [|done]. cbn.
  destruct (link_target next s) as [target|]; [by rewrite link_path_of|].
  rewrite (IH (ds ++ [c])) by by rewrite <- app_assoc. by rewrite app_assoc.
Qed.

Lemma ns_mount_elem t cs b : ns_mount t cs = Some b -> b ∈ t /\ b.1 `prefix_of` cs.
Proof.
  induction t as [|e t IH] using rev_ind; [done|]. unfold ns_mount. rewrite foldl_app. cbn [foldl]. fold (ns_mount t cs). unfold pick.
  destruct (bool_decide_reflect (e.1 `prefix_of` cs)) as [Hp|]; cbn [andb].
  - destruct (match ns_mount t cs with Some _ => _ | None => _ end); [intros [= <-]; split; [apply elem_of_app; right; by left|done]|].
    intros Hb. destruct (IH Hb). split; [apply elem_of_app; by left|done].
  - intros Hb. destruct (IH Hb). split; [apply elem_of_app; by left|done].
Qed.

(** *** The part of the table that is at points of the name space *)

Definition seen (l : list (MountPoint F)) : list (MountPoint F) := List.filter (fun m => canonical (mnt_path m)) l.

Lemma seen_elem l x : x ∈ seen l -> x ∈ l.
Proof. unfold seen. rewrite !list_elem_of_In, filter_In. tauto. Qed.

Lemma seen_insert (m : MountPoint F) l : desc l ->
  seen (insert_mount m l) = if canonical (mnt_path m) then insert_mount m (seen l) else seen l.
Proof.
  induction l as [|x l IH]; intros Hd; [cbn; by destruct (canonical _)|]. destruct Hd as [Hx Hl]. cbn [insert_mount].
  destruct (Nat.ltb_spec (length (mnt_path x)) (length (mnt_path m))) as [Hlt|Hge].
  - change (seen (m :: x :: l)) with (if canonical (mnt_path m) then m :: seen (x :: l) else seen (x :: l)). destruct (canonical (mnt_path m)); [|done].
    symmetry. apply insert_front. apply Forall_forall. intros y [->|Hy]%seen_elem%elem_of_cons; [done|]. rewrite Forall_forall in Hx.
    specialize (Hx y Hy). unfold mlen in *. cbn in *. lia.
  - unfold seen in *. cbn [List.filter]. rewrite IH by done. destruct (canonical (mnt_path x)); [|done]. destruct (canonical (mnt_path m)); [|done].
    cbn [insert_mount]. by rewrite (proj2 (Nat.ltb_ge _ _)).
Qed.

Lemma seen_remove p (l : list (MountPoint F)) : canonical p = true -> remove_mount p (seen l) = seen <$> remove_mount p l.
Proof.
  intros Hc. induction l as [|x l IH]; [done|]. unfold seen in *. cbn [remove_mount List.filter]. case_bool_decide as Hp.
  - rewrite Hp, Hc. cbn [remove_mount]. by rewrite bool_decide_eq_true_2.
  - destruct (canonical (mnt_path x)) eqn:Hx; [cbn [remove_mount]; rewrite bool_decide_eq_false_2 by done|]; rewrite IH.
    all: destruct (remove_mount p l); cbn [fmap option_fmap option_map List.filter]; by rewrite ?Hx.
Qed.

Lemma seen_remove_other p (l : list (MountPoint F)) l' : canonical p = false -> remove_mount p l = Some l' -> seen l' = seen l.
Proof.
  intros Hc. revert l'. induction l as [|x l IH]; intros l'; [done|]. unfold seen in *. cbn [remove_mount List.filter]. case_bool_decide as Hp.
  - intros [= ->]. by rewrite Hp, Hc.
  - destruct (remove_mount p l) as [l1|]; [|done]. intros [= <-]. cbn [List.filter]. by rewrite (IH l1).
Qed.

Lemma remove_desc p (l : list (MountPoint F)) l' : desc l -> remove_mount p l = Some l' -> desc l'.
Proof.
  revert l'. induction l as [|x l IH]; intros l' Hd; cbn [remove_mount]; [done|]. destruct Hd as [Hx Hl]. case_bool_decide; [by intros [= <-]|].
  destruct (remove_mount p l) as [l1|] eqn:Hr; [|done]. intros [= <-]. split; [|by apply IH]. apply Forall_forall. intros y Hy.
  rewrite Forall_forall in Hx. apply Hx. by eapply remove_elem.
Qed.

Lemma first_seen P (l : list (MountPoint F)) :
  (forall x, x ∈ l -> P x = true -> canonical (mnt_path x) = true) -> first_of P l = first_of P (seen l).
Proof.
  induction l as [|x l IH]; intros Hl; [done|]. unfold seen in *. cbn [List.filter]. rewrite first_cons. specialize (Hl x ltac:(by left)) as Hx.
  assert (Hr : first_of P l = first_of P (List.filter (fun m => canonical (mnt_path m)) l)) by (apply IH; intros y Hy; apply Hl; by right).
  destruct (canonical (mnt_path x)); [by rewrite first_cons, Hr|]. destruct (P x); [by specialize (Hx eq_refl)|done].
Qed.

(** The table and the name space. *)
Definition table_is (l : list (MountPoint F)) (t : list (list Str * F)) : Prop :=
  desc l /\ Forall (fun m => exists r, mnt_path m = SLASH :: r) l /\ seen l = sort_mounts t /\ points_ok t.

Lemma mount_is path f (v : VfsManager N F) t : table_is (mounts v) t -> table_is (mounts (mount path f v)) (ns_step t (DoMount path f)).
Proof.
  intros (Hd & Hs & Hm & Hp). cbn [mount mounts ns_step]. split; [by apply insert_desc|]. split.
  { apply Forall_forall. intros x [->|Hx]%insert_elem; [apply fix_path_slash|]. rewrite Forall_forall in Hs. by apply Hs. }
  rewrite seen_insert, Hm by done. cbn [mnt_path]. destruct (point path) as [ms|] eqn:Hpt.
  - assert (Hc : canonical (fix_path path) = true) by (apply canonical_fix; exists ms; split; [done|by apply fix_path_point]). rewrite Hc.
    rewrite (fix_path_point path ms Hpt), sort_mounts_snoc. split; [done|]. apply Forall_app. split; [done|]. constructor; [|done]. by apply point_spec in Hpt as [? _].
  - destruct (canonical (fix_path path)) eqn:Hc; [|done]. apply canonical_fix in Hc as (ms & ? & _). congruence.
Qed.

Lemma remove_first_ok ms t t' : points_ok t -> remove_first ms t = Some t' -> points_ok t'.
Proof.
  intros Hp. revert t'. induction Hp as [|e t He Ht IHt]; intros t'; cbn; [done|]. case_bool_decide; [by intros [= <-]|].
  destruct (remove_first ms t); [|done]. intros [= <-]. constructor; [done|by apply IHt].
Qed.

Lemma umount_is path (v : VfsManager N F) t : table_is (mounts v) t -> table_is (mounts (umount path v).2) (ns_step t (DoUmount path)).
Proof.
  intros (Hd & Hs & Hm & Hp). assert (E : mounts (umount path v).2 = default (mounts v) (remove_mount (fix_path path) (mounts v))).
  { unfold umount. by destruct (remove_mount _ _). }
  rewrite E. unfold table_is. split_and!.
  - destruct (remove_mount _ _) as [l|] eqn:Hr; [|done]. by eapply remove_desc.
  - destruct (remove_mount _ _) as [l|] eqn:Hr; [|done]. apply Forall_forall. intros x Hx. rewrite Forall_forall in Hs. apply Hs. by eapply remove_elem.
  - cbn [ns_step]. destruct (point path) as [ms|] eqn:Hpt.
    + apply point_spec in Hpt as Hok. destruct Hok as [Hok _]. pose proof (seen_remove (path_of ms) (mounts v) (canonical_of ms Hok)) as Hr.
      rewrite Hm, remove_sorted in Hr by done. rewrite (fix_path_point path ms Hpt).
      destruct (remove_mount (path_of ms) (mounts v)), (remove_first ms t); cbn [fmap option_fmap option_map] in Hr; by simplify_eq.
    + assert (Hc : canonical (fix_path path) = false) by (apply not_true_is_false; intros (ms & ? & _)%canonical_fix; congruence).
      destruct (remove_mount _ _) as [l|] eqn:Hr; [|done]. unfold default, id. cbn [from_option]. by rewrite (seen_remove_other _ _ _ Hc Hr).
  - cbn [ns_step]. destruct (point path) as [ms|]; [|done]. destruct (remove_first ms t) eqn:Hr; [by eapply remove_first_ok|done].
Qed.

Lemma runs_is ops : table_is (mounts (foldl mount_step (new_vfs : VfsManager N F) ops)) (foldl ns_step [] ops).
Proof.
  induction ops as [|op ops IH] using rev_ind; [by split_and!; [..|constructor]|]. rewrite !foldl_app. cbn [foldl].
  destruct op; [by apply mount_is|by apply umount_is].
Qed.

(** C37. Path resolution refines a name space of mount points. After any mounts and
    unmounts, by any paths, take a path that spells names: without empty names,
    [.] and [..], and with or without a slash in front and one behind. It leads
    into the file system of the longest mount point above it, by names and not by
    characters, and of equal ones the first that is still mounted; it goes down
    from the root of that by one name after the other, and a symbolic link that it
    meets leads on from the directory that the link is in, with the rest of the
    path behind. A path with a symbolic link to follow is resolved at the next
    depth, forty of them at most. A mount at a path that spells no names, such as
    one with two slashes behind, is above no path that does. *)
Theorem vfs_resolve_refines ops path cs (s : W) fuel :
  point path = Some cs ->
  let v := foldl mount_step new_vfs ops in
  resolve_path_with_depth (S fuel) v s path = ns_resolve (resolve_path_with_depth fuel v s) (foldl ns_step [] ops) s cs.
Proof.
  intros Hpt v. pose proof (runs_is ops) as (Hd & Hs & Hm & Hp). fold v in Hd, Hs, Hm. apply point_spec in Hpt as Hc. destruct Hc as [Hc _].
  cbn [resolve_path_with_depth]. rewrite (fix_path_point path cs Hpt).
  assert (Hf : find_mount (path_of cs) v = conc <$> ns_mount (foldl ns_step [] ops) cs).
  { rewrite <- (find_mount_best (mkVfs (sort_mounts (foldl ns_step [] ops)) ∅)) by done.
    transitivity (first_of (fun m => mount_covers (path_of cs) (mnt_path m)) (mounts v)); [done|]. rewrite first_seen; [by rewrite Hm|].
    intros x Hx. rewrite Forall_forall in Hs. by apply covers_canonical, Hs. }
  rewrite Hf. unfold ns_resolve.
  destruct (ns_mount _ cs) as [[ms f]|] eqn:Hb; [|done]. apply ns_mount_elem in Hb as [Hin Hpre]. unfold points_ok in Hp. rewrite Forall_forall in Hp.
  specialize (Hp _ Hin). cbn in Hp, Hpre |- *. destruct (n_root f s) as [r|]; [|done]. cbn.
  assert (Hn : Forall name_ok (drop (length ms) cs)) by (destruct Hpre as [ds ->]; rewrite drop_app_length; by apply Forall_app in Hc as [_ ?]).
  rewrite rel_path_of, normalized_ok by done. rewrite (walk_refines _ ms s Hp _ []) by done. by rewrite app_nil_r.
Qed.

(** Whatever the path holds, links and [..] included, it leads to a node below
    the root of a mounted file system. *)
Inductive reach (s : W) : N -> N -> Prop :=
| reach_here n : reach s n n
| reach_down n c next m : n_is_dir n s = true -> n_find_child n c s = Some next -> reach s next m -> reach s n m.

Lemma walk_confined again mp comps s : forall names cur n, walk again mp comps s cur names = Some n -> reach s cur n \/ exists p, again p = Some n.
Proof.
  induction names as [|c rest IH]; intros cur n; cbn [walk]; [intros [= ->]; left; constructor|].
  destruct (n_is_dir cur s) eqn:Hd; cbn [negb]; [|done]. destruct (n_find_child cur c s) as [next|] eqn:Hn; [|done].
  destruct (link_target next s); [eauto|]. intros Hw. destruct (IH _ _ Hw); [left; by econstructor|by right].
Qed.

Lemma resolve_confined fuel (v : VfsManager N F) s path n : resolve_path_with_depth fuel v s path = Some n ->
  exists m r, m ∈ mounts v /\ n_root (mnt_fs m) s = Some r /\ reach s r n.
Proof.
  revert path. induction fuel as [|fuel IH]; intros path; cbn [resolve_path_with_depth]; [done|].
  destruct (find_mount _ v) as [m|] eqn:Hm; [|done]. cbn. destruct (n_root (mnt_fs m) s) as [r|] eqn:Hr; [|done]. cbn.
  intros Hw. apply walk_confined in Hw as [Hw|[p Hp]]; [|by eapply IH]. exists m, r. split; [|done].
  apply (first_elem (fun m => mount_covers (fix_path path) (mnt_path m))). exact Hm.
Qed.

End namespace.
