(* ===== verification/Tmpfs.v ===== *)
(** * The file system in memory

    Model of [crates/vfs/src/ramfs.rs].  Nodes are shared by reference: a node is
    an address in a store here, which only grows; a node that nothing refers to any
    more stays in it.  The locks of a node are taken and released inside of an
    operation, and every file system is used under the lock of the VFS. *)

From stdpp Require Import gmap.
From Stdlib Require Import String.
From S2P Require Import Prelude Landlock Lsm Vfs.

Record TmpNode := mkNode {
  t_name : Str; t_is_dir : bool; t_is_symlink : bool; t_link_target : option Str; t_content : Str; t_children : list nat;
  t_mode : Z; t_uid : Z; t_gid : Z; t_nlink : Z; t_atime_nsec : Z; t_mtime_nsec : Z; t_ctime_nsec : Z }.

Abbreviation Heap := (list TmpNode).

Definition set_content (b : Str) (t : TmpNode) : TmpNode :=
  mkNode (t_name t) (t_is_dir t) (t_is_symlink t) (t_link_target t) b (t_children t) (t_mode t) (t_uid t) (t_gid t) (t_nlink t)
    (t_atime_nsec t) (t_mtime_nsec t) (t_ctime_nsec t).
Definition set_children (cs : list nat) (t : TmpNode) : TmpNode :=
  mkNode (t_name t) (t_is_dir t) (t_is_symlink t) (t_link_target t) (t_content t) cs (t_mode t) (t_uid t) (t_gid t) (t_nlink t)
    (t_atime_nsec t) (t_mtime_nsec t) (t_ctime_nsec t).
Definition set_mode (m : Z) (t : TmpNode) : TmpNode :=
  mkNode (t_name t) (t_is_dir t) (t_is_symlink t) (t_link_target t) (t_content t) (t_children t) m (t_uid t) (t_gid t) (t_nlink t)
    (t_atime_nsec t) (t_mtime_nsec t) (t_ctime_nsec t).
Definition set_owner (u g : Z) (t : TmpNode) : TmpNode :=
  mkNode (t_name t) (t_is_dir t) (t_is_symlink t) (t_link_target t) (t_content t) (t_children t) (t_mode t) u g (t_nlink t)
    (t_atime_nsec t) (t_mtime_nsec t) (t_ctime_nsec t).
Definition set_times (a m : Z) (t : TmpNode) : TmpNode :=
  mkNode (t_name t) (t_is_dir t) (t_is_symlink t) (t_link_target t) (t_content t) (t_children t) (t_mode t) (t_uid t) (t_gid t) (t_nlink t)
    a m (t_ctime_nsec t).

Definition fresh_node (name : Str) (is_dir is_symlink : bool) (target : option Str) (content : Str) (mode nlink : Z) : TmpNode :=
  mkNode name is_dir is_symlink target content [] mode 0 0 nlink 0 0 0.

(** [Tmpfs::new]: a new root. *)
Definition tmpfs_new (h : Heap) : nat * Heap := (length h, h ++ [fresh_node [SLASH] true false None [] 0x1ED 2]).

Section node.
Context (self : nat).

Definition node_name (h : Heap) : Str := match h !! self with Some t => t_name t | None => [] end.

Definition is_dir (h : Heap) : bool := match h !! self with Some t => t_is_dir t && negb (t_is_symlink t) | None => false end.

Definition read (h : Heap) : option Str :=
  t ← h !! self;
  if t_is_symlink t then t_link_target t else if t_is_dir t then None else Some (t_content t).

Definition write (data : Str) (h : Heap) : bool * Heap :=
  match h !! self with
  | Some t => if t_is_dir t then (false, h) else (true, <[self := set_content (t_content t ++ data) t]> h)
  | None => (false, h)
  end.

Definition children (h : Heap) : option (list nat) :=
  t ← h !! self;
  if t_is_dir t then Some (t_children t) else None.

Definition statfs (h : Heap) : option StatFs :=
  let total_blocks := 64 * 1024 * 1024 / 4096 in
  Some (mkStatFs 0x01021994 4096 total_blocks (total_blocks - 1) (total_blocks - 1) 4096 (4096 - 4)).

Definition stat (h : Heap) : option Stat :=
  t ← h !! self;
  let size := if t_is_symlink t then match t_link_target t with Some l => Z.of_nat (length l) | None => 0 end
              else if t_is_dir t then 4096 else Z.of_nat (length (t_content t)) in
  let file_type := if t_is_symlink t then S_IFLNK else if t_is_dir t then S_IFDIR else S_IFREG in
  Some (mkStat 0 0 (Z.lor file_type (t_mode t)) (t_nlink t) (t_uid t) (t_gid t) 0 size 0 0 0 (t_atime_nsec t) (t_mtime_nsec t) (t_ctime_nsec t)).

Definition chmod (mode : Z) (h : Heap) : bool * Heap :=
  match h !! self with Some t => (true, <[self := set_mode (Z.land mode 0xFFF) t]> h) | None => (false, h) end.

Definition chown (uid gid : Z) (h : Heap) : bool * Heap :=
  match h !! self with Some t => (true, <[self := set_owner uid gid t]> h) | None => (false, h) end.

Definition truncate (len : Z) (h : Heap) : bool * Heap :=
  match h !! self with
  | Some t =>
      if t_is_dir t then (false, h) else if len <? 0 then (false, h)
      else (true, <[self := set_content (take (Z.to_nat len) (t_content t)) t]> h)
  | None => (false, h)
  end.

Definition readlink (h : Heap) : option Str :=
  t ← h !! self;
  if t_is_symlink t then t_link_target t else None.

(** [utimens] takes the nanoseconds of the two times; -1 and -2 leave the time as
    it is. *)
Definition utimens (atime mtime : Z * Z) (h : Heap) : bool * Heap :=
  match h !! self with
  | Some t =>
      if t_is_symlink t then (false, h)
      else
        let keep new old := if negb (new =? -1) && negb (new =? -2) then new else old in
        (true, <[self := set_times (keep atime.2 (t_atime_nsec t)) (keep mtime.2 (t_mtime_nsec t)) t]> h)
  | None => (false, h)
  end.

End node.

Definition has_child (name : Str) (cs : list nat) (h : Heap) : bool := existsb (fun c => bool_decide (node_name c h = name)) cs.

Section directory.
Context (self : nat).

(** The new node [t] becomes the last child. *)
Definition push_child (d : TmpNode) (cs : list nat) (t : TmpNode) (h : Heap) : nat * Heap :=
  (length h, <[self := set_children (cs ++ [length h]) d]> h ++ [t]).

Definition make (name : Str) (t : TmpNode) (h : Heap) : option nat * Heap :=
  match h !! self with
  | Some d =>
      if negb (t_is_dir d) then (None, h)
      else if bool_decide (name = DOT) || bool_decide (name = [SLASH]) || bool_decide (name = []) then (None, h)
      else if has_child name (t_children d) h then (None, h)
      else let '(a, h) := push_child d (t_children d) t h in (Some a, h)
  | None => (None, h)
  end.

Definition mkdir (name : Str) (h : Heap) : option nat * Heap := make name (fresh_node name true false None [] 0x1ED 2) h.
Definition create (name : Str) (h : Heap) : option nat * Heap := make name (fresh_node name false false None [] 0x1A4 1) h.

(** The position of the first child with the name. *)
Fixpoint position (name : Str) (cs : list nat) (h : Heap) : option nat :=
  match cs with
  | [] => None
  | c :: cs => if bool_decide (node_name c h = name) then Some O else S <$> position name cs h
  end.

Definition rename (old_name new_name : Str) (h : Heap) : bool * Heap :=
  match h !! self with
  | Some d =>
      if negb (t_is_dir d) then (false, h)
      else
        match position old_name (t_children d) h with
        | None => (false, h)
        | Some pos =>
            if has_child new_name (t_children d) h then (false, h)
            else (true, (push_child d (delete pos (t_children d)) (fresh_node new_name (t_is_dir d) false None [] 0x1A4 1) h).2)
        end
  | None => (false, h)
  end.

Definition unlink (name : Str) (h : Heap) : bool * Heap :=
  match h !! self with
  | Some d =>
      if negb (t_is_dir d) then (false, h)
      else
        match position name (t_children d) h with
        | None => (false, h)
        | Some pos => (true, <[self := set_children (delete pos (t_children d)) d]> h)
        end
  | None => (false, h)
  end.

Definition symlink (name target : Str) (h : Heap) : bool * Heap :=
  match h !! self with
  | Some d =>
      if negb (t_is_dir d) then (false, h)
      else if has_child name (t_children d) h then (false, h)
      else (true, (push_child d (t_children d) (fresh_node name false true (Some target) [] 0x1FF 1) h).2)
  | None => (false, h)
  end.

Definition link (existing : nat) (name : Str) (h : Heap) : bool * Heap :=
  match h !! self with
  | Some d =>
      if negb (t_is_dir d) then (false, h)
      else if has_child name (t_children d) h then (false, h)
      else
        match stat existing h with
        | None => (false, h)
        | Some st => if negb (Z.land (st_mode st) S_IFDIR =? 0) then (false, h) else (true, <[self := set_children (t_children d ++ [existing]) d]> h)
        end
  | None => (false, h)
  end.

(** [_add_file] of the root. *)
Definition add_file (name data : Str) (h : Heap) : Heap :=
  match h !! self with
  | Some d => (push_child d (t_children d) (fresh_node name false false None data 0x1A4 1) h).2
  | None => h
  end.

End directory.

(** A file system is the address of its root. *)
#[export] Instance tmpfs_nodes : VfsNode nat nat Heap := {
  n_root f h := Some f; n_name := node_name; n_is_dir := is_dir; n_read := read; n_stat := stat; n_statfs _ := statfs; n_children := children;
  n_find_child := find_child_default children node_name; n_readlink := readlink; n_write := write; n_mkdir := mkdir; n_create := create;
  n_unlink := unlink; n_chmod := chmod; n_chown := chown; n_symlink := symlink; n_rename := rename; n_truncate := truncate; n_link := link;
  n_utimens := utimens }.

(** ** The tree *)

Record heap_wf (h : Heap) : Prop := {
  hw_children : forall n t, h !! n = Some t -> t_is_dir t = false -> t_children t = [];
  hw_link : forall n t, h !! n = Some t -> t_is_symlink t = true -> t_is_dir t = false /\ is_Some (t_link_target t);
  hw_mode : forall n t, h !! n = Some t -> 0 <= t_mode t < 0x1000;
  hw_below : forall n t c, h !! n = Some t -> c ∈ t_children t -> (c < length h)%nat /\ forall u, h !! c = Some u -> t_is_dir u = true -> (n < c)%nat }.

Definition names (cs : list nat) (h : Heap) : list Str := (fun c => node_name c h) <$> cs.
Definition distinct (h : Heap) : Prop := forall n t, h !! n = Some t -> NoDup (names (t_children t) h).

Inductive TmpOp :=
| ONew | OWrite (n : nat) (data : Str) | OMkdir (n : nat) (name : Str) | OCreate (n : nat) (name : Str) | OUnlink (n : nat) (name : Str)
| OChmod (n : nat) (mode : Z) | OChown (n : nat) (uid gid : Z) | OSymlink (n : nat) (name target : Str) | ORename (n : nat) (old_name new_name : Str)
| OTruncate (n : nat) (len : Z) | OLink (n existing : nat) (name : Str) | OUtimens (n : nat) (atime mtime : Z * Z).

Definition tmp_step (op : TmpOp) (h : Heap) : Heap :=
  match op with
  | ONew => (tmpfs_new h).2
  | OWrite n data => (write n data h).2
  | OMkdir n name => (mkdir n name h).2
  | OCreate n name => (create n name h).2
  | OUnlink n name => (unlink n name h).2
  | OChmod n mode => (chmod n mode h).2
  | OChown n uid gid => (chown n uid gid h).2
  | OSymlink n name target => (symlink n name target h).2
  | ORename n old_name new_name => (rename n old_name new_name h).2
  | OTruncate n len => (truncate n len h).2
  | OLink n existing name => (link n existing name h).2
  | OUtimens n atime mtime => (utimens n atime mtime h).2
  end.

(** [link] does not keep the names of a directory distinct. *)
Definition keeps_names (op : TmpOp) : Prop := match op with OLink _ _ _ => False | _ => True end.

(** The changes of a node that leave the tree as it is. *)
Definition same_tree (t t' : TmpNode) : Prop :=
  t_name t' = t_name t /\ t_is_dir t' = t_is_dir t /\ t_is_symlink t' = t_is_symlink t /\ t_link_target t' = t_link_target t /\ t_children t' = t_children t.

Lemma name_insert n t t' h c : h !! n = Some t -> t_name t' = t_name t -> node_name c (<[n := t']> h) = node_name c h.
Proof.
  intros Hn Ht. unfold node_name. destruct (decide (c = n)) as [->|]; [|by rewrite list_lookup_insert_ne].
  by rewrite list_lookup_insert_eq, Hn by by eapply lookup_lt_Some.
Qed.

Lemma update_wf n t t' h : heap_wf h -> h !! n = Some t -> same_tree t t' -> 0 <= t_mode t' < 0x1000 -> heap_wf (<[n := t']> h).
Proof.
  intros [Hc Hl Hm Hb] Hn (_ & Ed & Es & Et & Ec) Hmode. assert (Hcase : forall i u, <[n := t']> h !! i = Some u -> i = n /\ u = t' \/ i <> n /\ h !! i = Some u).
  { intros i u Hi. apply list_lookup_insert_Some in Hi. naive_solver. }
  split.
  - intros i u Hi. destruct (Hcase i u Hi) as [[-> ->]|[_ H]]; [rewrite Ed, Ec; exact (Hc n t Hn)|exact (Hc i u H)].
  - intros i u Hi. destruct (Hcase i u Hi) as [[-> ->]|[_ H]]; [rewrite Es, Ed, Et; exact (Hl n t Hn)|exact (Hl i u H)].
  - intros i u Hi. destruct (Hcase i u Hi) as [[-> ->]|[_ H]]; [done|exact (Hm i u H)].
  - intros i u c Hi Hin. rewrite length_insert.
    assert (Hold : exists u0, h !! i = Some u0 /\ c ∈ t_children u0) by (destruct (Hcase i u Hi) as [[-> ->]|[_ H]]; [rewrite Ec in Hin|]; eauto).
    destruct Hold as (u0 & Hu0 & Hc0). destruct (Hb i u0 c Hu0 Hc0) as [Hlt Hd]. split; [done|]. intros w Hw.
    destruct (Hcase c w Hw) as [[-> ->]|[_ H]]; [rewrite Ed; by apply Hd|by apply Hd].
Qed.

Lemma update_distinct n t t' h : distinct h -> h !! n = Some t -> same_tree t t' -> distinct (<[n := t']> h).
Proof.
  intros Hd Hn (En & _ & _ & _ & Ec) i u Hi. replace (names (t_children u) (<[n := t']> h)) with (names (t_children u) h).
  - apply list_lookup_insert_Some in Hi as [(-> & <- & _)|[_ Hi]]; [rewrite Ec|]; by eapply Hd.
  - apply list_fmap_ext. intros j c _. symmetry. by eapply name_insert.
Qed.

Definition fresh_ok (t : TmpNode) : Prop :=
  t_children t = [] /\ (t_is_symlink t = true -> t_is_dir t = false /\ is_Some (t_link_target t)) /\ 0 <= t_mode t < 0x1000.

Lemma lookup_snoc_cases (h : Heap) t i u : (h ++ [t]) !! i = Some u -> h !! i = Some u \/ i = length h /\ u = t.
Proof. intros Hi. apply lookup_app_Some in Hi as [|[Hl Hi]]; [by left|]. apply list_lookup_singleton_Some in Hi as [Hi ->]. right. split; [lia|done]. Qed.

Lemma snoc_wf h t : heap_wf h -> fresh_ok t -> heap_wf (h ++ [t]).
Proof.
  intros [Hc Hl Hm Hb] (Tc & Tl & Tm). split.
  - intros i u Hi. destruct (lookup_snoc_cases h t i u Hi) as [H|[_ ->]]; [exact (Hc i u H)|done].
  - intros i u Hi. destruct (lookup_snoc_cases h t i u Hi) as [H|[_ ->]]; [exact (Hl i u H)|done].
  - intros i u Hi. destruct (lookup_snoc_cases h t i u Hi) as [H|[_ ->]]; [exact (Hm i u H)|done].
  - intros i u c Hi Hin. destruct (lookup_snoc_cases h t i u Hi) as [H|[_ ->]]; [|rewrite Tc in Hin; by apply not_elem_of_nil in Hin].
    destruct (Hb i u c H Hin) as [Hlt Hd]. rewrite length_app. split; [cbn; lia|]. intros w Hw.
    rewrite lookup_app_l in Hw by done. by apply Hd.
Qed.

Lemma children_wf n d cs h : heap_wf h -> h !! n = Some d -> t_is_dir d = true ->
  (forall c, c ∈ cs -> (c < length h)%nat /\ forall u, h !! c = Some u -> t_is_dir u = true -> (n < c)%nat) -> heap_wf (<[n := set_children cs d]> h).
Proof.
  intros [Hc Hl Hm Hb] Hn Hdir Hcs. assert (Hcase : forall i u, <[n := set_children cs d]> h !! i = Some u -> i = n /\ u = set_children cs d \/ i <> n /\ h !! i = Some u).
  { intros i u Hi. apply list_lookup_insert_Some in Hi. naive_solver. }
  split.
  - intros i u Hi. destruct (Hcase i u Hi) as [[-> ->]|[_ H]]; [cbn; congruence|exact (Hc i u H)].
  - intros i u Hi. destruct (Hcase i u Hi) as [[-> ->]|[_ H]]; [exact (Hl n d Hn)|exact (Hl i u H)].
  - intros i u Hi. destruct (Hcase i u Hi) as [[-> ->]|[_ H]]; [exact (Hm n d Hn)|exact (Hm i u H)].
  - intros i u c Hi Hin. rewrite length_insert.
    assert (Hold : (c < length h)%nat /\ forall u, h !! c = Some u -> t_is_dir u = true -> (i < c)%nat)
      by (destruct (Hcase i u Hi) as [[-> ->]|[_ H]]; [by apply Hcs|by eapply Hb]).
    destruct Hold as [Hlt Hd]. split; [done|]. intros w Hw. destruct (Hcase c w Hw) as [[-> ->]|[_ H]]; [exact (Hd d Hn)|exact (Hd w H)].
Qed.

Lemma push_app n d cs t h : h !! n = Some d -> (push_child n d cs t h).2 = <[n := set_children (cs ++ [length h]) d]> (h ++ [t]).
Proof. intros Hn. unfold push_child. cbn [snd]. by rewrite insert_app_l by by eapply lookup_lt_Some. Qed.

Lemma push_wf n d cs t h : heap_wf h -> h !! n = Some d -> t_is_dir d = true -> cs ⊆ t_children d -> fresh_ok t -> heap_wf (push_child n d cs t h).2.
Proof.
  intros Hw Hn Hdir Hcs Ht. rewrite push_app by done. pose proof (lookup_lt_Some _ _ _ Hn) as Hlt.
  apply children_wf; [by apply snoc_wf|by rewrite lookup_app_l|done|]. intros c Hc. rewrite length_app. cbn. apply elem_of_app in Hc as [Hc|Hc].
  - apply Hcs in Hc. destruct (hw_below h Hw n d c Hn Hc) as [Hl Hd]. split; [lia|]. intros u Hu. rewrite lookup_app_l in Hu by done. by apply Hd.
  - apply list_elem_of_singleton in Hc as ->. split; [lia|]. intros; lia.
Qed.

Lemma name_snoc h t c : (c < length h)%nat -> node_name c (h ++ [t]) = node_name c h.
Proof. intros Hc. unfold node_name. by rewrite lookup_app_l. Qed.

Lemma names_snoc h t n d : heap_wf h -> h !! n = Some d -> forall cs, cs ⊆ t_children d -> names cs (h ++ [t]) = names cs h.
Proof.
  intros Hw Hn cs Hcs. apply list_fmap_ext. intros i c Hi. apply name_snoc. apply list_elem_of_lookup_2, Hcs in Hi.
  apply (hw_below h Hw n d c Hn Hi).
Qed.

Lemma names_children n d cs h l : h !! n = Some d -> names l (<[n := set_children cs d]> h) = names l h.
Proof. intros Hn. apply list_fmap_ext. intros i c _. by eapply name_insert. Qed.

Lemma children_distinct n d cs h : distinct h -> h !! n = Some d -> NoDup (names cs h) -> distinct (<[n := set_children cs d]> h).
Proof.
  intros Hd Hn Hcs i u Hi. rewrite (names_children n d cs h) by done. apply list_lookup_insert_Some in Hi as [(-> & <- & _)|[_ Hi]]; [done|by eapply Hd].
Qed.

Lemma has_child_spec name cs h : has_child name cs h = true <-> name ∈ names cs h.
Proof.
  unfold has_child, names. rewrite existsb_exists, list_elem_of_fmap. split.
  - intros (c & Hc & E). apply bool_decide_eq_true in E. exists c. split; [done|]. by apply list_elem_of_In.
  - intros (c & -> & Hc). exists c. split; [by apply list_elem_of_In|by apply bool_decide_eq_true].
Qed.

Lemma push_distinct n d cs t h : heap_wf h -> distinct h -> h !! n = Some d -> sublist cs (t_children d) -> fresh_ok t ->
  has_child (t_name t) (t_children d) h = false -> distinct (push_child n d cs t h).2.
Proof.
  intros Hw Hd Hn Hcs Ht Hname. assert (Hsub : cs ⊆ t_children d) by by apply sublist_subseteq. rewrite push_app by done. apply children_distinct.
  - intros i u Hi. destruct (lookup_snoc_cases h t i u Hi) as [H|[_ ->]]; [|rewrite (proj1 Ht); constructor].
    rewrite (names_snoc h t i u) by done. by eapply Hd.
  - rewrite lookup_app_l by (by eapply lookup_lt_Some). done.
  - unfold names. rewrite fmap_app. fold (names cs (h ++ [t])). rewrite (names_snoc h t n d) by done. apply NoDup_app. split_and!.
    + apply (sublist_NoDup _ (names (t_children d) h)); [exact (Hd n d Hn)|by apply fmap_sublist].
    + intros x Hx Hin. apply list_elem_of_singleton in Hin. unfold node_name in Hin. rewrite list_lookup_middle in Hin by done. subst x.
      apply not_true_iff_false in Hname. apply Hname, has_child_spec. unfold names in *. apply list_elem_of_fmap in Hx as (c & E & Hc).
      apply list_elem_of_fmap. exists c. split; [done|by apply Hsub].
    + apply NoDup_singleton.
Qed.

Lemma position_lt name cs h pos : position name cs h = Some pos -> exists c, cs !! pos = Some c /\ node_name c h = name.
Proof.
  revert pos. induction cs as [|c cs IH]; intros pos; cbn; [done|]. case_bool_decide; [intros [= <-]; by exists c|].
  destruct (position name cs h) as [p|]; [|done]. intros [= <-]. by apply IH.
Qed.

(** What an operation keeps: the tree, and the names when they are distinct. *)
Definition kept (h h' : Heap) : Prop := heap_wf h' /\ (distinct h -> distinct h').

Lemma kept_refl h : heap_wf h -> kept h h.
Proof. by split. Qed.

Lemma kept_update n t t' h : heap_wf h -> h !! n = Some t -> same_tree t t' -> 0 <= t_mode t' < 0x1000 -> kept h (<[n := t']> h).
Proof. intros. split; [by eapply update_wf|]. intros. by eapply update_distinct. Qed.

Lemma kept_push n d cs t h : heap_wf h -> h !! n = Some d -> t_is_dir d = true -> sublist cs (t_children d) -> fresh_ok t ->
  has_child (t_name t) (t_children d) h = false -> kept h (push_child n d cs t h).2.
Proof. intros. split; [apply push_wf; try done; by apply sublist_subseteq|]. intros. by apply push_distinct. Qed.

Lemma make_kept n name t h : heap_wf h -> fresh_ok t -> t_name t = name -> kept h (make n name t h).2.
Proof.
  intros Hw Ht <-. unfold make. destruct (h !! n) as [d|] eqn:Hn; [|by apply kept_refl]. destruct (t_is_dir d) eqn:Hd; cbn [negb]; [|by apply kept_refl].
  destruct (_ || _ || _); [by apply kept_refl|]. destruct (has_child _ _ _) eqn:Hc; [by apply kept_refl|]. by apply (kept_push n d (t_children d)).
Qed.

Lemma land_bound m : 0 <= m -> 0 <= Z.land m 0xFFF < 0x1000.
Proof. intros Hm. change 0xFFF with (Z.ones 12). rewrite Z.land_ones by lia. apply Z.mod_pos_bound. done. Qed.

Definition op_ok (op : TmpOp) : Prop := match op with OChmod _ mode => 0 <= mode | _ => True end.

Lemma link_wf n e name h : heap_wf h -> heap_wf (link n e name h).2.
Proof.
  intros Hw. unfold link. destruct (h !! n) as [d|] eqn:Hn; [|done]. destruct (t_is_dir d) eqn:Hd; cbn [negb]; [|done].
  destruct (has_child _ _ _); [done|]. unfold stat. destruct (h !! e) as [t|] eqn:He; [|done]. cbn [mbind option_bind st_mode].
  destruct (_ =? 0) eqn:Hm; cbn [negb]; [|done]. apply children_wf; try done. intros c Hc. apply elem_of_app in Hc as [Hc|Hc]; [by eapply hw_below|].
  apply list_elem_of_singleton in Hc as ->. split; [by eapply lookup_lt_Some|]. rewrite He. intros u [= <-] Hdir. exfalso.
  destruct (t_is_symlink t) eqn:Hs; [by destruct (hw_link h Hw e t He Hs); congruence|]. rewrite Hdir in Hm. apply Z.eqb_eq in Hm.
  apply (f_equal (fun x => Z.testbit x 14)) in Hm. rewrite Z.land_spec, Z.lor_spec in Hm. done.
Qed.

Lemma step_kept op h : heap_wf h -> op_ok op -> heap_wf (tmp_step op h) /\ (keeps_names op -> distinct h -> distinct (tmp_step op h)).
Proof.
  intros Hw Hop. assert (Hk : forall h', kept h h' -> heap_wf h' /\ (keeps_names op -> distinct h -> distinct h')) by (intros h' []; auto).
  destruct op as [|n data|n name|n name|n name|n mode|n uid gid|n name target|n o w|n len|n e name|n a m]; cbn [tmp_step].
  - cbn [tmpfs_new snd]. assert (Hf : fresh_ok (fresh_node [SLASH] true false None [] 0x1ED 2)) by (repeat split; done || lia).
    split; [by apply snoc_wf|]. intros _ Hd i u Hi. destruct (lookup_snoc_cases _ _ i u Hi) as [H|[_ ->]]; [|constructor].
    rewrite (names_snoc h _ i u) by done. by eapply Hd.
  - apply Hk. unfold write. destruct (h !! n) as [t|] eqn:Hn; [|by apply kept_refl]. destruct (t_is_dir t); [by apply kept_refl|].
    apply (kept_update n t); try done. exact (hw_mode h Hw n t Hn).
  - apply Hk, make_kept; [done|repeat split; done || lia|done].
  - apply Hk, make_kept; [done|repeat split; done || lia|done].
  - apply Hk. unfold unlink. destruct (h !! n) as [d|] eqn:Hn; [|by apply kept_refl]. destruct (t_is_dir d) eqn:Hd; cbn [negb]; [|by apply kept_refl].
    destruct (position name _ h) as [pos|]; [|by apply kept_refl]. split.
    + apply children_wf; try done. intros c Hc. eapply hw_below; [done..|]. eapply elem_of_sublist; [done|apply sublist_delete].
    + intros Hdis. apply children_distinct; [done..|]. apply (sublist_NoDup _ (names (t_children d) h)); [exact (Hdis n d Hn)|apply fmap_sublist, sublist_delete].
  - apply Hk. unfold chmod. destruct (h !! n) as [t|] eqn:Hn; [|by apply kept_refl]. apply (kept_update n t); try done. by apply land_bound.
  - apply Hk. unfold chown. destruct (h !! n) as [t|] eqn:Hn; [|by apply kept_refl]. apply (kept_update n t); try done. exact (hw_mode h Hw n t Hn).
  - apply Hk. unfold symlink. destruct (h !! n) as [d|] eqn:Hn; [|by apply kept_refl]. destruct (t_is_dir d) eqn:Hd; cbn [negb]; [|by apply kept_refl].
    destruct (has_child _ _ _) eqn:Hc; [by apply kept_refl|]. apply kept_push; try done.
  - apply Hk. unfold rename. destruct (h !! n) as [d|] eqn:Hn; [|by apply kept_refl]. destruct (t_is_dir d) eqn:Hd; cbn [negb]; [|by apply kept_refl].
    destruct (position o _ h) as [pos|]; [|by apply kept_refl]. destruct (has_child _ _ _) eqn:Hc; [by apply kept_refl|].
    apply kept_push; try done; apply sublist_delete.
  - apply Hk. unfold truncate. destruct (h !! n) as [t|] eqn:Hn; [|by apply kept_refl]. destruct (t_is_dir t); [by apply kept_refl|].
    destruct (len <? 0); [by apply kept_refl|]. apply (kept_update n t); try done. exact (hw_mode h Hw n t Hn).
  - split; [by apply link_wf|done].
  - apply Hk. unfold utimens. destruct (h !! n) as [t|] eqn:Hn; [|by apply kept_refl]. destruct (t_is_symlink t); [by apply kept_refl|].
    apply (kept_update n t); try done. exact (hw_mode h Hw n t Hn).
Qed.

(** ** Searching *)

Lemma child_search h n d c : heap_wf h -> h !! n = Some d -> c ∈ t_children d -> is_dir c h = true -> (n < c < length h)%nat.
Proof.
  intros Hw Hn Hc Hd. destruct (hw_below h Hw n d c Hn Hc) as [Hl Hb]. split; [|done]. unfold is_dir in Hd. destruct (h !! c) as [u|]; [|done].
  apply andb_true_iff in Hd as [Hd _]. by apply (Hb u).
Qed.

(** A directory lies below the directories in it, so that a search comes to an end. *)
Lemma search_ends h pattern : heap_wf h -> forall fuel n path, (length h - n < fuel)%nat -> is_Some (search_recursive fuel n path pattern h).
Proof.
  intros Hw fuel. induction fuel as [|fuel IH]; intros n path Hf; [lia|]. cbn [search_recursive n_is_dir n_children tmpfs_nodes].
  destruct (is_dir n h) eqn:Hd; [|done]. unfold children. unfold is_dir in Hd. destruct (h !! n) as [d|] eqn:Hn; [|done]. cbn [mbind option_bind].
  destruct (t_is_dir d); [|done]. pose proof (lookup_lt_Some _ _ _ Hn) as Hlt.
  assert (Hm : is_Some (mapM (fun c => if bool_decide (n_name c h = DOT) || bool_decide (n_name c h = DOTDOT) then Some []
    else search_recursive fuel c (child_path path (n_name c h)) pattern h) (t_children d))).
  { apply mapM_is_Some_2, Forall_forall. intros c Hc. unfold compose. cbv beta. case_match; [done|]. destruct (is_dir c h) eqn:Hcd.
    - apply IH. pose proof (child_search h n d c Hw Hn Hc Hcd). lia.
    - destruct fuel as [|fuel]; [lia|]. cbn [search_recursive n_is_dir tmpfs_nodes]. by rewrite Hcd. }
  destruct Hm as [below Hm]. cbv zeta. rewrite Hm. done.
Qed.

Lemma runs_kept ops : Forall op_ok ops -> let h := foldl (fun h op => tmp_step op h) [] ops in heap_wf h /\ (Forall keeps_names ops -> distinct h).
Proof.
  induction ops as [|op ops IH] using rev_ind; intros Hops; [by split; [split|]|]. apply Forall_app in Hops as [Hops Hop]. apply Forall_cons in Hop as [Hop _].
  rewrite foldl_app. cbn [foldl]. destruct (IH Hops) as [Hw Hd]. destruct (step_kept op _ Hw Hop) as [Hw' Hd']. split; [done|].
  intros Hk. apply Forall_app in Hk as [Hk1 Hk2]. apply Forall_cons in Hk2 as [Hk2 _]. auto.
Qed.

(** C39. The file system in memory stays a tree. After any operations from an empty
    store, failing ones included, every child of a directory exists, only
    directories have children, a directory lies strictly below its parent, so that
    no directory is inside of itself and a search of the whole tree ends; modes stay
    within twelve bits; and unless hard links are made the names in each directory
    are distinct. *)
Theorem tmpfs_tree ops : Forall op_ok ops ->
  let h := foldl (fun h op => tmp_step op h) [] ops in
  heap_wf h /\ (Forall keeps_names ops -> distinct h) /\
  (forall n path pattern, is_Some (search_recursive (S (length h)) n path pattern h)).
Proof.
  intros Hops h. destruct (runs_kept ops Hops) as [Hw Hd]. split; [done|]. split; [done|]. intros n path pattern. apply search_ends; [done|lia].
Qed.

Lemma tmpfs_tree_witness :
  let h := foldl (fun h op => tmp_step op h) [] [ONew; OMkdir 0 (str "a"); OCreate 1 (str "b"); OChmod 2 0x1FFFF; ORename 0 (str "a") (str "c")] in
  distinct h /\ length h = 4%nat /\ search_recursive 5 0%nat [SLASH] (str "c") h = Some [str "/c"].
Proof.
  cbv zeta. set (ops := [_; _; _; _; _]). assert (Hok : Forall op_ok ops) by (repeat constructor; cbn; lia).
  destruct (tmpfs_tree ops Hok) as (_ & Hd & _). split; [|split; reflexivity]. apply Hd. repeat constructor.
Defined.

(** ** Directories *)

Definition find_child : nat -> Str -> Heap -> option nat := find_child_default children node_name.
Definition named (m : Str) (cs : list nat) (h : Heap) : option nat := snd <$> list_find (fun c => node_name c h = m) cs.

Lemma named_cons m c cs h : named m (c :: cs) h = if decide (node_name c h = m) then Some c else named m cs h.
Proof. unfold named. cbn [list_find]. destruct (decide (node_name c h = m)); [done|]. by destruct (list_find _ cs) as [[]|]. Qed.

Lemma named_app m cs ds h : named m (cs ++ ds) h = match named m cs h with Some c => Some c | None => named m ds h end.
Proof. induction cs as [|c cs IH]; [done|]. cbn [app]. rewrite !named_cons, IH. by destruct (decide _). Qed.

Lemma find_child_dir n d m h : h !! n = Some d -> t_is_dir d = true -> find_child n m h = named m (t_children d) h.
Proof. intros Hn Hd. unfold find_child, find_child_default, children. rewrite Hn. cbn. by rewrite Hd. Qed.

Lemma named_none m cs h : named m cs h = None <-> m ∉ names cs h.
Proof.
  unfold names. induction cs as [|c cs IH]; [split; [intros _; apply not_elem_of_nil|done]|]. rewrite named_cons, fmap_cons, not_elem_of_cons.
  destruct (decide (node_name c h = m)) as [<-|Hne]; [split; [done|naive_solver]|]. rewrite IH. naive_solver.
Qed.

Lemma named_names m cs h h' : names cs h' = names cs h -> named m cs h' = named m cs h.
Proof.
  unfold names. induction cs as [|c cs IH]; [done|]. rewrite !fmap_cons. intros [= E1 E2]. rewrite !named_cons, E1, IH by done. done.
Qed.

Lemma named_delete m name cs h pos : position name cs h = Some pos -> NoDup (names cs h) ->
  named m (delete pos cs) h = if decide (m = name) then None else named m cs h.
Proof.
  unfold names. revert pos. induction cs as [|c cs IH]; intros pos; cbn [position]; [done|]. rewrite fmap_cons. intros Hp [Hc Hnd]%NoDup_cons.
  case_bool_decide as Hn.
  - injection Hp as <-. change (delete 0%nat (c :: cs)) with cs. rewrite named_cons, Hn. destruct (decide (m = name)) as [->|]; [|by rewrite decide_False by congruence].
    apply named_none. by rewrite <- Hn.
  - destruct (position name cs h) as [p|] eqn:Hpos; [|done]. injection Hp as <-. change (delete (S p) (c :: cs)) with (c :: delete p cs).
    rewrite !named_cons, (IH p) by done.
    destruct (decide (node_name c h = m)) as [<-|]; [by rewrite decide_False|done].
Qed.

Lemma position_absent name cs h : position name cs h = None <-> name ∉ names cs h.
Proof.
  unfold names. induction cs as [|c cs IH]; [split; [intros _; apply not_elem_of_nil|done]|]. cbn [position]. rewrite fmap_cons, not_elem_of_cons.
  case_bool_decide as Hn; [split; [done|naive_solver]|]. rewrite <- IH. destruct (position name cs h); naive_solver.
Qed.

(** The directory [n] gets the entry [name], the new node [t]; nothing else changes. *)
Definition grows (n : nat) (name : Str) (t : TmpNode) (h h' : Heap) : Prop :=
  length h' = S (length h) /\ h' !! length h = Some t /\ find_child n name h' = Some (length h) /\
  (forall m, m <> name -> find_child n m h' = find_child n m h) /\ (forall i, i <> n -> (i < length h)%nat -> h' !! i = h !! i).

(** The directory [n] loses the entry [name]. *)
Definition shrinks (n : nat) (name : Str) (h h' : Heap) : Prop :=
  length h' = length h /\ find_child n name h' = None /\ (forall m, m <> name -> find_child n m h' = find_child n m h) /\
  (forall i, i <> n -> h' !! i = h !! i).

Lemma push_grows n d t h : heap_wf h -> h !! n = Some d -> t_is_dir d = true -> has_child (t_name t) (t_children d) h = false ->
  grows n (t_name t) t h (push_child n d (t_children d) t h).2.
Proof.
  intros Hw Hn Hd Hc. rewrite push_app by done. pose proof (lookup_lt_Some _ _ _ Hn) as Hlt. set (h1 := h ++ [t]).
  assert (Hn1 : h1 !! n = Some d) by by unfold h1; rewrite lookup_app_l. assert (Hlt1 : (n < length h1)%nat) by by eapply lookup_lt_Some.
  assert (Hlast : h1 !! length h = Some t) by by apply list_lookup_middle.
  assert (Hfind : forall m, find_child n m (<[n := set_children (t_children d ++ [length h]) d]> h1) =
    match find_child n m h with Some c => Some c | None => if decide (t_name t = m) then Some (length h) else None end).
  { intros m. rewrite (find_child_dir n (set_children (t_children d ++ [length h]) d)) by (done || by apply list_lookup_insert_eq).
    rewrite (find_child_dir n d) by done. cbn [t_children set_children].
    rewrite (named_names m _ h1) by by apply names_children. rewrite named_app, named_cons.
    assert (Hname : node_name (length h) h1 = t_name t) by (unfold node_name; by rewrite Hlast). rewrite Hname. unfold h1.
    by rewrite (named_names m (t_children d) h) by by eapply names_snoc. }
  apply not_true_iff_false in Hc. rewrite has_child_spec in Hc. unfold grows. split_and!.
  - rewrite length_insert. unfold h1. rewrite length_app. cbn. lia.
  - by rewrite list_lookup_insert_ne by lia.
  - rewrite Hfind, (find_child_dir n d), (proj2 (named_none _ _ _) Hc) by done. by rewrite decide_True.
  - intros m Hm. rewrite Hfind. rewrite decide_False by congruence. by destruct (find_child n m h).
  - intros i Hi Hl. rewrite list_lookup_insert_ne by done. unfold h1. by rewrite lookup_app_l.
Qed.

Lemma delete_shrinks n d name pos h : distinct h -> h !! n = Some d -> t_is_dir d = true -> position name (t_children d) h = Some pos ->
  shrinks n name h (<[n := set_children (delete pos (t_children d)) d]> h).
Proof.
  intros Hdis Hn Hd Hp. pose proof (lookup_lt_Some _ _ _ Hn) as Hlt.
  assert (Hfind : forall m, find_child n m (<[n := set_children (delete pos (t_children d)) d]> h) = if decide (m = name) then None else find_child n m h).
  { intros m. rewrite (find_child_dir n (set_children (delete pos (t_children d)) d)) by (done || by apply list_lookup_insert_eq).
    rewrite (find_child_dir n d) by done. cbn [t_children set_children]. rewrite (named_names m _ h) by by apply names_children.
    apply named_delete; [done|]. exact (Hdis n d Hn). }
  unfold shrinks. split_and!; [by rewrite length_insert|by rewrite Hfind, decide_True| |].
  - intros m Hm. by rewrite Hfind, decide_False.
  - intros i Hi. by rewrite list_lookup_insert_ne.
Qed.

Lemma make_directory n d name t h : heap_wf h -> h !! n = Some d -> t_is_dir d = true -> t_name t = name ->
  if bool_decide (name = DOT \/ name = [SLASH] \/ name = [] \/ is_Some (find_child n name h)) then make n name t h = (None, h)
  else exists h', make n name t h = (Some (length h), h') /\ grows n name t h h'.
Proof.
  intros Hw Hn Hd <-. unfold make. rewrite Hn, Hd. cbn [negb].
  assert (Hc : is_Some (find_child n (t_name t) h) <-> has_child (t_name t) (t_children d) h = true).
  { rewrite (find_child_dir n d), has_child_spec by done. pose proof (named_none (t_name t) (t_children d) h) as Hnn.
    destruct (named _ _ h); split; [intros _; apply dec_stable; rewrite <- Hnn; done|by eexists|by intros []|]. intros Hin. by apply (proj1 Hnn) in Hin. }
  case_bool_decide as Hb.
  - destruct (decide (t_name t = DOT)); [by rewrite bool_decide_eq_true_2|]. destruct (decide (t_name t = [SLASH])); [by rewrite (bool_decide_eq_true_2 (_ = [SLASH])), orb_true_r by done|].
    destruct (decide (t_name t = [])); [by rewrite (bool_decide_eq_true_2 (t_name t = [])), orb_true_r by done|]. rewrite !bool_decide_eq_false_2 by done. cbn [orb].
    rewrite (proj1 Hc) by tauto. done.
  - rewrite !bool_decide_eq_false_2 by tauto. cbn [orb]. destruct (has_child _ _ h) eqn:He; [exfalso; apply Hb; right; right; right; by apply Hc|].
    pose proof (push_grows n d t h Hw Hn Hd He) as Hg. destruct (push_child _ _ _ _ _) as [a h'] eqn:Hp. cbn [snd] in Hg. exists h'. split; [|done].
    unfold push_child in Hp. by injection Hp as <- _.
Qed.

Lemma rename_directory n d old_name new_name h : heap_wf h -> distinct h -> h !! n = Some d -> t_is_dir d = true ->
  if bool_decide (find_child n old_name h = None \/ is_Some (find_child n new_name h)) then rename n old_name new_name h = (false, h)
  else exists h1 h', rename n old_name new_name h = (true, h') /\ shrinks n old_name h h1 /\
    grows n new_name (fresh_node new_name true false None [] 0x1A4 1) h1 h'.
Proof.
  intros Hw Hdis Hn Hd. unfold rename. rewrite Hn, Hd. cbn [negb]. rewrite !(find_child_dir n d) by done.
  pose proof (named_none old_name (t_children d) h) as Ho. rewrite <- position_absent in Ho.
  pose proof (named_none new_name (t_children d) h) as Hne. pose proof (has_child_spec new_name (t_children d) h) as Hhas.
  destruct (position old_name (t_children d) h) as [pos|] eqn:Hp; [|by rewrite bool_decide_eq_true_2 by (left; by apply Ho)].
  destruct (has_child new_name (t_children d) h) eqn:Hc.
  { rewrite bool_decide_eq_true_2; [done|]. right. destruct (named new_name _ h); [by eexists|]. exfalso. by apply (proj1 Hne), Hhas. }
  rewrite bool_decide_eq_false_2.
  2: { intros [H|[c H]]; [by apply Ho in H|]. assert (Hx : new_name ∉ names (t_children d) h) by (intros Hin; by apply Hhas in Hin). apply Hne in Hx. congruence. }
  pose proof (lookup_lt_Some _ _ _ Hn) as Hlt.
  set (d1 := set_children (delete pos (t_children d)) d). exists (<[n := d1]> h). eexists. split; [done|]. split; [by apply delete_shrinks|].
  set (t := fresh_node new_name true false None [] 0x1A4 1).
  replace (push_child n d _ _ h).2 with (push_child n d1 (t_children d1) t (<[n := d1]> h)).2.
  2: { unfold push_child. cbn [snd]. rewrite list_insert_insert_eq, length_insert. done. }
  apply (push_grows n d1 t); [|by apply list_lookup_insert_eq|done|].
  - apply children_wf; try done. intros c Hin. eapply hw_below; [done..|]. eapply elem_of_sublist; [done|apply sublist_delete].
  - apply not_true_iff_false. rewrite has_child_spec. unfold d1 at 2. rewrite names_children by done. cbn [t_children set_children t_name t].
    intros Hin. enough (Hx : new_name ∈ names (t_children d) h) by by apply Hhas in Hx. unfold names in *. apply list_elem_of_fmap in Hin as (c & E & Hin).
    apply list_elem_of_fmap. exists c. split; [done|]. eapply elem_of_sublist; [done|apply sublist_delete].
Qed.

(** C40. What the operations on a directory of the file system in memory do, with
    distinct names. A file or directory is made, empty, unless the name is empty, a
    dot, a slash or taken; a symbolic link is made unless the name is taken;
    unlinking removes the entry if there is one; in each case this entry and
    nothing else changes, and a failing call changes nothing. Renaming an entry to a
    name that is not taken removes it and makes a new empty directory of the other
    name. *)
Theorem tmpfs_directory n d name other h :
  heap_wf h -> distinct h -> h !! n = Some d -> t_is_dir d = true ->
  (if bool_decide (name = DOT \/ name = [SLASH] \/ name = [] \/ is_Some (find_child n name h)) then create n name h = (None, h) /\ mkdir n name h = (None, h)
   else (exists h', create n name h = (Some (length h), h') /\ grows n name (fresh_node name false false None [] 0x1A4 1) h h') /\
        (exists h', mkdir n name h = (Some (length h), h') /\ grows n name (fresh_node name true false None [] 0x1ED 2) h h')) /\
  (if bool_decide (is_Some (find_child n name h)) then symlink n name other h = (false, h)
   else exists h', symlink n name other h = (true, h') /\ grows n name (fresh_node name false true (Some other) [] 0x1FF 1) h h') /\
  (if bool_decide (is_Some (find_child n name h)) then exists h', unlink n name h = (true, h') /\ shrinks n name h h'
   else unlink n name h = (false, h)) /\
  (if bool_decide (find_child n name h = None \/ is_Some (find_child n other h)) then rename n name other h = (false, h)
   else exists h1 h', rename n name other h = (true, h') /\ shrinks n name h h1 /\
     grows n other (fresh_node other true false None [] 0x1A4 1) h1 h').
Proof.
  intros Hw Hdis Hn Hd. split; [|split; [|split; [|by apply rename_directory with d]]].
  - pose proof (make_directory n d name (fresh_node name false false None [] 0x1A4 1) h Hw Hn Hd eq_refl) as H1.
    pose proof (make_directory n d name (fresh_node name true false None [] 0x1ED 2) h Hw Hn Hd eq_refl) as H2. by case_bool_decide.
  - unfold symlink. rewrite Hn, Hd. cbn [negb]. rewrite (find_child_dir n d) by done. destruct (has_child name (t_children d) h) eqn:Hc.
    + rewrite bool_decide_eq_true_2; [done|]. apply has_child_spec in Hc. pose proof (named_none name (t_children d) h) as Hnn.
      destruct (named name _ h); [by eexists|]. by destruct (proj1 Hnn eq_refl).
    + rewrite bool_decide_eq_false_2.
      * eexists. split; [done|]. by apply (push_grows n d (fresh_node name false true (Some other) [] 0x1FF 1)).
      * intros [c Hs]. apply not_true_iff_false in Hc. rewrite has_child_spec, <- named_none in Hc. congruence.
  - unfold unlink. rewrite Hn, Hd. cbn [negb]. rewrite (find_child_dir n d) by done. pose proof (named_none name (t_children d) h) as Hnn.
    rewrite <- position_absent in Hnn. destruct (position name (t_children d) h) as [pos|] eqn:Hp.
    + rewrite bool_decide_eq_true_2; [|destruct (named name _ h); [by eexists|by destruct (proj1 Hnn eq_refl)]]. eexists. split; [done|]. by apply delete_shrinks.
    + rewrite bool_decide_eq_false_2; [done|]. rewrite (proj2 Hnn eq_refl). by intros [].
Qed.

(** ** Examples *)

(** Two file systems; the first with a file [x] and a link [l] to it in [d], the
    second with a file [x]. *)
Definition demo : Heap := foldl (fun h op => tmp_step op h) []
  [ONew; ONew; OMkdir 0 (str "d"); OCreate 2 (str "x"); OSymlink 2 (str "l") (str "x"); OCreate 1 (str "x"); OWrite 3 (str "hi")].

Lemma demo_wf : heap_wf demo /\ distinct demo.
Proof. unfold demo. set (ops := [_; _; _; _; _; _; _]). destruct (runs_kept ops) as [Hw Hd]; [by repeat constructor|]. split; [done|]. apply Hd. by repeat constructor. Qed.

Lemma tmpfs_directory_witness :
  (exists h', create 2 (str "y") demo = (Some 6%nat, h') /\ find_child 2 (str "y") h' = Some 6%nat /\ find_child 2 (str "x") h' = Some 3%nat) /\
  (exists h', unlink 2 (str "l") demo = (true, h') /\ find_child 2 (str "l") h' = None).
Proof.
  destruct demo_wf as [Hw Hd]. destruct (demo !! 2%nat) as [d|] eqn:Hn; [|discriminate]. assert (Hdir : t_is_dir d = true) by (by injection Hn as <-). split.
  - destruct (tmpfs_directory 2 d (str "y") (str "z") demo Hw Hd Hn Hdir) as (Hc & _).
    rewrite bool_decide_eq_false_2 in Hc by (intros [?|[?|[?|[? ?]]]]; discriminate). destruct Hc as [(h' & E & _ & _ & Hf & Ho & _) _]. exists h'.
    split; [done|]. split; [done|]. by rewrite Ho.
  - destruct (tmpfs_directory 2 d (str "l") (str "z") demo Hw Hd Hn Hdir) as (_ & _ & Hu & _).
    rewrite bool_decide_eq_true_2 in Hu by (by eexists). destruct Hu as (h' & E & _ & Hf & _). by exists h'.
Defined.

Definition demo_mounts : list MountOp :=
  [DoMount (str "/") 0%nat; DoMount (str "tmp/") 1%nat; DoMount (str "/tmp") 0%nat; DoMount (str "/d/m") 1%nat; DoUmount (str "d/m/")].
Definition demo_vfs : VfsManager nat nat := foldl mount_step new_vfs demo_mounts.

Lemma vfs_resolve_refines_witness :
  resolve_path demo_vfs demo (str "/d/x") = Some 3%nat /\ resolve_path demo_vfs demo (str "/d/l") = Some 3%nat /\
  resolve_path_with_depth 1 demo_vfs demo (str "tmp/x/") = Some 5%nat.
Proof.
  split; [vm_compute; reflexivity|]. split; [vm_compute; reflexivity|]. unfold demo_vfs.
  rewrite (vfs_resolve_refines demo_mounts (str "tmp/x/") [str "tmp"; str "x"] demo 0); [vm_compute; reflexivity|].
  vm_compute. reflexivity.
Defined.

(** One slash at the end of a path is taken off and no more: after a mount at
    [/d//] the paths below [/d] do not lead into it. *)
Example double_slash_mount :
  resolve_path (mount (str "/d//") 1%nat demo_vfs) demo (str "/d/x") = Some 3%nat /\
  resolve_path (mount (str "/d/") 1%nat demo_vfs) demo (str "/d/x") = Some 5%nat.
Proof. vm_compute. done. Qed.

(** Of two mounts at one point the later is hidden, but [statfs] sees it; and
    [statfs] takes a name that begins like a mount point for one below it. *)
Example later_mount_hidden :
  resolve_path demo_vfs demo (str "/tmp") = Some 1%nat /\ (statfs_mount (str "/tmp") demo demo_vfs).1 = Some 0%nat /\
  (statfs_mount (str "/tmpx") demo demo_vfs).1 = Some 0%nat.
Proof. vm_compute. done. Qed.

(** [..] does not lead out of a mounted file system. *)
Example dotdot_stays : resolve_path demo_vfs demo (str "/tmp/../x") = Some 5%nat /\ resolve_path demo_vfs demo (str "/x") = None.
Proof. vm_compute. done. Qed.

(** A relative link in a path with [..] behind it is looked up in the wrong
    directory. *)
Example dotdot_link : resolve_path demo_vfs demo (str "/d/l/y/..") = None /\ resolve_path demo_vfs demo (str "/d/l") = Some 3%nat.
Proof. vm_compute. done. Qed.

(** A link to itself is not found. *)
Example link_cycle : resolve_path demo_vfs (symlink 0 (str "c") (str "/c") demo).2 (str "/c") = None.
Proof. vm_compute. done. Qed.

(** A renamed file is an empty directory, and a hard link has the old name. *)
Example rename_loses_file :
  let h := (rename 2 (str "x") (str "y") demo).2 in
  resolve_path demo_vfs demo (str "/d/x") = Some 3%nat /\ read 3 demo = Some (str "hi") /\
  exists n, resolve_path demo_vfs h (str "/d/y") = Some n /\ is_dir n h = true /\ read n h = None.
Proof. cbv zeta. split; [vm_compute; reflexivity|]. split; [vm_compute; reflexivity|]. exists 6%nat. vm_compute. done. Qed.

Example link_keeps_old_name :
  let '(ok, h) := link 2 3 (str "y") demo in
  ok = true /\ resolve_path demo_vfs h (str "/d/y") = None /\ names (default [] (children 2 h)) h = [str "x"; str "l"; str "x"].
Proof. vm_compute. done. Qed.
