(* ===== verification/FsPath.v ===== *)
(** * System calls on paths

    Model of [kernel/src/syscalls/fs_stat.rs], of the calls of [fs_open.rs] that
    take a path, and of the permission checks and path helpers of [helpers.rs], on
    the interface of the VFS.  [CURRENT_PROCESS] names the process of the current
    thread, so [get_current_process] does not take its lock.  What is written to the
    serial port is left out; the events of inotify are kept in a list. *)

From stdpp Require Import gmap.
From Stdlib Require Import String.
From S2P Require Import Prelude UserAccess FdTable Landlock Objects Lsm Vfs.

Definition CAP_CHOWN : Z := 1.
Definition CAP_DAC_OVERRIDE : Z := 2.
Definition CAP_DAC_READ_SEARCH : Z := 4.
Definition CAP_FOWNER : Z := 8.
Definition AT_FDCWD : Z := -100.
Definition AT_REMOVEDIR : Z := 0x200.
Definition AT_SYMLINK_NOFOLLOW : Z := 0x100.
Definition AT_EMPTY_PATH : Z := 0x1000.
Definition AT_EACCESS : Z := 0x200.
Definition IN_ATTRIB : Z := 0x4.
Definition IN_MOVED_FROM : Z := 0x40.
Definition IN_MOVED_TO : Z := 0x80.
Definition IN_CREATE : Z := 0x100.
Definition IN_DELETE : Z := 0x200.
Definition IN_ISDIR : Z := 0x40000000.
Definition MQUEUE_ST_SIZE : Z := 80.

(** An object of the handle table: a node, or another object and whether its
    [stat] succeeds. *)
Inductive Handle := HNode (n : nat) | HOther (stat_ok : bool).

Record Proc := mkProc {
  pid : Z; creds : Credentials; p_files : ProcessFiles; cwd : Str; d_fds : gmap Z Str; umask : Z;
  handles : list (option (HandleEntry Handle)); sandbox : LandlockState }.

Definition set_files (f : ProcessFiles) (p : Proc) : Proc := mkProc (pid p) (creds p) f (cwd p) (d_fds p) (umask p) (handles p) (sandbox p).
Definition set_cwd (d : Str) (p : Proc) : Proc := mkProc (pid p) (creds p) (p_files p) d (d_fds p) (umask p) (handles p) (sandbox p).
Definition set_dirs (m : gmap Z Str) (p : Proc) : Proc := mkProc (pid p) (creds p) (p_files p) (cwd p) m (umask p) (handles p) (sandbox p).
Definition set_umask (m : Z) (p : Proc) : Proc := mkProc (pid p) (creds p) (p_files p) (cwd p) (d_fds p) m (handles p) (sandbox p).
Definition set_handles (h : list (option (HandleEntry Handle))) (p : Proc) : Proc :=
  mkProc (pid p) (creds p) (p_files p) (cwd p) (d_fds p) (umask p) h (sandbox p).

(** An event: the path, the mask, the cookie and the name. *)
Definition InEvent : Type := Str * Z * Z * Str.

Section calls.
Context {F W : Type} `{VfsNode nat F W}.

(** [audit]: [NEXT_HANDLE_AUDIT_ID]; [mq]: mode and owner of the message queues;
    [now]: the clock. *)
Record World := mkWorld {
  fs : W; vfs : VfsManager nat F; cur : option Proc; lsm : Lsm; umem : UserMem; events : list InEvent; audit : Z;
  mq : Z -> Z * Z * Z; now : Z * Z }.

Definition set_fs (s : W) (w : World) : World := mkWorld s (vfs w) (cur w) (lsm w) (umem w) (events w) (audit w) (mq w) (now w).
Definition set_vfs (v : VfsManager nat F) (w : World) : World := mkWorld (fs w) v (cur w) (lsm w) (umem w) (events w) (audit w) (mq w) (now w).
Definition set_cur (p : Proc) (w : World) : World := mkWorld (fs w) (vfs w) (Some p) (lsm w) (umem w) (events w) (audit w) (mq w) (now w).
Definition set_umem (m : UserMem) (w : World) : World := mkWorld (fs w) (vfs w) (cur w) (lsm w) m (events w) (audit w) (mq w) (now w).
Definition set_audit (a : Z) (w : World) : World := mkWorld (fs w) (vfs w) (cur w) (lsm w) (umem w) (events w) a (mq w) (now w).
Definition inotify_emit (path : Str) (mask cookie : Z) (name : Str) (w : World) : World :=
  mkWorld (fs w) (vfs w) (cur w) (lsm w) (umem w) (events w ++ [(path, mask, cookie, name)]) (audit w) (mq w) (now w).

(** A call returns, panics, or has no defined behaviour. *)
Inductive Out := Done (r : Z) (w : World) | Panic | Undef.
Definition Sys : Type := World -> Out.

Definition reply (e : Z) : Sys := fun w => Done (Errno.ret e) w.

(** [read_user_string], or [EFAULT] *)
Definition with_string (ptr : Z) (k : Str -> Sys) : Sys := fun w =>
  match read_user_string (umem w) ptr PATH_MAX with Some p => k p w | None => reply Errno.EFAULT w end.
Definition with_process (k : Proc -> Sys) : Sys := fun w =>
  match cur w with Some p => k p w | None => reply Errno.ESRCH w end.
Definition with_node (path : Str) (none : Sys) (k : nat -> Sys) : Sys := fun w =>
  match resolve_path (vfs w) (fs w) path with Some n => k n w | None => none w end.

(** ** Credentials and permissions *)

Definition get_current_euid (w : World) : Z := match cur w with Some p => euid (creds p) | None => 0 end.
Definition get_current_egid (w : World) : Z := match cur w with Some p => egid (creds p) | None => 0 end.

Definition has_capability (cap_bit : Z) (w : World) : bool :=
  match cur w with Some p => (euid (creds p) =? 0) || negb (Z.land (cap_effective (creds p)) cap_bit =? 0) | None => false end.

Definition check_file_permission (mode uid gid need : Z) (w : World) : bool :=
  if has_capability CAP_DAC_OVERRIDE w then true
  else if has_capability CAP_DAC_READ_SEARCH w && (Z.land need 2 =? 0) then true
  else
    let bits := if get_current_euid w =? uid then Z.land (Z.shiftr mode 6) 7
                else if get_current_egid w =? gid then Z.land (Z.shiftr mode 3) 7 else Z.land mode 7 in
    Z.land bits need =? need.

Definition check_node_permission (n : nat) (need : Z) (w : World) : bool :=
  match n_stat n (fs w) with Some st => check_file_permission (st_mode st) (st_uid st) (st_gid st) need w | None => true end.

Definition check_file_owner (n : nat) (w : World) : bool :=
  if has_capability CAP_FOWNER w then true
  else match n_stat n (fs w) with Some st => get_current_euid w =? st_uid st | None => true end.

Definition check_chown_permission (current_uid current_gid new_uid new_gid : Z) (w : World) : bool :=
  if has_capability CAP_CHOWN w then true
  else if negb (new_uid =? current_uid) then false
  else if negb (new_gid =? current_gid) && negb (new_gid =? get_current_egid w) then false
  else true.

Definition subject (w : World) : Str := current_subject (pid <$> cur w).

(** ** Paths *)

Definition join_path (dir p : Str) : Str := dir ++ SLASH :: p.

Definition drop_last_slash (p : Str) : Str := if (1 <? length p)%nat && ends_with_slash p then removelast p else p.

Definition normalize_path (p : Str) (pr : Proc) : Str :=
  drop_last_slash (if starts_with p [SLASH] then p else if bool_decide (cwd pr = [SLASH]) then SLASH :: p else join_path (cwd pr) p).

Definition resolve_path_at (dirfd : Z) (p : Str) (pr : Proc) : option Str :=
  if starts_with p [SLASH] then Some p
  else if dirfd =? AT_FDCWD then Some (normalize_path p pr)
  else
    match d_fds pr !! u64 dirfd with
    | Some dir => Some (if ends_with_slash dir then dir ++ p else join_path dir p)
    | None => None
    end.

Definition with_path_at (dirfd : Z) (p : Str) (k : Str -> Sys) : Sys :=
  with_process (fun pr => match resolve_path_at dirfd p pr with Some a => k a | None => reply Errno.EBADF end).

(** [rfind('/')] *)
Fixpoint rfind (p : Str) : option nat :=
  match p with
  | [] => None
  | b :: p => match rfind p with Some i => Some (S i) | None => if b =? SLASH then Some O else None end
  end.

(** [&p[1..]], which panics past the end and inside of a character. *)
Definition from_one (p : Str) : option Str :=
  match p with
  | [] => None
  | [_] => Some []
  | _ :: b :: r => if (0x80 <=? b) && (b <? 0xC0) then None else Some (b :: r)
  end.

(** The parent and the name by the last slash; [None] is the panic. *)
Definition split_abs (p : Str) : option (Str * Str) :=
  match default O (rfind p) with
  | O => pair [SLASH] <$> from_one p
  | S i => Some (take (S i) p, drop (S (S i)) p)
  end.

(** The variant of [mkdir] and [unlink], for which a path without a slash is a
    name in [.]. *)
Definition split_rel (p : Str) : option (Str * Str) :=
  match default O (rfind p) with
  | O => if negb (starts_with p [SLASH]) then Some (DOT, p) else pair [SLASH] <$> from_one p
  | S i => Some (take (S i) p, drop (S (S i)) p)
  end.

(** The variant of [link], by [rsplit_once]. *)
Definition split_once (p : Str) : Str * Str :=
  match rfind p with
  | None => (DOT, p)
  | Some i => (if bool_decide (take i p = []) then DOT else take i p, drop (S i) p)
  end.

Definition split_parent (p : Str) : Str * Str :=
  let t := trim_end p in
  match rfind t with
  | Some O => ([SLASH], drop 1 t)
  | Some i => (take i t, drop (S i) t)
  | None => ([SLASH], t)
  end.

Definition with_split (s : option (Str * Str)) (k : Str -> Str -> Sys) : Sys := fun w =>
  match s with Some (parent, name) => k parent name w | None => Panic end.

(** ** stat *)

Definition stat_bytes (st : Stat) : list Z :=
  le_bytes 8 (st_dev st) ++ le_bytes 8 (st_ino st) ++ le_bytes 4 (st_mode st) ++ le_bytes 4 (st_nlink st) ++ le_bytes 4 (st_uid st) ++
  le_bytes 4 (st_gid st) ++ le_bytes 8 (st_rdev st) ++ le_bytes 8 (st_size st) ++ le_bytes 8 (st_atime st) ++ le_bytes 8 (st_mtime st) ++
  le_bytes 8 (st_ctime st) ++ le_bytes 8 (st_atime_nsec st) ++ le_bytes 8 (st_mtime_nsec st) ++ le_bytes 8 (st_ctime_nsec st).

Definition statfs_bytes (st : StatFs) : list Z :=
  mjoin (le_bytes 8 <$> [f_type st; f_bsize st; f_blocks st; f_bfree st; f_bavail st; f_files st; f_ffree st]).

(** The default [Stat] with a mode, an owner and a size. *)
Definition mode_stat (mode uid gid size : Z) : Stat := mkStat 0 0 mode 0 uid gid 0 size 0 0 0 0 0 0.

(** Copy to the user and return [r], or [EFAULT]; a copy that faults on the way has
    copied a part. *)
Definition put_user (ptr : Z) (b : list Z) (r : Z) : Sys := fun w =>
  let '(ok, m) := copy_to_user (umem w) ptr b in
  if ok then Done r (set_umem m w) else reply Errno.EFAULT (set_umem m w).

Definition put_stat (ptr : Z) (n : nat) (err : Z) : Sys := fun w =>
  match n_stat n (fs w) with Some st => put_user ptr (stat_bytes st) 0 w | None => reply err w end.

Definition sys_stat (path_ptr stat_buf : Z) : Sys :=
  with_string path_ptr (fun p => with_node p (reply Errno.ENOENT) (fun n => put_stat stat_buf n Errno.ENOENT)).

(** [lstat] follows links as [stat] does. *)
Definition sys_lstat (path_ptr stat_buf : Z) : Sys :=
  with_string path_ptr (fun p => with_node p (reply Errno.ENOENT) (fun n => put_stat stat_buf n Errno.ENOENT)).

Definition sys_statfs (path_ptr buf : Z) : Sys :=
  with_string path_ptr (fun p w =>
    let of_mount : Sys := fun w =>
      let '(root, v) := statfs_mount p (fs w) (vfs w) in
      let w := set_vfs v w in
      match root ≫= (fun r => n_statfs r (fs w)) with Some st => put_user buf (statfs_bytes st) 0 w | None => reply Errno.ENOENT w end in
    match resolve_path (vfs w) (fs w) p ≫= (fun n => n_statfs n (fs w)) with
    | Some st => put_user buf (statfs_bytes st) 0 w
    | None => of_mount w
    end).

(** [stat] of what a descriptor stands for; [chr] is the mode of the anonymous
    ones, which [fstat] and [fstatat] give differently. *)
Definition stat_descriptor (stat_buf chr : Z) (d : FileDescriptor) : Sys := fun w =>
  match d with
  | File n _ => put_stat stat_buf (Z.to_nat n) Errno.EIO w
  | PtyMaster _ _ | PtySlave _ _ => put_user stat_buf (stat_bytes (mode_stat (Z.lor S_IFCHR 0x190) 0 0 0)) 0 w
  | Socket _ _ | UnixSocket _ _ => put_user stat_buf (stat_bytes (mode_stat (Z.lor S_IFSOCK 0x1B6) 0 0 0)) 0 w
  | TimerFd _ | SignalFd _ | EventFd _ | InotifyFd _ | IoUringFd _ => put_user stat_buf (stat_bytes (mode_stat (Z.lor S_IFCHR chr) 0 0 0)) 0 w
  | Mqueue obj =>
      let '(mode, uid, gid) := mq w obj in
      put_user stat_buf (stat_bytes (mode_stat (Z.lor S_IFREG mode) uid gid MQUEUE_ST_SIZE)) 0 w
  end.

Definition sys_fstat (fd stat_buf : Z) : Sys :=
  with_process (fun pr =>
    match fd_table (p_files pr) !! Z.to_nat fd with
    | Some (Some d) => stat_descriptor stat_buf 0x1A4 d
    | _ => reply Errno.EBADF
    end).

(** The object of a handle gives a structure of 40 bytes, of which 96 are copied. *)
Definition stat_handle (dirfd : Z) (pr : Proc) : Sys := fun w =>
  match Objects.object <$> HandleTable.get (handles pr) (u64 dirfd) with
  | Some (HNode n) => match n_stat n (fs w) with Some _ => Undef | None => reply Errno.EBADF w end
  | Some (HOther true) => Undef
  | _ => reply Errno.EBADF w
  end.

Definition sys_fstatat (dirfd path_ptr stat_buf flags : Z) : Sys := fun w =>
  let empty := negb (Z.land flags AT_EMPTY_PATH =? 0) in
  match (match read_user_string (umem w) path_ptr PATH_MAX with Some p => Some p | None => if empty && (path_ptr =? 0) then Some [] else None end) with
  | None => reply Errno.EFAULT w
  | Some p =>
      if empty && bool_decide (p = []) then
        with_process (fun pr =>
          let t := fd_table (p_files pr) in
          if (Z.of_nat (length t) <=? u64 dirfd) then stat_handle dirfd pr
          else match t !! Z.to_nat (u64 dirfd) with Some (Some d) => stat_descriptor stat_buf 0x180 d | _ => reply Errno.EBADF end) w
      else
        with_path_at dirfd p (fun a =>
          if negb (Z.land flags AT_SYMLINK_NOFOLLOW =? 0) then
            let '(parent, name) := split_parent a in
            with_node parent (reply Errno.ENOENT) (fun d w =>
              match n_find_child d name (fs w) with Some n => put_stat stat_buf n Errno.ENOENT w | None => reply Errno.ENOENT w end)
          else with_node a (reply Errno.ENOENT) (fun n => put_stat stat_buf n Errno.ENOENT)) w
  end.

(** ** Modes and owners *)

(** [0], or the error when the operation fails. *)
Definition done_or (r : bool * W) (err : Z) : Sys := fun w => if r.1 then Done 0 (set_fs r.2 w) else reply err (set_fs r.2 w).

Definition emit (path : Str) (mask cookie : Z) (name : Str) (o : Out) : Out :=
  match o with Done r w => if r =? 0 then Done r (inotify_emit path mask cookie name w) else o | _ => o end.

Definition sys_chmod (path_ptr mode : Z) : Sys :=
  with_string path_ptr (fun p => with_node p (reply Errno.ENOENT) (fun n w =>
    if negb (check_file_owner n w) then reply Errno.EACCES w
    else emit p IN_ATTRIB 0 [] (done_or (n_chmod n mode (fs w)) Errno.EPERM w))).

Definition with_file (fd other : Z) (k : nat -> Sys) : Sys :=
  with_process (fun pr =>
    match fd_table (p_files pr) !! Z.to_nat fd with
    | None => reply Errno.EBADF
    | Some (Some (File n _)) => k (Z.to_nat n)
    | Some _ => reply other
    end).

Definition sys_fchmod (fd mode : Z) : Sys :=
  with_file fd Errno.ENOSYS (fun n w =>
    if negb (check_file_owner n w) then reply Errno.EACCES w else done_or (n_chmod n mode (fs w)) Errno.EPERM w).

(** The checks of [chown] and [fchown], and the change. *)
Definition do_chown (n : nat) (uid gid : Z) : Sys := fun w =>
  match n_stat n (fs w) with
  | None => reply Errno.EIO w
  | Some st =>
      if negb (check_file_owner n w) then reply Errno.EACCES w
      else if negb (check_chown_permission (st_uid st) (st_gid st) uid gid w) then reply Errno.EPERM w
      else
        let new_uid := if uid =? 0xFFFFFFFF then st_uid st else uid in
        let new_gid := if gid =? 0xFFFFFFFF then st_gid st else gid in
        done_or (n_chown n new_uid new_gid (fs w)) Errno.EPERM w
  end.

Definition sys_chown (path_ptr uid gid : Z) : Sys :=
  with_string path_ptr (fun p => with_node p (reply Errno.ENOENT) (fun n w => emit p IN_ATTRIB 0 [] (do_chown n uid gid w))).

Definition sys_fchown (fd uid gid : Z) : Sys := with_file fd Errno.ENOSYS (fun n => do_chown n uid gid).

Definition sys_umask (mask : Z) : Sys := fun w =>
  match cur w with Some p => Done (umask p) (set_cur (set_umask (Z.land mask 0x1FF) p) w) | None => Done 0 w end.

(** ** Links *)

(** [name] in [parent] as a link to [target]; [path] is what the policy sees. *)
Definition do_symlink (target path : Str) : Sys :=
  let '(parent, name) := split_parent path in
  with_node parent (reply Errno.ENOENT) (fun d w =>
    if negb (check_node_permission d 2 w) then reply Errno.EACCES w
    else if negb (hook_file_create (lsm w) (subject w) path) then reply Errno.EACCES w
    else done_or (n_symlink d name target (fs w)) Errno.EPERM w).

Definition sys_symlink (target linkpath : Z) : Sys :=
  with_string target (fun t => with_string linkpath (fun l => do_symlink t l)).

Definition sys_symlinkat (target_ptr newdirfd linkpath_ptr : Z) : Sys :=
  with_string target_ptr (fun t => with_string linkpath_ptr (fun l => with_path_at newdirfd l (fun a => do_symlink t a))).

Definition do_readlink (path : Str) (buf bufsize : Z) : Sys :=
  with_node path (reply Errno.ENOENT) (fun n w =>
    match n_readlink n (fs w) with
    | Some target =>
        let len := Z.min (Z.of_nat (length target)) bufsize in
        put_user buf (take (Z.to_nat len) target) len w
    | None => reply Errno.EINVAL w
    end).

Definition sys_readlink (pathname buf bufsize : Z) : Sys := with_string pathname (fun p => do_readlink p buf bufsize).
Definition sys_readlinkat (dirfd pathname_ptr buf bufsize : Z) : Sys :=
  with_string pathname_ptr (fun p => with_path_at dirfd p (fun a => do_readlink a buf bufsize)).

Definition sys_link (old_path_ptr new_path_ptr : Z) : Sys :=
  with_string old_path_ptr (fun o => with_string new_path_ptr (fun n =>
    with_node o (reply Errno.ENOENT) (fun old_node =>
      let '(parent, name) := split_once n in
      with_node parent (reply Errno.ENOENT) (fun d w => done_or (n_link d old_node name (fs w)) Errno.EPERM w)))).

Definition sys_linkat (olddirfd old_path_ptr newdirfd new_path_ptr flags : Z) : Sys :=
  with_string old_path_ptr (fun o => with_string new_path_ptr (fun n =>
    with_path_at olddirfd o (fun old_abs => with_path_at newdirfd n (fun new_abs =>
      with_node old_abs (reply Errno.ENOENT) (fun existing =>
        with_split (split_abs new_abs) (fun parent name =>
          with_node parent (reply Errno.ENOENT) (fun d w =>
            if negb (check_node_permission d 3 w) then reply Errno.EACCES w
            else done_or (n_link d existing name (fs w)) Errno.EIO w))))))).

(** ** Renaming *)

(** Between directories, and when the rename within one fails: the contents are
    copied and the old name is removed. *)
Definition rename_copy (source : nat) (src_parent src_name dst_parent dst_name : Str) : Sys := fun w =>
  match n_read source (fs w) with
  | None => reply Errno.EIO w
  | Some data =>
      with_node dst_parent (reply Errno.ENOENT) (fun d w =>
        if negb (check_node_permission d 3 w) then reply Errno.EACCES w
        else
          let '(made, s) := n_create d dst_name (fs w) in
          match made with
          | None => reply Errno.EIO (set_fs s w)
          | Some _ =>
              let s := match n_find_child d dst_name s with Some n => (n_write n data s).2 | None => s end in
              with_node src_parent (reply Errno.ENOENT) (fun p w => Done 0 (set_fs (n_unlink p src_name (fs w)).2 w)) (set_fs s w)
          end) w
  end.

(** [old_abs] and [new_abs] are the paths that are resolved, [old_path] and
    [new_path] those of the events. *)
Definition do_rename (old_abs new_abs old_path new_path : Str) : Sys :=
  with_node old_abs (reply Errno.ENOENT) (fun source w =>
    if negb (check_node_permission source 2 w) then reply Errno.EACCES w
    else
      with_split (split_abs old_abs) (fun src_parent src_name => with_split (split_abs new_abs) (fun dst_parent dst_name =>
        let copy := rename_copy source src_parent src_name dst_parent dst_name in
        if bool_decide (src_parent = dst_parent) then
          with_node src_parent copy (fun parent w =>
            if negb (check_node_permission parent 3 w) then reply Errno.EACCES w
            else
              let '(ok, s) := n_rename parent src_name dst_name (fs w) in
              let w := set_fs s w in
              if ok then
                let cookie := Z.lor (u32 (Z.shiftl (Z.of_nat (length src_name)) 16)) (u32 (Z.of_nat (length dst_name))) in
                Done 0 (inotify_emit new_path IN_MOVED_TO cookie dst_name (inotify_emit old_path IN_MOVED_FROM cookie src_name w))
              else copy w)
        else copy)) w).

Definition sys_rename (old_path_ptr new_path_ptr : Z) : Sys :=
  with_string old_path_ptr (fun o => with_string new_path_ptr (fun n => do_rename o n o n)).

Definition sys_renameat (olddirfd old_path_ptr newdirfd new_path_ptr : Z) : Sys :=
  with_string old_path_ptr (fun o => with_string new_path_ptr (fun n =>
    with_path_at olddirfd o (fun old_abs => with_path_at newdirfd n (fun new_abs => do_rename old_abs new_abs o n)))).

(** ** Directories *)

(** The user, the group and the mask for what is made. *)
Definition owner_mask (none : Z) (w : World) : Z * Z * Z :=
  match cur w with Some p => (euid (creds p), egid (creds p), umask p) | None => (0, 0, none) end.

(** The mode and the owner of a new node; what the two calls return is ignored. *)
Definition hand_over (n : nat) (mode uid gid : Z) (w : World) : World :=
  set_fs (n_chown n uid gid (n_chmod n mode (fs w)).2).2 w.

(** [path] is what the policy sees, [event] the path of the event. *)
Definition do_mkdir (parent name path event : Str) (mode : Z) : Sys :=
  with_node parent (reply Errno.EIO) (fun d w =>
    if negb (check_node_permission d 3 w) then reply Errno.EACCES w
    else if negb (hook_dir_mkdir (lsm w) (subject w) path) then reply Errno.EACCES w
    else
      let '(made, s) := n_mkdir d name (fs w) in
      let w := set_fs s w in
      match made with
      | None => reply Errno.EIO w
      | Some n =>
          let '(uid, gid, mask) := owner_mask 0 w in
          let raw_mode := if mode =? 0 then 0x1FF else mode in
          let w := hand_over n (Z.land (Z.land raw_mode (Z.lnot mask)) 0x1FF) uid gid w in
          Done 0 (inotify_emit event (Z.lor IN_CREATE IN_ISDIR) 0 name w)
      end).

Definition sys_mkdir (path_ptr mode : Z) : Sys :=
  with_string path_ptr (fun p => with_split (split_rel p) (fun parent name => do_mkdir parent name p p mode)).

Definition sys_mkdirat (dirfd path_ptr mode : Z) : Sys :=
  with_string path_ptr (fun p => with_path_at dirfd p (fun a => with_split (split_abs a) (fun parent name => do_mkdir parent name a p mode))).

Definition sys_unlink (path_ptr : Z) : Sys :=
  with_string path_ptr (fun p => with_split (split_rel p) (fun parent name =>
    with_node parent (reply Errno.EIO) (fun d w =>
      if negb (check_node_permission d 3 w) then reply Errno.EACCES w
      else if negb (hook_file_unlink (lsm w) (subject w) p) then reply Errno.EACCES w
      else emit p IN_DELETE 0 name (done_or (n_unlink d name (fs w)) Errno.EIO w)))).

(** The policy is not asked when a directory is removed. *)
Definition sys_unlinkat (dirfd path_ptr flags : Z) : Sys :=
  with_string path_ptr (fun p => with_path_at dirfd p (fun a => with_split (split_abs a) (fun parent name =>
    with_node parent (reply Errno.EIO) (fun d w =>
      if negb (check_node_permission d 3 w) then reply Errno.EACCES w
      else if negb (Z.land flags AT_REMOVEDIR =? 0) then
        match n_find_child d name (fs w) with
        | Some n => if negb (n_is_dir n (fs w)) then reply Errno.ENOTDIR w else done_or (n_unlink d name (fs w)) Errno.EIO w
        | None => done_or (n_unlink d name (fs w)) Errno.EIO w
        end
      else if negb (hook_file_unlink (lsm w) (subject w) a) then reply Errno.EACCES w
      else done_or (n_unlink d name (fs w)) Errno.EIO w)))).

(** ** Sizes and times *)

Definition sys_truncate (path_ptr len : Z) : Sys :=
  with_string path_ptr (fun p => with_node p (reply Errno.ENOENT) (fun n w =>
    if negb (check_node_permission n 2 w) then reply Errno.EACCES w else done_or (n_truncate n len (fs w)) Errno.EIO w)).

Definition sys_ftruncate (fd len : Z) : Sys := fun w =>
  match cur w with
  | None => reply Errno.EBADF w
  | Some pr =>
      match fd_table (p_files pr) !! Z.to_nat fd with
      | Some (Some (File n _)) => done_or (n_truncate (Z.to_nat n) len (fs w)) Errno.EIO w
      | _ => reply Errno.EBADF w
      end
  end.

Definition sys_utimensat (dirfd pathname_ptr times_ptr flags : Z) : Sys :=
  with_string pathname_ptr (fun p => with_node p (reply Errno.ENOENT) (fun n w =>
    done_or (n_utimens n (now w) (now w) (fs w)) Errno.EPERM w)).

(** ** Opening *)

Definition O_CREAT : Z := 0x40.
Definition O_DIRECTORY : Z := 0x10000.
Definition LANDLOCK_ACCESS_FS_WRITE_FILE : Z := 2.
Definition LANDLOCK_ACCESS_FS_READ_FILE : Z := 4.

Definition vfs_descriptor : Dacl.SecurityDescriptor := Dacl.mkSd 0 0 [].

(** What the access mode of the flags asks of the policy, of the sandbox and of
    the object. *)
Definition open_perm (flags : Z) : Str :=
  if Z.land flags 3 =? 1 then str "write" else if Z.land flags 3 =? 2 then str "read+write" else str "read".
Definition open_landlock (flags : Z) : Z :=
  if Z.land flags 3 =? 1 then LANDLOCK_ACCESS_FS_WRITE_FILE
  else if Z.land flags 3 =? 2 then Z.lor LANDLOCK_ACCESS_FS_READ_FILE LANDLOCK_ACCESS_FS_WRITE_FILE else LANDLOCK_ACCESS_FS_READ_FILE.
Definition open_access (flags : Z) : Z :=
  if Z.land flags 3 =? 1 then ACCESS_WRITE else if Z.land flags 3 =? 2 then Z.lor ACCESS_READ ACCESS_WRITE else ACCESS_READ.

(** The slot is free in both tables and is filled in both. *)
Definition add_fd (pr : Proc) (n : nat) (open_flags : Z) : Sys := fun w =>
  if negb (Dacl.access_check (creds pr) vfs_descriptor (open_access open_flags)) then reply Errno.EACCES w
  else
    let ht := handles pr in
    let '(idx, files) := add_file (length ht) (fun i => HandleTable.is_valid ht (Z.of_nat i)) (p_files pr) (Z.of_nat n) open_flags in
    let '(table, next) := HandleTable.insert_at ht (audit w) idx (HNode n) (open_access open_flags) (u64 open_flags) in
    match table with
    | Some t => Done idx (set_audit next (set_cur (set_handles t (set_files files pr)) w))
    | None => Panic
    end.

Definition store_dir_path (fd : Z) (p : Str) (w : World) : World :=
  match cur w with
  | Some pr => if i64 fd <? 0 then w else set_cur (set_dirs (<[fd := normalize_path p pr]> (d_fds pr)) pr) w
  | None => w
  end.

Definition check_sandbox (path : Str) (access : Z) (w : World) : bool :=
  match cur w with Some p => LandlockState.check_access (sandbox p) path access | None => true end.

Definition open_existing (path : Str) (flags : Z) (n : nat) : Sys := fun w =>
  if negb (hook_file_perm (lsm w) (subject w) path (open_perm flags)) then reply Errno.EACCES w
  else if negb (check_sandbox path (open_landlock flags) w) then reply Errno.EACCES w
  else if negb (Z.land flags O_DIRECTORY =? 0) && negb (n_is_dir n (fs w)) then reply Errno.ENOTDIR w
  else
    match cur w with
    | None => reply Errno.ENOENT w
    | Some pr =>
        match add_fd pr n flags w with
        | Done fd w => Done fd (if (0 <=? i64 fd) && n_is_dir n (fs w) then store_dir_path fd path w else w)
        | o => o
        end
    end.

Definition open_new (path : Str) (flags mode : Z) : Sys :=
  with_split (split_abs path) (fun parent name => with_node parent (reply Errno.ENOENT) (fun d w =>
    if negb (hook_file_create (lsm w) (subject w) path) then reply Errno.EACCES w
    else if negb (check_node_permission d 3 w) then reply Errno.EACCES w
    else
      let '(made, s) := n_create d name (fs w) in
      let w := set_fs s w in
      match made with
      | None => reply Errno.EIO w
      | Some n =>
          let '(uid, gid, mask) := owner_mask 0x12 w in
          let raw_mode := if mode =? 0 then 0x1B6 else mode in
          let w := hand_over n (Z.land raw_mode (Z.lnot mask)) uid gid w in
          match cur w with Some pr => add_fd pr n flags w | None => reply Errno.ENOENT w end
      end)).

Definition open_file (path : Str) (flags mode : Z) : Sys :=
  with_node path (if negb (Z.land flags O_CREAT =? 0) then open_new path flags mode else reply Errno.ENOENT)
    (open_existing path flags).

Definition sys_open (path_ptr flags mode : Z) : Sys := with_string path_ptr (fun p => open_file p flags mode).
Definition sys_openat (dirfd path_ptr flags mode : Z) : Sys :=
  with_string path_ptr (fun p => with_path_at dirfd p (fun a => open_file a flags mode)).

(** ** Access and the current directory *)

Definition do_access (n : nat) (mode : Z) : Sys := fun w =>
  let need := Z.land mode 7 in
  if need =? 0 then Done 0 w else if check_node_permission n need w then Done 0 w else reply Errno.EACCES w.

Definition sys_access (path_ptr mode : Z) : Sys :=
  with_string path_ptr (fun p => with_node p (reply Errno.ENOENT) (fun n => do_access n mode)).

(** With [AT_EACCESS] the code writes the same check out again. *)
Definition sys_faccessat (dirfd pathname_ptr mode flags : Z) : Sys :=
  with_string pathname_ptr (fun p => with_path_at dirfd p (fun a => with_node a (reply Errno.ENOENT) (fun n w =>
    let need := Z.land mode 7 in
    if need =? 0 then Done 0 w
    else if negb (Z.land flags AT_EACCESS =? 0) then
      match n_stat n (fs w) with
      | None => Done 0 w
      | Some st =>
          if has_capability CAP_DAC_OVERRIDE w then Done 0 w
          else if has_capability CAP_DAC_READ_SEARCH w && (Z.land need 2 =? 0) then Done 0 w
          else
            let bits := if get_current_euid w =? st_uid st then Z.land (Z.shiftr (st_mode st) 6) 7
                        else if get_current_egid w =? st_gid st then Z.land (Z.shiftr (st_mode st) 3) 7 else Z.land (st_mode st) 7 in
            if Z.land bits need =? need then Done 0 w else reply Errno.EACCES w
      end
    else if check_node_permission n need w then Done 0 w else reply Errno.EACCES w))).

(** The pointer is written to as it is: outside of mapped user memory the effect
    is undefined. *)
Definition sys_getcwd (buf size : Z) : Sys :=
  with_process (fun pr w =>
    let b := cwd pr ++ [0] in
    if size <? Z.of_nat (length b) then reply Errno.ERANGE w
    else if negb (validate_ptr buf (Z.of_nat (length b))) then Undef
    else let '(ok, m) := user_write (umem w) buf b in if ok then Done buf (set_umem m w) else Undef).

Definition sys_chdir (path_ptr : Z) : Sys :=
  with_string path_ptr (fun p => with_node p (reply Errno.ENOENT) (fun n w =>
    if negb (n_is_dir n (fs w)) then reply Errno.ENOTDIR w
    else if negb (check_node_permission n 1 w) then reply Errno.EACCES w
    else match cur w with Some pr => Done 0 (set_cur (set_cwd (normalize_path p pr) pr) w) | None => reply Errno.ENOENT w end)).

(** ** What a call may change

    The calls, the operations on nodes that they are made of, and the operations
    that the rights of the caller cover. *)

Inductive Call :=
| CStat (path buf : Z) | CLstat (path buf : Z) | CStatfs (path buf : Z) | CFstat (fd buf : Z) | CFstatat (dirfd path buf flags : Z)
| CChmod (path mode : Z) | CFchmod (fd mode : Z) | CChown (path uid gid : Z) | CFchown (fd uid gid : Z) | CUmask (mask : Z)
| CSymlink (target path : Z) | CSymlinkat (target dirfd path : Z) | CReadlink (path buf size : Z) | CReadlinkat (dirfd path buf size : Z)
| CLink (old new : Z) | CLinkat (olddirfd old newdirfd new flags : Z) | CRename (old new : Z) | CRenameat (olddirfd old newdirfd new : Z)
| CMkdir (path mode : Z) | CMkdirat (dirfd path mode : Z) | CUnlink (path : Z) | CUnlinkat (dirfd path flags : Z)
| CTruncate (path len : Z) | CFtruncate (fd len : Z) | CUtimensat (dirfd path times flags : Z)
| COpen (path flags mode : Z) | COpenat (dirfd path flags mode : Z) | CAccess (path mode : Z) | CFaccessat (dirfd path mode flags : Z)
| CGetcwd (buf size : Z) | CChdir (path : Z).

Definition exec (c : Call) : Sys :=
  match c with
  | CStat p b => sys_stat p b | CLstat p b => sys_lstat p b | CStatfs p b => sys_statfs p b | CFstat fd b => sys_fstat fd b
  | CFstatat d p b fl => sys_fstatat d p b fl | CChmod p m => sys_chmod p m | CFchmod fd m => sys_fchmod fd m
  | CChown p u g => sys_chown p u g | CFchown fd u g => sys_fchown fd u g | CUmask m => sys_umask m
  | CSymlink t p => sys_symlink t p | CSymlinkat t d p => sys_symlinkat t d p
  | CReadlink p b n => sys_readlink p b n | CReadlinkat d p b n => sys_readlinkat d p b n
  | CLink o n => sys_link o n | CLinkat d o d' n fl => sys_linkat d o d' n fl
  | CRename o n => sys_rename o n | CRenameat d o d' n => sys_renameat d o d' n
  | CMkdir p m => sys_mkdir p m | CMkdirat d p m => sys_mkdirat d p m | CUnlink p => sys_unlink p | CUnlinkat d p fl => sys_unlinkat d p fl
  | CTruncate p n => sys_truncate p n | CFtruncate fd n => sys_ftruncate fd n | CUtimensat d p t fl => sys_utimensat d p t fl
  | COpen p fl m => sys_open p fl m | COpenat d p fl m => sys_openat d p fl m
  | CAccess p m => sys_access p m | CFaccessat d p m fl => sys_faccessat d p m fl | CGetcwd b n => sys_getcwd b n | CChdir p => sys_chdir p
  end.

(** All but the calls that change nodes without a check, and renaming, which takes
    the old name out of a directory that it does not check. *)
Definition checked (c : Call) : bool :=
  match c with CLink _ _ | CRename _ _ | CRenameat _ _ _ _ | CFtruncate _ _ | CUtimensat _ _ _ _ => false | _ => true end.

Inductive NodeOp :=
| NMkdir (d : nat) (name : Str) | NCreate (d : nat) (name : Str) | NUnlink (d : nat) (name : Str) | NLink (d e : nat) (name : Str)
| NSymlink (d : nat) (name target : Str) | NTruncate (n : nat) (len : Z) | NChmod (n : nat) (mode : Z) | NChown (n : nat) (uid gid : Z).

Definition run_op (s : W) (op : NodeOp) : W :=
  match op with
  | NMkdir d name => (n_mkdir d name s).2 | NCreate d name => (n_create d name s).2 | NUnlink d name => (n_unlink d name s).2
  | NLink d e name => (n_link d e name s).2 | NSymlink d name t => (n_symlink d name t s).2
  | NTruncate n len => (n_truncate n len s).2 | NChmod n m => (n_chmod n m s).2 | NChown n u g => (n_chown n u g s).2
  end.

(** *** The rights of the caller *)

Inductive Right := MayWrite | MaySearch.

(** The place of a right in the three bits of a class. *)
Definition right_bit (r : Right) : Z := match r with MayWrite => 1 | MaySearch => 0 end.

(** The caller is root or has the capability with this number. *)
Definition has_cap (w : World) (i : Z) : Prop :=
  exists p, cur w = Some p /\ (euid (creds p) = 0 \/ Z.testbit (cap_effective (creds p)) i = true).

(** Without a process the kernel acts for user 0 and group 0. *)
Definition caller (w : World) : Z * Z := match cur w with Some p => (euid (creds p), egid (creds p)) | None => (0, 0) end.

(** Where the bits of the caller's class start: owner, group or others. *)
Definition class_of (w : World) (st : Stat) (k : Z) : Prop :=
  ((caller w).1 = st_uid st /\ k = 6) \/
  ((caller w).1 <> st_uid st /\ (caller w).2 = st_gid st /\ k = 3) \/
  ((caller w).1 <> st_uid st /\ (caller w).2 <> st_gid st /\ k = 0).

(** Capability 1, CAP_DAC_OVERRIDE, gives every right, and 2, CAP_DAC_READ_SEARCH,
    those that are not writing; otherwise the mode has the bits of the rights in
    the class of the caller. *)
Definition allows (w : World) (st : Stat) (rights : list Right) : Prop :=
  has_cap w 1 \/ (has_cap w 2 /\ MayWrite ∉ rights) \/
  exists k, class_of w st k /\ forall r, r ∈ rights -> Z.testbit (st_mode st) (k + right_bit r) = true.

(** A node whose [stat] fails is open to everybody. *)
Definition node_allows (w : World) (n : nat) (rights : list Right) : Prop :=
  forall st, n_stat n (fs w) = Some st -> allows w st rights.

(** Capability 3 is CAP_FOWNER. *)
Definition owns (w : World) (n : nat) : Prop :=
  has_cap w 3 \/ forall st, n_stat n (fs w) = Some st -> (caller w).1 = st_uid st.

(** A new node of the caller, with a mode without the bits of the umask. *)
Definition callers_own (w : World) (mode uid gid : Z) : Prop :=
  (uid, gid) = caller w /\ forall p, cur w = Some p -> Z.land mode (umask p) = 0.

(** The node that an operation needs rights on, and the rights. *)
Definition op_need (op : NodeOp) : option (nat * list Right) :=
  match op with
  | NMkdir d _ | NCreate d _ | NUnlink d _ | NLink d _ _ => Some (d, [MayWrite; MaySearch])
  | NSymlink d _ _ => Some (d, [MayWrite])
  | NTruncate n _ => Some (n, [MayWrite])
  | NChmod _ _ | NChown _ _ _ => None
  end.

Definition made (op : NodeOp) (s : W) : option nat :=
  match op with NMkdir d name => (n_mkdir d name s).1 | NCreate d name => (n_create d name s).1 | _ => None end.

(** The operations that the rights of the caller in [w] cover: one on a node with
    the rights; the mode by the owner; the owner by the owner, who without
    capability 0, CAP_CHOWN, keeps the user and gives one of two groups; and a new
    node with the rights on its directory, which goes to the caller. *)
Inductive granted (w : World) : list NodeOp -> Prop :=
| granted_none : granted w []
| granted_rights op n rights : op_need op = Some (n, rights) -> node_allows w n rights -> granted w [op]
| granted_chmod n mode : owns w n -> granted w [NChmod n mode]
| granted_chown n st uid gid :
    owns w n -> n_stat n (fs w) = Some st ->
    has_cap w 0 \/ uid = st_uid st /\ (gid = st_gid st \/ gid = (caller w).2) ->
    granted w [NChown n uid gid]
| granted_made op d n mode uid gid :
    op_need op = Some (d, [MayWrite; MaySearch]) -> node_allows w d [MayWrite; MaySearch] -> made op (fs w) = Some n ->
    callers_own w mode uid gid -> granted w [op; NChmod n mode; NChown n uid gid].

(** *** The checks of the code give the rights *)

Lemma land_pow2_bit x i : 0 <= i -> negb (Z.land x (2 ^ i) =? 0) = Z.testbit x i.
Proof.
  intros Hi. destruct (Z.eqb_spec (Z.land x (2 ^ i)) 0) as [E|E]; cbn [negb].
  - apply (f_equal (fun y => Z.testbit y i)) in E. rewrite Z.land_spec, Z.pow2_bits_true, Z.bits_0, andb_true_r in E by done. done.
  - destruct (Z.testbit x i) eqn:Hx; [done|]. exfalso. apply E. apply Z.bits_inj'. intros j Hj.
    rewrite Z.land_spec, Z.pow2_bits_eqb, Z.bits_0 by done. destruct (Z.eqb_spec i j) as [<-|]; [by rewrite Hx|apply andb_false_r].
Qed.

Lemma capability_cap w i : 0 <= i -> has_capability (2 ^ i) w = true -> has_cap w i.
Proof.
  intros Hi. unfold has_capability, has_cap. destruct (cur w) as [p|]; [|done]. rewrite land_pow2_bit by done.
  intros [?%Z.eqb_eq|?]%orb_true_iff; eauto.
Qed.

Lemma caller_euid w : get_current_euid w = (caller w).1.
Proof. unfold get_current_euid, caller. by destruct (cur w). Qed.
Lemma caller_egid w : get_current_egid w = (caller w).2.
Proof. unfold get_current_egid, caller. by destruct (cur w). Qed.

(** The bits that the code asks for. *)
Definition need_bits (rights : list Right) : Z := foldr (fun r b => Z.lor (2 ^ right_bit r) b) 0 rights.

Lemma need_bit rights r : r ∈ rights -> Z.testbit (need_bits rights) (right_bit r) = true.
Proof.
  induction 1 as [r l|r r' l _ IH]; cbn [need_bits foldr]; rewrite Z.lor_spec.
  - rewrite Z.pow2_bits_true; [done|by destruct r].
  - fold (need_bits l). by rewrite IH, orb_true_r.
Qed.

Lemma class_bits mode k need rights :
  0 <= k -> need = need_bits rights -> (Z.land (Z.land (Z.shiftr mode k) 7) need =? need) = true ->
  forall r, r ∈ rights -> Z.testbit mode (k + right_bit r) = true.
Proof.
  intros Hk -> E%Z.eqb_eq r Hr. apply need_bit in Hr. assert (Hb : 0 <= right_bit r) by by destruct r.
  apply (f_equal (fun y => Z.testbit y (right_bit r))) in E. rewrite !Z.land_spec, Z.shiftr_spec, Hr, andb_true_r in E by done.
  rewrite Z.add_comm. by apply andb_true_iff in E as [? _].
Qed.

Lemma permission_allows w st rights :
  check_file_permission (st_mode st) (st_uid st) (st_gid st) (need_bits rights) w = true -> allows w st rights.
Proof.
  unfold check_file_permission, allows, class_of. rewrite caller_euid, caller_egid.
  destruct (has_capability CAP_DAC_OVERRIDE w) eqn:E1; [intros _; left; by apply (capability_cap w 1)|].
  destruct (has_capability CAP_DAC_READ_SEARCH w && _) eqn:E2.
  { apply andb_true_iff in E2 as [E2 Hw]. intros _. right. left. split; [by apply (capability_cap w 2)|].
    intros Hr%need_bit. pose proof (land_pow2_bit (need_bits rights) 1 ltac:(lia)) as Hb. cbn [right_bit] in Hr. rewrite Hr in Hb.
    change (2 ^ 1) with 2 in Hb. by rewrite Hw in Hb. }
  intros Hbits. right. right. destruct (Z.eqb_spec (caller w).1 (st_uid st)); [|destruct (Z.eqb_spec (caller w).2 (st_gid st))].
  - exists 6. split; [by left|]. by apply (class_bits _ 6 (need_bits rights)).
  - exists 3. split; [by right; left|]. by apply (class_bits _ 3 (need_bits rights)).
  - exists 0. split; [by right; right|]. apply (class_bits _ 0 (need_bits rights)); [done..|]. by rewrite Z.shiftr_0_r.
Qed.

Lemma checked_allows w n rights need : need = need_bits rights -> check_node_permission n need w = true -> node_allows w n rights.
Proof. intros -> Hc st Hs. unfold check_node_permission in Hc. rewrite Hs in Hc. by apply permission_allows. Qed.

Lemma checked_owns w n : check_file_owner n w = true -> owns w n.
Proof.
  unfold check_file_owner. destruct (has_capability CAP_FOWNER w) eqn:E; [intros _; left; by apply (capability_cap w 3)|].
  intros Hc. right. intros st Hs. rewrite Hs in Hc. rewrite <- caller_euid. by apply Z.eqb_eq.
Qed.

Lemma checked_granted w op n rights need :
  op_need op = Some (n, rights) -> need = need_bits rights -> check_node_permission n need w = true -> granted w [op].
Proof. intros Ho Hn Hc. eapply granted_rights; [done|]. by eapply checked_allows. Qed.

(** *** What a call does *)

(** The nodes are changed by operations that were granted, and mounts, policy and
    credentials are not changed. *)
Definition within (w w' : World) : Prop :=
  (exists ops, granted w ops /\ fs w' = foldl run_op (fs w) ops) /\
  mounts (vfs w') = mounts (vfs w) /\ lsm w' = lsm w /\ creds <$> cur w' = creds <$> cur w.

Definition outcome (w : World) (o : Out) : Prop := match o with Done _ w' => within w w' | _ => True end.

(** [w'] is [w] but for the memory, the events, the numbers of handles and the
    process, which keeps its credentials. *)
Definition aside (w w' : World) : Prop :=
  fs w' = fs w /\ mounts (vfs w') = mounts (vfs w) /\ lsm w' = lsm w /\ creds <$> cur w' = creds <$> cur w.

Lemma aside_refl w : aside w w.
Proof. done. Qed.

Lemma within_aside w w1 w2 : within w w1 -> aside w1 w2 -> within w w2.
Proof.
  intros ((ops & Hg & Hf) & Hm & Hl & Hc) (Hf2 & Hm2 & Hl2 & Hc2). split; [|by rewrite Hm2, Hl2, Hc2].
  exists ops. by rewrite Hf2.
Qed.

Lemma within_refl w : within w w.
Proof. split; [|done]. exists []. by split; [constructor|]. Qed.

Lemma outcome_reply w w1 e : within w w1 -> outcome w (reply e w1).
Proof. done. Qed.

Lemma outcome_string w ptr k : (forall p, outcome w (k p w)) -> outcome w (with_string ptr k w).
Proof. intros Hk. unfold with_string. case_match; [apply Hk|apply within_refl]. Qed.

Lemma outcome_process w k : (forall p, cur w = Some p -> outcome w (k p w)) -> outcome w (with_process k w).
Proof. intros Hk. unfold with_process. destruct (cur w) eqn:E; [by apply Hk|apply within_refl]. Qed.

Lemma outcome_node w path none k : outcome w (none w) -> (forall n, outcome w (k n w)) -> outcome w (with_node path none k w).
Proof. intros Hn Hk. unfold with_node. case_match; [apply Hk|done]. Qed.

Lemma outcome_path_at w dirfd p k : (forall a, outcome w (k a w)) -> outcome w (with_path_at dirfd p k w).
Proof. intros Hk. apply outcome_process. intros pr _. case_match; [apply Hk|apply within_refl]. Qed.

Lemma outcome_split w sp k : (forall parent name, outcome w (k parent name w)) -> outcome w (with_split sp k w).
Proof. intros Hk. unfold with_split. destruct sp as [[??]|]; [apply Hk|done]. Qed.

Lemma outcome_put_user w w1 ptr b r : within w w1 -> outcome w (put_user ptr b r w1).
Proof. intros Hw. unfold put_user. destruct (copy_to_user _ _ _) as [[] m]; cbn; by eapply within_aside. Qed.

Lemma outcome_put_stat w ptr n e : outcome w (put_stat ptr n e w).
Proof. unfold put_stat. case_match; [apply outcome_put_user|]; apply within_refl. Qed.

Lemma outcome_emit w path mask cookie name o : outcome w o -> outcome w (emit path mask cookie name o).
Proof. intros Ho. destruct o as [r w'| |]; [|done..]. cbn in *. case_match; [by eapply within_aside|done]. Qed.

Lemma within_op w op s : granted w [op] -> s = run_op (fs w) op -> within w (set_fs s w).
Proof. intros Hg ->. split; [|done]. by exists [op]. Qed.

Lemma outcome_done_or w r e op : granted w [op] -> r.2 = run_op (fs w) op -> outcome w (done_or r e w).
Proof. intros Hg Hr. unfold done_or. case_match; by eapply within_op. Qed.

Lemma land_lnot_mask raw mask : Z.land (Z.land raw (Z.lnot mask)) mask = 0.
Proof. apply Z.bits_inj'. intros i Hi. rewrite !Z.land_spec, Z.lnot_spec, Z.bits_0 by done. by destruct (Z.testbit raw i), (Z.testbit mask i). Qed.

Lemma within_made w op d n s mode none uid gid mask :
  op_need op = Some (d, [MayWrite; MaySearch]) -> check_node_permission d 3 w = true -> made op (fs w) = Some n ->
  s = run_op (fs w) op -> owner_mask none w = (uid, gid, mask) -> Z.land mode mask = 0 ->
  within w (hand_over n mode uid gid (set_fs s w)).
Proof.
  intros Hn Hc Hm -> Ho Hz. split; [|done]. exists [op; NChmod n mode; NChown n uid gid]. split; [|done].
  eapply granted_made; [done|by eapply checked_allows|done|]. unfold owner_mask, callers_own, caller in *.
  destruct (cur w); injection Ho as <- <- <-; split; [done|by intros ? [= <-]|done|done].
Qed.

Lemma outcome_add_fd w w1 pr n fl : within w w1 -> cur w1 = Some pr -> outcome w (add_fd pr n fl w1).
Proof.
  intros Hw Hc. unfold add_fd. case_match; [done|]. destruct (add_file _ _ _ _ _) as [idx files]. destruct (HandleTable.insert_at _ _ _ _ _ _) as [[t|] next]; [|done].
  cbn. eapply within_aside; [done|]. repeat split. cbn. by rewrite Hc.
Qed.

Lemma check_bits w n need rights op k :
  op_need op = Some (n, rights) -> need = need_bits rights ->
  (check_node_permission n need w = true -> granted w [op] -> outcome w k) ->
  outcome w (if negb (check_node_permission n need w) then reply Errno.EACCES w else k).
Proof. intros Hn Hb Hk. destruct (check_node_permission n need w) eqn:E; [|apply within_refl]. apply Hk; [done|]. by eapply checked_granted. Qed.

Lemma check_policy w (b : bool) e k : outcome w k -> outcome w (if negb b then reply e w else k).
Proof. destruct b; [done|]. intros _. apply within_refl. Qed.

Lemma outcome_descriptor w buf chr d : outcome w (stat_descriptor buf chr d w).
Proof.
  destruct d; cbn; try (apply outcome_put_user, within_refl); [apply outcome_put_stat|].
  destruct (mq w obj) as [[??]?]. apply outcome_put_user, within_refl.
Qed.

Lemma outcome_handle w dirfd pr : outcome w (stat_handle dirfd pr w).
Proof. unfold stat_handle. repeat case_match; try done; apply within_refl. Qed.

Lemma outcome_file w fd other k : (forall n, outcome w (k n w)) -> outcome w (with_file fd other k w).
Proof. intros Hk. apply outcome_process. intros pr _. repeat case_match; try apply within_refl. apply Hk. Qed.

Lemma outcome_chmod w n mode : check_file_owner n w = true -> outcome w (done_or (n_chmod n mode (fs w)) Errno.EPERM w).
Proof. intros E. apply (outcome_done_or w _ _ (NChmod n mode)); [by apply granted_chmod, checked_owns|done]. Qed.

Lemma check_mode w n need e k : (check_node_permission n need w = true -> outcome w k) ->
  outcome w (if negb (check_node_permission n need w) then reply e w else k).
Proof. destruct (check_node_permission n need w); [by intros Hk; apply Hk|]. intros _. apply within_refl. Qed.

Lemma check_owner w n e k : (check_file_owner n w = true -> outcome w k) -> outcome w (if negb (check_file_owner n w) then reply e w else k).
Proof. destruct (check_file_owner n w); [by intros Hk; apply Hk|]. intros _. apply within_refl. Qed.

Lemma outcome_chown w n uid gid : outcome w (do_chown n uid gid w).
Proof.
  unfold do_chown. destruct (n_stat n (fs w)) as [st|] eqn:Es; [|apply within_refl].
  destruct (check_file_owner n w) eqn:Eo; [|apply within_refl]. destruct (check_chown_permission _ _ _ _ w) eqn:Ec; [|apply within_refl].
  eapply (outcome_done_or w _ _ (NChown n _ _)); [|done]. eapply granted_chown; [by apply checked_owns|done|]. rewrite <- caller_egid.
  unfold check_chown_permission in Ec. destruct (has_capability CAP_CHOWN w) eqn:E; [left; by apply (capability_cap w 0)|right]. cbn [negb] in Ec.
  destruct (Z.eqb_spec uid (st_uid st)) as [->|]; [|done]. split; [by destruct (_ =? 0xFFFFFFFF)|].
  destruct (Z.eqb_spec gid 0xFFFFFFFF); [by left|].
  destruct (Z.eqb_spec gid (st_gid st)); [by left|]. destruct (Z.eqb_spec gid (get_current_egid w)); [by right|done].
Qed.

Lemma outcome_symlink w target path : outcome w (do_symlink target path w).
Proof.
  unfold do_symlink. destruct (split_parent path) as [parent name]. apply outcome_node; [apply within_refl|]. intros d.
  apply (check_bits _ _ _ [MayWrite] (NSymlink d name target)); [done..|]. intros _ Hg. apply check_policy. by eapply outcome_done_or.
Qed.

Lemma outcome_readlink w path buf size : outcome w (do_readlink path buf size w).
Proof. apply outcome_node; [apply within_refl|]. intros n. case_match; [apply outcome_put_user|]; apply within_refl. Qed.

Lemma outcome_mkdir w parent name path event mode : outcome w (do_mkdir parent name path event mode w).
Proof.
  apply outcome_node; [apply within_refl|]. intros d. apply (check_bits _ _ _ [MayWrite; MaySearch] (NMkdir d name)); [done..|]. intros Hc Hg. apply check_policy.
  destruct (n_mkdir d name (fs w)) as [[n|] s] eqn:E; cbn zeta; [|apply outcome_reply; eapply within_op; [done|by cbn; rewrite E]].
  destruct (owner_mask 0 (set_fs s w)) as [[uid gid] mask] eqn:Eo.
  assert (Hw : within w (hand_over n (Z.land (Z.land (if mode =? 0 then 0x1FF else mode) (Z.lnot mask)) 0x1FF) uid gid (set_fs s w))).
  { eapply (within_made w (NMkdir d name)); [done|done|by cbn; rewrite E|by cbn; rewrite E|exact Eo|].
    rewrite <- Z.land_assoc, (Z.land_comm 0x1FF), Z.land_assoc. by rewrite land_lnot_mask. }
  by eapply within_aside.
Qed.

Lemma outcome_unlink w d name e : check_node_permission d 3 w = true -> outcome w (done_or (n_unlink d name (fs w)) e w).
Proof. intros Hc. apply (outcome_done_or w _ _ (NUnlink d name)); [by eapply checked_granted|done]. Qed.

Lemma outcome_link w d n name e : check_node_permission d 3 w = true -> outcome w (done_or (n_link d n name (fs w)) e w).
Proof. intros Hc. apply (outcome_done_or w _ _ (NLink d n name)); [by eapply checked_granted|done]. Qed.

Lemma outcome_truncate w n len e : check_node_permission n 2 w = true -> outcome w (done_or (n_truncate n len (fs w)) e w).
Proof. intros Hc. apply (outcome_done_or w _ _ (NTruncate n len)); [by eapply checked_granted|done]. Qed.

Lemma outcome_existing w path fl n : outcome w (open_existing path fl n w).
Proof.
  unfold open_existing. apply check_policy, check_policy. case_match; [apply within_refl|].
  destruct (cur w) as [pr|] eqn:Ec; [|apply within_refl].
  pose proof (outcome_add_fd w w pr n fl (within_refl w) Ec) as Ha. destruct (add_fd pr n fl w) as [fd w'| |]; [|done..]. cbn in *.
  case_match; [|done]. eapply within_aside; [done|]. unfold store_dir_path. destruct (cur w') eqn:Ec'; [|done].
  case_match; [done|]. repeat split. cbn. by rewrite Ec'.
Qed.

Lemma outcome_new w path fl mode : outcome w (open_new path fl mode w).
Proof.
  apply outcome_split. intros parent name. apply outcome_node; [apply within_refl|]. intros d. apply check_policy.
  apply (check_bits _ _ _ [MayWrite; MaySearch] (NCreate d name)); [done..|]. intros Hc Hg.
  destruct (n_create d name (fs w)) as [[n|] s] eqn:E; cbn zeta; [|apply outcome_reply; eapply within_op; [done|by cbn; rewrite E]].
  destruct (owner_mask 0x12 (set_fs s w)) as [[uid gid] mask] eqn:Eo.
  assert (Hw : within w (hand_over n (Z.land (if mode =? 0 then 0x1B6 else mode) (Z.lnot mask)) uid gid (set_fs s w))).
  { eapply (within_made w (NCreate d name)); [done|done|by cbn; rewrite E|by cbn; rewrite E|exact Eo|apply land_lnot_mask]. }
  set (w1 := hand_over _ _ _ _ _) in *. destruct (cur w1) eqn:Ec; [by apply outcome_add_fd|by apply outcome_reply].
Qed.

Lemma outcome_open w path fl mode : outcome w (open_file path fl mode w).
Proof. apply outcome_node; [case_match; [apply outcome_new|apply within_refl]|]. intros n. apply outcome_existing. Qed.

Ltac cases :=
  match goal with
  | |- outcome _ (match ?x with _ => _ end) => destruct x eqn:?
  | |- outcome _ ((match ?x with _ => _ end) _) => destruct x eqn:?
  end.

Ltac call_rule :=
  cbn beta;
  lazymatch goal with
  | |- outcome _ (with_string _ _ _) => apply outcome_string; intros ?
  | |- outcome _ (with_path_at _ _ _ _) => apply outcome_path_at; intros ?
  | |- outcome _ (with_split _ _ _) => apply outcome_split; intros ? ?
  | |- outcome _ (with_node _ _ _ _) => apply outcome_node; [try apply within_refl|intros ?]
  | |- outcome _ (with_file _ _ _ _) => apply outcome_file; intros ?
  | |- outcome _ (put_stat _ _ _ _) => apply outcome_put_stat
  | |- outcome _ (put_user _ _ _ _) => apply outcome_put_user, within_refl
  | |- outcome _ (do_chown _ _ _ _) => apply outcome_chown
  | |- outcome _ (do_symlink _ _ _) => apply outcome_symlink
  | |- outcome _ (do_readlink _ _ _ _) => apply outcome_readlink
  | |- outcome _ (do_mkdir _ _ _ _ _ _) => apply outcome_mkdir
  | |- outcome _ (open_file _ _ _ _) => apply outcome_open
  | |- outcome _ (emit _ _ _ _ _) => apply outcome_emit
  | |- outcome _ (if negb (check_file_owner _ _) then _ else _) => apply check_owner; intros ?
  | |- outcome _ (if negb (check_node_permission _ _ _) then _ else _) => apply check_mode; intros ?
  | |- outcome _ (done_or (n_chmod _ _ _) _ _) => by apply outcome_chmod
  | |- outcome _ (done_or (n_unlink _ _ _) _ _) => by apply outcome_unlink
  | |- outcome _ (done_or (n_link _ _ _ _) _ _) => by apply outcome_link
  | |- outcome _ (done_or (n_truncate _ _ _) _ _) => by apply outcome_truncate
  | |- outcome _ (reply _ _) => apply within_refl
  end.

Lemma outcome_statfs w path buf : outcome w (sys_statfs path buf w).
Proof.
  apply outcome_string. intros p. cbn zeta beta. cases; [apply outcome_put_user, within_refl|].
  assert (Ha : aside w (set_vfs (statfs_mount p (fs w) (vfs w)).2 w)).
  { repeat split. cbn. unfold statfs_mount. repeat case_match; done. }
  destruct (statfs_mount p (fs w) (vfs w)) as [root v]. cbn [snd] in Ha.
  pose proof (within_aside w w _ (within_refl w) Ha) as Hw. cases; [by apply outcome_put_user|by apply outcome_reply].
Qed.

Lemma outcome_fstatat w dirfd path buf fl : outcome w (sys_fstatat dirfd path buf fl w).
Proof.
  unfold sys_fstatat. cbn zeta. cases; [|apply within_refl]. cases.
  - apply outcome_process. intros pr _. cbn zeta. cases; [apply outcome_handle|]. repeat cases; try apply within_refl. apply outcome_descriptor.
  - apply outcome_path_at. intros a. cases; [|repeat call_rule]. destruct (split_parent a). call_rule. cases; repeat call_rule.
Qed.

Lemma outcome_unlinkat w dirfd path fl : outcome w (sys_unlinkat dirfd path fl w).
Proof.
  unfold sys_unlinkat. repeat call_rule. cases; [|by apply check_policy, outcome_unlink].
  cases; [apply check_policy|]; by apply outcome_unlink.
Qed.


(** ** The descriptor of an opened node *)

Lemma shared_slot_spec fuel valid f i :
  let k := shared_slot fuel valid f i in
  (i <= k <= i + fuel)%nat /\ (forall j, (i <= j < k)%nat -> valid j = true \/ is_Some (fd_get f (Z.of_nat j))) /\
  (k = (i + fuel)%nat \/ valid k = false /\ fd_get f (Z.of_nat k) = None).
Proof.
  revert i. induction fuel as [|fuel IH]; intros i; cbn [shared_slot]; [split_and!; [lia..|intros; lia|left; lia]|].
  destruct (valid i) eqn:Hv; cbn [orb]; [|case_bool_decide as Hf].
  3: { split_and!; [lia..|intros; lia|right]. split; [done|]. destruct (fd_get f (Z.of_nat i)); [by destruct Hf; eexists|done]. }
  all: destruct (IH (S i)) as (Hk & Hj & He); split_and!; [lia..| |destruct He; [left; lia|by right]].
  all: intros j Hij; destruct (decide (j = i)) as [->|]; [tauto|apply Hj; lia].
Qed.

(** The descriptor [fd] was free in both tables and names [n] in both now, with the
    access and the flags of the call; it is the lowest such; other descriptors are as
    they were. *)
Definition binds (pr pr' : Proc) (fd : Z) (n : nat) (flags : Z) : Prop :=
  fd_get (p_files pr) fd = None /\ HandleTable.get (handles pr) fd = None /\
  (forall j, 0 <= j < fd -> is_Some (fd_get (p_files pr) j) \/ is_Some (HandleTable.get (handles pr) j)) /\
  files_set (p_files pr) (p_files pr') fd (Some (File (Z.of_nat n) 0)) (u64 flags) /\
  exists e, Objects.object e = HNode n /\ entry_mask e = open_access flags /\ entry_flags e = u64 flags /\
    forall j, 0 <= j -> HandleTable.get (handles pr') j = if decide (j = fd) then Some e else HandleTable.get (handles pr) j.

Lemma add_file_spec len valid f node flags idx f' :
  add_file len valid f node flags = (idx, f') -> (forall i, (len <= i)%nat -> valid i = false) ->
  0 <= idx <= Z.of_nat (len `max` length (fd_table f)) /\ valid (Z.to_nat idx) = false /\ fd_get f idx = None /\
  (forall j, 0 <= j < idx -> valid (Z.to_nat j) = true \/ is_Some (fd_get f j)) /\ files_set f f' idx (Some (File node 0)) (u64 flags).
Proof.
  unfold add_file. set (i := shared_slot _ _ _ _). cbn zeta. intros [= <- <-] Hlen.
  destruct (shared_slot_spec (len `max` length (fd_table f)) valid f 0) as (Hk & Hj & He). fold i in Hk, Hj, He. rewrite Nat2Z.id.
  assert (Hfree : valid i = false /\ fd_get f (Z.of_nat i) = None).
  { destruct He as [He|He]; [|done]. split; [apply Hlen; lia|]. unfold fd_get. by rewrite Nat2Z.id, lookup_ge_None_2 by lia. }
  destruct Hfree as [Hv Hg]. split_and!; [lia..|done|done| |].
  - intros j Hij. destruct (Hj (Z.to_nat j)) as [?|Hs]; [lia|by left|]. right. by rewrite Z2Nat.id in Hs by lia.
  - apply files_set_nat. intros j. cbn [fd_table fd_flags]. split.
    + destruct (Nat.leb_spec (length (fd_table f)) i).
      * rewrite slot_insert by (rewrite length_resize; lia). by rewrite slot_resize by lia.
      * by rewrite slot_insert by lia.
    + destruct (Nat.leb_spec (length (fd_flags f)) i).
      * rewrite flags_insert by (rewrite length_resize; lia). by rewrite flags_resize by lia.
      * by rewrite flags_insert by lia.
Qed.

Definition tables_small (pr : Proc) : Prop := Z.of_nat (length (handles pr)) < M63 - 1 /\ Z.of_nat (length (fd_table (p_files pr))) < M63 - 1.

Lemma add_fd_binds pr n flags w : tables_small pr ->
  exists fd pr' next, add_fd pr n flags w = Done fd (set_audit next (set_cur pr' w)) /\ 0 <= fd < M63 /\ binds pr pr' fd n flags /\
    cwd pr' = cwd pr /\ d_fds pr' = d_fds pr.
Proof.
  intros [Hh Hf]. unfold add_fd. assert (Hac : Dacl.access_check (creds pr) vfs_descriptor (open_access flags) = true).
  { unfold Dacl.access_check. by repeat case_match. }
  rewrite Hac. cbn [negb]. destruct (add_file _ _ _ _ _) as [fd files] eqn:Ha.
  apply add_file_spec in Ha as (Hb & Hv & Hg & Hlow & Hset); [|intros i Hi; unfold HandleTable.is_valid, HandleTable.get;
    rewrite Nat2Z.id, lookup_ge_None_2 by done; by apply bool_decide_eq_false_2; intros []].
  unfold HandleTable.insert_at. set (e := mkEntry (HNode n) _ _ _ _ _). destruct (put_abs (handles pr) fd e) as (t' & -> & Ht).
  { lia. }
  do 3 eexists. split; [done|]. split; [lia|]. split; [|done]. unfold HandleTable.is_valid in Hv, Hlow. split_and!.
  - done.
  - apply bool_decide_eq_false in Hv. rewrite Z2Nat.id in Hv by lia. destruct (HandleTable.get _ fd); [by destruct Hv; eexists|done].
  - intros j Hj. destruct (Hlow j Hj) as [Hs%bool_decide_eq_true|Hs]; [right|by left]. by rewrite Z2Nat.id in Hs by lia.
  - done.
  - exists e. split_and!; [done..|]. intros j Hj. cbn [handles set_handles]. rewrite !get_abs, Ht. case_decide as E.
    + subst. by rewrite lookup_insert_eq.
    + rewrite lookup_insert_ne by lia. by rewrite <- get_abs.
Qed.

(** C38. Opening a path that leads to a node. If the policy or the sandbox forbids
    the access, or a directory is asked for and the node is not one, the call is
    refused and nothing changes. Otherwise it returns a descriptor, whatever the mode
    of the node: the lowest that is free in the descriptor table and in the handle
    table of the process, which names the node in both afterwards, with the access and
    the flags of the call, while every other descriptor and handle is as before; the
    file systems are not changed, and the path of a directory is kept for the
    calls that are relative to it. *)
Theorem open_binds path flags mode w n pr :
  cur w = Some pr -> tables_small pr -> resolve_path (vfs w) (fs w) path = Some n ->
  if negb (hook_file_perm (lsm w) (subject w) path (open_perm flags) && LandlockState.check_access (sandbox pr) path (open_landlock flags))
  then open_file path flags mode w = Done (Errno.ret Errno.EACCES) w
  else if negb (Z.land flags O_DIRECTORY =? 0) && negb (n_is_dir n (fs w)) then open_file path flags mode w = Done (Errno.ret Errno.ENOTDIR) w
  else exists fd w' pr', open_file path flags mode w = Done fd w' /\ 0 <= fd < M63 /\ cur w' = Some pr' /\ fs w' = fs w /\
         binds pr pr' fd n flags /\ d_fds pr' = if n_is_dir n (fs w) then <[fd := normalize_path path pr]> (d_fds pr) else d_fds pr.
Proof.
  intros Hc Hs Hr. unfold open_file, with_node. rewrite Hr. unfold open_existing, check_sandbox. rewrite Hc.
  destruct (hook_file_perm _ _ _ _); cbn [andb negb]; [|done]. destruct (LandlockState.check_access _ _ _); cbn [negb]; [|done].
  destruct (_ && _); [done|]. destruct (add_fd_binds pr n flags w Hs) as (fd & pr' & next & -> & Hfd & Hb & Hcwd & Hd).
  assert (Hi : i64 fd = fd) by (unfold i64; rewrite Z.mod_small by lia; case_match; lia). rewrite Hi.
  destruct (Z.leb_spec 0 fd); [|lia]. cbn [andb fs set_audit set_cur]. destruct (n_is_dir n (fs w)).
  - eexists fd, _, _. split; [done|]. split; [done|]. unfold store_dir_path. cbn [cur set_audit set_cur]. rewrite Hi.
    destruct (Z.ltb_spec fd 0); [lia|]. split; [reflexivity|]. split; [done|]. split; [exact Hb|]. cbn [d_fds set_dirs]. unfold normalize_path.
    by rewrite Hcwd, Hd.
  - eexists fd, _, _. split; [done|]. split; [done|]. by split.
Qed.

End calls.
