(* ===== verification/FsSound.v ===== *)
(** * A directory made through the calls

    The calls on paths over the VFS with the file system in memory: what [mkdir]
    makes is found by its path, belongs to the caller and has the mode that was
    asked for without the bits of the mask, and no other path leads elsewhere. *)

From stdpp Require Import gmap.
From Stdlib Require Import String.
From S2P Require Import Prelude UserAccess FdTable Landlock Objects Lsm Vfs Tmpfs FsPath.

(** ** Paths of children *)

(** A mount point that is not a child called [name]. *)
Definition mount_clear (name m : Str) : Prop := m = [SLASH] \/ m <> [] /\ last m <> Some SLASH /\ ~ (SLASH :: name) `suffix_of` m.

Lemma split_slash_app p q : split_slash (p ++ SLASH :: q) = split_slash p ++ split_slash q.
Proof.
  induction p as [|b p IH]; [done|]. cbn [app split_slash]. rewrite IH. destruct (b =? SLASH); [done|].
  destruct (split_slash p) eqn:E; [by destruct (split_slash_nil p)|done].
Qed.

Lemma components_app p q : components (p ++ SLASH :: q) = components p ++ components q.
Proof. unfold components. by rewrite split_slash_app, filter_app. Qed.

Lemma components_trail p : components (p ++ [SLASH]) = components p.
Proof. rewrite components_app. apply app_nil_r. Qed.

Lemma components_name name : name_ok name -> components name = [name].
Proof. intros (Hne & Hs & _). unfold components. rewrite split_slash_last by done. by rewrite filter_cons_True. Qed.

(** [p], with the leading slash; nothing when it is empty. *)
Definition lead (p : Str) : Str := match p with [] => [] | _ => if starts_with p [SLASH] then p else SLASH :: p end.

Lemma starts_cons b p : starts_with (b :: p) [SLASH] = (b =? SLASH).
Proof. rewrite Z.eqb_sym. by destruct p; cbn [starts_with]; rewrite andb_true_r. Qed.

Lemma lead_slash p : lead p = [] /\ p = [] \/ exists r, lead p = SLASH :: r.
Proof.
  destruct p as [|b p]; [by left|right]. unfold lead. destruct (starts_with (b :: p) [SLASH]) eqn:E; [by apply starts_slash|by eexists].
Qed.

Lemma components_lead p : components (lead p) = components p.
Proof. unfold lead. destruct p; [done|]. by case_match. Qed.

Lemma fix_child p name : name_ok name -> fix_path (p ++ SLASH :: name) = lead p ++ SLASH :: name.
Proof.
  intros (Hne & Hs & _). unfold fix_path. set (q := if starts_with _ _ then _ else _).
  assert (Hq : q = lead p ++ SLASH :: name).
  { unfold q. destruct p as [|b p]; [by rewrite (proj2 (starts_slash _)) by by eexists|]. unfold lead. cbn [app]. rewrite !starts_cons. by case_match. }
  assert (Hl : ends_with_slash q = false).
  { unfold ends_with_slash. rewrite Hq. apply bool_decide_eq_false. destruct (exists_last Hne) as (a & x & ->). rewrite app_comm_cons, app_assoc, last_snoc.
    intros [= ->]. apply Hs, elem_of_app. right. by left. }
  by rewrite Hl, andb_false_r.
Qed.

(** What [fix_path] leaves of a path. *)
Lemma drop_slash_cases q : drop_last_slash q = q \/ exists r, q = r ++ [SLASH] /\ r <> [] /\ drop_last_slash q = r.
Proof.
  unfold drop_last_slash. destruct ((1 <? length q)%nat && ends_with_slash q) eqn:E; [|by left]. right.
  apply andb_true_iff in E as [Hl%Nat.ltb_lt He%bool_decide_eq_true].
  apply last_Some in He as [r ->]. rewrite length_app in Hl. cbn in Hl. exists r.
  split; [done|]. split; [intros ->; cbn in Hl; lia|apply removelast_last].
Qed.

Lemma fix_lead p : p <> [] -> fix_path p = lead p \/ exists r, lead p = r ++ [SLASH] /\ r <> [] /\ fix_path p = r.
Proof. destruct p as [|b p]; [done|]. intros _. exact (drop_slash_cases (lead (b :: p))). Qed.

Lemma components_fix p : components (fix_path p) = components p.
Proof.
  destruct (decide (p = [])) as [->|Hp]; [done|]. rewrite <- (components_lead p).
  destruct (fix_lead p Hp) as [->|(r & E & _ & ->)]; [done|]. by rewrite E, components_trail.
Qed.

Lemma covers_iff p m : m <> [SLASH] -> mount_covers p m = true <-> p = m \/ m ++ [SLASH] `prefix_of` p.
Proof.
  intros Hm. unfold mount_covers, Str in *. rewrite bool_decide_eq_false_2 by done. cbn [orb]. rewrite orb_true_iff, andb_true_iff, !bool_decide_eq_true, starts_with_spec.
  split; (intros [->|H]; [by left|right]).
  - destruct H as [[r ->] Hl]. rewrite lookup_app_r, Nat.sub_diag in Hl by lia. destruct r as [|b r]; [done|]. injection Hl as ->. exists r. by rewrite <- app_assoc.
  - destruct H as [r ->]. rewrite <- app_assoc. split; [by eexists|]. cbn [app]. by rewrite list_lookup_middle.
Qed.

Lemma prefix_child (m q name : list Z) : (SLASH ∉ name) -> m ++ [SLASH] `prefix_of` q ++ SLASH :: name -> m = q \/ m ++ [SLASH] `prefix_of` q.
Proof.
  intros Hs [k E]. rewrite <- !app_assoc in E. cbn [app] in E. apply app_eq_inv in E as [(l & -> & E)|(l & -> & E)].
  - destruct l as [|b l]; [left; by rewrite app_nil_r|]. injection E as <- E. right. exists l. by rewrite <- app_assoc.
  - destruct l as [|b l]; [left; by rewrite app_nil_r|]. injection E as <- ->. destruct Hs. apply elem_of_app. right. by left.
Qed.

Lemma prefix_strip (m r : list Z) : last m <> Some SLASH -> m <> [] -> m ++ [SLASH] `prefix_of` r ++ [SLASH] -> r = m \/ m ++ [SLASH] `prefix_of` r.
Proof. intros Hl Hm Hp. apply prefix_child in Hp as [->|?]; [by left|by right|]. apply not_elem_of_nil. Qed.

(** A path and that of a child are below the same mount points. *)
Lemma covers_child p name m : name_ok name -> mount_clear name m -> mount_covers (fix_path (p ++ SLASH :: name)) m = mount_covers (fix_path p) m.
Proof.
  intros Hn [->|(Hne & Hl & Hsuf)]; [done|]. assert (Hm : m <> [SLASH]) by (intros ->; by apply Hl). rewrite fix_child by done.
  apply eq_bool_prop_intro. rewrite !Is_true_true, !covers_iff by done. destruct Hn as (Hn0 & Hs & _). split.
  - intros [E|Hp]; [destruct Hsuf; by exists (lead p)|]. apply prefix_child in Hp; [|done]. destruct (decide (p = [])) as [->|Hp0].
    { cbn in Hp. destruct Hp as [->|[k E]]; [done|]. by destruct m. }
    destruct (fix_lead p Hp0) as [->|(r & E & Hr & ->)]; [destruct Hp as [->|]; [by left|by right]|]. rewrite E in Hp. destruct Hp as [->|Hp]; [by rewrite last_snoc in Hl|].
    by apply prefix_strip.
  - intros Hc. right. destruct (decide (p = [])) as [->|Hp0]; [destruct Hc as [E|[k E]]; [done|by destruct m as [|? [|]]]|].
    destruct (fix_lead p Hp0) as [Ef|(r & E & Hr & Ef)]; rewrite Ef in Hc.
    + destruct Hc as [<-|[k ->]]; [exists name; by rewrite <- app_assoc|]. rewrite <- !app_assoc. by eexists; rewrite <- !app_assoc.
    + rewrite E. destruct Hc as [->|[k ->]]; rewrite <- !app_assoc; by eexists; rewrite <- !app_assoc.
Qed.

Lemma fix_slash p : exists r, fix_path p = SLASH :: r.
Proof.
  destruct (decide (p = [])) as [->|Hp]; [by eexists|]. destruct (lead_slash p) as [[_ ?]|[r Hr]]; [done|].
  destruct (fix_lead p Hp) as [->|(q & E & Hq & ->)]; [by eexists|]. rewrite Hr in E. destruct q; [done|]. injection E as <- _. by eexists.
Qed.

Lemma rel_root p : components (rel_path (fix_path p) [SLASH]) = components p.
Proof. unfold rel_path. rewrite bool_decide_eq_true_2 by done. destruct (fix_slash p) as [r E]. rewrite <- (components_fix p), E. symmetry. exact (components_app [] r). Qed.

Lemma components_rel p name m : name_ok name -> mount_clear name m -> mount_covers (fix_path p) m = true ->
  components (rel_path (fix_path (p ++ SLASH :: name)) m) = components (rel_path (fix_path p) m) ++ [name].
Proof.
  intros Hn Hc Hv. destruct (decide (m = [SLASH])) as [->|Hm]; [rewrite !rel_root, components_app; by rewrite (components_name name)|].
  destruct Hc as [?|(Hne & Hl & _)]; [done|]. rewrite fix_child by done. apply covers_iff in Hv; [|done].
  unfold rel_path. rewrite !bool_decide_eq_false_2 by done.
  assert (Hz : exists z, fix_path p = m ++ z) by (destruct Hv as [->|[k ->]]; [exists []; by rewrite app_nil_r|eexists; by rewrite <- app_assoc]).
  destruct Hz as [z Hz]. rewrite Hz, drop_app_length. destruct (decide (p = [])) as [->|Hp].
  { exfalso. destruct Hv as [E|[k E]]; [by rewrite <- E in Hm|]. by destruct m as [|? [|]]. }
  rewrite <- (components_name name) by done. destruct (fix_lead p Hp) as [E|(r & -> & _ & E)].
  - rewrite <- E, Hz, <- app_assoc, drop_app_length. apply components_app.
  - rewrite <- E, Hz, <- !app_assoc, drop_app_length. cbn [app]. by rewrite components_app.
Qed.

(** ** Resolution *)

Section resolution.
Context {N F W : Type} `{VfsNode N F W}.

Lemma normalized_snoc cs name : name_ok name -> normalized (cs ++ [name]) = normalized cs ++ [name].
Proof. intros (_ & _ & Hd & Hdd). unfold normalized. rewrite foldl_app. cbn. unfold normal_step at 1. by rewrite !bool_decide_eq_false_2. Qed.

Lemma link_path_snoc mp cs rest target name : link_path mp (cs ++ [name]) (rest ++ [name]) target = link_path mp cs rest target ++ SLASH :: name.
Proof.
  unfold link_path. rewrite !length_app. cbn [length]. replace (length cs + 1 - (length rest + 1) - 1)%nat with (length cs - length rest - 1)%nat by lia.
  rewrite take_app_le by lia. rewrite fmap_app, join_app. cbn [fmap list_fmap mjoin list_join]. by rewrite app_nil_r, <- app_assoc.
Qed.

Lemma walk_child again mp cs s name d n :
  (forall p, again p = Some d -> again (p ++ SLASH :: name) = Some n) ->
  n_is_dir d s = true -> n_find_child d name s = Some n -> link_target n s = None ->
  forall names cur, walk again mp cs s cur names = Some d -> walk again mp (cs ++ [name]) s cur (names ++ [name]) = Some n.
Proof.
  intros Ha Hd Hf Hl. induction names as [|c rest IH]; intros cur; cbn [walk app]; [intros [= ->]; by rewrite Hd, Hf, Hl|].
  destruct (n_is_dir cur s); cbn [negb]; [|done]. destruct (n_find_child cur c s) as [x|]; [|done]. destruct (link_target x s); [|apply IH].
  intros Hr. rewrite link_path_snoc. by apply Ha.
Qed.

(** A path leads to a directory, and the path of a child to the child. *)
Lemma resolve_child fuel (v : VfsManager N F) s name d n :
  name_ok name -> Forall (fun m => mount_clear name (mnt_path m)) (mounts v) ->
  n_is_dir d s = true -> n_find_child d name s = Some n -> link_target n s = None ->
  forall p, resolve_path_with_depth fuel v s p = Some d -> resolve_path_with_depth fuel v s (p ++ SLASH :: name) = Some n.
Proof.
  intros Hn Hm Hd Hf Hl. induction fuel as [|fuel IH]; intros p; cbn [resolve_path_with_depth]; [done|].
  assert (Hfind : find_mount (fix_path (p ++ SLASH :: name)) v = find_mount (fix_path p) v).
  { unfold find_mount. f_equal. induction Hm as [|m ms Hc _ IHm]; cbn [list_find]; [done|]. rewrite !(covers_child _ _ _ Hn Hc). by rewrite IHm. }
  rewrite Hfind. destruct (find_mount (fix_path p) v) as [m|] eqn:Em; [|done]. cbn. destruct (n_root (mnt_fs m) s) as [r|]; [|done]. cbn.
  unfold find_mount in Em. apply fmap_Some in Em as ([i m'] & Em & ->). apply list_find_Some in Em as (Hi & Hc & _). cbn in Hc |- *.
  rewrite Forall_forall in Hm. rewrite components_rel, normalized_snoc; [|done..|eapply Hm, list_elem_of_lookup_2; done|done].
  intros Hw. by eapply walk_child.
Qed.

(** What may change so that every path that led to a node leads to it still. *)
Definition extends (s s' : W) : Prop :=
  (forall f, n_root f s' = n_root f s) /\ 
  (forall n c x, n_is_dir n s = true -> n_find_child n c s = Some x -> n_is_dir n s' = true /\ n_find_child n c s' = Some x /\ link_target x s' = link_target x s).

Lemma resolve_extends fuel (v : VfsManager N F) s s' : extends s s' ->
  forall p n, resolve_path_with_depth fuel v s p = Some n -> resolve_path_with_depth fuel v s' p = Some n.
Proof.
  intros [Hr Hf]. induction fuel as [|fuel IH]; intros p n; cbn [resolve_path_with_depth]; [done|].
  destruct (find_mount _ v) as [m|]; [|done]. cbn. rewrite Hr. destruct (n_root _ s) as [r|]; [|done]. cbn.
  generalize (components (rel_path (fix_path p) (mnt_path m))). intros cs. generalize (normalized cs). intros names. revert r.
  induction names as [|c rest IHn]; intros r; cbn [walk]; [done|]. destruct (n_is_dir r s) eqn:Hd; cbn [negb]; [|done].
  destruct (n_find_child r c s) as [x|] eqn:Hx; [|done]. destruct (Hf r c x Hd Hx) as (-> & -> & ->). cbn [negb].
  destruct (link_target x s); [apply IH|apply IHn].
Qed.

End resolution.

(** ** A new directory *)

Lemma stat_children n d cs i h : h !! n = Some d -> stat i (<[n := set_children cs d]> h) = stat i h.
Proof.
  intros Hn. unfold stat. destruct (decide (i = n)) as [->|]; [|by rewrite list_lookup_insert_ne].
  by rewrite list_lookup_insert_eq, Hn by by eapply lookup_lt_Some.
Qed.

Lemma readlink_children n d cs i h : h !! n = Some d -> readlink i (<[n := set_children cs d]> h) = readlink i h.
Proof.
  intros Hn. unfold readlink. destruct (decide (i = n)) as [->|]; [|by rewrite list_lookup_insert_ne].
  by rewrite list_lookup_insert_eq, Hn by by eapply lookup_lt_Some.
Qed.

Lemma is_dir_children n d cs i h : h !! n = Some d -> is_dir i (<[n := set_children cs d]> h) = is_dir i h.
Proof.
  intros Hn. unfold is_dir. destruct (decide (i = n)) as [->|]; [|by rewrite list_lookup_insert_ne].
  by rewrite list_lookup_insert_eq, Hn by by eapply lookup_lt_Some.
Qed.

Lemma link_target_push n d cs t i h : h !! n = Some d -> (i < length h)%nat ->
  link_target i (push_child n d cs t h).2 = link_target i h.
Proof.
  intros Hn Hi. assert (Hn' : (h ++ [t]) !! n = Some d) by (rewrite lookup_app_l; [done|by eapply lookup_lt_Some]).
  rewrite push_app by done. unfold link_target. cbn [n_stat n_readlink tmpfs_nodes]. rewrite stat_children, readlink_children by done.
  unfold stat, readlink. by rewrite lookup_app_l.
Qed.

Lemma find_child_some n m c h : is_dir n h = true -> find_child_default children node_name n m h = Some c ->
  exists d, h !! n = Some d /\ t_is_dir d = true /\ c ∈ t_children d.
Proof.
  unfold is_dir. destruct (h !! n) as [d|] eqn:Hn; [|done]. intros [Hd _]%andb_true_iff Hf. exists d. split_and!; [done..|].
  rewrite (find_child_dir n d) in Hf by done. unfold named in Hf. apply fmap_Some in Hf as ([i x] & Hf & ->).
  apply list_find_Some in Hf as (Hi & _). by eapply list_elem_of_lookup_2.
Qed.

Lemma push_extends n d t h : heap_wf h -> h !! n = Some d -> t_is_dir d = true -> has_child (t_name t) (t_children d) h = false ->
  extends h (push_child n d (t_children d) t h).2.
Proof.
  intros Hw Hn Hd Hc. split; [done|]. intros i m x Hi Hf. cbn [n_is_dir n_find_child tmpfs_nodes] in *.
  destruct (find_child_some i m x h Hi Hf) as (u & Hu & Hud & Hx). destruct (hw_below h Hw i u x Hu Hx) as [Hlt _].
  assert (Hil : (i < length h)%nat) by by eapply lookup_lt_Some. split_and!; [| |by apply link_target_push].
  - rewrite push_app by done. rewrite is_dir_children by (rewrite lookup_app_l; [done|by eapply lookup_lt_Some]).
    unfold is_dir in *. by rewrite lookup_app_l.
  - destruct (push_grows n d t h Hw Hn Hd Hc) as (_ & _ & _ & Ho & _). destruct (decide (i = n)) as [->|Hne].
    + destruct (decide (m = t_name t)) as [->|Hm]; [|by rewrite Ho]. exfalso. apply not_true_iff_false in Hc. apply Hc, has_child_spec.
      rewrite (find_child_dir n d) in Hf by done. apply dec_stable. rewrite <- named_none. congruence.
    + rewrite push_app by done. assert (Hn' : (h ++ [t]) !! n = Some d) by (rewrite lookup_app_l; [done|by eapply lookup_lt_Some]).
      assert (Hu' : (<[n := set_children (t_children d ++ [length h]) d]> (h ++ [t])) !! i = Some u) by (rewrite list_lookup_insert_ne by done; by rewrite lookup_app_l).
      rewrite (find_child_dir i u) by done. rewrite (find_child_dir i u) in Hf by done. rewrite <- Hf. apply named_names.
      rewrite names_children by done. by eapply names_snoc.
Qed.

Lemma rfind_none p : (SLASH ∉ p) -> rfind p = None.
Proof.
  induction p as [|b p IH]; [done|]. intros [Hb Hp]%not_elem_of_cons. cbn [rfind]. rewrite IH by done.
  destruct (Z.eqb_spec b SLASH); [by destruct Hb|done].
Qed.

Lemma rfind_app p name : (SLASH ∉ name) -> rfind (p ++ SLASH :: name) = Some (length p).
Proof. intros Hn. induction p as [|b p IH]; cbn [app rfind]; [by rewrite rfind_none|by rewrite IH]. Qed.

Lemma read_utf8 m ptr n p : read_user_string m ptr n = Some p -> from_utf8 p = true.
Proof.
  unfold read_user_string. case_match; [done|]. case_match; [done|]. destruct (user_read m ptr n); [|done]. cbn.
  destruct (until_nul _) as [s|]; [|done]. cbn. destruct (from_utf8 s) eqn:E; [|done]. by intros [= <-].
Qed.

Lemma utf8_start b p : from_utf8 (b :: p) = true -> (0x80 <=? b) && (b <? 0xC0) = false.
Proof.
  intros Hu. apply not_true_iff_false. intros [Hl%Z.leb_le Hh%Z.ltb_lt]%andb_true_iff. cbn [from_utf8] in Hu.
  destruct (Z.ltb_spec b 0x80); [lia|]. unfold cont in Hu.
  assert (H1 : forall lo hi, 0xC0 <= lo -> (lo <=? b) && (b <=? hi) = false) by (intros; apply andb_false_iff; left; apply Z.leb_gt; lia).
  rewrite !H1 in Hu by lia. by destruct p as [|? [|? [|]]].
Qed.

Definition parent_path (p : Str) : Str := match p with [] => [SLASH] | _ => p end.

Lemma drop_child (p : list Z) b q : drop (S (length p)) (p ++ b :: q) = q.
Proof. by induction p. Qed.

Lemma split_rel_child p name : name_ok name -> from_utf8 (p ++ SLASH :: name) = true -> split_rel (p ++ SLASH :: name) = Some (parent_path p, name).
Proof.
  intros (Hne & Hs & _) Hu. unfold split_rel. rewrite rfind_app by done. cbn [from_option id]. destruct p as [|b p]; cbn [length app].
  - rewrite starts_cons. change (SLASH =? SLASH) with true. cbn [negb]. destruct name as [|c name]; [done|]. cbn [from_one].
    rewrite (utf8_start c name); [done|exact Hu].
  - pose proof (take_app_length (b :: p) (SLASH :: name)) as Ht. pose proof (drop_child (b :: p) SLASH name) as Hd.
    cbn [length app] in Ht, Hd. unfold Str in *. by rewrite Ht, Hd.
Qed.

Lemma resolve_parent (v : VfsManager nat nat) (h : Heap) p : resolve_path v h (parent_path p) = resolve_path v h p.
Proof. by destruct p. Qed.

Lemma hand_over_push n d cs t m u g h :
  (chown (length h) u g (chmod (length h) m (push_child n d cs t h).2).2).2 = (push_child n d cs (set_owner u g (set_mode (Z.land m 0xFFF) t)) h).2.
Proof.
  unfold push_child. cbn [snd]. set (l := <[n := _]> h). assert (Hl : length h = length l) by (unfold l; by rewrite length_insert). rewrite Hl.
  unfold chmod. rewrite list_lookup_middle by done. cbn [snd]. unfold chown.
  rewrite insert_app_r_alt, Nat.sub_diag by done. cbn [list_insert insert]. rewrite list_lookup_middle by done. cbn [snd].
  by rewrite insert_app_r_alt, Nat.sub_diag by done.
Qed.

(** The mode of a directory that is asked for with [mode]. *)
Definition dir_mode (mode mask : Z) : Z := Z.land (Z.land (if mode =? 0 then 0x1FF else mode) (Z.lnot mask)) 0x1FF.

Lemma dir_mode_bits mode mask : Z.land (dir_mode mode mask) 0xFFF = dir_mode mode mask /\ 0 <= dir_mode mode mask < 0x1000.
Proof.
  unfold dir_mode. set (x := Z.land _ (Z.lnot mask)). assert (E : Z.land (Z.land x 0x1FF) 0xFFF = Z.land x 0x1FF) by by rewrite <- Z.land_assoc.
  split; [done|]. rewrite <- E. apply land_bound. apply Z.land_nonneg. by right.
Qed.

Definition new_dir (name : Str) (mode : Z) (pr : Proc) : TmpNode :=
  set_owner (euid (creds pr)) (egid (creds pr)) (set_mode (dir_mode mode (umask pr)) (fresh_node name true false None [] 0x1ED 2)).

Lemma new_dir_ok name mode pr : fresh_ok (new_dir name mode pr).
Proof. split; [done|]. split; [done|]. apply dir_mode_bits. Qed.

(** What [mkdir] does when nothing stands against it. *)
Lemma do_mkdir_pushes p name event mode d dn (w : World) pr :
  cur w = Some pr -> resolve_path (vfs w) (fs w) p = Some d -> fs w !! d = Some dn -> t_is_dir dn = true ->
  name_ok name -> has_child name (t_children dn) (fs w) = false ->
  check_node_permission d 3 w = true -> hook_dir_mkdir (lsm w) (subject w) event = true ->
  exists w', do_mkdir p name event event mode w = Done 0 w' /\ vfs w' = vfs w /\ fs w' = (push_child d dn (t_children dn) (new_dir name mode pr) (fs w)).2.
Proof.
  intros Hc Hr Hd Hdir (Hne & Hs & Hdot & _) Hf Hperm Hhook. unfold do_mkdir, with_node. rewrite Hr, Hperm, Hhook. cbn [negb n_mkdir tmpfs_nodes].
  unfold mkdir, make. rewrite Hd, Hdir. cbn [negb]. rewrite !bool_decide_eq_false_2; [|done|intros ->; apply Hs; by left|done]. cbn [orb]. rewrite Hf.
  destruct (push_child _ _ _ _ _) as [a h'] eqn:Hp. unfold owner_mask. cbn [cur set_fs]. rewrite Hc. eexists. split; [done|]. split; [done|].
  unfold hand_over. cbn [fs set_fs inotify_emit n_chmod n_chown tmpfs_nodes].
  assert (a = length (fs w)) as -> by (unfold push_child in Hp; by injection Hp). replace h' with (push_child d dn (t_children dn) (fresh_node name true false None [] 0x1ED 2) (fs w)).2 by by rewrite Hp.
  fold (dir_mode mode (umask pr)). rewrite hand_over_push. unfold new_dir. by rewrite (proj1 (dir_mode_bits mode (umask pr))).
Qed.

(** C35. A directory made through the system call, the VFS and the file system in
    memory together. The path is that of a name in a directory, however the
    directory is reached, links and other mounts included; no mount point is called
    by the name, the directory has no such entry, the mode lets the caller write and
    search in it and the policy allows the call. Then the call returns zero, and
    afterwards the path leads to a new and empty directory that belongs to the user
    and the group of the caller, with the mode asked for without the bits of the
    umask, or all of them when the mode is zero; every path that led to a node before
    leads to it still, and no other node but the parent changes. *)
Theorem mkdir_makes ptr mode p name d (w : World) pr :
  heap_wf (fs w) -> cur w = Some pr -> name_ok name ->
  read_user_string (umem w) ptr PATH_MAX = Some (p ++ SLASH :: name) ->
  Forall (fun m => mount_clear name (mnt_path m)) (mounts (vfs w)) ->
  resolve_path (vfs w) (fs w) p = Some d -> is_dir d (fs w) = true -> find_child d name (fs w) = None ->
  check_node_permission d 3 w = true -> hook_dir_mkdir (lsm w) (subject w) (p ++ SLASH :: name) = true ->
  exists w' n st, sys_mkdir ptr mode w = Done 0 w' /\
    fs w !! n = None /\ resolve_path (vfs w') (fs w') (p ++ SLASH :: name) = Some n /\ children n (fs w') = Some [] /\
    stat n (fs w') = Some st /\ st_mode st = Z.lor S_IFDIR (dir_mode mode (umask pr)) /\
    st_uid st = euid (creds pr) /\ st_gid st = egid (creds pr) /\
    (forall q m, resolve_path (vfs w) (fs w) q = Some m -> resolve_path (vfs w') (fs w') q = Some m) /\
    (forall i, i <> d -> (i < length (fs w))%nat -> fs w' !! i = fs w !! i) /\ heap_wf (fs w').
Proof.
  intros Hw Hc Hn Hread Hm Hr Hd Hf Hperm Hhook.
  unfold is_dir in Hd. destruct (fs w !! d) as [dn|] eqn:Hdn; [|done]. apply andb_true_iff in Hd as [Hdir Hsym].
  assert (Hchild : has_child name (t_children dn) (fs w) = false).
  { apply not_true_iff_false. rewrite has_child_spec, <- named_none. by rewrite <- (find_child_dir d dn). }
  destruct (do_mkdir_pushes (parent_path p) name (p ++ SLASH :: name) mode d dn w pr) as (w' & Hrun & Hv & Hh); try done; [by rewrite resolve_parent|].
  destruct (push_grows d dn (new_dir name mode pr) (fs w)) as (_ & Hnew & Hfind & _ & Hsame); try done. rewrite <- Hh in *.
  pose proof (push_extends d dn (new_dir name mode pr) (fs w) Hw Hdn Hdir Hchild) as Hext. rewrite <- Hh in Hext.
  exists w', (length (fs w)). eexists. split_and!.
  - unfold sys_mkdir, with_string. rewrite Hread. unfold with_split. rewrite (split_rel_child p name Hn); [done|by eapply read_utf8].
  - by apply lookup_ge_None_2.
  - rewrite Hv. apply (resolve_child _ _ _ name d); [done|done| |done| |by apply (resolve_extends _ _ (fs w))].
    + cbn [n_is_dir tmpfs_nodes]. rewrite Hh, push_app by done. rewrite is_dir_children by (rewrite lookup_app_l; [done|by eapply lookup_lt_Some]).
      unfold is_dir. rewrite lookup_app_l by by eapply lookup_lt_Some. by rewrite Hdn, Hdir, Hsym.
    + unfold link_target. cbn [n_stat n_readlink tmpfs_nodes]. unfold stat, readlink. rewrite Hnew. cbn [mbind option_bind t_is_symlink new_dir]. by case_match.
  - unfold children. by rewrite Hnew.
  - unfold stat. by rewrite Hnew.
  - done.
  - done.
  - done.
  - rewrite Hv. intros q m. by apply resolve_extends.
  - exact Hsame.
  - rewrite Hh. apply push_wf; try done. apply new_dir_ok.
Qed.

(** ** Examples *)

#[export] Instance mount_clear_dec name m : Decision (mount_clear name m).
Proof. unfold mount_clear. apply _. Defined.

(** Strings in the user's memory, a page for each. *)
Definition user_page (i : Z) (s : Str) : UserMem := list_to_map (zip (seqZ (4096 * i) 4096) (s ++ replicate (4096 - length s) 0)).

Definition user (uid : Z) : Proc := mkProc 7 (mkCred uid uid uid uid uid uid 0) (mkFiles [] []) [SLASH] ∅ 0x12 [] (mkLandlock [] false).
Definition no_lsm : Lsm := mkLsm false 0 [] ∅.

(** Two paths, at 4096 and at 8192. *)
Definition world (h : Heap) (p : Proc) (a b : string) : World :=
  mkWorld h demo_vfs (Some p) no_lsm (user_page 1 (str a) ∪ user_page 2 (str b)) [] 0 (fun _ => (0, 0, 0)) (0, 0).

(** The directory [d] belongs to the user 1000. *)
Definition owned : Heap := (chown 2 1000 1000 demo).2.
Definition w_mkdir : World := world owned (user 1000) "/d/new" "".

Definition after (c : Call) (w : World) : World := match exec c w with Done _ w' => w' | _ => w end.
Definition result (c : Call) (w : World) : option Z := match exec c w with Done r _ => Some r | _ => None end.

Lemma owned_wf : heap_wf owned.
Proof.
  unfold owned. destruct demo_wf as [Hw Hd]. exact (proj1 (step_kept (OChown 2 1000 1000) demo Hw I)).
Qed.

Lemma result_done (c : Call) (w : World) r : result c w = Some r -> exists w', exec c w = Done r w'.
Proof. unfold result. destruct (exec c w); [|done..]. intros [= ->]. by eexists. Qed.


Lemma mkdir_makes_witness :
  exists w' n st, sys_mkdir 4096 0x1FF w_mkdir = Done 0 w' /\ resolve_path (vfs w') (fs w') (str "/d/new") = Some n /\
    stat n (fs w') = Some st /\ st_mode st = Z.lor S_IFDIR 0x1ED /\ st_uid st = 1000.
Proof.
  assert (Hn : name_ok (str "new")) by (apply (bool_decide_unpack _); vm_compute; exact I).
  assert (Hm : Forall (fun m => mount_clear (str "new") (mnt_path m)) (mounts (vfs w_mkdir))) by (apply (bool_decide_unpack _); vm_compute; exact I).
  destruct (mkdir_makes 4096 0x1FF (str "/d") (str "new") 2 w_mkdir (user 1000) owned_wf eq_refl Hn) as (w' & n & st & E & _ & Hr & _ & Hs & Hmode & Hu & _);
    [vm_compute; reflexivity|exact Hm|vm_compute; reflexivity..|].
  exists w', n, st. split; [exact E|]. split; [exact Hr|]. split; [exact Hs|]. split; [exact Hmode|exact Hu].
Defined.

Lemma open_binds_witness :
  exists fd w' pr', open_file (str "/d/x") 2 0 w_mkdir = Done fd w' /\ cur w' = Some pr' /\ binds (user 1000) pr' fd 3 2.
Proof.
  assert (Ht : tables_small (user 1000)) by (split; vm_compute; reflexivity).
  assert (Hr : resolve_path (vfs w_mkdir) (fs w_mkdir) (str "/d/x") = Some 3%nat) by (vm_compute; reflexivity).
  pose proof (open_binds (str "/d/x") 2 0 w_mkdir 3 (user 1000) eq_refl Ht Hr) as Ho.
  destruct (negb _) eqn:E1 in Ho; [vm_compute in E1; discriminate E1|]. destruct (_ && _) eqn:E2 in Ho; [vm_compute in E2; discriminate E2|].
  destruct Ho as (fd & w' & pr' & Ho & _ & Hc & _ & Hb & _). exists fd, w', pr'. split; [exact Ho|]. split; [exact Hc|exact Hb].
Defined.

(** Opening asks nothing of the mode: a file without any bits that belongs to
    another user is opened for reading and writing. *)
Example open_ignores_mode :
  let w := world (chmod 3 0 demo).2 (user 1000) "/d/x" "" in
  result (CAccess 4096 4) w = Some (Errno.ret Errno.EACCES) /\ result (COpen 4096 2 0) w = Some 0.
Proof. vm_compute. done. Qed.

(** [link] makes an entry in a directory in which [mkdir] may not. *)
Example link_unchecked :
  let w := world demo (user 1000) "/d/x" "/n" in
  result (CMkdir 8192 0) w = Some (Errno.ret Errno.EACCES) /\ result (CLink 4096 8192) w = Some 0 /\
  default [] (children 0 (fs (after (CLink 4096 8192) w))) <> default [] (children 0 demo).
Proof. vm_compute. done. Qed.

(** A file of the user in a directory of another leaves it by [rename], which
    [unlink] does not allow. *)
Example rename_unchecked :
  let w := world (chown 1 1000 1000 (chown 3 1000 1000 demo).2).2 (user 1000) "/d/x" "/tmp/y" in
  result (CUnlink 4096) w = Some (Errno.ret Errno.EACCES) /\ result (CRename 4096 8192) w = Some 0 /\
  let w' := after (CRename 4096 8192) w in
  resolve_path (vfs w') (fs w') (str "/d/x") = None /\ resolve_path (vfs w') (fs w') (str "/tmp/y") = Some 6%nat.
Proof. vm_compute. done. Qed.

(** A new file by a relative path loses the first character of its name, and the
    kernel panics when that is longer than a byte or when the path is empty. *)
Definition w_bytes (p : Str) : World := mkWorld demo demo_vfs (Some (user 0)) no_lsm (user_page 1 p) [] 0 (fun _ => (0, 0, 0)) (0, 0).

Example open_relative :
  let w := w_bytes (str "foo") in
  result (COpen 4096 0x40 0) w = Some 0 /\ resolve_path demo_vfs (fs (after (COpen 4096 0x40 0) w)) (str "/oo") = Some 6%nat.
Proof. vm_compute. done. Qed.

Example open_panics : exec (COpen 4096 0x40 0) (w_bytes [0xC3; 0xA9]) = Panic /\ exec (CRename 4096 4096) (w_bytes []) = Panic.
Proof. vm_compute. done. Qed.

(** Both follow a link: [lstat] gives the mode of the file and [readlink] fails. *)
Example link_followed :
  let w := world demo (user 0) "/d/l" "" in
  result (CReadlink 4096 8192 64) w = Some (Errno.ret Errno.EINVAL) /\ result (CLstat 4096 8192) w = Some 0 /\
  umem (after (CLstat 4096 8192) w) !! (8192 + 17) = Some 0x81 /\ stat 4 demo ≫= (fun st => Some (st_mode st)) = Some 0xA1FF.
Proof. vm_compute. done. Qed.

(** A path is relative to the root, also after [chdir]. *)
Example chdir_ignored :
  let w := after (CChdir 4096) (world demo (user 0) "/d" "sub") in
  result (CMkdir 8192 0) w = Some 0 /\
  let w' := after (CMkdir 8192 0) w in
  cwd <$> cur w' = Some (str "/d") /\ resolve_path (vfs w') (fs w') (str "/sub") = Some 6%nat /\ resolve_path (vfs w') (fs w') (str "/d/sub") = None.
Proof. vm_compute. done. Qed.

(** A sandbox with the right to read below [/d/] does not keep a process there. *)
Example sandbox_dotdot :
  let sandboxed := mkProc 7 (mkCred 1000 1000 1000 1000 1000 1000 0) (mkFiles [] []) [SLASH] ∅ 0x12 []
    (mkLandlock [mkRuleset [Landlock.mkRule (str "/d/") 4 4] 4 true] true) in
  let h := (create 0 (str "secret") demo).2 in
  result (COpen 4096 0 0) (world h sandboxed "/secret" "") = Some (Errno.ret Errno.EACCES) /\
  result (COpen 4096 0 0) (world h sandboxed "/d/../secret" "") = Some 0.
Proof. vm_compute. done. Qed.
